(* ===== verification/_CoqProject ===== *)
-Q . S2P
Prelude.v
RustText.v
Bytes.v
OrdMap.v
Framing.v
HookContract.v
SpoolFrame.v
SpoolScan.v
SpoolMeta.v
SpoolReplay.v
SpoolCheckpoint.v
PolicyRouting.v
PolicyDecisions.v
PolicyConfiguration.v
PolicyWorkLoop.v
ObservationState.v
HygieneReceipt.v
SpoolRevision.v
SpoolDisk.v
SpoolCommit.v
SpoolOpen.v
SpoolRecovery.v
SpoolHandle.v
SpoolAppend.v
SpoolRun.v
ObservationEnvelope.v
ObservationJournal.v
ObservationDelivery.v
ObservationAppend.v
ObservationRetention.v
ObservationSystem.v
ObservationFence.v
EditContract.v
EditRecords.v
EditFiles.v
EditPlan.v
EditJournal.v
EditVerify.v
EditLogic.v
EditExecute.v
EditPublish.v
EditText.v
EditRecovery.v
EditAtomic.v
EditSafety.v
EditReconcile.v
EditProperties.v
EditSamples.v
GraphScc.v
GraphHealth.v
