(* ===== verification/Prelude.v ===== *)
(** * TraceDecay: a verification development

    TraceDecay is a local daemon that coding agents talk to.  Host hooks emit
    events, a bounded framing layer carries them, a replay spool makes them
    durable, pure policy evaluators decide what may happen, and an observation
    journal delivers settled events to memory providers.  Beside that path, graph
    queries report the cycles and the depth of the indexed code, and source edits
    change it under a durable journal.  This library models the path, the core of
    these queries and the transactions of the edits.  Paths below are relative to
    [src/crates].

    ** Parts and files

    - [Prelude], [RustText], [Bytes], [OrdMap]: results and the [?] operator,
      machine-width and saturating arithmetic, a stable sort and preorders
      ([slice::sort_by] and chains of [then_with]); strings as lists of Unicode
      scalar values with UTF-8, and the canonical-text predicates of
      [tracedecay-domain/src/canonical_text.rs]; little-endian integers, arrays
      and the interface [Sha256]; [BTreeMap] as an ordered association list.
    - [Framing]: [tracedecay-framing/src/lib.rs], the blocking bounded reader
      and the line reader of every read loop, as a function of the answers of
      the source; a suspended or dropped read future is an event of the run.
    - [HookContract]: the event envelope, the scope binding and the host matrix
      of [tracedecay-hooks/src/lib.rs] and [native.rs], with their validation.
    - [SpoolFrame], [SpoolScan]: the codecs of [spool/types.rs] and
      [spool/frame.rs] and the recovery scan of the records file.
    - [SpoolMeta]: acknowledgements, the contiguous frontier and the check of
      the metadata against the records ([spool/meta.rs], [spool/mod.rs]).
    - [SpoolReplay]: quotas, the control reserve, session order and replay
      batches ([spool/replay.rs], [spool/mod.rs], [spool/lease.rs]).
    - [SpoolCheckpoint], [SpoolRevision]: the index file, the running prefix
      digest and the text of a file revision ([spool/checkpoint.rs]).
    - [SpoolDisk], [SpoolCommit]: the files of a spool directory with what of
      them is durable, the transition file and the synced extent
      ([spool/checkpoint.rs], [spool/commit.rs], [spool/frame.rs]), and the group
      commit of concurrent writers with resets written one member at a time,
      deaths of processes and power failures as a step relation, each step
      labelled with the [Hazard] it is, if any.
    - [SpoolOpen], [SpoolRecovery]: [HookSpoolV1::open_after_lease] over such a
      directory, in a small monad of disks and errors, and what it recovers.
    - [SpoolHandle], [SpoolAppend], [SpoolRun]: the operations of an open handle
      ([spool/mod.rs]) in a monad of handles and disks, what an append does to the
      log, and whole invocations over one directory.
    - [PolicyRouting], [PolicyDecisions], [PolicyConfiguration],
      [PolicyWorkLoop]: the evaluators of [tracedecay-policy/src], one per
      decision, over the records of [tracedecay-domain/src] they read.
    - [HygieneReceipt]: the sanitization receipts of
      [tracedecay-memory-provider-api/src/hygiene.rs] with their hand-written
      JSON printer and parser.
    - [ObservationEnvelope]: what the journal accepts: payloads, extensions and
      scopes of [tracedecay-memory-provider-api/src/lib.rs], settlements,
      envelopes and derived keys of [tracedecay-memory-observation/src]
      ([settlement.rs], [envelope.rs], [identity.rs]).
    - [ObservationState], [ObservationJournal], [ObservationDelivery]: the
      delivery states, receipts and policies of
      [tracedecay-memory-observation/src], the delivery operations of its SQLite
      journal ([sqlite/dispatch.rs], [sqlite/recovery.rs]) as functions on
      tables, and what each of them does to the tables.
    - [ObservationAppend], [ObservationRetention]: admission of observations,
      withheld events and non-message checkpoints ([sqlite/append.rs]), and the
      retention sweep and the deletion of a source ([sqlite/retention.rs]).
    - [ObservationSystem]: the operations of admission, delivery, deletion and
      retention composed over one database: [db_operation] with the attempts it
      hands out, [db_run] with or without sweeps, and the invariants of the runs.
    - [ObservationFence]: the provider source fences of [sqlite/retention.rs],
      a database of their own.
    - [EditContract], [EditRecords]: the requests and receipts of a source edit
      ([tracedecay-contracts/src]) and its journal, outcomes and records
      ([tracedecay-source-edit/src]: [journal.rs], [outcome.rs], [records.rs],
      [control.rs]).
    - [EditFiles], [EditPlan], [EditJournal]: the worktree and the record store
      as one [World] with a fate for every call, in a monad of worlds and
      answers; the directories that exist, which opening a path needs and the
      cleanup of a failed move removes; publication and restoration of planned
      files ([plan.rs], [file_authority.rs], [move_symbol/mod.rs]), digests ([digest.rs]), the skeletons of the edit
      primitives, and the record files.
    - [EditVerify], [EditText]: diagnostics after an edit ([verify.rs]) and the
      text of the single-file edits ([edits/primitives.rs], [edits/symbols.rs]).
    - [EditExecute], [EditReconcile]: the transactions: execution with recovery
      and replay ([execute.rs], [reconcile.rs]), rollback ([rollback.rs]) and
      explicit reconciliation.
    - [EditLogic], [EditPublish], [EditRecovery], [EditAtomic], [EditSafety]: the
      program logic of these transactions: frames of a computation, torn plans,
      steady previews, and a Hoare triple [triple] whose invariant holds wherever a
      run stops; [EditProperties] states the theorems, [EditSamples] runs them.
    - [GraphScc], [GraphHealth]: the strongly connected components of
      [tracedecay-graph-query/src/scc.rs], and what [queries.rs] and [health.rs]
      compute from them: circular dependencies, the edges in cycles and the
      longest dependency chains.

    ** How the code is modelled

    A Rust function is a Rocq function of the same name, a struct a record, an
    enum an inductive type; [Result] is [result] and [?] is [let?].  Integers
    are [Z] in the range of their Rust type, with [saturating_*] and
    [checked_*] written out ([sat_add], [i64_sat_add], ...).  A method that
    mutates [self] returns the new value.  Identity newtypes and digests are
    their strings.  Where two types have a method of the same name, the model's
    name carries the type ([state_as_wire], [outcome_as_wire]).

    Code outside the repository is a parameter with the behaviour the source
    relies on: [Sha256] is a function to arrays of 32 bytes, with no collision
    claim; [HookSpoolCodec], [CheckpointCodec], [TransitionCodec] and [MetaCodec]
    are the [serde_json] calls with their round trip, as is [DurableCodec] for the
    records of source edits; [Canonical] is the canonical digest of one
    serializable type, about which nothing is assumed but that its value is a
    digest ([EditDigests]), and for grant receipts, in one theorem, that no
    other fields share the digest of the issued ones.  The authorization port, the clock, the control and the
    diagnostics of a source edit are the record [Ports]; its [Primitives] stand for
    the text a primitive computes, of which the theorems use that it reports
    success exactly when it hands new text on ([honest], proved for the
    single-file edits by [text_honest]).  Every theorem that
    needs one has a witness in which the parameter is a concrete function.  The
    iteration order of a hash map is the order of a list, or an arbitrary
    permutation.

    ** What the theorems show

    - Framing: for every chunking and every pattern of dropped futures the
      lines read are the frames of the byte stream, lines round trip, memory
      stays within the frame ceiling, and the blocking reader accepts exactly
      the inputs within its bound.
    - Spool: a frame round trips; the scan finds all completed appends after a
      torn one and accounts for every byte of any file, with a torn tail,
      corruption and a request to reset told apart by what stands at their
      offset; acknowledgement settles
      exactly the acknowledged sequences and advances the frontier over them;
      the metadata check is exact; replay serves every waiting session within a
      bounded number of claims, whatever arrives, settles and is claimed between
      them, in maximal first-in-first-out batches; an admitted
      append keeps quotas and the control reserve; the checkpoint round trips
      and the prefix digest accepts exactly the files that start with bytes of
      that digest.
    - Spool directory: over every interleaving and power failure without a hazard
      a commit that answered is durable ([commit_answers_are_durable], by the
      invariant [inv]), and [interrupted_reset_skips_sync] and
      [forgotten_extent_comes_back] show that two of the three hazards lose it;
      an open recovers exactly the complete frames of a torn log within the
      limits, through a checkpoint as by a full scan, and never cuts bytes that a sync covered, on
      any disk; an append extends the log by its frame and the next open finds
      it.  [spool_at] and [handle_at] state when a disk holds a log and when a
      handle agrees with it.  Where the code fails its own contract:
      [append_past_the_limit_corrupts] (with the run
      [settled_frames_brick_the_spool]), [stuck_record_blocks_every_open] and
      [empty_cursor_blocks_every_open].
    - Policies: each evaluator's permission is characterised from both sides,
      with its reasons, seals and orderings; a configuration grant admits the
      mutation it was issued for and no other; route plans are the lexicographic
      ranking of the fitting routes, and sizing is calibrated or absent.
    - Observation journal: over every run of admissions, deliveries and
      deletions without a sweep attempt numbers are spent once, rows follow the
      state machine and the acknowledged watermark is sound and monotone; lease
      batches are bounded, a receipt settles its own attempt only, expired
      leases leave a record, and the attempt budget holds when the rows without
      attempts left fit one page; [fourth_attempt_leased] shows that it is
      exceeded otherwise.
    - Receipts and envelopes: the receipt parser accepts exactly the documents
      of valid receipts, and printing what it read is read back; a validated
      envelope satisfies the constraints of the tables, and its key hashes bytes
      that determine all of its inputs.
    - The journal as a whole: over every run of admissions, deliveries,
      deletions and sweeps the tables stay coherent ([db_ok] includes the
      [store_ok] of the delivery theorems), an admission inserts one observation
      or answers truly, a deleted source leaves no content, everything else is
      kept, and without a sweep what it had is not delivered again;
      [swept_event_is_admitted_again] gives the conditions under which an event
      is admitted twice, which a sweep between its two emissions produces, and
      which end the soundness of the watermark.
    - Fences: receipts are final, modes are never weakened, and a hard deletion
      blocks every revision from then on.
    - Source edits: for every pattern of failed calls and process deaths, in the
      edit as in its recoveries, the last recovery leaves the edit applied whole
      or not at all ([edit_is_atomic], with no journal pending before, where the
      digests tell a torn plan from a published one and created files lie beside
      others; [missing_directory_blocks_recovery] is what happens otherwise); with
      no journal pending, receipts are true of the files, dry runs write nothing, a
      spent key only replays, recovery never overwrites foreign bytes, rollback
      restores the retained preimages, reconciliation confirms only what the files
      prove, and verification counts are exact; replacements change the text in
      their place only, and an insertion adds its line next to the line its anchor
      names.  [cancelled_retry_hides_the_edit],
      [insertion_drops_carriage_returns] and [multibyte_symbol_end_panics] show
      where the code fails its contract.
    - Graphs: the iterative traversal returns the strongly connected components
      of any graph in reverse topological order, without a panic; the cycle
      report, the edge count and the depth ranking are characterised by
      reachability alone, for every iteration order of the hash maps.

    ** Fuel and bounds

    [read_loop] of [Framing] and [scan_loop] of [SpoolFrame] run on a fuel that
    their callers derive from the length of the input, as do
    [read_through_loop] of [SpoolCheckpoint] and [settle_loop] of [SpoolMeta]
    from the file and the map they consume, and [parse_members] of
    [HygieneReceipt] from the text; each pass consumes input, and the theorems
    are about the calls with that fuel, so none of them holds because a loop ran
    dry.  Decimal printing runs on 10 digits for [u32] and 20 for [u64], which
    hold every value of these types.  [traverse] of [GraphScc] has one turn per
    node and edge and one more, [topo_loop] and [chain_loop] of [GraphHealth] one
    per component and one more; their theorems show that they end with a result.
    All other recursion is structural.

    ** Not modelled

    The operating system (files, locks, clocks, sockets, the asynchronous
    runtime) is present only as the values it returns and, for the spool, as the
    directory of [SpoolDisk], whose calls succeed, and, for source edits, as the
    [World] of [EditFiles], whose calls may fail.  Of the spool, the waiting for
    its locks and the retirement of a whole directory; of source edits, the symbol
    lookup in the code graph, the ast-grep engine, the text analysis of moves and
    renames, temporary files, permissions and links, and writers outside the
    lock; of the hooks crate, the admission ledger and the delivery
    spool; of the observation crate, the asynchronous runtime (ingress, backpressure, the delivery loop,
    the source-delivery adapter), the budgeted variants of the fence operations
    and the read-only inspection queries; of the other crates, the parsers,
    stores, servers, adapters and user interfaces, and the floating-point
    kernel.

    Left for an extension, in this order: ingress and backpressure over the
    modelled admission; the admission ledger; the text of moves and renames; the
    routing of [tracedecay-memory-fabric]. *)
From stdpp Require Import base list numbers sorting.
From Stdlib Require Export ZArith Lia.

(** ** Results

    Rust's [Result<T, E>] and the [?] operator: [let? x := e in k] returns the
    error of [e] early and binds its value otherwise. *)
Inductive result (A E : Type) : Type :=
  | Ok (a : A)
  | Err (e : E).
Arguments Ok {A E} _.
Arguments Err {A E} _.

Declare Scope rust_scope.
Delimit Scope rust_scope with rust.

Notation "'let?' x := e 'in' k" :=
  (match e with Ok x => k | Err err => Err err end)
  (at level 10, x name, e at level 100, k at level 200) : rust_scope.

Definition is_ok {A E} (r : result A E) : bool :=
  match r with Ok _ => true | Err _ => false end.

Definition is_err {A E} (r : result A E) : bool := negb (is_ok r).

#[export] Instance result_eq_dec {A E} `{EqDecision A} `{EqDecision E} :
  EqDecision (result A E).
Proof. solve_decision. Defined.

(** ** Machine integers

    Every integer of the source is a [Z] together with the width the source
    gives it; the operations below are the ones the modelled code calls. *)
Definition u16_max : Z := 65535.
Definition u32_max : Z := 4294967295.
Definition u64_max : Z := 18446744073709551615.
Definition usize_max : Z := u64_max.
Definition i64_min : Z := -9223372036854775808.
Definition i64_max : Z := 9223372036854775807.

(** [a.saturating_add(b)], [a.saturating_mul(b)] at an unsigned type whose
    largest value is [m]; [a.saturating_sub(b)] stops at zero. *)
Definition sat_add (m a b : Z) : Z := Z.min m (a + b).
Definition sat_mul (m a b : Z) : Z := Z.min m (a * b).
Definition sat_sub (a b : Z) : Z := Z.max 0 (a - b).

(** [i64::saturating_add] and [i64::saturating_sub]. *)
Definition i64_clamp (x : Z) : Z := Z.max i64_min (Z.min i64_max x).
Definition i64_sat_add (a b : Z) : Z := i64_clamp (a + b).
Definition i64_sat_sub (a b : Z) : Z := i64_clamp (a - b).
Definition i64_sat_mul (a b : Z) : Z := i64_clamp (a * b).

(** [checked_add] and [checked_mul]: [None] is the overflow. *)
Definition in_i64 (x : Z) : bool := bool_decide (i64_min ≤ x ≤ i64_max)%Z.
Definition i64_checked_mul (a b : Z) : option Z :=
  if in_i64 (a * b)%Z then Some (a * b)%Z else None.
Definition i64_checked_add (a b : Z) : option Z :=
  if in_i64 (a + b)%Z then Some (a + b)%Z else None.
Definition checked_add (m a b : Z) : option Z :=
  if bool_decide (a + b ≤ m)%Z then Some (a + b)%Z else None.

(** [v.len()] as the unsigned machine integer the code compares. *)
Definition zlen {A} (l : list A) : Z := Z.of_nat (length l).

(** ** Automation *)
Create HintDb rust.

(** Case analysis on the scrutinee of the first [match] or [if] of the goal
    or of a hypothesis, with its equation. *)
Ltac case_step :=
  match goal with
  | |- context [if ?b then _ else _] => destruct b eqn:?
  | |- context [match ?e with _ => _ end] => destruct e eqn:?
  end.
Ltac case_step_in H :=
  match type of H with
  | context [if ?b then _ else _] => destruct b eqn:?
  | context [match ?e with _ => _ end] => destruct e eqn:?
  end.

(** Turns the boolean tests of the code into the propositions they decide. *)
Ltac bools :=
  repeat match goal with
  | H : _ && _ = true |- _ => apply andb_true_iff in H as [? ?]
  | H : _ || _ = false |- _ => apply orb_false_iff in H as [? ?]
  | H : negb _ = true |- _ => apply negb_true_iff in H
  | H : negb _ = false |- _ => apply negb_false_iff in H
  | H : bool_decide _ = true |- _ => apply bool_decide_eq_true_1 in H
  | H : bool_decide _ = false |- _ => apply bool_decide_eq_false_1 in H
  | H : Is_true (bool_decide _) |- _ => apply bool_decide_unpack in H
  end.

Ltac zlen_lia := unfold zlen in *; rewrite ?length_app, ?length_take, ?length_drop in *; lia.

(** ** Lists *)
Section lists.
Context {A : Type}.
Implicit Types l k : list A.

Lemma zlen_nonneg l : (0 ≤ zlen l)%Z.
Proof. unfold zlen; lia. Qed.

Lemma zlen_app l k : zlen (l ++ k) = (zlen l + zlen k)%Z.
Proof. unfold zlen. rewrite length_app. lia. Qed.

Lemma zlen_cons x l : zlen (x :: l) = (1 + zlen l)%Z.
Proof. unfold zlen. simpl. lia. Qed.

Lemma zlen_take n l : (zlen (take n l) ≤ Z.of_nat n)%Z.
Proof. unfold zlen. rewrite length_take. lia. Qed.

(** A prefix that is longer than [n] already holds the first [n] elements. *)
Lemma take_prefix_enough n l k :
  n ≤ length l → take n (l ++ k) = take n l.
Proof. intros. by rewrite take_app_le. Qed.
End lists.

Lemma forallb_Forall {A} (f : A → bool) (l : list A) :
  forallb f l = true ↔ Forall (λ x, f x = true) l.
Proof. rewrite forallb_forall, Forall_forall. by setoid_rewrite list_elem_of_In. Qed.

Lemma strongly_sorted_impl {A} (R R' : A → A → Prop) (l : list A) :
  (∀ a b, R a b → R' a b) → StronglySorted R l → StronglySorted R' l.
Proof. intros HR. induction 1; constructor; [done|]. by eapply Forall_impl; [|apply HR]. Qed.

Lemma increasing_NoDup (l : list Z) : StronglySorted Z.lt l → NoDup l.
Proof.
  induction 1 as [|x l Hl IH Hx]; constructor; [|done].
  intros Hin. rewrite Forall_forall in Hx. specialize (Hx x Hin). lia.
Qed.

(** A strictly increasing list grows by an element past its last one. *)
Lemma increasing_snoc (l : list Z) (y : Z) :
  StronglySorted Z.lt l → (∀ z, last l = Some z → (z < y)%Z) → StronglySorted Z.lt (l ++ [y]).
Proof.
  induction 1 as [|x l Hl IH Hx]; intros Hy; simpl; [repeat constructor|].
  assert (∀ z, last l = Some z → (z < y)%Z) as Hy'.
  { intros z Hz. apply Hy. destruct l; [done|]. by rewrite last_cons_cons. }
  constructor; [by apply IH|]. apply Forall_app. split; [done|]. constructor; [|done].
  destruct (last l) as [z|] eqn:E.
  - specialize (Hy' z eq_refl). apply last_Some in E as [l' ->].
    rewrite Forall_app, Forall_singleton in Hx. lia.
  - apply last_None in E as ->. by apply Hy.
Qed.

(** *** Boolean filters and searches *)
Lemma filter_submseteq {A} (f : A → bool) (l : list A) : List.filter f l ⊆+ l.
Proof.
  apply sublist_submseteq. induction l as [|x l IH]; simpl; [constructor|].
  destruct (f x); by constructor.
Qed.

Lemma submseteq_NoDup {A} (l k : list A) : l ⊆+ k → NoDup k → NoDup l.
Proof.
  intros (l' & Hp & Hs)%submseteq_sublist_r Hk. rewrite Hp. by eapply sublist_NoDup.
Qed.

Lemma NoDup_fmap_inj {A B} (f : A → B) (l : list A) x y :
  NoDup (f <$> l) → x ∈ l → y ∈ l → f x = f y → x = y.
Proof.
  intros Hnd (i & Hi)%list_elem_of_lookup (j & Hj)%list_elem_of_lookup E.
  assert (i = j) as ->; [|congruence].
  eapply (NoDup_lookup (f <$> l)); [done|..]; rewrite list_lookup_fmap.
  - by rewrite Hi.
  - rewrite Hj. simpl. congruence.
Qed.

Lemma existsb_spec {A} (f : A → bool) (l : list A) : existsb f l = true ↔ ∃ x, x ∈ l ∧ f x = true.
Proof. rewrite existsb_exists. by setoid_rewrite <- list_elem_of_In. Qed.

Lemma existsb_false {A} (f : A → bool) (l : list A) :
  existsb f l = false ↔ ∀ x, x ∈ l → f x = false.
Proof.
  rewrite <- not_true_iff_false, existsb_spec. split.
  - intros Hn x Hx. destruct (f x) eqn:E; [|done]. destruct Hn. eauto.
  - intros Hf (x & Hx & E). rewrite Hf in E; done.
Qed.

Lemma elem_of_filterb {A} (f : A → bool) (l : list A) x :
  x ∈ List.filter f l ↔ x ∈ l ∧ f x = true.
Proof. rewrite !list_elem_of_In. apply filter_In. Qed.

Lemma head_filter_some {A} (f : A → bool) (l : list A) x :
  head (List.filter f l) = Some x → x ∈ l ∧ f x = true.
Proof. intros Hh%head_Some_elem_of. by apply elem_of_filterb. Qed.

Lemma head_filter_none {A} (f : A → bool) (l : list A) x :
  head (List.filter f l) = None → x ∈ l → f x = false.
Proof.
  intros Hh Hx. destruct (f x) eqn:E; [|done]. assert (x ∈ List.filter f l) as Hin by by apply elem_of_filterb.
  destruct (List.filter f l); [by apply elem_of_nil in Hin|done].
Qed.

Lemma head_filter_unique {A B} (g : A → B) (f : A → bool) (l : list A) x :
  NoDup (g <$> l) → (∀ a, a ∈ l → f a = true → g a = g x) → x ∈ l → f x = true →
  head (List.filter f l) = Some x.
Proof.
  intros Hnd Hg Hx Hf. destruct (head (List.filter f l)) as [y|] eqn:E.
  - apply head_filter_some in E as [Hy Ey]. f_equal. apply (NoDup_fmap_inj g l); auto.
  - by rewrite (head_filter_none f l x E Hx) in Hf.
Qed.

Lemma filter_fmap {A B} (f : A → B) (p : B → bool) (l : list A) :
  List.filter p (f <$> l) = f <$> List.filter (λ x, p (f x)) l.
Proof.
  induction l as [|x l IH]; [done|]. rewrite fmap_cons. cbn [List.filter]. rewrite IH.
  by destruct (p (f x)).
Qed.

Lemma filter_all {A} (p : A → bool) (l : list A) : (∀ x, x ∈ l → p x = true) → List.filter p l = l.
Proof.
  induction l as [|x l IH]; intros Hp; [done|]. simpl. rewrite Hp by left. f_equal. apply IH.
  intros y Hy. apply Hp. by right.
Qed.

Lemma filter_none {A} (p : A → bool) (l : list A) : (∀ x, x ∈ l → p x = false) → List.filter p l = [].
Proof.
  induction l as [|x l IH]; intros Hp; [done|]. simpl. rewrite Hp by left. apply IH.
  intros y Hy. apply Hp. by right.
Qed.

Lemma NoDup_fmap_filter {A B} (g : A → B) (p : A → bool) (l : list A) :
  NoDup (g <$> l) → NoDup (g <$> List.filter p l).
Proof. intros Hnd. eapply submseteq_NoDup; [|exact Hnd]. apply fmap_submseteq, filter_submseteq. Qed.

Lemma NoDup_fmap_snoc {A B} (g : A → B) (l : list A) x :
  NoDup (g <$> l) → (∀ y, y ∈ l → g y ≠ g x) → NoDup (g <$> l ++ [x]).
Proof.
  intros Hnd Hx. rewrite fmap_app. apply NoDup_app. split; [done|]. split; [|apply NoDup_singleton].
  intros b (y & -> & Hy)%list_elem_of_fmap Hb%list_elem_of_singleton. by apply (Hx y).
Qed.

Lemma Forall2_filter {A B} (R : A → B → Prop) (p : A → bool) (q : B → bool) l k :
  (∀ a b, R a b → p a = q b) → Forall2 R l k → Forall2 R (List.filter p l) (List.filter q k).
Proof.
  intros Hpq. induction 1 as [|a b l k Hab _ IH]; simpl; [constructor|].
  rewrite <- (Hpq a b Hab). destruct (p a); [by constructor|done].
Qed.

Lemma sum_nonneg_app (l k : list Z) : (foldr Z.add 0 (l ++ k) = foldr Z.add 0 l + foldr Z.add 0 k)%Z.
Proof. induction l; simpl; lia. Qed.

#[export] Hint Resolve zlen_nonneg : rust.

(** ** Stable sorting

    Rust's [sort_by] and [sort_unstable] with a total comparison, as insertion
    sort: an element is placed before the first one that is strictly greater,
    so equal elements keep their order. *)
Section sort_by.
Context {A : Type} (leb : A → A → bool).

Fixpoint insert_by (x : A) (l : list A) : list A :=
  match l with
  | [] => [x]
  | y :: ys => if leb x y then x :: y :: ys else y :: insert_by x ys
  end.

Fixpoint sort_by (l : list A) : list A :=
  match l with
  | [] => []
  | x :: xs => insert_by x (sort_by xs)
  end.

Definition leb_rel (x y : A) : Prop := leb x y = true.

Lemma insert_by_perm x l : insert_by x l ≡ₚ x :: l.
Proof.
  induction l as [|y l IH]; [done|]. simpl. destruct (leb x y); [done|].
  rewrite IH. apply Permutation_swap.
Qed.

Lemma sort_by_perm l : sort_by l ≡ₚ l.
Proof. induction l as [|x l IH]; [done|]. simpl. by rewrite insert_by_perm, IH. Qed.

Context (leb_total : ∀ x y, leb x y = true ∨ leb y x = true).
Context (leb_trans : ∀ x y z, leb x y = true → leb y z = true → leb x z = true).

Lemma insert_by_sorted x l :
  StronglySorted leb_rel l → StronglySorted leb_rel (insert_by x l).
Proof.
  induction 1 as [|y l Hl IH Hy]; simpl; [repeat constructor|].
  destruct (leb x y) eqn:E.
  - constructor; [by constructor|]. constructor; [done|].
    eapply Forall_impl; [done|]. intros z Hz. unfold leb_rel in *. eauto.
  - constructor; [done|]. rewrite insert_by_perm. constructor; [|done].
    destruct (leb_total x y) as [?|?]; [congruence|done].
Qed.

Lemma sort_by_sorted l : StronglySorted leb_rel (sort_by l).
Proof. induction l; simpl; [constructor|]. by apply insert_by_sorted. Qed.
End sort_by.

(** ** Lexicographic comparisons

    A comparison that is a total preorder, and the [then_with] chain of two of
    them. *)

(** [Ordering::then_with]. *)
Definition then_with (a b : comparison) : comparison := match a with Eq => b | _ => a end.

Class Preordered {A} (c : A → A → comparison) : Prop := {
  pre_antisym : ∀ a b, c b a = CompOpp (c a b);
  pre_trans : ∀ a b d, c a b ≠ Gt → c b d ≠ Gt → c a d ≠ Gt;
}.

Section preordered.
Context {A : Type}.

Lemma pre_lt_trans (c : A → A → comparison) `{!Preordered c} a b d :
  c a b ≠ Gt → c b d ≠ Gt → c a d = Eq → c a b = Eq ∧ c b d = Eq.
Proof.
  intros Hab Hbd Had.
  assert (c d a ≠ Gt) as Hda by (rewrite (pre_antisym a d), Had; done).
  pose proof (pre_trans _ _ _ Hda Hab) as Hdb. pose proof (pre_trans _ _ _ Hbd Hda) as Hba.
  rewrite (pre_antisym b d) in Hdb. rewrite (pre_antisym a b) in Hba.
  destruct (c a b), (c b d); done.
Qed.

Lemma then_with_preordered (c c' : A → A → comparison)
  `{!Preordered c} `{!Preordered c'} : Preordered (λ a b, then_with (c a b) (c' a b)).
Proof.
  split.
  - intros a b. rewrite (pre_antisym (c:=c) a b), (pre_antisym (c:=c') a b).
    by destruct (c a b).
  - intros a b d Hab Hbd.
    assert (c a b ≠ Gt) as H1 by (destruct (c a b); done).
    assert (c b d ≠ Gt) as H2 by (destruct (c b d); done).
    pose proof (pre_trans _ _ _ H1 H2) as H3. destruct (c a d) eqn:E; simpl; [|done..].
    destruct (pre_lt_trans c a b d H1 H2 E) as [E1 E2]. rewrite E1, E2 in *.
    by apply (pre_trans (c:=c') a b d).
Qed.

Lemma compare_on_preordered {B} (c : B → B → comparison) (f : A → B)
  `{!Preordered c} : Preordered (λ a b, c (f a) (f b)).
Proof. split; intros; [apply (pre_antisym (c:=c))|by eapply (pre_trans (c:=c))]. Qed.

Lemma reversed_preordered (c : A → A → comparison) `{!Preordered c} :
  Preordered (λ a b, c b a).
Proof. split; intros; [apply (pre_antisym (c:=c))|by eapply (pre_trans (c:=c))]. Qed.

(** The [<=] of a comparison, as the sort uses it. *)
Definition cmp_leb (c : A → A → comparison) (a b : A) : bool :=
  match c a b with Gt => false | _ => true end.

Lemma cmp_leb_total (c : A → A → comparison) `{!Preordered c} a b :
  cmp_leb c a b = true ∨ cmp_leb c b a = true.
Proof. unfold cmp_leb. rewrite (pre_antisym a b). destruct (c a b); auto. Qed.

Lemma cmp_leb_trans (c : A → A → comparison) `{!Preordered c} a b d :
  cmp_leb c a b = true → cmp_leb c b d = true → cmp_leb c a d = true.
Proof.
  unfold cmp_leb. intros Hab Hbd.
  pose proof (pre_trans (c:=c) a b d) as Ht.
  destruct (c a d); [done..|]. exfalso. apply Ht; [by destruct (c a b)|by destruct (c b d)|done].
Qed.
End preordered.

#[export] Instance Zcompare_preordered : Preordered Z.compare.
Proof. split; intros *; [apply Z.compare_antisym|]. rewrite !Z.compare_gt_iff. lia. Qed.

Lemma strongly_sorted_remove {A} (R : A → A → Prop) (l k : list A) (x : A) :
  StronglySorted R (l ++ x :: k) → StronglySorted R (l ++ k).
Proof.
  induction l as [|y l IH]; simpl; inversion_clear 1 as [|? ? Hs Hf]; [done|].
  constructor; [by apply IH|]. rewrite Forall_app, Forall_cons in Hf. apply Forall_app. tauto.
Qed.
