(* ===== verification/RustText.v ===== *)
(** * Text: Rust strings, UTF-8 and the canonical-text predicates

    [String] and [&str] are lists of Unicode scalar values; the bytes of a
    string are its UTF-8 encoding, as [str::len], [str::bytes] and the
    byte-wise [Ord] of strings see it.  On top of it, the shared predicates of
    [tracedecay-domain/src/canonical_text.rs] and the digest validator of
    [tracedecay-domain/src/research/id.rs]. *)
From stdpp Require Import base list numbers sorting strings.
From S2P Require Import Prelude.

Abbreviation rstr := (list Z).
Abbreviation bytes := (list Z).

#[local] Open Scope Z_scope.

(** A string literal of the source: its characters are ASCII. *)
Fixpoint str (s : string) : rstr :=
  match s with
  | EmptyString => []
  | String a s => Z.of_N (Ascii.N_of_ascii a) :: str s
  end.

Arguments str : simpl never.

(** ** The standard library's character classes *)

(** [char::is_control]: the general category Cc. *)
Definition is_control (c : Z) : bool :=
  ((0 <=? c) && (c <=? 31)) || ((127 <=? c) && (c <=? 159)).

(** [char::is_whitespace]: the property White_Space. *)
Definition is_whitespace (c : Z) : bool :=
  ((9 <=? c) && (c <=? 13)) || (c =? 32) || (c =? 133) || (c =? 160) || (c =? 5760) ||
  ((8192 <=? c) && (c <=? 8202)) || (c =? 8232) || (c =? 8233) || (c =? 8239) ||
  (c =? 8287) || (c =? 12288).

(** A Unicode scalar value: what a [char] may hold. *)
Definition is_scalar (c : Z) : bool :=
  ((0 <=? c) && (c <=? 55295)) || ((57344 <=? c) && (c <=? 1114111)).

(** ** UTF-8 *)
Definition utf8_char (c : Z) : bytes :=
  if c <? 128 then [c]
  else if c <? 2048 then [192 + c / 64; 128 + c mod 64]
  else if c <? 65536 then [224 + c / 4096; 128 + (c / 64) mod 64; 128 + c mod 64]
  else [240 + c / 262144; 128 + (c / 4096) mod 64; 128 + (c / 64) mod 64; 128 + c mod 64].

Definition utf8_encode (s : rstr) : bytes := s ≫= utf8_char.

Definition within (lo hi b : Z) : bool := (lo <=? b) && (b <=? hi).
Definition cont (b : Z) : bool := within 128 191 b.

(** [String::from_utf8]: the well-formed byte sequences and nothing else (no
    overlong form, no surrogate, nothing past U+10FFFF). *)
Fixpoint utf8_decode (b : bytes) : option rstr :=
  match b with
  | [] => Some []
  | b0 :: r0 =>
    if within 0 127 b0 then cons b0 <$> utf8_decode r0
    else match r0 with
    | [] => None
    | b1 :: r1 =>
      if within 194 223 b0 then
        if cont b1 then cons ((b0 - 192) * 64 + (b1 - 128)) <$> utf8_decode r1 else None
      else match r1 with
      | [] => None
      | b2 :: r2 =>
        if ((b0 =? 224) && within 160 191 b1) || (within 225 236 b0 && cont b1) ||
           ((b0 =? 237) && within 128 159 b1) || (within 238 239 b0 && cont b1) then
          if cont b2 then
            cons ((b0 - 224) * 4096 + (b1 - 128) * 64 + (b2 - 128)) <$> utf8_decode r2
          else None
        else match r2 with
        | [] => None
        | b3 :: r3 =>
          if (((b0 =? 240) && within 144 191 b1) || (within 241 243 b0 && cont b1) ||
              ((b0 =? 244) && within 128 143 b1)) && cont b2 && cont b3 then
            cons ((b0 - 240) * 262144 + (b1 - 128) * 4096 + (b2 - 128) * 64 + (b3 - 128))
              <$> utf8_decode r3
          else None
        end
      end
    end
  end.

(** [str::len]: the number of bytes. *)
Definition str_len (s : rstr) : Z := zlen (utf8_encode s).

(** ** Trimming and splitting *)
Fixpoint trim_start (s : rstr) : rstr :=
  match s with
  | [] => []
  | c :: r => if is_whitespace c then trim_start r else s
  end.

Definition trim_end (s : rstr) : rstr := reverse (trim_start (reverse s)).
Definition trim (s : rstr) : rstr := trim_end (trim_start s).

(** [str::split_once] at a single character. *)
Fixpoint split_once (sep : Z) (s : rstr) : option (rstr * rstr) :=
  match s with
  | [] => None
  | c :: r =>
    if c =? sep then Some ([], r)
    else match split_once sep r with
         | Some (a, b) => Some (c :: a, b)
         | None => None
         end
  end.

(** [str::split_whitespace().count()]: maximal runs of characters that are
    not whitespace. *)
Fixpoint words_from (inside : bool) (s : rstr) : Z :=
  match s with
  | [] => 0
  | c :: r =>
    if is_whitespace c then words_from false r
    else (if inside then 0 else 1) + words_from true r
  end.

Definition split_whitespace_count (s : rstr) : Z := words_from false s.

(** [str::strip_prefix]. *)
Fixpoint strip_prefix (p s : rstr) : option rstr :=
  match p, s with
  | [], _ => Some s
  | a :: p, b :: s => if a =? b then strip_prefix p s else None
  | _ :: _, [] => None
  end.

(** [Ord] of strings: lexicographic on bytes. *)
Fixpoint bytes_compare (a b : bytes) : comparison :=
  match a, b with
  | [], [] => Eq
  | [], _ :: _ => Lt
  | _ :: _, [] => Gt
  | x :: a, y :: b => match x ?= y with Eq => bytes_compare a b | c => c end
  end.

Definition str_compare (a b : rstr) : comparison :=
  bytes_compare (utf8_encode a) (utf8_encode b).

(** ** canonical_text.rs and research/id.rs *)
Definition CANONICAL_TEXT_MAX_BYTES : Z := 512.

(** The rejections of [DomainError] the validators report. *)
Inductive DomainError : Type :=
  | Empty (field : rstr)
  | NonCanonical (field : rstr)
  | DigestMismatch
  | SnapshotMismatch (field : rstr)
  | OtherDomainError.

#[export] Instance DomainError_eq_dec : EqDecision DomainError.
Proof. solve_decision. Defined.

Definition is_empty {A} (l : list A) : bool := match l with [] => true | _ => false end.

Definition is_canonical_text (value : rstr) : bool :=
  negb (is_empty value) && bool_decide (trim value = value) && negb (existsb is_control value).

Definition is_canonical_text_within (value : rstr) (max_bytes : Z) : bool :=
  (str_len value <=? max_bytes) && is_canonical_text value.

Definition is_lowercase_hex_byte (b : Z) : bool := within 48 57 b || within 97 102 b.

Definition is_lowercase_hex (value : rstr) (length : Z) : bool :=
  (str_len value =? length) && forallb is_lowercase_hex_byte (utf8_encode value).

Definition is_tagged_lowercase_hex (value tag : rstr) (length : Z) : bool :=
  match strip_prefix tag value with
  | Some encoded => is_lowercase_hex encoded length
  | None => false
  end.

Definition is_git_object_id (value : rstr) : bool :=
  is_lowercase_hex value 40 || is_lowercase_hex value 64.

Definition HEX_DIGITS : bytes := str "0123456789abcdef".

Definition hex_byte (byte : Z) : rstr :=
  [nth (Z.to_nat (Z.shiftr byte 4)) HEX_DIGITS 0; nth (Z.to_nat (Z.land byte 15)) HEX_DIGITS 0].

Definition encode_tagged_lowercase_hex (tag : rstr) (bs : bytes) : rstr :=
  tag ++ (bs ≫= hex_byte).

Definition validate_canonical_string (value field : rstr) : result unit DomainError :=
  if is_empty value then Err (Empty field)
  else if negb (is_canonical_text_within value CANONICAL_TEXT_MAX_BYTES)
  then Err (NonCanonical field)
  else Ok tt.

Definition sha256_hex_suffix (value : rstr) : option rstr :=
  strip_prefix (str "sha256:") value.

Definition digest_algorithm_len (algorithm : rstr) : option Z :=
  if bool_decide (algorithm = str "sha256") || bool_decide (algorithm = str "blake3") then Some 64
  else if bool_decide (algorithm = str "sha512") then Some 128
  else None.

Definition validate_integrity_digest (value field : rstr) : result unit DomainError :=
  if is_empty value then Err (Empty field)
  else
    let valid :=
      match split_once 58 value with
      | Some (algorithm, encoded) =>
        match digest_algorithm_len algorithm with
        | Some expected_len => is_lowercase_hex encoded expected_len
        | None => false
        end
      | None => false
      end in
    if negb valid then Err (NonCanonical field) else Ok tt.

(** [ManifestDigest::from_sha256_bytes] and the [validate] of a digest
    newtype; the newtypes are their strings. *)
Definition digest_new (value field : rstr) : result rstr DomainError :=
  match validate_integrity_digest value field with Ok _ => Ok value | Err e => Err e end.

Definition from_sha256_bytes (digest : bytes) : result rstr DomainError :=
  digest_new (encode_tagged_lowercase_hex (str "sha256:") digest) (str "ManifestDigest").

Definition digest_ok (d : rstr) : bool := is_ok (validate_integrity_digest d []).
Definition identity_ok (d : rstr) : bool := is_ok (validate_canonical_string d []).

(** ** Lemmas *)

(** Linear arithmetic with the divisions of the UTF-8 encoder. *)
Ltac utf8_arith := zify; Z.to_euclidean_division_equations; lia.

(** Decides the outermost test of the goal by arithmetic. *)
Ltac utf8_test b :=
  match goal with |- (if ?t then _ else _) = _ => replace t with b by utf8_arith end.

Lemma utf8_decode_char c rest :
  is_scalar c = true → utf8_decode (utf8_char c ++ rest) = cons c <$> utf8_decode rest.
Proof.
  unfold is_scalar, utf8_char. intros Hc.
  destruct (c <? 128) eqn:H1; [|destruct (c <? 2048) eqn:H2; [|destruct (c <? 65536) eqn:H3]];
    cbn [app utf8_decode]; unfold cont, within.
  - by utf8_test true.
  - utf8_test false. utf8_test true. utf8_test true. do 2 f_equal. utf8_arith.
  - utf8_test false. utf8_test false. utf8_test true. utf8_test true. do 2 f_equal. utf8_arith.
  - utf8_test false. utf8_test false. utf8_test false. utf8_test true. do 2 f_equal. utf8_arith.
Qed.

Lemma utf8_decode_encode s :
  forallb is_scalar s = true → utf8_decode (utf8_encode s) = Some s.
Proof.
  induction s as [|c s IH]; [done|]. intros [Hc Hs]%andb_true_iff.
  unfold utf8_encode in *. cbn [mbind list_bind]. rewrite utf8_decode_char by done.
  by rewrite IH.
Qed.

(** The test of the goal is false, or true, by arithmetic. *)
Ltac utf8_no :=
  match goal with |- context [if ?t then _ else _] => destruct t eqn:?; [utf8_arith|] end.
Ltac utf8_yes :=
  match goal with |- context [if ?t then _ else _] => destruct t eqn:?; [|utf8_arith] end.

(** A tactic for one accepted multi-byte sequence: the rest is the induction
    hypothesis and the head character is arithmetic. *)
Ltac utf8_sound_case IH :=
  match goal with
  | H : _ <$> utf8_decode ?r = Some _ |- _ =>
    apply fmap_Some in H as (s' & Hs' & ->);
    destruct (IH r ltac:(simpl in *; lia) s' Hs') as [<- ?];
    split; [unfold utf8_encode; cbn [mbind list_bind]; unfold utf8_char | cbn [forallb]]
  end.

Lemma utf8_decode_sound b s :
  utf8_decode b = Some s → utf8_encode s = b ∧ forallb is_scalar s = true.
Proof.
  remember (length b) as n eqn:Hn. assert (Hle : (length b <= n)%nat) by lia. clear Hn.
  revert b Hle s. induction n as [|n IHn]; intros [|b0 r0] Hle s; simpl in Hle;
    try lia; [by intros [= <-]..|].
  assert (IH : ∀ b, (length b < S n)%nat → ∀ s, utf8_decode b = Some s →
    utf8_encode s = b ∧ forallb is_scalar s = true) by (intros; apply IHn; [lia|done]).
  clear IHn. cbn [utf8_decode]. unfold cont, within, is_scalar.
  intros H. repeat case_step_in H; try discriminate; utf8_sound_case IH.
  - destruct (b0 <? 128) eqn:?; [done|lia].
  - apply andb_true_iff; split; [lia|done].
  - utf8_no.
    utf8_yes.
    cbn [app]. repeat f_equal; utf8_arith.
  - apply andb_true_iff; split; [utf8_arith|done].
  - utf8_no.
    utf8_no.
    utf8_yes.
    cbn [app]. repeat f_equal; utf8_arith.
  - apply andb_true_iff; split; [utf8_arith|done].
  - utf8_no.
    utf8_no.
    utf8_no.
    cbn [app]. repeat f_equal; utf8_arith.
  - apply andb_true_iff; split; [utf8_arith|done].
Qed.

Lemma utf8_encode_inj s t :
  forallb is_scalar s = true → forallb is_scalar t = true →
  utf8_encode s = utf8_encode t → s = t.
Proof.
  intros Hs%utf8_decode_encode Ht%utf8_decode_encode E. congruence.
Qed.

(** *** The byte order is a total order *)
Lemma bytes_compare_refl a : bytes_compare a a = Eq.
Proof. induction a as [|x a IH]; [done|]. simpl. by rewrite Z.compare_refl. Qed.

Lemma bytes_compare_eq a b : bytes_compare a b = Eq → a = b.
Proof.
  revert b. induction a as [|x a IH]; intros [|y b]; simpl; try done.
  destruct (x ?= y) eqn:E; try done. apply Z.compare_eq in E as ->. intros ?%IH. by subst.
Qed.

Lemma bytes_compare_antisym a b : bytes_compare b a = CompOpp (bytes_compare a b).
Proof.
  revert b. induction a as [|x a IH]; intros [|y b]; simpl; try done.
  rewrite (Z.compare_antisym x y). destruct (x ?= y); simpl; auto.
Qed.

Lemma bytes_compare_lt_trans a b c :
  bytes_compare a b = Lt → bytes_compare b c = Lt → bytes_compare a c = Lt.
Proof.
  revert b c. induction a as [|x a IH]; intros [|y b] [|z c]; simpl; try done.
  destruct (x ?= y) eqn:E1; destruct (y ?= z) eqn:E2; try done;
    rewrite ?Z.compare_eq_iff, ?Z.compare_lt_iff in *; subst.
  - rewrite Z.compare_refl. eauto.
  - intros _ _. by rewrite (proj2 (Z.compare_lt_iff _ _) E2).
  - intros _ _. by rewrite (proj2 (Z.compare_lt_iff _ _) E1).
  - intros _ _. assert (x < z) as Hxz by lia. by rewrite (proj2 (Z.compare_lt_iff _ _) Hxz).
Qed.

#[export] Instance bytes_compare_preordered : Preordered bytes_compare.
Proof.
  split; [intros; apply bytes_compare_antisym|]. intros a b d Hab Hbd.
  destruct (bytes_compare a b) eqn:E1; [apply bytes_compare_eq in E1 as ->; done| |done].
  destruct (bytes_compare b d) eqn:E2; [apply bytes_compare_eq in E2 as ->; congruence| |done].
  by rewrite (bytes_compare_lt_trans a b d).
Qed.

#[export] Instance str_compare_preordered : Preordered str_compare.
Proof. apply (compare_on_preordered bytes_compare utf8_encode). Qed.

Lemma str_compare_antisym a b : str_compare b a = CompOpp (str_compare a b).
Proof. apply bytes_compare_antisym. Qed.

(** *** Encoded digests *)
Lemma hex_digit_ok n : 0 <= n < 16 → is_lowercase_hex_byte (nth (Z.to_nat n) HEX_DIGITS 0) = true
  ∧ nth (Z.to_nat n) HEX_DIGITS 0 < 128.
Proof.
  intros Hn. assert (Hn' : (Z.to_nat n < 16)%nat) by lia.
  revert Hn'. generalize (Z.to_nat n) as k. intros k Hk.
  do 16 (destruct k as [|k]; [vm_compute; done|]). lia.
Qed.

Definition is_byte (b : Z) : bool := within 0 255 b.

Lemma hex_byte_ok b :
  is_byte b = true →
  utf8_encode (hex_byte b) = hex_byte b ∧ length (hex_byte b) = 2%nat ∧
  forallb is_lowercase_hex_byte (hex_byte b) = true.
Proof.
  intros Hb. unfold is_byte, within in Hb. unfold hex_byte.
  rewrite Z.shiftr_div_pow2 by lia. change (2 ^ 4) with 16.
  change 15 with (Z.ones 4). rewrite Z.land_ones by lia. change (2 ^ 4) with 16.
  destruct (hex_digit_ok (b / 16)) as [H1 L1]; [utf8_arith|].
  destruct (hex_digit_ok (b mod 16)) as [H2 L2]; [utf8_arith|].
  split; [|split; [done|]].
  - unfold utf8_encode. cbn [mbind list_bind]. unfold utf8_char.
    by rewrite (proj2 (Z.ltb_lt _ _) L1), (proj2 (Z.ltb_lt _ _) L2).
  - cbn [forallb]. by rewrite H1, H2.
Qed.

Lemma hex_encode_ok bs :
  forallb is_byte bs = true →
  utf8_encode (bs ≫= hex_byte) = bs ≫= hex_byte ∧
  zlen (bs ≫= hex_byte) = 2 * zlen bs ∧
  forallb is_lowercase_hex_byte (bs ≫= hex_byte) = true.
Proof.
  induction bs as [|b bs IH]; [done|]. intros [Hb Hbs]%andb_true_iff.
  destruct (IH Hbs) as (E & L & A). destruct (hex_byte_ok b Hb) as (E1 & L1 & A1).
  change ((b :: bs) ≫= hex_byte) with (hex_byte b ++ (bs ≫= hex_byte)).
  repeat split.
  - unfold utf8_encode in *. by rewrite bind_app, E, E1.
  - rewrite zlen_app, L. unfold zlen at 1. rewrite L1, zlen_cons. lia.
  - by rewrite forallb_app, A1, A.
Qed.

Lemma sha256_tag_split s : split_once 58 (str "sha256:" ++ s) = Some (str "sha256", s).
Proof. reflexivity. Qed.

Lemma sha256_tag_not_empty s : is_empty (str "sha256:" ++ s) = false.
Proof. reflexivity. Qed.

Lemma from_sha256_bytes_ok bs :
  forallb is_byte bs = true → zlen bs = 32 →
  from_sha256_bytes bs = Ok (encode_tagged_lowercase_hex (str "sha256:") bs).
Proof.
  intros Hb Hl. destruct (hex_encode_ok bs Hb) as (E & L & A).
  unfold from_sha256_bytes, digest_new, validate_integrity_digest, encode_tagged_lowercase_hex.
  rewrite sha256_tag_split, sha256_tag_not_empty. change (digest_algorithm_len _) with (Some 64).
  unfold is_lowercase_hex, str_len. by rewrite E, L, Hl, A.
Qed.
