(* ===== verification/Bytes.v ===== *)
(** * Fixed-width integers in little-endian order, arrays and slices

    [uN::to_le_bytes], [uN::from_le_bytes] and their [i64] counterparts, the
    half-open slices [v[a..b]] of the binary codecs, and the byte arrays
    [[u8; N]] as lists of bytes with their length. *)
From stdpp Require Import base list numbers.
From S2P Require Import Prelude RustText.

#[local] Open Scope Z_scope.

(** [x.to_le_bytes()] of an unsigned integer of [n] bytes. *)
Fixpoint to_le_bytes (n : nat) (x : Z) : bytes :=
  match n with
  | O => []
  | S n => x mod 256 :: to_le_bytes n (x / 256)
  end.

(** [uN::from_le_bytes]. *)
Fixpoint from_le_bytes (b : bytes) : Z :=
  match b with
  | [] => 0
  | x :: b => x + 256 * from_le_bytes b
  end.

(** [i64::to_le_bytes] and [i64::from_le_bytes]: two's complement. *)
Definition i64_to_le_bytes (x : Z) : bytes := to_le_bytes 8 (x mod 18446744073709551616).
Definition i64_from_le_bytes (b : bytes) : Z :=
  let u := from_le_bytes b in
  if u <=? i64_max then u else u - 18446744073709551616.

(** [v[a..b]] for [a <= b <= v.len()]; the callers check the length first. *)
Definition slice {A} (a b : nat) (l : list A) : list A := take (b - a) (drop a l).

(** [v.get(a..b)]. *)
Definition get_range {A} (a b : Z) (l : list A) : option (list A) :=
  if (0 <=? a) && (a <=? b) && (b <=? zlen l) then Some (slice (Z.to_nat a) (Z.to_nat b) l) else None.

(** A value of [[u8; n]]. *)
Definition is_array (n : nat) (b : bytes) : bool :=
  (length b =? n)%nat && forallb is_byte b.

Definition zeros (n : nat) : bytes := repeat 0 n.

(** SHA-256 is the [sha2] crate: a function from bytes to arrays of 32 bytes,
    and nothing else is assumed of it. *)
Class Sha256 := {
  sha256 : bytes → bytes;
  sha256_array : ∀ b, is_array 32 (sha256 b) = true;
}.

(** ** Lemmas *)
Lemma to_le_bytes_length n x : length (to_le_bytes n x) = n.
Proof. revert x. induction n as [|n IH]; intros x; simpl; [done|]. by rewrite IH. Qed.

Lemma to_le_bytes_bytes n x : forallb is_byte (to_le_bytes n x) = true.
Proof.
  revert x. induction n as [|n IH]; intros x; [done|]. cbn [to_le_bytes forallb].
  rewrite IH, andb_true_r. unfold is_byte, within.
  pose proof (Z.mod_pos_bound x 256 ltac:(lia)). lia.
Qed.

Lemma from_to_le_bytes n x : 0 <= x < 256 ^ Z.of_nat n → from_le_bytes (to_le_bytes n x) = x.
Proof.
  revert x. induction n as [|n IH]; intros x Hx.
  - simpl in *. lia.
  - cbn [to_le_bytes from_le_bytes]. rewrite IH.
    + pose proof (Z.div_mod x 256 ltac:(lia)). lia.
    + rewrite Nat2Z.inj_succ, Z.pow_succ_r in Hx by lia.
      split; [apply Z.div_pos; lia|]. apply Z.div_lt_upper_bound; lia.
Qed.

Lemma from_le_bytes_bound b :
  forallb is_byte b = true → 0 <= from_le_bytes b < 256 ^ Z.of_nat (length b).
Proof.
  induction b as [|x b IH]; [done|]. intros [Hx Hb]%andb_true_iff. specialize (IH Hb).
  unfold is_byte, within in Hx. cbn [from_le_bytes length].
  rewrite Nat2Z.inj_succ, Z.pow_succ_r by lia. lia.
Qed.

Lemma from_to_le_u16 x : 0 <= x <= u16_max → from_le_bytes (to_le_bytes 2 x) = x.
Proof. intros. apply from_to_le_bytes. unfold u16_max in *. simpl. lia. Qed.

Lemma from_to_le_u32 x : 0 <= x <= u32_max → from_le_bytes (to_le_bytes 4 x) = x.
Proof. intros. apply from_to_le_bytes. unfold u32_max in *. simpl. lia. Qed.

Lemma from_to_le_u64 x : 0 <= x <= u64_max → from_le_bytes (to_le_bytes 8 x) = x.
Proof. intros. apply from_to_le_bytes. unfold u64_max in *. simpl. lia. Qed.

Lemma i64_from_to_le x :
  i64_min <= x <= i64_max → i64_from_le_bytes (i64_to_le_bytes x) = x.
Proof.
  intros Hx. unfold i64_from_le_bytes, i64_to_le_bytes, i64_min, i64_max in *.
  rewrite from_to_le_bytes.
  2:{ change (256 ^ Z.of_nat 8) with 18446744073709551616. apply Z.mod_pos_bound. lia. }
  destruct (Z.leb_spec 0 x).
  - rewrite Z.mod_small by lia. destruct (Z.leb_spec x 9223372036854775807); lia.
  - rewrite <- (Z.mod_unique x 18446744073709551616 (-1) (x + 18446744073709551616)) by lia.
    destruct (Z.leb_spec (x + 18446744073709551616) 9223372036854775807); lia.
Qed.

Lemma i64_to_le_length x : length (i64_to_le_bytes x) = 8%nat.
Proof. apply to_le_bytes_length. Qed.

(** The slice that names exactly one segment of a concatenation. *)
Lemma slice_app {A} (a b : nat) (p m s : list A) :
  length p = a → (b = a + length m)%nat → slice a b (p ++ m ++ s) = m.
Proof.
  intros <- ->. unfold slice. rewrite drop_app_length.
  replace (length p + length m - length p)%nat with (length m) by lia.
  apply take_app_length.
Qed.

(** The slice of a concatenation that is its [k]-th segment. *)
Lemma slice_concat {A} (k a b : nat) (segs : list (list A)) (m : list A) :
  segs !! k = Some m → length (concat (take k segs)) = a → (b = a + length m)%nat →
  slice a b (concat segs) = m.
Proof.
  intros Hk Ha Hb. rewrite <- (take_drop_middle segs k m Hk), concat_app. simpl.
  by apply slice_app.
Qed.

Lemma slice_length {A} (a b : nat) (l : list A) :
  (b <= length l)%nat → length (slice a b l) = (b - a)%nat.
Proof. intros. unfold slice. rewrite length_take, length_drop. lia. Qed.

(** Adjacent slices tile a list. *)
Lemma take_slice {A} (a b : nat) (l : list A) :
  (a <= b)%nat → take a l ++ slice a b l = take b l.
Proof.
  intros. unfold slice. rewrite <- (take_drop a (take b l)).
  rewrite take_take, skipn_firstn_comm. f_equal. f_equal. lia.
Qed.

Lemma is_array_spec n b : is_array n b = true ↔ length b = n ∧ forallb is_byte b = true.
Proof. unfold is_array. rewrite andb_true_iff, Nat.eqb_eq. done. Qed.

Lemma sha256_length `{Sha256} b : length (sha256 b) = 32%nat.
Proof. pose proof (sha256_array b) as E. by apply is_array_spec in E as [? _]. Qed.

Lemma sha256_bytes `{Sha256} b : forallb is_byte (sha256 b) = true.
Proof. pose proof (sha256_array b) as E. by apply is_array_spec in E as [_ ?]. Qed.

(** A concrete function of that shape, for the evaluations: a polynomial of
    the bytes modulo a Mersenne prime, in little-endian order. *)
Definition mixing_hash (b : bytes) : bytes :=
  to_le_bytes 32 (foldl (λ acc x, (acc * 1000003 + x + 1) mod 2305843009213693951) 7 b).

Definition mixing_sha256 : Sha256.
Proof.
  refine {| sha256 := mixing_hash |}. intros b. unfold mixing_hash.
  apply is_array_spec. split; [apply to_le_bytes_length | apply to_le_bytes_bytes].
Defined.
