(* ===== verification/OrdMap.v ===== *)
(** * Ordered maps

    [std::collections::BTreeMap] and [BTreeSet] where the code depends on
    their order: association lists in increasing key order, over a comparison
    with the laws of Rust's [Ord].  [[u8; N]] and strings compare as bytes,
    unsigned integers as numbers. *)
From stdpp Require Import base list numbers sets sorting.
From S2P Require Import Prelude RustText.

#[local] Open Scope Z_scope.

(** The total order a map's keys implement. *)
Class Ordered (K : Type) := {
  cmp : K → K → comparison;
  cmp_eq : ∀ a b, cmp a b = Eq ↔ a = b;
  cmp_antisym : ∀ a b, cmp b a = CompOpp (cmp a b);
  cmp_lt_trans : ∀ a b c, cmp a b = Lt → cmp b c = Lt → cmp a c = Lt;
}.

#[export] Instance Z_ordered : Ordered Z.
Proof.
  refine {| cmp := Z.compare |}.
  - intros. apply Z.compare_eq_iff.
  - intros. apply Z.compare_antisym.
  - intros a b c. rewrite !Z.compare_lt_iff. lia.
Defined.

#[export] Instance bytes_ordered : Ordered bytes.
Proof.
  refine {| cmp := bytes_compare |}.
  - intros a b. split; [apply bytes_compare_eq|intros ->; apply bytes_compare_refl].
  - intros. apply bytes_compare_antisym.
  - intros a b c. apply bytes_compare_lt_trans.
Defined.

Section map.
Context {K V : Type} `{Ordered K}.
Implicit Types m : list (K * V).

Definition key_lt (a b : K) : Prop := cmp a b = Lt.

(** [BTreeMap::get]. *)
Fixpoint map_get (k : K) (m : list (K * V)) : option V :=
  match m with
  | [] => None
  | (k', v) :: m => match cmp k k' with Eq => Some v | _ => map_get k m end
  end.

(** [BTreeMap::insert]: the map with the entry, the old value dropped. *)
Fixpoint map_insert (k : K) (v : V) (m : list (K * V)) : list (K * V) :=
  match m with
  | [] => [(k, v)]
  | (k', v') :: m' =>
    match cmp k k' with
    | Lt => (k, v) :: m
    | Eq => (k, v) :: m'
    | Gt => (k', v') :: map_insert k v m'
    end
  end.

(** [BTreeMap::remove]: the map without the key. *)
Definition map_remove (k : K) (m : list (K * V)) : list (K * V) :=
  filter (λ e, cmp k e.1 ≠ Eq) m.

Definition map_keys (m : list (K * V)) : list K := m.*1.

(** The invariant: the keys are strictly increasing. *)
Definition map_sorted (m : list (K * V)) : Prop := StronglySorted key_lt (map_keys m).

(** ** Lemmas *)
Lemma cmp_refl (a : K) : cmp a a = Eq.
Proof. by apply cmp_eq. Qed.

Lemma cmp_gt_lt (a b : K) : cmp a b = Gt ↔ cmp b a = Lt.
Proof. rewrite (cmp_antisym a b). destruct (cmp a b); simpl; split; congruence. Qed.

Lemma map_get_elem m k v : map_get k m = Some v → (k, v) ∈ m.
Proof.
  induction m as [|[k' v'] m IH]; [done|]. simpl. destruct (cmp k k') eqn:E.
  - intros [= ->]. apply cmp_eq in E as ->. by left.
  - intros. right. auto.
  - intros. right. auto.
Qed.

Lemma map_get_None m k : map_get k m = None ↔ k ∉ map_keys m.
Proof.
  induction m as [|[k' v'] m IH]; [split; [intros _; apply not_elem_of_nil|done]|]. simpl.
  rewrite not_elem_of_cons. pose proof (cmp_eq k k') as Hc.
  destruct (cmp k k') eqn:E; [|rewrite IH; naive_solver..].
  split; [done|]. intros [? _]. naive_solver.
Qed.

Lemma map_insert_keys m k v x : x ∈ map_keys (map_insert k v m) ↔ x = k ∨ x ∈ map_keys m.
Proof.
  induction m as [|[k' v'] m IH]; simpl; [rewrite elem_of_cons; done|].
  destruct (cmp k k') eqn:E; simpl; rewrite ?elem_of_cons.
  - apply cmp_eq in E as ->. tauto.
  - tauto.
  - unfold map_keys in *. rewrite IH. tauto.
Qed.

Lemma map_insert_sorted m k v : map_sorted m → map_sorted (map_insert k v m).
Proof.
  unfold map_sorted. induction m as [|[k' v'] m IH]; simpl; intros Hs; [repeat constructor|].
  apply StronglySorted_inv in Hs as Hinv. destruct Hinv as [Hs' Hlt].
  destruct (cmp k k') eqn:E; simpl.
  - apply cmp_eq in E as ->. done.
  - constructor; [done|]. constructor; [done|]. eapply Forall_impl; [exact Hlt|].
    intros x Hx. by eapply cmp_lt_trans.
  - constructor; [by apply IH|]. rewrite Forall_forall in *. intros x Hx%map_insert_keys.
    destruct Hx as [->|Hx]; [by apply cmp_gt_lt|by apply Hlt].
Qed.

Lemma map_get_insert m k v x :
  map_get x (map_insert k v m) = match cmp x k with Eq => Some v | _ => map_get x m end.
Proof.
  induction m as [|[k' v'] m IH]; simpl; [done|].
  destruct (cmp k k') eqn:E; simpl; [|done|].
  - apply cmp_eq in E as ->. by destruct (cmp x k').
  - rewrite IH. destruct (cmp x k') eqn:E'; [|done..]. apply cmp_eq in E' as ->.
    apply cmp_gt_lt in E. by rewrite E.
Qed.

Lemma map_get_insert_eq m k v : map_get k (map_insert k v m) = Some v.
Proof. by rewrite map_get_insert, cmp_refl. Qed.

Lemma map_get_insert_ne m k v x : x ≠ k → map_get x (map_insert k v m) = map_get x m.
Proof.
  intros Hne. rewrite map_get_insert. destruct (cmp x k) eqn:E; [|done..].
  by apply cmp_eq in E.
Qed.

Lemma map_remove_keys m k x : x ∈ map_keys (map_remove k m) ↔ x ≠ k ∧ x ∈ map_keys m.
Proof.
  unfold map_keys, map_remove. rewrite !list_elem_of_fmap. split.
  - intros ([y v] & -> & Hy). apply list_elem_of_filter in Hy as [Hne Hy]. simpl in *.
    split; [|by exists (y, v)]. intros ->. by rewrite cmp_refl in Hne.
  - intros [Hne ([y v] & -> & Hy)]. exists (y, v). split; [done|].
    apply list_elem_of_filter. split; [|done]. simpl in *. intros E. apply cmp_eq in E. by subst.
Qed.

Lemma map_remove_sorted m k : map_sorted m → map_sorted (map_remove k m).
Proof.
  unfold map_sorted, map_remove, map_keys. induction m as [|[k' v'] m IH]; intros Hs; [done|].
  cbn [fmap list_fmap fst] in Hs. apply StronglySorted_inv in Hs as [Hs Hlt].
  rewrite filter_cons. destruct (decide _); simpl; [|by apply IH].
  constructor; [by apply IH|]. rewrite Forall_forall in *. intros x Hx.
  apply Hlt. by apply (map_remove_keys m k x) in Hx as [_ Hx].
Qed.

Lemma map_remove_length m k : map_get k m ≠ None → (length (map_remove k m) < length m)%nat.
Proof.
  induction m as [|[k' v'] m IH]; [done|]. simpl. unfold map_remove. rewrite filter_cons. simpl.
  pose proof (length_filter (λ e, cmp k e.1 ≠ Eq) m) as Hf.
  destruct (cmp k k') eqn:E; destruct (decide _) as [D|D]; intros Hg; simpl; try done; try lia.
  - unfold map_remove in IH. specialize (IH Hg). lia.
  - unfold map_remove in IH. specialize (IH Hg). lia.
Qed.

(** A new key adds one entry. *)
Lemma map_insert_perm m k v : map_get k m = None → map_insert k v m ≡ₚ (k, v) :: m.
Proof.
  induction m as [|[k' v'] m IH]; simpl; [done|]. destruct (cmp k k') eqn:E; [done|done|].
  intros Hg. rewrite IH by done. apply Permutation_swap.
Qed.

(** In a sorted map an entry is the value of its key. *)
Lemma map_sorted_get m k v : map_sorted m → (k, v) ∈ m → map_get k m = Some v.
Proof.
  unfold map_sorted. induction m as [|[k' v'] m IH]; [by intros _ ?%elem_of_nil|].
  cbn [map_keys fmap list_fmap fst]. intros Hs. apply StronglySorted_inv in Hs as [Hs Hlt].
  intros [[= -> ->]|Hm]%elem_of_cons; simpl; [by rewrite cmp_refl|].
  rewrite Forall_forall in Hlt. assert (key_lt k' k) as Hk.
  { apply Hlt, list_elem_of_fmap. by exists (k, v). }
  destruct (cmp k k') eqn:E; [|by apply IH..].
  apply cmp_eq in E as ->. unfold key_lt in Hk. by rewrite cmp_refl in Hk.
Qed.
End map.
