(* ===== verification/Framing.v ===== *)
(** * Bounded wire framing

    [tracedecay-framing/src/lib.rs]: the frame ceilings, the bounded reader of
    a blocking source ([read_bounded_to_end]) and the cancellation-safe line
    reader [BoundedLineReader] that every daemon and MCP read loop owns.

    The sources the readers pull from are third-party or operating-system
    objects, modelled by the sequence of answers they give: the answers of
    [Read::read] for the blocking reader; for the asynchronous one, the fills
    of the buffer, where [Blocks] is a fill that is not ready.  A read future
    suspends only there, and none of its locals lives across that point, so a
    future that is dropped and one that is polled again continue in the same
    way: with a new call on the reader's own state. *)
From stdpp Require Import base list numbers strings.
From S2P Require Import Prelude RustText.

#[local] Open Scope Z_scope.

Definition MAX_WIRE_MESSAGE_BYTES : Z := 1024 * 1024.
Definition MAX_WIRE_RECORD_BYTES : Z := MAX_WIRE_MESSAGE_BYTES.
Definition MAX_MCP_JSONRPC_FRAME_BYTES : Z := 16 * 1024 * 1024.
Definition MCP_OVERSIZE_ID_INSPECT_BYTES : Z := 4096.
Definition WIRE_RECORD_TOO_LARGE : rstr := str "wire_record_too_large".

(** ** Outcomes and errors *)
Inductive WireReadOutcome (T : Type) : Type :=
  | Ready (t : T)
  | Oversized.
Arguments Ready {T} _.
Arguments Oversized {T}.

Inductive BoundedLineOutcome (T : Type) : Type :=
  | LineReady (t : T)
  | LineOversized (inspect_prefix : bytes).
Arguments LineReady {T} _.
Arguments LineOversized {T} _.

(** [io::Error]: its kind and its payload, either the typed
    [WireOversizedError] or an error that displays as a message. *)
Inductive ErrorKind : Type := InvalidData | OtherKind.

Inductive io_inner : Type :=
  | WireOversizedError (inspect_prefix : bytes)
  | Message (text : rstr).

Record io_error : Type := IoError { kind : ErrorKind; get_ref : io_inner }.

Definition display (e : io_inner) : rstr :=
  match e with
  | WireOversizedError _ => WIRE_RECORD_TOO_LARGE
  | Message text => text
  end.

Definition bound_inspect_prefix (prefix : bytes) : bytes :=
  if zlen prefix >? MCP_OVERSIZE_ID_INSPECT_BYTES
  then take (Z.to_nat MCP_OVERSIZE_ID_INSPECT_BYTES) prefix
  else prefix.

Definition wire_oversized_io_error_with_prefix (inspect_prefix : bytes) : io_error :=
  IoError InvalidData (WireOversizedError (bound_inspect_prefix inspect_prefix)).

Definition wire_oversized_io_error : io_error := wire_oversized_io_error_with_prefix [].

Definition is_wire_oversized_io_error (err : io_error) : bool :=
  match get_ref err with WireOversizedError _ => true | Message _ => false end ||
  (match kind err with InvalidData => true | OtherKind => false end &&
   bool_decide (display (get_ref err) = WIRE_RECORD_TOO_LARGE)).

Definition wire_oversized_inspect_prefix (err : io_error) : bytes :=
  match get_ref err with WireOversizedError p => p | Message _ => [] end.

Definition not_utf8_error : io_error := IoError InvalidData (Message (str "wire_input_not_utf8")).

Definition capture_inspect_prefix (retained next : bytes) : bytes :=
  let from_retained := Z.min (zlen retained) MCP_OVERSIZE_ID_INSPECT_BYTES in
  let out := take (Z.to_nat from_retained) retained in
  if zlen out <? MCP_OVERSIZE_ID_INSPECT_BYTES then
    let need := MCP_OVERSIZE_ID_INSPECT_BYTES - zlen out in
    out ++ take (Z.to_nat (Z.min need (zlen next))) next
  else out.

(** ** The blocking reader

    One element of the script is one answer of [reader.read(&mut scratch)]
    with the 8192-byte scratch buffer: the bytes it stored, or an error.  An
    exhausted source answers [Ok(0)]. *)
Definition SCRATCH_BYTES : Z := 8192.

Fixpoint read_bounded_to_end_loop
    (retained : bytes) (script : list (result bytes io_error)) (max_bytes : Z)
    : result (WireReadOutcome bytes) io_error * list (result bytes io_error) :=
  match script with
  | [] => (Ok (Ready retained), [])
  | Err e :: rest => (Err e, rest)
  | Ok read :: rest =>
    if is_empty read then (Ok (Ready retained), rest)
    else if sat_add usize_max (zlen retained) (zlen read) >? max_bytes then (Ok Oversized, rest)
    else read_bounded_to_end_loop (retained ++ read) rest max_bytes
  end.

Definition read_bounded_to_end (script : list (result bytes io_error)) (max_bytes : Z) :=
  read_bounded_to_end_loop [] script max_bytes.

Definition read_bounded_to_string (script : list (result bytes io_error)) (max_bytes : Z)
    : result (WireReadOutcome rstr) io_error * list (result bytes io_error) :=
  match read_bounded_to_end script max_bytes with
  | (Err e, rest) => (Err e, rest)
  | (Ok Oversized, rest) => (Ok Oversized, rest)
  | (Ok (Ready bs), rest) =>
    match utf8_decode bs with
    | Some text => (Ok (Ready text), rest)
    | None => (Err not_utf8_error, rest)
    end
  end.

(** ** The buffered asynchronous source *)
Inductive fill_event : Type :=
  | Arrives (bs : bytes)
  | Blocks
  | Fails (e : io_error).

Record buf_source : Type := BufSource { buffered : bytes; upcoming : list fill_event }.

Inductive poll (A : Type) : Type :=
  | PReady (a : A)
  | PPending.
Arguments PReady {A} _.
Arguments PPending {A}.

(** [AsyncBufRead::fill_buf]: what is buffered, or the next fill. *)
Definition fill_buf (s : buf_source) : poll (result bytes io_error) * buf_source :=
  if is_empty (buffered s) then
    match upcoming s with
    | [] => (PReady (Ok []), s)
    | Arrives bs :: rest => (PReady (Ok bs), BufSource bs rest)
    | Blocks :: rest => (PPending, BufSource [] rest)
    | Fails e :: rest => (PReady (Err e), BufSource [] rest)
    end
  else (PReady (Ok (buffered s)), s).

Definition consume (n : nat) (s : buf_source) : buf_source :=
  BufSource (drop n (buffered s)) (upcoming s).

(** ** The line reader *)
Record BoundedLineReader : Type := Reader {
  inner : buf_source;
  retained : bytes;
  oversized : bool;
  inspect_prefix : bytes }.

Definition new (src : buf_source) : BoundedLineReader := Reader src [] false [].

Definition has_partial_frame (r : BoundedLineReader) : bool :=
  negb (is_empty (retained r)) || oversized r.

Definition take_line_string (bs : bytes) : result rstr io_error :=
  let bs := if bool_decide (last bs = Some 13) then take (length bs - 1) bs else bs in
  match utf8_decode bs with
  | Some text => Ok text
  | None => Err not_utf8_error
  end.

Definition line_result : Type := result (BoundedLineOutcome (option rstr)) io_error.

Definition take_line (r : BoundedLineReader) : line_result * BoundedLineReader :=
  let r' := Reader (inner r) [] (oversized r) (inspect_prefix r) in
  match take_line_string (retained r) with
  | Ok line => (Ok (LineReady (Some line)), r')
  | Err e => (Err e, r')
  end.

Definition take_oversized (r : BoundedLineReader) : line_result * BoundedLineReader :=
  (Ok (LineOversized (inspect_prefix r)), Reader (inner r) (retained r) false []).

Definition finish_frame (r : BoundedLineReader) : line_result * BoundedLineReader :=
  if oversized r then take_oversized r else take_line r.

Definition finish_at_eof (r : BoundedLineReader) : line_result * BoundedLineReader :=
  if oversized r then take_oversized r
  else if is_empty (retained r) then (Ok (LineReady None), r)
  else take_line r.

(** [iter().position(|byte| *byte == b'\n')]. *)
Fixpoint position_newline (bs : bytes) : option nat :=
  match bs with
  | [] => None
  | b :: r => if b =? 10 then Some 0%nat else S <$> position_newline r
  end.

(** The part of one iteration that folds a filled buffer into the reader. *)
Definition absorb (max_bytes : Z) (r : BoundedLineReader) (content : bytes) : BoundedLineReader :=
  if oversized r then r
  else
    let room := sat_sub max_bytes (zlen (retained r)) in
    if zlen content >? room
    then Reader (inner r) [] true (capture_inspect_prefix (retained r) content)
    else Reader (inner r) (retained r ++ content) false (inspect_prefix r).

Inductive iteration : Type :=
  | Finished (out : line_result) (r : BoundedLineReader)
  | Suspended (r : BoundedLineReader)
  | Continue (r : BoundedLineReader).

Definition with_inner (r : BoundedLineReader) (s : buf_source) : BoundedLineReader :=
  Reader s (retained r) (oversized r) (inspect_prefix r).

(** One turn of the [loop] of [read_bounded], from a filled buffer on. *)
Definition read_filled (max_bytes : Z) (r : BoundedLineReader) (available : bytes) : iteration :=
  if is_empty available then let (o, r) := finish_at_eof r in Finished o r
  else
    let newline := position_newline available in
    let chunk_len :=
      match newline with Some index => (index + 1)%nat | None => length available end in
    let content_len := default chunk_len newline in
    let r := absorb max_bytes r (take content_len available) in
    let r := with_inner r (consume chunk_len (inner r)) in
    match newline with
    | Some _ => let (o, r) := finish_frame r in Finished o r
    | None => Continue r
    end.

Definition read_iteration (max_bytes : Z) (r : BoundedLineReader) : iteration :=
  match fill_buf (inner r) with
  | (PPending, s) => Suspended (with_inner r s)
  | (PReady (Err e), s) => Finished (Err e) (with_inner r s)
  | (PReady (Ok available), s) => read_filled max_bytes (with_inner r s) available
  end.

(** Fills the source still has to give: an iteration that continues has used
    one, so [S (fills_left r)] turns are enough for a call. *)
Definition fills_left (r : BoundedLineReader) : nat :=
  length (upcoming (inner r)) + (if is_empty (buffered (inner r)) then 0 else 1).

Fixpoint read_loop (fuel : nat) (max_bytes : Z) (r : BoundedLineReader)
    : poll line_result * BoundedLineReader :=
  match fuel with
  | O => (PPending, r)
  | S fuel =>
    match read_iteration max_bytes r with
    | Finished o r => (PReady o, r)
    | Suspended r => (PPending, r)
    | Continue r => read_loop fuel max_bytes r
    end
  end.

Definition read_bounded (max_bytes : Z) (r : BoundedLineReader) :=
  read_loop (S (fills_left r)) max_bytes r.

Definition mcp_line_result : Type := result (option rstr) io_error.

Definition read_mcp_line (r : BoundedLineReader) : poll mcp_line_result * BoundedLineReader :=
  match read_bounded MAX_MCP_JSONRPC_FRAME_BYTES r with
  | (PPending, r) => (PPending, r)
  | (PReady (Err e), r) => (PReady (Err e), r)
  | (PReady (Ok (LineReady line)), r) => (PReady (Ok line), r)
  | (PReady (Ok (LineOversized p)), r) =>
    (PReady (Err (wire_oversized_io_error_with_prefix p)), r)
  end.

(** ** What the line reader promises

    The abstract view of a connection is one byte stream.  [frames_of] cuts it
    at newlines (a final unterminated frame counts, an empty one does not),
    and [mcp_frame] is the answer a frame deserves. *)
Fixpoint frames_of (acc stream : bytes) : list bytes :=
  match stream with
  | [] => if is_empty acc then [] else [acc]
  | b :: r => if b =? 10 then acc :: frames_of [] r else frames_of (acc ++ [b]) r
  end.

Definition line_frame (max_bytes : Z) (frame : bytes) : line_result :=
  if zlen frame >? max_bytes
  then Ok (LineOversized (take (Z.to_nat MCP_OVERSIZE_ID_INSPECT_BYTES) frame))
  else match take_line_string frame with
       | Ok line => Ok (LineReady (Some line))
       | Err e => Err e
       end.

Definition mcp_frame (frame : bytes) : mcp_line_result :=
  if zlen frame >? MAX_MCP_JSONRPC_FRAME_BYTES
  then Err (IoError InvalidData (WireOversizedError
              (take (Z.to_nat MCP_OVERSIZE_ID_INSPECT_BYTES) frame)))
  else match take_line_string frame with
       | Ok line => Ok (Some line)
       | Err e => Err e
       end.

(** A client that reads until end of input, calling again whenever the read
    it made did not complete. *)
Fixpoint read_all_mcp (calls : nat) (r : BoundedLineReader) : list mcp_line_result :=
  match calls with
  | O => []
  | S calls =>
    match read_mcp_line r with
    | (PPending, r) => read_all_mcp calls r
    | (PReady (Ok None), _) => [Ok None]
    | (PReady o, r) => o :: read_all_mcp calls r
    end
  end.

(** The bytes a source will deliver, and the sources that deliver their bytes
    without a transport error (an empty fill is end of input). *)
Definition event_bytes (e : fill_event) : bytes :=
  match e with Arrives bs => bs | _ => [] end.
Definition stream_of (s : buf_source) : bytes := buffered s ++ (upcoming s ≫= event_bytes).
Definition event_ok (e : fill_event) : bool :=
  match e with Arrives bs => negb (is_empty bs) | Blocks => true | Fails _ => false end.
Definition source_ok (s : buf_source) : bool := forallb event_ok (upcoming s).

(** The memory a reader holds for a frame it has not answered yet. *)
Definition reader_bounded (max_bytes : Z) (r : BoundedLineReader) : Prop :=
  zlen (retained r) ≤ max_bytes ∧
  zlen (inspect_prefix r) ≤ MCP_OVERSIZE_ID_INSPECT_BYTES ∧
  (oversized r = true → retained r = []).

(** The reader has absorbed [seen] of the current frame. *)
Definition holds (max_bytes : Z) (seen : bytes) (r : BoundedLineReader) : Prop :=
  Forall (λ b, b ≠ 10) seen ∧
  if oversized r
  then zlen seen > max_bytes ∧ retained r = [] ∧
       inspect_prefix r = take (Z.to_nat MCP_OVERSIZE_ID_INSPECT_BYTES) seen
  else retained r = seen ∧ zlen seen ≤ max_bytes.

(** ** Lemmas *)
Lemma capture_inspect_prefix_eq a b :
  capture_inspect_prefix a b = take (Z.to_nat MCP_OVERSIZE_ID_INSPECT_BYTES) (a ++ b).
Proof.
  unfold capture_inspect_prefix.
  assert (Hm : 0 ≤ MCP_OVERSIZE_ID_INSPECT_BYTES) by done. revert Hm.
  generalize MCP_OVERSIZE_ID_INSPECT_BYTES as m. intros m Hm.
  rewrite take_app. unfold zlen. rewrite length_take.
  destruct (Z.ltb_spec (Z.of_nat (Z.to_nat (Z.of_nat (length a) `min` m) `min` length a)) m)
    as [E|E].
  - f_equal; [|].
    + destruct (Z.le_gt_cases (Z.of_nat (length a)) m).
      * rewrite !take_ge; [done|lia..].
      * f_equal; lia.
    + destruct (Z.le_gt_cases (Z.of_nat (length a)) m); [|lia].
      set (n := Z.min _ _). destruct (decide (Z.to_nat n < length b)%nat).
      * f_equal. lia.
      * rewrite !take_ge; [done|lia..].
  - replace (Z.to_nat m - length a)%nat with 0%nat by lia. rewrite take_0, app_nil_r.
    destruct (Z.le_gt_cases (Z.of_nat (length a)) m).
    + rewrite !take_ge; [done|lia..].
    + f_equal. lia.
Qed.

Lemma position_newline_Some bs i :
  position_newline bs = Some i →
  ∃ rest, bs = take i bs ++ 10 :: rest ∧ drop (i + 1) bs = rest ∧ Forall (λ b, b ≠ 10) (take i bs).
Proof.
  revert i. induction bs as [|b bs IH]; intros i; simpl; [done|].
  destruct (b =? 10) eqn:E.
  - intros [= <-]. apply Z.eqb_eq in E as ->. exists bs. simpl. by rewrite ?drop_0.
  - intros (j & Hj & ->)%fmap_Some. destruct (IH j Hj) as (rest & H1 & H2 & H3).
    exists rest. simpl. rewrite <- H1. split; [done|]. split; [done|].
    constructor; [lia|done].
Qed.

Lemma position_newline_None bs : position_newline bs = None → Forall (λ b, b ≠ 10) bs.
Proof.
  induction bs as [|b bs IH]; simpl; [done|]. destruct (b =? 10) eqn:E; [done|].
  intros H%fmap_None. constructor; [lia|auto].
Qed.

Lemma frames_of_seen seen acc stream :
  Forall (λ b, b ≠ 10) seen → frames_of acc (seen ++ stream) = frames_of (acc ++ seen) stream.
Proof.
  intros H. revert acc. induction H as [|b seen Hb _ IH]; intros acc; simpl.
  - by rewrite app_nil_r.
  - rewrite (proj2 (Z.eqb_neq _ _) Hb), IH. by rewrite <- app_assoc.
Qed.

(** Reads the fields of a reader through its constructor. *)
Ltac reader_simpl := cbn [inner retained oversized inspect_prefix with_inner] in *.

Lemma absorb_holds max_bytes seen r content :
  0 ≤ max_bytes → MCP_OVERSIZE_ID_INSPECT_BYTES ≤ max_bytes →
  Forall (λ b, b ≠ 10) content →
  holds max_bytes seen r → holds max_bytes (seen ++ content) (absorb max_bytes r content).
Proof.
  intros Hm0 Hm Hc [Hs H]. split; [by apply Forall_app|].
  unfold absorb. destruct (oversized r) eqn:Ho.
  - rewrite Ho. destruct H as (Hl & Hr & Hp). rewrite zlen_app.
    split; [pose proof (zlen_nonneg content); lia|]. split; [done|].
    rewrite Hp, take_app_le; [done|]. unfold zlen in Hl. lia.
  - destruct H as [<- Hl]. unfold sat_sub. destruct (_ >? _) eqn:E; reader_simpl.
    + rewrite zlen_app. split; [lia|]. split; [done|]. apply capture_inspect_prefix_eq.
    + rewrite zlen_app. split; [done|lia].
Qed.

Lemma holds_nil max_bytes s p : 0 ≤ max_bytes → holds max_bytes [] (Reader s [] false p).
Proof. intros. split; [done|]. reader_simpl. split; [done|]. unfold zlen. simpl. lia. Qed.

Lemma finish_frame_holds max_bytes seen r :
  0 ≤ max_bytes → holds max_bytes seen r → ∃ r',
  finish_frame r = (line_frame max_bytes seen, r') ∧ holds max_bytes [] r' ∧ inner r' = inner r.
Proof.
  intros Hm [Hs H]. unfold finish_frame, line_frame. destruct (oversized r) eqn:Ho.
  - destruct H as (Hl & Hr & Hp). unfold take_oversized. rewrite Hp, Hr.
    rewrite (proj2 (Z.gtb_lt _ _)) by lia. eexists. split; [done|]. by split; [apply holds_nil|].
  - destruct H as [<- Hl]. unfold take_line. rewrite Ho. destruct (_ >? _) eqn:E; [lia|].
    destruct (take_line_string _); eexists; (split; [done|]); by split; [apply holds_nil|].
Qed.

Lemma finish_at_eof_holds max_bytes seen r :
  0 ≤ max_bytes → holds max_bytes seen r →
  (seen = [] ∧ finish_at_eof r = (Ok (LineReady None), r)) ∨
  (seen ≠ [] ∧ finish_at_eof r = finish_frame r).
Proof.
  intros Hm [Hs H]. unfold finish_at_eof, finish_frame. destruct (oversized r) eqn:Ho.
  - right. split; [|done]. intros ->. destruct H as [H _]. unfold zlen in H. simpl in H. lia.
  - destruct H as [<- _]. destruct (retained r); simpl; [by left|by right].
Qed.

(** Fills that are not ready: the number of times a client has to call again. *)
Fixpoint pending_fills (es : list fill_event) : nat :=
  match es with
  | [] => 0
  | Blocks :: es => S (pending_fills es)
  | _ :: es => pending_fills es
  end.

(** The answer of a call on a reader that has absorbed [seen]. *)
Definition answers (max_bytes : Z) (seen : bytes) (r : BoundedLineReader)
    (o : line_result) (r' : BoundedLineReader) : Prop :=
  holds max_bytes [] r' ∧ source_ok (inner r') = true ∧
  pending_fills (upcoming (inner r')) = pending_fills (upcoming (inner r)) ∧
  ((frames_of seen (stream_of (inner r)) = [] ∧ o = Ok (LineReady None)) ∨
   (∃ frame, frames_of seen (stream_of (inner r)) = frame :: frames_of [] (stream_of (inner r')) ∧
             o = line_frame max_bytes frame)).

(** The reader suspended in front of [r']: nothing it consumed is lost. *)
Definition suspends (max_bytes : Z) (seen : bytes) (r r' : BoundedLineReader) : Prop :=
  ∃ seen', holds max_bytes seen' r' ∧ source_ok (inner r') = true ∧
  frames_of seen' (stream_of (inner r')) = frames_of seen (stream_of (inner r)) ∧
  S (pending_fills (upcoming (inner r'))) = pending_fills (upcoming (inner r)).

Definition continues (max_bytes : Z) (seen : bytes) (r r' : BoundedLineReader) : Prop :=
  ∃ seen', holds max_bytes seen' r' ∧ source_ok (inner r') = true ∧
  frames_of seen' (stream_of (inner r')) = frames_of seen (stream_of (inner r)) ∧
  pending_fills (upcoming (inner r')) = pending_fills (upcoming (inner r)).

Lemma holds_with_inner max_bytes seen r s :
  holds max_bytes seen r → holds max_bytes seen (with_inner r s).
Proof. done. Qed.

Lemma absorb_inner max_bytes r content : inner (absorb max_bytes r content) = inner r.
Proof. unfold absorb. destruct (oversized r); [done|]. by destruct (_ >? _). Qed.

Lemma read_filled_spec max_bytes seen r available rest :
  MCP_OVERSIZE_ID_INSPECT_BYTES ≤ max_bytes → available ≠ [] →
  holds max_bytes seen r → inner r = BufSource available rest → forallb event_ok rest = true →
  match read_filled max_bytes r available with
  | Finished o r' => answers max_bytes seen r o r'
  | Suspended _ => False
  | Continue r' =>
    continues max_bytes seen r r' ∧ buffered (inner r') = [] ∧ upcoming (inner r') = rest
  end.
Proof.
  intros Hm Ha Hh Hi Hok. unfold read_filled, consume. rewrite !absorb_inner, Hi.
  assert (Hm0 : 0 ≤ max_bytes) by (transitivity MCP_OVERSIZE_ID_INSPECT_BYTES; done).
  assert (He : is_empty available = false) by (by destruct available). rewrite He.
  cbn [buffered upcoming]. destruct (position_newline available) as [i|] eqn:En.
  - apply position_newline_Some in En as (tail & Eav & Hdrop & Hnn). cbn [default from_option id].
    pose proof (absorb_holds max_bytes seen r (take i available) Hm0 Hm Hnn Hh) as H1.
    edestruct (finish_frame_holds max_bytes (seen ++ take i available)) as (r' & -> & Hr' & Hin);
      [done|apply holds_with_inner, H1|].
    split; [done|]. rewrite Hin. unfold source_ok.
    split; [done|]. split; [by rewrite Hi|]. right. eexists. split; [|done].
    rewrite Hi. unfold stream_of. cbn [buffered upcoming inner with_inner]. rewrite Eav at 1.
    rewrite <- app_assoc, frames_of_seen by done. simpl. by rewrite Hdrop.
  - apply position_newline_None in En. cbn [default from_option id].
    rewrite firstn_all, drop_all. split; [|done].
    exists (seen ++ available). split; [by apply holds_with_inner, absorb_holds|].
    split; [done|]. rewrite Hi. split; [|done]. unfold stream_of.
    cbn [buffered upcoming inner with_inner app]. by rewrite frames_of_seen.
Qed.

Lemma answers_eof max_bytes seen r :
  0 ≤ max_bytes → holds max_bytes seen r → stream_of (inner r) = [] →
  source_ok (inner r) = true →
  ∃ o r', finish_at_eof r = (o, r') ∧ answers max_bytes seen r o r'.
Proof.
  intros Hm Hh Hs Hok. unfold answers. rewrite Hs.
  destruct (finish_at_eof_holds max_bytes seen r Hm Hh) as [[-> ->]|[Hne ->]].
  - eexists _, r. split; [done|]. repeat split; try done; [apply Hh|]. by left.
  - destruct (finish_frame_holds max_bytes seen r Hm Hh) as (r' & -> & Hh' & Hi).
    eexists _, r'. split; [done|]. rewrite Hi, Hs. repeat split; try done; [apply Hh'|].
    right. exists seen. split; [|done]. simpl. by destruct seen.
Qed.

Lemma read_iteration_spec max_bytes seen r :
  MCP_OVERSIZE_ID_INSPECT_BYTES ≤ max_bytes →
  holds max_bytes seen r → source_ok (inner r) = true →
  match read_iteration max_bytes r with
  | Finished o r' => answers max_bytes seen r o r'
  | Suspended r' => suspends max_bytes seen r r'
  | Continue r' => continues max_bytes seen r r' ∧ (fills_left r' < fills_left r)%nat
  end.
Proof.
  intros Hm Hh Hok.
  assert (Hm0 : 0 ≤ max_bytes) by (transitivity MCP_OVERSIZE_ID_INSPECT_BYTES; done).
  destruct r as [[buf ups] ret ov pre]. unfold read_iteration, fill_buf, fills_left.
  unfold source_ok in Hok. cbn [inner buffered upcoming] in *.
  assert (Hfill : ∀ b bs rest, forallb event_ok rest = true →
    let r := Reader (BufSource (b :: bs) rest) ret ov pre in
    match read_filled max_bytes r (b :: bs) with
    | Finished o r' => answers max_bytes seen r o r'
    | Suspended _ => False
    | Continue r' =>
      continues max_bytes seen r r' ∧ buffered (inner r') = [] ∧ upcoming (inner r') = rest
    end) by (intros; by apply read_filled_spec).
  destruct buf as [|b buf]; cbn [is_empty].
  - destruct ups as [|[bs| |e] ups].
    + unfold read_filled. cbn [is_empty].
      edestruct (answers_eof max_bytes seen) as (o & r' & Heof & H);
        [done|exact Hh|done|done|]. unfold with_inner. cbn. rewrite Heof. exact H.
    + cbn [forallb event_ok] in Hok. apply andb_true_iff in Hok as [Hbs Hups].
      destruct bs as [|b bs]; [done|]. specialize (Hfill b bs ups Hups). cbn zeta in Hfill.
      unfold with_inner. cbn [retained oversized inspect_prefix].
      destruct (read_filled _ _ _) as [o r'| |r']; [exact Hfill|done|].
      destruct Hfill as (H & Hb & Hu). split; [exact H|]. rewrite Hb, Hu. simpl. lia.
    + exists seen. by repeat split; try apply Hh.
    + done.
  - specialize (Hfill b buf ups Hok). cbn zeta in Hfill.
    unfold with_inner. cbn [retained oversized inspect_prefix].
    destruct (read_filled _ _ _) as [o r'| |r']; [exact Hfill|done|].
    destruct Hfill as (H & Hb & Hu). split; [exact H|]. rewrite Hb, Hu. simpl. lia.
Qed.

(** A call terminates: with one turn per fill it never runs out. *)
Lemma read_loop_spec fuel max_bytes seen r :
  MCP_OVERSIZE_ID_INSPECT_BYTES ≤ max_bytes → (fills_left r < fuel)%nat →
  holds max_bytes seen r → source_ok (inner r) = true →
  match read_loop fuel max_bytes r with
  | (PReady o, r') => answers max_bytes seen r o r'
  | (PPending, r') => suspends max_bytes seen r r'
  end.
Proof.
  revert seen r. induction fuel as [|fuel IH]; intros seen r Hm Hf Hh Hok; [lia|].
  cbn [read_loop]. pose proof (read_iteration_spec max_bytes seen r Hm Hh Hok) as H.
  destruct (read_iteration max_bytes r) as [o r'|r'|r']; [done|done|].
  destruct H as [(seen' & Hh' & Hok' & Hst & Hp) Hl].
  pose proof (IH seen' r' Hm ltac:(lia) Hh' Hok') as H.
  destruct (read_loop fuel max_bytes r') as [[o|] r''].
  - destruct H as (H1 & H2 & H3 & H4). unfold answers. rewrite <- Hst, <- Hp. done.
  - destruct H as (s2 & H1 & H2 & H3 & H4). exists s2. rewrite <- Hst, <- Hp. done.
Qed.

Lemma read_bounded_spec max_bytes seen r :
  MCP_OVERSIZE_ID_INSPECT_BYTES ≤ max_bytes →
  holds max_bytes seen r → source_ok (inner r) = true →
  match read_bounded max_bytes r with
  | (PReady o, r') => answers max_bytes seen r o r'
  | (PPending, r') => suspends max_bytes seen r r'
  end.
Proof. intros. apply read_loop_spec; [done|lia|done..]. Qed.

Lemma mcp_frame_of_line frame :
  match line_frame MAX_MCP_JSONRPC_FRAME_BYTES frame with
  | Ok (LineReady line) => Ok line
  | Ok (LineOversized p) => Err (wire_oversized_io_error_with_prefix p)
  | Err e => Err e
  end = mcp_frame frame ∧ mcp_frame frame ≠ Ok None.
Proof.
  unfold line_frame, mcp_frame. destruct (_ >? _) eqn:E.
  - unfold wire_oversized_io_error_with_prefix, bound_inspect_prefix.
    rewrite Z.gtb_ltb. destruct (Z.ltb_spec MCP_OVERSIZE_ID_INSPECT_BYTES
      (zlen (take (Z.to_nat MCP_OVERSIZE_ID_INSPECT_BYTES) frame))) as [H|H]; [|done].
    pose proof (zlen_take (Z.to_nat MCP_OVERSIZE_ID_INSPECT_BYTES) frame) as Hz.
    rewrite Z2Nat.id in Hz by done. lia.
  - by destruct (take_line_string frame).
Qed.

Lemma read_all_mcp_spec calls seen r :
  holds MAX_MCP_JSONRPC_FRAME_BYTES seen r → source_ok (inner r) = true →
  (pending_fills (upcoming (inner r)) + length (frames_of seen (stream_of (inner r))) < calls)%nat →
  read_all_mcp calls r = (mcp_frame <$> frames_of seen (stream_of (inner r))) ++ [Ok None].
Proof.
  revert seen r. induction calls as [|calls IH]; intros seen r Hh Hok Hc; [lia|].
  cbn [read_all_mcp]. unfold read_mcp_line.
  pose proof (read_bounded_spec MAX_MCP_JSONRPC_FRAME_BYTES seen r ltac:(done) Hh Hok) as H.
  destruct (read_bounded MAX_MCP_JSONRPC_FRAME_BYTES r) as [[o|] r'].
  - destruct H as (Hh' & Hok' & Hp & [[Hnil ->]|(frame & Hfr & ->)]).
    + by rewrite Hnil.
    + rewrite Hfr in Hc |- *. cbn [fmap list_fmap app length] in Hc |- *.
      destruct (mcp_frame_of_line frame) as [<- Hne].
      assert (Hrec : read_all_mcp calls r' =
        (mcp_frame <$> frames_of [] (stream_of (inner r'))) ++ [Ok None])
        by (apply IH; [done|done|lia]).
      destruct (line_frame MAX_MCP_JSONRPC_FRAME_BYTES frame) as [[[line|]|p]|e];
        by rewrite ?Hrec.
  - destruct H as (seen' & Hh' & Hok' & Hst & Hp). rewrite <- Hst. apply IH; [done|done|].
    rewrite Hst. lia.
Qed.

Lemma read_bounded_to_end_loop_spec retained chunks max_bytes :
  0 ≤ max_bytes < usize_max → zlen retained ≤ max_bytes →
  Forall (λ c, c ≠ [] ∧ zlen c ≤ SCRATCH_BYTES) chunks →
  (zlen (retained ++ concat chunks) ≤ max_bytes ∧
   read_bounded_to_end_loop retained (Ok <$> chunks) max_bytes =
     (Ok (Ready (retained ++ concat chunks)), [])) ∨
  (max_bytes < zlen (retained ++ concat chunks) ∧
   ∃ used rest, chunks = used ++ rest ∧
   read_bounded_to_end_loop retained (Ok <$> chunks) max_bytes = (Ok Oversized, Ok <$> rest) ∧
   zlen (retained ++ concat used) ≤ max_bytes + SCRATCH_BYTES).
Proof.
  intros Hm. revert retained. induction chunks as [|c chunks IH]; intros retained Hr Hc.
  - left. simpl. by rewrite app_nil_r.
  - apply Forall_cons in Hc as [[Hne Hlen] Hc]. cbn [fmap list_fmap read_bounded_to_end_loop].
    assert (He : is_empty c = false) by (by destruct c). rewrite He. unfold sat_add.
    rewrite Z.gtb_ltb. simpl (concat (c :: chunks)). pose proof (zlen_nonneg (concat chunks)).
    destruct (Z.ltb_spec max_bytes (Z.min usize_max (zlen retained + zlen c))) as [Hlt|Hge].
    + right. rewrite !zlen_app. split; [lia|]. exists [c], chunks.
      split; [done|]. split; [done|]. simpl. rewrite app_nil_r, zlen_app. lia.
    + rewrite app_assoc. destruct (IH (retained ++ c)) as [[Hl ->]|(Hl & used & rest & -> & -> & Hu)].
      * rewrite zlen_app. lia.
      * done.
      * by left.
      * right. split; [done|]. exists (c :: used), rest. split; [done|]. split; [done|].
        simpl. by rewrite app_assoc.
Qed.

(** What a peer that writes newline-terminated UTF-8 lines sends. *)
Definition encode_lines (lines : list rstr) : bytes :=
  lines ≫= (λ line, utf8_encode line ++ [10]).

(** A line that fits one frame: scalar values, no newline, no final carriage
    return (the reader strips one), within the ceiling. *)
Definition mcp_line_ok (line : rstr) : bool :=
  forallb is_scalar line && forallb (λ b, negb (b =? 10)) (utf8_encode line) &&
  bool_decide (last (utf8_encode line) ≠ Some 13) &&
  (str_len line <=? MAX_MCP_JSONRPC_FRAME_BYTES).

Lemma frames_of_lines lines :
  forallb mcp_line_ok lines = true →
  mcp_frame <$> frames_of [] (encode_lines lines) = (λ line, Ok (Some line)) <$> lines.
Proof.
  induction lines as [|line lines IH]; [done|]. intros [Hl Hls]%andb_true_iff.
  unfold mcp_line_ok in Hl. bools. unfold encode_lines in *. cbn [mbind list_bind].
  rewrite <- app_assoc, frames_of_seen.
  2:{ apply Forall_forall. intros b Hb%list_elem_of_In.
      match goal with H : forallb (λ b, negb _) _ = true |- _ =>
        apply (proj1 (forallb_forall _ _) H) in Hb end. simpl in Hb. lia. }
  cbn [app frames_of Z.eqb Pos.eqb fmap list_fmap]. rewrite IH by done. f_equal.
  unfold mcp_frame, str_len in *. rewrite Z.gtb_ltb.
  destruct (Z.ltb_spec MAX_MCP_JSONRPC_FRAME_BYTES (zlen (utf8_encode line))) as [?|?]; [lia|].
  unfold take_line_string. rewrite bool_decide_eq_false_2 by done.
  by rewrite utf8_decode_encode.
Qed.

(** *** The memory bound *)
Lemma absorb_bounded max_bytes r content :
  reader_bounded max_bytes r → reader_bounded max_bytes (absorb max_bytes r content).
Proof.
  intros H. unfold absorb. destruct (oversized r) eqn:Ho; [done|]. destruct H as (H1 & H2 & H3).
  pose proof (zlen_nonneg (retained r)).
  unfold sat_sub. rewrite Z.gtb_ltb. destruct (Z.ltb_spec
    (Z.max 0 (max_bytes - zlen (retained r))) (zlen content)); repeat split; reader_simpl; try done.
  - unfold zlen in *. simpl. lia.
  - rewrite capture_inspect_prefix_eq.
    pose proof (zlen_take (Z.to_nat MCP_OVERSIZE_ID_INSPECT_BYTES) (retained r ++ content)) as Hz.
    by rewrite Z2Nat.id in Hz.
  - rewrite zlen_app. lia.
Qed.

Lemma finish_frame_bounded max_bytes r :
  0 ≤ max_bytes → reader_bounded max_bytes r → reader_bounded max_bytes (snd (finish_frame r)).
Proof.
  intros Hm (H1 & H2 & H3). unfold finish_frame, take_oversized, take_line.
  destruct (oversized r) eqn:Ho; [|destruct (take_line_string _)]; repeat split;
    reader_simpl; simpl; try done.
Qed.

Lemma finish_at_eof_bounded max_bytes r :
  0 ≤ max_bytes → reader_bounded max_bytes r → reader_bounded max_bytes (snd (finish_at_eof r)).
Proof.
  intros Hm H. pose proof (finish_frame_bounded max_bytes r Hm H) as Hf.
  unfold finish_at_eof, finish_frame in *. destruct (oversized r); [done|].
  by destruct (is_empty _).
Qed.

Lemma read_iteration_bounded max_bytes r :
  0 ≤ max_bytes → reader_bounded max_bytes r →
  match read_iteration max_bytes r with
  | Finished _ r' | Suspended r' | Continue r' => reader_bounded max_bytes r'
  end.
Proof.
  intros Hm H. assert (Hi : ∀ r s, reader_bounded max_bytes r →
    reader_bounded max_bytes (with_inner r s)) by done.
  unfold read_iteration. destruct (fill_buf (inner r)) as [[[available|e]|] s]; [|by apply Hi..].
  unfold read_filled. destruct (is_empty available).
  - pose proof (finish_at_eof_bounded max_bytes (with_inner r s) Hm (Hi r s H)) as Hf.
    by destruct (finish_at_eof _).
  - destruct (position_newline available) as [i|]; [|by apply Hi, absorb_bounded].
    match goal with |- context [finish_frame ?x] =>
      pose proof (finish_frame_bounded max_bytes x Hm) as Hf; destruct (finish_frame x) end.
    by apply Hf, Hi, absorb_bounded.
Qed.

Lemma read_loop_bounded fuel max_bytes r :
  0 ≤ max_bytes → reader_bounded max_bytes r →
  reader_bounded max_bytes (snd (read_loop fuel max_bytes r)).
Proof.
  intros Hm. revert r. induction fuel as [|fuel IH]; intros r H; [done|]. cbn [read_loop].
  pose proof (read_iteration_bounded max_bytes r Hm H) as Hi.
  destruct (read_iteration max_bytes r); [done..|]. by apply IH.
Qed.

(** ** Properties *)

(** C15. Framing does not depend on how the transport delivers bytes.  Whatever
    chunks the source fills its buffer with, and at however many points a read
    future is suspended and dropped, the answers a client of [read_mcp_line]
    collects until end of input are the answers of the newline-separated frames
    of the byte stream, in order: the decoded line, the UTF-8 error, or the
    oversized error with the first 4096 bytes of the frame. *)
Theorem read_mcp_line_frames_the_stream (src : buf_source) (calls : nat) :
  source_ok src = true →
  (pending_fills (upcoming src) + length (frames_of [] (stream_of src)) < calls)%nat →
  read_all_mcp calls (new src) = (mcp_frame <$> frames_of [] (stream_of src)) ++ [Ok None].
Proof. intros Hok Hc. by apply read_all_mcp_spec; [apply holds_nil|..]. Qed.

Lemma read_mcp_line_frames_the_stream_witness :
  let src := BufSource [] [Arrives (str "par"); Blocks; Arrives (str "t" ++ [13; 10; 255; 10]);
                           Arrives (str "end")] in
  read_all_mcp 9 (new src) =
    [Ok (Some (str "part")); Err not_utf8_error; Ok (Some (str "end")); Ok None].
Proof.
  intros src. rewrite (read_mcp_line_frames_the_stream src 9); [reflexivity..|].
  vm_compute. lia.
Defined.

(** Round trip with a peer: lines written as UTF-8 with a newline each are
    read back exactly, for every chunking of the transport and every
    suspension, followed by end of input. *)
Theorem read_mcp_line_round_trip (lines : list rstr) (src : buf_source) (calls : nat) :
  forallb mcp_line_ok lines = true →
  source_ok src = true → stream_of src = encode_lines lines →
  (pending_fills (upcoming src) + length (frames_of [] (encode_lines lines)) < calls)%nat →
  read_all_mcp calls (new src) = ((λ line, Ok (Some line)) <$> lines) ++ [Ok None].
Proof.
  intros Hl Hok Hs Hc. rewrite (read_all_mcp_spec calls [] (new src)); cbn [inner new];
    [by rewrite Hs, frames_of_lines|by apply holds_nil|done|by rewrite Hs].
Qed.

Lemma read_mcp_line_round_trip_witness :
  read_all_mcp 5 (new (BufSource (str "a") [Blocks; Arrives (10 :: str "b" ++ [10])])) =
    [Ok (Some (str "a")); Ok (Some (str "b")); Ok None].
Proof.
  apply (read_mcp_line_round_trip [str "a"; str "b"]); [reflexivity..|]. vm_compute. lia.
Defined.

(** C28. Bounded memory: whatever the source does (transport errors and empty
    fills included), a call leaves the reader holding at most [max_bytes] of an
    unfinished frame and at most 4096 bytes of inspect prefix, and nothing of
    the frame once it is oversized. *)
Theorem read_bounded_memory (max_bytes : Z) (r : BoundedLineReader) :
  0 ≤ max_bytes → reader_bounded max_bytes r →
  reader_bounded max_bytes (snd (read_bounded max_bytes r)).
Proof. apply read_loop_bounded. Qed.

Lemma read_bounded_memory_witness :
  reader_bounded 4 (snd (read_bounded 4 (new (BufSource (str "abc") [Arrives (str "def")])))).
Proof. apply (read_bounded_memory 4); [lia|]. repeat split; vm_compute; congruence. Defined.

(** The blocking reader accepts exactly the inputs of at most [max_bytes]
    bytes, returning all of them; on a longer input it answers [Oversized]
    after having consumed at most one scratch buffer past the ceiling, so a
    writer that never closes its end cannot hold it. *)
Theorem read_bounded_to_end_exact (chunks : list bytes) (max_bytes : Z) :
  0 ≤ max_bytes < usize_max →
  Forall (λ c, c ≠ [] ∧ zlen c ≤ SCRATCH_BYTES) chunks →
  (zlen (concat chunks) ≤ max_bytes ∧
   read_bounded_to_end (Ok <$> chunks) max_bytes = (Ok (Ready (concat chunks)), [])) ∨
  (max_bytes < zlen (concat chunks) ∧
   ∃ used rest, chunks = used ++ rest ∧
   read_bounded_to_end (Ok <$> chunks) max_bytes = (Ok Oversized, Ok <$> rest) ∧
   zlen (concat used) ≤ max_bytes + SCRATCH_BYTES).
Proof.
  intros Hm Hc. apply (read_bounded_to_end_loop_spec []); [done| |done].
  unfold zlen. simpl. lia.
Qed.

Lemma read_bounded_to_end_exact_witness :
  read_bounded_to_end [Ok (str "abc"); Ok (str "de"); Ok (str "f")] 4 =
    (Ok Oversized, [Ok (str "f")]) ∧
  4 < zlen (concat [str "abc"; str "de"; str "f"]).
Proof.
  destruct (read_bounded_to_end_exact [str "abc"; str "de"; str "f"] 4) as [[H _]|[H _]].
  - unfold usize_max, u64_max. lia.
  - repeat constructor; vm_compute; congruence.
  - vm_compute in H. congruence.
  - split; [reflexivity|exact H].
Defined.
