(* ===== verification/HookContract.v ===== *)
(** * The hook contract

    [tracedecay-hooks/src/lib.rs]: the content-free event envelope a host hook
    emits, the daemon-issued scope binding, the checked-in native host matrix
    and the validation of an envelope against its binding; and from
    [tracedecay-hooks/src/native.rs] the provider-native lifecycle identity
    that may travel beside an envelope. *)
From stdpp Require Import base list numbers sets strings.
From S2P Require Import Prelude RustText Bytes.

#[local] Open Scope Z_scope.
#[local] Open Scope rust_scope.

Definition HOOK_EVENT_SCHEMA_VERSION : Z := 2.
Definition MAX_HOOK_PAYLOAD_BYTES : Z := 16 * 1024.
Definition MAX_SPOOL_RECORDS_PER_HOST : Z := 4096.
Definition MAX_SPOOL_BYTES_PER_HOST : Z := 32 * 1024 * 1024.
Definition MAX_SPOOL_RECORDS_PER_SESSION : Z := 1024.
Definition MAX_SPOOL_BYTES_PER_SESSION : Z := 8 * 1024 * 1024.
Definition MAX_SPOOL_AGE_MICROS : Z := 24 * 60 * 60 * 1000000.
Definition MAX_REPLAY_BATCH_RECORDS : Z := 64.
Definition MAX_REPLAY_BATCH_BYTES : Z := 256 * 1024.

(** ** Hosts, families and the native matrix *)
Inductive NativeHostIdentityV1 : Type :=
  | ClaudeCode | CursorDesktop | CursorCloud | Codex | Hermes | Kiro | Cline
  | RooCode | Kilo | KimiCode | OpenCode | Pi | FactoryDroid.

#[export] Instance NativeHostIdentityV1_eq_dec : EqDecision NativeHostIdentityV1.
Proof. solve_decision. Defined.

Inductive HookEventFamily : Type :=
  | SessionBoundaryFamily | PromptBoundaryFamily | ToolLifecycleFamily
  | SavedEditFamily | TestLifecycleFamily.

#[export] Instance HookEventFamily_eq_dec : EqDecision HookEventFamily.
Proof. solve_decision. Defined.

Inductive HookEventSupportV1 : Type :=
  | Native | ReceiptDerived | DaemonDerived | Unavailable | Prohibited.

#[export] Instance HookEventSupportV1_eq_dec : EqDecision HookEventSupportV1.
Proof. solve_decision. Defined.

Definition stock_event_support (host : NativeHostIdentityV1) (family : HookEventFamily) :
    HookEventSupportV1 :=
  match host, family with
  | ClaudeCode, (SessionBoundaryFamily | ToolLifecycleFamily) => Native
  | ClaudeCode, (SavedEditFamily | TestLifecycleFamily) => ReceiptDerived
  | ClaudeCode, PromptBoundaryFamily => Unavailable
  | Codex, (SessionBoundaryFamily | ToolLifecycleFamily) => Native
  | Codex, (SavedEditFamily | TestLifecycleFamily) => ReceiptDerived
  | Codex, PromptBoundaryFamily => Unavailable
  | CursorDesktop, (SessionBoundaryFamily | SavedEditFamily) => Native
  | CursorDesktop, TestLifecycleFamily => ReceiptDerived
  | CursorDesktop, (PromptBoundaryFamily | ToolLifecycleFamily) => Unavailable
  | CursorCloud, _ => Unavailable
  | Hermes, (SessionBoundaryFamily | ToolLifecycleFamily) => Native
  | Hermes, (SavedEditFamily | TestLifecycleFamily) => ReceiptDerived
  | Hermes, PromptBoundaryFamily => Unavailable
  | Kiro, PromptBoundaryFamily => Native
  | Kiro, _ => Unavailable
  | KimiCode, (ToolLifecycleFamily | SavedEditFamily) => Native
  | KimiCode, SessionBoundaryFamily => Native
  | KimiCode, (PromptBoundaryFamily | TestLifecycleFamily) => Unavailable
  | OpenCode, (SessionBoundaryFamily | ToolLifecycleFamily | SavedEditFamily) => Native
  | OpenCode, (PromptBoundaryFamily | TestLifecycleFamily) => Unavailable
  | Pi, SessionBoundaryFamily => Native
  | Pi, _ => Unavailable
  | FactoryDroid, SessionBoundaryFamily => Native
  | FactoryDroid, _ => Unavailable
  | (Cline | RooCode | Kilo), _ => Unavailable
  end.

(** ** Events *)
Inductive HookOrderingV1 : Type :=
  | ProviderSequence (n : Z)
  | UnknownOrdering.

#[export] Instance HookOrderingV1_eq_dec : EqDecision HookOrderingV1.
Proof. solve_decision. Defined.

Inductive HookBoundaryV1 : Type := BoundaryStart | BoundaryEnd | BoundaryTurnComplete.

#[export] Instance HookBoundaryV1_eq_dec : EqDecision HookBoundaryV1.
Proof. solve_decision. Defined.

Inductive HookLifecyclePhaseV1 : Type :=
  | PhaseStarted | PhaseCompleted | PhaseFailed | PhaseCancelled.

#[export] Instance HookLifecyclePhaseV1_eq_dec : EqDecision HookLifecyclePhaseV1.
Proof. solve_decision. Defined.

Inductive HookEventV2 : Type :=
  | SessionBoundary (boundary : HookBoundaryV1)
  | PromptBoundary
  | ToolLifecycle (tool_id : bytes) (phase : HookLifecyclePhaseV1)
      (effect_receipt_id : option bytes)
  | SavedEdit (file_id : bytes) (changed_range_count : Z)
  | TestLifecycle (test_run_id : bytes) (test_count : Z) (phase : HookLifecyclePhaseV1)
      (receipt_id : option bytes).

#[export] Instance HookEventV2_eq_dec : EqDecision HookEventV2.
Proof. solve_decision. Defined.

Inductive HookContractError : Type :=
  | UnsupportedSchemaVersion | MalformedEnvelope | UnsupportedFamily | InvalidIdentity
  | InvalidBinding | BindingMismatch | EventBudgetExceeded.

#[export] Instance HookContractError_eq_dec : EqDecision HookContractError.
Proof. solve_decision. Defined.

Definition family (event : HookEventV2) : HookEventFamily :=
  match event with
  | SessionBoundary _ => SessionBoundaryFamily
  | PromptBoundary => PromptBoundaryFamily
  | ToolLifecycle _ _ _ => ToolLifecycleFamily
  | SavedEdit _ _ => SavedEditFamily
  | TestLifecycle _ _ _ _ => TestLifecycleFamily
  end.

Definition event_validate (event : HookEventV2) : result unit HookContractError :=
  match event with
  | SavedEdit _ changed_range_count =>
    if changed_range_count >? 64 then Err EventBudgetExceeded else Ok tt
  | TestLifecycle _ test_count _ _ =>
    if test_count >? 128 then Err EventBudgetExceeded else Ok tt
  | _ => Ok tt
  end.

(** ** Envelopes and bindings *)
Record HookEventEnvelopeV2 : Type := {
  schema_version : Z;
  event_id : bytes;
  producer : NativeHostIdentityV1;
  protected_session_id : bytes;
  project_id : bytes;
  repository_id : bytes;
  worktree_id : bytes;
  worktree_epoch : Z;
  binding_token : bytes;
  ordering : HookOrderingV1;
  observed_at : Z;
  event : HookEventV2;
}.

#[export] Instance HookEventEnvelopeV2_eq_dec : EqDecision HookEventEnvelopeV2.
Proof. solve_decision. Defined.

Record HookCapabilityV1 : Type := {
  capability_family : HookEventFamily;
  capability_support : HookEventSupportV1;
}.

Record HookScopeBindingV1 : Type := {
  binding_host : NativeHostIdentityV1;
  binding_project_id : bytes;
  binding_repository_id : bytes;
  binding_worktree_id : bytes;
  binding_worktree_epoch : Z;
  binding_binding_token : bytes;
  capabilities : list HookCapabilityV1;
}.

(** The loop of [HookScopeBindingV1::validate]: no family twice and each
    support is the checked-in one. [seen] is [capabilities[..index]]. *)
Fixpoint capabilities_valid (host : NativeHostIdentityV1) (seen rest : list HookCapabilityV1) :
    bool :=
  match rest with
  | [] => true
  | capability :: rest =>
    if existsb (λ existing,
         bool_decide (capability_family existing = capability_family capability)) seen
       || negb (bool_decide (capability_support capability =
                  stock_event_support host (capability_family capability)))
    then false
    else capabilities_valid host (seen ++ [capability]) rest
  end.

Definition binding_validate (self : HookScopeBindingV1) : result unit HookContractError :=
  if bool_decide (binding_project_id self = zeros 16)
     || bool_decide (binding_repository_id self = zeros 16)
     || bool_decide (binding_worktree_id self = zeros 16)
     || bool_decide (binding_binding_token self = zeros 32)
     || is_empty (capabilities self)
     || (zlen (capabilities self) >? 5)
  then Err InvalidBinding
  else if capabilities_valid (binding_host self) [] (capabilities self)
  then Ok tt
  else Err InvalidBinding.

Definition support_for (self : HookScopeBindingV1) (f : HookEventFamily) :
    result HookEventSupportV1 HookContractError :=
  let? _ := binding_validate self in
  match find (λ capability, bool_decide (capability_family capability = f)) (capabilities self) with
  | Some capability => Ok (capability_support capability)
  | None => Err UnsupportedFamily
  end.

Definition envelope_validate (self : HookEventEnvelopeV2) (binding : HookScopeBindingV1) :
    result unit HookContractError :=
  if negb (schema_version self =? HOOK_EVENT_SCHEMA_VERSION) then Err UnsupportedSchemaVersion
  else if bool_decide (event_id self = zeros 16)
     || bool_decide (protected_session_id self = zeros 32)
     || bool_decide (project_id self = zeros 16)
     || bool_decide (repository_id self = zeros 16)
     || bool_decide (worktree_id self = zeros 16)
     || bool_decide (binding_token self = zeros 32)
  then Err InvalidIdentity
  else if negb (bool_decide (project_id self = binding_project_id binding))
     || negb (bool_decide (producer self = binding_host binding))
     || negb (bool_decide (repository_id self = binding_repository_id binding))
     || negb (bool_decide (worktree_id self = binding_worktree_id binding))
     || negb (worktree_epoch self =? binding_worktree_epoch binding)
     || negb (bool_decide (binding_token self = binding_binding_token binding))
  then Err BindingMismatch
  else
    let? _ := event_validate (event self) in
    let? support := support_for binding (family (event self)) in
    match support with
    | Native | ReceiptDerived => Ok tt
    | _ => Err UnsupportedFamily
    end.

(** [envelope_identity_hash16]: the truncated digest of "domain:value". *)
Definition envelope_identity_hash16 `{Sha256} (domain value : rstr) : bytes :=
  take 16 (sha256 (utf8_encode domain ++ utf8_encode (str ":") ++ utf8_encode value)).

(** ** Provider-native lifecycle identity *)
Record NativeContextScoutLifecycleV1 : Type := {
  session_id : rstr;
  call_id : rstr;
  lifecycle_event_id : bytes;
}.

#[export] Instance NativeContextScoutLifecycleV1_eq_dec : EqDecision NativeContextScoutLifecycleV1.
Proof. solve_decision. Defined.

Definition matches_envelope `{Sha256} (self : NativeContextScoutLifecycleV1)
    (envelope : HookEventEnvelopeV2) : bool :=
  match producer envelope with KimiCode | OpenCode => true | _ => false end
  && bool_decide (sha256 (utf8_encode (session_id self)) = protected_session_id envelope)
  && bool_decide (lifecycle_event_id self = event_id envelope)
  && match event envelope with SavedEdit _ _ | ToolLifecycle _ _ _ => true | _ => false end.

(** ** Lemmas *)
Lemma capabilities_valid_spec host seen rest :
  capabilities_valid host seen rest = true ↔
  (NoDup (capability_family <$> rest) ∧
   (∀ c, c ∈ rest → capability_family c ∉ capability_family <$> seen) ∧
   (∀ c, c ∈ rest → capability_support c = stock_event_support host (capability_family c))).
Proof.
  revert seen. induction rest as [|c rest IH]; intros seen; simpl.
  { split; [|done]. intros _. split_and!; [constructor|set_solver..]. }
  destruct (existsb _ seen) eqn:E1; simpl.
  { split; [done|]. intros (_ & H & _). exfalso.
    apply existsb_exists in E1 as (x & Hx & Ex). bools. apply list_elem_of_In in Hx.
    apply (H c); [set_solver|]. rewrite <- Ex. by apply list_elem_of_fmap_2. }
  case_bool_decide as E2; simpl.
  2:{ split; [done|]. intros (_ & _ & H). exfalso. apply E2, H. set_solver. }
  rewrite IH. split.
  - intros (H1 & H2 & H3). split_and!.
    + constructor; [|done]. intros (d & Ed & Hd)%list_elem_of_fmap.
      apply (H2 d Hd). rewrite fmap_app, <- Ed. set_solver.
    + intros d [->|Hd]%elem_of_cons.
      * intros (x & Ex & Hx)%list_elem_of_fmap. apply not_true_iff_false in E1. apply E1.
        apply existsb_exists. exists x. split; [by apply list_elem_of_In|]. by apply bool_decide_eq_true.
      * specialize (H2 d Hd). rewrite fmap_app in H2. set_solver.
    + intros d [->|Hd]%elem_of_cons; auto.
  - intros (H1 & H2 & H3). inversion_clear H1 as [|? ? Hn Hd]. split_and!; [done|..].
    + intros d Hd'. rewrite fmap_app, not_elem_of_app. split; [apply H2; set_solver|].
      intros Ed%list_elem_of_singleton. apply Hn. rewrite <- Ed. by apply list_elem_of_fmap_2.
    + intros d Hd'. apply H3. set_solver.
Qed.

(** The support a valid binding names for a family is the checked-in one, so
    a binding cannot widen the native matrix. *)
Lemma support_for_stock b f s :
  support_for b f = Ok s → s = stock_event_support (binding_host b) f.
Proof.
  unfold support_for, binding_validate. destruct (_ || _); [done|].
  destruct (capabilities_valid _ _ _) eqn:E; [|done].
  apply capabilities_valid_spec in E as (_ & _ & E).
  destruct (find _ _) as [c|] eqn:F; [|done]. intros [= <-].
  apply find_some in F as [F Ef]. apply list_elem_of_In in F. bools. subst. by apply E.
Qed.

(** What an accepted envelope guarantees. *)
Lemma envelope_validate_facts e b :
  envelope_validate e b = Ok tt →
  schema_version e = HOOK_EVENT_SCHEMA_VERSION ∧ producer e = binding_host b ∧
  project_id e = binding_project_id b ∧ worktree_id e = binding_worktree_id b ∧
  repository_id e = binding_repository_id b ∧ worktree_epoch e = binding_worktree_epoch b ∧
  binding_token e = binding_binding_token b ∧ event_validate (event e) = Ok tt ∧
  (stock_event_support (producer e) (family (event e)) = Native ∨
   stock_event_support (producer e) (family (event e)) = ReceiptDerived).
Proof.
  unfold envelope_validate.
  destruct (negb (schema_version e =? _)) eqn:H1; [done|].
  destruct (_ || _ || _ || _ || _ || _) eqn:H2; [done|].
  destruct (negb _ || negb _ || _ || _ || _ || _) eqn:H3; [done|].
  destruct (event_validate (event e)) as [[]|] eqn:H4; [|done].
  destruct (support_for b (family (event e))) as [s|] eqn:H5; [|done].
  apply support_for_stock in H5 as ->. bools. intros Hs.
  split_and!; try done; try lia.
  match goal with H : producer e = _ |- _ => rewrite H end.
  destruct (stock_event_support _ _); try done; auto.
Qed.
