(* ===== verification/SpoolFrame.v ===== *)
(** * The spool's frames and the scan of its records file

    [tracedecay-hooks/src/spool/types.rs] and [spool/frame.rs]: the data of
    the replay spool, the payload and frame codecs, and the recovery scan of
    the append-only records file.

    The file system is the operating system: a records file is [None] when it
    is missing and its bytes otherwise, and a read that fails is not a value
    of the model.  JSON is [serde_json] behind derived implementations: the
    class [HookSpoolCodec] holds the calls the code makes and the one thing
    the code relies on, that a well-typed payload parses back. *)
From stdpp Require Import base list numbers sets strings.
From S2P Require Import Prelude RustText Bytes HookContract.

#[local] Open Scope Z_scope.
#[local] Open Scope rust_scope.

(** ** Constants of spool/mod.rs and spool/frame.rs *)
Definition SPOOL_MAGIC : bytes := str "TDH2".
Definition SPOOL_FORMAT_VERSION : Z := 1.
Definition SPOOL_META_VERSION : Z := 1.
Definition FRAME_LENGTH_BYTES : Z := 4.
Definition FRAME_HEADER_BYTES : Z := 4 + 2 + 8 + 8 + 32 + 4.
Definition FRAME_CHECKSUM_BYTES : Z := 32.
Definition SPOOL_PAYLOAD_VERSION : Z := 1.

(** ** Errors *)
Inductive HookSpoolResetReasonV1 : Type :=
  | MetadataVersion (found expected : Z)
  | MetadataShape
  | FrameFormat (found_magic : bytes) (found_version : Z) (expected_magic : bytes)
      (expected_version : Z)
  | EnvelopeVersion (found expected : Z)
  | EnvelopeShape.

#[export] Instance HookSpoolResetReasonV1_eq_dec : EqDecision HookSpoolResetReasonV1.
Proof. solve_decision. Defined.

Inductive HookSpoolError : Type :=
  | Io | UnsafePath | InvalidLimits | InvalidLease | WriterLeaseHeld | AdmissionTimedOut
  | WriterLeaseLost
  | ResetRequired (reason : HookSpoolResetReasonV1)
  | MetadataCorrupted | RecoveryRequired
  | Corrupted (at_offset : Z)
  | RecordTooLarge | SpoolFull
  | EnvelopeRejected (error : HookContractError)
  | EventIdConflict | AckConflict | ReplayClaimUnknown | ReplayBatchExceeded.

#[export] Instance HookSpoolError_eq_dec : EqDecision HookSpoolError.
Proof. solve_decision. Defined.

(** ** Limits and configuration *)
Record HookSpoolLimitsV1 : Type := {
  max_host_records : Z;
  max_host_bytes : Z;
  max_session_records : Z;
  max_session_bytes : Z;
}.

Definition limits_stock : HookSpoolLimitsV1 := {|
  max_host_records := MAX_SPOOL_RECORDS_PER_HOST;
  max_host_bytes := MAX_SPOOL_BYTES_PER_HOST;
  max_session_records := MAX_SPOOL_RECORDS_PER_SESSION;
  max_session_bytes := MAX_SPOOL_BYTES_PER_SESSION;
|}.

Definition limits_validate (self : HookSpoolLimitsV1) : result unit HookSpoolError :=
  if (max_host_records self =? 0)
     || (max_host_records self >? MAX_SPOOL_RECORDS_PER_HOST)
     || (max_host_bytes self =? 0)
     || (max_host_bytes self >? MAX_SPOOL_BYTES_PER_HOST)
     || (max_session_records self =? 0)
     || (max_session_records self >? max_host_records self)
     || (max_session_records self >? MAX_SPOOL_RECORDS_PER_SESSION)
     || (max_session_bytes self =? 0)
     || (max_session_bytes self >? max_host_bytes self)
     || (max_session_bytes self >? MAX_SPOOL_BYTES_PER_SESSION)
  then Err InvalidLimits
  else Ok tt.

Record HookSpoolConfigV1 : Type := {
  host : NativeHostIdentityV1;
  limits : HookSpoolLimitsV1;
  writer_lease_micros : Z;
}.

Definition config_stock (h : NativeHostIdentityV1) : HookSpoolConfigV1 := {|
  host := h;
  limits := limits_stock;
  writer_lease_micros := 5000000;
|}.

Definition config_validate (self : HookSpoolConfigV1) : result unit HookSpoolError :=
  let? _ := limits_validate (limits self) in
  if writer_lease_micros self <=? 0 then Err InvalidLease else Ok tt.

(** ** Records *)
Record HookSpoolRecordV1 : Type := {
  sequence : Z;
  record_session : bytes;
  queued_at : Z;
  envelope : HookEventEnvelopeV2;
  native_lifecycle : option NativeContextScoutLifecycleV1;
  encoded_len : Z;
  checksum : bytes;
  framed_len : Z;
}.

#[export] Instance HookSpoolRecordV1_eq_dec : EqDecision HookSpoolRecordV1.
Proof. solve_decision. Defined.

Record PendingRecordV1 : Type := {
  p_sequence : Z;
  p_session : bytes;
  p_queued_at : Z;
  p_framed_len : Z;
  p_file_offset : Z;
  p_event_id : bytes;
  p_project_id : bytes;
  p_worktree_id : bytes;
  p_checksum : bytes;
  p_envelope : option HookEventEnvelopeV2;
  p_native_lifecycle : option NativeContextScoutLifecycleV1;
}.

#[export] Instance PendingRecordV1_eq_dec : EqDecision PendingRecordV1.
Proof. solve_decision. Defined.

Definition from_record (record : HookSpoolRecordV1) (file_offset : Z) : PendingRecordV1 := {|
  p_sequence := sequence record;
  p_session := record_session record;
  p_queued_at := queued_at record;
  p_framed_len := framed_len record;
  p_file_offset := file_offset;
  p_event_id := event_id (envelope record);
  p_project_id := project_id (envelope record);
  p_worktree_id := worktree_id (envelope record);
  p_checksum := checksum record;
  p_envelope := Some (envelope record);
  p_native_lifecycle := native_lifecycle record;
|}.

Definition FRAME_OVERHEAD : Z := FRAME_LENGTH_BYTES + FRAME_HEADER_BYTES + FRAME_CHECKSUM_BYTES.

(** [PendingRecordV1::to_record]; [framed_len.checked_sub(frame_overhead)?]. *)
Definition to_record (self : PendingRecordV1) : option HookSpoolRecordV1 :=
  match p_envelope self with
  | None => None
  | Some e =>
    if p_framed_len self <? FRAME_OVERHEAD then None
    else Some {|
      sequence := p_sequence self;
      record_session := p_session self;
      queued_at := p_queued_at self;
      envelope := e;
      native_lifecycle := p_native_lifecycle self;
      encoded_len := p_framed_len self - FRAME_OVERHEAD;
      checksum := p_checksum self;
      framed_len := p_framed_len self;
    |}
  end.

Definition matches_record (self : PendingRecordV1) (record : HookSpoolRecordV1) : bool :=
  (p_sequence self =? sequence record)
  && bool_decide (p_session self = record_session record)
  && (p_queued_at self =? queued_at record)
  && (p_framed_len self =? framed_len record)
  && bool_decide (p_event_id self = event_id (envelope record))
  && bool_decide (p_project_id self = project_id (envelope record))
  && bool_decide (p_worktree_id self = worktree_id (envelope record))
  && bool_decide (p_checksum self = checksum record)
  && match p_envelope self with
     | None => true
     | Some e => bool_decide (e = envelope record)
                 && bool_decide (p_native_lifecycle self = native_lifecycle record)
     end.

Record ScanResult : Type := {
  scan_records_found : list PendingRecordV1;
  valid_end : Z;
  physical_len : Z;
  scanned_records : Z;
  partial_tail : option bytes;
  corruption : option Z;
}.

(** ** The payload *)
Record HookSpoolPayloadV1 : Type := {
  spool_payload_version : Z;
  payload_envelope : HookEventEnvelopeV2;
  payload_lifecycle : option NativeContextScoutLifecycleV1;
}.

#[export] Instance HookSpoolPayloadV1_eq_dec : EqDecision HookSpoolPayloadV1.
Proof. solve_decision. Defined.

(** The values the Rust types of an envelope and of a lifecycle admit: array
    lengths, integer widths and validated identity strings. *)
Definition opt_array (n : nat) (o : option bytes) : bool :=
  match o with Some b => is_array n b | None => true end.

Definition event_typed (e : HookEventV2) : bool :=
  match e with
  | SessionBoundary _ | PromptBoundary => true
  | ToolLifecycle t _ r => is_array 16 t && opt_array 16 r
  | SavedEdit f n => is_array 16 f && within 0 255 n
  | TestLifecycle t n _ r => is_array 16 t && within 0 255 n && opt_array 16 r
  end.

Definition envelope_typed (e : HookEventEnvelopeV2) : bool :=
  within 0 u16_max (schema_version e) && is_array 16 (event_id e)
  && is_array 32 (protected_session_id e) && is_array 16 (project_id e)
  && is_array 16 (repository_id e) && is_array 16 (worktree_id e)
  && within 0 u64_max (worktree_epoch e) && is_array 32 (binding_token e)
  && match ordering e with ProviderSequence n => within 0 u64_max n | UnknownOrdering => true end
  && within i64_min i64_max (observed_at e) && event_typed (event e).

Definition lifecycle_typed (l : NativeContextScoutLifecycleV1) : bool :=
  identity_ok (session_id l) && identity_ok (call_id l) && is_array 16 (lifecycle_event_id l).

Definition payload_typed (p : HookSpoolPayloadV1) : bool :=
  within 0 u16_max (spool_payload_version p) && envelope_typed (payload_envelope p)
  && match payload_lifecycle p with Some l => lifecycle_typed l | None => true end.

(** The calls of [frame.rs] into [serde_json] and the canonical serializer:
    [serde_json::from_slice::<Value>], [value.get(key)], the same followed by
    [as_u64], [serde_json::from_value] at the two types, and
    [canonical_json_bytes].  [payload_round_trip] is the documented behaviour
    of a derived [Serialize]/[Deserialize] pair: what is written parses to an
    object with every field of the struct and deserializes to the value. *)
Class HookSpoolCodec := {
  Value : Type;
  from_slice : bytes → option Value;
  value_has : rstr → Value → bool;
  value_u64 : rstr → Value → option Z;
  payload_from_value : Value → option HookSpoolPayloadV1;
  envelope_from_value : Value → option HookEventEnvelopeV2;
  payload_json_bytes : HookSpoolPayloadV1 → option bytes;
  payload_json_is_bytes : ∀ p b, payload_json_bytes p = Some b → forallb is_byte b = true;
  payload_round_trip : ∀ p b,
    payload_typed p = true → payload_json_bytes p = Some b →
    ∃ v, from_slice b = Some v ∧ value_has (str "spool_payload_version") v = true ∧
         payload_from_value v = Some p;
}.

Section frame.
Context `{Sha256} `{HookSpoolCodec}.

(** [tracedecay_domain::framed_log::checksum]. *)
Definition frame_checksum (input : bytes) : bytes := sha256 input.

Definition encode_spool_payload (e : HookEventEnvelopeV2)
    (lifecycle : option NativeContextScoutLifecycleV1) : result bytes HookSpoolError :=
  if match lifecycle with Some l => negb (matches_envelope l e) | None => false end
  then Err (EnvelopeRejected BindingMismatch)
  else
    match payload_json_bytes {| spool_payload_version := SPOOL_PAYLOAD_VERSION;
                                payload_envelope := e; payload_lifecycle := lifecycle |} with
    | Some b => Ok b
    | None => Err RecordTooLarge
    end.

Definition decode_exact_envelope (payload : bytes) (file_offset : Z) :
    result HookEventEnvelopeV2 HookSpoolError :=
  match from_slice payload with
  | None => Err (Corrupted file_offset)
  | Some value =>
    match value_u64 (str "schema_version") value with
    | None => Err (ResetRequired EnvelopeShape)
    | Some found =>
      if found >? u16_max then Err (ResetRequired EnvelopeShape)
      else if negb (found =? HOOK_EVENT_SCHEMA_VERSION)
      then Err (ResetRequired (EnvelopeVersion found HOOK_EVENT_SCHEMA_VERSION))
      else match envelope_from_value value with
           | Some e => Ok e
           | None => Err (ResetRequired EnvelopeShape)
           end
    end
  end.

Definition decode_spool_payload (payload : bytes) (file_offset : Z) :
    result (HookEventEnvelopeV2 * option NativeContextScoutLifecycleV1) HookSpoolError :=
  match from_slice payload with
  | None => Err (Corrupted file_offset)
  | Some value =>
    if negb (value_has (str "spool_payload_version") value)
    then let? e := decode_exact_envelope payload file_offset in Ok (e, None)
    else match payload_from_value value with
    | None => Err (Corrupted file_offset)
    | Some decoded =>
      if negb (spool_payload_version decoded =? SPOOL_PAYLOAD_VERSION)
         || match payload_lifecycle decoded with
            | Some l => negb (matches_envelope l (payload_envelope decoded))
            | None => false
            end
      then Err (Corrupted file_offset)
      else Ok (payload_envelope decoded, payload_lifecycle decoded)
    end
  end.

(** ** The frame *)

(** The bytes a frame's checksum covers. *)
Definition frame_head (body_len seq at_ : Z) (session payload : bytes) : bytes :=
  to_le_bytes 4 body_len ++ SPOOL_MAGIC ++ to_le_bytes 2 SPOOL_FORMAT_VERSION
  ++ to_le_bytes 8 seq ++ i64_to_le_bytes at_ ++ session
  ++ to_le_bytes 4 (zlen payload) ++ payload.

Definition encode_frame (seq at_ : Z) (session payload : bytes) : result bytes HookSpoolError :=
  if (seq =? 0) || is_empty payload || (zlen payload >? MAX_HOOK_PAYLOAD_BYTES)
  then Err RecordTooLarge
  else
    match checked_add usize_max FRAME_HEADER_BYTES (zlen payload)
            ≫= λ length, checked_add usize_max length FRAME_CHECKSUM_BYTES with
    | None => Err RecordTooLarge
    | Some body_len =>
      if body_len >? u32_max then Err RecordTooLarge
      else
        let frame := frame_head body_len seq at_ session payload in
        Ok (frame ++ frame_checksum frame)
    end.

Definition decode_complete_frame (frame : bytes) (file_offset : Z) (h : NativeHostIdentityV1) :
    result HookSpoolRecordV1 HookSpoolError :=
  if zlen frame <? FRAME_OVERHEAD then Err (Corrupted file_offset) else
  let declared := from_le_bytes (slice 0 4 frame) in
  if negb (declared + FRAME_LENGTH_BYTES =? zlen frame) then Err (Corrupted file_offset) else
  let found_magic := slice 4 8 frame in
  let found_version := from_le_bytes (slice 8 10 frame) in
  if negb (bool_decide (found_magic = SPOOL_MAGIC))
     || negb (found_version =? SPOOL_FORMAT_VERSION)
  then Err (ResetRequired (FrameFormat found_magic found_version SPOOL_MAGIC SPOOL_FORMAT_VERSION))
  else
  let checksum_at := zlen frame - FRAME_CHECKSUM_BYTES in
  let checksum := drop (Z.to_nat checksum_at) frame in
  if negb (bool_decide (frame_checksum (take (Z.to_nat checksum_at) frame) = checksum))
  then Err (Corrupted file_offset)
  else
  let sequence := from_le_bytes (slice 10 18 frame) in
  let queued_at := i64_from_le_bytes (slice 18 26 frame) in
  let session := slice 26 58 frame in
  let payload_len := from_le_bytes (slice 58 62 frame) in
  if (sequence =? 0) || (payload_len =? 0) || (payload_len >? MAX_HOOK_PAYLOAD_BYTES)
     || negb (sat_add usize_max 62 payload_len =? checksum_at)
  then Err (Corrupted file_offset)
  else
  let payload := slice 62 (Z.to_nat checksum_at) frame in
  let? decoded := decode_spool_payload payload file_offset in
  let e := fst decoded in
  if negb (bool_decide (producer e = h)) || negb (bool_decide (protected_session_id e = session))
  then Err (Corrupted file_offset)
  else if zlen frame >? u32_max then Err MetadataCorrupted
  else Ok {|
    sequence := sequence;
    record_session := session;
    queued_at := queued_at;
    envelope := e;
    native_lifecycle := snd decoded;
    encoded_len := payload_len;
    checksum := checksum;
    framed_len := zlen frame;
  |}.

(** ** The scan *)
Definition partial_scan (records : list PendingRecordV1) (offset plen scanned : Z)
    (rest : bytes) : result ScanResult HookSpoolError :=
  Ok {| scan_records_found := records; valid_end := offset; physical_len := plen;
        scanned_records := scanned; partial_tail := Some rest; corruption := None |}.

Definition corrupt_scan (records : list PendingRecordV1) (offset plen scanned : Z) : ScanResult :=
  {| scan_records_found := records; valid_end := offset; physical_len := plen;
     scanned_records := scanned; partial_tail := None; corruption := Some offset |}.

(** The [while offset < physical_len] loop. [rest] is the file from [offset];
    every iteration that continues consumes a frame, so the length of [rest]
    bounds the iterations ([scan_loop_fuel]). *)
Fixpoint scan_loop (fuel : nat) (config : HookSpoolConfigV1) (plen : Z) (rest : bytes)
    (offset : Z) (records : list PendingRecordV1) (previous_sequence : option Z) (scanned : Z) :
    result ScanResult HookSpoolError :=
  match fuel with
  | O => Err MetadataCorrupted
  | S fuel =>
    if negb (offset <? plen)
    then Ok {| scan_records_found := records; valid_end := offset; physical_len := plen;
               scanned_records := scanned; partial_tail := None; corruption := None |}
    else
    let remaining := plen - offset in
    if remaining <? FRAME_LENGTH_BYTES then partial_scan records offset plen scanned rest else
    let prefix := take 4 rest in
    let declared := from_le_bytes prefix in
    let minimum := FRAME_HEADER_BYTES + FRAME_CHECKSUM_BYTES in
    let maximum := minimum + MAX_HOOK_PAYLOAD_BYTES in
    if (declared <? minimum) || (declared >? maximum)
    then Ok (corrupt_scan records offset plen scanned) else
    let frame_len := FRAME_LENGTH_BYTES + declared in
    if frame_len >? remaining then partial_scan records offset plen scanned rest else
    let frame := take (Z.to_nat frame_len) rest in
    match decode_complete_frame frame offset (host config) with
    | Err (Corrupted _) | Err MetadataCorrupted => Ok (corrupt_scan records offset plen scanned)
    | Err error => Err error
    | Ok record =>
      if match previous_sequence with
         | Some previous => sequence record <=? previous
         | None => false
         end
         || (zlen records >=? max_host_records (limits config))
      then Ok (corrupt_scan records offset plen scanned)
      else
        match checked_add u32_max scanned 1 with
        | None => Err MetadataCorrupted
        | Some scanned' =>
          scan_loop fuel config plen (drop (Z.to_nat frame_len) rest)
            (sat_add u64_max offset (framed_len record))
            (records ++ [from_record record offset]) (Some (sequence record)) scanned'
        end
    end
  end.

Definition scan_records_from (file : option bytes) (config : HookSpoolConfigV1)
    (records : list PendingRecordV1) (validated_end : Z) : result ScanResult HookSpoolError :=
  match file with
  | None =>
    if negb (validated_end =? 0) || negb (is_empty records) then Err MetadataCorrupted
    else Ok {| scan_records_found := records; valid_end := 0; physical_len := 0;
               scanned_records := 0; partial_tail := None; corruption := None |}
  | Some file =>
    let plen := zlen file in
    if plen >? max_host_bytes (limits config) then Err SpoolFull
    else if validated_end >? plen then Err MetadataCorrupted
    else
      let rest := drop (Z.to_nat validated_end) file in
      scan_loop (S (length rest)) config plen rest validated_end records
        (p_sequence <$> last records) 0
  end.

Definition scan_records (file : option bytes) (config : HookSpoolConfigV1) :
    result ScanResult HookSpoolError :=
  scan_records_from file config [] 0.

(** ** Lemmas: the payload and the frame decode back *)
Lemma decode_encode_payload e l b off :
  envelope_typed e = true → (∀ l', l = Some l' → lifecycle_typed l' = true) →
  encode_spool_payload e l = Ok b → decode_spool_payload b off = Ok (e, l).
Proof.
  intros He Hl. unfold encode_spool_payload.
  destruct (match l with Some _ => _ | None => _ end) eqn:Hm; [done|].
  destruct (payload_json_bytes _) as [b'|] eqn:Hb; [|done]. intros [= <-].
  apply payload_round_trip in Hb as (v & Hv & Hk & Hp).
  - unfold decode_spool_payload. rewrite Hv, Hk, Hp. simpl. by rewrite Hm.
  - unfold payload_typed. simpl. rewrite He. simpl.
    destruct l as [l'|]; [by apply Hl|done].
Qed.

Lemma frame_head_length body_len seq at_ session payload :
  length session = 32%nat →
  length (frame_head body_len seq at_ session payload) = (62 + length payload)%nat.
Proof.
  intros Hs. unfold frame_head. rewrite !length_app, !to_le_bytes_length, i64_to_le_length, Hs.
  change (length SPOOL_MAGIC) with 4%nat. lia.
Qed.

Lemma encode_frame_inv seq at_ session payload frame :
  encode_frame seq at_ session payload = Ok frame →
  0 < zlen payload <= MAX_HOOK_PAYLOAD_BYTES ∧ seq ≠ 0 ∧
  frame = frame_head (FRAME_HEADER_BYTES + zlen payload + FRAME_CHECKSUM_BYTES) seq at_ session payload
          ++ frame_checksum
               (frame_head (FRAME_HEADER_BYTES + zlen payload + FRAME_CHECKSUM_BYTES)
                  seq at_ session payload).
Proof.
  unfold encode_frame. destruct (_ || _) eqn:E; [done|].
  apply orb_false_iff in E as [E E3]. apply orb_false_iff in E as [E1 E2].
  rewrite Z.gtb_ltb, Z.ltb_ge in E3. apply Z.eqb_neq in E1.
  assert (0 < zlen payload) by (destruct payload; [done|]; rewrite zlen_cons; pose proof (zlen_nonneg payload); lia).
  unfold MAX_HOOK_PAYLOAD_BYTES, FRAME_HEADER_BYTES, FRAME_CHECKSUM_BYTES, checked_add in *.
  rewrite bool_decide_eq_true_2 by (unfold usize_max, u64_max; lia). cbn [mbind option_bind].
  rewrite bool_decide_eq_true_2 by (unfold usize_max, u64_max; lia).
  destruct (Z.gtb_spec (4 + 2 + 8 + 8 + 32 + 4 + zlen payload + 32) u32_max); [done|].
  intros [= <-]. done.
Qed.

Lemma encode_frame_length seq at_ session payload frame :
  length session = 32%nat → encode_frame seq at_ session payload = Ok frame →
  zlen frame = FRAME_OVERHEAD + zlen payload.
Proof.
  intros Hs (_ & _ & ->)%encode_frame_inv. unfold zlen.
  rewrite length_app, frame_head_length by done. unfold frame_checksum. rewrite sha256_length.
  unfold FRAME_OVERHEAD, FRAME_LENGTH_BYTES, FRAME_HEADER_BYTES, FRAME_CHECKSUM_BYTES. lia.
Qed.

(** The fields at their offsets in the covered part of a frame. *)
Lemma frame_head_fields body_len seq at_ session payload tail :
  length session = 32%nat →
  let frame := frame_head body_len seq at_ session payload ++ tail in
  slice 0 4 frame = to_le_bytes 4 body_len ∧ slice 4 8 frame = SPOOL_MAGIC ∧
  slice 8 10 frame = to_le_bytes 2 SPOOL_FORMAT_VERSION ∧
  slice 10 18 frame = to_le_bytes 8 seq ∧ slice 18 26 frame = i64_to_le_bytes at_ ∧
  slice 26 58 frame = session ∧ slice 58 62 frame = to_le_bytes 4 (zlen payload) ∧
  slice 62 (62 + length payload) frame = payload.
Proof.
  intros Hs frame.
  set (b := to_le_bytes 4 body_len). set (v := to_le_bytes 2 SPOOL_FORMAT_VERSION).
  set (q := to_le_bytes 8 seq). set (t := i64_to_le_bytes at_). set (n := to_le_bytes 4 (zlen payload)).
  assert (length b = 4%nat ∧ length SPOOL_MAGIC = 4%nat ∧ length v = 2%nat ∧ length q = 8%nat ∧
          length t = 8%nat ∧ length n = 4%nat) as (Lb & Lm & Lv & Lq & Lt & Ln).
  { subst b v q t n. rewrite !to_le_bytes_length, i64_to_le_length. done. }
  assert (frame = concat [b; SPOOL_MAGIC; v; q; t; session; n; payload; tail]) as E.
  { unfold frame, frame_head. simpl. by rewrite <- !app_assoc, app_nil_r. }
  subst frame. cbv zeta. fold b v q t n. rewrite E.
  split_and!; [apply (slice_concat 0)|apply (slice_concat 1)|apply (slice_concat 2)|
    apply (slice_concat 3)|apply (slice_concat 4)|apply (slice_concat 5)|apply (slice_concat 6)|
    apply (slice_concat 7)]; try reflexivity; cbn [concat take]; rewrite ?length_app; cbn [length]; lia.
Qed.

(** What [decode_complete_frame] answers on a frame of the code's own. *)
Lemma decode_encode_frame seq at_ session payload frame off h e l :
  0 < seq <= u64_max → i64_min <= at_ <= i64_max → length session = 32%nat →
  encode_frame seq at_ session payload = Ok frame →
  decode_spool_payload payload off = Ok (e, l) → producer e = h →
  protected_session_id e = session →
  decode_complete_frame frame off h = Ok {|
    sequence := seq; record_session := session; queued_at := at_; envelope := e;
    native_lifecycle := l; encoded_len := zlen payload;
    checksum := frame_checksum
      (frame_head (FRAME_HEADER_BYTES + zlen payload + FRAME_CHECKSUM_BYTES) seq at_ session payload);
    framed_len := FRAME_OVERHEAD + zlen payload |}.
Proof.
  intros Hseq Hat Hs Henc Hpay Hh Hsess.
  pose proof (encode_frame_length _ _ _ _ _ Hs Henc) as Hlen.
  apply encode_frame_inv in Henc as (Hp & _ & Hf).
  set (head := frame_head _ _ _ _ _) in *.
  assert (length head = (62 + length payload)%nat) as Hhead by by apply frame_head_length.
  destruct (frame_head_fields (FRAME_HEADER_BYTES + zlen payload + FRAME_CHECKSUM_BYTES) seq at_
    session payload (frame_checksum head) Hs) as (F1 & F2 & F3 & F4 & F5 & F6 & F7 & F8).
  fold head in F1, F2, F3, F4, F5, F6, F7, F8. rewrite <- Hf in F1, F2, F3, F4, F5, F6, F7, F8.
  assert (zlen frame - FRAME_CHECKSUM_BYTES = 62 + zlen payload) as Hat'.
  { rewrite Hlen. unfold FRAME_OVERHEAD, FRAME_LENGTH_BYTES, FRAME_HEADER_BYTES,
      FRAME_CHECKSUM_BYTES. lia. }
  assert (Z.to_nat (62 + zlen payload) = 62 + length payload)%nat as Hnat by (unfold zlen; lia).
  unfold decode_complete_frame. rewrite Hat', Hnat, F1, F2, F3, F4, F5, F6, F7, F8.
  assert (take (62 + length payload) frame = head ∧ drop (62 + length payload) frame =
    frame_checksum head) as [T1 T2].
  { rewrite Hf, <- Hhead. by rewrite take_app_length, drop_app_length. }
  rewrite T1, T2, Hpay, Hlen.
  unfold MAX_HOOK_PAYLOAD_BYTES, FRAME_OVERHEAD, FRAME_LENGTH_BYTES, FRAME_HEADER_BYTES,
    FRAME_CHECKSUM_BYTES, SPOOL_FORMAT_VERSION in *.
  rewrite !from_to_le_u32, from_to_le_u16, from_to_le_u64, i64_from_to_le
    by (unfold u32_max, u16_max, u64_max in *; lia).
  rewrite !bool_decide_eq_true_2 by done. unfold sat_add, usize_max, u64_max, u32_max.
  cbn [negb orb fst snd].
  destruct (Z.ltb_spec (4 + (4 + 2 + 8 + 8 + 32 + 4) + 32 + zlen payload)
    (4 + (4 + 2 + 8 + 8 + 32 + 4) + 32)); [lia|].
  rewrite (proj2 (Z.eqb_eq (_ + 4) _)) by lia. simpl negb. cbv iota.
  rewrite (proj2 (Z.eqb_neq seq 0)), (proj2 (Z.eqb_neq (zlen payload) 0)) by lia.
  rewrite (proj2 (Z.eqb_eq (Z.min _ _) _)) by lia.
  destruct (Z.gtb_spec (zlen payload) (16 * 1024)); [lia|].
  simpl negb. simpl orb. cbv iota.
  destruct (Z.gtb_spec (4 + (4 + 2 + 8 + 8 + 32 + 4) + 32 + zlen payload) 4294967295); [lia|].
  done.
Qed.

(** One record as an append writes it: the payload is encoded and framed. *)
Record Appended : Type := {
  a_sequence : Z;
  a_queued_at : Z;
  a_envelope : HookEventEnvelopeV2;
  a_lifecycle : option NativeContextScoutLifecycleV1;
}.

Definition appended_frame (a : Appended) : result bytes HookSpoolError :=
  let? payload := encode_spool_payload (a_envelope a) (a_lifecycle a) in
  encode_frame (a_sequence a) (a_queued_at a) (protected_session_id (a_envelope a)) payload.

(** The values the types of an append's arguments admit, and its host. *)
Definition appended_typed (h : NativeHostIdentityV1) (a : Appended) : bool :=
  (1 <=? a_sequence a) && (a_sequence a <=? u64_max) && within i64_min i64_max (a_queued_at a)
  && envelope_typed (a_envelope a)
  && match a_lifecycle a with Some l => lifecycle_typed l | None => true end
  && bool_decide (producer (a_envelope a) = h).

Definition record_of (a : Appended) (frame : bytes) : HookSpoolRecordV1 := {|
  sequence := a_sequence a;
  record_session := protected_session_id (a_envelope a);
  queued_at := a_queued_at a;
  envelope := a_envelope a;
  native_lifecycle := a_lifecycle a;
  encoded_len := zlen frame - FRAME_OVERHEAD;
  checksum := drop (Z.to_nat (zlen frame - FRAME_CHECKSUM_BYTES)) frame;
  framed_len := zlen frame;
|}.

Lemma envelope_typed_session e : envelope_typed e = true → length (protected_session_id e) = 32%nat.
Proof. unfold envelope_typed. intros. bools. by apply is_array_spec. Qed.

Lemma appended_frame_inv h a frame :
  appended_typed h a = true → appended_frame a = Ok frame →
  ∃ payload, encode_spool_payload (a_envelope a) (a_lifecycle a) = Ok payload ∧
    encode_frame (a_sequence a) (a_queued_at a) (protected_session_id (a_envelope a)) payload = Ok frame ∧
    zlen frame = FRAME_OVERHEAD + zlen payload ∧ 0 < zlen payload <= MAX_HOOK_PAYLOAD_BYTES.
Proof.
  unfold appended_typed, appended_frame. intros Ht Hf. bools.
  destruct (encode_spool_payload _ _) as [payload|] eqn:E; [|done].
  exists payload. split_and!; try done.
  - eapply encode_frame_length; [|done]. by apply envelope_typed_session.
  - apply encode_frame_inv in Hf as (? & _). lia.
  - apply encode_frame_inv in Hf as (? & _). lia.
Qed.

Lemma decode_appended_frame h a frame off :
  appended_typed h a = true → appended_frame a = Ok frame →
  decode_complete_frame frame off h = Ok (record_of a frame).
Proof.
  intros Ht Hf. destruct (appended_frame_inv h a frame Ht Hf) as (payload & Hp & He & Hl & _).
  unfold appended_typed, within in Ht. bools.
  rewrite (decode_encode_frame (a_sequence a) (a_queued_at a) (protected_session_id (a_envelope a))
    payload frame off h (a_envelope a) (a_lifecycle a)); try done; try lia.
  - f_equal. unfold record_of. rewrite Hl.
    replace (FRAME_OVERHEAD + zlen payload - FRAME_CHECKSUM_BYTES) with (62 + zlen payload)
      by (unfold FRAME_OVERHEAD, FRAME_LENGTH_BYTES, FRAME_HEADER_BYTES, FRAME_CHECKSUM_BYTES; lia).
    apply encode_frame_inv in He as (_ & _ & ->).
    f_equal; [lia|]. replace (Z.to_nat (62 + zlen payload)) with (62 + length payload)%nat
      by (unfold zlen; lia).
    rewrite <- (frame_head_length (FRAME_HEADER_BYTES + zlen payload + FRAME_CHECKSUM_BYTES)
      (a_sequence a) (a_queued_at a) (protected_session_id (a_envelope a)) payload)
      by by apply envelope_typed_session.
    by rewrite drop_app_length.
  - by apply envelope_typed_session.
  - apply decode_encode_payload; try done. intros l' E. by rewrite E in *.
Qed.

End frame.
