(* ===== verification/SpoolScan.v ===== *)
(** * What the recovery scan finds

    The theorems about [spool/frame.rs]: a frame decodes to the record it was
    made from; the scan of the frames that appends wrote finds them all, also
    when the last append was torn; and on any file whatsoever the scan
    terminates and reports a prefix of complete, decodable, strictly ordered
    frames, with the rest of the file accounted for. *)
From stdpp Require Import base list numbers sorting sets strings.
From S2P Require Import Prelude RustText Bytes HookContract SpoolFrame.

#[local] Open Scope Z_scope.

Section scan.
Context `{Sha256} `{HookSpoolCodec}.

(** ** The specification of an append-only log *)

(** The records of a log with the bytes that were appended for each. *)
Definition log_bytes (l : list (Appended * bytes)) : bytes := concat (snd <$> l).

(** The index entries of a log whose first frame starts at [off]. *)
Fixpoint log_records (off : Z) (l : list (Appended * bytes)) : list PendingRecordV1 :=
  match l with
  | [] => []
  | (a, frame) :: l => from_record (record_of a frame) off :: log_records (off + zlen frame) l
  end.

(** Every entry is what an append of host [h] writes, in increasing sequence. *)
Definition log_entry_ok (h : NativeHostIdentityV1) (x : Appended * bytes) : Prop :=
  appended_typed h x.1 = true ∧ appended_frame x.1 = Ok x.2.

Definition log_ok (h : NativeHostIdentityV1) (l : list (Appended * bytes)) : Prop :=
  Forall (log_entry_ok h) l ∧ StronglySorted Z.lt ((λ x, a_sequence x.1) <$> l).

(** The entries of an index tile the file from [off] to [end_]: each one is
    the record of the frame at its offset. *)
Fixpoint tiles (h : NativeHostIdentityV1) (file : bytes) (off : Z) (recs : list PendingRecordV1)
    (end_ : Z) : Prop :=
  match recs with
  | [] => off = end_
  | r :: recs =>
    (∃ record, decode_complete_frame
       (slice (Z.to_nat off) (Z.to_nat (off + p_framed_len r)) file) off h = Ok record ∧
       r = from_record record off ∧ FRAME_OVERHEAD <= framed_len record) ∧
    tiles h file (off + p_framed_len r) recs end_
  end.

(** What stands at an offset: fewer than four bytes or less than the declared
    frame (a torn append), a length no frame has, or a whole frame. *)
Definition declared_at (file : bytes) (off : Z) : Z :=
  from_le_bytes (slice (Z.to_nat off) (Z.to_nat (off + 4)) file).

Definition frame_length (declared : Z) : Prop :=
  FRAME_OVERHEAD <= declared + 4 <= FRAME_OVERHEAD + MAX_HOOK_PAYLOAD_BYTES.

Definition torn_at (file : bytes) (off : Z) : Prop :=
  off < zlen file ∧
  (zlen file < off + 4 ∨ frame_length (declared_at file off) ∧ zlen file < off + 4 + declared_at file off).

Definition no_frame_length_at (file : bytes) (off : Z) : Prop :=
  off + 4 <= zlen file ∧ ¬ frame_length (declared_at file off).

Definition frame_at (file : bytes) (off : Z) (frame : bytes) : Prop :=
  frame_length (declared_at file off) ∧ off + 4 + declared_at file off <= zlen file ∧
  frame = slice (Z.to_nat off) (Z.to_nat (off + 4 + declared_at file off)) file.

(** A frame of another format: its magic or version is not the spool's, or
    its checksum holds and its payload is JSON of neither the payload's nor
    the current envelope's shape. *)
Definition format_ok (frame : bytes) : Prop :=
  slice 4 8 frame = SPOOL_MAGIC ∧ from_le_bytes (slice 8 10 frame) = SPOOL_FORMAT_VERSION.

Definition foreign_frame (frame : bytes) (reason : HookSpoolResetReasonV1) : Prop :=
  (¬ format_ok frame ∧
   reason = FrameFormat (slice 4 8 frame) (from_le_bytes (slice 8 10 frame)) SPOOL_MAGIC SPOOL_FORMAT_VERSION) ∨
  (format_ok frame ∧
   frame_checksum (take (Z.to_nat (zlen frame - 32)) frame) = drop (Z.to_nat (zlen frame - 32)) frame ∧
   ∃ value, from_slice (slice 62 (Z.to_nat (zlen frame - 32)) frame) = Some value ∧
     value_has (str "spool_payload_version") value = false ∧
     ((∃ found, value_u64 (str "schema_version") value = Some found ∧ found <= u16_max ∧
        found ≠ HOOK_EVENT_SCHEMA_VERSION ∧
        reason = EnvelopeVersion found HOOK_EVENT_SCHEMA_VERSION) ∨
      ((value_u64 (str "schema_version") value = Some HOOK_EVENT_SCHEMA_VERSION ∧ envelope_from_value value = None) ∨
       value_u64 (str "schema_version") value = None ∨
       ∃ found, value_u64 (str "schema_version") value = Some found ∧ u16_max < found) ∧
      reason = EnvelopeShape)).

(** A frame the log cannot continue with: it does not decode, its sequence
    does not increase, or the index is full. *)
Definition rejected_frame (config : HookSpoolConfigV1) (recs : list PendingRecordV1) (off : Z)
    (frame : bytes) : Prop :=
  match decode_complete_frame frame off (host config) with
  | Err error => error = Corrupted off
  | Ok record =>
    (∃ previous, last recs = Some previous ∧ sequence record <= p_sequence previous) ∨
    zlen recs = max_host_records (limits config)
  end.

(** The answer of a scan accounts for all of [file]: complete frames up to
    [end_], and there the end of the file, a torn append, bytes that cannot be
    the next frame, or a frame of another format, each answered as such. *)
Definition scan_accounts (config : HookSpoolConfigV1) (file : bytes)
    (answer : result ScanResult HookSpoolError) : Prop :=
  ∃ recs end_, 0 <= end_ <= zlen file ∧ tiles (host config) file 0 recs end_ ∧
    StronglySorted Z.lt (p_sequence <$> recs) ∧ zlen recs <= max_host_records (limits config) ∧
    match answer with
    | Ok sr =>
      scan_records_found sr = recs ∧ valid_end sr = end_ ∧ physical_len sr = zlen file ∧
      scanned_records sr = zlen recs ∧
      match corruption sr, partial_tail sr with
      | None, None => end_ = zlen file
      | None, Some tail => torn_at file end_ ∧ tail = drop (Z.to_nat end_) file
      | Some offset, None =>
        offset = end_ ∧ (no_frame_length_at file end_ ∨
                         ∃ frame, frame_at file end_ frame ∧ rejected_frame config recs end_ frame)
      | Some _, Some _ => False
      end
    | Err error =>
      ∃ frame reason, frame_at file end_ frame ∧ foreign_frame frame reason ∧ error = ResetRequired reason
    end.

(** ** Lemmas *)
Lemma frame_prefix_length_field h a frame k :
  appended_typed h a = true → appended_frame a = Ok frame → (4 <= k)%nat →
  from_le_bytes (take 4 (take k frame)) = zlen frame - 4 ∧
  FRAME_OVERHEAD < zlen frame <= FRAME_OVERHEAD + MAX_HOOK_PAYLOAD_BYTES.
Proof.
  intros Ht Hf Hk. destruct (appended_frame_inv h a frame Ht Hf) as (payload & _ & He & Hl & Hp).
  split; [|unfold FRAME_OVERHEAD in *; lia]. rewrite take_take. replace (4 `min` k)%nat with 4%nat by lia.
  apply encode_frame_inv in He as (_ & _ & Hfr).
  assert (take 4 frame = to_le_bytes 4 (FRAME_HEADER_BYTES + zlen payload + FRAME_CHECKSUM_BYTES)) as ->.
  { rewrite Hfr. unfold frame_head. rewrite <- !app_assoc. rewrite <- (to_le_bytes_length 4
      (FRAME_HEADER_BYTES + zlen payload + FRAME_CHECKSUM_BYTES)) at 1. by rewrite take_app_length. }
  unfold FRAME_OVERHEAD, FRAME_LENGTH_BYTES, FRAME_HEADER_BYTES, FRAME_CHECKSUM_BYTES,
    MAX_HOOK_PAYLOAD_BYTES in *.
  rewrite from_to_le_u32 by (unfold u32_max; lia). lia.
Qed.

(** One iteration of the loop over a frame that an append wrote. *)
Lemma scan_loop_decodes fuel config plen a frame rest off recs prev scanned :
  log_entry_ok (host config) (a, frame) → plen = off + zlen (frame ++ rest) → 0 <= off →
  scan_loop (S fuel) config plen (frame ++ rest) off recs prev scanned =
  if match prev with Some previous => a_sequence a <=? previous | None => false end
     || (zlen recs >=? max_host_records (limits config))
  then Ok (corrupt_scan recs off plen scanned)
  else match checked_add u32_max scanned 1 with
       | None => Err MetadataCorrupted
       | Some scanned' =>
         scan_loop fuel config plen rest (sat_add u64_max off (zlen frame))
           (recs ++ [from_record (record_of a frame) off]) (Some (a_sequence a)) scanned'
       end.
Proof.
  intros [Ht Hf] Hplen Hoff. simpl in Ht, Hf.
  destruct (frame_prefix_length_field _ _ _ (length frame) Ht Hf) as [Hd Hl].
  { destruct (appended_frame_inv _ _ _ Ht Hf) as (p & _ & _ & Hl & Hp).
    unfold FRAME_OVERHEAD, FRAME_LENGTH_BYTES, FRAME_HEADER_BYTES, FRAME_CHECKSUM_BYTES, zlen in *. lia. }
  rewrite firstn_all in Hd.
  assert (zlen (frame ++ rest) = zlen frame + zlen rest) as Happ by apply zlen_app.
  pose proof (zlen_nonneg rest) as Hr.
  unfold FRAME_OVERHEAD, FRAME_LENGTH_BYTES, FRAME_HEADER_BYTES, FRAME_CHECKSUM_BYTES,
    MAX_HOOK_PAYLOAD_BYTES in Hl.
  cbn [scan_loop].
  assert (take 4 (frame ++ rest) = take 4 frame) as ->.
  { apply take_prefix_enough. unfold zlen in Hl. lia. }
  rewrite Hd. unfold FRAME_LENGTH_BYTES, FRAME_HEADER_BYTES, FRAME_CHECKSUM_BYTES,
    MAX_HOOK_PAYLOAD_BYTES.
  replace (4 + (zlen frame - 4)) with (zlen frame) by lia.
  replace (Z.to_nat (zlen frame)) with (length frame) by (unfold zlen; lia).
  rewrite take_app_length, drop_app_length, (decode_appended_frame (host config) a) by done.
  destruct (Z.ltb_spec off plen); [|lia]. destruct (Z.ltb_spec (plen - off) 4); [lia|].
  destruct (Z.ltb_spec (zlen frame - 4) (4 + 2 + 8 + 8 + 32 + 4 + 32)); [lia|].
  rewrite !Z.gtb_ltb. destruct (Z.ltb_spec (4 + 2 + 8 + 8 + 32 + 4 + 32 + 16 * 1024) (zlen frame - 4)); [lia|].
  destruct (Z.ltb_spec (plen - off) (zlen frame)); [lia|]. done.
Qed.

Lemma scan_loop_frame fuel config plen a frame rest off recs prev scanned :
  log_entry_ok (host config) (a, frame) →
  plen = off + zlen (frame ++ rest) → 0 <= off → plen <= u32_max →
  (∀ p, prev = Some p → p < a_sequence a) →
  zlen recs < max_host_records (limits config) → 0 <= scanned < u32_max →
  scan_loop (S fuel) config plen (frame ++ rest) off recs prev scanned =
  scan_loop fuel config plen rest (off + zlen frame)
    (recs ++ [from_record (record_of a frame) off]) (Some (a_sequence a)) (scanned + 1).
Proof.
  intros Ha Hplen Hoff Hu Hprev Hrecs Hsc. rewrite (scan_loop_decodes _ _ _ a) by done.
  assert (match prev with Some p => a_sequence a <=? p | None => false end = false) as ->.
  { destruct prev as [p|]; [|done]. specialize (Hprev p eq_refl). simpl. apply Z.leb_gt. lia. }
  rewrite Z.geb_leb. destruct (Z.leb_spec (max_host_records (limits config)) (zlen recs)); [lia|].
  simpl orb. cbv iota. unfold checked_add. rewrite bool_decide_eq_true_2 by lia.
  f_equal. rewrite zlen_app in Hplen. pose proof (zlen_nonneg rest). pose proof (zlen_nonneg frame).
  unfold sat_add. unfold u64_max, u32_max in *. lia.
Qed.

Lemma log_bytes_cons a frame l : log_bytes ((a, frame) :: l) = frame ++ log_bytes l.
Proof. done. Qed.

(** The loop runs over a whole log. *)
Lemma scan_loop_log l fuel config plen rest off recs prev scanned :
  log_ok (host config) l →
  plen = off + zlen (log_bytes l ++ rest) → 0 <= off → plen <= u32_max →
  (∀ p x, prev = Some p → x ∈ l → p < a_sequence x.1) →
  zlen recs + zlen l <= max_host_records (limits config) → 0 <= scanned →
  scanned + zlen l <= u32_max →
  scan_loop (length l + fuel) config plen (log_bytes l ++ rest) off recs prev scanned =
  scan_loop fuel config plen rest (off + zlen (log_bytes l)) (recs ++ log_records off l)
    (from_option (λ x, Some (a_sequence x.1)) prev (last l)) (scanned + zlen l).
Proof.
  revert off recs prev scanned.
  induction l as [|[a frame] l IH]; intros off recs prev scanned [Hok Hs] Hplen Hoff Hu Hprev Hrecs Hsc Hu2.
  { simpl. rewrite app_nil_r. f_equal; unfold zlen; simpl; lia. }
  apply Forall_cons in Hok as [Ha Hok]. apply StronglySorted_inv in Hs as [Hs Hlt].
  rewrite log_bytes_cons, <- app_assoc in *. rewrite zlen_cons in *. cbn [length log_records Nat.add].
  pose proof (zlen_nonneg l). pose proof (zlen_nonneg frame).
  rewrite (scan_loop_frame _ config plen a); try done; try lia.
  2:{ intros p Hp. apply (Hprev p (a, frame)); [done|set_solver]. }
  rewrite IH; try done; try lia.
  - rewrite zlen_app, <- app_assoc. simpl app. f_equal; [lia| |lia].
    destruct l as [|y l]; [done|]. rewrite last_cons_cons.
    destruct (last (y :: l)) eqn:E; [done|]. by apply last_None in E.
  - rewrite zlen_app in Hplen. lia.
  - intros p x [= <-] Hx. rewrite Forall_forall in Hlt. apply Hlt.
    apply list_elem_of_fmap. eauto.
  - rewrite zlen_app. unfold zlen at 2. simpl. lia.
Qed.

Lemma log_frames_nonempty h l : Forall (log_entry_ok h) l → (length l <= length (log_bytes l))%nat.
Proof.
  induction 1 as [|[a frame] l [Ht Hf] _ IH]; [done|].
  rewrite log_bytes_cons, length_app. cbn [length fst snd] in *. destruct (appended_frame_inv _ _ _ Ht Hf) as (p & _ & _ & Hl & Hp).
  unfold FRAME_OVERHEAD, FRAME_LENGTH_BYTES, FRAME_HEADER_BYTES, FRAME_CHECKSUM_BYTES, zlen in *.
  lia.
Qed.

(** The scan of a log followed by anything is the loop at what follows. *)
Lemma scan_records_log config l rest :
  log_ok (host config) l → zlen (log_bytes l ++ rest) <= max_host_bytes (limits config) →
  max_host_bytes (limits config) <= u32_max → zlen l <= max_host_records (limits config) →
  max_host_records (limits config) <= u32_max →
  ∃ fuel, scan_records (Some (log_bytes l ++ rest)) config =
    scan_loop (S fuel) config (zlen (log_bytes l ++ rest)) rest (zlen (log_bytes l))
      (log_records 0 l) ((λ x, a_sequence x.1) <$> last l) (zlen l).
Proof.
  intros Hok Hb Hb' Hn Hn'. exists (length (log_bytes l ++ rest) - length l)%nat.
  unfold scan_records, scan_records_from. rewrite drop_0.
  rewrite Z.gtb_ltb, (proj2 (Z.ltb_ge _ _)) by done.
  rewrite Z.gtb_ltb, (proj2 (Z.ltb_ge _ _)) by apply zlen_nonneg.
  pose proof (log_frames_nonempty _ _ (proj1 Hok)). pose proof (zlen_nonneg l).
  replace (S (length (log_bytes l ++ rest))) with
    (length l + S (length (log_bytes l ++ rest) - length l))%nat by (rewrite length_app; lia).
  rewrite scan_loop_log; try done; try lia.
Qed.

(** The bounds of a validated configuration. *)
Lemma config_validate_bounds config :
  config_validate config = Ok tt →
  max_host_bytes (limits config) <= MAX_SPOOL_BYTES_PER_HOST ∧
  max_host_records (limits config) <= MAX_SPOOL_RECORDS_PER_HOST ∧
  max_session_records (limits config) <= max_host_records (limits config) ∧
  max_session_bytes (limits config) <= max_host_bytes (limits config) ∧
  0 < writer_lease_micros config.
Proof.
  unfold config_validate, limits_validate. intros Hv. repeat case_step_in Hv; try done.
  bools. rewrite !Z.gtb_ltb, !Z.ltb_ge in *. lia.
Qed.

(** A frame behind as many frames as the record limit is reported corrupt. *)
Lemma scan_full_log config l a frame rest :
  config_validate config = Ok tt → log_ok (host config) l → log_entry_ok (host config) (a, frame) →
  zlen (log_bytes l ++ frame ++ rest) <= max_host_bytes (limits config) →
  zlen l = max_host_records (limits config) →
  scan_records (Some (log_bytes l ++ frame ++ rest)) config =
    Ok (corrupt_scan (log_records 0 l) (zlen (log_bytes l)) (zlen (log_bytes l ++ frame ++ rest)) (zlen l)).
Proof.
  intros Hc Hok Ha Hb Hn. apply config_validate_bounds in Hc as (B1 & B2 & _).
  unfold MAX_SPOOL_BYTES_PER_HOST, MAX_SPOOL_RECORDS_PER_HOST in *.
  destruct (scan_records_log config l (frame ++ rest)) as [fuel ->]; unfold u32_max; try done; try lia.
  rewrite (scan_loop_decodes _ _ _ a); [|done|apply zlen_app|apply zlen_nonneg].
  assert (zlen (log_records 0 l) = zlen l) as ->.
  { clear. unfold zlen. f_equal. generalize 0. induction l as [|[a f] l IH]; intros off; [done|]. simpl. by rewrite IH. }
  rewrite Z.geb_leb, (proj2 (Z.leb_le _ _)) by lia. by rewrite orb_true_r.
Qed.

(** The tail a torn append leaves stops the loop as a partial tail. *)
Lemma scan_loop_torn fuel config plen a frame k off recs prev scanned :
  log_entry_ok (host config) (a, frame) → (0 < k < length frame)%nat →
  plen = off + zlen (take k frame) →
  scan_loop (S fuel) config plen (take k frame) off recs prev scanned =
  partial_scan recs off plen scanned (take k frame).
Proof.
  intros [Ht Hf] Hk Hplen. simpl in Ht, Hf.
  assert (zlen (take k frame) = Z.of_nat k) as Hlen by (unfold zlen; rewrite length_take; lia).
  cbn [scan_loop]. destruct (Z.ltb_spec off plen); [|lia]. simpl negb. cbv iota.
  unfold FRAME_LENGTH_BYTES at 1. destruct (Z.ltb_spec (plen - off) 4); [done|].
  destruct (frame_prefix_length_field _ _ _ k Ht Hf ltac:(lia)) as [-> Hb].
  assert (Z.of_nat k < zlen frame) by (unfold zlen; lia).
  unfold FRAME_OVERHEAD, FRAME_LENGTH_BYTES, FRAME_HEADER_BYTES, FRAME_CHECKSUM_BYTES,
    MAX_HOOK_PAYLOAD_BYTES in *.
  destruct (Z.ltb_spec (zlen frame - 4) (4 + 2 + 8 + 8 + 32 + 4 + 32)); [lia|].
  rewrite !Z.gtb_ltb.
  destruct (Z.ltb_spec (4 + 2 + 8 + 8 + 32 + 4 + 32 + 16 * 1024) (zlen frame - 4)); [lia|].
  destruct (Z.ltb_spec (plen - off) (4 + (zlen frame - 4))); [done|lia].
Qed.

Lemma decode_framed_len frame off h record :
  decode_complete_frame frame off h = Ok record → framed_len record = zlen frame.
Proof.
  unfold decode_complete_frame. cbv zeta. intros Hd.
  repeat case_step_in Hd; try done. by injection Hd as <-.
Qed.

(** The errors of a payload: corruption at its frame's offset, or JSON of
    another shape. *)
Lemma decode_payload_errors payload off error :
  decode_spool_payload payload off = Err error →
  error = Corrupted off ∨
  ∃ reason value, error = ResetRequired reason ∧ from_slice payload = Some value ∧
    value_has (str "spool_payload_version") value = false ∧
    ((∃ found, value_u64 (str "schema_version") value = Some found ∧ found <= u16_max ∧
        found ≠ HOOK_EVENT_SCHEMA_VERSION ∧
       reason = EnvelopeVersion found HOOK_EVENT_SCHEMA_VERSION) ∨
     ((value_u64 (str "schema_version") value = Some HOOK_EVENT_SCHEMA_VERSION ∧ envelope_from_value value = None) ∨
       value_u64 (str "schema_version") value = None ∨
      ∃ found, value_u64 (str "schema_version") value = Some found ∧ u16_max < found) ∧
     reason = EnvelopeShape).
Proof.
  unfold decode_spool_payload, decode_exact_envelope. intros Hd.
  destruct (from_slice payload) as [v|]; [|injection Hd as <-; by left].
  destruct (value_has _ v) eqn:Ev; simpl in Hd; [left; repeat case_step_in Hd; by simplify_eq|].
  right. destruct (value_u64 _ v) as [found|] eqn:Eu;
    [|injection Hd as <-; eexists _, v; split_and!; eauto].
  rewrite Z.gtb_ltb in Hd. destruct (Z.ltb_spec u16_max found) as [Hbig|Hsmall];
    [injection Hd as <-; eexists _, v; split_and!; eauto 7|].
  destruct (Z.eqb_spec found HOOK_EVENT_SCHEMA_VERSION) as [->|Hne]; simpl in Hd;
    [|injection Hd as <-; eexists _, v; split_and!; eauto 7].
  destruct (envelope_from_value v) eqn:Ee; [done|]. injection Hd as <-. eexists _, v. split_and!; eauto.
Qed.

(** The errors of a frame: corruption at its offset, or a format to reset. *)
Lemma decode_frame_errors frame off h error :
  zlen frame <= u32_max → decode_complete_frame frame off h = Err error →
  error = Corrupted off ∨ ∃ reason, error = ResetRequired reason ∧ foreign_frame frame reason.
Proof.
  unfold decode_complete_frame, foreign_frame, format_ok. cbv zeta. intros Hu Hd.
  case_step_in Hd; [injection Hd as <-; by left|]. case_step_in Hd; [injection Hd as <-; by left|].
  case_step_in Hd.
  { injection Hd as <-. right. eexists. split; [done|]. left. split; [|done]. intros [Hm Hv].
    rewrite Hm, Hv, bool_decide_eq_true_2, Z.eqb_refl in * by done. done. }
  case_step_in Hd; [injection Hd as <-; by left|]. case_step_in Hd; [injection Hd as <-; by left|].
  destruct (decode_spool_payload _ off) as [d|e] eqn:E.
  - repeat case_step_in Hd; try done; [injection Hd as <-; by left|].
    rewrite Z.gtb_ltb, Z.ltb_lt in *. lia.
  - injection Hd as <-. apply decode_payload_errors in E as [->|(reason & v & -> & E)]; [by left|right].
    exists reason. split; [done|]. right. bools. rewrite ?Z.eqb_eq in *.
    split_and!; [done..|]. by exists v.
Qed.

Lemma tiles_snoc h file off recs end_ r record :
  tiles h file off recs end_ →
  decode_complete_frame (slice (Z.to_nat end_) (Z.to_nat (end_ + p_framed_len r)) file) end_ h = Ok record →
  r = from_record record end_ → FRAME_OVERHEAD <= framed_len record →
  tiles h file off (recs ++ [r]) (end_ + p_framed_len r).
Proof.
  revert off. induction recs as [|x recs IH]; intros off; simpl.
  - intros ->. eauto.
  - intros (Hx & Ht) ???. split; [done|]. by apply IH.
Qed.

(** The invariant of the loop: what has been scanned tiles the file up to the
    offset, and the fuel exceeds what is left. *)
Lemma scan_loop_accounts fuel config file rest off recs prev scanned :
  zlen file <= u32_max → max_host_records (limits config) <= u32_max →
  rest = drop (Z.to_nat off) file → 0 <= off <= zlen file → (length rest < fuel)%nat →
  tiles (host config) file 0 recs off → StronglySorted Z.lt (p_sequence <$> recs) →
  prev = (p_sequence <$> last recs) → zlen recs <= max_host_records (limits config) →
  scanned = zlen recs →
  scan_accounts config file (scan_loop fuel config (zlen file) rest off recs prev scanned).
Proof.
  intros Hu Hmu. revert rest off recs prev scanned.
  induction fuel as [|fuel IH]; intros rest off recs prev scanned Hrest Hoff Hfuel Htiles Hsort
    Hprev Hmax Hsc; [lia|].
  assert (zlen rest = zlen file - off) as Hrl.
  { rewrite Hrest. unfold zlen in *. rewrite length_drop. lia. }
  cbn [scan_loop]. destruct (Z.ltb_spec off (zlen file)) as [Hlt|]; simpl negb; cbv iota.
  2:{ exists recs, off. split_and!; try done; simpl; lia. }
  assert (Hpart : torn_at file off →
    scan_accounts config file (partial_scan recs off (zlen file) scanned rest)).
  { intros Ht. exists recs, off. split_and!; simpl; try done; lia. }
  assert (Hcorr : no_frame_length_at file off ∨
      (∃ frame, frame_at file off frame ∧ rejected_frame config recs off frame) →
    scan_accounts config file (Ok (corrupt_scan recs off (zlen file) scanned))).
  { intros Hc. exists recs, off. split_and!; simpl; try done; lia. }
  unfold torn_at, no_frame_length_at in Hpart, Hcorr.
  assert (Hdecl : from_le_bytes (take 4 rest) = declared_at file off).
  { unfold declared_at, slice. rewrite Hrest. do 2 f_equal. lia. }
  rewrite Hdecl. set (declared := declared_at file off) in *.
  unfold frame_length, FRAME_OVERHEAD, FRAME_LENGTH_BYTES, FRAME_HEADER_BYTES, FRAME_CHECKSUM_BYTES in *.
  destruct (Z.ltb_spec (zlen file - off) 4); [apply Hpart; lia|].
  rewrite !Z.gtb_ltb. case_step; [apply Hcorr; left|].
  { rewrite orb_true_iff, !Z.ltb_lt in *. lia. }
  rewrite orb_false_iff, !Z.ltb_ge in *.
  destruct (Z.ltb_spec (zlen file - off) (4 + declared)); [apply Hpart; lia|].
  assert (Hframe : take (Z.to_nat (4 + declared)) rest =
    slice (Z.to_nat off) (Z.to_nat (off + 4 + declared)) file).
  { rewrite Hrest. unfold slice. f_equal. lia. }
  assert (zlen (take (Z.to_nat (4 + declared)) rest) = 4 + declared) as Htl
    by (unfold zlen in *; rewrite length_take; lia).
  rewrite Hframe in *. set (frame := slice _ _ _) in *.
  assert (Hat : frame_at file off frame)
    by (split_and!; unfold frame_length, FRAME_OVERHEAD, FRAME_LENGTH_BYTES, FRAME_HEADER_BYTES, FRAME_CHECKSUM_BYTES; fold declared; try done; lia).
  assert (Hrej := λ R, Hcorr (or_intror (ex_intro _ frame (conj Hat R)))). unfold rejected_frame in Hrej.
  destruct (decode_complete_frame frame off _) as [record|error] eqn:Hd.
  2:{ apply decode_frame_errors in Hd as [->|(reason & -> & Hf)]; [by apply Hrej| |unfold u32_max in *; lia].
      exists recs, off. split_and!; try done; try lia. by exists frame, reason. }
  case_step; [apply Hrej|].
  { rewrite Z.geb_leb in *. destruct (Z.leb_spec (max_host_records (limits config)) (zlen recs)); [right; lia|left].
    subst prev. destruct (last recs) as [previous|]; simpl in *; [|done]. exists previous.
    rewrite orb_false_r, Z.leb_le in *. done. }
  bools. pose proof (decode_framed_len _ _ _ _ Hd) as Hfl. rewrite Htl in Hfl.
  assert (zlen recs < max_host_records (limits config)) by (rewrite Z.geb_leb, Z.leb_gt in *; lia).
  unfold checked_add. rewrite bool_decide_eq_true_2 by lia.
  assert (sat_add u64_max off (framed_len record) = off + framed_len record) as ->.
  { unfold sat_add, u32_max, u64_max in *. lia. }
  apply IH.
  - rewrite Hrest, drop_drop, Hfl. f_equal. lia.
  - lia.
  - rewrite length_drop. unfold zlen in *. lia.
  - apply (tiles_snoc _ _ _ _ _ (from_record record off) record); try done.
    + simpl. rewrite Hfl, <- Hd. unfold frame. do 2 f_equal. lia.
    + rewrite Hfl. unfold FRAME_OVERHEAD, FRAME_LENGTH_BYTES, FRAME_HEADER_BYTES,
        FRAME_CHECKSUM_BYTES. lia.
  - rewrite fmap_app. apply increasing_snoc; [done|]. simpl. intros z Hz.
    rewrite fmap_last, <- Hprev in Hz. subst prev. rewrite Hz in *. lia.
  - by rewrite last_snoc.
  - rewrite zlen_app. unfold zlen in *. simpl. lia.
  - rewrite zlen_app. unfold zlen in *. simpl. lia.
Qed.

(** ** Theorems *)

(** The frame of an append decodes to the record that was appended, at
    any offset and with its checksum verified; the frame is the payload and 94
    bytes, at most 16 KiB of payload; and the index entry made from the record
    gives the record back and matches it. *)
Theorem append_frame_round_trip h a frame off :
  appended_typed h a = true → appended_frame a = Ok frame →
  let record := record_of a frame in
  decode_complete_frame frame off h = Ok record ∧
  94 < zlen frame <= 94 + 16384 ∧
  to_record (from_record record off) = Some record ∧
  matches_record (from_record record off) record = true.
Proof.
  intros Ht Hf record. destruct (appended_frame_inv h a frame Ht Hf) as (p & _ & _ & Hl & Hp).
  assert (FRAME_OVERHEAD = 94) as Ho by done. unfold MAX_HOOK_PAYLOAD_BYTES in Hp.
  split_and!; [by apply decode_appended_frame|lia|lia|..].
  - unfold to_record. simpl. destruct (Z.ltb_spec (zlen frame) FRAME_OVERHEAD); [lia|done].
  - unfold matches_record. simpl. rewrite !Z.eqb_refl, !bool_decide_eq_true_2 by done. done.
Qed.

(** Crash recovery of the append-only file. After any number of complete
    appends and one that stopped after [k] bytes of its frame, the scan finds
    exactly the completed records at their offsets, reports the torn bytes as
    a partial tail and no corruption; and the file truncated to the valid end,
    as recovery truncates it, scans to the same records with nothing left. *)
Theorem scan_recovers_torn_append config l a frame k :
  config_validate config = Ok tt → log_ok (host config) l →
  log_entry_ok (host config) (a, frame) → (k < length frame)%nat →
  zlen (log_bytes l ++ take k frame) <= max_host_bytes (limits config) →
  zlen l <= max_host_records (limits config) →
  let file := log_bytes l ++ take k frame in
  let clean := {| scan_records_found := log_records 0 l; valid_end := zlen (log_bytes l);
                  physical_len := zlen (log_bytes l); scanned_records := zlen l;
                  partial_tail := None; corruption := None |} in
  scan_records (Some file) config = Ok {|
    scan_records_found := log_records 0 l; valid_end := zlen (log_bytes l);
    physical_len := zlen file; scanned_records := zlen l;
    partial_tail := if (k =? 0)%nat then None else Some (take k frame); corruption := None |} ∧
  scan_records (Some (take (length (log_bytes l)) file)) config = Ok clean.
Proof.
  intros Hc Hok Ha Hk Hb Hn file clean. apply config_validate_bounds in Hc as (B1 & B2 & _).
  unfold MAX_SPOOL_BYTES_PER_HOST, MAX_SPOOL_RECORDS_PER_HOST in *.
  assert (Hclean : scan_records (Some (log_bytes l)) config = Ok clean).
  { destruct (scan_records_log config l []) as [fuel E]; rewrite ?app_nil_r in *; unfold u32_max;
      try done; try lia; [rewrite zlen_app in Hb; pose proof (zlen_nonneg (take k frame)); lia|].
    rewrite E. cbn [scan_loop]. rewrite (proj2 (Z.ltb_ge _ _)) by lia. done. }
  split; [|subst file; by rewrite take_app_length].
  destruct (decide (k = 0%nat)) as [->|Hk0].
  { subst file. rewrite take_0, app_nil_r. exact Hclean. }
  subst file. destruct (scan_records_log config l (take k frame)) as [fuel ->]; unfold u32_max; try done; try lia.
  rewrite (scan_loop_torn _ config _ a frame k); [|done|lia|apply zlen_app].
  unfold partial_scan. by destruct (Nat.eqb_spec k 0).
Qed.

(** C29. On any bytes whatsoever within the host limit the scan terminates and
    its answer accounts for the whole file. The entries are the decoded frames
    that tile a prefix in strictly increasing sequence, never more than the
    host's record limit. What stands at the end of the prefix decides the
    answer: nothing there is a clean result; less than a length field or less
    than the declared frame is a torn tail, kept byte for byte; a length no
    frame has, or a whole frame that does not decode, repeats a sequence or
    exceeds the record limit, is reported corrupt at exactly that offset; and
    a reset is requested only for a whole frame at that offset of another
    magic or version, or with a verified checksum over JSON of another shape,
    with the reason that says which. *)
Theorem scan_accounts_for_every_byte config file :
  config_validate config = Ok tt → zlen file <= max_host_bytes (limits config) →
  0 <= max_host_records (limits config) →
  scan_accounts config file (scan_records (Some file) config).
Proof.
  intros Hc Hb Hn. apply config_validate_bounds in Hc as (B1 & B2 & _).
  unfold MAX_SPOOL_BYTES_PER_HOST, MAX_SPOOL_RECORDS_PER_HOST in *.
  unfold scan_records, scan_records_from. pose proof (zlen_nonneg file).
  rewrite !Z.gtb_ltb, !(proj2 (Z.ltb_ge _ _)) by lia. rewrite drop_0.
  apply scan_loop_accounts; unfold u32_max; simpl; try done; try lia. constructor.
Qed.

End scan.

(** ** Evaluation *)

(** A codec of a table of payloads: a payload is its index. *)
Definition table_from_slice (n : nat) (b : bytes) : option nat :=
  match b with
  | [i] => if (Z.to_nat i <? n)%nat then Some (Z.to_nat i) else None
  | _ => None
  end.

Definition table_json_bytes (ps : list HookSpoolPayloadV1) (p : HookSpoolPayloadV1) : option bytes :=
  match list_find (p =.) ps with
  | Some (i, _) => if (i <? 256)%nat then Some [Z.of_nat i] else None
  | None => None
  end.

Definition table_codec (ps : list HookSpoolPayloadV1) : HookSpoolCodec.
Proof.
  refine {| Value := nat; from_slice := table_from_slice (length ps); value_has := λ _ _, true;
            value_u64 := λ _ _, None; payload_from_value := λ i, ps !! i;
            envelope_from_value := λ _, None; payload_json_bytes := table_json_bytes ps |}.
  - unfold table_json_bytes. intros p b. destruct (list_find _ ps) as [[i q]|]; [|done].
    destruct (Nat.ltb_spec i 256); [|done]. intros [= <-]. unfold is_byte, within. simpl. lia.
  - unfold table_json_bytes, table_from_slice. intros p b _.
    destruct (list_find _ ps) as [[i q]|] eqn:E; [|done].
    destruct (Nat.ltb_spec i 256); [|done]. intros [= <-].
    apply list_find_Some in E as (Hi & -> & _). exists i. rewrite Nat2Z.id.
    apply lookup_lt_Some in Hi as Hlt. split_and!; [|done|done].
    by destruct (Nat.ltb_spec i (length ps)); [|lia].
Defined.

Definition sample_envelope (id session : Z) (e : HookEventV2) : HookEventEnvelopeV2 := {|
  schema_version := 2; event_id := repeat id 16; producer := Codex;
  protected_session_id := repeat session 32; project_id := repeat 1 16;
  repository_id := repeat 2 16; worktree_id := repeat 3 16; worktree_epoch := 4;
  binding_token := repeat 5 32; ordering := UnknownOrdering; observed_at := 77; event := e;
|}.

Definition sample_append (n : Z) : Appended := {|
  a_sequence := n; a_queued_at := 1000 + n;
  a_envelope := sample_envelope n (n + 100) (SessionBoundary BoundaryStart); a_lifecycle := None;
|}.

Definition sample_codec : HookSpoolCodec :=
  table_codec ((λ n, {| spool_payload_version := 1; payload_envelope := a_envelope (sample_append n);
                        payload_lifecycle := None |}) <$> [1; 2; 3]).

Definition sample_frame (n : Z) : bytes :=
  match @appended_frame mixing_sha256 sample_codec (sample_append n) with Ok f => f | Err _ => [] end.

Definition sample_log : list (Appended * bytes) :=
  (λ n, (sample_append n, sample_frame n)) <$> [1; 2].

Lemma append_frame_round_trip_witness :
  @decode_complete_frame mixing_sha256 sample_codec (sample_frame 1) 40 Codex =
    Ok (record_of (sample_append 1) (sample_frame 1)) ∧ zlen (sample_frame 1) = 95.
Proof.
  split; [|vm_compute; reflexivity].
  refine (proj1 (@append_frame_round_trip mixing_sha256 sample_codec Codex (sample_append 1)
    (sample_frame 1) 40 _ _)); vm_compute; reflexivity.
Defined.

Lemma scan_recovers_torn_append_witness :
  @scan_records mixing_sha256 sample_codec
    (Some (log_bytes sample_log ++ take 50 (sample_frame 3))) (config_stock Codex) = Ok {|
    scan_records_found := log_records 0 sample_log; valid_end := 190; physical_len := 240;
    scanned_records := 2; partial_tail := Some (take 50 (sample_frame 3)); corruption := None |}.
Proof.
  refine (proj1 (@scan_recovers_torn_append mixing_sha256 sample_codec (config_stock Codex)
    sample_log (sample_append 3) (sample_frame 3) 50 _ _ _ _ _ _)).
  - reflexivity.
  - split; [|repeat constructor]. repeat constructor.
  - split; vm_compute; reflexivity.
  - apply Nat.ltb_lt. vm_compute. reflexivity.
  - vm_compute. discriminate.
  - vm_compute. discriminate.
Defined.

(** Two appended frames and then a frame of another format version. *)
Definition sample_foreign_file : bytes :=
  log_bytes sample_log ++ take 8 (sample_frame 3) ++ [9] ++ drop 9 (sample_frame 3).

Lemma scan_accounts_for_every_byte_witness :
  @scan_records mixing_sha256 sample_codec (Some sample_foreign_file) (config_stock Codex) =
    Err (ResetRequired (FrameFormat SPOOL_MAGIC 9 SPOOL_MAGIC SPOOL_FORMAT_VERSION)) ∧
  @scan_accounts mixing_sha256 sample_codec (config_stock Codex) sample_foreign_file
    (@scan_records mixing_sha256 sample_codec (Some sample_foreign_file) (config_stock Codex)).
Proof.
  split; [vm_compute; reflexivity|].
  refine (@scan_accounts_for_every_byte mixing_sha256 sample_codec (config_stock Codex)
    sample_foreign_file _ _ _); vm_compute; first [reflexivity | discriminate].
Defined.
