(* ===== verification/SpoolMeta.v ===== *)
(** * The spool's acknowledgement metadata

    [tracedecay-hooks/src/spool/meta.rs], the metadata types of
    [spool/types.rs] and the parts of [spool/mod.rs] that settle
    acknowledgements: which sequences are acknowledged, how the contiguous
    frontier [committed_through] advances over out-of-order acknowledgements,
    how the next sequence is recovered from the records file, and the check of
    the metadata against that file.

    The abstract view of the metadata is the predicate [settled]: the
    sequences that will never be replayed again. *)
From stdpp Require Import base list numbers sets sorting strings.
From S2P Require Import Prelude RustText Bytes OrdMap HookContract SpoolFrame.

#[local] Open Scope Z_scope.
#[local] Open Scope rust_scope.

(** ** Data *)
Inductive HookSpoolAckDispositionV1 : Type := Committed | TerminalTombstone.

#[export] Instance HookSpoolAckDispositionV1_eq_dec : EqDecision HookSpoolAckDispositionV1.
Proof. solve_decision. Defined.

Record AcknowledgedSequenceV1 : Type := {
  k_sequence : Z;
  k_receipt_id : bytes;
  k_disposition : HookSpoolAckDispositionV1;
}.

#[export] Instance AcknowledgedSequenceV1_eq_dec : EqDecision AcknowledgedSequenceV1.
Proof. solve_decision. Defined.

(** [HookSpoolAckV1] has the same three fields. *)
Record HookSpoolAckV1 : Type := {
  ack_sequence : Z;
  ack_receipt_id : bytes;
  ack_disposition : HookSpoolAckDispositionV1;
}.

Inductive SpoolIntegrityV1 : Type :=
  | Healthy
  | CorruptedAt (at_offset : Z).

#[export] Instance SpoolIntegrityV1_eq_dec : EqDecision SpoolIntegrityV1.
Proof. solve_decision. Defined.

Record HookSpoolMetaV1 : Type := {
  version : Z;
  committed_through : Z;
  next_sequence : Z;
  acknowledged : list AcknowledgedSequenceV1;
  integrity : SpoolIntegrityV1;
  retired_append_intent : option unit;
}.

Definition fresh : HookSpoolMetaV1 := {|
  version := SPOOL_META_VERSION;
  committed_through := 0;
  next_sequence := 1;
  acknowledged := [];
  integrity := Healthy;
  retired_append_intent := None;
|}.

Definition with_next_sequence (meta : HookSpoolMetaV1) (n : Z) : HookSpoolMetaV1 := {|
  version := version meta; committed_through := committed_through meta; next_sequence := n;
  acknowledged := acknowledged meta; integrity := integrity meta;
  retired_append_intent := retired_append_intent meta;
|}.

Definition with_acknowledged (meta : HookSpoolMetaV1) (c : Z) (acks : list AcknowledgedSequenceV1) :
    HookSpoolMetaV1 := {|
  version := version meta; committed_through := c; next_sequence := next_sequence meta;
  acknowledged := acks; integrity := integrity meta;
  retired_append_intent := retired_append_intent meta;
|}.

(** ** meta.rs *)
Fixpoint acknowledged_loop (committed next : Z) (entries : list AcknowledgedSequenceV1)
    (map : list (Z * AcknowledgedSequenceV1)) :
    result (list (Z * AcknowledgedSequenceV1)) HookSpoolError :=
  match entries with
  | [] => Ok map
  | entry :: entries =>
    if (k_sequence entry <=? committed) || (k_sequence entry >=? next)
       || bool_decide (k_receipt_id entry = zeros 16)
       || match map_get (k_sequence entry) map with Some _ => true | None => false end
    then Err MetadataCorrupted
    else acknowledged_loop committed next entries (map_insert (k_sequence entry) entry map)
  end.

Definition acknowledged_map (meta : HookSpoolMetaV1) :
    result (list (Z * AcknowledgedSequenceV1)) HookSpoolError :=
  acknowledged_loop (committed_through meta) (next_sequence meta) (acknowledged meta) [].

(** The [while let] loop of [normalize_acknowledgements]; each iteration that
    continues removes an entry, so the size of the map bounds it. *)
Fixpoint settle_loop (fuel : nat) (committed : Z) (map : list (Z * AcknowledgedSequenceV1)) :
    Z * list (Z * AcknowledgedSequenceV1) :=
  match fuel with
  | O => (committed, map)
  | S fuel =>
    match checked_add u64_max committed 1 with
    | None => (committed, map)
    | Some next =>
      match map_get next map with
      | Some _ => settle_loop fuel next (map_remove next map)
      | None => (committed, map)
      end
    end
  end.

Definition normalize_acknowledgements (meta : HookSpoolMetaV1) :
    result HookSpoolMetaV1 HookSpoolError :=
  let? map := acknowledged_map meta in
  let settled := settle_loop (S (length map)) (committed_through meta) map in
  Ok (with_acknowledged meta (fst settled) ((snd settled).*2)).

Fixpoint advance_loop (first_unrecorded next : Z) (records : list PendingRecordV1) :
    result Z HookSpoolError :=
  match records with
  | [] => Ok next
  | record :: records =>
    if p_sequence record >=? first_unrecorded then
      if negb (p_sequence record =? next) then Err MetadataCorrupted
      else match checked_add u64_max next 1 with
           | None => Err MetadataCorrupted
           | Some next => advance_loop first_unrecorded next records
           end
    else advance_loop first_unrecorded next records
  end.

Definition advance_next_sequence (meta : HookSpoolMetaV1) (records : list PendingRecordV1) :
    result HookSpoolMetaV1 HookSpoolError :=
  let? next := advance_loop (next_sequence meta) (next_sequence meta) records in
  Ok (with_next_sequence meta next).

Definition validate_meta (meta : HookSpoolMetaV1) (limits : HookSpoolLimitsV1) :
    result unit HookSpoolError :=
  if (next_sequence meta =? 0) || (next_sequence meta <=? committed_through meta)
     || (zlen (acknowledged meta) >? max_host_records limits)
  then Err MetadataCorrupted
  else let? _ := acknowledged_map meta in Ok tt.

(** [while iterator.peek() < sequence { iterator.next() }]. *)
Fixpoint skip_below (sequence : Z) (l : list Z) : list Z :=
  match l with
  | [] => []
  | x :: r => if x <? sequence then skip_below sequence r else l
  end.

Definition peek_is (sequence : Z) (l : list Z) : bool :=
  match l with x :: _ => x =? sequence | [] => false end.

(** The [for sequence in ..] loop of [validate_meta_against_records] over [n]
    sequences from [sequence]; it ends with what is left of [present]. *)
Fixpoint cover_loop (n : nat) (sequence : Z) (present acked : list Z) :
    result (list Z) HookSpoolError :=
  match n with
  | O => Ok present
  | S n =>
    let present := skip_below sequence present in
    let acked := skip_below sequence acked in
    if peek_is sequence present then cover_loop n (sequence + 1) (tail present) acked
    else if peek_is sequence acked then cover_loop n (sequence + 1) present (tail acked)
    else Err MetadataCorrupted
  end.

Definition validate_meta_against_records (meta : HookSpoolMetaV1) (sequences : list Z)
    (limits : HookSpoolLimitsV1) : result unit HookSpoolError :=
  let outstanding := next_sequence meta - committed_through meta - 1 in
  if outstanding <? 0 then Err MetadataCorrupted
  else if outstanding >? max_host_records limits then Err MetadataCorrupted
  else
    let? map := acknowledged_map meta in
    let start := sat_add u64_max (committed_through meta) 1 in
    let? present := cover_loop (Z.to_nat (next_sequence meta - start)) start sequences (map_keys map) in
    if is_empty (skip_below (next_sequence meta) present) then Ok tt else Err MetadataCorrupted.

(** ** Settlement in mod.rs *)

(** The pending records of an open: past the frontier and not acknowledged. *)
Definition pending_of (meta : HookSpoolMetaV1) (map : list (Z * AcknowledgedSequenceV1))
    (records : list PendingRecordV1) : list PendingRecordV1 :=
  List.filter (λ record, (p_sequence record >? committed_through meta)
    && match map_get (p_sequence record) map with Some _ => false | None => true end) records.

(** [pending.iter().position(|record| record.sequence == sequence)]. *)
Fixpoint position_of (sequence : Z) (pending : list PendingRecordV1) : option nat :=
  match pending with
  | [] => None
  | record :: pending =>
    if p_sequence record =? sequence then Some O else S <$> position_of sequence pending
  end.

(** The closure of [acknowledge_many]; [added] is
    [next_meta.acknowledged[self.meta.acknowledged.len()..]] and [indices] the
    acknowledged indices so far. *)
Definition acknowledge_one (meta : HookSpoolMetaV1) (existing : list (Z * AcknowledgedSequenceV1))
    (pending : list PendingRecordV1) (added : list AcknowledgedSequenceV1)
    (indices : list (nat * HookSpoolAckDispositionV1)) (ack : HookSpoolAckV1) :
    result bool HookSpoolError * list AcknowledgedSequenceV1 *
      list (nat * HookSpoolAckDispositionV1) :=
  if (ack_sequence ack =? 0) || bool_decide (ack_receipt_id ack = zeros 16)
  then (Err AckConflict, added, indices)
  else if ack_sequence ack <=? committed_through meta then (Ok false, added, indices)
  else
    let prior :=
      match map_get (ack_sequence ack) existing with
      | Some prior => Some prior
      | None => find (λ prior, k_sequence prior =? ack_sequence ack) added
      end in
    match prior with
    | Some prior =>
      if bool_decide (k_receipt_id prior = ack_receipt_id ack)
         && bool_decide (k_disposition prior = ack_disposition ack)
      then (Ok false, added, indices)
      else (Err AckConflict, added, indices)
    | None =>
      match position_of (ack_sequence ack) pending with
      | None => (Err AckConflict, added, indices)
      | Some index =>
        (Ok true,
         added ++ [{| k_sequence := ack_sequence ack; k_receipt_id := ack_receipt_id ack;
                      k_disposition := ack_disposition ack |}],
         indices ++ [(index, ack_disposition ack)])
      end
    end.

Fixpoint acknowledge_each (meta : HookSpoolMetaV1) (existing : list (Z * AcknowledgedSequenceV1))
    (pending : list PendingRecordV1) (added : list AcknowledgedSequenceV1)
    (indices : list (nat * HookSpoolAckDispositionV1)) (acks : list HookSpoolAckV1) :
    list (result bool HookSpoolError) * list AcknowledgedSequenceV1 *
      list (nat * HookSpoolAckDispositionV1) :=
  match acks with
  | [] => ([], added, indices)
  | ack :: acks =>
    let '(outcome, added, indices) := acknowledge_one meta existing pending added indices ack in
    let '(outcomes, added, indices) := acknowledge_each meta existing pending added indices acks in
    (outcome :: outcomes, added, indices)
  end.

(** [acknowledge_many] up to its publication: the outcome of every slot and
    the metadata to publish, [None] when no acknowledgement was new. *)
Definition acknowledge_plan (meta : HookSpoolMetaV1) (pending : list PendingRecordV1)
    (acks : list HookSpoolAckV1) :
    result (list (result bool HookSpoolError) * option HookSpoolMetaV1) HookSpoolError :=
  let? existing := acknowledged_map meta in
  let '(outcomes, added, indices) := acknowledge_each meta existing pending [] [] acks in
  if is_empty indices then Ok (outcomes, None)
  else
    let? next_meta := normalize_acknowledgements
      (with_acknowledged meta (committed_through meta) (acknowledged meta ++ added)) in
    Ok (outcomes, Some next_meta).

(** ** The abstract view *)
Definition settled (meta : HookSpoolMetaV1) (s : Z) : Prop :=
  s <= committed_through meta ∨ s ∈ k_sequence <$> acknowledged meta.

(** What [acknowledged_map] accepts. *)
Definition acks_ok (meta : HookSpoolMetaV1) : Prop :=
  NoDup (k_sequence <$> acknowledged meta) ∧
  ∀ e, e ∈ acknowledged meta →
    committed_through meta < k_sequence e < next_sequence meta ∧ k_receipt_id e ≠ zeros 16.

(** ** Lemmas *)
Abbreviation keyed := (λ e : AcknowledgedSequenceV1, (k_sequence e, e)).

Lemma acknowledged_loop_inv c n entries map m :
  map_sorted map → acknowledged_loop c n entries map = Ok m →
  map_sorted m ∧ m ≡ₚ map ++ (keyed <$> entries) ∧
  (∀ e, e ∈ entries → c < k_sequence e < n ∧ k_receipt_id e ≠ zeros 16) ∧
  (NoDup (map_keys map) → NoDup (map_keys map ++ (k_sequence <$> entries))).
Proof.
  revert map. induction entries as [|e entries IH]; intros map Hs; simpl.
  { intros [= <-]. rewrite !app_nil_r. split_and!; [done..|set_solver|done]. }
  destruct (_ || _ || _ || _) eqn:E; [done|]. intros Hm.
  apply orb_false_iff in E as [E E4]. bools.
  destruct (map_get (k_sequence e) map) eqn:G; [done|].
  apply IH in Hm as (M1 & M2 & M3 & M4); [|by apply map_insert_sorted].
  rewrite Z.geb_leb, Z.leb_gt in *. split_and!; [done|..].
  - rewrite M2, map_insert_perm by done. simpl. apply Permutation_middle.
  - intros x [->|Hx]%elem_of_cons; [|by apply M3]. split; [lia|done].
  - intros Hnd. apply map_get_None in G.
    assert (map_keys (map_insert (k_sequence e) e map) ≡ₚ k_sequence e :: map_keys map) as Hp.
    { unfold map_keys. rewrite map_insert_perm by by apply map_get_None. done. }
    rewrite Hp in M4. rewrite <- Permutation_middle. apply M4. by constructor.
Qed.

Lemma acknowledged_loop_complete c n entries map :
  map_sorted map → NoDup (k_sequence <$> entries) →
  (∀ e, e ∈ entries → c < k_sequence e < n ∧ k_receipt_id e ≠ zeros 16 ∧
                      k_sequence e ∉ map_keys map) →
  ∃ m, acknowledged_loop c n entries map = Ok m.
Proof.
  revert map. induction entries as [|e entries IH]; intros map Hs Hnd He; simpl; [eauto|].
  apply NoDup_cons in Hnd as [Hn Hnd]. destruct (He e ltac:(by left)) as (H1 & H2 & H3).
  rewrite (proj2 (Z.leb_gt _ _)) by lia. rewrite Z.geb_leb, (proj2 (Z.leb_gt _ _)) by lia.
  rewrite bool_decide_eq_false_2 by done. apply map_get_None in H3. rewrite H3. simpl.
  apply IH; [by apply map_insert_sorted|done|]. intros x Hx.
  destruct (He x ltac:(by right)) as (X1 & X2 & X3). split_and!; [lia..|done|].
  rewrite map_insert_keys. intros [E|?]; [|done]. apply Hn. rewrite <- E. by apply list_elem_of_fmap_2.
Qed.

Lemma acknowledged_map_ok meta m :
  acknowledged_map meta = Ok m →
  acks_ok meta ∧ map_sorted m ∧ m ≡ₚ keyed <$> acknowledged meta.
Proof.
  intros (H1 & H2 & H3 & H4)%acknowledged_loop_inv; [|constructor].
  split_and!; [split; [apply H4; constructor|done]|done|done].
Qed.

Lemma acknowledged_map_total meta : acks_ok meta → ∃ m, acknowledged_map meta = Ok m.
Proof.
  intros [Hnd He]. apply acknowledged_loop_complete; [constructor|done|].
  intros e Hin. destruct (He e Hin). split_and!; [lia..|done|apply not_elem_of_nil].
Qed.

Lemma keyed_keys m acks : m ≡ₚ keyed <$> acks → map_keys m ≡ₚ k_sequence <$> acks.
Proof. intros Hm. unfold map_keys. rewrite Hm. by rewrite <- list_fmap_compose. Qed.

(** The loop of [normalize_acknowledgements]. *)
Lemma settle_loop_spec fuel c m n :
  (length m < fuel)%nat → map_sorted m → (∀ k, k ∈ map_keys m → c < k < n) → c < n → n <= u64_max →
  let '(c', m') := settle_loop fuel c m in
  c <= c' < n ∧ map_sorted m' ∧ (∀ x, x ∈ m' ↔ x ∈ m ∧ c' < x.1) ∧
  (∀ k, k ∈ map_keys m' → c' + 1 < k < n) ∧
  (∀ s, s <= c' ∨ s ∈ map_keys m' ↔ s <= c ∨ s ∈ map_keys m).
Proof.
  revert c m. induction fuel as [|fuel IH]; intros c m Hf Hs Hk Hc Hn; [lia|]. simpl.
  unfold checked_add. rewrite bool_decide_eq_true_2 by lia.
  assert (Hin : ∀ x, x ∈ m → c < x.1 < n).
  { intros x Hx. apply Hk. by apply list_elem_of_fmap_2. }
  destruct (map_get (c + 1) m) as [e|] eqn:G.
  - assert (c + 1 ∈ map_keys m) as Hc1.
    { apply map_get_elem in G. by apply (list_elem_of_fmap_2 fst) in G. }
    specialize (IH (c + 1) (map_remove (c + 1) m)).
    assert (Hrem : ∀ x, x ∈ map_remove (c + 1) m ↔ x ∈ m ∧ c + 1 < x.1).
    { intros x. unfold map_remove. rewrite list_elem_of_filter. simpl. rewrite Z.compare_eq_iff.
      split; [|intros [? ?]; split; [lia|done]]. intros [Hne Hx]. specialize (Hin x Hx).
      split; [done|lia]. }
    destruct (settle_loop fuel (c + 1) (map_remove (c + 1) m)) as [c' m'].
    destruct IH as (H1 & H2 & H3 & H4 & H5).
    + pose proof (map_remove_length m (c + 1)). rewrite G in *. naive_solver lia.
    + by apply map_remove_sorted.
    + intros k [Hne Hk']%map_remove_keys. specialize (Hk k Hk'). lia.
    + by apply Hk.
    + done.
    + split_and!; [lia..|done| |done|].
      * intros x. rewrite H3, Hrem. intuition lia.
      * intros s. rewrite H5, map_remove_keys. split.
        -- intros [?|[? ?]]; [|tauto]. destruct (decide (s = c + 1)) as [->|]; [tauto|lia].
        -- intros [?|?]; [lia|]. destruct (decide (s = c + 1)); [lia|tauto].
  - apply map_get_None in G. split_and!; try lia; try done.
    + intros x. specialize (Hin x). tauto.
    + intros k Hk'. specialize (Hk k Hk'). destruct (decide (k = c + 1)) as [->|]; [done|lia].
Qed.

Lemma normalize_spec meta :
  acks_ok meta → committed_through meta < next_sequence meta <= u64_max →
  ∃ meta', normalize_acknowledgements meta = Ok meta' ∧
    next_sequence meta' = next_sequence meta ∧ integrity meta' = integrity meta ∧
    committed_through meta <= committed_through meta' < next_sequence meta ∧
    acks_ok meta' ∧ StronglySorted Z.lt (k_sequence <$> acknowledged meta') ∧
    (∀ e, e ∈ acknowledged meta' → e ∈ acknowledged meta) ∧
    (∀ s, settled meta' s ↔ settled meta s) ∧ ¬ settled meta' (committed_through meta' + 1).
Proof.
  intros Hok Hn. destruct (acknowledged_map_total meta Hok) as [m Hm].
  unfold normalize_acknowledgements. rewrite Hm.
  apply acknowledged_map_ok in Hm as ((Hnd & He) & Hs & Hp).
  pose proof (keyed_keys _ _ Hp) as Hkeys.
  pose proof (settle_loop_spec (S (length m)) (committed_through meta) m (next_sequence meta)) as Hl.
  destruct (settle_loop _ _ m) as [c' m'].
  destruct Hl as (L1 & L2 & L3 & L4 & L5); [lia|done| |lia|lia|].
  { intros k. rewrite Hkeys. intros (e & -> & Hin)%list_elem_of_fmap. by apply He. }
  assert (Hm' : ∀ k e, (k, e) ∈ m' → k = k_sequence e ∧ e ∈ acknowledged meta).
  { intros k e Hin. apply L3 in Hin as [Hin _]. rewrite Hp in Hin.
    apply list_elem_of_fmap in Hin as (e' & [= -> ->] & ?). done. }
  assert (Hseq : k_sequence <$> m'.*2 = map_keys m').
  { unfold map_keys. rewrite <- list_fmap_compose. apply list_fmap_ext. intros i [k e] Hi.
    apply list_elem_of_lookup_2 in Hi. by destruct (Hm' k e Hi) as [-> _]. }
  assert (Hsort : StronglySorted Z.lt (map_keys m')).
  { eapply strongly_sorted_impl; [|exact L2]. intros a b. unfold key_lt. simpl. apply Z.compare_lt_iff. }
  assert (Hset : ∀ s, settled (with_acknowledged meta c' m'.*2) s ↔ s <= c' ∨ s ∈ map_keys m').
  { intros s. unfold settled. simpl. by rewrite Hseq. }
  eexists; split; [done|]. simpl. split_and!; try done; try lia.
  - split; simpl; [rewrite Hseq|].
    + by apply increasing_NoDup.
    + intros e ([k e'] & -> & Hin)%list_elem_of_fmap. simpl. destruct (Hm' k e' Hin) as [-> Hack].
      split; [|by apply He]. pose proof (L4 (k_sequence e')
        ltac:(by apply (list_elem_of_fmap_2 fst) in Hin)). lia.
  - by rewrite Hseq.
  - intros e ([k e'] & -> & Hin)%list_elem_of_fmap. by apply Hm' in Hin as [_ ?].
  - intros s. rewrite Hset, L5. unfold settled. by rewrite Hkeys.
  - rewrite Hset. simpl. intros [?|Hin]; [lia|]. specialize (L4 _ Hin). lia.
Qed.

(** The closure of [acknowledge_many] on one acknowledgement: what it adds and
    what its outcome says. *)
Definition batch_ok (meta : HookSpoolMetaV1) (pending : list PendingRecordV1) : Prop :=
  acks_ok meta ∧ 0 <= committed_through meta < next_sequence meta ∧ next_sequence meta <= u64_max ∧
  ∀ r, r ∈ pending → p_sequence r < next_sequence meta ∧ ¬ settled meta (p_sequence r).

Lemma position_of_elem s pending :
  (∃ i, position_of s pending = Some i) ↔ ∃ r, r ∈ pending ∧ p_sequence r = s.
Proof.
  induction pending as [|x pending IH]; simpl; [split; [intros [i ?]; done|set_solver]|].
  destruct (Z.eqb_spec (p_sequence x) s) as [E|E].
  - split; [|eauto]. intros _. exists x. split; [by left|done].
  - split.
    + intros [i (j & Hj & _)%fmap_Some]. destruct (proj1 IH (ex_intro _ j Hj)) as (r & ? & ?).
      exists r. split; [by right|done].
    + intros (r & [->|Hr]%elem_of_cons & Hs); [done|].
      destruct (proj2 IH ltac:(eauto)) as [j ->]. by exists (S j).
Qed.

Definition with_added (meta : HookSpoolMetaV1) (added : list AcknowledgedSequenceV1) :
    HookSpoolMetaV1 :=
  with_acknowledged meta (committed_through meta) (acknowledged meta ++ added).

Lemma settled_with_added meta added s :
  settled (with_added meta added) s ↔ settled meta s ∨ s ∈ k_sequence <$> added.
Proof. unfold settled. simpl. rewrite fmap_app, elem_of_app. tauto. Qed.

Lemma acknowledge_one_spec meta existing pending added indices ack outcome added' indices' :
  batch_ok meta pending → acknowledged_map meta = Ok existing → acks_ok (with_added meta added) →
  acknowledge_one meta existing pending added indices ack = (outcome, added', indices') →
  acks_ok (with_added meta added') ∧
  (outcome = Ok true ∧ ¬ settled (with_added meta added) (ack_sequence ack) ∧
     indices' ≠ [] ∧
     (∀ s, settled (with_added meta added') s ↔
        settled (with_added meta added) s ∨ s = ack_sequence ack)
   ∨ outcome ≠ Ok true ∧ added' = added ∧ indices' = indices) ∧
  (∀ b, outcome = Ok b → settled (with_added meta added') (ack_sequence ack)) ∧
  (ack_receipt_id ack ≠ zeros 16 → (∃ r, r ∈ pending ∧ p_sequence r = ack_sequence ack) →
   settled (with_added meta added') (ack_sequence ack)).
Proof.
  intros (Hok & Hc & Hn & Hpend) Hm Hadd. apply acknowledged_map_ok in Hm as (_ & Hs & Hp).
  pose proof (keyed_keys _ _ Hp) as Hkeys. unfold acknowledge_one.
  destruct (_ || _) eqn:E0.
  { intros [= <- <- <-]. split_and!; [done|right; done|done|]. intros Hr (r & Hin & Hrs).
    apply orb_true_iff in E0 as [E0|E0]; bools; [|done].
    destruct (Hpend r Hin) as [? Hu]. exfalso. apply Hu. left. lia. }
  destruct (Z.leb_spec (ack_sequence ack) (committed_through meta)) as [Hle|Hgt].
  { intros [= <- <- <-]. assert (settled (with_added meta added) (ack_sequence ack)) by by left.
    split_and!; [done|right; done|done|done]. }
  bools.
  set (prior := match map_get _ _ with Some _ => _ | None => _ end).
  assert (Hprior : match prior with
    | Some _ => settled (with_added meta added) (ack_sequence ack)
    | None => ¬ settled (with_added meta added) (ack_sequence ack) end).
  { subst prior. destruct (map_get _ existing) as [e|] eqn:G.
    - rewrite settled_with_added. unfold settled. left. right. rewrite <- Hkeys. apply map_get_elem in G. by apply (list_elem_of_fmap_2 fst) in G.
    - apply map_get_None in G. rewrite Hkeys in G. destruct (find _ added) as [e|] eqn:F;
        rewrite settled_with_added; unfold settled.
      + apply find_some in F as [F1 F2]. apply Z.eqb_eq in F2. right. rewrite <- F2.
        apply list_elem_of_fmap_2. by apply list_elem_of_In.
      + intros [[?|?]|(e & He & Hin)%list_elem_of_fmap]; [lia|done|].
        apply list_elem_of_In in Hin. pose proof (find_none _ _ F e Hin). simpl in *. lia. }
  destruct prior as [e|].
  { destruct (_ && _); intros [= <- <- <-]; (split_and!; [done|right; done|done|done]). }
  destruct (position_of _ pending) as [i|] eqn:P.
  2:{ intros [= <- <- <-]. split_and!; [done|right; done|done|]. intros _ Hex.
      apply position_of_elem in Hex as [? ?]. congruence. }
  intros [= <- <- <-].
  assert (∃ r, r ∈ pending ∧ p_sequence r = ack_sequence ack) as (r & Hin & Hr)
    by (apply position_of_elem; eauto).
  destruct (Hpend r Hin) as [Hlt _].
  assert (Hset : ∀ s, settled (with_added meta (added ++ [{| k_sequence := ack_sequence ack;
      k_receipt_id := ack_receipt_id ack; k_disposition := ack_disposition ack |}])) s ↔
    settled (with_added meta added) s ∨ s = ack_sequence ack).
  { intros s. rewrite !settled_with_added, fmap_app, elem_of_app. simpl.
    rewrite list_elem_of_singleton. tauto. }
  split_and!.
  - destruct Hadd as [Hnd He]. unfold acks_ok, with_added in *. simpl in *. rewrite app_assoc. split.
    + rewrite fmap_app. apply NoDup_app. split_and!; [done| |apply NoDup_singleton].
      intros s Hsin ->%list_elem_of_singleton. apply Hprior. by right.
    + intros x [Hx| ->%list_elem_of_singleton]%elem_of_app; [by apply He|]. simpl. split; [lia|done].
  - left. split_and!; [done|done|by destruct indices|done].
  - intros b _. apply Hset. by right.
  - intros _ _. apply Hset. by right.
Qed.

(** The batch: slot by slot. *)
Lemma acknowledge_each_spec meta existing pending acks added indices outcomes added' indices' :
  batch_ok meta pending → acknowledged_map meta = Ok existing → acks_ok (with_added meta added) →
  acknowledge_each meta existing pending added indices acks = (outcomes, added', indices') →
  length outcomes = length acks ∧ acks_ok (with_added meta added') ∧
  (indices' = [] → indices = [] ∧ added' = added) ∧
  (∀ s, settled (with_added meta added') s ↔ settled (with_added meta added) s ∨
     ∃ i ack, acks !! i = Some ack ∧ ack_sequence ack = s ∧ outcomes !! i = Some (Ok true)) ∧
  (∀ i ack, acks !! i = Some ack →
     ((∃ b, outcomes !! i = Some (Ok b)) ∨
      ack_receipt_id ack ≠ zeros 16 ∧ (∃ r, r ∈ pending ∧ p_sequence r = ack_sequence ack)) →
     settled (with_added meta added') (ack_sequence ack)).
Proof.
  intros Hb Hm. revert added indices outcomes added' indices'.
  induction acks as [|ack acks IH]; intros added indices outcomes added' indices' Hadd; simpl.
  { intros [= <- <- <-]. split_and!; try done.
    intros s. split; [by left|]. intros [?|(i & a & ? & _)]; done. }
  destruct (acknowledge_one _ _ _ _ _ _) as [[o a1] i1] eqn:E1.
  destruct (acknowledge_each _ _ _ a1 i1 acks) as [[os a2] i2] eqn:E2. intros [= <- <- <-].
  apply acknowledge_one_spec in E1 as (A1 & A2 & A3 & A4); try done.
  apply IH in E2 as (B1 & B2 & B3 & B4 & B5); try done.
  split_and!; [simpl; lia|done|..].
  - intros ->. destruct (B3 eq_refl) as [-> ->]. by destruct A2 as [(_ & _ & ? & _)|(_ & -> & <-)].
  - intros s. rewrite B4. destruct A2 as [(-> & _ & _ & A2)|(Ho & -> & _)].
    + rewrite A2. split.
      * intros [[?|Hs]|(i & a & ? & ? & ?)]; [by left|right; exists 0%nat; eauto|].
        right. by exists (S i), a.
      * intros [?|([|i] & a & Ha & Hs & Ho)]; [tauto|injection Ha as ->; by left; right|].
        right. by exists i, a.
    + split.
      * intros [?|(i & a & ? & ? & ?)]; [by left|]. right. by exists (S i), a.
      * intros [?|([|i] & a & Ha & Hs & Ho')]; [tauto|by injection Ho' as ->|].
        right. by exists i, a.
  - intros [|i] a; simpl.
    + intros [= ->] Hcase. apply B4. left.
      destruct Hcase as [[b [= ->]]|[Hr Hex]]; [by eapply A3|by apply A4].
    + apply B5.
Qed.

(** C17. Settling a batch of acknowledgements is exact. The batch never fails
    as a whole; every slot has its outcome; the sequences settled afterwards
    are those settled before and those whose slot answered [Ok true]; whatever
    slot answered [Ok] is settled, and every acknowledgement of a pending
    record with a receipt settles it. The published metadata is well formed,
    its frontier never moves back, and it is exact: the next sequence after
    [committed_through] is unsettled. *)
Theorem acknowledge_plan_settles meta pending acks :
  batch_ok meta pending →
  ∃ outcomes published, acknowledge_plan meta pending acks = Ok (outcomes, published) ∧
    length outcomes = length acks ∧
    let meta' := default meta published in
    acks_ok meta' ∧ next_sequence meta' = next_sequence meta ∧
    committed_through meta <= committed_through meta' < next_sequence meta ∧
    (published ≠ None → ¬ settled meta' (committed_through meta' + 1)) ∧
    (∀ s, settled meta' s ↔ settled meta s ∨
       ∃ i ack, acks !! i = Some ack ∧ ack_sequence ack = s ∧ outcomes !! i = Some (Ok true)) ∧
    (∀ i ack, acks !! i = Some ack →
       ((∃ b, outcomes !! i = Some (Ok b)) ∨
        ack_receipt_id ack ≠ zeros 16 ∧ (∃ r, r ∈ pending ∧ p_sequence r = ack_sequence ack)) →
       settled meta' (ack_sequence ack)).
Proof.
  intros Hb. pose proof Hb as (Hok & Hc & Hn & _).
  destruct (acknowledged_map_total meta Hok) as [existing Hm].
  unfold acknowledge_plan. rewrite Hm.
  assert (with_added meta [] = meta) as H0.
  { unfold with_added, with_acknowledged. rewrite app_nil_r. by destruct meta. }
  destruct (acknowledge_each _ _ _ _ _ acks) as [[os added] indices] eqn:E.
  apply acknowledge_each_spec in E as (B1 & B2 & B3 & B4 & B5); rewrite ?H0 in *; try done.
  destruct indices as [|i indices].
  - destruct (B3 eq_refl) as [_ ->]. rewrite H0 in *.
    exists os, None. simpl. split_and!; try done; lia.
  - destruct (normalize_spec (with_added meta added)) as
      (meta' & N & N1 & N2 & N3 & N4 & N5 & N6 & N7 & N8); [done|simpl; lia|].
    unfold with_added in N at 1. rewrite N. exists os, (Some meta').
    simpl. split_and!; try done; simpl in *; try lia.
    + intros s. by rewrite N7, B4.
    + intros j ack Ha Hcase. apply N7. by eapply B5.
Qed.

(** ** The check against the records file *)
Lemma skip_below_In s l x :
  StronglySorted Z.lt l → x ∈ skip_below s l ↔ x ∈ l ∧ s <= x.
Proof.
  induction 1 as [|y l Hl IH Hy]; simpl; [set_solver|].
  destruct (Z.ltb_spec y s).
  - rewrite IH, elem_of_cons. split; [tauto|]. intros [[->|?] ?]; [lia|done].
  - rewrite Forall_forall in Hy. split; [|tauto]. intros Hx. split; [done|].
    apply elem_of_cons in Hx as [->|Hx]; [lia|]. specialize (Hy x Hx). lia.
Qed.

Lemma skip_below_sorted s l : StronglySorted Z.lt l → StronglySorted Z.lt (skip_below s l).
Proof.
  induction 1 as [|y l Hl IH Hy]; simpl; [constructor|]. destruct (y <? s); [done|by constructor].
Qed.

(** The head of the skipped iterator is the sequence exactly when the iterator
    still holds it, and advancing past it keeps everything larger. *)
Lemma peek_skip s l :
  StronglySorted Z.lt l → (peek_is s (skip_below s l) = true) ↔ s ∈ l.
Proof.
  intros Hs. transitivity (s ∈ skip_below s l).
  2:{ rewrite skip_below_In by done. intuition lia. }
  assert (∀ x, x ∈ skip_below s l → s <= x) as Hl by (intros x Hx; by apply skip_below_In in Hx as [_ ?]).
  apply (skip_below_sorted s) in Hs. revert Hs Hl. destruct (skip_below s l) as [|y k]; intros Hs Hl.
  { split; [done|by intros ?%elem_of_nil]. }
  apply StronglySorted_inv in Hs as [_ Hy]. rewrite Forall_forall in Hy.
  specialize (Hl y ltac:(by left)). simpl. rewrite Z.eqb_eq. split; [intros ->; by left|].
  intros [->|Hin]%elem_of_cons; [done|]. specialize (Hy s Hin). lia.
Qed.

Lemma tail_skip s l x :
  StronglySorted Z.lt l → peek_is s (skip_below s l) = true → s < x →
  x ∈ tail (skip_below s l) ↔ x ∈ l.
Proof.
  intros Hs Hp Hx. transitivity (x ∈ skip_below s l).
  2:{ rewrite skip_below_In by done. intuition lia. }
  destruct (skip_below s l) as [|y k]; [done|]. simpl in *. apply Z.eqb_eq in Hp as ->.
  rewrite elem_of_cons. intuition lia.
Qed.

Lemma tail_sorted (l : list Z) : StronglySorted Z.lt l → StronglySorted Z.lt (tail l).
Proof. destruct 1; [constructor|done]. Qed.

Lemma cover_loop_spec n s present acked :
  StronglySorted Z.lt present → StronglySorted Z.lt acked →
  match cover_loop n s present acked with
  | Ok rest => StronglySorted Z.lt rest ∧
      (∀ k, s <= k < s + Z.of_nat n → k ∈ present ∨ k ∈ acked) ∧
      (∀ x, s + Z.of_nat n <= x → (x ∈ rest ↔ x ∈ present))
  | Err e => e = MetadataCorrupted ∧
      ∃ k, s <= k < s + Z.of_nat n ∧ ¬ (k ∈ present) ∧ ¬ (k ∈ acked)
  end.
Proof.
  revert s present acked. induction n as [|n IH]; intros s present acked Hp Ha.
  { cbn [cover_loop]. split_and!; [done|lia|done]. }
  cbn [cover_loop]. cbv zeta.
  pose proof (skip_below_sorted s _ Hp) as Hp'. pose proof (skip_below_sorted s _ Ha) as Ha'.
  pose proof (peek_skip s present Hp) as Kp. pose proof (peek_skip s acked Ha) as Ka.
  (* one iteration, whichever list is advanced *)
  assert (Hstep : ∀ p a, StronglySorted Z.lt p → StronglySorted Z.lt a →
    s ∈ present ∨ s ∈ acked → (∀ x, s < x → (x ∈ p ↔ x ∈ present)) → (∀ x, s < x → (x ∈ a ↔ x ∈ acked)) →
    match cover_loop n (s + 1) p a with
    | Ok rest => StronglySorted Z.lt rest ∧
        (∀ k, s <= k < s + Z.of_nat (S n) → k ∈ present ∨ k ∈ acked) ∧
        (∀ x, s + Z.of_nat (S n) <= x → (x ∈ rest ↔ x ∈ present))
    | Err e => e = MetadataCorrupted ∧
        ∃ k, s <= k < s + Z.of_nat (S n) ∧ ¬ (k ∈ present) ∧ ¬ (k ∈ acked)
    end).
  { intros p a Sp Sa Hs Ep Ea. specialize (IH (s + 1) p a Sp Sa).
    destruct (cover_loop n (s + 1) p a) as [rest|e].
    - destruct IH as (I1 & I2 & I3). split_and!; [done| |].
      + intros k Hk. destruct (decide (k = s)) as [->|]; [done|].
        rewrite <- Ep, <- Ea by lia. apply I2. lia.
      + intros x Hx. rewrite I3 by lia. apply Ep. lia.
    - destruct IH as (-> & k & Hk & N1 & N2). split; [done|]. exists k.
      rewrite Ep, Ea in * by lia. split_and!; [lia|lia|done|done]. }
  assert (∀ l x, StronglySorted Z.lt l → s < x → (x ∈ skip_below s l ↔ x ∈ l)) as Hskip.
  { intros l x Hl Hx. rewrite skip_below_In by done. intuition lia. }
  destruct (peek_is s (skip_below s present)) eqn:P1; [|destruct (peek_is s (skip_below s acked)) eqn:P2].
  - apply Hstep; [by apply tail_sorted|done|tauto|intros; by apply tail_skip|auto].
  - apply Hstep; [done|by apply tail_sorted|tauto|auto|intros; by apply tail_skip].
  - split; [done|]. exists s. split_and!; [lia|lia|intros ?%Kp; done|intros ?%Ka; done].
Qed.

Lemma covered_exactly meta sequences limits :
  acks_ok meta → 0 <= committed_through meta → next_sequence meta <= u64_max →
  StronglySorted Z.lt sequences →
  validate_meta_against_records meta sequences limits =
  if decide (committed_through meta < next_sequence meta ∧
             next_sequence meta - committed_through meta - 1 <= max_host_records limits ∧
             Forall (λ s, s ∈ sequences ∨ s ∈ k_sequence <$> acknowledged meta)
               (seqZ (committed_through meta + 1)
                  (next_sequence meta - committed_through meta - 1)) ∧
             Forall (λ s, s < next_sequence meta) sequences)
  then Ok tt else Err MetadataCorrupted.
Proof.
  intros Hok Hc Hn Hs. unfold validate_meta_against_records.
  destruct (Z.ltb_spec (next_sequence meta - committed_through meta - 1) 0) as [?|Hlo].
  { rewrite decide_False by (intros [? _]; lia). done. }
  rewrite Z.gtb_ltb. destruct (Z.ltb_spec (max_host_records limits)
    (next_sequence meta - committed_through meta - 1)) as [?|Hhi].
  { rewrite decide_False by (intros (_ & ? & _); lia). done. }
  destruct (acknowledged_map_total meta Hok) as [map Hm]. rewrite Hm.
  apply acknowledged_map_ok in Hm as (_ & Hsm & Hp). pose proof (keyed_keys _ _ Hp) as Hkeys.
  assert (sat_add u64_max (committed_through meta) 1 = committed_through meta + 1) as ->
    by (unfold sat_add; lia).
  pose proof (cover_loop_spec (Z.to_nat (next_sequence meta - (committed_through meta + 1)))
    (committed_through meta + 1) sequences (map_keys map) Hs) as Hl.
  destruct (cover_loop _ _ _ _) as [rest|e].
  - destruct Hl as (L1 & L2 & L3).
    { eapply strongly_sorted_impl; [|exact Hsm]. intros a b. unfold key_lt. apply Z.compare_lt_iff. }
    assert (Hcov : Forall (λ s, s ∈ sequences ∨ s ∈ k_sequence <$> acknowledged meta)
      (seqZ (committed_through meta + 1) (next_sequence meta - committed_through meta - 1))).
    { apply Forall_forall. intros k Hk%elem_of_seqZ. rewrite <- Hkeys. apply L2. lia. }
    assert (Hrest : ∀ x, x ∈ skip_below (next_sequence meta) rest ↔
                         x ∈ sequences ∧ next_sequence meta <= x).
    { intros x. rewrite skip_below_In by done. destruct (decide (next_sequence meta <= x)); [|tauto].
      rewrite L3 by lia. tauto. }
    destruct (skip_below (next_sequence meta) rest) as [|y k]; simpl.
    + rewrite decide_True; [done|]. split_and!; [lia|lia|done|]. apply Forall_forall. intros x Hx.
      destruct (decide (x < next_sequence meta)); [done|]. exfalso.
      apply (not_elem_of_nil x), Hrest. split; [done|lia].
    + rewrite decide_False; [done|]. intros (_ & _ & _ & Hall). rewrite Forall_forall in Hall.
      destruct (proj1 (Hrest y) ltac:(by left)) as [Hy ?]. specialize (Hall y Hy). lia.
  - destruct Hl as (-> & k & Hk & N1 & N2).
    { eapply strongly_sorted_impl; [|exact Hsm]. intros a b. unfold key_lt. apply Z.compare_lt_iff. }
    rewrite decide_False; [done|]. intros (_ & _ & Hall & _). rewrite Forall_forall in Hall.
    rewrite Hkeys in N2. destruct (Hall k); [|done|done]. apply elem_of_seqZ. lia.
Qed.

(** The check of the metadata against the records file decides exactly
    that nothing is lost and nothing is unknown: given records in increasing
    sequence, it accepts iff every sequence handed out after the frontier is
    in the records file or acknowledged, no record lies at or past the next
    sequence, and the window fits the host's record limit; every rejection is
    [MetadataCorrupted]. *)
Theorem validate_meta_against_records_exact meta sequences limits :
  acks_ok meta → 0 <= committed_through meta → next_sequence meta <= u64_max →
  StronglySorted Z.lt sequences →
  validate_meta_against_records meta sequences limits =
  if decide (committed_through meta < next_sequence meta ∧
             next_sequence meta - committed_through meta - 1 <= max_host_records limits ∧
             Forall (λ s, s ∈ sequences ∨ s ∈ k_sequence <$> acknowledged meta)
               (seqZ (committed_through meta + 1)
                  (next_sequence meta - committed_through meta - 1)) ∧
             Forall (λ s, s < next_sequence meta) sequences)
  then Ok tt else Err MetadataCorrupted.
Proof. apply covered_exactly. Qed.

(** ** Sequence recovery *)
Lemma advance_loop_spec first next records :
  next + zlen records <= u64_max →
  let unrecorded := List.filter (λ s, s >=? first) (p_sequence <$> records) in
  advance_loop first next records =
  if decide (unrecorded = seqZ next (zlen unrecorded)) then Ok (next + zlen unrecorded)
  else Err MetadataCorrupted.
Proof.
  revert next. induction records as [|r records IH]; intros next Hb.
  { simpl. f_equal. unfold zlen. simpl. lia. }
  cbn [advance_loop]. cbv zeta. rewrite fmap_cons. cbn [List.filter].
  rewrite zlen_cons in Hb. pose proof (zlen_nonneg records).
  destruct (p_sequence r >=? first) eqn:E; [|apply IH; lia].
  set (rest := List.filter _ _) in *. pose proof (zlen_nonneg rest).
  rewrite zlen_cons, (seqZ_cons next) by lia.
  replace (Z.pred (1 + zlen rest)) with (zlen rest) by lia.
  destruct (Z.eqb_spec (p_sequence r) next) as [->|Hne]; simpl.
  - unfold checked_add. rewrite bool_decide_eq_true_2 by lia.
    rewrite (IH (next + 1)) by lia. fold rest. rewrite <- Z.add_1_r.
    destruct (decide (rest = seqZ (next + 1) (zlen rest))) as [Hr|Hr].
    + rewrite decide_True by (f_equal; exact Hr). f_equal. lia.
    + rewrite decide_False; [done|]. intros E'. by injection E'.
  - rewrite decide_False; [done|]. intros E'. by injection E'.
Qed.

(** ** Evaluation *)
Definition sample_pending (s session : Z) : PendingRecordV1 := {|
  p_sequence := s; p_session := repeat session 32; p_queued_at := 10 * s; p_framed_len := 200;
  p_file_offset := 200 * (s - 1); p_event_id := repeat s 16; p_project_id := repeat 1 16;
  p_worktree_id := repeat 3 16; p_checksum := repeat 9 32; p_envelope := None;
  p_native_lifecycle := None;
|}.

Definition sample_ack (s r : Z) : HookSpoolAckV1 :=
  {| ack_sequence := s; ack_receipt_id := repeat r 16; ack_disposition := Committed |}.

(** Sequences 1 to 5 were handed out, 1 is committed, 3 acknowledged. *)
Definition sample_meta : HookSpoolMetaV1 := {|
  version := 1; committed_through := 1; next_sequence := 6;
  acknowledged := [{| k_sequence := 3; k_receipt_id := repeat 7 16; k_disposition := Committed |}];
  integrity := Healthy; retired_append_intent := None;
|}.

Lemma sample_acks_ok : acks_ok sample_meta.
Proof.
  split; [apply NoDup_singleton|]. intros e ->%list_elem_of_singleton. split; [simpl; lia|].
  vm_compute. discriminate.
Qed.

Lemma sample_batch_ok : batch_ok sample_meta [sample_pending 2 50; sample_pending 4 51; sample_pending 5 50].
Proof.
  split_and!; [apply sample_acks_ok|simpl; lia|simpl; lia|vm_compute; discriminate|].
  intros r Hr. rewrite !elem_of_cons in Hr.
  destruct Hr as [->|[->|[->|?%elem_of_nil]]]; [| | |done];
    (split; [simpl; lia|]; intros [?|Hin]; [simpl in *; lia|]);
    apply list_elem_of_singleton in Hin; discriminate.
Qed.

(** Acknowledging 2, 2 again, 9 and 5: the frontier moves over 3. *)
Lemma acknowledge_plan_settles_witness :
  acknowledge_plan sample_meta [sample_pending 2 50; sample_pending 4 51; sample_pending 5 50]
    [sample_ack 2 8; sample_ack 2 8; sample_ack 9 8; sample_ack 5 8] =
  Ok ([Ok true; Ok false; Err AckConflict; Ok true],
      Some (with_acknowledged sample_meta 3
        [{| k_sequence := 5; k_receipt_id := repeat 8 16; k_disposition := Committed |}])) ∧
  ∃ outcomes published, acknowledge_plan sample_meta
    [sample_pending 2 50; sample_pending 4 51; sample_pending 5 50]
    [sample_ack 2 8; sample_ack 2 8; sample_ack 9 8; sample_ack 5 8] = Ok (outcomes, published) ∧
    settled (default sample_meta published) 5.
Proof.
  split; [vm_compute; reflexivity|].
  destruct (acknowledge_plan_settles sample_meta
    [sample_pending 2 50; sample_pending 4 51; sample_pending 5 50]
    [sample_ack 2 8; sample_ack 2 8; sample_ack 9 8; sample_ack 5 8] sample_batch_ok)
    as (outcomes & published & E & _ & _ & _ & _ & _ & _ & Hs).
  exists outcomes, published. split; [exact E|].
  apply (Hs 3%nat (sample_ack 5 8) eq_refl). right. split; [vm_compute; discriminate|].
  exists (sample_pending 5 50). split; [|reflexivity].
  right. right. left.
Defined.

Lemma validate_meta_against_records_exact_witness :
  validate_meta_against_records sample_meta [2; 4; 5] limits_stock = Ok tt ∧
  validate_meta_against_records sample_meta [2; 5] limits_stock = Err MetadataCorrupted.
Proof.
  split.
  - rewrite (validate_meta_against_records_exact sample_meta [2; 4; 5] limits_stock sample_acks_ok);
      [reflexivity|simpl; lia|vm_compute; discriminate|repeat constructor].
  - rewrite (validate_meta_against_records_exact sample_meta [2; 5] limits_stock sample_acks_ok);
      [reflexivity|simpl; lia|vm_compute; discriminate|repeat constructor].
Defined.
