(* ===== verification/SpoolReplay.v ===== *)
(** * Quotas and fair replay

    [tracedecay-hooks/src/spool/replay.rs] and the parts of [spool/mod.rs]
    and [spool/lease.rs] that admit an append and select replay batches: the
    per-session usage and the reserve for control events, the round-robin
    order of sessions, the bounded FIFO batch of one session, the selection
    loop of [claim_replay_batches_in_scope] and the writer lease deadline. *)
From stdpp Require Import base list numbers sets sorting strings gmap.
From S2P Require Import Prelude RustText Bytes OrdMap HookContract SpoolFrame SpoolScan SpoolMeta.

#[local] Open Scope Z_scope.
#[local] Open Scope rust_scope.

Definition CONTROL_RECORD_RESERVE : Z := 1.
Definition CONTROL_FRAME_RESERVE_BYTES : Z := 4 * 1024.
Definition MAX_REPLAY_SESSIONS : Z := 4.

Abbreviation usage := (list (bytes * (Z * Z))).

(** [entry(session).or_default()]: the records and bytes of a session. *)
Definition usage_of (session : bytes) (m : usage) : Z * Z :=
  default (0, 0) (map_get session m).

(** ** replay.rs *)
Fixpoint usage_loop (limits : HookSpoolLimitsV1) (records : list PendingRecordV1) (m : usage) :
    result usage HookSpoolError :=
  match records with
  | [] => Ok m
  | record :: records =>
    let entry := usage_of (p_session record) m in
    match checked_add u32_max (fst entry) 1 with
    | None => Err SpoolFull
    | Some count =>
      let total := sat_add u64_max (snd entry) (p_framed_len record) in
      if (count >? max_session_records limits) || (total >? max_session_bytes limits)
      then Err SpoolFull
      else usage_loop limits records (map_insert (p_session record) (count, total) m)
    end
  end.

Definition usage_by_session (records : list PendingRecordV1) (limits : HookSpoolLimitsV1) :
    result usage HookSpoolError :=
  usage_loop limits records [].

Definition is_expired (record : PendingRecordV1) (now : Z) : bool :=
  i64_sat_sub now (p_queued_at record) >? MAX_SPOOL_AGE_MICROS.

Definition scope_matches (record : PendingRecordV1) (scope : option (bytes * bytes)) : bool :=
  match scope with
  | None => true
  | Some (project_id, worktree_id) =>
    negb (bool_decide (p_project_id record = project_id))
    || bool_decide (p_worktree_id record = worktree_id)
  end.

Definition eligible (now : Z) (scope : option (bytes * bytes)) (record : PendingRecordV1) : bool :=
  negb (is_expired record now) && scope_matches record scope.

(** The collected [BTreeSet], in order. *)
Definition replayable_sessions (pending : list PendingRecordV1) (now : Z)
    (scope : option (bytes * bytes)) : list bytes :=
  map_keys (foldl (λ set record, map_insert (p_session record) tt set) []
    (List.filter (eligible now scope) pending)).

Definition bytes_gt (a b : bytes) : bool :=
  match bytes_compare a b with Gt => true | _ => false end.

(** [ordered.iter().position(|session| *session > after)]. *)
Fixpoint position_after (after : bytes) (l : list bytes) : option nat :=
  match l with
  | [] => None
  | session :: l => if bytes_gt session after then Some O else S <$> position_after after l
  end.

(** [Vec::rotate_left(k)] for [k <= len]. *)
Definition rotate_left {A} (k : nat) (l : list A) : list A := drop k l ++ take k l.

Definition round_robin_after (sessions : list bytes) (after : option bytes) : list bytes :=
  match after with
  | Some after =>
    match position_after after sessions with
    | Some index => rotate_left index sessions
    | None => sessions
    end
  | None => sessions
  end.

(** The loop of [batch_for_session] over the remaining records, [index] being
    the position of the first of them. *)
Fixpoint batch_loop (pending : list PendingRecordV1) (index : nat) (session : bytes) (now : Z)
    (scope : option (bytes * bytes)) (records : list nat) (total : Z) :
    result (list nat) HookSpoolError :=
  match pending with
  | [] => Ok records
  | record :: pending =>
    if bool_decide (p_session record = session) && eligible now scope record then
      match checked_add u32_max total (p_framed_len record) with
      | None => Err ReplayBatchExceeded
      | Some next =>
        if (zlen records >=? MAX_REPLAY_BATCH_RECORDS) || (next >? MAX_REPLAY_BATCH_BYTES)
        then Ok records
        else batch_loop pending (S index) session now scope (records ++ [index]) next
      end
    else batch_loop pending (S index) session now scope records total
  end.

Definition batch_for_session (pending : list PendingRecordV1) (session : bytes) (now : Z)
    (scope : option (bytes * bytes)) : result (list nat) HookSpoolError :=
  batch_loop pending 0 session now scope [] 0.

(** ** Claim tokens *)
Definition rotate_left_u32 (x k : Z) : Z :=
  Z.lor (Z.land (Z.shiftl x k) u32_max) (Z.shiftr x (32 - k)).

(** [next_token] at the value of its process-wide counter. *)
Definition next_token (pid nonce : Z) : bytes :=
  to_le_bytes 8 nonce ++ to_le_bytes 4 pid
  ++ to_le_bytes 4 (rotate_left_u32 (Z.land nonce u32_max) 13).

(** ** The selection loop of [claim_replay_batches_in_scope] *)
Record Selection : Type := {
  s_session : bytes;
  s_claim_id : bytes;
  s_indices : list nat;
  s_byte_count : Z;
}.

(** [indices.iter().try_fold(0u32, ..)]; an index names a pending record. *)
Fixpoint byte_count (pending : list PendingRecordV1) (indices : list nat) (total : Z) :
    result Z HookSpoolError :=
  match indices with
  | [] => Ok total
  | index :: indices =>
    match checked_add u32_max total (default 0 (p_framed_len <$> pending !! index)) with
    | None => Err ReplayBatchExceeded
    | Some total => byte_count pending indices total
    end
  end.

Fixpoint select_loop (pending : list PendingRecordV1) (now : Z) (scope : option (bytes * bytes))
    (claims : list (bytes * bytes)) (session_cap : nat) (pid : Z) (ordered : list bytes)
    (nonce : Z) (selected : list Selection) : result (list Selection * Z) HookSpoolError :=
  match ordered with
  | [] => Ok (selected, nonce)
  | session :: ordered =>
    if (length selected =? session_cap)%nat
       || match map_get session claims with Some _ => true | None => false end
    then select_loop pending now scope claims session_cap pid ordered nonce selected
    else
      let? indices := batch_for_session pending session now scope in
      if is_empty indices
      then select_loop pending now scope claims session_cap pid ordered nonce selected
      else
        let? count := byte_count pending indices 0 in
        select_loop pending now scope claims session_cap pid ordered (nonce + 1)
          (selected ++ [{| s_session := session; s_claim_id := next_token pid nonce;
                           s_indices := indices; s_byte_count := count |}])
  end.

(** The batches a claim selects and the cursor it leaves; reading the selected
    frames back from the file happens in between and does not change them. *)
Definition select_batches (pending : list PendingRecordV1) (now : Z)
    (scope : option (bytes * bytes)) (claims : list (bytes * bytes)) (after : option bytes)
    (requested_sessions : nat) (pid nonce : Z) :
    result (list Selection * option bytes * Z) HookSpoolError :=
  let session_cap := Nat.min requested_sessions (Z.to_nat MAX_REPLAY_SESSIONS) in
  if (session_cap =? 0)%nat then Ok ([], after, nonce)
  else
    let candidates := replayable_sessions pending now scope in
    let ordered := round_robin_after candidates after in
    let? picked := select_loop pending now scope claims session_cap pid ordered nonce [] in
    let cursor :=
      match last (fst picked) with Some selection => Some (s_session selection) | None => after end in
    Ok (fst picked, cursor, snd picked).

(** ** Admission of an append *)
Definition pending_bytes (m : usage) : Z := foldr (λ e acc, snd (snd e) + acc) 0 m.

Definition control_family (f : HookEventFamily) : bool :=
  match f with SessionBoundaryFamily | PromptBoundaryFamily => true | _ => false end.

Definition ensure_append_capacity (config : HookSpoolConfigV1) (pending : list PendingRecordV1)
    (pending_by_session : usage) (e : HookEventEnvelopeV2) (frame_len : Z) :
    result unit HookSpoolError :=
  let control := control_family (family (event e)) in
  let limits := limits config in
  let host_record_limit :=
    if control then max_host_records limits
    else sat_sub (max_host_records limits) CONTROL_RECORD_RESERVE in
  let host_byte_limit :=
    if control then max_host_bytes limits
    else sat_sub (max_host_bytes limits) CONTROL_FRAME_RESERVE_BYTES in
  if zlen pending >? u32_max then Err SpoolFull
  else match checked_add u32_max (zlen pending) 1 with
  | None => Err SpoolFull
  | Some host_records =>
    if (host_records >? host_record_limit)
       || (sat_add u64_max (pending_bytes pending_by_session) frame_len >? host_byte_limit)
    then Err SpoolFull
    else
      let entry := usage_of (protected_session_id e) pending_by_session in
      let session_record_limit :=
        if control then max_session_records limits
        else sat_sub (max_session_records limits) CONTROL_RECORD_RESERVE in
      let session_byte_limit :=
        if control then max_session_bytes limits
        else sat_sub (max_session_bytes limits) CONTROL_FRAME_RESERVE_BYTES in
      if (sat_add u32_max (fst entry) 1 >? session_record_limit)
         || (sat_add u64_max (snd entry) frame_len >? session_byte_limit)
      then Err SpoolFull
      else Ok tt
  end.

Definition note_pending (pending : list PendingRecordV1) (pending_by_session : usage)
    (record : HookSpoolRecordV1) (file_offset : Z) :
    result (list PendingRecordV1 * usage) HookSpoolError :=
  let entry := usage_of (record_session record) pending_by_session in
  match checked_add u32_max (fst entry) 1 with
  | None => Err SpoolFull
  | Some count =>
    Ok (pending ++ [from_record record file_offset],
        map_insert (record_session record)
          (count, sat_add u64_max (snd entry) (framed_len record)) pending_by_session)
  end.

(** ** The writer lease *)
Record HookSpoolWriterLeaseV1 : Type := {
  token : bytes;
  expires_at : Z;
}.

Definition ensure_live_lease (lease : HookSpoolWriterLeaseV1) (now : Z) : result unit HookSpoolError :=
  if expires_at lease <=? now then Err WriterLeaseLost else Ok tt.

(** The lease of [acquire_lease_bounded] once the lock is held. *)
Definition new_lease (lease_duration_micros now pid nonce : Z) :
    result HookSpoolWriterLeaseV1 HookSpoolError :=
  match i64_checked_add now lease_duration_micros with
  | None => Err InvalidLease
  | Some expires_at => Ok {| token := next_token pid nonce; expires_at := expires_at |}
  end.

(** ** The batch of one session *)

(** The positions of a session's eligible records, oldest first. *)
Fixpoint session_indices (pending : list PendingRecordV1) (index : nat) (session : bytes) (now : Z)
    (scope : option (bytes * bytes)) : list nat :=
  match pending with
  | [] => []
  | record :: pending =>
    if bool_decide (p_session record = session) && eligible now scope record
    then index :: session_indices pending (S index) session now scope
    else session_indices pending (S index) session now scope
  end.

Lemma session_indices_elem pending index session now scope i :
  i ∈ session_indices pending index session now scope ↔
  ∃ r, (index <= i)%nat ∧ pending !! (i - index)%nat = Some r ∧ p_session r = session ∧
       eligible now scope r = true.
Proof.
  revert index. induction pending as [|r pending IH]; intros index; simpl.
  { split; [by intros ?%elem_of_nil|]. intros (r & _ & Hr & _). by rewrite lookup_nil in Hr. }
  assert (Htail : i ∈ session_indices pending (S index) session now scope ↔
    ∃ x, (index < i)%nat ∧ (r :: pending) !! (i - index)%nat = Some x ∧ p_session x = session ∧
         eligible now scope x = true).
  { rewrite IH. split; intros (x & Hi & Hx & ?); exists x;
      (split; [lia|]; split; [|done]); revert Hx; replace (i - index)%nat with (S (i - S index)) by lia;
      done. }
  destruct (bool_decide (p_session r = session) && eligible now scope r) eqn:E;
    rewrite ?elem_of_cons, Htail; clear IH Htail.
  - bools. split.
    + intros [->|(x & ? & ?)]; [|exists x; intuition lia].
      exists r. rewrite Nat.sub_diag. done.
    + intros (x & Hi & Hx & ?). destruct (decide (i = index)) as [->|]; [by left|].
      right. exists x. intuition lia.
  - split; intros (x & Hi & Hx & Hs & He); exists x; [intuition lia|].
    split_and!; try done. destruct (decide (i = index)) as [->|]; [|lia].
    rewrite Nat.sub_diag in Hx. injection Hx as ->. rewrite He, bool_decide_eq_true_2 in E by done. done.
Qed.

(** The framed bytes of the records at some positions. *)
Definition framed_at (pending : list PendingRecordV1) (indices : list nat) : Z :=
  foldr (λ i acc, default 0 (p_framed_len <$> pending !! i) + acc) 0 indices.

Lemma framed_at_app pending l k : framed_at pending (l ++ k) = framed_at pending l + framed_at pending k.
Proof. induction l as [|i l IH]; simpl; [done|]. unfold framed_at in *. lia. Qed.

(** The frames the code writes: a payload of one byte to 16 KiB. *)
Definition framed_ok (r : PendingRecordV1) : Prop :=
  FRAME_OVERHEAD < p_framed_len r <= FRAME_OVERHEAD + MAX_HOOK_PAYLOAD_BYTES.

Lemma framed_at_nonneg pending indices : Forall framed_ok pending → 0 <= framed_at pending indices.
Proof.
  intros Hf. induction indices as [|i l IH]; simpl; [done|]. unfold framed_at in *.
  destruct (pending !! i) as [r|] eqn:E; simpl; [|lia].
  pose proof (Forall_lookup_1 _ _ _ _ Hf E) as Hr. unfold framed_ok in Hr.
  assert (FRAME_OVERHEAD = 94) by done. lia.
Qed.

Lemma byte_count_framed_at pending indices total :
  Forall framed_ok pending → 0 <= total → total + framed_at pending indices <= u32_max →
  byte_count pending indices total = Ok (total + framed_at pending indices).
Proof.
  intros Hf. revert total. induction indices as [|i l IH]; intros total Ht Hs; simpl.
  { f_equal. unfold framed_at. simpl. lia. }
  assert (framed_at pending (i :: l) = default 0 (p_framed_len <$> pending !! i) + framed_at pending l) as E by done.
  pose proof (framed_at_nonneg pending l Hf). pose proof (framed_at_nonneg pending [i] Hf) as Hi.
  unfold framed_at in Hi. simpl in Hi.
  unfold checked_add. rewrite bool_decide_eq_true_2 by lia. rewrite IH by lia. f_equal. lia.
Qed.

Lemma batch_loop_spec suffix prefix session now scope records total :
  Forall framed_ok (prefix ++ suffix) → zlen records <= 64 → total = framed_at (prefix ++ suffix) records →
  total <= 262144 →
  ∃ more rest, batch_loop suffix (length prefix) session now scope records total = Ok (records ++ more) ∧
    session_indices suffix (length prefix) session now scope = more ++ rest ∧
    zlen (records ++ more) <= 64 ∧ framed_at (prefix ++ suffix) (records ++ more) <= 262144 ∧
    (∀ i, head rest = Some i → zlen (records ++ more) = 64 ∨
       framed_at (prefix ++ suffix) (records ++ more ++ [i]) > 262144).
Proof.
  revert prefix records total. induction suffix as [|r suffix IH]; intros prefix records total Hf Hn Ht Hb.
  { exists [], []. simpl. rewrite !app_nil_r in *. subst total. split_and!; done. }
  assert (Hr : (prefix ++ r :: suffix) !! length prefix = Some r) by by apply list_lookup_middle.
  assert (Hcut : (prefix ++ [r]) ++ suffix = prefix ++ r :: suffix) by by rewrite <- app_assoc.
  assert (Hlen : length (prefix ++ [r]) = S (length prefix)) by (rewrite length_app; simpl; lia).
  specialize (IH (prefix ++ [r])). rewrite Hcut, Hlen in IH.
  pose proof (Forall_lookup_1 _ _ _ _ Hf Hr) as Hfr. unfold framed_ok in Hfr.
  assert (FRAME_OVERHEAD = 94) by done. unfold MAX_HOOK_PAYLOAD_BYTES in Hfr.
  pose proof (framed_at_nonneg _ records Hf).
  assert (Hone : framed_at (prefix ++ r :: suffix) [length prefix] = p_framed_len r).
  { unfold framed_at. simpl. rewrite Hr. simpl. lia. }
  cbn [batch_loop session_indices].
  destruct (bool_decide (p_session r = session) && eligible now scope r); [|by apply IH].
  unfold checked_add. rewrite bool_decide_eq_true_2 by (unfold u32_max; lia).
  unfold MAX_REPLAY_BATCH_RECORDS, MAX_REPLAY_BATCH_BYTES. rewrite Z.geb_leb, Z.gtb_ltb.
  destruct (Z.leb_spec 64 (zlen records)); simpl.
  { exists [], (length prefix :: session_indices suffix (S (length prefix)) session now scope).
    rewrite app_nil_r. subst total. split_and!; try done. intros i [= <-]. left. lia. }
  destruct (Z.ltb_spec (256 * 1024) (total + p_framed_len r)); simpl.
  { exists [], (length prefix :: session_indices suffix (S (length prefix)) session now scope).
    rewrite app_nil_r. subst total. split_and!; try done. intros i [= <-]. right. simpl.
    rewrite framed_at_app, Hone. lia. }
  destruct (IH (records ++ [length prefix]) (total + p_framed_len r)) as (more & rest & B & S & N & F & M).
  - done.
  - rewrite zlen_app. unfold zlen at 2. simpl. lia.
  - rewrite framed_at_app, Hone. lia.
  - lia.
  - rewrite <- !app_assoc in *. simpl in *. exists (length prefix :: more), rest. simpl.
    rewrite B, S. split_and!; try done. intros i Hi. specialize (M i Hi). rewrite <- !app_assoc in M.
    simpl in M. exact M.
Qed.

(** The batch, for the selection and the theorem below. *)
Lemma batch_for_session_spec pending session now scope :
  Forall framed_ok pending →
  ∃ indices rest, batch_for_session pending session now scope = Ok indices ∧
    session_indices pending 0 session now scope = indices ++ rest ∧
    zlen indices <= 64 ∧ framed_at pending indices <= 262144 ∧
    byte_count pending indices 0 = Ok (framed_at pending indices) ∧
    (∀ i, head rest = Some i →
       zlen indices = 64 ∨ framed_at pending (indices ++ [i]) > 262144) ∧
    (indices = [] → ∀ r, r ∈ pending → p_session r = session → eligible now scope r = false).
Proof.
  intros Hf. destruct (batch_loop_spec pending [] session now scope [] 0) as
    (indices & rest & B & S & N & F & M); [done|unfold zlen; simpl; lia|done|lia|].
  simpl in *. exists indices, rest. split_and!; try done.
  - rewrite byte_count_framed_at; [done..|unfold u32_max; lia].
  - intros -> r Hr Hs. destruct (eligible now scope r) eqn:E; [|done]. exfalso.
    apply list_elem_of_lookup in Hr as [i Hi].
    assert (i ∈ session_indices pending 0 session now scope) as Hin.
    { apply session_indices_elem. exists r. rewrite Nat.sub_0_r. split_and!; [lia|done..]. }
    rewrite S in Hin. simpl in Hin. destruct rest as [|j rest]; [by apply elem_of_nil in Hin|].
    destruct (M j eq_refl) as [M0|M0]; [done|]. simpl in M0.
    assert (j ∈ session_indices pending 0 session now scope) as Hj by (rewrite S; by left).
    apply session_indices_elem in Hj as (x & _ & Hx & _). rewrite Nat.sub_0_r in Hx.
    pose proof (Forall_lookup_1 _ _ _ _ Hf Hx) as Hfx. unfold framed_ok, MAX_HOOK_PAYLOAD_BYTES in Hfx.
    assert (FRAME_OVERHEAD = 94) by done. rewrite Hx in M0. simpl in M0. lia.
Qed.

(** ** Fairness of the rotation *)
Definition sessions_sorted (l : list bytes) : Prop :=
  StronglySorted (λ a b, bytes_compare a b = Lt) l.

Lemma bytes_gt_spec a b : bytes_gt a b = true ↔ bytes_compare b a = Lt.
Proof. unfold bytes_gt. rewrite (bytes_compare_antisym a b). by destruct (bytes_compare a b). Qed.

Lemma bytes_lt_trichotomy a b :
  bytes_compare a b = Lt ∨ a = b ∨ bytes_compare b a = Lt.
Proof.
  rewrite (bytes_compare_antisym a b). destruct (bytes_compare a b) eqn:E; [|by left|by right; right].
  right. left. by apply bytes_compare_eq.
Qed.

Lemma bytes_lt_irrefl a : bytes_compare a a ≠ Lt.
Proof. by rewrite bytes_compare_refl. Qed.

(** Saturates the comparisons at hand by transitivity. *)
Ltac bytes_order :=
  repeat match goal with
  | H : bytes_compare ?a ?a = Lt |- _ => destruct (bytes_lt_irrefl a H)
  | H1 : bytes_compare ?a ?b = Lt, H2 : bytes_compare ?b ?c = Lt |- _ =>
    lazymatch goal with
    | _ : bytes_compare a c = Lt |- _ => fail
    | _ => pose proof (bytes_compare_lt_trans a b c H1 H2)
    end
  end; try done.

(** [x] is visited before [target] when the sessions are taken in order from
    the one after the cursor, wrapping around. *)
Definition ahead (after : option bytes) (target x : bytes) : Prop :=
  match after with
  | None => bytes_compare x target = Lt
  | Some a =>
    (bytes_compare a x = Lt ∧ bytes_compare x target = Lt) ∨
    (bytes_compare a target ≠ Lt ∧ (bytes_compare a x = Lt ∨ bytes_compare x target = Lt))
  end.

#[export] Instance ahead_decision after target x : Decision (ahead after target x).
Proof. unfold ahead. destruct after; apply _. Defined.

Lemma ahead_irrefl after x : ¬ ahead after x x.
Proof. unfold ahead. destruct after as [a|]; intros H; intuition bytes_order. Qed.

(** Moving the cursor to a session [z] visited before the target leaves ahead
    only sessions that were ahead, and none of those up to [z]. *)
Lemma ahead_advance after target z x :
  ahead after target z → ahead (Some z) target x → ahead after target x ∧ x ≠ z ∧ ¬ ahead after z x.
Proof.
  unfold ahead. intros Hz Hx. destruct after as [a|].
  - destruct (bytes_lt_trichotomy a target) as [?|[<-|?]], (bytes_lt_trichotomy a z) as [?|[<-|?]],
      (bytes_lt_trichotomy a x) as [?|[<-|?]]; intuition (subst; bytes_order).
  - destruct (bytes_lt_trichotomy x z) as [?|[->|?]]; intuition (subst; bytes_order).
Qed.

(** The cursor splits a sorted set at [position_after]. *)
Lemma position_after_cut a l :
  sessions_sorted l →
  let i := default (length l) (position_after a l) in
  Forall (λ x, bytes_compare a x ≠ Lt) (take i l) ∧ Forall (λ x, bytes_compare a x = Lt) (drop i l).
Proof.
  intros Hs. induction Hs as [|x l Hl IH Hx]; simpl; [done|]. destruct (bytes_gt x a) eqn:E; simpl.
  - apply bytes_gt_spec in E. split; [done|]. constructor; [done|].
    eapply Forall_impl; [exact Hx|]. intros y Hy. by eapply bytes_compare_lt_trans.
  - assert (bytes_compare a x ≠ Lt) by (intros ?%bytes_gt_spec; congruence).
    destruct (position_after a l) as [k|]; simpl in *; destruct IH; by split; [constructor|].
Qed.

(** In the order of [round_robin_after] every session comes after exactly the
    ones ahead of it. *)
Lemma round_robin_ahead l after :
  sessions_sorted l → StronglySorted (λ x y, ahead after y x) (round_robin_after l after).
Proof.
  intros Hs. destruct after as [a|]; [|exact Hs].
  destruct (position_after_cut a l Hs) as [Hlo Hhi]. rewrite Forall_forall in Hlo, Hhi.
  assert (Heq : round_robin_after l (Some a) =
    drop (default (length l) (position_after a l)) l ++ take (default (length l) (position_after a l)) l).
  { unfold round_robin_after, rotate_left. destruct (position_after a l); simpl; [done|].
    by rewrite drop_all, firstn_all. }
  rewrite Heq. clear Heq. set (i := default _ _) in *.
  rewrite <- (take_drop i l) in Hs. apply StronglySorted_app in Hs as (_ & S1 & S2).
  apply StronglySorted_app_2.
  - intros x y Hx%Hhi Hy%Hlo. right. split; [done|by left].
  - clear -S2 Hhi. induction S2 as [|x k Hk IH Hx]; constructor.
    + apply IH. intros y Hy. apply Hhi. by right.
    + rewrite Forall_forall in *. intros y Hy. left. split; [apply Hhi; by left|by apply Hx].
  - clear -S1 Hlo. induction S1 as [|x k Hk IH Hx]; constructor.
    + apply IH. intros y Hy. apply Hlo. by right.
    + rewrite Forall_forall in *. intros y Hy. right. split; [apply Hlo; by right|right; by apply Hx].
Qed.

Lemma round_robin_elem l after s : s ∈ round_robin_after l after ↔ s ∈ l.
Proof.
  unfold round_robin_after, rotate_left. destruct after as [a|]; [|done].
  destruct (position_after a l) as [i|]; [|done].
  rewrite <- (take_drop i l) at 3. rewrite !elem_of_app. tauto.
Qed.

Lemma strongly_sorted_filter {A} (R : relation A) (P : A → Prop) `{!∀ x, Decision (P x)} l :
  StronglySorted R l → StronglySorted R (filter P l).
Proof.
  induction 1 as [|x l Hl IH Hx]; [constructor|]. rewrite filter_cons.
  case_decide; [|done]. constructor; [done|]. rewrite Forall_forall in *.
  intros y [_ Hy]%list_elem_of_filter. by apply Hx.
Qed.

(** The sessions of an order that no outstanding claim holds. *)
Definition unclaimed (claims : list (bytes * bytes)) (ordered : list bytes) : list bytes :=
  filter (λ s, map_get s claims = None) ordered.

(** The loop takes the first sessions of its order that are not claimed. *)
Lemma select_loop_takes pending now scope claims cap pid ordered nonce selected :
  Forall framed_ok pending →
  (∀ s, s ∈ ordered → ∃ r, r ∈ pending ∧ p_session r = s ∧ eligible now scope r = true) →
  (length selected <= cap)%nat →
  ∃ more nonce', select_loop pending now scope claims cap pid ordered nonce selected =
                   Ok (selected ++ more, nonce') ∧
    s_session <$> more = take (cap - length selected) (unclaimed claims ordered).
Proof.
  intros Hf. unfold unclaimed. revert nonce selected.
  induction ordered as [|s ordered IH]; intros nonce selected He Hc; simpl.
  { exists [], nonce. rewrite app_nil_r, filter_nil, take_nil. done. }
  assert (He' : ∀ x, x ∈ ordered → ∃ r, r ∈ pending ∧ p_session r = x ∧ eligible now scope r = true)
    by (intros x Hx; apply He; by right).
  rewrite filter_cons. destruct (Nat.eqb_spec (length selected) cap) as [E|E]; simpl.
  { destruct (IH nonce selected He' Hc) as (more & n' & I1 & I2).
    exists more, n'. rewrite E, Nat.sub_diag, take_0 in *. done. }
  destruct (map_get s claims) as [held|]; [by rewrite decide_False by done; apply IH|].
  rewrite decide_True by done.
  destruct (batch_for_session_spec pending s now scope Hf) as (indices & rest & B1 & _ & _ & _ & B5 & _ & B7).
  rewrite B1. destruct indices as [|i indices].
  { destruct (He s ltac:(by left)) as (r & R1 & R2 & R3).
    specialize (B7 eq_refl r R1 R2). congruence. }
  rewrite B5. cbn [is_empty]. set (new := {| s_session := s |}).
  destruct (IH (nonce + 1) (selected ++ [new]) He') as (more & n' & I1 & I2).
  - rewrite length_app. simpl. lia.
  - exists (new :: more), n'. rewrite I1, <- app_assoc. split; [done|].
    rewrite length_app in I2. simpl in I2. rewrite fmap_cons, I2.
    by replace (cap - length selected)%nat with (S (cap - (length selected + 1))) by lia.
Qed.

(** The replay batch of a session is a maximal bounded FIFO prefix. Over
    records with frames of the code's own, [batch_for_session] succeeds with
    the oldest eligible records of exactly that session, none skipped: at most
    64 records and 256 KiB, and it stops only because the next record would
    break one of the two bounds. A session with an eligible record therefore
    always makes progress. *)
Theorem batch_for_session_maximal_prefix pending session now scope :
  Forall framed_ok pending →
  ∃ indices rest, batch_for_session pending session now scope = Ok indices ∧
    session_indices pending 0 session now scope = indices ++ rest ∧
    zlen indices <= 64 ∧ framed_at pending indices <= 262144 ∧
    byte_count pending indices 0 = Ok (framed_at pending indices) ∧
    (∀ i, head rest = Some i →
       zlen indices = 64 ∨ framed_at pending (indices ++ [i]) > 262144) ∧
    (indices = [] → ∀ r, r ∈ pending → p_session r = session → eligible now scope r = false).
Proof. apply batch_for_session_spec. Qed.

Lemma replayable_sessions_spec pending now scope :
  sessions_sorted (replayable_sessions pending now scope) ∧
  ∀ s, s ∈ replayable_sessions pending now scope ↔
       ∃ r, r ∈ pending ∧ p_session r = s ∧ eligible now scope r = true.
Proof.
  unfold replayable_sessions.
  assert (Hfold : ∀ (l : list PendingRecordV1) (m : list (bytes * unit)), map_sorted m →
    let m' := foldl (λ set record, map_insert (p_session record) tt set) m l in
    map_sorted m' ∧ ∀ s, s ∈ map_keys m' ↔ s ∈ map_keys m ∨ s ∈ p_session <$> l).
  { induction l as [|r l IH]; intros m Hm; simpl.
    { split; [done|]. intros s. split; [by left|]. intros [?|?%elem_of_nil]; done. }
    destruct (IH (map_insert (p_session r) tt m)) as [I1 I2]; [by apply map_insert_sorted|].
    split; [done|]. intros s. rewrite I2, map_insert_keys, elem_of_cons. tauto. }
  destruct (Hfold (List.filter (eligible now scope) pending) []) as [F1 F2]; [constructor|].
  split; [exact F1|]. intros s. rewrite F2. split.
  - intros [?%elem_of_nil|(r & -> & Hr)%list_elem_of_fmap]; [done|].
    apply list_elem_of_In, filter_In in Hr as [Hr He]. exists r. by rewrite list_elem_of_In.
  - intros (r & Hr & <- & He). right. apply list_elem_of_fmap_2, list_elem_of_In, filter_In.
    by rewrite <- list_elem_of_In.
Qed.

(** What one claim finds: the pending records, the clock and the scope of the
    call, the outstanding claims, and the sessions it asks for. Between two
    claims records arrive, settle and expire and claims are released, so each
    claim has its own; the handle keeps the cursor and the token counter. *)
Record ReplayClaim : Type := {
  c_pending : list PendingRecordV1;
  c_now : Z;
  c_scope : option (bytes * bytes);
  c_claims : list (bytes * bytes);
  c_requested : nat;
}.

Definition claim_cap (c : ReplayClaim) : nat := Nat.min (c_requested c) 4.

Fixpoint replay_claims (claims : list ReplayClaim) (after : option bytes) (pid nonce : Z) :
    result (list (list Selection)) HookSpoolError :=
  match claims with
  | [] => Ok []
  | c :: claims =>
    let? claimed := select_batches (c_pending c) (c_now c) (c_scope c) (c_claims c) after
                      (c_requested c) pid nonce in
    let? rest := replay_claims claims (claimed.1.2) pid (claimed.2) in
    Ok (claimed.1.1 :: rest)
  end.

(** The sessions a claim can still hand out before [target] is reached. *)
Definition waiting (ids : gset bytes) (after : option bytes) (target : bytes) : nat :=
  size (filter (ahead after target) ids).

Lemma waiting_lt ids after target : target ∈ ids → (waiting ids after target < size ids)%nat.
Proof.
  intros Hin. unfold waiting. apply subset_size. split; [set_solver|].
  intros Hsub. specialize (Hsub target Hin). apply elem_of_filter in Hsub as [Ha _].
  by apply ahead_irrefl in Ha.
Qed.

(** Taking [cap] sessions of the order either reaches the target or moves the
    cursor past [cap] sessions that were ahead of it. *)
Lemma take_advances ids after target l cap :
  StronglySorted (λ x y, ahead after y x) l → (∀ x, x ∈ l → x ∈ ids) → target ∈ l →
  target ∉ take cap l → (0 < cap)%nat →
  ∃ z, last (take cap l) = Some z ∧ (waiting ids (Some z) target + cap <= waiting ids after target)%nat.
Proof.
  intros Hs Hids Hin Hnot Hcap. apply list_elem_of_split in Hin as (pre & post & ->).
  assert (cap <= length pre)%nat as Hle.
  { destruct (decide (cap <= length pre)%nat); [done|]. destruct Hnot.
    rewrite take_app_ge by lia. apply elem_of_app. right.
    replace (cap - length pre)%nat with (S (cap - length pre - 1)) by lia. by left. }
  rewrite take_app_le in * by done.
  assert (Hlen : length (take cap pre) = cap) by (rewrite length_take; lia).
  assert (Hsub : ∀ x, x ∈ take cap pre → x ∈ pre)
    by (intros x Hx; rewrite <- (take_drop cap pre); apply elem_of_app; by left).
  pose proof (StronglySorted_app_1_l _ _ _ Hs) as Hp. rewrite <- (take_drop cap pre) in Hp.
  apply StronglySorted_app_1_l in Hp.
  destruct (last (take cap pre)) as [z|] eqn:El; [|apply last_None in El; rewrite El in Hlen; simpl in Hlen; lia].
  apply last_Some in El as [init El]. exists z. split; [done|].
  assert (Hahead : ∀ x, x ∈ take cap pre → ahead after target x).
  { intros x Hx%Hsub. by apply (StronglySorted_app_1_elem_of _ _ _ _ _ Hs Hx); left. }
  assert (Hz : ahead after target z) by (apply Hahead; rewrite El; apply elem_of_app; right; by left).
  assert (Hbefore : ∀ x, x ∈ take cap pre → x = z ∨ ahead after z x).
  { intros x Hx. rewrite El in Hx, Hp. apply elem_of_app in Hx as [Hx|Hx%list_elem_of_singleton]; [right|by left].
    by apply (StronglySorted_app_1_elem_of _ _ _ _ _ Hp Hx); left. }
  assert (NoDup (take cap pre)) as Hnd.
  { clear -Hp. induction Hp as [|x k _ IH Hx]; constructor; [|done].
    intros Hin. rewrite Forall_forall in Hx. by apply Hx, ahead_irrefl in Hin. }
  unfold waiting. rewrite <- Hlen at 1. rewrite <- (size_list_to_set (C := gset bytes)) by done.
  rewrite <- size_union.
  - apply subseteq_size. intros x [[Hx ?]%elem_of_filter|Hx%elem_of_list_to_set]%elem_of_union;
      apply elem_of_filter.
    + split; [|done]. by destruct (ahead_advance after target z x Hz Hx).
    + split; [by apply Hahead|]. apply Hids, elem_of_app. left. by apply Hsub.
  - intros x [Hx _]%elem_of_filter Hin%elem_of_list_to_set.
    destruct (ahead_advance after target z x Hz Hx) as (_ & Hne & Hna).
    by destruct (Hbefore x Hin).
Qed.

(** What one claim does for a session that waits. *)
Lemma select_batches_serves ids after target c pid nonce :
  Forall framed_ok (c_pending c) →
  (∀ s, s ∈ replayable_sessions (c_pending c) (c_now c) (c_scope c) → s ∈ ids) →
  target ∈ replayable_sessions (c_pending c) (c_now c) (c_scope c) →
  map_get target (c_claims c) = None →
  ∃ picked cursor nonce',
    select_batches (c_pending c) (c_now c) (c_scope c) (c_claims c) after (c_requested c) pid nonce =
      Ok (picked, cursor, nonce') ∧
    ((∃ x, x ∈ picked ∧ s_session x = target) ∨
     (waiting ids cursor target + claim_cap c <= waiting ids after target)%nat).
Proof.
  intros Hf Hids Hin Hfree. set (l := replayable_sessions _ _ _) in *. unfold select_batches, claim_cap.
  change (Z.to_nat MAX_REPLAY_SESSIONS) with 4%nat. set (cap := (c_requested c `min` 4)%nat).
  destruct (Nat.eqb_spec cap 0) as [->|Hcap]; [exists [], after, nonce; split; [done|right; lia]|].
  cbv zeta. fold l. destruct (replayable_sessions_spec (c_pending c) (c_now c) (c_scope c)) as [Hs He].
  fold l in Hs, He.
  destruct (select_loop_takes (c_pending c) (c_now c) (c_scope c) (c_claims c) cap pid
    (round_robin_after l after) nonce []) as (picked & nonce' & P1 & P2); [done| |simpl; lia|].
  { intros s Hx. by apply He, (round_robin_elem l after). }
  rewrite P1. cbn [fst snd app length] in *. rewrite Nat.sub_0_r in P2.
  eexists _, _, _. split; [reflexivity|].
  destruct (decide (target ∈ s_session <$> picked)) as [(x & -> & Hx)%list_elem_of_fmap|Hnot];
    [left; by exists x|right].
  destruct (take_advances ids after target (unclaimed (c_claims c) (round_robin_after l after)) cap)
    as (z & Hz & Hw).
  - by apply strongly_sorted_filter, round_robin_ahead.
  - intros x [_ Hx%round_robin_elem]%list_elem_of_filter. by apply Hids.
  - apply list_elem_of_filter. split; [done|]. by apply round_robin_elem.
  - by rewrite <- P2.
  - lia.
  - rewrite <- P2, fmap_last in Hz. destruct (last picked) as [y|]; [|done]. by injection Hz as ->.
Qed.

Lemma replay_claims_serve ids target pid claims after nonce :
  Forall (λ c, Forall framed_ok (c_pending c) ∧
    (∀ s, s ∈ replayable_sessions (c_pending c) (c_now c) (c_scope c) → s ∈ ids) ∧
    target ∈ replayable_sessions (c_pending c) (c_now c) (c_scope c) ∧
    map_get target (c_claims c) = None) claims →
  ∃ rounds, replay_claims claims after pid nonce = Ok rounds ∧
    ((∃ x, x ∈ concat rounds ∧ s_session x = target) ∨
     (sum_list (claim_cap <$> claims) <= waiting ids after target)%nat).
Proof.
  intros Hall. revert after nonce. induction Hall as [|c claims (Hf & Hids & Hin & Hfree) _ IH];
    intros after nonce; [exists []; split; [done|right; simpl; lia]|].
  destruct (select_batches_serves ids after target c pid nonce Hf Hids Hin Hfree) as
    (picked & cursor & nonce' & S1 & S2).
  cbn [replay_claims]. rewrite S1. cbn [fst snd]. destruct (IH cursor nonce') as (rounds & R1 & R2).
  rewrite R1. exists (picked :: rounds). split; [done|]. rewrite fmap_cons. cbn [concat sum_list].
  destruct S2 as [(x & Hx & Hs)|S2]; [left; exists x; split; [apply elem_of_app; by left|done]|].
  destruct R2 as [(x & Hx & Hs)|R2]; [left; exists x; split; [apply elem_of_app; by right|done]|].
  right. simpl. lia.
Qed.

(** C22. Replay is fair. Take any sequence of claims, each over its own pending
    records, clock, scope, outstanding claims and number of sessions asked for
    (records arrive, settle and expire and claims are released in between),
    with only the cursor and the token counter carried from one to the next.
    Let every session that is replayable at one of them be one of the [n] of
    [ids]. A session that has an eligible record and no outstanding claim at
    each of them is handed out by one of them as soon as the claims ask for
    [n] sessions in all, at most four counted per claim: with a constant
    request that is the ceiling of [n / min(requested, 4)] claims, whatever
    the cursor was at the start. *)
Theorem replay_serves_every_session (ids : gset bytes) session claims after pid nonce :
  Forall (λ c, Forall framed_ok (c_pending c)) claims →
  Forall (λ c, ∀ r, r ∈ c_pending c → eligible (c_now c) (c_scope c) r = true → p_session r ∈ ids) claims →
  Forall (λ c, map_get session (c_claims c) = None ∧
    ∃ r, r ∈ c_pending c ∧ p_session r = session ∧ eligible (c_now c) (c_scope c) r = true) claims →
  (0 < size ids <= sum_list (claim_cap <$> claims))%nat →
  ∃ rounds x, replay_claims claims after pid nonce = Ok rounds ∧
    x ∈ concat rounds ∧ s_session x = session.
Proof.
  intros Hf Hids Hs Hn. destruct (replay_claims_serve ids session pid claims after nonce) as
    (rounds & R1 & [(x & R2 & R3)|R2]).
  - rewrite !Forall_forall in *. intros c Hc. destruct (Hs c Hc) as [Hfree Hr]. split_and!; [by apply Hf| |by apply replayable_sessions_spec|done].
    intros s (r & Hr1 & <- & Hr2)%replayable_sessions_spec. by apply (Hids c).
  - by exists rounds, x.
  - destruct claims as [|c claims]; [simpl in Hn; lia|]. exfalso.
    apply Forall_cons in Hs as [(_ & r & Hr1 & <- & Hr2) _]. apply Forall_cons in Hids as [Hids _].
    pose proof (waiting_lt ids after (p_session r) (Hids r Hr1 Hr2)). lia.
Qed.

(** ** Quotas *)

(** The records and framed bytes of one session, and of all of them. *)
Fixpoint session_usage (session : bytes) (pending : list PendingRecordV1) : Z * Z :=
  match pending with
  | [] => (0, 0)
  | r :: pending =>
    let u := session_usage session pending in
    if bool_decide (p_session r = session) then (fst u + 1, snd u + p_framed_len r) else u
  end.

Definition total_bytes (pending : list PendingRecordV1) : Z :=
  foldr (λ r acc, p_framed_len r + acc) 0 pending.

Lemma usage_of_insert s k v (m : usage) :
  usage_of s (map_insert k v m) = if bool_decide (k = s) then v else usage_of s m.
Proof.
  unfold usage_of. case_bool_decide as E.
  - subst. by rewrite map_get_insert_eq.
  - by rewrite map_get_insert_ne by congruence.
Qed.

Lemma pending_bytes_insert k v (m : usage) :
  map_sorted m → pending_bytes (map_insert k v m) = pending_bytes m - snd (usage_of k m) + snd v.
Proof.
  unfold map_sorted, usage_of. induction m as [|[k' v'] m IH]; simpl; intros Hs; [lia|].
  apply StronglySorted_inv in Hs as [Hs Hlt].
  destruct (cmp k k') eqn:E; simpl; simpl in E; rewrite ?E; simpl.
  - lia.
  - assert (map_get k m = None) as ->; [|simpl; lia].
    apply map_get_None. intros Hin. rewrite Forall_forall in Hlt. specialize (Hlt k Hin).
    unfold key_lt in Hlt. simpl in Hlt. rewrite (bytes_compare_antisym k k'), E in Hlt. done.
  - rewrite IH by done. lia.
Qed.

(** The table describes the records it was computed from. *)
Lemma usage_loop_spec limits records m m' done_ :
  max_session_records limits <= u32_max → max_session_bytes limits < u64_max →
  Forall framed_ok (done_ ++ records) → map_sorted m →
  (∀ s, usage_of s m = session_usage s done_) → pending_bytes m = total_bytes done_ →
  usage_loop limits records m = Ok m' →
  map_sorted m' ∧ (∀ s, usage_of s m' = session_usage s (done_ ++ records)) ∧
  pending_bytes m' = total_bytes (done_ ++ records).
Proof.
  intros Hl1 Hl2. revert m done_. induction records as [|r records IH]; intros m done_ Hf Hs Hu Hp; simpl.
  { intros [= <-]. rewrite app_nil_r. done. }
  unfold checked_add. case_bool_decide as Hc; [|done]. destruct (_ || _) eqn:E; [done|].
  bools. rewrite !Z.gtb_ltb, !Z.ltb_ge in *. intros Hm.
  assert (Hd : ∀ s, session_usage s (done_ ++ [r]) =
    if bool_decide (p_session r = s)
    then (fst (session_usage s done_) + 1, snd (session_usage s done_) + p_framed_len r)
    else session_usage s done_).
  { intros s. clear. induction done_ as [|x l IH]; simpl; [by case_bool_decide|].
    rewrite IH. repeat case_bool_decide; simpl; try done. f_equal; lia. }
  assert (Ht : total_bytes (done_ ++ [r]) = total_bytes done_ + p_framed_len r).
  { clear. unfold total_bytes. induction done_ as [|x l IH]; simpl; lia. }
  assert (Hsat : sat_add u64_max (snd (usage_of (p_session r) m)) (p_framed_len r) =
    snd (usage_of (p_session r) m) + p_framed_len r) by (unfold sat_add in *; lia).
  rewrite Hsat in Hm. apply (IH _ (done_ ++ [r])) in Hm.
  - by rewrite <- app_assoc in Hm.
  - by rewrite <- app_assoc.
  - by apply map_insert_sorted.
  - intros s. rewrite usage_of_insert, Hd, !Hu. by case_bool_decide as Es; [rewrite Es|].
  - rewrite pending_bytes_insert by done. simpl. lia.
Qed.

Lemma usage_by_session_spec limits pending m :
  max_session_records limits <= u32_max → max_session_bytes limits < u64_max →
  Forall framed_ok pending → usage_by_session pending limits = Ok m →
  map_sorted m ∧ (∀ s, usage_of s m = session_usage s pending) ∧
  pending_bytes m = total_bytes pending.
Proof.
  intros Hl1 Hl2 Hf Hm. apply (usage_loop_spec _ _ _ _ [] Hl1 Hl2 Hf) in Hm; [done|constructor|done|done].
Qed.

Lemma usage_loop_app limits l k m :
  usage_loop limits (l ++ k) m =
  match usage_loop limits l m with Ok m' => usage_loop limits k m' | Err e => Err e end.
Proof.
  revert m. induction l as [|r l IH]; intros m; simpl; [done|].
  destruct (checked_add _ _ _); [|done]. destruct (_ || _); [done|apply IH].
Qed.

(** The host's and the sessions' use is within the limits. *)
Definition within_quota (limits : HookSpoolLimitsV1) (pending : list PendingRecordV1) : Prop :=
  zlen pending <= max_host_records limits ∧ total_bytes pending <= max_host_bytes limits ∧
  ∀ s, fst (session_usage s pending) <= max_session_records limits ∧
       snd (session_usage s pending) <= max_session_bytes limits.

Lemma session_usage_nonneg s pending :
  Forall framed_ok pending →
  0 <= fst (session_usage s pending) <= zlen pending ∧
  0 <= snd (session_usage s pending) <= total_bytes pending.
Proof.
  unfold framed_ok. assert (FRAME_OVERHEAD = 94) by done.
  induction 1 as [|r l Hr _ IH]; simpl; [done|]. rewrite zlen_cons. unfold total_bytes in *. simpl.
  case_bool_decide; simpl; lia.
Qed.

Lemma session_usage_snoc s pending r :
  session_usage s (pending ++ [r]) =
  if bool_decide (p_session r = s)
  then (fst (session_usage s pending) + 1, snd (session_usage s pending) + p_framed_len r)
  else session_usage s pending.
Proof.
  induction pending as [|x l IH]; simpl; [by case_bool_decide|].
  rewrite IH. repeat case_bool_decide; simpl; try done. f_equal; lia.
Qed.

Lemma total_bytes_snoc pending r : total_bytes (pending ++ [r]) = total_bytes pending + p_framed_len r.
Proof. unfold total_bytes. induction pending as [|x l IH]; simpl; lia. Qed.

(** What an admitted append satisfied, with no saturation left. *)
Lemma ensure_append_capacity_inv config pending m e frame_len :
  config_validate config = Ok tt → Forall framed_ok pending →
  usage_by_session pending (limits config) = Ok m →
  94 < frame_len <= 94 + 16384 →
  let slack := if control_family (family (event e)) then 0 else 1 in
  let byte_slack := if control_family (family (event e)) then 0 else 4096 in
  let u := session_usage (protected_session_id e) pending in
  ensure_append_capacity config pending m e frame_len = Ok tt ↔
  zlen pending + 1 <= max_host_records (limits config) - slack ∧
  total_bytes pending + frame_len <= max_host_bytes (limits config) - byte_slack ∧
  fst u + 1 <= max_session_records (limits config) - slack ∧
  snd u + frame_len <= max_session_bytes (limits config) - byte_slack.
Proof.
  intros Hc Hf Hm Hl slack byte_slack u.
  apply config_validate_bounds in Hc as (B1 & B2 & B3 & B4 & _).
  unfold MAX_SPOOL_BYTES_PER_HOST, MAX_SPOOL_RECORDS_PER_HOST in *.
  apply usage_by_session_spec in Hm as (_ & Hu & Hp); [|unfold u32_max, u64_max; lia..|done].
  pose proof (session_usage_nonneg (protected_session_id e) pending Hf) as Hn. fold u in Hn.
  unfold ensure_append_capacity. rewrite Hu, Hp. fold u. cbv zeta.
  unfold CONTROL_RECORD_RESERVE, CONTROL_FRAME_RESERVE_BYTES, sat_add, sat_sub, checked_add,
    u32_max, u64_max.
  assert (0 <= slack ∧ 0 <= byte_slack) as [? ?]
    by (subst slack byte_slack; destruct (control_family _); lia).
  rewrite !Z.gtb_ltb.
  destruct (Z.ltb_spec 4294967295 (zlen pending)); [split; [done|lia]|].
  case_bool_decide; [|split; [done|lia]].
  subst slack byte_slack. destruct (control_family (family (event e)));
    (case_step; [split; [done|]|case_step; [split; [done|]|split; [intros _|done]]]);
    repeat match goal with
    | H : _ || _ = true |- _ => apply orb_true_iff in H; rewrite !Z.ltb_lt in H
    | H : _ || _ = false |- _ => apply orb_false_iff in H; rewrite !Z.ltb_ge in H
    end; lia.
Qed.

(** The table after an admitted append is the one of the longer list. *)
Lemma note_pending_usage config pending m e record off :
  config_validate config = Ok tt → Forall framed_ok pending →
  usage_by_session pending (limits config) = Ok m →
  record_session record = protected_session_id e → 94 < framed_len record <= 94 + 16384 →
  ensure_append_capacity config pending m e (framed_len record) = Ok tt →
  ∃ m', note_pending pending m record off = Ok (pending ++ [from_record record off], m') ∧
    usage_by_session (pending ++ [from_record record off]) (limits config) = Ok m'.
Proof.
  intros Hc Hf Hm Hs Hl Hcap.
  apply ensure_append_capacity_inv in Hcap; [|done..].
  pose proof Hc as Hb. apply config_validate_bounds in Hb as (B1 & B2 & B3 & B4 & _).
  unfold MAX_SPOOL_BYTES_PER_HOST, MAX_SPOOL_RECORDS_PER_HOST in *.
  pose proof Hm as Hspec. apply usage_by_session_spec in Hspec as (_ & Hu & _);
    [|unfold u32_max, u64_max; lia..|done].
  pose proof (session_usage_nonneg (protected_session_id e) pending Hf) as Hn.
  set (u := session_usage (protected_session_id e) pending) in *.
  assert (0 <= (if control_family (family (event e)) then 0 else 1) ∧
          0 <= (if control_family (family (event e)) then 0 else 4096)) as [S1 S2]
    by (destruct (control_family _); lia).
  exists (map_insert (protected_session_id e) (fst u + 1, snd u + framed_len record) m). split.
  - unfold note_pending. rewrite Hs, Hu. fold u. unfold checked_add, sat_add, u32_max, u64_max.
    rewrite bool_decide_eq_true_2 by lia. by rewrite Z.min_r by lia.
  - unfold usage_by_session in *. rewrite usage_loop_app, Hm. cbn [usage_loop from_record p_session p_framed_len].
    rewrite Hs, Hu. fold u. unfold checked_add, sat_add, u32_max, u64_max.
    rewrite bool_decide_eq_true_2 by lia. rewrite Z.min_r by lia.
    rewrite !Z.gtb_ltb, !(proj2 (Z.ltb_ge _ _)) by lia. done.
Qed.

(** C30. An admitted append keeps every quota and the reserve. If the usage
    table is the one of the pending records and they are within the limits,
    then after an append that [ensure_append_capacity] admits, the updated
    table is the one a reopen recomputes and accepts, the host and every
    session are within the limits; and an event that is not a control event
    leaves room for a control record of up to 4 KiB in its session. *)
Theorem admitted_append_keeps_quota config pending m e frame record off :
  config_validate config = Ok tt → Forall framed_ok pending →
  usage_by_session pending (limits config) = Ok m → within_quota (limits config) pending →
  record_session record = protected_session_id e → framed_len record = frame →
  94 < frame <= 94 + 16384 → ensure_append_capacity config pending m e frame = Ok tt →
  ∃ pending' m', note_pending pending m record off = Ok (pending', m') ∧
    pending' = pending ++ [from_record record off] ∧
    usage_by_session pending' (limits config) = Ok m' ∧ within_quota (limits config) pending' ∧
    (control_family (family (event e)) = false →
     ∀ control frame', protected_session_id control = protected_session_id e →
       control_family (family (event control)) = true → 94 < frame' <= 4096 →
       ensure_append_capacity config pending' m' control frame' = Ok tt).
Proof.
  intros Hc Hf Hm (Q1 & Q2 & Q3) Hs <- Hl Hcap.
  pose proof Hcap as Hcap'. apply ensure_append_capacity_inv in Hcap'; [|done..].
  pose proof Hc as Hb. apply config_validate_bounds in Hb as (B1 & B2 & B3 & B4 & _).
  unfold MAX_SPOOL_BYTES_PER_HOST, MAX_SPOOL_RECORDS_PER_HOST in *.
  destruct (note_pending_usage config pending m e record off) as (m' & Hnote & Hnew); [done..|].
  set (u := session_usage (protected_session_id e) pending) in *.
  set (r := from_record record off) in *. assert (p_session r = protected_session_id e) as Hr by done.
  assert (p_framed_len r = framed_len record) as Hrl by done.
  assert (0 <= (if control_family (family (event e)) then 0 else 1) ∧
          0 <= (if control_family (family (event e)) then 0 else 4096)) as [S1 S2]
    by (destruct (control_family _); lia).
  exists (pending ++ [r]), m'. split_and!; [done..| |].
  - split_and!; [rewrite zlen_app; unfold zlen at 2; simpl; lia|rewrite total_bytes_snoc; lia|].
    intros s. rewrite session_usage_snoc. case_bool_decide as E; [|apply Q3].
    rewrite Hr in E. subst s. fold u. simpl. lia.
  - intros Hctl control frame' Hcs Hcc Hfr. rewrite Hctl in Hcap'.
    apply ensure_append_capacity_inv; [done| |done|lia|].
    + apply Forall_app. split; [done|]. constructor; [|done]. unfold framed_ok. rewrite Hrl.
      unfold MAX_HOOK_PAYLOAD_BYTES. assert (FRAME_OVERHEAD = 94) by done. lia.
    + rewrite Hcc, Hcs, zlen_app, total_bytes_snoc, session_usage_snoc, bool_decide_eq_true_2 by done.
      fold u. unfold zlen at 2. simpl. lia.
Qed.

(** ** Evaluation *)

(** Three sessions, the first with two records. *)
Definition sample_backlog : list PendingRecordV1 :=
  [sample_pending 2 50; sample_pending 4 51; sample_pending 5 50; sample_pending 6 52].

Definition sample_now : Z := 100.

Lemma sample_backlog_framed : Forall framed_ok sample_backlog.
Proof. repeat constructor; vm_compute; congruence. Qed.

Lemma batch_for_session_maximal_prefix_witness :
  batch_for_session sample_backlog (repeat 50 32) sample_now None = Ok [0%nat; 2%nat] ∧
  ∃ indices rest, batch_for_session sample_backlog (repeat 50 32) sample_now None = Ok indices ∧
    session_indices sample_backlog 0 (repeat 50 32) sample_now None = indices ++ rest.
Proof.
  split; [reflexivity|].
  destruct (batch_for_session_maximal_prefix sample_backlog (repeat 50 32) sample_now None
    sample_backlog_framed) as (indices & rest & B & S & _).
  exists indices, rest. split; assumption.
Defined.

(** Three claims of one session each. A record of a fourth session arrives
    before the second claim; before the third one the records of session 52
    have settled and session 53 is still claimed. *)
Definition sample_claims : list ReplayClaim :=
  [ {| c_pending := sample_backlog; c_now := 100; c_scope := None; c_claims := []; c_requested := 1 |};
    {| c_pending := sample_backlog ++ [sample_pending 7 53]; c_now := 200; c_scope := None;
       c_claims := [(repeat 52 32, repeat 1 16)]; c_requested := 1 |};
    {| c_pending := [sample_pending 2 50; sample_pending 4 51; sample_pending 5 50; sample_pending 7 53];
       c_now := 300; c_scope := None; c_claims := [(repeat 53 32, repeat 2 16)]; c_requested := 2 |} ].

Definition sample_sessions : gset bytes :=
  {[ repeat 50 32; repeat 51 32; repeat 52 32; repeat 53 32 ]}.

Lemma replay_serves_every_session_witness :
  ∃ rounds x, replay_claims sample_claims (Some (repeat 51 32)) 7 1 = Ok rounds ∧
    x ∈ concat rounds ∧ s_session x = repeat 51 32.
Proof.
  apply (replay_serves_every_session sample_sessions (repeat 51 32) sample_claims (Some (repeat 51 32)) 7 1).
  - repeat constructor; vm_compute; congruence.
  - repeat apply Forall_cons_2; try apply Forall_nil_2; intros r Hr _;
      repeat (apply elem_of_cons in Hr as [->|Hr]); try (by apply elem_of_nil in Hr);
      apply (bool_decide_unpack _); vm_compute; exact I.
  - repeat constructor; exists (sample_pending 4 51);
      (split; [right; left|split; reflexivity]).
  - split; apply Nat.leb_le; vm_compute; reflexivity.
Defined.

Definition sample_tool_envelope : HookEventEnvelopeV2 :=
  sample_envelope 8 50 (ToolLifecycle (repeat 1 16) PhaseStarted None).

Definition sample_tool_record : HookSpoolRecordV1 := {|
  sequence := 7; record_session := repeat 50 32; queued_at := 90; envelope := sample_tool_envelope;
  native_lifecycle := None; encoded_len := 206; checksum := repeat 9 32; framed_len := 300;
|}.

Definition sample_usage : usage :=
  match usage_by_session sample_backlog limits_stock with Ok m => m | Err _ => [] end.

Lemma sample_within_quota : within_quota limits_stock sample_backlog.
Proof.
  split_and!; [vm_compute; discriminate..|]. intros s.
  pose proof (session_usage_nonneg s _ sample_backlog_framed) as Hn.
  change (zlen sample_backlog) with 4 in Hn. change (total_bytes sample_backlog) with 800 in Hn.
  change (max_session_records limits_stock) with 1024.
  change (max_session_bytes limits_stock) with 8388608. lia.
Qed.

Lemma admitted_append_keeps_quota_witness :
  ∃ pending' m', note_pending sample_backlog sample_usage sample_tool_record 1000 = Ok (pending', m') ∧
    usage_by_session pending' limits_stock = Ok m' ∧ within_quota limits_stock pending' ∧
    usage_of (repeat 50 32) m' = (3, 700).
Proof.
  destruct (admitted_append_keeps_quota (config_stock Codex) sample_backlog sample_usage
    sample_tool_envelope 300 sample_tool_record 1000 eq_refl sample_backlog_framed eq_refl
    sample_within_quota eq_refl eq_refl) as (pending' & m' & N & P & U & Q & _).
  - lia.
  - vm_compute. reflexivity.
  - exists pending', m'. split; [exact N|]. split; [exact U|]. split; [exact Q|].
    subst pending'. vm_compute in U. injection U as <-. reflexivity.
Defined.
