(* ===== verification/SpoolCheckpoint.v ===== *)
(** * The spool's checkpoint

    [tracedecay-hooks/src/spool/checkpoint.rs]: the fixed-width index of the
    records file that lets an open skip decoding the frames it covers, the
    binary file that holds it, and the running digest of the records prefix
    that an open and an append verify.

    The header of the file is JSON of [serde]: [CheckpointCodec] holds the two
    calls and their round trip.  A SHA-256 hasher is the bytes it was fed. *)
From stdpp Require Import base list numbers sets strings.
From S2P Require Import Prelude RustText Bytes HookContract SpoolFrame.

#[local] Open Scope Z_scope.
#[local] Open Scope rust_scope.

Definition MAX_CHECKPOINT_BYTES : Z := MAX_SPOOL_BYTES_PER_HOST * 4.
Definition CHECKPOINT_MAGIC : bytes := str "TDHC".
Definition CHECKPOINT_FORMAT_VERSION : Z := 4.
Definition CHECKPOINT_HEADER_BYTES : Z := 4 + 2 + 8.
Definition CHECKPOINT_ENTRY_BYTES : Z := 132.
Definition PREFIX_READ_CHUNK_BYTES : Z := 64 * 1024.

Record RecordsFileRevisionV1 : Type := {
  identity : bytes;
  length_ : Z;
  modified : Z * Z;
  changed : Z * Z;
}.

#[export] Instance RecordsFileRevisionV1_eq_dec : EqDecision RecordsFileRevisionV1.
Proof. solve_decision. Defined.

Record HookSpoolCheckpointHeaderV1 : Type := {
  h_version : Z;
  h_host : NativeHostIdentityV1;
  h_records_revision : option RecordsFileRevisionV1;
  h_covered_checksum : bytes;
  h_record_count : Z;
}.

Record ValidatedCheckpointV1 : Type := {
  v_records_revision : option RecordsFileRevisionV1;
  v_records : list PendingRecordV1;
  v_checksum : bytes;
  v_covered_checksum : bytes;
  v_bytes : Z;
}.

Definition covered_end (self : ValidatedCheckpointV1) : Z :=
  match v_records_revision self with Some revision => length_ revision | None => 0 end.

Record CheckpointAnchorV1 : Type := {
  anchor_records_revision : option RecordsFileRevisionV1;
  anchor_checksum : bytes;
}.

(** [canonical_json_bytes(&header)] and [serde_json::from_slice]. *)
Class CheckpointCodec := {
  header_json_bytes : HookSpoolCheckpointHeaderV1 → option bytes;
  header_from_slice : bytes → option HookSpoolCheckpointHeaderV1;
  header_round_trip : ∀ h b, header_json_bytes h = Some b → header_from_slice b = Some h;
}.

(** ** The prefix digest *)
Record RecordsPrefixDigestV1 : Type := {
  hasher : bytes;
  len : Z;
}.

Definition digest_empty : RecordsPrefixDigestV1 := {| hasher := []; len := 0 |}.

Definition digest_extend (self : RecordsPrefixDigestV1) (b : bytes) : RecordsPrefixDigestV1 :=
  {| hasher := hasher self ++ b; len := sat_add u64_max (len self) (zlen b) |}.

Definition digest_of (b : bytes) : RecordsPrefixDigestV1 := digest_extend digest_empty b.

Definition digest_checksum `{Sha256} (self : RecordsPrefixDigestV1) : bytes := sha256 (hasher self).

(** The [while self.len < end] loop of [read_through]; [rest] is the file from
    the position of the reads, each of which fills its chunk or reaches the
    end. Every read advances by a byte at least. *)
Fixpoint read_through_loop (fuel : nat) (self : RecordsPrefixDigestV1) (rest : bytes) (end_ : Z) :
    RecordsPrefixDigestV1 * bool :=
  match fuel with
  | O => (self, false)
  | S fuel =>
    if negb (len self <? end_) then (self, true)
    else
      let wanted := Z.min (end_ - len self) PREFIX_READ_CHUNK_BYTES in
      let chunk := take (Z.to_nat wanted) rest in
      if is_empty chunk then (self, false)
      else read_through_loop fuel (digest_extend self chunk) (drop (Z.to_nat wanted) rest) end_
  end.

Definition read_through (self : RecordsPrefixDigestV1) (file : option bytes) (end_ : Z) :
    RecordsPrefixDigestV1 * bool :=
  if end_ <=? len self then (self, end_ =? len self)
  else match file with
  | None => (self, false)
  | Some file =>
    let rest := drop (Z.to_nat (len self)) file in
    read_through_loop (S (length rest)) self rest end_
  end.

Definition matches_file `{Sha256} (self : RecordsPrefixDigestV1) (file : option bytes) : bool :=
  let current := read_through digest_empty file (len self) in
  snd current && bool_decide (digest_checksum (fst current) = digest_checksum self).

(** ** Entries *)
Definition encode_checkpoint_entry (record : PendingRecordV1) : bytes :=
  to_le_bytes 8 (p_sequence record) ++ i64_to_le_bytes (p_queued_at record)
  ++ to_le_bytes 4 (p_framed_len record) ++ p_session record ++ p_event_id record
  ++ p_checksum record ++ p_project_id record ++ p_worktree_id record.

Definition decode_checkpoint_entry (b : bytes) (file_offset : Z) : option PendingRecordV1 :=
  if negb (zlen b =? CHECKPOINT_ENTRY_BYTES) then None
  else Some {|
    p_sequence := from_le_bytes (slice 0 8 b);
    p_queued_at := i64_from_le_bytes (slice 8 16 b);
    p_framed_len := from_le_bytes (slice 16 20 b);
    p_session := slice 20 52 b;
    p_file_offset := file_offset;
    p_event_id := slice 52 68 b;
    p_checksum := slice 68 100 b;
    p_project_id := slice 100 116 b;
    p_worktree_id := slice 116 132 b;
    p_envelope := None;
    p_native_lifecycle := None;
  |}.

(** The loop over the entries of a body: [n] chunks of 132 bytes. *)
Fixpoint decode_entries (n : nat) (b : bytes) (file_offset : Z) : option (list PendingRecordV1) :=
  match n with
  | O => Some []
  | S n =>
    match decode_checkpoint_entry (take 132 b) file_offset with
    | None => None
    | Some record =>
      match checked_add u64_max file_offset (p_framed_len record) with
      | None => None
      | Some next_offset => cons record <$> decode_entries n (drop 132 b) next_offset
      end
    end
  end.

(** The loop of [valid_cached_records]: the end offset of the records, or
    [None] where the code returns [false]. *)
Fixpoint cached_records_end (records : list PendingRecordV1) (previous : option Z) (end_ : Z) :
    option Z :=
  match records with
  | [] => Some end_
  | record :: records =>
    if (p_sequence record =? 0)
       || match previous with Some sequence => p_sequence record <=? sequence | None => false end
       || (p_framed_len record <? FRAME_OVERHEAD + 1)
       || (p_framed_len record >? FRAME_OVERHEAD + MAX_HOOK_PAYLOAD_BYTES)
    then None
    else match checked_add u64_max end_ (p_framed_len record) with
         | None => None
         | Some end_ => cached_records_end records (Some (p_sequence record)) end_
         end
  end.

Definition valid_cached_records (records : list PendingRecordV1)
    (revision : option RecordsFileRevisionV1) (config : HookSpoolConfigV1) : bool :=
  if (zlen records >? max_host_records (limits config))
     || (zlen records >? MAX_SPOOL_RECORDS_PER_HOST)
  then false
  else match cached_records_end records None 0 with
  | None => false
  | Some end_ =>
    match revision with
    | Some revision =>
      (length_ revision =? end_) && (length_ revision <=? max_host_bytes (limits config))
    | None => is_empty records
    end
  end.

Section checkpoint.
Context `{Sha256} `{CheckpointCodec}.

(** ** Writing: the bytes of the file and the anchor *)
Definition checkpoint_frame (body : bytes) : bytes :=
  CHECKPOINT_MAGIC ++ to_le_bytes 2 CHECKPOINT_FORMAT_VERSION ++ to_le_bytes 8 (zlen body) ++ body.

Definition write_checkpoint (records_revision : option RecordsFileRevisionV1)
    (config : HookSpoolConfigV1) (records : list PendingRecordV1)
    (covered : RecordsPrefixDigestV1) : result (bytes * CheckpointAnchorV1) HookSpoolError :=
  if negb (valid_cached_records records records_revision config)
     || negb (match records_revision with Some r => length_ r | None => 0 end =? len covered)
  then Err MetadataCorrupted
  else if zlen records >? u32_max then Err MetadataCorrupted
  else
    match header_json_bytes {|
        h_version := CHECKPOINT_FORMAT_VERSION; h_host := host config;
        h_records_revision := records_revision; h_covered_checksum := digest_checksum covered;
        h_record_count := zlen records |} with
    | None => Err MetadataCorrupted
    | Some header_bytes =>
      if zlen header_bytes >? u32_max then Err MetadataCorrupted
      else
        let body := to_le_bytes 4 (zlen header_bytes) ++ header_bytes
                    ++ (records ≫= encode_checkpoint_entry) in
        if CHECKPOINT_HEADER_BYTES + zlen body + 32 >? MAX_CHECKPOINT_BYTES
        then Err MetadataCorrupted
        else
          let framed := checkpoint_frame body in
          Ok (framed ++ sha256 framed,
              {| anchor_records_revision := records_revision; anchor_checksum := sha256 framed |})
    end.

(** ** Reading; [None] is an accelerator that is rebuilt *)

(** From the checksummed body on: the header, its checks and the entries. *)
Definition read_checkpoint_body (config : HookSpoolConfigV1) (checksum : bytes) (total : Z)
    (body : bytes) : option ValidatedCheckpointV1 :=
  match get_range 0 4 body with
  | None => None
  | Some header_len_bytes =>
    let header_end := 4 + from_le_bytes header_len_bytes in
    match get_range 4 header_end body with
    | None => None
    | Some header_bytes =>
      match header_from_slice header_bytes with
      | None => None
      | Some header =>
        if negb (header_end + h_record_count header * CHECKPOINT_ENTRY_BYTES =? zlen body)
           || negb (h_version header =? CHECKPOINT_FORMAT_VERSION)
           || negb (bool_decide (h_host header = host config))
           || (h_record_count header >? max_host_records (limits config))
           || (h_record_count header >? MAX_SPOOL_RECORDS_PER_HOST)
        then None
        else match decode_entries (Z.to_nat (h_record_count header))
                     (drop (Z.to_nat header_end) body) 0 with
        | None => None
        | Some records =>
          if negb (valid_cached_records records (h_records_revision header) config) then None
          else Some {|
            v_records_revision := h_records_revision header; v_records := records;
            v_checksum := checksum; v_covered_checksum := h_covered_checksum header;
            v_bytes := total |}
        end
      end
    end
  end.

(** The magic, the version, the length and the checksum; the checked additions
    of the code fail only where the lengths already differ. *)
Definition read_checkpoint (file : option bytes) (config : HookSpoolConfigV1) :
    option ValidatedCheckpointV1 :=
  match file with
  | None => None
  | Some b =>
    if zlen b >? MAX_CHECKPOINT_BYTES then None
    else if (zlen b <? CHECKPOINT_HEADER_BYTES + 32)
       || negb (bool_decide (slice 0 4 b = CHECKPOINT_MAGIC))
       || negb (from_le_bytes (slice 4 6 b) =? CHECKPOINT_FORMAT_VERSION)
    then None
    else
    let body_len := from_le_bytes (slice 6 14 b) in
    let checksum_at := CHECKPOINT_HEADER_BYTES + body_len in
    if negb (checksum_at + 32 =? zlen b) then None
    else
    let checksum := drop (Z.to_nat checksum_at) b in
    if negb (bool_decide (sha256 (take (Z.to_nat checksum_at) b) = checksum)) then None
    else read_checkpoint_body config checksum (zlen b) (slice 14 (Z.to_nat checksum_at) b)
  end.

(** ** Lemmas *)

(** The values the types of an entry's fields admit. *)
Definition entry_typed (r : PendingRecordV1) : bool :=
  within 0 u64_max (p_sequence r) && within i64_min i64_max (p_queued_at r)
  && within 0 u32_max (p_framed_len r) && is_array 32 (p_session r) && is_array 16 (p_event_id r)
  && is_array 32 (p_checksum r) && is_array 16 (p_project_id r) && is_array 16 (p_worktree_id r).

(** An entry as the index keeps it: without the decoded payload. *)
Definition indexed (r : PendingRecordV1) : PendingRecordV1 := {|
  p_sequence := p_sequence r; p_session := p_session r; p_queued_at := p_queued_at r;
  p_framed_len := p_framed_len r; p_file_offset := p_file_offset r; p_event_id := p_event_id r;
  p_project_id := p_project_id r; p_worktree_id := p_worktree_id r; p_checksum := p_checksum r;
  p_envelope := None; p_native_lifecycle := None |}.

(** The entries lie one after the other from [off]. *)
Fixpoint contiguous (off : Z) (records : list PendingRecordV1) : Prop :=
  match records with
  | [] => True
  | r :: records => p_file_offset r = off ∧ contiguous (off + p_framed_len r) records
  end.

Lemma entry_typed_lengths r :
  entry_typed r = true →
  length (p_session r) = 32%nat ∧ length (p_event_id r) = 16%nat ∧ length (p_checksum r) = 32%nat ∧
  length (p_project_id r) = 16%nat ∧ length (p_worktree_id r) = 16%nat.
Proof.
  unfold entry_typed. intros Ht. bools.
  repeat match goal with H : is_array _ _ = true |- _ => apply is_array_spec in H as [? _] end. done.
Qed.

Lemma encode_entry_length r : entry_typed r = true → length (encode_checkpoint_entry r) = 132%nat.
Proof.
  intros (L1 & L2 & L3 & L4 & L5)%entry_typed_lengths. unfold encode_checkpoint_entry.
  rewrite !length_app, !to_le_bytes_length, i64_to_le_length, L1, L2, L3, L4, L5. done.
Qed.

Lemma decode_encode_entry r off :
  entry_typed r = true → p_file_offset r = off →
  decode_checkpoint_entry (encode_checkpoint_entry r) off = Some (indexed r).
Proof.
  intros Ht Ho. pose proof (encode_entry_length r Ht) as Hlen.
  pose proof (entry_typed_lengths r Ht) as (L1 & L2 & L3 & L4 & L5).
  unfold decode_checkpoint_entry. unfold zlen. rewrite Hlen. simpl (negb _). cbv iota.
  set (q := to_le_bytes 8 (p_sequence r)). set (t := i64_to_le_bytes (p_queued_at r)).
  set (n := to_le_bytes 4 (p_framed_len r)).
  assert (length q = 8%nat ∧ length t = 8%nat ∧ length n = 4%nat) as (Lq & Lt & Ln).
  { subst q t n. rewrite !to_le_bytes_length, i64_to_le_length. done. }
  assert (encode_checkpoint_entry r = concat [q; t; n; p_session r; p_event_id r; p_checksum r;
    p_project_id r; p_worktree_id r]) as ->.
  { unfold encode_checkpoint_entry. simpl. by rewrite app_nil_r. }
  unfold indexed. rewrite Ho. unfold entry_typed, within in Ht. bools.
  assert (Hslice : ∀ k a b m, [q; t; n; p_session r; p_event_id r; p_checksum r; p_project_id r;
    p_worktree_id r] !! k = Some m → length (concat (take k [q; t; n; p_session r; p_event_id r;
    p_checksum r; p_project_id r; p_worktree_id r])) = a → (b = a + length m)%nat →
    slice a b (concat [q; t; n; p_session r; p_event_id r; p_checksum r; p_project_id r;
      p_worktree_id r]) = m) by (intros; by eapply slice_concat).
  rewrite (Hslice 0%nat 0%nat 8%nat q), (Hslice 1%nat 8%nat 16%nat t), (Hslice 2%nat 16%nat 20%nat n),
    (Hslice 3%nat 20%nat 52%nat (p_session r)), (Hslice 4%nat 52%nat 68%nat (p_event_id r)),
    (Hslice 5%nat 68%nat 100%nat (p_checksum r)), (Hslice 6%nat 100%nat 116%nat (p_project_id r)),
    (Hslice 7%nat 116%nat 132%nat (p_worktree_id r))
    by (try reflexivity; cbn [concat take]; rewrite ?length_app; cbn [length]; lia).
  subst q t n. rewrite from_to_le_u64, i64_from_to_le, from_to_le_u32 by lia. done.
Qed.

Lemma decode_entries_encode records prev off end_ rest :
  Forall (λ r, entry_typed r = true) records → contiguous off records →
  cached_records_end records prev off = Some end_ →
  decode_entries (length records) ((records ≫= encode_checkpoint_entry) ++ rest) off =
    Some (indexed <$> records).
Proof.
  intros Ht. revert prev off. induction Ht as [|r records Hr _ IH]; intros prev off; [done|].
  cbn [contiguous cached_records_end length]. intros [Ho Hc].
  destruct (_ || _); [done|]. destruct (checked_add u64_max off (p_framed_len r)) as [next|] eqn:E; [|done].
  intros He. assert (next = off + p_framed_len r) as Hnext.
  { unfold checked_add in E. by case_bool_decide; [injection E as <-|]. }
  change ((r :: records) ≫= encode_checkpoint_entry) with
    (encode_checkpoint_entry r ++ (records ≫= encode_checkpoint_entry)).
  rewrite <- app_assoc. cbn [decode_entries].
  pose proof (encode_entry_length r Hr) as Hl.
  rewrite (take_app_length' _ _ 132), (drop_app_length' _ _ 132) by done.
  rewrite decode_encode_entry by done.
  cbn [p_framed_len indexed]. rewrite E. subst next. by rewrite (IH _ _ Hc He).
Qed.

Lemma cached_records_end_indexed records prev off :
  cached_records_end (indexed <$> records) prev off = cached_records_end records prev off.
Proof.
  revert prev off. induction records as [|r records IH]; intros prev off; [done|].
  rewrite fmap_cons. cbn [cached_records_end indexed p_sequence p_framed_len].
  destruct (_ || _); [done|]. destruct (checked_add _ _ _); [apply IH|done].
Qed.

Lemma valid_cached_records_indexed records revision config :
  valid_cached_records (indexed <$> records) revision config =
  valid_cached_records records revision config.
Proof.
  unfold valid_cached_records. rewrite cached_records_end_indexed. unfold zlen. rewrite length_fmap.
  by destruct records.
Qed.

Lemma entries_length records :
  Forall (λ r, entry_typed r = true) records →
  zlen (records ≫= encode_checkpoint_entry) = zlen records * 132.
Proof.
  induction 1 as [|r records Hr _ IH]; [done|].
  change ((r :: records) ≫= encode_checkpoint_entry) with
    (encode_checkpoint_entry r ++ (records ≫= encode_checkpoint_entry)).
  rewrite zlen_app, zlen_cons, IH. unfold zlen at 1. rewrite encode_entry_length by done. lia.
Qed.

Lemma get_range_middle {A} (p m k : list A) a b :
  zlen p = a → zlen p + zlen m = b → get_range a b (p ++ m ++ k) = Some m.
Proof.
  intros <- <-. unfold get_range. rewrite !zlen_app.
  pose proof (zlen_nonneg p). pose proof (zlen_nonneg m). pose proof (zlen_nonneg k).
  rewrite !(proj2 (Z.leb_le _ _)) by lia. simpl. f_equal.
  apply slice_app; unfold zlen; lia.
Qed.

Lemma valid_cached_records_bounds records revision config :
  valid_cached_records records revision config = true →
  zlen records <= max_host_records (limits config) ∧ zlen records <= MAX_SPOOL_RECORDS_PER_HOST ∧
  ∃ end_, cached_records_end records None 0 = Some end_.
Proof.
  unfold valid_cached_records. destruct (_ || _) eqn:E; [done|]. bools.
  rewrite !Z.gtb_ltb, !Z.ltb_ge in *. destruct (cached_records_end _ _ _); [eauto|done].
Qed.

(** The framing of the file. *)
Lemma read_checkpoint_framed config body :
  let framed := checkpoint_frame body in
  14 + zlen body + 32 <= MAX_CHECKPOINT_BYTES →
  read_checkpoint (Some (framed ++ sha256 framed)) config =
  read_checkpoint_body config (sha256 framed) (zlen (framed ++ sha256 framed)) body.
Proof.
  intros framed Hmax. pose proof (zlen_nonneg body).
  assert (zlen framed = 14 + zlen body) as Lf.
  { unfold framed, checkpoint_frame. rewrite !zlen_app. unfold zlen at 1 2 3.
    rewrite !to_le_bytes_length. change (length CHECKPOINT_MAGIC) with 4%nat. lia. }
  assert (zlen (framed ++ sha256 framed) = 14 + zlen body + 32) as Lt.
  { rewrite zlen_app, Lf. unfold zlen at 2. rewrite sha256_length. lia. }
  assert (Hsegs : framed ++ sha256 framed = concat [CHECKPOINT_MAGIC; to_le_bytes 2
    CHECKPOINT_FORMAT_VERSION; to_le_bytes 8 (zlen body); body; sha256 framed]).
  { unfold framed at 1, checkpoint_frame. cbn [concat]. by rewrite <- !app_assoc, app_nil_r. }
  assert (Z.to_nat (14 + zlen body) = length framed) as Hat by (unfold zlen in *; lia).
  assert (S1 : slice 0 4 (framed ++ sha256 framed) = CHECKPOINT_MAGIC).
  { rewrite Hsegs. by apply (slice_concat 0). }
  assert (S2 : slice 4 6 (framed ++ sha256 framed) = to_le_bytes 2 CHECKPOINT_FORMAT_VERSION).
  { rewrite Hsegs. by apply (slice_concat 1). }
  assert (S3 : slice 6 14 (framed ++ sha256 framed) = to_le_bytes 8 (zlen body)).
  { rewrite Hsegs. by apply (slice_concat 2). }
  assert (S4 : slice 14 (length framed) (framed ++ sha256 framed) = body).
  { rewrite Hsegs. apply (slice_concat 3); [done|done|]. unfold zlen in *. lia. }
  unfold read_checkpoint. rewrite S1, S2, S3. change CHECKPOINT_HEADER_BYTES with 14.
  assert (MAX_CHECKPOINT_BYTES = 134217728) as Hm by done.
  rewrite from_to_le_u16 by (unfold u16_max, CHECKPOINT_FORMAT_VERSION; lia).
  rewrite from_to_le_u64 by (unfold u64_max; lia).
  rewrite Z.gtb_ltb, (proj2 (Z.ltb_ge MAX_CHECKPOINT_BYTES _)) by lia.
  rewrite (proj2 (Z.ltb_ge (zlen (framed ++ _)) _)) by lia.
  rewrite !bool_decide_eq_true_2 by (try done; rewrite Hat; by rewrite take_app_length, drop_app_length).
  rewrite Z.eqb_refl. rewrite (proj2 (Z.eqb_eq (14 + zlen body + 32) _)) by lia.
  cbn [negb orb]. by rewrite Hat, S4, drop_app_length.
Qed.

Lemma read_written_checkpoint revision config records covered b anchor :
  Forall (λ r, entry_typed r = true) records → contiguous 0 records →
  write_checkpoint revision config records covered = Ok (b, anchor) →
  read_checkpoint (Some b) config = Some {|
    v_records_revision := revision; v_records := indexed <$> records;
    v_checksum := anchor_checksum anchor; v_covered_checksum := digest_checksum covered;
    v_bytes := zlen b |} ∧
  anchor_records_revision anchor = revision.
Proof.
  intros Ht Hc. unfold write_checkpoint. destruct (_ || _) eqn:E; [done|].
  destruct (zlen records >? u32_max) eqn:E0; [done|].
  destruct (header_json_bytes _) as [hb|] eqn:Hh; [|done].
  destruct (zlen hb >? u32_max) eqn:E1; [done|]. cbv zeta.
  set (entries := records ≫= encode_checkpoint_entry).
  set (body := to_le_bytes 4 (zlen hb) ++ hb ++ entries).
  destruct (_ >? MAX_CHECKPOINT_BYTES) eqn:E2; [done|]. intros Heq.
  assert (b = checkpoint_frame body ++ sha256 (checkpoint_frame body)) as -> by congruence.
  assert (anchor = {| anchor_records_revision := revision;
    anchor_checksum := sha256 (checkpoint_frame body) |}) as -> by congruence.
  clear Heq. split; [|done].
  bools. rewrite Z.gtb_ltb, Z.ltb_ge in E0, E1, E2.
  rewrite read_checkpoint_framed by (unfold CHECKPOINT_HEADER_BYTES in E2; lia).
  pose proof (zlen_nonneg hb). pose proof (zlen_nonneg records).
  assert (zlen (to_le_bytes 4 (zlen hb)) = 4) as L4 by (unfold zlen; by rewrite to_le_bytes_length).
  assert (zlen entries = zlen records * 132) as Le by by apply entries_length.
  assert (zlen body = 4 + zlen hb + zlen records * 132) as Lb.
  { unfold body. rewrite !zlen_app, L4, Le. lia. }
  unfold read_checkpoint_body.
  rewrite (get_range_middle [] (to_le_bytes 4 (zlen hb)) (hb ++ entries)) by (unfold zlen in *; simpl; lia).
  rewrite from_to_le_u32 by lia.
  rewrite (get_range_middle (to_le_bytes 4 (zlen hb)) hb entries) by lia.
  rewrite (header_round_trip _ _ Hh).
  cbn [h_version h_host h_record_count h_records_revision h_covered_checksum].
  rewrite (proj2 (Z.eqb_eq _ (zlen body))) by (unfold CHECKPOINT_ENTRY_BYTES; lia).
  rewrite bool_decide_eq_true_2, Z.eqb_refl by done.
  match goal with H : valid_cached_records _ _ _ = true |- _ => pose proof H as Hv end.
  destruct (valid_cached_records_bounds _ _ _ Hv) as (Hv1 & Hv2 & end_ & Hend).
  rewrite !Z.gtb_ltb, !(proj2 (Z.ltb_ge _ _)) by lia. cbn [negb orb].
  assert (drop (Z.to_nat (4 + zlen hb)) body = entries ++ []) as ->.
  { unfold body. rewrite app_assoc, app_nil_r. apply drop_app_length'.
    rewrite length_app. unfold zlen in *. lia. }
  replace (Z.to_nat (zlen records)) with (length records) by (unfold zlen; lia).
  rewrite (decode_entries_encode records None 0 end_) by done.
  rewrite valid_cached_records_indexed, Hv. done.
Qed.

(** A checkpoint reads back. What [write_checkpoint] writes for entries
    that lie one after the other, [read_checkpoint] under the same
    configuration accepts, with the same revision, covered digest and
    checksum, and the same entries without their payloads. *)
Theorem checkpoint_round_trip revision config records covered b anchor :
  Forall (λ r, entry_typed r = true) records → contiguous 0 records →
  write_checkpoint revision config records covered = Ok (b, anchor) →
  read_checkpoint (Some b) config = Some {|
    v_records_revision := revision; v_records := indexed <$> records;
    v_checksum := anchor_checksum anchor; v_covered_checksum := digest_checksum covered;
    v_bytes := zlen b |} ∧
  anchor_records_revision anchor = revision.
Proof.
  apply read_written_checkpoint.
Qed.

(** ** The prefix digest *)
Lemma read_through_loop_spec fuel self rest end_ :
  0 <= len self <= end_ → end_ <= u64_max → (length rest < fuel)%nat →
  let n := Z.to_nat (end_ - len self) in
  read_through_loop fuel self rest end_ =
  ({| hasher := hasher self ++ take n rest; len := len self + zlen (take n rest) |},
   end_ - len self <=? zlen rest).
Proof.
  revert self rest. induction fuel as [|fuel IH]; intros self rest Hl He Hf n; [lia|]. simpl.
  destruct (Z.ltb_spec (len self) end_) as [Hlt|Hge]; simpl.
  2:{ subst n. replace (Z.to_nat (end_ - len self)) with 0%nat by lia. rewrite take_0, app_nil_r.
      rewrite (proj2 (Z.leb_le _ _)) by (pose proof (zlen_nonneg rest); lia).
      change (zlen []) with 0. rewrite Z.add_0_r. by destruct self. }
  set (wanted := Z.min (end_ - len self) PREFIX_READ_CHUNK_BYTES).
  assert (0 < wanted <= end_ - len self) as Hw by (unfold wanted, PREFIX_READ_CHUNK_BYTES; lia).
  destruct rest as [|x rest].
  { rewrite take_nil. simpl. rewrite take_nil, app_nil_r. change (zlen []) with 0.
    rewrite (proj2 (Z.leb_gt _ _)) by lia. rewrite Z.add_0_r. by destruct self. }
  assert (is_empty (take (Z.to_nat wanted) (x :: rest)) = false) as ->.
  { destruct (Z.to_nat wanted) eqn:E; [lia|done]. }
  set (l := x :: rest) in *. set (chunk := take (Z.to_nat wanted) l).
  assert (zlen chunk = Z.min wanted (zlen l)) as Hchunk
    by (unfold chunk, zlen; rewrite length_take; lia).
  assert (0 < zlen l) by (unfold l; rewrite zlen_cons; pose proof (zlen_nonneg rest); lia).
  assert (len (digest_extend self chunk) = len self + zlen chunk) as Hlen
    by (unfold digest_extend, sat_add; simpl; lia).
  rewrite IH; [|rewrite Hlen; lia|done|rewrite length_drop; unfold zlen in *; lia].
  assert (Htake : chunk ++ take (Z.to_nat (end_ - len (digest_extend self chunk)))
    (drop (Z.to_nat wanted) l) = take n l).
  { rewrite Hlen, Hchunk. unfold chunk. destruct (decide (wanted <= zlen l)) as [Hle|Hgt].
    - rewrite Z.min_l by lia. subst n.
      replace (Z.to_nat (end_ - len self)) with
        (Z.to_nat wanted + Z.to_nat (end_ - (len self + wanted)))%nat by lia.
      by rewrite take_take_drop.
    - rewrite drop_ge, take_nil, app_nil_r by (unfold zlen in *; lia).
      rewrite !take_ge by (unfold zlen in *; lia). done. }
  f_equal.
  - change (hasher (digest_extend self chunk)) with (hasher self ++ chunk).
    rewrite <- app_assoc, Htake. f_equal. rewrite <- Htake, zlen_app. lia.
  - rewrite Hlen, Hchunk. apply eq_true_iff_eq. rewrite !Z.leb_le.
    unfold zlen in *. rewrite length_drop. lia.
Qed.

(** The prefix digest of an open and its appends detects a changed file.
    After reading [b] and extending the digest with every appended frame, the
    check of the next append passes exactly on the files that are at least as
    long and whose prefix has the digest of those bytes, in chunks of 64 KiB. *)
Theorem prefix_digest_detects_changes b frames file :
  zlen (b ++ concat frames) <= u64_max →
  let d := foldl digest_extend (digest_of b) frames in
  hasher d = b ++ concat frames ∧ len d = zlen (b ++ concat frames) ∧
  (matches_file d (Some file) = true ↔
   zlen (b ++ concat frames) <= zlen file ∧
   sha256 (take (length (b ++ concat frames)) file) = sha256 (b ++ concat frames)).
Proof.
  intros Hb d.
  assert (Hd : ∀ frames d0, len d0 = zlen (hasher d0) → zlen (hasher d0 ++ concat frames) <= u64_max →
    hasher (foldl digest_extend d0 frames) = hasher d0 ++ concat frames ∧
    len (foldl digest_extend d0 frames) = zlen (hasher d0 ++ concat frames)).
  { clear. induction frames as [|x frames IH]; intros d0 Hl Hu; simpl in *.
    { by rewrite app_nil_r. }
    rewrite app_assoc, zlen_app in Hu. pose proof (zlen_nonneg (concat frames)).
    destruct (IH (digest_extend d0 x)) as [I1 I2]; simpl.
    - rewrite zlen_app in *. unfold sat_add. lia.
    - rewrite zlen_app. lia.
    - rewrite I1, I2. simpl. by rewrite <- app_assoc. }
  pose proof (zlen_nonneg b). rewrite zlen_app in Hb. pose proof (zlen_nonneg (concat frames)).
  destruct (Hd frames (digest_of b)) as [E1 E2].
  { simpl. unfold sat_add. change (0 + zlen b) with (zlen b). lia. }
  { simpl. rewrite zlen_app. lia. }
  fold d in E1, E2. simpl in E1, E2. set (all := b ++ concat frames) in *.
  assert (0 <= zlen all <= u64_max) as Hall by (unfold all; rewrite zlen_app; lia).
  split_and!; [done|done|]. unfold matches_file, read_through, digest_checksum. rewrite E1, E2. simpl len.
  destruct (Z.leb_spec (zlen all) 0) as [Hz|Hz].
  - assert (all = []) as -> by (destruct all; [done|rewrite zlen_cons in *; pose proof (zlen_nonneg all); lia]).
    simpl. rewrite bool_decide_eq_true, take_0. split; [|tauto]. intros _.
    split; [apply zlen_nonneg|done].
  - rewrite drop_0, read_through_loop_spec by (simpl; lia). simpl. rewrite andb_true_iff, Z.leb_le, bool_decide_eq_true.
    rewrite !Z.sub_0_r. replace (Z.to_nat (zlen all)) with (length all) by (unfold zlen; lia). done.
Qed.

End checkpoint.

(** ** Evaluation *)

(** A codec that writes the header of the empty Codex index, and no other. *)
Definition one_header_codec (h : HookSpoolCheckpointHeaderV1) (known : bytes) : CheckpointCodec.
Proof.
  refine {| header_json_bytes := λ x,
              if decide (h_version x = h_version h ∧ h_host x = h_host h ∧
                         h_records_revision x = h_records_revision h ∧
                         h_covered_checksum x = h_covered_checksum h ∧
                         h_record_count x = h_record_count h)
              then Some known else None;
            header_from_slice := λ b, if decide (b = known) then Some h else None |}.
  intros [] b. destruct h. simpl. case_decide as E; [|done]. intros [= <-].
  rewrite decide_True by done. by destruct E as (-> & -> & -> & -> & ->).
Defined.

Definition sample_entry (s : Z) : PendingRecordV1 := {|
  p_sequence := s; p_session := repeat 50 32; p_queued_at := -3; p_framed_len := 200;
  p_file_offset := 200 * (s - 1); p_event_id := repeat s 16; p_project_id := repeat 1 16;
  p_worktree_id := repeat 3 16; p_checksum := repeat 9 32; p_envelope := None;
  p_native_lifecycle := None;
|}.

Definition sample_revision : RecordsFileRevisionV1 :=
  {| identity := repeat 6 32; length_ := 400; modified := (1, 2); changed := (3, 4) |}.

Definition sample_covered : RecordsPrefixDigestV1 := digest_of (repeat 0 400).

Definition sample_header : HookSpoolCheckpointHeaderV1 := {|
  h_version := 4; h_host := Codex; h_records_revision := Some sample_revision;
  h_covered_checksum := @digest_checksum mixing_sha256 sample_covered; h_record_count := 2 |}.

Definition sample_checkpoint_codec : CheckpointCodec := one_header_codec sample_header [123; 125].

Definition sample_written : result (bytes * CheckpointAnchorV1) HookSpoolError :=
  @write_checkpoint mixing_sha256 sample_checkpoint_codec (Some sample_revision)
    (config_stock Codex) [sample_entry 1; sample_entry 2] sample_covered.

Definition written (r : result (bytes * CheckpointAnchorV1) HookSpoolError) :
    bytes * CheckpointAnchorV1 :=
  match r with
  | Ok w => w
  | Err _ => ([], {| anchor_records_revision := None; anchor_checksum := [] |})
  end.

Definition sample_checkpoint : bytes * CheckpointAnchorV1 := written sample_written.

Lemma checkpoint_round_trip_witness :
  @read_checkpoint mixing_sha256 sample_checkpoint_codec (Some (fst sample_checkpoint))
    (config_stock Codex) = Some {|
      v_records_revision := Some sample_revision; v_records := [sample_entry 1; sample_entry 2];
      v_checksum := anchor_checksum (snd sample_checkpoint);
      v_covered_checksum := @digest_checksum mixing_sha256 sample_covered;
      v_bytes := zlen (fst sample_checkpoint) |}.
Proof.
  refine (proj1 (@checkpoint_round_trip mixing_sha256 sample_checkpoint_codec (Some sample_revision)
    (config_stock Codex) [sample_entry 1; sample_entry 2] sample_covered (fst sample_checkpoint)
    (snd sample_checkpoint) _ _ _)).
  - repeat constructor.
  - split; [reflexivity|]. split; [reflexivity|exact I].
  - vm_compute. reflexivity.
Defined.

Lemma prefix_digest_detects_changes_witness :
  @matches_file mixing_sha256 (foldl digest_extend (digest_of [1; 2]) [[3]; [4; 5]])
    (Some [1; 2; 3; 4; 5; 6]) = true.
Proof.
  apply (proj2 (proj2 (proj2 (@prefix_digest_detects_changes mixing_sha256 [1; 2] [[3]; [4; 5]]
    [1; 2; 3; 4; 5; 6] ltac:(vm_compute; discriminate))))).
  split; [vm_compute; discriminate|reflexivity].
Defined.
