(* ===== verification/PolicyRouting.v ===== *)
(** * Policy identifiers and capability routing

    [tracedecay-policy/src/identity.rs] and [tracedecay-policy/src/routing.rs]:
    the bounded identifiers of the policy schema, the digest of a policy input
    and the evaluator that selects one capability from the caller's declared
    order, under an explicit grant and catalog snapshot.

    Identity newtypes and digests are their strings.  [canonical_sha256] is
    the canonical serializer over [serde] and SHA-256: the class [Canonical]
    is the digest of one serializable type, and nothing is assumed of it. *)
From stdpp Require Import base list numbers sets strings.
From S2P Require Import Prelude RustText.

#[local] Open Scope Z_scope.
#[local] Open Scope rust_scope.

Class Canonical (T : Type) := canonical_sha256 : T → result rstr DomainError.

(** ** identity.rs *)
Definition identifier_validate (value : rstr) : result unit rstr :=
  if is_empty value || negb (bool_decide (trim value = value)) || (str_len value >? 512)
     || existsb is_control value
  then Err (str "policy identifier must be non-empty, trimmed, bounded, and printable")
  else Ok tt.

Definition identifier_is_valid (value : rstr) : bool := is_ok (identifier_validate value).

Definition fallback_digest : rstr := str "sha256:" ++ repeat 48 64.

Definition policy_digest {T} `{Canonical (rstr * T)} (domain : rstr) (value : T) : rstr :=
  match canonical_sha256 (domain, value) with
  | Ok digest => digest
  | Err _ => fallback_digest
  end.

(** ** routing.rs *)
Inductive CapabilityAvailabilityV1 : Type :=
  | CapAvailable | CapUnavailable | CapStale | CapUnknown.

Inductive ScopeMatchV1 : Type := ScopeMatch | ScopeDiffers | ScopePartial | ScopeUnknown.

#[export] Instance ScopeMatchV1_eq_dec : EqDecision ScopeMatchV1.
Proof. solve_decision. Defined.

Inductive CapabilityEffectClassV1 : Type :=
  | EffectRead | EffectPreview | EffectAdvisory | EffectGitIndexStage | EffectGitIndexUnstage.

#[export] Instance CapabilityEffectClassV1_eq_dec : EqDecision CapabilityEffectClassV1.
Proof. solve_decision. Defined.

Inductive TruthSourceStateV1 : Type :=
  | TruthFresh | TruthPartial | TruthStale | TruthUnavailable | TruthUnknown.

Inductive TruthFreshnessRequirementV1 : Type := RequireFresh | RequireFreshOrPartial.

Definition accepts (self : TruthFreshnessRequirementV1) (state : TruthSourceStateV1) : bool :=
  match self, state with
  | RequireFresh, TruthFresh => true
  | RequireFreshOrPartial, (TruthFresh | TruthPartial) => true
  | _, _ => false
  end.

Inductive CapabilityRoutingGrantStateV1 : Type :=
  | GrantIsActive | GrantIsRevoked | GrantIsStale | GrantIsAmbiguous.

(** A [BTreeSet] that is only tested for membership is the list of its
    elements. *)
Record CapabilityRoutingGrantV1 : Type := {
  grant_id : rstr;
  grant_revision : Z;
  grant_digest : rstr;
  allowed_capabilities : list rstr;
  allowed_use_cases : list rstr;
  issued_at : Z;
  grant_expires_at : Z;
  grant_state : CapabilityRoutingGrantStateV1;
}.

Definition grant_is_valid (self : CapabilityRoutingGrantV1) : bool :=
  identifier_is_valid (grant_id self)
  && (grant_revision self >? 0)
  && digest_ok (grant_digest self)
  && negb (is_empty (allowed_capabilities self))
  && forallb identity_ok (allowed_capabilities self)
  && negb (is_empty (allowed_use_cases self))
  && forallb identifier_is_valid (allowed_use_cases self)
  && (issued_at self <? grant_expires_at self).

Inductive CapabilityRoutingCancellationV1 : Type :=
  | NotCancelled
  | Cancelled (requested_at : Z).

Record CapabilityRouteCandidateV1 : Type := {
  capability_id : rstr;
  use_case_id : rstr;
  availability : CapabilityAvailabilityV1;
  scope_match : ScopeMatchV1;
  effect_class : CapabilityEffectClassV1;
  truth_source_state : TruthSourceStateV1;
  candidate_catalog_revision : Z;
  candidate_catalog_digest : rstr;
  capability_digest : rstr;
}.

Definition candidate_is_valid (self : CapabilityRouteCandidateV1) : bool :=
  identity_ok (capability_id self)
  && identifier_is_valid (use_case_id self)
  && (candidate_catalog_revision self >? 0)
  && digest_ok (candidate_catalog_digest self)
  && digest_ok (capability_digest self).

Record CapabilityRoutingRequestV1 : Type := {
  requested_use_case_id : rstr;
  declared_capability_order : list rstr;
  candidates : list CapabilityRouteCandidateV1;
  grant : CapabilityRoutingGrantV1;
  required_effect_class : CapabilityEffectClassV1;
  required_freshness : TruthFreshnessRequirementV1;
  catalog_revision : Z;
  catalog_digest : rstr;
  policy_revision : Z;
  request_policy_digest : rstr;
  configuration_digest : rstr;
  deadline : Z;
  cancellation : CapabilityRoutingCancellationV1;
  evaluated_at : Z;
}.

Inductive CapabilityRoutingDispositionV1 : Type :=
  | RoutingAllow | RoutingDeny | RoutingNotApplicable | RoutingIndeterminate.

Inductive CapabilityRoutingReasonV1 : Type :=
  | InvalidRequest | RequestCancelled | DeadlineExceeded | GrantRevoked | GrantStale
  | GrantAmbiguous | GrantNotYetIssued | GrantExpired | UseCaseNotAuthorized
  | CapabilityNotAuthorized | CatalogSnapshotMismatch | CandidateUseCaseMismatch
  | CapabilityUnavailable | CapabilityStale | CapabilityUnknown | ScopeMismatch
  | EffectMismatch | TruthNotFresh | DeclaredCandidateMissing | CandidateAmbiguous | Selected.

Record CapabilityRoutingDecisionV1 : Type := {
  evaluator_id : rstr;
  evaluator_revision : Z;
  input_digest : rstr;
  decision_use_case_id : rstr;
  decision_grant_id : rstr;
  decision_grant_revision : Z;
  decision_grant_digest : rstr;
  decision_catalog_revision : Z;
  decision_catalog_digest : rstr;
  decision_policy_revision : Z;
  decision_policy_digest : rstr;
  decision_configuration_digest : rstr;
  disposition : CapabilityRoutingDispositionV1;
  selected_capability_id : option rstr;
  ordered_reason_codes : list CapabilityRoutingReasonV1;
}.

Definition EVALUATOR_REVISION : Z := 1.

(** Whether [capability.validate()] fails or [declared.insert(capability)]
    finds the capability already declared, over the whole order. *)
Fixpoint declared_invalid (declared order : list rstr) : bool :=
  match order with
  | [] => false
  | capability :: order =>
    negb (identity_ok capability) || bool_decide (capability ∈ declared)
    || declared_invalid (declared ++ [capability]) order
  end.

Definition request_invalid (request : CapabilityRoutingRequestV1) : bool :=
  negb (identifier_is_valid (requested_use_case_id request))
  || is_empty (declared_capability_order request)
  || negb (grant_is_valid (grant request))
  || (catalog_revision request =? 0)
  || negb (digest_ok (catalog_digest request))
  || (policy_revision request =? 0)
  || negb (digest_ok (request_policy_digest request))
  || negb (digest_ok (configuration_digest request))
  || existsb (λ candidate, negb (candidate_is_valid candidate)) (candidates request)
  || declared_invalid [] (declared_capability_order request).

(** What one declared capability comes to: the reason pushed, and whether the
    capability is selected, denied or unavailable. *)
Inductive CapabilityVerdict : Type := Passes | Denies | Unavails.

Definition judge (request : CapabilityRoutingRequestV1) (capability : rstr) :
    CapabilityRoutingReasonV1 * CapabilityVerdict :=
  let found := List.filter (λ candidate, bool_decide (capability_id candidate = capability))
                 (candidates request) in
  match head found with
  | None => (DeclaredCandidateMissing, Unavails)
  | Some candidate =>
    if negb (length found =? 1)%nat then (CandidateAmbiguous, Unavails)
    else if negb (bool_decide (use_case_id candidate = requested_use_case_id request))
    then (CandidateUseCaseMismatch, Denies)
    else if negb (bool_decide (capability ∈ allowed_capabilities (grant request)))
    then (CapabilityNotAuthorized, Denies)
    else match availability candidate with
    | CapUnavailable => (CapabilityUnavailable, Unavails)
    | CapStale => (CapabilityStale, Unavails)
    | CapUnknown => (CapabilityUnknown, Unavails)
    | CapAvailable =>
      if negb (bool_decide (scope_match candidate = ScopeMatch)) then (ScopeMismatch, Denies)
      else if negb (bool_decide (effect_class candidate = required_effect_class request))
      then (EffectMismatch, Denies)
      else if negb (accepts (required_freshness request) (truth_source_state candidate))
      then (TruthNotFresh, Unavails)
      else (Selected, Passes)
    end
  end.

(** The loop over the declared order and the disposition when it ends. *)
Fixpoint route_loop (request : CapabilityRoutingRequestV1) (order : list rstr)
    (saw_unavailable saw_denied : bool) (reasons : list CapabilityRoutingReasonV1) :
    CapabilityRoutingDispositionV1 * option rstr * list CapabilityRoutingReasonV1 :=
  match order with
  | [] =>
    (if saw_unavailable then RoutingIndeterminate
     else if saw_denied then RoutingDeny else RoutingNotApplicable, None, reasons)
  | capability :: order =>
    let '(reason, verdict) := judge request capability in
    match verdict with
    | Passes => (RoutingAllow, Some capability, reasons ++ [reason])
    | Denies => route_loop request order saw_unavailable true (reasons ++ [reason])
    | Unavails => route_loop request order true saw_denied (reasons ++ [reason])
    end
  end.

(** The outcome before it is sealed into a decision. *)
Definition route (request : CapabilityRoutingRequestV1) :
    CapabilityRoutingDispositionV1 * option rstr * list CapabilityRoutingReasonV1 :=
  if request_invalid request then (RoutingIndeterminate, None, [InvalidRequest])
  else match cancellation request with
  | Cancelled _ => (RoutingIndeterminate, None, [RequestCancelled])
  | NotCancelled =>
    if evaluated_at request >=? deadline request
    then (RoutingIndeterminate, None, [DeadlineExceeded])
    else match grant_state (grant request) with
    | GrantIsRevoked => (RoutingDeny, None, [GrantRevoked])
    | GrantIsStale => (RoutingIndeterminate, None, [GrantStale])
    | GrantIsAmbiguous => (RoutingIndeterminate, None, [GrantAmbiguous])
    | GrantIsActive =>
      if evaluated_at request <? issued_at (grant request)
      then (RoutingDeny, None, [GrantNotYetIssued])
      else if evaluated_at request >=? grant_expires_at (grant request)
      then (RoutingDeny, None, [GrantExpired])
      else if negb (bool_decide (requested_use_case_id request ∈ allowed_use_cases (grant request)))
      then (RoutingDeny, None, [UseCaseNotAuthorized])
      else if existsb (λ candidate,
                negb (candidate_catalog_revision candidate =? catalog_revision request)
                || negb (bool_decide (candidate_catalog_digest candidate = catalog_digest request)))
              (candidates request)
      then (RoutingIndeterminate, None, [CatalogSnapshotMismatch])
      else route_loop request (declared_capability_order request) false false []
    end
  end.

Section routing.
Context `{Canonical (rstr * CapabilityRoutingRequestV1)}.

Definition decision (request : CapabilityRoutingRequestV1)
    (outcome : CapabilityRoutingDispositionV1 * option rstr * list CapabilityRoutingReasonV1) :
    CapabilityRoutingDecisionV1 := {|
  evaluator_id := str "capability_routing.v1";
  evaluator_revision := EVALUATOR_REVISION;
  input_digest := policy_digest (str "tracedecay.policy.capability-routing-input.v1") request;
  decision_use_case_id := requested_use_case_id request;
  decision_grant_id := grant_id (grant request);
  decision_grant_revision := grant_revision (grant request);
  decision_grant_digest := grant_digest (grant request);
  decision_catalog_revision := catalog_revision request;
  decision_catalog_digest := catalog_digest request;
  decision_policy_revision := policy_revision request;
  decision_policy_digest := request_policy_digest request;
  decision_configuration_digest := configuration_digest request;
  disposition := fst (fst outcome);
  selected_capability_id := snd (fst outcome);
  ordered_reason_codes := snd outcome;
|}.

Definition evaluate (request : CapabilityRoutingRequestV1) : CapabilityRoutingDecisionV1 :=
  decision request (route request).

(** ** Specification *)

(** The request as a whole may select a capability. *)
Definition admitted (request : CapabilityRoutingRequestV1) : Prop :=
  request_invalid request = false ∧ cancellation request = NotCancelled ∧
  evaluated_at request < deadline request ∧ grant_state (grant request) = GrantIsActive ∧
  issued_at (grant request) <= evaluated_at request < grant_expires_at (grant request) ∧
  requested_use_case_id request ∈ allowed_use_cases (grant request) ∧
  Forall (λ c, candidate_catalog_revision c = catalog_revision request ∧
               candidate_catalog_digest c = catalog_digest request) (candidates request).

(** One capability may be selected: it has exactly one candidate, which is
    authorized, available, in scope, of the required effect and fresh. *)
Definition selectable (request : CapabilityRoutingRequestV1) (capability : rstr) : Prop :=
  capability ∈ allowed_capabilities (grant request) ∧
  ∃ candidate,
    List.filter (λ c, bool_decide (capability_id c = capability)) (candidates request) = [candidate] ∧
    use_case_id candidate = requested_use_case_id request ∧
    availability candidate = CapAvailable ∧ scope_match candidate = ScopeMatch ∧
    effect_class candidate = required_effect_class request ∧
    accepts (required_freshness request) (truth_source_state candidate) = true.

(** ** Lemmas *)
Lemma judge_passes request capability :
  snd (judge request capability) = Passes ↔ selectable request capability.
Proof.
  unfold judge, selectable. set (found := List.filter _ _).
  destruct found as [|c [|d found]]; simpl.
  - split; [done|]. intros (_ & c & E & _). done.
  - destruct (bool_decide (use_case_id c = _)) eqn:E1; simpl; bools.
    2:{ split; [done|]. intros (_ & d & [= <-] & ? & _). done. }
    destruct (bool_decide (capability ∈ _)) eqn:E2; simpl; bools.
    2:{ split; [done|]. intros (? & _). done. }
    destruct (availability c) eqn:E3; simpl;
      try (split; [done|]; intros (_ & d & [= <-] & _ & ? & _); congruence).
    destruct (bool_decide (scope_match c = _)) eqn:E4; simpl; bools.
    2:{ split; [done|]. intros (_ & d & [= <-] & _ & _ & ? & _). done. }
    destruct (bool_decide (effect_class c = _)) eqn:E5; simpl; bools.
    2:{ split; [done|]. intros (_ & d & [= <-] & _ & _ & _ & ? & _). done. }
    destruct (accepts _ _) eqn:E6; simpl.
    + split; [|done]. intros _. split; [done|]. by exists c.
    + split; [done|]. intros (_ & d & [= <-] & _ & _ & _ & _ & ?). congruence.
  - split; [done|]. intros (_ & x & E & _). done.
Qed.

Lemma judge_selected request capability :
  snd (judge request capability) = Passes → fst (judge request capability) = Selected.
Proof. unfold judge. intros Hp. repeat case_step_in Hp; try done. Qed.

(** The loop stops at the first capability that passes, or at the end. *)
Lemma route_loop_spec request order u d reasons :
  (∃ before capability after, order = before ++ capability :: after ∧
     selectable request capability ∧ Forall (λ c, ¬ selectable request c) before ∧
     route_loop request order u d reasons =
       (RoutingAllow, Some capability,
        reasons ++ ((λ c, fst (judge request c)) <$> before) ++ [Selected])) ∨
  (Forall (λ c, ¬ selectable request c) order ∧
   ∃ disposition, route_loop request order u d reasons =
     (disposition, None, reasons ++ ((λ c, fst (judge request c)) <$> order)) ∧
     disposition =
       if u || existsb (λ c, match snd (judge request c) with Unavails => true | _ => false end) order
       then RoutingIndeterminate
       else if d || existsb (λ c, match snd (judge request c) with Denies => true | _ => false end) order
       then RoutingDeny else RoutingNotApplicable).
Proof.
  revert u d reasons. induction order as [|c order IH]; intros u d reasons; simpl.
  { right. split; [constructor|]. eexists. rewrite app_nil_r. split; [done|].
    rewrite !orb_false_r. done. }
  pose proof (judge_passes request c) as Hj. pose proof (judge_selected request c) as Hs.
  destruct (judge request c) as [reason verdict] eqn:E. cbn [fst snd] in *. destruct verdict.
  - left. exists [], c, order. rewrite Hs by done. split; [done|]. split; [by apply Hj|].
    split; [constructor|done].
  - assert (¬ selectable request c) as Hc by (intros ?%Hj; done).
    destruct (IH u true (reasons ++ [reason])) as [(b & x & a & -> & H1 & H2 & H3)|(H1 & disp & H2 & H3)].
    + left. exists (c :: b), x, a. split; [done|]. split; [done|]. split; [by constructor|].
      rewrite H3, fmap_cons, <- app_assoc, E. done.
    + right. split; [by constructor|]. exists disp. rewrite H2, <- app_assoc.
      split; [done|]. rewrite H3. simpl. by rewrite ?orb_true_r.
  - assert (¬ selectable request c) as Hc by (intros ?%Hj; done).
    destruct (IH true d (reasons ++ [reason])) as [(b & x & a & -> & H1 & H2 & H3)|(H1 & disp & H2 & H3)].
    + left. exists (c :: b), x, a. split; [done|]. split; [done|]. split; [by constructor|].
      rewrite H3, fmap_cons, <- app_assoc, E. done.
    + right. split; [by constructor|]. exists disp. rewrite H2, <- app_assoc.
      split; [done|]. rewrite H3. simpl. by rewrite ?orb_true_r.
Qed.
(** Either the request reaches the loop, or one reason rejects it. *)
Lemma route_cases request :
  (admitted request ∧
   route request = route_loop request (declared_capability_order request) false false []) ∨
  (¬ admitted request ∧
   ∃ disposition reason, route request = (disposition, None, [reason]) ∧ disposition ≠ RoutingAllow).
Proof.
  unfold route, admitted.
  destruct (request_invalid request); [right; split; [naive_solver|eauto]|].
  destruct (cancellation request); [|right; split; [naive_solver|eauto]].
  rewrite Z.geb_leb. destruct (Z.leb_spec (deadline request) (evaluated_at request));
    [right; split; [naive_solver lia|eauto]|].
  destruct (grant_state (grant request)); [|right; split; [naive_solver|eauto]..].
  destruct (Z.ltb_spec (evaluated_at request) (issued_at (grant request)));
    [right; split; [naive_solver lia|eauto]|].
  rewrite Z.geb_leb. destruct (Z.leb_spec (grant_expires_at (grant request)) (evaluated_at request));
    [right; split; [naive_solver lia|eauto]|].
  case_bool_decide; simpl; [|right; split; [naive_solver|eauto]].
  destruct (existsb _ _) eqn:E.
  - right. split; [|eauto]. intros (_ & _ & _ & _ & _ & _ & Hall).
    apply existsb_exists in E as (c & Hc & E). apply list_elem_of_In in Hc.
    rewrite Forall_forall in Hall. destruct (Hall c Hc) as [Hr Hd].
    rewrite Hr, Hd, Z.eqb_refl, bool_decide_eq_true_2 in E by done. done.
  - left. split; [|done]. split_and!; try done; try lia. apply Forall_forall. intros c Hc.
    destruct (decide (candidate_catalog_revision c = catalog_revision request ∧
                      candidate_catalog_digest c = catalog_digest request)) as [|Hn]; [done|].
    exfalso. apply not_true_iff_false in E. apply E, existsb_exists. exists c.
    split; [by apply list_elem_of_In|]. apply orb_true_iff. rewrite !negb_true_iff, Z.eqb_neq, bool_decide_eq_false.
    destruct (decide (candidate_catalog_revision c = catalog_revision request)); tauto.
Qed.

(** C31. Routing is first-declared and fail-closed. A selected capability is
    allowed, the whole request is admitted (valid, not cancelled, before its
    deadline, an active grant inside its window that names the use case, one
    catalog snapshot), and it is the first of the declared order that is
    selectable, the reasons being those of the capabilities before it and
    [Selected]. When nothing is selected the decision is not an allow, and if
    the request was admitted no declared capability is selectable and every
    one of them has its reason. *)
Theorem routing_selects_first_declared request :
  let d := evaluate request in
  match selected_capability_id d with
  | Some capability =>
    disposition d = RoutingAllow ∧ admitted request ∧
    ∃ before after, declared_capability_order request = before ++ capability :: after ∧
      selectable request capability ∧ Forall (λ c, ¬ selectable request c) before ∧
      ordered_reason_codes d = ((λ c, fst (judge request c)) <$> before) ++ [Selected]
  | None =>
    disposition d ≠ RoutingAllow ∧
    (admitted request →
     Forall (λ c, ¬ selectable request c) (declared_capability_order request) ∧
     ordered_reason_codes d = (λ c, fst (judge request c)) <$> declared_capability_order request)
  end.
Proof.
  unfold evaluate, decision. simpl.
  destruct (route_cases request) as [[Ha ->]|(Hn & disp & reason & -> & Hd)]; [|done].
  destruct (route_loop_spec request (declared_capability_order request) false false [])
    as [(b & x & a & Ho & H1 & H2 & H3)|(H1 & disp & H2 & H3)].
  - rewrite H3. simpl. split; [done|]. split; [done|]. by exists b, a.
  - rewrite H2. simpl. split; [|done]. rewrite H3. by repeat case_step.
Qed.
End routing.

(** ** Evaluation *)
Definition sample_digest : rstr := str "sha256:" ++ repeat 97 64.

#[local] Instance sample_canonical {T} : Canonical T := λ _, Ok sample_digest.

Definition sample_candidate (id : string) (a : CapabilityAvailabilityV1) : CapabilityRouteCandidateV1 := {|
  capability_id := str id; use_case_id := str "review"; availability := a;
  scope_match := ScopeMatch; effect_class := EffectRead; truth_source_state := TruthFresh;
  candidate_catalog_revision := 3; candidate_catalog_digest := sample_digest;
  capability_digest := sample_digest;
|}.

Definition sample_request : CapabilityRoutingRequestV1 := {|
  requested_use_case_id := str "review";
  declared_capability_order := [str "lsp"; str "graph"; str "text"];
  candidates := [sample_candidate "text" CapAvailable; sample_candidate "graph" CapAvailable;
                 sample_candidate "lsp" CapStale];
  grant := {| grant_id := str "grant"; grant_revision := 1; grant_digest := sample_digest;
              allowed_capabilities := [str "graph"; str "lsp"; str "text"];
              allowed_use_cases := [str "review"]; issued_at := 10; grant_expires_at := 100;
              grant_state := GrantIsActive |};
  required_effect_class := EffectRead; required_freshness := RequireFresh;
  catalog_revision := 3; catalog_digest := sample_digest; policy_revision := 1;
  request_policy_digest := sample_digest; configuration_digest := sample_digest;
  deadline := 60; cancellation := NotCancelled; evaluated_at := 50;
|}.

(** The stale first choice is skipped with its reason, the second is taken. *)
Example sample_request_routes :
  (disposition (evaluate sample_request), selected_capability_id (evaluate sample_request),
   ordered_reason_codes (evaluate sample_request)) =
  (RoutingAllow, Some (str "graph"), [CapabilityStale; Selected]).
Proof. vm_compute. reflexivity. Qed.
