(* ===== verification/PolicyDecisions.v ===== *)
(** * Git effects, curation and hints

    The pure evaluators of [tracedecay-policy/src/git.rs], [curation.rs] and
    [hint_delivery.rs]. *)
From stdpp Require Import base list numbers sets strings.
From S2P Require Import Prelude RustText PolicyRouting.

#[local] Open Scope Z_scope.
#[local] Open Scope rust_scope.

(** ** git.rs *)
Inductive GitIndexEffectV1 : Type := GitPreview | StageHunks | UnstageHunks.

Inductive GitEffectClassV1 : Type := PreviewClass | IndexMutation.

Definition class (self : GitIndexEffectV1) : GitEffectClassV1 :=
  match self with
  | GitPreview => PreviewClass
  | StageHunks | UnstageHunks => IndexMutation
  end.

Definition requires_preview (self : GitIndexEffectV1) : bool :=
  match self with GitPreview => false | _ => true end.

Record GitRepositoryStateFactV1 : Type := {
  snapshot_id : rstr;
  snapshot_digest : rstr;
  mutation_eligible : bool;
}.

Record GitEffectAuthorizationV1 : Type := {
  capability_granted : bool;
  owner_scope_matches : bool;
}.

Record GitPreviewPreconditionV1 : Type := {
  preview_digest : rstr;
  repository_state_id : rstr;
}.

Inductive GitConflictRiskV1 : Type := NoneKnown | Possible | Confirmed.

Record GitEffectClassificationInputV1 : Type := {
  effect : GitIndexEffectV1;
  authorization : GitEffectAuthorizationV1;
  repository_state : GitRepositoryStateFactV1;
  expected_preview_digest : option rstr;
  preview : option GitPreviewPreconditionV1;
  conflict_risk : GitConflictRiskV1;
  git_policy_revision : Z;
  git_policy_digest : rstr;
  git_configuration_digest : rstr;
  git_evaluated_at : Z;
}.

Inductive GitEffectDispositionV1 : Type := GitAllow | GitDeny | GitIndeterminate.

Inductive GitEffectReasonV1 : Type :=
  | GitInvalidInput | CapabilityNotGranted | OwnerScopeMismatch | RepositoryStateIneligible
  | PreviewRequired | PreviewDigestMismatch | PreviewSnapshotMismatch | PossibleConflict
  | ConfirmedConflict | Classified.

Record GitEffectDecisionV1 : Type := {
  git_evaluator_id : rstr;
  git_evaluator_revision : Z;
  git_input_digest : rstr;
  git_decision_policy_revision : Z;
  git_decision_policy_digest : rstr;
  git_decision_configuration_digest : rstr;
  git_effect_class : GitEffectClassV1;
  git_disposition : GitEffectDispositionV1;
  git_reason_codes : list GitEffectReasonV1;
}.

Definition opt_digest_bad (d : option rstr) : bool :=
  match d with Some d => negb (digest_ok d) | None => false end.

Definition git_input_invalid (input : GitEffectClassificationInputV1) : bool :=
  (git_policy_revision input =? 0)
  || negb (digest_ok (git_policy_digest input))
  || negb (digest_ok (git_configuration_digest input))
  || negb (identity_ok (snapshot_id (repository_state input)))
  || negb (digest_ok (snapshot_digest (repository_state input)))
  || match preview input with
     | Some p => negb (digest_ok (preview_digest p)) || negb (identity_ok (repository_state_id p))
     | None => false
     end
  || opt_digest_bad (expected_preview_digest input).

Definition classify_conflict (risk : GitConflictRiskV1) : GitEffectDispositionV1 * GitEffectReasonV1 :=
  match risk with
  | NoneKnown => (GitAllow, Classified)
  | Possible => (GitIndeterminate, PossibleConflict)
  | Confirmed => (GitDeny, ConfirmedConflict)
  end.

(** The disposition and the single reason of [evaluate]. *)
Definition classify (input : GitEffectClassificationInputV1) :
    GitEffectDispositionV1 * GitEffectReasonV1 :=
  if git_input_invalid input then (GitIndeterminate, GitInvalidInput)
  else if negb (capability_granted (authorization input)) then (GitDeny, CapabilityNotGranted)
  else if negb (owner_scope_matches (authorization input)) then (GitDeny, OwnerScopeMismatch)
  else if requires_preview (effect input) && negb (mutation_eligible (repository_state input))
  then (GitDeny, RepositoryStateIneligible)
  else if requires_preview (effect input) then
    match expected_preview_digest input with
    | None => (GitDeny, PreviewRequired)
    | Some expected =>
      match preview input with
      | None => (GitDeny, PreviewRequired)
      | Some p =>
        if negb (bool_decide (preview_digest p = expected)) then (GitDeny, PreviewDigestMismatch)
        else if negb (bool_decide (repository_state_id p = snapshot_id (repository_state input)))
        then (GitDeny, PreviewSnapshotMismatch)
        else classify_conflict (conflict_risk input)
      end
    end
  else classify_conflict (conflict_risk input).

Definition git_evaluate `{Canonical (rstr * GitEffectClassificationInputV1)}
    (input : GitEffectClassificationInputV1) : GitEffectDecisionV1 := {|
  git_evaluator_id := str "git_effect_classification.v1";
  git_evaluator_revision := 1;
  git_input_digest := policy_digest (str "tracedecay.policy.git-effect-input.v1") input;
  git_decision_policy_revision := git_policy_revision input;
  git_decision_policy_digest := git_policy_digest input;
  git_decision_configuration_digest := git_configuration_digest input;
  git_effect_class := class (effect input);
  git_disposition := fst (classify input);
  git_reason_codes := [snd (classify input)];
|}.

(** An index mutation is allowed only on the exact previewed state. The
    classifier allows an effect exactly when the input is well formed, the
    capability is granted in the owner's scope, no conflict is known, and, for
    staging or unstaging hunks, the repository state is eligible and a preview
    of this very snapshot carries the digest the apply request expects. *)
Theorem git_effect_allowed_iff `{Canonical (rstr * GitEffectClassificationInputV1)} input :
  git_disposition (git_evaluate input) = GitAllow ↔
  git_input_invalid input = false ∧ capability_granted (authorization input) = true ∧
  owner_scope_matches (authorization input) = true ∧ conflict_risk input = NoneKnown ∧
  (class (effect input) = IndexMutation →
   mutation_eligible (repository_state input) = true ∧
   ∃ digest, expected_preview_digest input = Some digest ∧
     preview input = Some {| preview_digest := digest;
                             repository_state_id := snapshot_id (repository_state input) |}).
Proof.
  unfold git_evaluate, classify. simpl.
  destruct (git_input_invalid input); simpl; [naive_solver|].
  destruct (capability_granted _); simpl; [|naive_solver].
  destruct (owner_scope_matches _); simpl; [|naive_solver].
  assert (Hrisk : fst (classify_conflict (conflict_risk input)) = GitAllow ↔
    conflict_risk input = NoneKnown) by (destruct (conflict_risk input); simpl; naive_solver).
  assert (Hclass : class (effect input) = IndexMutation ↔ requires_preview (effect input) = true)
    by (destruct (effect input); simpl; naive_solver).
  destruct (requires_preview (effect input)); simpl; [|naive_solver].
  destruct (mutation_eligible _); simpl; [|naive_solver].
  destruct (expected_preview_digest input) as [e|]; [|naive_solver].
  destruct (preview input) as [p|]; [|naive_solver].
  case_bool_decide as E1; simpl; [|naive_solver].
  case_bool_decide as E2; simpl; [|naive_solver].
  destruct p; simpl in *. naive_solver.
Qed.

(** ** curation.rs *)
Definition CURATION_APPLY_EVALUATOR_ID_V1 : rstr := str "tracedecay.curation-apply.v1".
Definition CURATION_APPLY_EVALUATOR_REVISION_V1 : Z := 1.

Inductive CurationApplySubjectV1 : Type := MemoryCurator | SessionReflector | SkillWriter.

Inductive CurationValidationDispositionV1 : Type := ValidationAccepted | ValidationNoCandidate.

Record CurationApplyAuthorityV1 : Type := {
  actor_id : rstr;
  authority_project_id : option rstr;
  profile_id : rstr;
  configuration_revision_id : rstr;
}.

Record CurationApplyPolicyInputV1 : Type := {
  authority : CurationApplyAuthorityV1;
  subject : CurationApplySubjectV1;
  evidence_digest : option rstr;
  output_digest : rstr;
  validation : CurationValidationDispositionV1;
  curation_configuration_digest : rstr;
}.

Inductive CurationApplyDispositionV1 : Type :=
  | CurationAllow | CurationDeny | CurationNotApplicable | CurationIndeterminate.

Inductive CurationApplyReasonCodeV1 : Type :=
  | CurationInvalidInput | UnauthorizedActor | NoCandidate | EvidenceUnavailable | CurationAllowed.

Record CurationApplyDecisionV1 : Type := {
  curation_evaluator_id : rstr;
  curation_evaluator_revision : Z;
  curation_evaluator_digest : rstr;
  curation_input_digest : rstr;
  decision_authority : CurationApplyAuthorityV1;
  decision_subject : CurationApplySubjectV1;
  decision_evidence_digest : option rstr;
  decision_output_digest : rstr;
  decision_validation : CurationValidationDispositionV1;
  curation_decision_configuration_digest : rstr;
  curation_disposition : CurationApplyDispositionV1;
  curation_reason_codes : list CurationApplyReasonCodeV1;
  decision_digest : rstr;
}.

Definition allows_apply (self : CurationApplyDecisionV1) : bool :=
  match curation_disposition self with CurationAllow => true | _ => false end.

Definition subject_actor (s : CurationApplySubjectV1) : rstr :=
  match s with
  | MemoryCurator => str "automation:memory-curator"
  | SessionReflector => str "automation:session-reflector"
  | SkillWriter => str "automation:skill-writer"
  end.

Definition opt_identity_bad (d : option rstr) : bool :=
  match d with Some d => negb (identity_ok d) | None => false end.

Definition curation_invalid (input : CurationApplyPolicyInputV1) : bool :=
  negb (identity_ok (actor_id (authority input)))
  || negb (identity_ok (profile_id (authority input)))
  || negb (identity_ok (configuration_revision_id (authority input)))
  || opt_identity_bad (authority_project_id (authority input))
  || negb (digest_ok (output_digest input))
  || negb (digest_ok (curation_configuration_digest input))
  || opt_digest_bad (evidence_digest input).

Definition curation_outcome (input : CurationApplyPolicyInputV1) :
    CurationApplyDispositionV1 * list CurationApplyReasonCodeV1 :=
  if curation_invalid input then (CurationDeny, [CurationInvalidInput])
  else if negb (bool_decide (actor_id (authority input) = subject_actor (subject input)))
  then (CurationDeny, [UnauthorizedActor])
  else match validation input with
  | ValidationNoCandidate => (CurationNotApplicable, [NoCandidate])
  | ValidationAccepted =>
    match evidence_digest input with
    | None => (CurationIndeterminate, [EvidenceUnavailable])
    | Some _ => (CurationAllow, [CurationAllowed])
    end
  end.

(** The tuple whose digest seals a decision. *)
Record CurationSeal : Type := {
  seal_evaluator_digest : rstr;
  seal_input_digest : rstr;
  seal_input : CurationApplyPolicyInputV1;
  seal_outcome : CurationApplyDispositionV1 * list CurationApplyReasonCodeV1;
}.

Definition evaluate_curation_apply `{Canonical CurationApplyPolicyInputV1} `{Canonical (rstr * Z)}
    `{Canonical (rstr * Z * CurationSeal)} (input : CurationApplyPolicyInputV1) :
    result CurationApplyDecisionV1 DomainError :=
  let? input_digest := canonical_sha256 input in
  let outcome := curation_outcome input in
  let? evaluator_digest :=
    canonical_sha256 (CURATION_APPLY_EVALUATOR_ID_V1, CURATION_APPLY_EVALUATOR_REVISION_V1) in
  let? decision_digest :=
    canonical_sha256 (CURATION_APPLY_EVALUATOR_ID_V1, CURATION_APPLY_EVALUATOR_REVISION_V1,
      {| seal_evaluator_digest := evaluator_digest; seal_input_digest := input_digest;
         seal_input := input; seal_outcome := outcome |}) in
  Ok {|
    curation_evaluator_id := CURATION_APPLY_EVALUATOR_ID_V1;
    curation_evaluator_revision := CURATION_APPLY_EVALUATOR_REVISION_V1;
    curation_evaluator_digest := evaluator_digest;
    curation_input_digest := input_digest;
    decision_authority := authority input;
    decision_subject := subject input;
    decision_evidence_digest := evidence_digest input;
    decision_output_digest := output_digest input;
    decision_validation := validation input;
    curation_decision_configuration_digest := curation_configuration_digest input;
    curation_disposition := fst outcome;
    curation_reason_codes := snd outcome;
    decision_digest := decision_digest;
  |}.

(** Automatic curation applies only its own actor's accepted, evidenced
    output: whenever the evaluator returns a decision that allows the apply,
    the input is well formed, the actor is the one automation actor of the
    subject, the validation accepted a candidate and an evidence digest is
    present; and the decision carries exactly the input it was made on. *)
Theorem curation_allows_only_evidenced_output `{Canonical CurationApplyPolicyInputV1}
    `{Canonical (rstr * Z)} `{Canonical (rstr * Z * CurationSeal)} input d :
  evaluate_curation_apply input = Ok d →
  (allows_apply d = true ↔
   curation_invalid input = false ∧ actor_id (authority input) = subject_actor (subject input) ∧
   validation input = ValidationAccepted ∧ ∃ e, evidence_digest input = Some e ∧ digest_ok e = true) ∧
  decision_authority d = authority input ∧ decision_output_digest d = output_digest input ∧
  decision_evidence_digest d = evidence_digest input ∧
  canonical_sha256 input = Ok (curation_input_digest d).
Proof.
  unfold evaluate_curation_apply. destruct (canonical_sha256 input) as [di|]; [|done].
  destruct (canonical_sha256 (_, _)) as [de|]; [|done].
  destruct (canonical_sha256 (_, _, _)) as [dd|]; [|done]. intros [= <-]. simpl.
  split; [|done]. unfold allows_apply. simpl. unfold curation_outcome.
  destruct (curation_invalid input) eqn:E; simpl; [naive_solver|].
  case_bool_decide; simpl; [|naive_solver].
  destruct (validation input); simpl; [|naive_solver].
  destruct (evidence_digest input) as [e|] eqn:Ee; simpl; [|naive_solver].
  split; [|done]. intros _. split_and!; try done. exists e. split; [done|].
  unfold curation_invalid in E. bools. rewrite Ee in *. simpl in *. bools. done.
Qed.

(** ** hint_delivery.rs *)
Record HintDeliveryInputV1 : Type := {
  category_was_delivered : bool;
  escalation_was_delivered : bool;
  triggers_after_delivery : Z;
  delivered_in_session : Z;
  session_limit : Z;
  escalation_threshold : Z;
}.

Inductive HintDeliveryDecisionV1 : Type :=
  | Deliver | DeliverEscalation | SuppressDuplicate | SuppressBudget.

Definition decide_hint_delivery (input : HintDeliveryInputV1) : HintDeliveryDecisionV1 :=
  if negb (category_was_delivered input) then
    if delivered_in_session input >=? session_limit input then SuppressBudget else Deliver
  else if escalation_was_delivered input
       || (sat_add u32_max (triggers_after_delivery input) 1 <? escalation_threshold input)
  then SuppressDuplicate
  else if delivered_in_session input >=? session_limit input then SuppressBudget
  else DeliverEscalation.

(** ** Evaluation *)
Definition sample_git_input (e : GitIndexEffectV1) (state : string) : GitEffectClassificationInputV1 := {|
  effect := e;
  authorization := {| capability_granted := true; owner_scope_matches := true |};
  repository_state := {| snapshot_id := str state; snapshot_digest := sample_digest;
                         mutation_eligible := true |};
  expected_preview_digest := Some sample_digest;
  preview := Some {| preview_digest := sample_digest; repository_state_id := str "state-1" |};
  conflict_risk := NoneKnown; git_policy_revision := 1; git_policy_digest := sample_digest;
  git_configuration_digest := sample_digest; git_evaluated_at := 5;
|}.

(** A preview of another snapshot does not authorize the mutation. *)
Example sample_git_inputs :
  fst (classify (sample_git_input StageHunks "state-1")) = GitAllow ∧
  classify (sample_git_input StageHunks "state-2") = (GitDeny, PreviewSnapshotMismatch).
Proof. split; vm_compute; reflexivity. Qed.

#[local] Instance constant_canonical {T} : Canonical T := λ _, Ok sample_digest.

Definition sample_curation : CurationApplyPolicyInputV1 := {|
  authority := {| actor_id := str "automation:skill-writer"; authority_project_id := None;
                  profile_id := str "default"; configuration_revision_id := str "rev-1" |};
  subject := SkillWriter; evidence_digest := Some sample_digest; output_digest := sample_digest;
  validation := ValidationAccepted; curation_configuration_digest := sample_digest;
|}.

Definition sample_curation_decision : CurationApplyDecisionV1 := {|
  curation_evaluator_id := CURATION_APPLY_EVALUATOR_ID_V1; curation_evaluator_revision := 1;
  curation_evaluator_digest := sample_digest; curation_input_digest := sample_digest;
  decision_authority := authority sample_curation; decision_subject := SkillWriter;
  decision_evidence_digest := Some sample_digest; decision_output_digest := sample_digest;
  decision_validation := ValidationAccepted;
  curation_decision_configuration_digest := sample_digest;
  curation_disposition := CurationAllow; curation_reason_codes := [CurationAllowed];
  decision_digest := sample_digest;
|}.

Lemma curation_allows_only_evidenced_output_witness :
  evaluate_curation_apply sample_curation = Ok sample_curation_decision ∧
  actor_id (authority sample_curation) = subject_actor (subject sample_curation).
Proof.
  assert (evaluate_curation_apply sample_curation = Ok sample_curation_decision) as E
    by (vm_compute; reflexivity).
  split; [exact E|].
  destruct (curation_allows_only_evidenced_output sample_curation sample_curation_decision E)
    as [[Hallow _] _].
  exact (proj1 (proj2 (Hallow eq_refl))).
Defined.
