(* ===== verification/PolicyConfiguration.v ===== *)
(** * Configuration mutation grants and analyzer admission

    [tracedecay-policy/src/configuration.rs] over the grant receipts of
    [tracedecay-domain/src/configuration.rs]: a receipt is sealed by its
    digest when it is issued, and rechecked against the current grant before
    the mutation; and [tracedecay-policy/src/analyzer.rs] over the analyzer
    settings of the same domain file: the one configured analyzer of a
    language is admitted, or none. *)
From stdpp Require Import base list numbers sets sorting strings.
From S2P Require Import Prelude RustText PolicyRouting.

#[local] Open Scope Z_scope.
#[local] Open Scope rust_scope.

(** ** Receipts *)
Definition CONFIGURATION_GRANT_RECEIPT_DIGEST_DOMAIN : rstr :=
  str "tracedecay.configuration.grant-receipt.v1".

Inductive ConfigurationMutationOperationV1 : Type :=
  | DirectMutation | ProtectedDryRun | ProtectedApply | RollbackDryRun | RollbackApply.

#[export] Instance ConfigurationMutationOperationV1_eq_dec : EqDecision ConfigurationMutationOperationV1.
Proof. solve_decision. Defined.

Inductive ConfigurationMutationSinkV1 : Type := ConfigurationStore | ConfigurationAudit.

#[export] Instance ConfigurationMutationSinkV1_eq_dec : EqDecision ConfigurationMutationSinkV1.
Proof. solve_decision. Defined.

Inductive ConfigurationMutationEffectV1 : Type :=
  | AppendAuditOnly | CreateProtectedChangePlan | CommitConfigurationRevision.

#[export] Instance ConfigurationMutationEffectV1_eq_dec : EqDecision ConfigurationMutationEffectV1.
Proof. solve_decision. Defined.

(** Every field of a receipt but its digest, in the order of the sealed tuple. *)
Record ReceiptFields : Type := {
  receipt_id : rstr;
  r_grant_id : rstr;
  r_actor_id : rstr;
  r_operation : ConfigurationMutationOperationV1;
  r_scope_digest : rstr;
  r_expected_configuration_revision : rstr;
  r_policy_epoch : Z;
  r_policy_digest : rstr;
  r_sink : ConfigurationMutationSinkV1;
  r_effect : ConfigurationMutationEffectV1;
  idempotency_key : option rstr;
  r_issued_at : Z;
  r_expires_at : Z;
}.

Record ConfigurationMutationGrantReceiptV1 : Type := {
  fields : ReceiptFields;
  receipt_digest : rstr;
}.

#[export] Instance ReceiptFields_eq_dec : EqDecision ReceiptFields.
Proof. solve_decision. Defined.

#[export] Instance ConfigurationMutationGrantReceiptV1_eq_dec : EqDecision ConfigurationMutationGrantReceiptV1.
Proof. solve_decision. Defined.

Definition is_apply (operation : ConfigurationMutationOperationV1) : bool :=
  match operation with
  | DirectMutation | ProtectedApply | RollbackApply => true
  | ProtectedDryRun | RollbackDryRun => false
  end.

Definition validate_fields (self : ReceiptFields) : result unit DomainError :=
  let? _ := validate_canonical_string (receipt_id self) (str "configuration grant receipt id") in
  let? _ := validate_canonical_string (r_grant_id self) (str "configuration grant id") in
  let? _ := validate_canonical_string (r_actor_id self) (str "ActorId") in
  let? _ := validate_integrity_digest (r_scope_digest self) (str "ManifestDigest") in
  let? _ := validate_canonical_string (r_expected_configuration_revision self)
              (str "configuration revision id") in
  let? _ := validate_integrity_digest (r_policy_digest self) (str "AccessPolicyDigest") in
  let? _ :=
    match is_apply (r_operation self), idempotency_key self with
    | true, Some key => validate_canonical_string key (str "configuration idempotency key")
    | true, None => Err (NonCanonical (str "configuration mutation grant receipt idempotency"))
    | false, None => Ok tt
    | false, Some _ => Err (NonCanonical (str "configuration mutation preview idempotency"))
    end in
  if (r_policy_epoch self =? 0) || (r_expires_at self <=? r_issued_at self)
  then Err (NonCanonical (str "configuration mutation grant receipt lifetime"))
  else Ok tt.

Section receipts.
Context `{Canonical (rstr * ReceiptFields)} `{Canonical rstr}.

Definition compute_digest (self : ReceiptFields) : result rstr DomainError :=
  canonical_sha256 (CONFIGURATION_GRANT_RECEIPT_DIGEST_DOMAIN, self).

Definition issue (f : ReceiptFields) : result ConfigurationMutationGrantReceiptV1 DomainError :=
  let? _ := canonical_sha256 (str "pending") in
  let? _ := validate_fields f in
  let? digest := compute_digest f in
  Ok {| fields := f; receipt_digest := digest |}.

Definition receipt_validate (self : ConfigurationMutationGrantReceiptV1) : result unit DomainError :=
  let? _ := validate_fields (fields self) in
  let? digest := compute_digest (fields self) in
  if negb (bool_decide (receipt_digest self = digest)) then Err DigestMismatch else Ok tt.

Definition validate_for (self : ConfigurationMutationGrantReceiptV1) (actor_id : rstr)
    (operation : ConfigurationMutationOperationV1) (scope_digest expected_revision : rstr)
    (sink : ConfigurationMutationSinkV1) (effect : ConfigurationMutationEffectV1) (now : Z) :
    result unit DomainError :=
  let? _ := receipt_validate self in
  if negb (bool_decide (r_actor_id (fields self) = actor_id))
     || negb (bool_decide (r_operation (fields self) = operation))
     || negb (bool_decide (r_scope_digest (fields self) = scope_digest))
     || negb (bool_decide (r_expected_configuration_revision (fields self) = expected_revision))
     || negb (bool_decide (r_sink (fields self) = sink))
     || negb (bool_decide (r_effect (fields self) = effect))
     || (now <? r_issued_at (fields self))
     || (now >=? r_expires_at (fields self))
  then Err (SnapshotMismatch (str "configuration mutation grant receipt"))
  else Ok tt.

(** ** The recheck *)
Inductive ConfigurationMutationGrantStateV1 : Type :=
  | ConfigActive | ConfigRevoked | ConfigStale | ConfigAmbiguous.

Record ConfigurationMutationPermissionV1 : Type := {
  p_operation : ConfigurationMutationOperationV1;
  p_sink : ConfigurationMutationSinkV1;
  p_effect : ConfigurationMutationEffectV1;
}.

#[export] Instance ConfigurationMutationPermissionV1_eq_dec : EqDecision ConfigurationMutationPermissionV1.
Proof. solve_decision. Defined.

Record ConfigurationMutationGrantSnapshotV1 : Type := {
  g_grant_id : rstr;
  g_grant_revision : Z;
  g_grant_digest : rstr;
  authorized_receipt_digest : rstr;
  g_actor_id : rstr;
  g_scope_digest : rstr;
  g_expected_configuration_revision : rstr;
  permissions : list ConfigurationMutationPermissionV1;
  g_policy_epoch : Z;
  g_policy_digest : rstr;
  g_issued_at : Z;
  g_expires_at : Z;
  g_state : ConfigurationMutationGrantStateV1;
}.

Definition snapshot_is_valid (self : ConfigurationMutationGrantSnapshotV1) : bool :=
  identity_ok (g_grant_id self)
  && (g_grant_revision self >? 0)
  && digest_ok (g_grant_digest self)
  && digest_ok (authorized_receipt_digest self)
  && identity_ok (g_actor_id self)
  && digest_ok (g_scope_digest self)
  && identity_ok (g_expected_configuration_revision self)
  && negb (is_empty (permissions self))
  && (g_policy_epoch self >? 0)
  && digest_ok (g_policy_digest self)
  && (g_issued_at self <? g_expires_at self).

Record ConfigurationMutationRecheckInputV1 : Type := {
  receipt : ConfigurationMutationGrantReceiptV1;
  operation : ConfigurationMutationOperationV1;
  expected_revision : rstr;
  sink : ConfigurationMutationSinkV1;
  config_effect : ConfigurationMutationEffectV1;
  recheck_at : Z;
}.

Inductive ConfigurationMutationRecheckDispositionV1 : Type :=
  | RecheckAllow | RecheckDeny | RecheckIndeterminate.

Definition configuration_evaluate (current : ConfigurationMutationGrantSnapshotV1)
    (input : ConfigurationMutationRecheckInputV1) : ConfigurationMutationRecheckDispositionV1 :=
  if negb (snapshot_is_valid current) then RecheckIndeterminate
  else match g_state current with
  | ConfigRevoked => RecheckDeny
  | ConfigStale | ConfigAmbiguous => RecheckIndeterminate
  | ConfigActive =>
    let r := fields (receipt input) in
    if (recheck_at input <? g_issued_at current)
       || (recheck_at input >=? g_expires_at current)
       || negb (bool_decide (r_grant_id r = g_grant_id current))
       || negb (bool_decide (receipt_digest (receipt input) = authorized_receipt_digest current))
       || negb (r_issued_at r =? g_issued_at current)
       || negb (r_expires_at r =? g_expires_at current)
       || negb (r_policy_epoch r =? g_policy_epoch current)
       || negb (bool_decide (r_policy_digest r = g_policy_digest current))
       || negb (bool_decide (expected_revision input = g_expected_configuration_revision current))
       || negb (bool_decide ({| p_operation := operation input; p_sink := sink input;
                                p_effect := config_effect input |} ∈ permissions current))
    then RecheckDeny
    else if is_err (validate_for (receipt input) (g_actor_id current) (operation input)
              (g_scope_digest current) (expected_revision input) (sink input)
              (config_effect input) (recheck_at input))
    then RecheckDeny
    else RecheckAllow
  end.

(** The receipt and the requested mutation both name exactly the current
    grant and one of its permissions. *)
Definition receipt_bound (current : ConfigurationMutationGrantSnapshotV1)
    (r : ConfigurationMutationGrantReceiptV1) (op : ConfigurationMutationOperationV1)
    (revision : rstr) (k : ConfigurationMutationSinkV1) (e : ConfigurationMutationEffectV1) : Prop :=
  r_grant_id (fields r) = g_grant_id current ∧
  receipt_digest r = authorized_receipt_digest current ∧
  r_issued_at (fields r) = g_issued_at current ∧ r_expires_at (fields r) = g_expires_at current ∧
  r_policy_epoch (fields r) = g_policy_epoch current ∧
  r_policy_digest (fields r) = g_policy_digest current ∧
  r_actor_id (fields r) = g_actor_id current ∧ r_scope_digest (fields r) = g_scope_digest current ∧
  revision = g_expected_configuration_revision current ∧
  r_expected_configuration_revision (fields r) = revision ∧
  r_operation (fields r) = op ∧ r_sink (fields r) = k ∧ r_effect (fields r) = e ∧
  {| p_operation := op; p_sink := k; p_effect := e |} ∈ permissions current.

Definition input_bound (current : ConfigurationMutationGrantSnapshotV1)
    (input : ConfigurationMutationRecheckInputV1) : Prop :=
  receipt_bound current (receipt input) (operation input) (expected_revision input) (sink input)
    (config_effect input).

Lemma receipt_validate_ok r :
  receipt_validate r = Ok tt ↔
  validate_fields (fields r) = Ok tt ∧ compute_digest (fields r) = Ok (receipt_digest r).
Proof.
  unfold receipt_validate. destruct (validate_fields (fields r)) as [[]|]; [|naive_solver].
  destruct (compute_digest (fields r)) as [d|]; [|naive_solver].
  case_bool_decide; simpl; naive_solver.
Qed.

Lemma validate_for_ok r a o s e k f now :
  validate_for r a o s e k f now = Ok tt ↔
  receipt_validate r = Ok tt ∧ r_actor_id (fields r) = a ∧ r_operation (fields r) = o ∧
  r_scope_digest (fields r) = s ∧ r_expected_configuration_revision (fields r) = e ∧
  r_sink (fields r) = k ∧ r_effect (fields r) = f ∧
  r_issued_at (fields r) <= now < r_expires_at (fields r).
Proof.
  unfold validate_for. destruct (receipt_validate r) as [[]|]; [|naive_solver].
  destruct (_ || _) eqn:E.
  - split; [done|]. intros (_ & E1 & E2 & E3 & E4 & E5 & E6 & Hnow). subst.
    rewrite !bool_decide_eq_true_2 in E by done. simpl in E. rewrite Z.geb_leb in E. lia.
  - bools. rewrite Z.geb_leb in *. split; [|done]. intros _. split_and!; try done; lia.
Qed.

(** The dispositions and their conditions. *)
Lemma configuration_recheck_cases current input :
  match configuration_evaluate current input with
  | RecheckAllow =>
    snapshot_is_valid current = true ∧ g_state current = ConfigActive ∧
    g_issued_at current <= recheck_at input < g_expires_at current ∧ input_bound current input ∧
    receipt_validate (receipt input) = Ok tt
  | RecheckDeny =>
    snapshot_is_valid current = true ∧
    (g_state current = ConfigRevoked ∨ g_state current = ConfigActive ∧
     ¬ (g_issued_at current <= recheck_at input < g_expires_at current ∧
        input_bound current input ∧ receipt_validate (receipt input) = Ok tt))
  | RecheckIndeterminate =>
    snapshot_is_valid current = false ∨ g_state current = ConfigStale ∨
    g_state current = ConfigAmbiguous
  end.
Proof.
  unfold configuration_evaluate. destruct (snapshot_is_valid current) eqn:Hv; simpl; [|by left].
  destruct (g_state current) eqn:Hs; [|split; [done|by left]|by right; left|by right; right].
  destruct (_ || _) eqn:E.
  - split; [done|]. right. split; [done|].
    intros (Hw & (B1 & B2 & B3 & B4 & B5 & B6 & _ & _ & B7 & _ & _ & _ & _ & B8) & _).
    rewrite B1, B2, B3, B4, B5, B6, B7, !Z.eqb_refl, !bool_decide_eq_true_2 in E by done.
    simpl in E. rewrite Z.geb_leb in E. lia.
  - bools. rewrite Z.geb_leb in *.
    destruct (validate_for _ _ _ _ _ _ _ _) as [[]|] eqn:V; simpl.
    + apply validate_for_ok in V as (V0 & V1 & V2 & V3 & V4 & V5 & V6 & V7).
      unfold input_bound, receipt_bound. split_and!; try done; lia.
    + split; [done|]. right. split; [done|].
      intros (Hw & (B1 & B2 & B3 & B4 & B5 & B6 & B7 & B8 & B9 & B10 & B11 & B12 & B13 & _) & Hr).
      assert (validate_for (receipt input) (g_actor_id current) (operation input)
        (g_scope_digest current) (expected_revision input) (sink input)
        (config_effect input) (recheck_at input) = Ok tt) as V'; [|congruence].
      apply validate_for_ok. split_and!; try done; lia.
Qed.

Lemma issue_ok f r :
  issue f = Ok r → fields r = f ∧ compute_digest f = Ok (receipt_digest r) ∧ receipt_validate r = Ok tt.
Proof.
  unfold issue. intros Hi. repeat case_step_in Hi; try done. injection Hi as <-. split_and!; [done..|].
  apply receipt_validate_ok. simpl. by destruct (validate_fields f) as [[]|].
Qed.

(** C32. What was issued is what is allowed, and nothing else. For a receipt
    that was issued for a valid, active grant and that the grant authorizes,
    the recheck allows exactly one mutation: the one that presents that very
    receipt, with its operation, revision, sink and effect, at a time of its
    window. Every other request is denied, in particular one whose receipt
    differs in any field (another receipt id, actor, scope or idempotency key,
    a longer window), resealed or not: provided no other fields have the
    canonical digest of the issued ones. *)
Theorem only_the_issued_mutation_rechecks current f r input :
  issue f = Ok r → (∀ g, compute_digest g = compute_digest f → g = f) →
  snapshot_is_valid current = true → g_state current = ConfigActive →
  receipt_bound current r (r_operation f) (r_expected_configuration_revision f) (r_sink f) (r_effect f) →
  configuration_evaluate current input =
  if decide (receipt input = r ∧ operation input = r_operation f ∧
             expected_revision input = r_expected_configuration_revision f ∧ sink input = r_sink f ∧
             config_effect input = r_effect f ∧ r_issued_at f <= recheck_at input < r_expires_at f)
  then RecheckAllow else RecheckDeny.
Proof.
  intros Hi Hinj Hv Hs Hb. destruct (issue_ok f r Hi) as (Hf & Hd & Hr).
  pose proof (configuration_recheck_cases current input) as Hc.
  pose proof Hb as (_ & Hauth & Hi1 & Hi2 & _). rewrite Hf in Hi1, Hi2.
  destruct (configuration_evaluate current input).
  - destruct Hc as (_ & _ & Hw & Hin & Hval).
    destruct Hin as (_ & Hdig & _ & _ & _ & _ & _ & _ & _ & E1 & E2 & E3 & E4 & _).
    apply receipt_validate_ok in Hval as [_ Hseal].
    assert (fields (receipt input) = f) as Hsame.
    { apply Hinj. rewrite Hseal, Hd. congruence. }
    rewrite Hsame in *. rewrite decide_True; [done|]. split_and!; try done; try lia.
    destruct (receipt input), r; simpl in *; congruence.
  - rewrite decide_False; [done|]. intros (Hrc & Ho & He & Hk & Hef & Hw).
    destruct Hc as (_ & [?|[_ Hn]]); [congruence|]. apply Hn. unfold input_bound.
    rewrite Hrc, Ho, He, Hk, Hef. split_and!; try done; lia.
  - destruct Hc as [?|[?|?]]; congruence.
Qed.
End receipts.

(** ** Analyzer settings *)
Inductive AnalyzerStructuredValueV1 : Type :=
  | BooleanValue (b : bool)
  | IntegerValue (n : Z)
  | TextValue (value : rstr)
  | TextListValue (values : list rstr)
  | ObjectValue (values : list (rstr * AnalyzerStructuredValueV1)).

(** [for .. { .. ?; }] over values that validate. *)
Definition validate_each {A} (check : A → result unit DomainError) : list A → result unit DomainError :=
  fix go l :=
    match l with
    | [] => Ok tt
    | x :: l => let? _ := check x in go l
    end.

Fixpoint structured_validate (self : AnalyzerStructuredValueV1) : result unit DomainError :=
  match self with
  | BooleanValue _ | IntegerValue _ => Ok tt
  | TextValue value => validate_canonical_string value (str "analyzer setting text")
  | TextListValue values =>
    validate_each (λ value, validate_canonical_string value (str "analyzer setting text")) values
  | ObjectValue values =>
    validate_each (λ entry : rstr * AnalyzerStructuredValueV1,
      let? _ := validate_canonical_string (fst entry) (str "analyzer setting key") in
      structured_validate (snd entry)) values
  end.

Inductive AnalyzerExecutableReferenceV1 : Type :=
  | BuiltIn (executable_id : rstr)
  | ApprovedExternal (executable_digest : rstr).

Definition executable_validate (self : AnalyzerExecutableReferenceV1) : result unit DomainError :=
  match self with
  | BuiltIn executable_id => validate_canonical_string executable_id (str "analyzer executable id")
  | ApprovedExternal executable_digest =>
    validate_integrity_digest executable_digest (str "ManifestDigest")
  end.

Inductive AnalyzerPrivacyClassV1 : Type := NonSensitive | Sensitive | Restricted.

#[export] Instance AnalyzerPrivacyClassV1_eq_dec : EqDecision AnalyzerPrivacyClassV1.
Proof. solve_decision. Defined.

Record AnalyzerResourceLimitsV1 : Type := {
  maximum_memory_mib : Z;
  startup_timeout_millis : Z;
  request_timeout_millis : Z;
}.

Definition resource_limits_validate (self : AnalyzerResourceLimitsV1) : result unit DomainError :=
  if (maximum_memory_mib self =? 0) || (startup_timeout_millis self =? 0)
     || (request_timeout_millis self =? 0)
  then Err (NonCanonical (str "analyzer resource limits"))
  else Ok tt.

Inductive AnalyzerRestartPolicyV1 : Type := RestartOnConfigurationChange | ManualRestartOnly.

Record AnalyzerLanguageSelectionV1 : Type := {
  language_id : rstr;
  enabled : bool;
  executable : AnalyzerExecutableReferenceV1;
  arguments : list rstr;
  initialization_options : list (rstr * AnalyzerStructuredValueV1);
  selection_settings : list (rstr * AnalyzerStructuredValueV1);
  environment_allowlist : list rstr;
  privacy_class : AnalyzerPrivacyClassV1;
  resource_limits : AnalyzerResourceLimitsV1;
  restart_policy : AnalyzerRestartPolicyV1;
}.

(** The bytes of an environment variable name. *)
Definition variable_byte (b : Z) : bool := within 65 90 b || within 48 57 b || (b =? 95).

Definition variable_validate (variable : rstr) : result unit DomainError :=
  let? _ := validate_canonical_string variable (str "analyzer environment variable") in
  if negb (forallb variable_byte (utf8_encode variable))
  then Err (NonCanonical (str "analyzer environment variable"))
  else Ok tt.

Definition selection_validate (self : AnalyzerLanguageSelectionV1) : result unit DomainError :=
  let? _ := validate_canonical_string (language_id self) (str "analyzer language id") in
  let? _ := executable_validate (executable self) in
  let? _ := validate_each (λ argument, validate_canonical_string argument (str "analyzer argument"))
              (arguments self) in
  let? _ := validate_each (λ entry : rstr * AnalyzerStructuredValueV1,
              let? _ := validate_canonical_string (fst entry) (str "analyzer setting key") in
              structured_validate (snd entry))
              (initialization_options self ++ selection_settings self) in
  let? _ := validate_each variable_validate (environment_allowlist self) in
  resource_limits_validate (resource_limits self).

Record AnalyzerSettingsV1 : Type := {
  settings_schema_version : Z;
  selections : list AnalyzerLanguageSelectionV1;
}.

Definition ANALYZER_SETTINGS_SCHEMA_VERSION : Z := 1.

Definition str_ltb (a b : rstr) : bool :=
  match str_compare a b with Lt => true | _ => false end.

(** [windows(2)] without a pair [left >= right]. *)
Fixpoint languages_increase (l : list AnalyzerLanguageSelectionV1) : bool :=
  match l with
  | a :: ((b :: _) as rest) => str_ltb (language_id a) (language_id b) && languages_increase rest
  | _ => true
  end.

Definition settings_validate (self : AnalyzerSettingsV1) : result unit DomainError :=
  if negb (settings_schema_version self =? ANALYZER_SETTINGS_SCHEMA_VERSION)
  then Err (NonCanonical (str "analyzer settings schema version"))
  else
    let? _ := validate_each selection_validate (selections self) in
    if languages_increase (selections self) then Ok tt
    else Err (NonCanonical (str "analyzer language selection order")).

(** ** analyzer.rs *)
Definition ANALYZER_ADMISSION_SNAPSHOT_DOMAIN : rstr :=
  str "tracedecay.policy.analyzer-admission-snapshot.v1".

Inductive AnalyzerAvailabilityV1 : Type :=
  | AnalyzerAvailable | AnalyzerUnavailable | AnalyzerStale | AnalyzerUnknown.

Inductive AnalyzerExecutionLocationV1 : Type := LocalExecution | ExternalExecution.

#[export] Instance AnalyzerExecutionLocationV1_eq_dec : EqDecision AnalyzerExecutionLocationV1.
Proof. solve_decision. Defined.

Record AnalyzerCandidateV1 : Type := {
  a_executable_id : rstr;
  approved_external_digest : option rstr;
  a_language_id : rstr;
  a_capability_id : rstr;
  a_availability : AnalyzerAvailabilityV1;
  execution_location : AnalyzerExecutionLocationV1;
  scope_authorized : bool;
  available_memory_mib : Z;
  a_catalog_digest : rstr;
}.

Definition analyzer_candidate_is_valid (self : AnalyzerCandidateV1) : bool :=
  identity_ok (a_executable_id self)
  && match approved_external_digest self with Some digest => digest_ok digest | None => true end
  && identity_ok (a_language_id self)
  && identity_ok (a_capability_id self)
  && digest_ok (a_catalog_digest self).

Record AnalyzerAdmissionInputV1 : Type := {
  analyzer_settings : AnalyzerSettingsV1;
  i_language_id : rstr;
  requested_capability : rstr;
  analyzer_candidates : list AnalyzerCandidateV1;
  i_configuration_digest : rstr;
  i_policy_revision : Z;
  i_policy_digest : rstr;
  i_evaluated_at : Z;
}.

Inductive AnalyzerAdmissionDispositionV1 : Type :=
  | AnalyzerAllow | AnalyzerDeny | AnalyzerNotApplicable | AnalyzerIndeterminate.

Inductive AnalyzerAdmissionReasonV1 : Type :=
  | InvalidSettings | NoEnabledLanguageSelection | NoConfiguredCandidate | CandidateUnavailable
  | CandidateStale | CandidateUnknown | AnalyzerCandidateAmbiguous | ScopeUnauthorized
  | RestrictedPrivacy | InsufficientMemory | AnalyzerSelected.

Record AnalyzerAdmissionDecisionV1 : Type := {
  d_evaluator_id : rstr;
  d_evaluator_revision : Z;
  d_input_digest : rstr;
  d_policy_revision : Z;
  d_policy_digest : rstr;
  d_configuration_digest : rstr;
  d_disposition : AnalyzerAdmissionDispositionV1;
  selected_executable_id : option rstr;
  d_reason_codes : list AnalyzerAdmissionReasonV1;
}.

Record AnalyzerAdmissionSnapshotV1 : Type := {
  snapshot_decision : AnalyzerAdmissionDecisionV1;
  admission_snapshot_digest : rstr;
}.

Definition analyzer_input_invalid (input : AnalyzerAdmissionInputV1) : bool :=
  is_err (settings_validate (analyzer_settings input))
  || negb (identity_ok (i_language_id input))
  || negb (identity_ok (requested_capability input))
  || negb (digest_ok (i_configuration_digest input))
  || negb (digest_ok (i_policy_digest input))
  || (i_policy_revision input =? 0)
  || existsb (λ candidate, negb (analyzer_candidate_is_valid candidate)) (analyzer_candidates input).

(** The candidate is the analyzer the selection names. *)
Definition names_executable (selection : AnalyzerLanguageSelectionV1)
    (candidate : AnalyzerCandidateV1) : bool :=
  match executable selection with
  | BuiltIn executable_id => bool_decide (a_executable_id candidate = executable_id)
  | ApprovedExternal executable_digest =>
    bool_decide (approved_external_digest candidate = Some executable_digest)
  end.

Definition matching_candidates (input : AnalyzerAdmissionInputV1)
    (selection : AnalyzerLanguageSelectionV1) : list AnalyzerCandidateV1 :=
  List.filter (λ candidate,
    bool_decide (a_language_id candidate = i_language_id input)
    && bool_decide (a_capability_id candidate = requested_capability input)
    && names_executable selection candidate) (analyzer_candidates input).

Definition enabled_selection (input : AnalyzerAdmissionInputV1) : option AnalyzerLanguageSelectionV1 :=
  find (λ selection, bool_decide (language_id selection = i_language_id input) && enabled selection)
    (selections (analyzer_settings input)).

(** The disposition, the selection and the single reason of [evaluate]. *)
Definition admission_outcome (input : AnalyzerAdmissionInputV1) :
    AnalyzerAdmissionDispositionV1 * option rstr * AnalyzerAdmissionReasonV1 :=
  if analyzer_input_invalid input then (AnalyzerIndeterminate, None, InvalidSettings)
  else match enabled_selection input with
  | None => (AnalyzerNotApplicable, None, NoEnabledLanguageSelection)
  | Some selection =>
    let found := matching_candidates input selection in
    match head found with
    | None => (AnalyzerNotApplicable, None, NoConfiguredCandidate)
    | Some candidate =>
      if negb (length found =? 1)%nat then (AnalyzerIndeterminate, None, AnalyzerCandidateAmbiguous)
      else if negb (scope_authorized candidate) then (AnalyzerDeny, None, ScopeUnauthorized)
      else if bool_decide (privacy_class selection = Restricted)
              && bool_decide (execution_location candidate = ExternalExecution)
      then (AnalyzerDeny, None, RestrictedPrivacy)
      else if available_memory_mib candidate <? maximum_memory_mib (resource_limits selection)
      then (AnalyzerIndeterminate, None, InsufficientMemory)
      else match a_availability candidate with
      | AnalyzerAvailable => (AnalyzerAllow, Some (a_executable_id candidate), AnalyzerSelected)
      | AnalyzerUnavailable => (AnalyzerIndeterminate, None, CandidateUnavailable)
      | AnalyzerStale => (AnalyzerIndeterminate, None, CandidateStale)
      | AnalyzerUnknown => (AnalyzerIndeterminate, None, CandidateUnknown)
      end
    end
  end.

Section analyzer.
Context `{Canonical (rstr * AnalyzerAdmissionInputV1)} `{Canonical (rstr * AnalyzerAdmissionDecisionV1)}.

Definition analyzer_input_digest (input : AnalyzerAdmissionInputV1) : rstr :=
  policy_digest (str "tracedecay.policy.analyzer-admission-input.v1") input.

Definition analyzer_evaluate (input : AnalyzerAdmissionInputV1) : AnalyzerAdmissionDecisionV1 := {|
  d_evaluator_id := str "analyzer_admission.v1";
  d_evaluator_revision := 1;
  d_input_digest := analyzer_input_digest input;
  d_policy_revision := i_policy_revision input;
  d_policy_digest := i_policy_digest input;
  d_configuration_digest := i_configuration_digest input;
  d_disposition := fst (fst (admission_outcome input));
  selected_executable_id := snd (fst (admission_outcome input));
  d_reason_codes := [snd (admission_outcome input)];
|}.

Definition decision_is_bound_to (self : AnalyzerAdmissionDecisionV1) (input : AnalyzerAdmissionInputV1) :
    bool :=
  let selected_is_consistent :=
    match d_disposition self with
    | AnalyzerAllow => match selected_executable_id self with Some _ => true | None => false end
    | _ => match selected_executable_id self with Some _ => false | None => true end
    end in
  identifier_is_valid (d_evaluator_id self)
  && (d_evaluator_revision self >? 0)
  && bool_decide (d_input_digest self = analyzer_input_digest input)
  && (d_policy_revision self =? i_policy_revision input)
  && bool_decide (d_policy_digest self = i_policy_digest input)
  && bool_decide (d_configuration_digest self = i_configuration_digest input)
  && digest_ok (d_policy_digest self)
  && digest_ok (d_configuration_digest self)
  && negb (is_empty (d_reason_codes self))
  && selected_is_consistent.

Definition compose (input : AnalyzerAdmissionInputV1) : AnalyzerAdmissionSnapshotV1 :=
  let decision := analyzer_evaluate input in
  {| snapshot_decision := decision;
     admission_snapshot_digest := policy_digest ANALYZER_ADMISSION_SNAPSHOT_DOMAIN decision |}.

Definition snapshot_is_bound_to (self : AnalyzerAdmissionSnapshotV1) (input : AnalyzerAdmissionInputV1) :
    bool :=
  bool_decide (admission_snapshot_digest self =
               policy_digest ANALYZER_ADMISSION_SNAPSHOT_DOMAIN (snapshot_decision self))
  && digest_ok (admission_snapshot_digest self)
  && decision_is_bound_to (snapshot_decision self) input.

(** ** Lemmas *)
Lemma languages_increase_sorted l :
  languages_increase l = true →
  StronglySorted (λ a b, str_compare (language_id a) (language_id b) = Lt) l.
Proof.
  induction l as [|a [|b l] IH]; intros Hl; [constructor|repeat constructor|].
  simpl in Hl. apply andb_true_iff in Hl as [Hab Hl]. specialize (IH Hl).
  constructor; [done|]. unfold str_ltb in Hab.
  assert (str_compare (language_id a) (language_id b) = Lt) as Hlt by (by destruct (str_compare _ _)).
  constructor; [done|]. apply StronglySorted_inv in IH as [_ Hb].
  eapply Forall_impl; [exact Hb|]. intros c Hc. by eapply bytes_compare_lt_trans.
Qed.

(** Validated settings hold one selection per language. *)
Lemma settings_selection_unique settings s t :
  settings_validate settings = Ok tt → s ∈ selections settings → t ∈ selections settings →
  language_id s = language_id t → s = t.
Proof.
  unfold settings_validate. intros Hv. repeat case_step_in Hv; try done.
  assert (languages_increase (selections settings) = true) as Hl by done.
  apply languages_increase_sorted in Hl. clear -Hl. induction Hl as [|x l _ IH Hx]; [by intros ?%elem_of_nil|].
  rewrite Forall_forall in Hx. rewrite !elem_of_cons. intros [->|Hs] [->|Ht] E; [done|..|by apply IH].
  - specialize (Hx t Ht). rewrite E in Hx. unfold str_compare in Hx. by rewrite bytes_compare_refl in Hx.
  - specialize (Hx s Hs). rewrite E in Hx. unfold str_compare in Hx. by rewrite bytes_compare_refl in Hx.
Qed.

Lemma enabled_selection_spec input selection :
  analyzer_input_invalid input = false →
  enabled_selection input = Some selection ↔
  (∀ s, s ∈ selections (analyzer_settings input) ∧ language_id s = i_language_id input ↔ s = selection) ∧
  enabled selection = true.
Proof.
  unfold analyzer_input_invalid. intros Hv. bools.
  assert (settings_validate (analyzer_settings input) = Ok tt) as Hs.
  { unfold is_err, is_ok in *. by destruct (settings_validate _) as [[]|]. }
  unfold enabled_selection. split.
  - intros Hf. apply find_some in Hf as [Hin E]. apply list_elem_of_In in Hin. bools.
    split; [|done]. intros s. split; [|intros ->; done]. intros [Hs' Hl].
    eapply settings_selection_unique; [exact Hs|done|done|congruence].
  - intros [Hu He]. destruct (proj2 (Hu selection) eq_refl) as [Hin Hl].
    destruct (find _ _) as [t|] eqn:Hf.
    + apply find_some in Hf as [Ht E]. apply list_elem_of_In in Ht. bools. f_equal. by apply Hu.
    + apply list_elem_of_In in Hin. pose proof (find_none _ _ Hf selection Hin) as E. simpl in E.
      rewrite He, bool_decide_eq_true_2 in E by done. done.
Qed.

(** Analyzer admission never guesses. An executable is selected iff the
    input is well formed, the settings' one selection of the language is
    enabled, exactly one candidate of that language and capability is the
    analyzer the selection names, it is authorized and available, its memory
    covers the configured limit, and it is not external under a restricted
    privacy class; only then is the decision an allow. *)
Theorem analyzer_admission_exact input exe :
  let d := analyzer_evaluate input in
  (selected_executable_id d = Some exe ↔
   analyzer_input_invalid input = false ∧
   ∃ selection candidate,
     (∀ s, s ∈ selections (analyzer_settings input) ∧ language_id s = i_language_id input ↔ s = selection) ∧
     enabled selection = true ∧ matching_candidates input selection = [candidate] ∧
     scope_authorized candidate = true ∧ a_availability candidate = AnalyzerAvailable ∧
     maximum_memory_mib (resource_limits selection) <= available_memory_mib candidate ∧
     ¬ (privacy_class selection = Restricted ∧ execution_location candidate = ExternalExecution) ∧
     exe = a_executable_id candidate) ∧
  (d_disposition d = AnalyzerAllow ↔ selected_executable_id d ≠ None).
Proof.
  unfold analyzer_evaluate. simpl. unfold admission_outcome.
  destruct (analyzer_input_invalid input) eqn:Hv; [simpl; naive_solver|].
  pose proof (enabled_selection_spec input) as Hsel. specialize (λ s, Hsel s Hv) as Hsel'. clear Hsel.
  destruct (enabled_selection input) as [sel|] eqn:E.
  2:{ simpl. split; [|naive_solver]. split; [done|]. intros (_ & s & c & Hu & He & _).
      by assert (None = Some s) by by apply Hsel'. }
  destruct (proj1 (Hsel' sel) eq_refl) as [Hu He]. cbv zeta.
  assert (Hone : ∀ s, (∀ x, x ∈ selections (analyzer_settings input) ∧
    language_id x = i_language_id input ↔ x = s) → s = sel).
  { intros s Hs. apply Hu, Hs. done. }
  destruct (matching_candidates input sel) as [|c [|c' l]] eqn:Hm; simpl.
  - split; [|naive_solver]. split; [done|]. intros (_ & s & x & Hs & _ & Hx & _).
    rewrite (Hone s Hs), Hm in Hx. done.
  - assert (Hiff : ∀ P : Prop, (P ↔ (scope_authorized c = true ∧ a_availability c = AnalyzerAvailable ∧
      maximum_memory_mib (resource_limits sel) <= available_memory_mib c ∧
      ¬ (privacy_class sel = Restricted ∧ execution_location c = ExternalExecution) ∧
      exe = a_executable_id c)) → (P ↔ false = false ∧ ∃ selection candidate,
      (∀ s, s ∈ selections (analyzer_settings input) ∧ language_id s = i_language_id input ↔ s = selection) ∧
      enabled selection = true ∧ matching_candidates input selection = [candidate] ∧
      scope_authorized candidate = true ∧ a_availability candidate = AnalyzerAvailable ∧
      maximum_memory_mib (resource_limits selection) <= available_memory_mib candidate ∧
      ¬ (privacy_class selection = Restricted ∧ execution_location candidate = ExternalExecution) ∧
      exe = a_executable_id candidate)).
    { intros P ->. split.
      - intros Hc. split; [done|]. exists sel, c. done.
      - intros (_ & s & x & Hs & _ & Hx & Hc). rewrite (Hone s Hs) in *. rewrite Hm in Hx.
        by injection Hx as ->. }
    split; [apply Hiff|]; clear Hiff Hone Hu Hsel'.
    + destruct (scope_authorized c); simpl; [|naive_solver].
      destruct (bool_decide (privacy_class sel = Restricted) && _) eqn:Ep; simpl; [bools; naive_solver|].
      apply andb_false_iff in Ep. rewrite !bool_decide_eq_false in Ep.
      destruct (Z.ltb_spec (available_memory_mib c) (maximum_memory_mib (resource_limits sel)));
        simpl; [naive_solver lia|].
      destruct (a_availability c); simpl; naive_solver.
    + destruct (scope_authorized c); simpl; [|naive_solver].
      destruct (_ && _); simpl; [naive_solver|]. destruct (_ <? _); simpl; [naive_solver|].
      destruct (a_availability c); simpl; naive_solver.
  - split; [|naive_solver]. split; [done|]. intros (_ & s & x & Hs & _ & Hx & _).
    rewrite (Hone s Hs), Hm in Hx. done.
Qed.
End analyzer.

(** ** Evaluation *)
#[local] Instance constant_canonical {T} : Canonical T := λ _, Ok sample_digest.

Definition sample_fields : ReceiptFields := {|
  receipt_id := str "receipt-1"; r_grant_id := str "grant-1"; r_actor_id := str "actor";
  r_operation := DirectMutation; r_scope_digest := sample_digest;
  r_expected_configuration_revision := str "rev-1"; r_policy_epoch := 7;
  r_policy_digest := sample_digest; r_sink := ConfigurationStore;
  r_effect := CommitConfigurationRevision; idempotency_key := Some (str "key-1");
  r_issued_at := 10; r_expires_at := 20;
|}.

Definition sample_receipt : ConfigurationMutationGrantReceiptV1 :=
  {| fields := sample_fields; receipt_digest := sample_digest |}.

Definition sample_grant : ConfigurationMutationGrantSnapshotV1 := {|
  g_grant_id := str "grant-1"; g_grant_revision := 1; g_grant_digest := sample_digest;
  authorized_receipt_digest := sample_digest; g_actor_id := str "actor";
  g_scope_digest := sample_digest; g_expected_configuration_revision := str "rev-1";
  permissions := [{| p_operation := DirectMutation; p_sink := ConfigurationStore;
                     p_effect := CommitConfigurationRevision |}];
  g_policy_epoch := 7; g_policy_digest := sample_digest; g_issued_at := 10; g_expires_at := 20;
  g_state := ConfigActive;
|}.

(** The digest of the sample receipt, and another one for all other fields. *)
Definition sealing_canonical : Canonical (rstr * ReceiptFields) :=
  λ v, if decide (v.2 = sample_fields) then Ok sample_digest else Ok (str "other").

(** The issued receipt is allowed; with another idempotency key under the same
    seal it is denied. *)
Lemma only_the_issued_mutation_rechecks_witness :
  let input key := {| receipt := {| fields := {|
      receipt_id := str "receipt-1"; r_grant_id := str "grant-1"; r_actor_id := str "actor";
      r_operation := DirectMutation; r_scope_digest := sample_digest;
      r_expected_configuration_revision := str "rev-1"; r_policy_epoch := 7;
      r_policy_digest := sample_digest; r_sink := ConfigurationStore;
      r_effect := CommitConfigurationRevision; idempotency_key := Some (str key);
      r_issued_at := 10; r_expires_at := 20 |}; receipt_digest := sample_digest |};
    operation := DirectMutation; expected_revision := str "rev-1"; sink := ConfigurationStore;
    config_effect := CommitConfigurationRevision; recheck_at := 19 |} in
  @configuration_evaluate sealing_canonical sample_grant (input "key-1") = RecheckAllow ∧
  @configuration_evaluate sealing_canonical sample_grant (input "key-2") = RecheckDeny.
Proof.
  intros input.
  assert (∀ x, @configuration_evaluate sealing_canonical sample_grant x =
    if decide (receipt x = sample_receipt ∧ operation x = DirectMutation ∧ expected_revision x = str "rev-1" ∧
               sink x = ConfigurationStore ∧ config_effect x = CommitConfigurationRevision ∧
               10 <= recheck_at x < 20) then RecheckAllow else RecheckDeny) as E.
  { intros x.
    refine (@only_the_issued_mutation_rechecks sealing_canonical _ sample_grant sample_fields sample_receipt x _ _ _ _ _).
    - vm_compute. reflexivity.
    - intros g Hg. unfold compute_digest, canonical_sha256, sealing_canonical in Hg. cbn [snd] in Hg.
      rewrite (decide_True (P := sample_fields = sample_fields)) in Hg by reflexivity.
      destruct (decide (g = sample_fields)) as [->|]; [reflexivity|]. vm_compute in Hg. discriminate.
    - vm_compute. reflexivity.
    - reflexivity.
    - repeat split. left. }
  split; rewrite E; vm_compute; reflexivity.
Defined.

Definition sample_selection (language : string) (on : bool) : AnalyzerLanguageSelectionV1 := {|
  language_id := str language; enabled := on; executable := BuiltIn (str "rust-analyzer");
  arguments := []; initialization_options := []; selection_settings := [];
  environment_allowlist := [str "PATH"]; privacy_class := Restricted;
  resource_limits := {| maximum_memory_mib := 512; startup_timeout_millis := 1000;
                        request_timeout_millis := 1000 |};
  restart_policy := ManualRestartOnly;
|}.

Definition sample_analyzer (location : AnalyzerExecutionLocationV1) : AnalyzerAdmissionInputV1 := {|
  analyzer_settings := {| settings_schema_version := 1;
    selections := [sample_selection "python" true; sample_selection "rust" true] |};
  i_language_id := str "rust"; requested_capability := str "diagnostics";
  analyzer_candidates := [{| a_executable_id := str "rust-analyzer"; approved_external_digest := None;
    a_language_id := str "rust"; a_capability_id := str "diagnostics";
    a_availability := AnalyzerAvailable; execution_location := location; scope_authorized := true;
    available_memory_mib := 1024; a_catalog_digest := sample_digest |}];
  i_configuration_digest := sample_digest; i_policy_revision := 1;
  i_policy_digest := sample_digest; i_evaluated_at := 0;
|}.

Example sample_analyzers :
  admission_outcome (sample_analyzer LocalExecution) =
    (AnalyzerAllow, Some (str "rust-analyzer"), AnalyzerSelected) ∧
  admission_outcome (sample_analyzer ExternalExecution) = (AnalyzerDeny, None, RestrictedPrivacy).
Proof. split; vm_compute; reflexivity. Qed.
