(* ===== verification/PolicyWorkLoop.v ===== *)
(** * The work-loop proposal evaluator

    [tracedecay-policy/src/work_loop.rs] over the route facts of
    [tracedecay-domain/src/work_routing.rs] and the execution policies of
    [work_execution_snapshot.rs] and [work_runtime.rs]: the gate ladder that
    recommends the next command for a task, and the planner that excludes,
    ranks and sizes the configured provider routes.

    The evaluator is pure: every fact is a field of the input.  Identity
    newtypes and digests are their strings, instants are microseconds. *)
From stdpp Require Import base list numbers sets sorting strings pretty.
From S2P Require Import Prelude RustText OrdMap PolicyRouting.

#[local] Open Scope Z_scope.
#[local] Open Scope rust_scope.

(** ** Route facts: work_routing.rs *)
Inductive WorkSandboxPolicy : Type := SandboxRequired.
Inductive WorkApprovalPolicy : Type := ApprovalNever | ApprovalOnRequest.
Inductive WorkFilesystemPolicy : Type := ReadOnly | WorkspaceWrite.
Inductive WorkEgressPolicy : Type := EgressDeny | EgressAllowlisted.

Record WorkExecutionLimits : Type := {
  max_input_tokens : Z;
  max_output_tokens : Z;
  max_stdout_bytes : Z;
  max_stderr_bytes : Z;
  max_protocol_bytes : Z;
  max_concurrency : Z;
}.

(** [WorkExecutionLimits::new]; [None] is [InvalidExecutionSnapshot]. *)
Definition limits_new (max_input_tokens max_output_tokens max_stdout_bytes max_stderr_bytes
    max_protocol_bytes max_concurrency : Z) : option WorkExecutionLimits :=
  if existsb (Z.eqb 0) [max_input_tokens; max_output_tokens; max_stdout_bytes; max_stderr_bytes;
                        max_protocol_bytes; max_concurrency]
  then None
  else Some {| max_input_tokens := max_input_tokens; max_output_tokens := max_output_tokens;
               max_stdout_bytes := max_stdout_bytes; max_stderr_bytes := max_stderr_bytes;
               max_protocol_bytes := max_protocol_bytes; max_concurrency := max_concurrency |}.

Record WorkExecutableReference : Type := {
  executable_id : rstr;
  artifact_digest : rstr;
}.

Record WorkProviderRouteV1 : Type := {
  wpr_provider_id : rstr;
  wpr_route_id : rstr;
}.

Inductive WorkFallbackTopology : Type :=
  | FallbackDisabled
  | FallbackCodexCli (route : WorkProviderRouteV1) (executable : WorkExecutableReference).

Inductive WorkProviderBackendV1 : Type := ClaudeCodeCli | CodexAppServer | CodexCli.

Definition backend_provider_id (self : WorkProviderBackendV1) : rstr :=
  match self with
  | ClaudeCodeCli => str "provider.work.claude-code-cli"
  | CodexAppServer => str "provider.work.codex-app-server"
  | CodexCli => str "provider.work.codex-cli"
  end.

Record WorkRouteExecutionProfileV1 : Type := {
  sandbox : WorkSandboxPolicy;
  approval : WorkApprovalPolicy;
  filesystem : WorkFilesystemPolicy;
  egress : WorkEgressPolicy;
  environment_allowlist : list rstr;
  credential_references : list rstr;
  limits : WorkExecutionLimits;
  maximum_duration_micros : Z;
  fallback : WorkFallbackTopology;
}.

Definition MAX_ROUTE_ENVIRONMENT_KEYS : Z := 128.
Definition MAX_ROUTE_CREDENTIAL_REFERENCES : Z := 64.

Definition environment_key_bad (key : rstr) : bool :=
  (str_len key >? 128) || is_empty key
  || negb (forallb (λ byte, within 65 90 byte || within 48 57 byte || (byte =? 95))
             (utf8_encode key)).

Definition profile_validate (self : WorkRouteExecutionProfileV1) (provider_id : rstr) :
    result unit DomainError :=
  if (maximum_duration_micros self =? 0)
     || (zlen (environment_allowlist self) >? MAX_ROUTE_ENVIRONMENT_KEYS)
     || (zlen (credential_references self) >? MAX_ROUTE_CREDENTIAL_REFERENCES)
     || existsb environment_key_bad (environment_allowlist self)
  then Err (NonCanonical (str "work route execution profile"))
  else match fallback self with
  | FallbackDisabled => Ok tt
  | FallbackCodexCli route _ =>
    if bool_decide (wpr_provider_id route = backend_provider_id CodexCli)
       && negb (bool_decide (provider_id = backend_provider_id CodexCli))
    then Ok tt
    else Err (NonCanonical (str "work route execution fallback"))
  end.

Inductive WorkOrdinalBandV1 : Type := Lowest | Low | Moderate | High | Highest.

#[export] Instance WorkOrdinalBandV1_eq_dec : EqDecision WorkOrdinalBandV1.
Proof. solve_decision. Defined.

Definition widened (self : WorkOrdinalBandV1) : WorkOrdinalBandV1 :=
  match self with
  | Lowest => Low
  | Low => Moderate
  | Moderate => High
  | High | Highest => Highest
  end.

Definition inverted (self : WorkOrdinalBandV1) : WorkOrdinalBandV1 :=
  match self with
  | Lowest => Highest
  | Low => High
  | Moderate => Moderate
  | High => Low
  | Highest => Lowest
  end.

(** The derived [Ord] of a band: its declaration order. *)
Definition band_rank (self : WorkOrdinalBandV1) : Z :=
  match self with Lowest => 0 | Low => 1 | Moderate => 2 | High => 3 | Highest => 4 end.

Definition band_max (a b : WorkOrdinalBandV1) : WorkOrdinalBandV1 :=
  if band_rank b <? band_rank a then a else b.

Inductive WorkContentLocationClassV1 : Type := Local_ | Tenant | External.

#[export] Instance WorkContentLocationClassV1_eq_dec : EqDecision WorkContentLocationClassV1.
Proof. solve_decision. Defined.

Inductive WorkEffortClassV1 : Type := Minimal | Standard | Extended.

Record WorkRouteCandidateV1 : Type := {
  route_id : rstr;
  provider_capability_id : rstr;
  model_id : rstr;
  effort : WorkEffortClassV1;
  declared_budget_ceiling : Z;
  route_content_location : WorkContentLocationClassV1;
  correctness : WorkOrdinalBandV1;
  sensitive_data_fitness : WorkOrdinalBandV1;
  latency : WorkOrdinalBandV1;
  cost : WorkOrdinalBandV1;
  autonomy : WorkOrdinalBandV1;
  evidence_quality : WorkOrdinalBandV1;
  execution : WorkRouteExecutionProfileV1;
}.

Definition route_candidate_validate (self : WorkRouteCandidateV1) : result unit DomainError :=
  if negb (identity_ok (route_id self))
  then Err (NonCanonical (str "work route candidate route id"))
  else if negb (identity_ok (provider_capability_id self))
  then Err (NonCanonical (str "work route candidate provider id"))
  else if negb (is_canonical_text_within (model_id self) 256) || (declared_budget_ceiling self =? 0)
  then Err (NonCanonical (str "work route candidate declaration"))
  else profile_validate (execution self) (provider_capability_id self).

(** ** The input: work_loop.rs *)
Inductive WorkProposalCancellationV1 : Type :=
  | WorkActive
  | WorkCancelled (requested_at : Z).

Record WorkEvidenceFrontierV1 : Type := {
  watermark : Z;
  frontier_digest : rstr;
}.

Definition frontier_is_valid (self : WorkEvidenceFrontierV1) : bool :=
  digest_ok (frontier_digest self).

Inductive WorkFrontierComparisonV1 : Type := Agree | Disagree | Incomparable.

#[export] Instance WorkFrontierComparisonV1_eq_dec : EqDecision WorkFrontierComparisonV1.
Proof. solve_decision. Defined.

Record WorkBudgetEnvelopeV1 : Type := {
  ceiling : Z;
  spent : Z;
}.

Record WorkContentLocationLimitV1 : Type := {
  allowed : list WorkContentLocationClassV1;
}.

Inductive WorkPriorTerminalV1 : Type :=
  | TerminalSucceeded | TerminalFailed | TerminalTimedOut | TerminalCancelled.

#[export] Instance WorkPriorTerminalV1_eq_dec : EqDecision WorkPriorTerminalV1.
Proof. solve_decision. Defined.

Record WorkPriorOutcomeV1 : Type := {
  outcome_route_id : rstr;
  outcome_accepted : bool;
  rework : bool;
  escaped_defect : bool;
  terminal : WorkPriorTerminalV1;
  observed_at : Z;
}.

Record WorkRouteOverrideV1 : Type := {
  override_route_id : rstr;
  recorded_at : Z;
}.

Inductive WorkProposalRuntimeCoverageV1 : Type :=
  | RuntimeComplete (attempt_count terminal_attempt_count : Z)
  | RuntimePartial
  | RuntimeUnavailable.

Record WorkProposalPolicyInputV1 : Type := {
  task_id : rstr;
  based_on_version : Z;
  dependency_count : Z;
  unresolved_dependency_count : Z;
  accepted_proposal_present : bool;
  execution_admitted : bool;
  task_accepted : bool;
  runtime : WorkProposalRuntimeCoverageV1;
  local_evidence : option WorkEvidenceFrontierV1;
  live_git_evidence : option WorkEvidenceFrontierV1;
  work_policy_revision : Z;
  work_policy_digest : rstr;
  work_configuration_digest : rstr;
  work_configuration_revision : option rstr;
  work_deadline : Z;
  work_cancellation : WorkProposalCancellationV1;
  work_evaluated_at : Z;
  eligible_routes : list WorkRouteCandidateV1;
  budget : option WorkBudgetEnvelopeV1;
  content_location : option WorkContentLocationLimitV1;
  prior_outcomes : list WorkPriorOutcomeV1;
  human_override : option WorkRouteOverrideV1;
}.

(** [Option::is_none_or] and [Option::is_some_and]. *)
Definition is_none_or {A} (o : option A) (f : A → bool) : bool :=
  match o with Some a => f a | None => true end.
Definition is_some_and {A} (o : option A) (f : A → bool) : bool :=
  match o with Some a => f a | None => false end.

(** [windows(2).all(|pair| pair[0] != pair[1])]. *)
Fixpoint windows_differ (l : list rstr) : bool :=
  match l with
  | x :: ((y :: _) as l) => negb (bool_decide (x = y)) && windows_differ l
  | _ => true
  end.

Definition routes_are_uniquely_identified (routes : list WorkRouteCandidateV1) : bool :=
  windows_differ (sort_by (cmp_leb str_compare) (route_id <$> routes)).

Definition input_is_valid (self : WorkProposalPolicyInputV1) : bool :=
  (based_on_version self >? 0)
  && (work_policy_revision self >? 0)
  && digest_ok (work_policy_digest self)
  && digest_ok (work_configuration_digest self)
  && (unresolved_dependency_count self <=? dependency_count self)
  && match runtime self with
     | RuntimeComplete attempt_count terminal_attempt_count =>
       terminal_attempt_count <=? attempt_count
     | RuntimePartial | RuntimeUnavailable => true
     end
  && is_none_or (local_evidence self) frontier_is_valid
  && is_none_or (live_git_evidence self) frontier_is_valid
  && is_none_or (budget self) (λ b, spent b <=? ceiling b)
  && routes_are_uniquely_identified (eligible_routes self).

(** ** The decision *)
Inductive WorkProposalDispositionV1 : Type :=
  | WorkAllow | WorkDeny | WorkAbstain | WorkIndeterminate.

Inductive WorkProposalActionV1 : Type :=
  | ProceedToAcceptance | HoldForDependencies | AdmitExecution | Replan.

Inductive WorkProposalReasonV1 : Type :=
  | WorkInvalidRequest | WorkRequestCancelled | WorkDeadlineExceeded | FrontierAgreement
  | FrontierDisagreement | FrontierIncomparable | TaskAccepted | RuntimeCoveragePartial
  | RuntimeCoverageUnavailable | TerminalEvidenceObserved | ExecutionInFlight
  | ProposalAccepted | DependenciesUnresolved | Ready | InsufficientCalibrationSupport
  | RouteBudgetExceeded | RouteContentLocationRefused | RouteEvidenceSparse
  | RouteEvidenceStale | HumanOverrideApplied | NoEligibleRoutes
  | DeterministicBaselineSelected.

Inductive WorkTaskShapeKindV1 : Type := Investigation | Change | Synthesis | Unclassified.

Record WorkTaskShapeV1 : Type := {
  shape_kind : WorkTaskShapeKindV1;
  shape_band : WorkOrdinalBandV1;
}.

Record WorkCalibratedSizingV1 : Type := {
  cohort : rstr;
  horizon : Z;
  support : Z;
  support_floor : Z;
  sizing_error : WorkOrdinalBandV1;
  drift_valid : bool;
  sizing_band : WorkOrdinalBandV1;
}.

Record WorkSubtaskSketchV1 : Type := {
  sketch_ordinal : Z;
  summary : rstr;
  sketch_shape : WorkTaskShapeKindV1;
}.

Record WorkDecompositionProposalV1 : Type := {
  sketches : list WorkSubtaskSketchV1;
  rationale : list WorkProposalReasonV1;
}.

Record WorkRankedRouteV1 : Type := {
  rank : Z;
  ranked_route_id : rstr;
  ranked_correctness : WorkOrdinalBandV1;
  ranked_sensitive_data_fitness : WorkOrdinalBandV1;
  ranked_latency : WorkOrdinalBandV1;
  ranked_cost : WorkOrdinalBandV1;
  ranked_autonomy : WorkOrdinalBandV1;
  ranked_evidence_quality : WorkOrdinalBandV1;
}.

Record WorkRouteExclusionV1 : Type := {
  excluded_route_id : rstr;
  exclusion_reason : WorkProposalReasonV1;
}.

Record WorkRoutePlanV1 : Type := {
  ranked : list WorkRankedRouteV1;
  exclusions : list WorkRouteExclusionV1;
  deterministic_baseline : option rstr;
  coverage : WorkOrdinalBandV1;
  uncertainty : WorkOrdinalBandV1;
  human_override_applied : bool;
}.

Definition WORK_CALIBRATION_SUPPORT_FLOOR : Z := 8.
Definition DECOMPOSITION_SKETCH_LIMIT : Z := 64.

Record WorkProposalDecisionV1 : Type := {
  work_evaluator_id : rstr;
  work_evaluator_revision : Z;
  work_input_digest : rstr;
  decided_task_id : rstr;
  decided_based_on_version : Z;
  decided_policy_revision : Z;
  decided_policy_digest : rstr;
  decided_configuration_digest : rstr;
  decided_configuration_revision : option rstr;
  work_disposition : WorkProposalDispositionV1;
  recommended_action : option WorkProposalActionV1;
  deterministic_fallback : bool;
  work_reason_codes : list WorkProposalReasonV1;
  decided_local_evidence : option WorkEvidenceFrontierV1;
  decided_live_git_evidence : option WorkEvidenceFrontierV1;
  frontier_comparison : WorkFrontierComparisonV1;
  shape : option WorkTaskShapeV1;
  sizing : option WorkCalibratedSizingV1;
  decomposition : option WorkDecompositionProposalV1;
  route_plan : option WorkRoutePlanV1;
}.

Definition WORK_EVALUATOR_REVISION : Z := 3.

(** ** The planner *)
Record WorkPlannerOutcome : Type := {
  plan_shape : WorkTaskShapeV1;
  plan_sizing : option WorkCalibratedSizingV1;
  plan_decomposition : option WorkDecompositionProposalV1;
  plan_route_plan : WorkRoutePlanV1;
  plan_reasons : list WorkProposalReasonV1;
  plan_deterministic_fallback : bool;
}.

Definition count_u32 (value : Z) : Z := if value <=? u32_max then value else u32_max.

Definition derive_shape (input : WorkProposalPolicyInputV1)
    (attempt_count terminal_attempt_count : Z) : WorkTaskShapeV1 :=
  let kind :=
    if terminal_attempt_count >? 0 then Synthesis
    else if execution_admitted input || accepted_proposal_present input then Change
    else if unresolved_dependency_count input >? 0 then Investigation
    else if (dependency_count input >? 0) || (attempt_count >? 0) then Change
    else Unclassified in
  let scale := sat_add u32_max (dependency_count input) attempt_count in
  let band :=
    if scale =? 0 then Lowest
    else if (1 <=? scale) && (scale <=? 2) then Low
    else if (3 <=? scale) && (scale <=? 5) then Moderate
    else if (6 <=? scale) && (scale <=? 9) then High
    else Highest in
  {| shape_kind := kind; shape_band := band |}.

(** The decimal text of an unsigned integer. *)
Definition dec (n : Z) : rstr := str (pretty (Z.to_N n)).

Definition sketch (declared ordinal : Z) : WorkSubtaskSketchV1 := {|
  sketch_ordinal := ordinal;
  summary := str "resolve unresolved dependency " ++ dec (sat_add u32_max ordinal 1)
             ++ str " of " ++ dec declared;
  sketch_shape := Investigation;
|}.

Definition derive_decomposition (input : WorkProposalPolicyInputV1) :
    option WorkDecompositionProposalV1 :=
  if unresolved_dependency_count input <=? 1 then None
  else
    let declared := unresolved_dependency_count input in
    let emitted := Z.min declared DECOMPOSITION_SKETCH_LIMIT in
    Some {| sketches := sketch declared <$> seqZ 0 emitted;
            rationale := [DependenciesUnresolved] |}.

(** The body of the loop of [partition_routes]: the limit a route fails. *)
Definition refusal (input : WorkProposalPolicyInputV1) (route : WorkRouteCandidateV1) :
    option WorkProposalReasonV1 :=
  let remaining_budget := (λ b, sat_sub (ceiling b) (spent b)) <$> budget input in
  if is_some_and remaining_budget (λ remaining, declared_budget_ceiling route >? remaining)
  then Some RouteBudgetExceeded
  else if is_some_and (content_location input)
            (λ limit, negb (bool_decide (route_content_location route ∈ allowed limit)))
  then Some RouteContentLocationRefused
  else None.

Fixpoint partition_loop (input : WorkProposalPolicyInputV1) (routes : list WorkRouteCandidateV1)
    (survivors : list WorkRouteCandidateV1) (excluded : list WorkRouteExclusionV1) :
    list WorkRouteCandidateV1 * list WorkRouteExclusionV1 :=
  match routes with
  | [] => (survivors, excluded)
  | route :: routes =>
    match refusal input route with
    | Some reason =>
      partition_loop input routes survivors
        (excluded ++ [{| excluded_route_id := route_id route; exclusion_reason := reason |}])
    | None => partition_loop input routes (survivors ++ [route]) excluded
    end
  end.

Definition partition_routes (input : WorkProposalPolicyInputV1) :
    list WorkRouteCandidateV1 * list WorkRouteExclusionV1 :=
  partition_loop input (eligible_routes input) [] [].

Definition band_cmp (a b : WorkOrdinalBandV1) : comparison := band_rank a ?= band_rank b.

(** The comparison of the ranking, the better route first. *)
Definition route_cmp (left right : WorkRouteCandidateV1) : comparison :=
  then_with (band_cmp (correctness right) (correctness left))
  (then_with (band_cmp (sensitive_data_fitness right) (sensitive_data_fitness left))
  (then_with (band_cmp (evidence_quality right) (evidence_quality left))
  (then_with (band_cmp (autonomy right) (autonomy left))
  (then_with (band_cmp (latency right) (latency left))
  (then_with (band_cmp (cost right) (cost left))
  (str_compare (route_id left) (route_id right))))))).

Definition rank_survivors (survivors : list WorkRouteCandidateV1) : list WorkRouteCandidateV1 :=
  sort_by (cmp_leb route_cmp) survivors.

Definition coverage_band (covered total : Z) : WorkOrdinalBandV1 :=
  if (total =? 0) || (covered =? 0) then Lowest
  else
    let scaled := sat_mul usize_max covered 4 in
    if scaled >=? sat_mul usize_max total 4 then Highest
    else if scaled >=? sat_mul usize_max total 3 then High
    else if scaled >=? sat_mul usize_max total 2 then Moderate
    else if scaled >=? total then Low
    else Lowest.

Definition error_band (adverse support : Z) : WorkOrdinalBandV1 :=
  if support =? 0 then Highest
  else if adverse =? 0 then Lowest
  else if sat_mul usize_max adverse 8 <=? support then Low
  else if sat_mul usize_max adverse 4 <=? support then Moderate
  else if sat_mul usize_max adverse 2 <=? support then High
  else Highest.

Definition is_adverse (outcome : WorkPriorOutcomeV1) : bool :=
  negb (outcome_accepted outcome) || rework outcome || escaped_defect outcome
  || negb (bool_decide (terminal outcome = TerminalSucceeded)).

Definition effort_band (effort : WorkEffortClassV1) : WorkOrdinalBandV1 :=
  match effort with Minimal => Low | Standard => Moderate | Extended => High end.

(** The promotion of a human-named survivor: [position], [remove] and
    [insert(0, _)]. *)
Fixpoint remove_route (id : rstr) (survivors : list WorkRouteCandidateV1) :
    option (WorkRouteCandidateV1 * list WorkRouteCandidateV1) :=
  match survivors with
  | [] => None
  | route :: rest =>
    if bool_decide (route_id route = id) then Some (route, rest)
    else match remove_route id rest with
         | Some (found, rest) => Some (found, route :: rest)
         | None => None
         end
  end.

Definition promote (input : WorkProposalPolicyInputV1) (survivors : list WorkRouteCandidateV1) :
    list WorkRouteCandidateV1 * bool :=
  match human_override input with
  | None => (survivors, false)
  | Some override_request =>
    match remove_route (override_route_id override_request) survivors with
    | Some (promoted, rest) => (promoted :: rest, true)
    | None => (survivors, false)
    end
  end.

Definition ranked_route (index : nat) (route : WorkRouteCandidateV1) : WorkRankedRouteV1 := {|
  rank := count_u32 (sat_add usize_max (Z.of_nat index) 1);
  ranked_route_id := route_id route;
  ranked_correctness := correctness route;
  ranked_sensitive_data_fitness := sensitive_data_fitness route;
  ranked_latency := latency route;
  ranked_cost := cost route;
  ranked_autonomy := autonomy route;
  ranked_evidence_quality := evidence_quality route;
|}.

Definition in_cohort (id : rstr) (outcome : WorkPriorOutcomeV1) : bool :=
  bool_decide (outcome_route_id outcome = id).

Definition is_comparable (input : WorkProposalPolicyInputV1) (id : rstr)
    (outcome : WorkPriorOutcomeV1) : bool :=
  in_cohort id outcome && (observed_at outcome <=? work_evaluated_at input).

(** [iter().map(observed_at).max().unwrap_or(UtcMicros(0))]. *)
Definition horizon_of (comparable : list WorkPriorOutcomeV1) : Z :=
  match observed_at <$> comparable with
  | [] => 0
  | t :: ts => fold_left Z.max ts t
  end.

Definition is_high (band : WorkOrdinalBandV1) : bool :=
  match band with High | Highest => true | _ => false end.

Definition widened_if (b : bool) (band : WorkOrdinalBandV1) : WorkOrdinalBandV1 :=
  if b then widened band else band.

Definition push_if {A} (b : bool) (x : A) (l : list A) : list A := if b then l ++ [x] else l.

(** The sizing of the cohort of [top], when its support reaches the floor. *)
Definition calibrate (input : WorkProposalPolicyInputV1) (task_shape : WorkTaskShapeV1)
    (top : WorkRouteCandidateV1) (comparable : list WorkPriorOutcomeV1)
    (incomparable_count : Z) (stale : bool) : option WorkCalibratedSizingV1 :=
  let support := count_u32 (zlen comparable) in
  if support >=? WORK_CALIBRATION_SUPPORT_FLOOR then
    let adverse := zlen (List.filter is_adverse comparable) in
    let error := error_band adverse (zlen comparable) in
    let band := widened_if (is_high error) (band_max (effort_band (effort top)) (shape_band task_shape)) in
    Some {| cohort := route_id top; horizon := horizon_of comparable; support := support;
            support_floor := WORK_CALIBRATION_SUPPORT_FLOOR; sizing_error := error;
            drift_valid := (incomparable_count =? 0) && negb stale; sizing_band := band |}
  else None.

Definition plan_work (input : WorkProposalPolicyInputV1)
    (attempt_count terminal_attempt_count : Z) : WorkPlannerOutcome :=
  let shape := derive_shape input attempt_count terminal_attempt_count in
  let decomposition := derive_decomposition input in
  let '(survivors, exclusions) := partition_routes input in
  let '(survivors, human_override_applied) := promote input (rank_survivors survivors) in
  let ranked := imap ranked_route survivors in
  let reasons := push_if human_override_applied HumanOverrideApplied [] in
  match survivors with
  | [] =>
    {| plan_shape := shape; plan_sizing := None; plan_decomposition := decomposition;
       plan_route_plan :=
         {| ranked := ranked; exclusions := exclusions; deterministic_baseline := None;
            coverage := Lowest; uncertainty := Highest;
            human_override_applied := human_override_applied |};
       plan_reasons := reasons ++ [NoEligibleRoutes];
       plan_deterministic_fallback := false |}
  | top :: _ =>
    let in_cohort_count := zlen (List.filter (in_cohort (route_id top)) (prior_outcomes input)) in
    let comparable := List.filter (is_comparable input (route_id top)) (prior_outcomes input) in
    let incomparable_count := sat_sub in_cohort_count (zlen comparable) in
    let sparse := is_empty comparable in
    let stale := negb sparse && is_some_and (local_evidence input) (λ frontier,
                   forallb (λ outcome, observed_at outcome <? watermark frontier) comparable) in
    let covered := zlen (List.filter (λ candidate,
                     existsb (is_comparable input (ranked_route_id candidate))
                       (prior_outcomes input)) ranked) in
    let coverage := coverage_band covered (zlen ranked) in
    let sizing := calibrate input shape top comparable incomparable_count stale in
    let unsized := match sizing with None => true | Some _ => false end in
    let uncertainty :=
      widened_if unsized (widened_if stale (widened_if sparse (inverted coverage))) in
    let reasons :=
      push_if unsized InsufficientCalibrationSupport
        (push_if stale RouteEvidenceStale (push_if sparse RouteEvidenceSparse reasons)) in
    let baseline_selected := unsized || is_high uncertainty in
    {| plan_shape := shape; plan_sizing := sizing; plan_decomposition := decomposition;
       plan_route_plan :=
         {| ranked := ranked; exclusions := exclusions;
            deterministic_baseline := if baseline_selected then Some (route_id top) else None;
            coverage := coverage; uncertainty := uncertainty;
            human_override_applied := human_override_applied |};
       plan_reasons := push_if baseline_selected DeterministicBaselineSelected reasons;
       plan_deterministic_fallback := baseline_selected |}
  end.

(** ** The gates *)
Definition compare_frontiers (input : WorkProposalPolicyInputV1) : WorkFrontierComparisonV1 :=
  match local_evidence input, live_git_evidence input with
  | Some local, Some live =>
    if bool_decide (frontier_digest local = frontier_digest live) then Agree else Disagree
  | _, _ => Incomparable
  end.

Definition comparison_reason (comparison : WorkFrontierComparisonV1) : WorkProposalReasonV1 :=
  match comparison with
  | Agree => FrontierAgreement
  | Disagree => FrontierDisagreement
  | Incomparable => FrontierIncomparable
  end.

Section evaluator.
Context `{Canonical (rstr * WorkProposalPolicyInputV1)}.

Definition work_decision (input : WorkProposalPolicyInputV1)
    (disposition : WorkProposalDispositionV1) (action : option WorkProposalActionV1)
    (fallback : bool) (reasons : list WorkProposalReasonV1)
    (comparison : WorkFrontierComparisonV1) : WorkProposalDecisionV1 := {|
  work_evaluator_id := str "work_proposal.v1";
  work_evaluator_revision := WORK_EVALUATOR_REVISION;
  work_input_digest := policy_digest (str "tracedecay.policy.work-proposal-input.v1") input;
  decided_task_id := task_id input;
  decided_based_on_version := based_on_version input;
  decided_policy_revision := work_policy_revision input;
  decided_policy_digest := work_policy_digest input;
  decided_configuration_digest := work_configuration_digest input;
  decided_configuration_revision := work_configuration_revision input;
  work_disposition := disposition;
  recommended_action := action;
  deterministic_fallback := fallback;
  work_reason_codes := reasons;
  decided_local_evidence := local_evidence input;
  decided_live_git_evidence := live_git_evidence input;
  frontier_comparison := comparison;
  shape := None;
  sizing := None;
  decomposition := None;
  route_plan := None;
|}.

Definition planned_decision (decision : WorkProposalDecisionV1) (plan : WorkPlannerOutcome) :
    WorkProposalDecisionV1 := {|
  work_evaluator_id := work_evaluator_id decision;
  work_evaluator_revision := work_evaluator_revision decision;
  work_input_digest := work_input_digest decision;
  decided_task_id := decided_task_id decision;
  decided_based_on_version := decided_based_on_version decision;
  decided_policy_revision := decided_policy_revision decision;
  decided_policy_digest := decided_policy_digest decision;
  decided_configuration_digest := decided_configuration_digest decision;
  decided_configuration_revision := decided_configuration_revision decision;
  work_disposition := work_disposition decision;
  recommended_action := recommended_action decision;
  deterministic_fallback := deterministic_fallback decision || plan_deterministic_fallback plan;
  work_reason_codes := work_reason_codes decision ++ plan_reasons plan;
  decided_local_evidence := decided_local_evidence decision;
  decided_live_git_evidence := decided_live_git_evidence decision;
  frontier_comparison := frontier_comparison decision;
  shape := Some (plan_shape plan);
  sizing := plan_sizing plan;
  decomposition := plan_decomposition plan;
  route_plan := Some (plan_route_plan plan);
|}.

Definition work_evaluate (input : WorkProposalPolicyInputV1) : WorkProposalDecisionV1 :=
  if negb (input_is_valid input)
  then work_decision input WorkIndeterminate None false [WorkInvalidRequest] Incomparable
  else
    let comparison := compare_frontiers input in
    match work_cancellation input with
    | WorkCancelled _ =>
      work_decision input WorkIndeterminate None false [WorkRequestCancelled] comparison
    | WorkActive =>
      if work_evaluated_at input >=? work_deadline input
      then work_decision input WorkIndeterminate None false [WorkDeadlineExceeded] comparison
      else if task_accepted input
      then work_decision input WorkDeny None false [comparison_reason comparison; TaskAccepted]
             comparison
      else match runtime input with
      | RuntimePartial =>
        work_decision input WorkAbstain None false [RuntimeCoveragePartial] comparison
      | RuntimeUnavailable =>
        work_decision input WorkIndeterminate None false [RuntimeCoverageUnavailable] comparison
      | RuntimeComplete attempt_count terminal_attempt_count =>
        let plan := plan_work input attempt_count terminal_attempt_count in
        let reasons := [comparison_reason comparison] in
        if bool_decide (comparison = Disagree)
        then planned_decision (work_decision input WorkAbstain None false reasons comparison) plan
        else if execution_admitted input && (terminal_attempt_count >? 0)
        then planned_decision
               (work_decision input WorkAllow (Some Replan) false
                  (reasons ++ [TerminalEvidenceObserved]) comparison) plan
        else if execution_admitted input
        then planned_decision
               (work_decision input WorkAbstain None false (reasons ++ [ExecutionInFlight])
                  comparison) plan
        else if accepted_proposal_present input
        then planned_decision
               (work_decision input WorkAllow (Some AdmitExecution) false
                  (reasons ++ [ProposalAccepted]) comparison) plan
        else if unresolved_dependency_count input >? 0
        then planned_decision
               (work_decision input WorkAllow (Some HoldForDependencies) true
                  (reasons ++ [DependenciesUnresolved]) comparison) plan
        else planned_decision
               (work_decision input WorkAllow (Some ProceedToAcceptance) false
                  (reasons ++ [Ready]) comparison) plan
      end
    end.
End evaluator.

(** ** Specification *)

(** A route within the remaining budget. *)
Definition affordable (input : WorkProposalPolicyInputV1) (route : WorkRouteCandidateV1) : Prop :=
  match budget input with
  | Some b => spent b + declared_budget_ceiling route <= ceiling b
  | None => True
  end.

(** A route that places content where the task permits it. *)
Definition well_placed (input : WorkProposalPolicyInputV1) (route : WorkRouteCandidateV1) : Prop :=
  match content_location input with
  | Some limit => route_content_location route ∈ allowed limit
  | None => True
  end.

#[export] Instance affordable_dec input route : Decision (affordable input route).
Proof. unfold affordable. destruct (budget input); apply _. Defined.

#[export] Instance well_placed_dec input route : Decision (well_placed input route).
Proof. unfold well_placed. destruct (content_location input); apply _. Defined.

Definition fits (input : WorkProposalPolicyInputV1) (route : WorkRouteCandidateV1) : Prop :=
  affordable input route ∧ well_placed input route.

#[export] Instance fits_dec input route : Decision (fits input route).
Proof. unfold fits. apply _. Defined.

(** The record of a route that does not fit: the budget comes first. *)
Definition exclusion_of (input : WorkProposalPolicyInputV1) (route : WorkRouteCandidateV1) :
    WorkRouteExclusionV1 := {|
  excluded_route_id := route_id route;
  exclusion_reason := if decide (affordable input route) then RouteContentLocationRefused
                      else RouteBudgetExceeded;
|}.

(** [a] ranks no worse than [b]. *)
Definition ranks_before (a b : WorkRouteCandidateV1) : Prop := cmp_leb route_cmp a b = true.

(** The strings of the route list are Unicode. *)
Definition unicode_ids (input : WorkProposalPolicyInputV1) : Prop :=
  Forall (λ r, forallb is_scalar (route_id r) = true) (eligible_routes input).

(** The comparable outcomes of one route. *)
Definition evidence_of (input : WorkProposalPolicyInputV1) (id : rstr) : list WorkPriorOutcomeV1 :=
  List.filter (is_comparable input id) (prior_outcomes input).

(** The gates in front of every recommendation. *)
Definition gates_open (input : WorkProposalPolicyInputV1) : Prop :=
  input_is_valid input = true ∧ work_cancellation input = WorkActive ∧
  work_evaluated_at input < work_deadline input ∧ task_accepted input = false ∧
  compare_frontiers input ≠ Disagree.

(** What each recommendation needs. *)
Definition action_due (input : WorkProposalPolicyInputV1) (terminal_attempt_count : Z)
    (action : WorkProposalActionV1) : Prop :=
  match action with
  | Replan => execution_admitted input = true ∧ 0 < terminal_attempt_count
  | AdmitExecution => execution_admitted input = false ∧ accepted_proposal_present input = true
  | HoldForDependencies =>
    execution_admitted input = false ∧ accepted_proposal_present input = false ∧
    0 < unresolved_dependency_count input
  | ProceedToAcceptance =>
    execution_admitted input = false ∧ accepted_proposal_present input = false ∧
    unresolved_dependency_count input <= 0
  end.

(** ** Lemmas *)
#[export] Instance band_cmp_preordered : Preordered band_cmp.
Proof. apply (compare_on_preordered Z.compare band_rank). Qed.

Lemma band_first_preordered (f : WorkRouteCandidateV1 → WorkOrdinalBandV1) c :
  Preordered c → Preordered (λ left right, then_with (band_cmp (f right) (f left)) (c left right)).
Proof.
  intros Hc.
  pose proof (compare_on_preordered band_cmp f) as Hf.
  pose proof (reversed_preordered _ (Preordered0:=Hf)) as Hr.
  exact (then_with_preordered _ c (Preordered0:=Hr)).
Qed.

(** The ranking is a lexicographic product of preorders. *)
#[export] Instance route_cmp_preordered : Preordered route_cmp.
Proof.
  unfold route_cmp. do 6 apply band_first_preordered.
  apply (compare_on_preordered str_compare route_id).
Qed.

Lemma rank_survivors_sorted l : StronglySorted ranks_before (rank_survivors l).
Proof. apply sort_by_sorted; [apply cmp_leb_total|apply cmp_leb_trans]; apply _. Qed.

Lemma budget_test input route :
  is_none_or (budget input) (λ b, spent b <=? ceiling b) = true →
  is_some_and ((λ b, sat_sub (ceiling b) (spent b)) <$> budget input)
    (λ remaining, declared_budget_ceiling route >? remaining)
  = negb (bool_decide (affordable input route)).
Proof.
  intros Hb. apply eq_true_iff_eq. rewrite negb_true_iff, bool_decide_eq_false.
  unfold affordable. destruct (budget input) as [b|]; simpl in *; [|naive_solver].
  rewrite Z.gtb_ltb, Z.ltb_lt. unfold sat_sub. apply Z.leb_le in Hb. lia.
Qed.

Lemma location_test input route :
  is_some_and (content_location input)
    (λ limit, negb (bool_decide (route_content_location route ∈ allowed limit)))
  = negb (bool_decide (well_placed input route)).
Proof.
  apply eq_true_iff_eq. rewrite negb_true_iff, bool_decide_eq_false.
  unfold well_placed. destruct (content_location input) as [limit|]; simpl; [|naive_solver].
  by rewrite negb_true_iff, bool_decide_eq_false.
Qed.

Lemma refusal_spec input route :
  is_none_or (budget input) (λ b, spent b <=? ceiling b) = true →
  refusal input route =
    if decide (fits input route) then None else Some (exclusion_reason (exclusion_of input route)).
Proof.
  intros Hb. unfold refusal, exclusion_of, fits. rewrite budget_test, location_test by done. simpl.
  repeat (case_decide || case_bool_decide); simpl; tauto.
Qed.

Lemma partition_loop_spec input routes survivors excluded :
  is_none_or (budget input) (λ b, spent b <=? ceiling b) = true →
  partition_loop input routes survivors excluded =
    (survivors ++ filter (fits input) routes,
     excluded ++ (exclusion_of input <$> filter (λ r, ¬ fits input r) routes)).
Proof.
  intros Hb. revert survivors excluded. induction routes as [|r routes IH]; intros s e; simpl.
  { by rewrite !app_nil_r. }
  rewrite refusal_spec by done. rewrite !filter_cons.
  destruct (decide (fits input r)) as [Hf|Hf]; rewrite IH;
    (destruct (decide (¬ fits input r)); [|try tauto]); try tauto; by rewrite <- app_assoc.
Qed.

Lemma remove_route_spec id l :
  match remove_route id l with
  | Some (found, rest) => ∃ pre post, l = pre ++ found :: post ∧ rest = pre ++ post ∧ route_id found = id
  | None => Forall (λ r, route_id r ≠ id) l
  end.
Proof.
  induction l as [|r l IH]; simpl; [constructor|].
  case_bool_decide; [by exists [], l|]. destruct (remove_route id l) as [[found rest]|].
  - destruct IH as (pre & post & -> & -> & ?). by exists (r :: pre), post.
  - by constructor.
Qed.

(** The order the plan ranks: sorted, or a named survivor in front of the
    sorted rest. *)
Definition promoted_order (input : WorkProposalPolicyInputV1) (applied : bool)
    (order : list WorkRouteCandidateV1) : Prop :=
  if applied then
    ∃ request top rest, human_override input = Some request ∧ order = top :: rest ∧
      route_id top = override_route_id request ∧ StronglySorted ranks_before rest
  else
    StronglySorted ranks_before order ∧
    ∀ request, human_override input = Some request →
      Forall (λ r, route_id r ≠ override_route_id request) order.

Lemma promote_spec input l :
  let '(order, applied) := promote input (rank_survivors l) in
  order ≡ₚ l ∧ promoted_order input applied order.
Proof.
  unfold promote. pose proof (rank_survivors_sorted l) as Hs.
  pose proof (sort_by_perm (cmp_leb route_cmp) l) as Hp. fold (rank_survivors l) in Hp.
  destruct (human_override input) as [o|] eqn:E; [|by split; [done|split; [done|congruence]]].
  pose proof (remove_route_spec (override_route_id o) (rank_survivors l)) as Hr.
  destruct (remove_route _ _) as [[found rest]|].
  - destruct Hr as (pre & post & E' & -> & Hid). rewrite E' in Hs, Hp. split.
    + rewrite <- Hp. apply Permutation_middle.
    + exists o, found, (pre ++ post). by eauto using strongly_sorted_remove.
  - split; [done|]. split; [done|]. intros o' Ho. rewrite E in Ho. by injection Ho as <-.
Qed.

Lemma windows_differ_NoDup l :
  StronglySorted (leb_rel (cmp_leb str_compare)) l → windows_differ l = true →
  Forall (λ s, forallb is_scalar s = true) l → NoDup l.
Proof.
  induction 1 as [|x l Hl IH Hx]; intros Hw Hu; [constructor|].
  apply Forall_cons in Hu as [Hux Hul].
  destruct l as [|y l]; [constructor; [set_solver|constructor]|].
  simpl in Hw. bools. constructor; [|by apply IH].
  intros [->|Hin]%elem_of_cons; [done|].
  apply Forall_cons in Hx as [Hxy _]. inversion_clear Hl as [|? ? _ Hy].
  rewrite Forall_forall in Hy. specialize (Hy x Hin). unfold leb_rel, cmp_leb in *.
  rewrite (str_compare_antisym x y) in Hy. apply Forall_cons in Hul as [Huy _].
  destruct (str_compare x y) eqn:E; simpl in *; [|done..].
  apply bytes_compare_eq, utf8_encode_inj in E; done.
Qed.

Lemma unique_routes_NoDup input :
  unicode_ids input → routes_are_uniquely_identified (eligible_routes input) = true →
  NoDup (route_id <$> eligible_routes input).
Proof.
  unfold unicode_ids, routes_are_uniquely_identified. intros Hu Hw.
  rewrite <- (sort_by_perm (cmp_leb str_compare)). apply windows_differ_NoDup; [|done|].
  - apply sort_by_sorted; [apply cmp_leb_total|apply cmp_leb_trans]; apply _.
  - rewrite sort_by_perm. by apply Forall_fmap.
Qed.

Lemma filter_split_perm {A} (P : A → Prop) `{!∀ x, Decision (P x)} (l : list A) :
  filter P l ++ filter (λ x, ¬ P x) l ≡ₚ l.
Proof.
  induction l as [|x l IH]; [done|]. rewrite !filter_cons.
  destruct (decide (P x)), (decide (¬ P x)); try tauto; simpl; [by rewrite IH|].
  by rewrite <- Permutation_middle, IH.
Qed.

(** The ranking of a plan, and its baseline. *)
Lemma plan_work_routes input a t :
  is_none_or (budget input) (λ b, spent b <=? ceiling b) = true →
  let plan := plan_route_plan (plan_work input a t) in
  ∃ order, order ≡ₚ filter (fits input) (eligible_routes input) ∧
    promoted_order input (human_override_applied plan) order ∧
    ranked plan = imap ranked_route order ∧
    exclusions plan = exclusion_of input <$> filter (λ r, ¬ fits input r) (eligible_routes input) ∧
    (deterministic_baseline plan = None ∨ deterministic_baseline plan = route_id <$> head order).
Proof.
  intros Hb. unfold plan_work, partition_routes. rewrite partition_loop_spec by done. simpl.
  pose proof (promote_spec input (filter (fits input) (eligible_routes input))) as Hp.
  destruct (promote _ _) as [order applied]. destruct Hp as [Hperm Hord].
  exists order. split; [done|].
  destruct order as [|top rest]; cbn -[ranked_route calibrate]; (split; [done|]); (split; [done|]).
  - by split; [|left].
  - split; [done|]. destruct (_ || _); [by right|by left].
Qed.

(** *** Calibration *)
Lemma count_u32_floor n : 0 <= n → WORK_CALIBRATION_SUPPORT_FLOOR <= count_u32 n ↔
  WORK_CALIBRATION_SUPPORT_FLOOR <= n.
Proof. unfold count_u32, WORK_CALIBRATION_SUPPORT_FLOOR, u32_max. case_match; bools; lia. Qed.

Lemma fold_max_spec ts t :
  fold_left Z.max ts t ∈ t :: ts ∧ Forall (λ x, x <= fold_left Z.max ts t) (t :: ts).
Proof.
  revert t. induction ts as [|x ts IH]; intros t; simpl.
  { split; [set_solver|]. repeat constructor. lia. }
  destruct (IH (Z.max t x)) as [Hin Hall]. apply Forall_cons in Hall as [Hm Hts]. split.
  - apply elem_of_cons in Hin as [->|]; [|set_solver].
    destruct (Z.max_spec t x) as [[_ ->]|[_ ->]]; set_solver.
  - apply Forall_cons. split; [lia|]. apply Forall_cons. split; [lia|done].
Qed.

Lemma horizon_spec comparable :
  comparable ≠ [] →
  (∃ o, o ∈ comparable ∧ observed_at o = horizon_of comparable) ∧
  Forall (λ o, observed_at o <= horizon_of comparable) comparable.
Proof.
  destruct comparable as [|o os]; [done|]. intros _. unfold horizon_of. rewrite fmap_cons.
  destruct (fold_max_spec (observed_at <$> os) (observed_at o)) as [Hin Hall].
  rewrite <- fmap_cons in Hin, Hall. split.
  - apply list_elem_of_fmap in Hin as (x & -> & Hx). eauto.
  - exact (proj1 (Forall_fmap _ _ _) Hall).
Qed.

Lemma filter_length_le {A} (f g : A → bool) (l : list A) :
  (∀ x, g x = true → f x = true) → (length (List.filter g l) ≤ length (List.filter f l))%nat.
Proof.
  intros Hgf. induction l as [|x l IH]; simpl; [done|].
  destruct (g x) eqn:E; [rewrite Hgf by done|destruct (f x)]; simpl; lia.
Qed.

Lemma filter_length_eq_iff {A} (f g : A → bool) (l : list A) :
  (∀ x, g x = true → f x = true) →
  sat_sub (zlen (List.filter f l)) (zlen (List.filter g l)) = 0 ↔
  ∀ x, x ∈ l → f x = true → g x = true.
Proof.
  intros Hgf. unfold sat_sub, zlen.
  transitivity (length (List.filter f l) = length (List.filter g l)).
  { pose proof (filter_length_le f g l Hgf). lia. }
  induction l as [|x l IH]; simpl; [split; [by intros _ ? ?%elem_of_nil|done]|].
  pose proof (filter_length_le f g l Hgf) as Hle. destruct (g x) eqn:Eg.
  - rewrite Hgf by done. simpl. rewrite Nat.succ_inj_wd, IH. setoid_rewrite elem_of_cons. naive_solver.
  - destruct (f x) eqn:Ef; simpl.
    + split; [lia|]. intros Hall. specialize (Hall x (list_elem_of_here _ _) Ef). congruence.
    + rewrite IH. setoid_rewrite elem_of_cons. naive_solver.
Qed.

(** Whether all the comparable evidence predates the local frontier. *)
Definition predates_frontier (input : WorkProposalPolicyInputV1) (id : rstr) : Prop :=
  ∃ f, local_evidence input = Some f ∧ Forall (λ o, observed_at o < watermark f) (evidence_of input id).

Lemma drift_test input id :
  evidence_of input id ≠ [] →
  (sat_sub (zlen (List.filter (in_cohort id) (prior_outcomes input))) (zlen (evidence_of input id)) =? 0)
  && negb (negb (is_empty (evidence_of input id)) && is_some_and (local_evidence input) (λ f,
             forallb (λ o, observed_at o <? watermark f) (evidence_of input id))) = true ↔
  (∀ o, o ∈ prior_outcomes input → outcome_route_id o = id →
     observed_at o <= work_evaluated_at input) ∧ ¬ predates_frontier input id.
Proof.
  intros Hne. rewrite andb_true_iff, Z.eqb_eq. unfold evidence_of at 1.
  rewrite filter_length_eq_iff by (unfold is_comparable; intros x Hx; bools; done).
  apply Morphisms_Prop.and_iff_morphism.
  - unfold is_comparable, in_cohort. split; intros Ho o Hin Hid.
    + specialize (Ho o Hin). rewrite bool_decide_eq_true_2 in Ho by done.
      specialize (Ho eq_refl). simpl in Ho. by apply Z.leb_le.
    + rewrite Hid. simpl. bools. apply Z.leb_le. eauto.
  - assert (is_empty (evidence_of input id) = false) as -> by by destruct (evidence_of input id).
    cbn [negb andb].
    rewrite negb_true_iff, <- not_true_iff_false. unfold predates_frontier. apply not_iff_compat.
    destruct (local_evidence input) as [f|]; simpl; [|by split; [|intros (? & [=] & _)]].
    rewrite forallb_Forall.
    split; [intros Hf; exists f; split; [done|]|intros (f' & [= <-] & Hf)];
      (eapply Forall_impl; [exact Hf|]); intros o; simpl; apply Z.ltb_lt.
Qed.

(** The planner with a ranked route: its sizing and its baseline. *)
Lemma plan_work_sizing input a t top rest :
  let outcome := plan_work input a t in
  ranked (plan_route_plan outcome) = top :: rest →
  let evidence := evidence_of input (ranked_route_id top) in
  match plan_sizing outcome with
  | Some s =>
    cohort s = ranked_route_id top ∧ WORK_CALIBRATION_SUPPORT_FLOOR <= zlen evidence ∧
    support s = count_u32 (zlen evidence) ∧ support_floor s = WORK_CALIBRATION_SUPPORT_FLOOR ∧
    horizon s = horizon_of evidence ∧
    sizing_error s = error_band (zlen (List.filter is_adverse evidence)) (zlen evidence) ∧
    (drift_valid s = true ↔
     (∀ o, o ∈ prior_outcomes input → outcome_route_id o = cohort s →
        observed_at o <= work_evaluated_at input) ∧ ¬ predates_frontier input (cohort s))
  | None =>
    zlen evidence < WORK_CALIBRATION_SUPPORT_FLOOR ∧ plan_deterministic_fallback outcome = true ∧
    deterministic_baseline (plan_route_plan outcome) = Some (ranked_route_id top)
  end.
Proof.
  unfold plan_work. destruct (partition_routes input) as [survivors excluded].
  destruct (promote _ _) as [[|r order] applied]; [done|].
  cbn -[calibrate]. intros [= Htop _]. subst top. cbn -[calibrate].
  set (evidence := List.filter (is_comparable input (route_id r)) (prior_outcomes input)).
  fold (evidence_of input (route_id r)) in evidence. fold evidence.
  unfold calibrate. pose proof (count_u32_floor (zlen evidence) (zlen_nonneg _)) as Hf.
  rewrite Z.geb_leb. destruct (Z.leb_spec WORK_CALIBRATION_SUPPORT_FLOOR (count_u32 (zlen evidence))) as [Hs|Hs];
    simpl; [|split_and!; [lia|done|done]].
  apply Hf in Hs. split_and!; try done. apply drift_test.
  intros E. unfold WORK_CALIBRATION_SUPPORT_FLOOR in Hs. subst evidence. rewrite E in Hs. done.
Qed.

Section evaluator.
Context `{Canonical (rstr * WorkProposalPolicyInputV1)}.

(** Either a gate answered without a plan, or the plan was merged into a
    decision of the ladder. *)
Lemma evaluate_cases input :
  let d := work_evaluate input in
  (route_plan d = None ∧ sizing d = None ∧ recommended_action d = None ∧ work_disposition d ≠ WorkAllow) ∨
  (input_is_valid input = true ∧ ∃ base a t, runtime input = RuntimeComplete a t ∧
   d = planned_decision base (plan_work input a t)).
Proof.
  unfold work_evaluate. destruct (input_is_valid input) eqn:Hv; simpl; [|by left].
  destruct (work_cancellation input); [|by left].
  destruct (_ >=? _); [by left|]. destruct (task_accepted input); [by left|].
  destruct (runtime input) as [a t| |] eqn:Hr; [right|by left|by left].
  split; [done|]. repeat case_step; eauto 8.
Qed.

Lemma valid_budget input :
  input_is_valid input = true →
  is_none_or (budget input) (λ b, spent b <=? ceiling b) = true ∧
  routes_are_uniquely_identified (eligible_routes input) = true.
Proof. unfold input_is_valid. intros Hv. bools. done. Qed.

Lemma imap_ranked_ids order (k : nat) :
  ranked_route_id <$> imap (λ i, ranked_route (k + i)) order = route_id <$> order.
Proof.
  revert k. induction order as [|r order IH]; intros k; [done|].
  rewrite imap_cons, !fmap_cons. f_equal. rewrite <- (IH (S k)). f_equal.
  apply imap_ext. intros i x _. simpl. f_equal. lia.
Qed.

Lemma ranked_ids order : ranked_route_id <$> imap ranked_route order = route_id <$> order.
Proof. exact (imap_ranked_ids order 0). Qed.

(** C33. The route plan ranks exactly the routes that fit. Whenever a decision
    carries a plan, the ranked routes are, in some order, exactly the eligible
    routes within the remaining budget and the permitted content locations,
    each with its rank; every other route is recorded as an exclusion with the
    first limit it failed, in supplied order; and no route is named twice. The
    order is the lexicographic order of the separate dimensions with the route
    id as tiebreak, except that a human override naming a surviving route moves
    that route to the front; an override naming any other route changes
    nothing. A deterministic baseline is the first ranked route. *)
Theorem route_plan_ranks_fitting_routes input plan :
  route_plan (work_evaluate input) = Some plan → unicode_ids input →
  ∃ order, order ≡ₚ filter (fits input) (eligible_routes input) ∧
    promoted_order input (human_override_applied plan) order ∧
    ranked plan = imap ranked_route order ∧
    exclusions plan = exclusion_of input <$> filter (λ r, ¬ fits input r) (eligible_routes input) ∧
    (deterministic_baseline plan = None ∨ deterministic_baseline plan = route_id <$> head order) ∧
    NoDup ((ranked_route_id <$> ranked plan) ++ (excluded_route_id <$> exclusions plan)).
Proof.
  intros Hplan Hu. destruct (evaluate_cases input) as [(Hn & _)|(Hv & base & a & t & _ & E)];
    [congruence|]. rewrite E in Hplan. apply valid_budget in Hv as [Hb Hr].
  assert (plan = plan_route_plan (plan_work input a t)) as -> by (simpl in Hplan; congruence).
  destruct (plan_work_routes input a t Hb) as (order & Hp & Ho & Hk & He & Hd).
  exists order. split_and!; try done. rewrite Hk, He.
  rewrite ranked_ids, <- list_fmap_compose, Hp.
  change (excluded_route_id ∘ exclusion_of input) with route_id.
  rewrite <- fmap_app, filter_split_perm. by apply unique_routes_NoDup.
Qed.

(** Sizing is calibrated or absent. A decision sizes the task only over
    the cohort of its first ranked route, with at least eight outcomes of that
    route observed no later than the evaluation; the recorded support, horizon
    (an outcome of the cohort that none is later than) and error band are those
    of exactly these outcomes, and the drift flag holds exactly when no outcome
    of the cohort lies after the evaluation and the evidence does not wholly
    predate the local frontier. A plan that ranks a route but has less evidence
    carries no sizing: it selects the first ranked route as the deterministic
    baseline and marks the decision as a fallback. *)
Theorem sizing_is_calibrated_or_absent input plan top rest :
  route_plan (work_evaluate input) = Some plan → ranked plan = top :: rest →
  let evidence := evidence_of input (ranked_route_id top) in
  match sizing (work_evaluate input) with
  | Some s =>
    cohort s = ranked_route_id top ∧ 8 <= zlen evidence ∧
    support s = count_u32 (zlen evidence) ∧ support_floor s = 8 ∧
    (∃ o, o ∈ evidence ∧ observed_at o = horizon s) ∧
    Forall (λ o, observed_at o <= horizon s) evidence ∧
    sizing_error s = error_band (zlen (List.filter is_adverse evidence)) (zlen evidence) ∧
    (drift_valid s = true ↔
     (∀ o, o ∈ prior_outcomes input → outcome_route_id o = cohort s →
        observed_at o <= work_evaluated_at input) ∧ ¬ predates_frontier input (cohort s))
  | None =>
    zlen evidence < 8 ∧ deterministic_fallback (work_evaluate input) = true ∧
    deterministic_baseline plan = Some (ranked_route_id top)
  end.
Proof.
  intros Hplan Htop. destruct (evaluate_cases input) as [(Hn & _)|(Hv & base & a & t & _ & E)];
    [congruence|]. rewrite E in Hplan. rewrite E.
  assert (plan = plan_route_plan (plan_work input a t)) as -> by (simpl in Hplan; congruence).
  pose proof (plan_work_sizing input a t top rest Htop) as Hs. cbn [sizing planned_decision].
  cbn zeta in Hs |- *.
  destruct (plan_sizing (plan_work input a t)) as [s|].
  - destruct Hs as (H1 & H2 & H3 & H4 & H5 & H6 & H7).
    destruct (horizon_spec (evidence_of input (ranked_route_id top))) as [Hh1 Hh2].
    { intros E'. rewrite E' in H2. done. }
    rewrite H5. by split_and!.
  - destruct Hs as (H1 & H2 & H3). split; [done|]. split; [|done].
    cbn. rewrite H2. apply orb_true_r.
Qed.

(** A branch that recommends nothing, and one that recommends its action: the
    gates passed so far decide the equivalences. *)
Ltac due :=
  repeat match goal with
  | H : _ ∧ _ |- _ => destruct H
  | H : ∃ _, _ |- _ => destruct H
  | H : RuntimeComplete _ _ = RuntimeComplete _ _ |- _ => injection H as <- <-
  end.
Ltac refuses :=
  split_and!; [split; [done|by intros []]| |done..];
  intros action; split; [done|]; intros; due; destruct action; simpl in *; due;
  first [lia|congruence].
Ltac recommends :=
  split_and!; [split; [by eauto|done]| |done..];
  intros action; split; intros Hdue;
    [injection Hdue as <-; split; [done|]; by eexists _, _
    |due; destruct action; simpl in *; due; first [done|lia|congruence]].

(** The recommendation is exactly the due command. A decision allows if
    and only if it recommends an action, it recommends an action exactly when
    the input is valid, live, before its deadline, not yet accepted, of
    complete runtime coverage and without disagreeing frontiers, and the action
    is due on the snapshot's facts (replan after a terminal attempt, admit an
    accepted proposal, hold for unresolved dependencies, otherwise proceed to
    acceptance). Both frontiers are returned as supplied. *)
Theorem recommended_action_exact input :
  let d := work_evaluate input in
  (work_disposition d = WorkAllow ↔ is_Some (recommended_action d)) ∧
  (∀ action, recommended_action d = Some action ↔
     gates_open input ∧ ∃ a t, runtime input = RuntimeComplete a t ∧ action_due input t action) ∧
  decided_local_evidence d = local_evidence input ∧
  decided_live_git_evidence d = live_git_evidence input.
Proof.
  unfold work_evaluate, gates_open.
  destruct (input_is_valid input); simpl; [|refuses].
  destruct (work_cancellation input); simpl; [|refuses].
  rewrite Z.geb_leb. destruct (Z.leb_spec (work_deadline input) (work_evaluated_at input)); [refuses|].
  destruct (task_accepted input); simpl; [refuses|].
  destruct (runtime input) as [a t| |]; simpl; [|refuses..].
  case_bool_decide; [refuses|]. rewrite !Z.gtb_ltb.
  destruct (execution_admitted input) eqn:Ea; simpl.
  { destruct (Z.ltb_spec 0 t); [recommends|refuses]. }
  destruct (accepted_proposal_present input) eqn:Ep; [recommends|].
  destruct (Z.ltb_spec 0 (unresolved_dependency_count input)); recommends.
Qed.
End evaluator.

(** ** Evaluation *)
#[local] Instance work_sample_canonical : Canonical (rstr * WorkProposalPolicyInputV1) :=
  λ _, Ok sample_digest.

Definition sample_profile : WorkRouteExecutionProfileV1 := {|
  sandbox := SandboxRequired; approval := ApprovalNever; filesystem := ReadOnly;
  egress := EgressDeny; environment_allowlist := [str "PATH"]; credential_references := [];
  limits := {| max_input_tokens := 1; max_output_tokens := 1; max_stdout_bytes := 1;
               max_stderr_bytes := 1; max_protocol_bytes := 1; max_concurrency := 1 |};
  maximum_duration_micros := 1000; fallback := FallbackDisabled;
|}.

Definition sample_route (id : string) (price : Z) (where_ : WorkContentLocationClassV1)
    (quality : WorkOrdinalBandV1) : WorkRouteCandidateV1 := {|
  route_id := str id; provider_capability_id := str "provider"; model_id := str "model";
  effort := Standard; declared_budget_ceiling := price; route_content_location := where_;
  correctness := quality; sensitive_data_fitness := Moderate; latency := Low; cost := Low;
  autonomy := High; evidence_quality := Moderate; execution := sample_profile;
|}.

Definition sample_outcome (id : string) (at_ : Z) : WorkPriorOutcomeV1 := {|
  outcome_route_id := str id; outcome_accepted := true; rework := false;
  escaped_defect := false; terminal := TerminalSucceeded; observed_at := at_;
|}.

Definition sample_work_input : WorkProposalPolicyInputV1 := {|
  task_id := str "task"; based_on_version := 4; dependency_count := 3;
  unresolved_dependency_count := 2; accepted_proposal_present := false;
  execution_admitted := false; task_accepted := false; runtime := RuntimeComplete 1 0;
  local_evidence := Some {| watermark := 5; frontier_digest := sample_digest |};
  live_git_evidence := None; work_policy_revision := 1; work_policy_digest := sample_digest;
  work_configuration_digest := sample_digest; work_configuration_revision := None;
  work_deadline := 200; work_cancellation := WorkActive; work_evaluated_at := 100;
  eligible_routes := [sample_route "costly" 90 Local_ Highest; sample_route "steady" 10 Local_ Moderate;
                      sample_route "remote" 10 External Highest; sample_route "strong" 10 Tenant High];
  budget := Some {| ceiling := 100; spent := 40 |};
  content_location := Some {| allowed := [Local_; Tenant] |};
  prior_outcomes := sample_outcome "steady" <$> [1; 2; 3; 4; 5; 6; 7; 8];
  human_override := Some {| override_route_id := str "steady"; recorded_at := 50 |};
|}.

Definition sample_plan : option WorkRoutePlanV1 := route_plan (work_evaluate sample_work_input).

Example sample_plan_order :
  ((λ p, (ranked_route_id <$> ranked p, exclusion_reason <$> exclusions p)) <$> sample_plan) =
  Some ([str "steady"; str "strong"], [RouteBudgetExceeded; RouteContentLocationRefused]).
Proof. vm_compute. reflexivity. Qed.

Lemma route_plan_ranks_fitting_routes_witness :
  match sample_plan with
  | Some plan =>
    ∃ order, order ≡ₚ filter (fits sample_work_input) (eligible_routes sample_work_input) ∧
      promoted_order sample_work_input (human_override_applied plan) order ∧
      ranked plan = imap ranked_route order
  | None => False
  end.
Proof.
  destruct sample_plan as [plan|] eqn:E; [|by vm_compute in E].
  destruct (route_plan_ranks_fitting_routes sample_work_input plan) as (order & H1 & H2 & H3 & _).
  - exact E.
  - unfold unicode_ids. rewrite <- forallb_Forall. vm_compute. reflexivity.
  - exists order. by split_and!.
Defined.

Lemma sizing_is_calibrated_or_absent_witness :
  match sample_plan with
  | Some plan =>
    match ranked plan with
    | top :: _ =>
      match sizing (work_evaluate sample_work_input) with
      | Some s => cohort s = ranked_route_id top ∧ support s = 8
      | None => False
      end
    | [] => False
    end
  | None => False
  end.
Proof.
  destruct sample_plan as [plan|] eqn:E; [|by vm_compute in E].
  destruct (ranked plan) as [|top rest] eqn:R.
  - unfold sample_plan in E. vm_compute in E. injection E as <-. done.
  - pose proof (sizing_is_calibrated_or_absent sample_work_input plan top rest E R) as Hs.
    destruct (sizing (work_evaluate sample_work_input)) as [s|] eqn:S.
    + split; [apply Hs|]. vm_compute in S. injection S as <-. done.
    + vm_compute in S. done.
Defined.

Example sample_action :
  (work_disposition (work_evaluate sample_work_input), recommended_action (work_evaluate sample_work_input)) =
  (WorkAllow, Some HoldForDependencies).
Proof. vm_compute. reflexivity. Qed.
