(* ===== verification/ObservationState.v ===== *)
(** * Observation delivery: states, outcomes and policies

    The value types of [tracedecay-memory-observation]: the delivery state
    machine of [src/state.rs], the acceptance outcomes and receipts of
    [src/receipt.rs], the identities of [src/identity.rs], the retention policy
    of [src/retention.rs], the dispatch policy and the retry backoff of
    [src/runtime/dispatch_policy.rs], and the request and audit records of
    [src/lease.rs], [src/refusal.rs] and [src/orphan.rs].

    Identity newtypes are their strings; [u32], [u64] and [i64] values are
    integers in their range. *)
From stdpp Require Import base list numbers strings.
From S2P Require Import Prelude RustText Bytes.

#[local] Open Scope Z_scope.
#[local] Open Scope rust_scope.

(** The refusals of the provider API ([tracedecay-memory-provider-api]) that
    reach the journal. *)
Inductive IdentifierError : Type := IdentifierEmpty | IdentifierTooLong | InvalidSyntax.

Inductive ApiError : Type :=
  | ApiEmptyField (field : rstr)
  | InvalidSha256 (field : rstr)
  | InvalidVersionedId (error : IdentifierError)
  | InvalidExtensionVersion
  | ContentDigestMismatch (field : rstr)
  | UnorderedExtensions
  | TooManyBoundaryItems (field : rstr) (maximum : Z)
  | BoundaryBytesExceeded (field : rstr) (maximum : Z)
  | InvalidSanitizerRevision
  | SanitizationReceiptTampered
  | SanitizationReceiptUnbound
  | SanitizationAcceptedPayloadModified
  | SanitizationRedactedPayloadUnmodified
  | MalformedSanitizationReceiptJson (part : rstr).

(** The refusals of [ObservationJournalError] the modelled code returns. *)
Inductive ObservationJournalError : Type :=
  | Api (error : ApiError)
  | SourceCheckpointConflict (sequence : Z)
  | IdempotencyKeyMismatch (expected provided : rstr)
  | ExtensionsDigestMismatch
  | EnvelopeDigestMismatch
  | UnsettledSource (field : rstr)
  | InvalidObservationId (detail : rstr)
  | DeadlineBeforeAdmission (deadline_unix_micros admitted_at_unix_micros : Z)
  | InvalidDigest (field : rstr)
  | EmptyField (field : rstr)
  | FieldTooLarge (field : rstr) (maximum_bytes : Z)
  | UnknownWireValue (field value : rstr)
  | AcknowledgementWithoutProviderReceipt (outcome : rstr)
  | DuplicateAcknowledgementIncoherent (outcome committed_effect : rstr)
  | AttemptRefusalBindingMismatch (field : rstr)
  | ReceiptDigestMismatch (field : rstr)
  | InvalidRetentionPolicy (field : rstr)
  | InvalidDispatchPolicy (field : rstr)
  | UnknownObservation (observation_id : rstr)
  | UnknownLease (lease_id : rstr)
  | Corrupt (table field : rstr)
  | ValueOutOfRange (field : rstr)
  (** The storage engine refused a statement. *)
  | Storage (table : rstr).

(** ** identity.rs *)
Definition SOURCE_EVENT_ID_MAX_BYTES : Z := 256.

Definition is_sha256 (value : rstr) : bool :=
  (str_len value =? 64)
  && forallb (λ byte, within 48 57 byte || within 97 102 byte) (utf8_encode value).

Definition require_sha256 (value field : rstr) : result unit ObservationJournalError :=
  if is_sha256 value then Ok tt else Err (InvalidDigest field).

Definition require_non_empty (value field : rstr) : result unit ObservationJournalError :=
  if is_empty value then Err (EmptyField field) else Ok tt.

Definition require_bounded (value field : rstr) (maximum_bytes : Z) :
    result unit ObservationJournalError :=
  let? _ := require_non_empty value field in
  if str_len value >? maximum_bytes then Err (FieldTooLarge field maximum_bytes) else Ok tt.

Definition RECEIPT_ID_DOMAIN : bytes :=
  str "tracedecay.memory-provider.observation-receipt.v1" ++ [0].
Definition LEASE_ID_DOMAIN : bytes :=
  str "tracedecay.memory-provider.observation-lease.v1" ++ [0].

(** [u64::to_be_bytes] and [i64::to_be_bytes]. *)
Definition u64_to_be_bytes (x : Z) : bytes := reverse (to_le_bytes 8 x).
Definition i64_to_be_bytes (x : Z) : bytes := reverse (i64_to_le_bytes x).

(** What [absorb] feeds to the digest: the length, then the field. *)
Definition absorbed (value : bytes) : bytes := u64_to_be_bytes (zlen value) ++ value.

Definition lowercase_hex (value : bytes) : rstr := value ≫= hex_byte.

Section digests.
Context `{Sha256}.

Definition receipt_id_derive (observation_id : rstr) (attempt_number : Z) : rstr :=
  lowercase_hex (sha256 (RECEIPT_ID_DOMAIN ++ absorbed (utf8_encode observation_id)
                         ++ absorbed (u64_to_be_bytes attempt_number))).

Definition lease_id_derive (idempotency_key lease_owner : rstr) (leased_at_unix_micros : Z)
    (attempt_number : Z) : rstr :=
  lowercase_hex (sha256 (LEASE_ID_DOMAIN ++ absorbed (utf8_encode idempotency_key)
                         ++ absorbed (utf8_encode lease_owner)
                         ++ absorbed (i64_to_be_bytes leased_at_unix_micros)
                         ++ absorbed (u64_to_be_bytes attempt_number))).
End digests.

(** ** state.rs *)
Inductive DeliveryStateV1 : Type :=
  | Pending | Leased | Acknowledged | DuplicateAcknowledged | Rejected | EffectUnknown
  | Cancelled | Expired | Exhausted | Forgotten.

#[export] Instance DeliveryStateV1_eq_dec : EqDecision DeliveryStateV1.
Proof. solve_decision. Defined.

Definition state_as_wire (self : DeliveryStateV1) : rstr :=
  match self with
  | Pending => str "pending"
  | Leased => str "leased"
  | Acknowledged => str "acknowledged"
  | DuplicateAcknowledged => str "duplicate_acknowledged"
  | Rejected => str "rejected"
  | EffectUnknown => str "effect_unknown"
  | Cancelled => str "cancelled"
  | Expired => str "expired"
  | Exhausted => str "exhausted"
  | Forgotten => str "forgotten"
  end.

(** A [match] on string literals: the first arm whose literal is the value. *)
Fixpoint match_str {A} (value : rstr) (arms : list (rstr * A)) : option A :=
  match arms with
  | [] => None
  | (literal, a) :: arms => if bool_decide (value = literal) then Some a else match_str value arms
  end.

Definition state_arms : list (rstr * DeliveryStateV1) :=
  [(str "pending", Pending); (str "leased", Leased); (str "acknowledged", Acknowledged);
   (str "duplicate_acknowledged", DuplicateAcknowledged); (str "rejected", Rejected);
   (str "effect_unknown", EffectUnknown); (str "cancelled", Cancelled);
   (str "expired", Expired); (str "exhausted", Exhausted); (str "forgotten", Forgotten)].

Definition state_from_wire (value : rstr) : result DeliveryStateV1 ObservationJournalError :=
  match match_str value state_arms with
  | Some state => Ok state
  | None => Err (UnknownWireValue (str "delivery_state") value)
  end.

Definition is_terminal (self : DeliveryStateV1) : bool :=
  match self with
  | Acknowledged | DuplicateAcknowledged | Rejected | Cancelled | Expired | Exhausted | Forgotten => true
  | _ => false
  end.

Definition is_deliverable (self : DeliveryStateV1) : bool :=
  match self with Pending | EffectUnknown => true | _ => false end.

Definition can_transition_to (self next : DeliveryStateV1) : bool :=
  match self with
  | Pending =>
    match next with Leased | Cancelled | Expired | Exhausted | Forgotten => true | _ => false end
  | Leased =>
    match next with
    | Pending | Acknowledged | DuplicateAcknowledged | Rejected | EffectUnknown | Cancelled
    | Expired | Exhausted | Forgotten => true
    | _ => false
    end
  | EffectUnknown =>
    match next with Leased | Exhausted | Expired | Forgotten => true | _ => false end
  | Acknowledged | DuplicateAcknowledged | Rejected | Cancelled | Expired | Exhausted =>
    match next with Forgotten => true | _ => false end
  | Forgotten => false
  end.

(** ** receipt.rs *)
Inductive ObservationOutcomeV1 : Type :=
  | OutcomeApplied | OutcomeDuplicateAcknowledged | RejectedContractViolation
  | RejectedScopeMismatch | RejectedProvenanceUnavailable | RejectedPrivacyPolicy
  | RejectedPayloadTooLarge | RejectedExtensionUnsupported | IdempotencyConflict
  | ProviderUnavailable | DeadlineExceeded | OutcomeCancelled | PartialEffect
  | OutcomeEffectUnknown.

#[export] Instance ObservationOutcomeV1_eq_dec : EqDecision ObservationOutcomeV1.
Proof. solve_decision. Defined.

Definition outcome_as_wire (self : ObservationOutcomeV1) : rstr :=
  match self with
  | OutcomeApplied => str "applied"
  | OutcomeDuplicateAcknowledged => str "duplicate_acknowledged"
  | RejectedContractViolation => str "rejected_contract_violation"
  | RejectedScopeMismatch => str "rejected_scope_mismatch"
  | RejectedProvenanceUnavailable => str "rejected_provenance_unavailable"
  | RejectedPrivacyPolicy => str "rejected_privacy_policy"
  | RejectedPayloadTooLarge => str "rejected_payload_too_large"
  | RejectedExtensionUnsupported => str "rejected_extension_unsupported"
  | IdempotencyConflict => str "idempotency_conflict"
  | ProviderUnavailable => str "provider_unavailable"
  | DeadlineExceeded => str "deadline_exceeded"
  | OutcomeCancelled => str "cancelled"
  | PartialEffect => str "partial_effect"
  | OutcomeEffectUnknown => str "effect_unknown"
  end.

Definition outcome_arms : list (rstr * ObservationOutcomeV1) :=
  [(str "applied", OutcomeApplied); (str "duplicate_acknowledged", OutcomeDuplicateAcknowledged);
   (str "rejected_contract_violation", RejectedContractViolation);
   (str "rejected_scope_mismatch", RejectedScopeMismatch);
   (str "rejected_provenance_unavailable", RejectedProvenanceUnavailable);
   (str "rejected_privacy_policy", RejectedPrivacyPolicy);
   (str "rejected_payload_too_large", RejectedPayloadTooLarge);
   (str "rejected_extension_unsupported", RejectedExtensionUnsupported);
   (str "idempotency_conflict", IdempotencyConflict);
   (str "provider_unavailable", ProviderUnavailable); (str "deadline_exceeded", DeadlineExceeded);
   (str "cancelled", OutcomeCancelled); (str "partial_effect", PartialEffect);
   (str "effect_unknown", OutcomeEffectUnknown)].

Definition outcome_from_wire (value : rstr) : result ObservationOutcomeV1 ObservationJournalError :=
  match match_str value outcome_arms with
  | Some outcome => Ok outcome
  | None => Err (UnknownWireValue (str "outcome") value)
  end.

Definition requires_provider_receipt (self : ObservationOutcomeV1) : bool :=
  match self with OutcomeApplied | OutcomeDuplicateAcknowledged | PartialEffect => true | _ => false end.

Definition is_retryable (self : ObservationOutcomeV1) : bool :=
  match self with ProviderUnavailable | DeadlineExceeded | OutcomeEffectUnknown => true | _ => false end.

Definition implied_state (self : ObservationOutcomeV1) : DeliveryStateV1 :=
  match self with
  | OutcomeApplied | PartialEffect => Acknowledged
  | OutcomeDuplicateAcknowledged => DuplicateAcknowledged
  | RejectedContractViolation | RejectedScopeMismatch | RejectedProvenanceUnavailable
  | RejectedPrivacyPolicy | RejectedPayloadTooLarge | RejectedExtensionUnsupported
  | IdempotencyConflict => Rejected
  | ProviderUnavailable | DeadlineExceeded => Pending
  | OutcomeCancelled => Cancelled
  | OutcomeEffectUnknown => EffectUnknown
  end.

Inductive ObservationCommittedEffectV1 : Type :=
  | EffectNone | EffectApplied | EffectDuplicate | EffectPartial | EffectIsUnknown.

#[export] Instance ObservationCommittedEffectV1_eq_dec : EqDecision ObservationCommittedEffectV1.
Proof. solve_decision. Defined.

Definition effect_as_wire (self : ObservationCommittedEffectV1) : rstr :=
  match self with
  | EffectNone => str "none"
  | EffectApplied => str "applied"
  | EffectDuplicate => str "duplicate"
  | EffectPartial => str "partial"
  | EffectIsUnknown => str "unknown"
  end.

Record ProviderEffectSummaryV1 : Type := {
  effect_count : Z;
  stable_memory_refs : list rstr;
  provider_trace_refs : list rstr;
  no_effect_reason : option rstr;
}.

#[export] Instance ProviderEffectSummaryV1_eq_dec : EqDecision ProviderEffectSummaryV1.
Proof. solve_decision. Defined.

(** [ProviderEffectSummaryV1::default()]. *)
Definition empty_summary : ProviderEffectSummaryV1 :=
  {| effect_count := 0; stable_memory_refs := []; provider_trace_refs := []; no_effect_reason := None |}.

Record ObservationDeliveryReceiptV1 : Type := {
  receipt_id : rstr;
  r_observation_id : rstr;
  r_idempotency_key : rstr;
  r_payload_sha256 : rstr;
  r_extensions_digest : rstr;
  r_provider_id : rstr;
  r_provider_instance_id : option rstr;
  r_registration_revision : Z;
  state_generation_before : option Z;
  state_generation_after : option Z;
  r_attempt_number : Z;
  outcome : ObservationOutcomeV1;
  committed_effect : ObservationCommittedEffectV1;
  provider_effect_summary : ProviderEffectSummaryV1;
  provider_receipt_digest : option rstr;
  started_at_unix_micros : Z;
  finished_at_unix_micros : Z;
  warnings : list rstr;
}.

(** [if let Some(value) = &field { check(value)?; }]. *)
Definition check_some {A} (field : option A) (check : A → result unit ObservationJournalError) :
    result unit ObservationJournalError :=
  match field with Some value => check value | None => Ok tt end.

Definition delivery_receipt_validate `{Sha256} (self : ObservationDeliveryReceiptV1) :
    result unit ObservationJournalError :=
  if r_attempt_number self =? 0 then Err (ValueOutOfRange (str "attempt_number")) else
  let? _ := check_some (r_provider_instance_id self) (λ instance,
    require_bounded instance (str "provider_instance_id") SOURCE_EVENT_ID_MAX_BYTES) in
  let? _ := require_sha256 (r_payload_sha256 self) (str "payload_sha256") in
  let? _ := require_sha256 (r_extensions_digest self) (str "extensions_digest") in
  let? _ := match provider_receipt_digest self with
            | Some digest => require_sha256 digest (str "provider_receipt_digest")
            | None =>
              if requires_provider_receipt (outcome self)
              then Err (AcknowledgementWithoutProviderReceipt (outcome_as_wire (outcome self)))
              else Ok tt
            end in
  if finished_at_unix_micros self <? started_at_unix_micros self
  then Err (ValueOutOfRange (str "finished_at_unix_micros")) else
  if negb (bool_decide (receipt_id_derive (r_observation_id self) (r_attempt_number self) = receipt_id self))
  then Err (ReceiptDigestMismatch (str "receipt_id")) else
  if negb (eqb (bool_decide (outcome self = OutcomeDuplicateAcknowledged))
               (bool_decide (committed_effect self = EffectDuplicate)))
  then Err (DuplicateAcknowledgementIncoherent (outcome_as_wire (outcome self))
              (effect_as_wire (committed_effect self)))
  else Ok tt.

(** ** retention.rs *)
Inductive RetentionClassV1 : Type := Ephemeral | SessionClass | ProjectClass | ProfileClass.

Record RetentionPolicyV1 : Type := {
  ephemeral_max_age_micros : Z;
  session_max_age_micros : Z;
  project_max_age_micros : Z;
  profile_max_age_micros : Z;
  receipt_retention_micros : Z;
  max_queue_items : Z;
  max_queue_bytes : Z;
  max_attempts : Z;
  backoff_base_micros : Z;
  backoff_max_micros : Z;
  sweep_batch_rows : Z;
}.

(** The loop over the fields that must be positive. *)
Fixpoint all_positive (fields : list (Z * rstr)) : result unit ObservationJournalError :=
  match fields with
  | [] => Ok tt
  | (value, field) :: fields =>
    if value <=? 0 then Err (InvalidRetentionPolicy field) else all_positive fields
  end.

Definition retention_validate (self : RetentionPolicyV1) : result unit ObservationJournalError :=
  let? _ := all_positive
    [(ephemeral_max_age_micros self, str "ephemeral_max_age_micros");
     (session_max_age_micros self, str "session_max_age_micros");
     (project_max_age_micros self, str "project_max_age_micros");
     (profile_max_age_micros self, str "profile_max_age_micros");
     (receipt_retention_micros self, str "receipt_retention_micros");
     (backoff_base_micros self, str "backoff_base_micros");
     (backoff_max_micros self, str "backoff_max_micros")] in
  if backoff_max_micros self <? backoff_base_micros self
  then Err (InvalidRetentionPolicy (str "backoff_max_micros")) else
  if max_queue_items self =? 0 then Err (InvalidRetentionPolicy (str "max_queue_items")) else
  if max_queue_bytes self =? 0 then Err (InvalidRetentionPolicy (str "max_queue_bytes")) else
  if max_attempts self =? 0 then Err (InvalidRetentionPolicy (str "max_attempts")) else
  if sweep_batch_rows self =? 0 then Err (InvalidRetentionPolicy (str "sweep_batch_rows"))
  else Ok tt.

Definition max_age_for (self : RetentionPolicyV1) (class : RetentionClassV1) : Z :=
  match class with
  | Ephemeral => ephemeral_max_age_micros self
  | SessionClass => session_max_age_micros self
  | ProjectClass => project_max_age_micros self
  | ProfileClass => profile_max_age_micros self
  end.

(** ** runtime/dispatch_policy.rs *)
Record RetryBackoffV1 : Type := {
  base_micros : Z;
  max_micros : Z;
}.

Definition backoff_of (retention : RetentionPolicyV1) : RetryBackoffV1 :=
  {| base_micros := backoff_base_micros retention; max_micros := backoff_max_micros retention |}.

Definition backoff_validate (self : RetryBackoffV1) : result unit ObservationJournalError :=
  if base_micros self <=? 0 then Err (InvalidDispatchPolicy (str "backoff_base_micros")) else
  if max_micros self <? base_micros self then Err (InvalidDispatchPolicy (str "backoff_max_micros"))
  else Ok tt.

(** [1i64.checked_shl(shift)]: [None] when the shift reaches the width. *)
Definition i64_one_checked_shl (shift : Z) : option Z :=
  if shift <? 64 then
    let x := (Z.shiftl 1 shift) mod 18446744073709551616 in
    Some (if x <=? i64_max then x else x - 18446744073709551616)
  else None.

Definition delay_for (self : RetryBackoffV1) (attempt_number : Z) : Z :=
  let shift := Z.min (sat_sub attempt_number 1) 31 in
  let multiplier := default i64_max (i64_one_checked_shl shift) in
  Z.min (default i64_max (i64_checked_mul (base_micros self) multiplier)) (max_micros self).

Definition next_attempt_at (self : RetryBackoffV1) (now_unix_micros attempt_number : Z) : Z :=
  i64_sat_add now_unix_micros (delay_for self attempt_number).

Definition next_attempt_delay (self : RetentionPolicyV1) (attempt_number : Z) : Z :=
  delay_for (backoff_of self) attempt_number.

Record DispatchPolicyV1 : Type := {
  lease_duration_micros : Z;
  batch_max_items : Z;
  batch_max_bytes : Z;
  attempt_budget_micros : Z;
  reap_budget : Z;
  max_rounds_per_drain : Z;
  drain_budget_micros : Z;
}.

Definition validate_against (self : DispatchPolicyV1) (retention : RetentionPolicyV1) :
    result unit ObservationJournalError :=
  if lease_duration_micros self <=? 0
  then Err (InvalidDispatchPolicy (str "lease_duration_micros")) else
  if (batch_max_items self =? 0) || (batch_max_items self >? max_queue_items retention)
  then Err (InvalidDispatchPolicy (str "batch_max_items")) else
  if (batch_max_bytes self =? 0) || (batch_max_bytes self >? max_queue_bytes retention)
  then Err (InvalidDispatchPolicy (str "batch_max_bytes")) else
  if (attempt_budget_micros self <=? 0) || (attempt_budget_micros self >? lease_duration_micros self)
  then Err (InvalidDispatchPolicy (str "attempt_budget_micros")) else
  if reap_budget self =? 0 then Err (InvalidDispatchPolicy (str "reap_budget")) else
  let reachable := sat_mul u64_max (max_rounds_per_drain self) (batch_max_items self) in
  if (max_rounds_per_drain self =? 0) || (reachable >? max_queue_items retention)
  then Err (InvalidDispatchPolicy (str "max_rounds_per_drain")) else
  if (drain_budget_micros self <? attempt_budget_micros self)
     || (drain_budget_micros self >? lease_duration_micros self)
  then Err (InvalidDispatchPolicy (str "drain_budget_micros")) else
  backoff_validate (backoff_of retention).

Record DrainBoundsV1 : Type := {
  max_rounds : Z;
  deadline_unix_micros : Z;
}.

Definition drain_bounds (self : DispatchPolicyV1) (retention : RetentionPolicyV1)
    (now_unix_micros : Z) : result DrainBoundsV1 ObservationJournalError :=
  let? _ := validate_against self retention in
  Ok {| max_rounds := max_rounds_per_drain self;
        deadline_unix_micros := i64_sat_add now_unix_micros (drain_budget_micros self) |}.

(** ** lease.rs, refusal.rs, orphan.rs *)
Record LeaseRequestV1 : Type := {
  q_provider_id : rstr;
  q_registration_revision : Z;
  q_provider_instance_id : rstr;
  q_exact_scope_sha256 : option rstr;
  q_lease_owner : rstr;
  q_now_unix_micros : Z;
  q_lease_duration_micros : Z;
  q_max_items : Z;
  q_max_bytes : Z;
}.

Definition lease_request_validate (self : LeaseRequestV1) : result unit ObservationJournalError :=
  let? _ := require_bounded (q_provider_id self) (str "provider_id") SOURCE_EVENT_ID_MAX_BYTES in
  let? _ := require_bounded (q_provider_instance_id self) (str "provider_instance_id")
              SOURCE_EVENT_ID_MAX_BYTES in
  let? _ := require_bounded (q_lease_owner self) (str "lease_owner") SOURCE_EVENT_ID_MAX_BYTES in
  if q_registration_revision self =? 0 then Err (ValueOutOfRange (str "registration_revision")) else
  let? _ := check_some (q_exact_scope_sha256 self) (λ scope,
    require_sha256 scope (str "exact_scope_sha256")) in
  if q_lease_duration_micros self <=? 0 then Err (ValueOutOfRange (str "lease_duration_micros")) else
  if q_max_items self =? 0 then Err (ValueOutOfRange (str "max_items")) else
  if q_max_bytes self =? 0 then Err (ValueOutOfRange (str "max_bytes")) else
  Ok tt.

Inductive AttemptOutcomeV1 : Type :=
  | Recorded (state : DeliveryStateV1) (next_attempt_at_unix_micros : option Z)
  | DuplicateReceipt (state : DeliveryStateV1)
  | LeaseLost (receipt_id : rstr).

Definition REFUSAL_TEXT_MAX_BYTES : Z := SOURCE_EVENT_ID_MAX_BYTES.

Inductive AttemptRefusalCategoryV1 : Type := TerminalIdentityMismatch | ReceiptNotAdmissible.

Record AttemptRefusalRecordV1 : Type := {
  f_observation_id : rstr;
  f_attempt_number : Z;
  f_idempotency_key : rstr;
  f_provider_id : rstr;
  f_provider_instance_id : rstr;
  f_registration_revision : Z;
  f_exact_scope_sha256 : rstr;
  f_category : AttemptRefusalCategoryV1;
  refused_field : rstr;
  f_expected : option rstr;
  f_provided : option rstr;
  f_detail : rstr;
  terminal_operation : rstr;
  terminal_code : rstr;
  terminal_operation_id : rstr;
  f_provider_receipt_digest : option rstr;
  f_started_at_unix_micros : Z;
  f_finished_at_unix_micros : Z;
  f_recorded_at_unix_micros : Z;
}.

Definition refusal_validate (self : AttemptRefusalRecordV1) : result unit ObservationJournalError :=
  let bounded value field := require_bounded value field REFUSAL_TEXT_MAX_BYTES in
  if f_attempt_number self =? 0 then Err (ValueOutOfRange (str "attempt_number")) else
  if f_registration_revision self =? 0 then Err (ValueOutOfRange (str "registration_revision")) else
  let? _ := bounded (f_provider_id self) (str "provider_id") in
  let? _ := bounded (f_provider_instance_id self) (str "provider_instance_id") in
  let? _ := require_sha256 (f_exact_scope_sha256 self) (str "exact_scope_sha256") in
  let? _ := bounded (refused_field self) (str "refused_field") in
  let? _ := bounded (f_detail self) (str "detail") in
  let? _ := bounded (terminal_operation self) (str "terminal_operation") in
  let? _ := bounded (terminal_code self) (str "terminal_code") in
  let? _ := bounded (terminal_operation_id self) (str "terminal_operation_id") in
  let? _ := check_some (f_expected self) (λ value, bounded value (str "expected")) in
  let? _ := check_some (f_provided self) (λ value, bounded value (str "provided")) in
  let? _ := check_some (f_provider_receipt_digest self) (λ digest,
    require_sha256 digest (str "provider_receipt_digest")) in
  if f_finished_at_unix_micros self <? f_started_at_unix_micros self
  then Err (ValueOutOfRange (str "finished_at_unix_micros")) else Ok tt.

Inductive AttemptRefusalOutcomeV1 : Type := RefusalRecorded | AlreadyRecorded | RefusalLeaseLost.

Inductive AttemptOrphanCauseV1 : Type := LeaseExpiredWithoutAnswer.
Inductive AttemptOrphanRecoveryV1 : Type := RedeliveryScheduled | AttemptsExhausted.

Record AttemptOrphanRecordV1 : Type := {
  o_observation_id : rstr;
  o_attempt_number : Z;
  o_idempotency_key : rstr;
  o_provider_id : rstr;
  o_provider_instance_id : option rstr;
  o_registration_revision : Z;
  o_exact_scope_sha256 : rstr;
  o_lease_id : rstr;
  o_lease_owner : rstr;
  o_payload_sha256 : rstr;
  o_cause : AttemptOrphanCauseV1;
  o_recovery : AttemptOrphanRecoveryV1;
  lease_expired_at_unix_micros : Z;
  o_recorded_at_unix_micros : Z;
}.

Definition orphan_validate (self : AttemptOrphanRecordV1) : result unit ObservationJournalError :=
  if o_attempt_number self =? 0 then Err (ValueOutOfRange (str "attempt_orphan_attempt_number")) else
  let? _ := require_bounded (o_provider_id self) (str "provider_id") SOURCE_EVENT_ID_MAX_BYTES in
  let? _ := check_some (o_provider_instance_id self) (λ instance,
    require_bounded instance (str "provider_instance_id") SOURCE_EVENT_ID_MAX_BYTES) in
  if o_registration_revision self =? 0 then Err (ValueOutOfRange (str "registration_revision")) else
  let? _ := require_sha256 (o_exact_scope_sha256 self) (str "exact_scope_sha256") in
  let? _ := require_bounded (o_lease_owner self) (str "lease_owner") SOURCE_EVENT_ID_MAX_BYTES in
  require_sha256 (o_payload_sha256 self) (str "payload_sha256").

(** ** Lemmas *)
Lemma match_str_elem {A} value (arms : list (rstr * A)) a :
  match_str value arms = Some a → (value, a) ∈ arms.
Proof.
  induction arms as [|[literal b] arms IH]; [done|]. simpl.
  case_bool_decide as E; [intros [= ->]; subst; left|right; auto].
Qed.

(** The wire names of delivery states and outcomes are exact: a value
    decodes to a state, or to an outcome, if and only if it is that state's, or
    that outcome's, own wire name. Hence encoding then decoding is the identity
    and no two states share a name. *)
Theorem delivery_wire_exact :
  (∀ value state, state_from_wire value = Ok state ↔ value = state_as_wire state) ∧
  (∀ value o, outcome_from_wire value = Ok o ↔ value = outcome_as_wire o).
Proof.
  split; intros value x; (split; [|intros ->; by destruct x; vm_compute]).
  - unfold state_from_wire. destruct (match_str value state_arms) as [s|] eqn:E; [|done].
    intros [= <-]. apply match_str_elem in E.
    assert (Forall (λ arm, arm.1 = state_as_wire arm.2) state_arms) as Hall
      by (repeat constructor).
    rewrite Forall_forall in Hall. exact (Hall _ E).
  - unfold outcome_from_wire. destruct (match_str value outcome_arms) as [s|] eqn:E; [|done].
    intros [= <-]. apply match_str_elem in E.
    assert (Forall (λ arm, arm.1 = outcome_as_wire arm.2) outcome_arms) as Hall
      by (repeat constructor).
    rewrite Forall_forall in Hall. exact (Hall _ E).
Qed.

Lemma shl_exact shift :
  0 <= shift <= 31 → i64_one_checked_shl shift = Some (2 ^ shift).
Proof.
  intros Hs. unfold i64_one_checked_shl. destruct (Z.ltb_spec shift 64); [|lia].
  rewrite Z.shiftl_1_l.
  assert (2 ^ shift <= 2 ^ 31) by (apply Z.pow_le_mono_r; lia).
  assert (0 < 2 ^ shift) by (apply Z.pow_pos_nonneg; lia).
  rewrite Z.mod_small by lia. destruct (Z.leb_spec (2 ^ shift) i64_max); [done|].
  unfold i64_max in *. lia.
Qed.

(** The multiplication that overflows is cut to the ceiling anyway. *)
Lemma delay_for_exact b n :
  0 < base_micros b → max_micros b <= i64_max → 0 <= n →
  delay_for b n = Z.min (max_micros b) (base_micros b * 2 ^ (Z.min (Z.max 0 (n - 1)) 31)).
Proof.
  intros Hb Hm Hn. unfold delay_for, sat_sub.
  set (s := Z.min (Z.max 0 (n - 1)) 31). assert (0 <= s <= 31) as Hs by lia.
  rewrite shl_exact by done. cbn [default from_option id].
  assert (0 < 2 ^ s) as Hp by (apply Z.pow_pos_nonneg; lia).
  unfold i64_checked_mul, in_i64. case_bool_decide as E; cbn [default from_option id]; [lia|].
  assert (0 < base_micros b * 2 ^ s) by (apply Z.mul_pos_pos; lia). unfold i64_min in E. lia.
Qed.

(** Retries back off on a capped exponential. For a policy the dispatcher
    accepts, the delay after the [n]-th attempt is the base doubled once per
    earlier attempt and cut at the ceiling, so it never lies below the base or
    above the ceiling and never shrinks as attempts accumulate, without any
    overflow of the 64-bit product; the next attempt is due that delay after
    now, or at the end of representable time. *)
Theorem retry_backoff_capped_exponential retention n m now :
  backoff_validate (backoff_of retention) = Ok tt → backoff_max_micros retention <= i64_max →
  1 <= n <= m → i64_min <= now <= i64_max →
  let delay := next_attempt_delay retention in
  delay n = Z.min (backoff_max_micros retention) (backoff_base_micros retention * 2 ^ Z.min (n - 1) 31) ∧
  backoff_base_micros retention <= delay n <= backoff_max_micros retention ∧
  delay n <= delay m ∧
  next_attempt_at (backoff_of retention) now n = Z.min i64_max (now + delay n).
Proof.
  unfold backoff_validate, next_attempt_delay, next_attempt_at. simpl. intros Hv Hmax Hnm Hnow.
  destruct (Z.leb_spec (backoff_base_micros retention) 0); [done|].
  destruct (Z.ltb_spec (backoff_max_micros retention) (backoff_base_micros retention)); [done|].
  rewrite !delay_for_exact by (simpl; lia). simpl.
  replace (Z.max 0 (n - 1)) with (n - 1) by lia. replace (Z.max 0 (m - 1)) with (m - 1) by lia.
  assert (2 ^ 0 <= 2 ^ Z.min (n - 1) 31) as Hlo by (apply Z.pow_le_mono_r; lia).
  assert (2 ^ Z.min (n - 1) 31 <= 2 ^ Z.min (m - 1) 31) as Hmon by (apply Z.pow_le_mono_r; lia).
  set (pn := 2 ^ Z.min (n - 1) 31) in *. set (pm := 2 ^ Z.min (m - 1) 31) in *.
  assert (backoff_base_micros retention * 1 <= backoff_base_micros retention * pn)
    by (apply Z.mul_le_mono_nonneg_l; lia).
  assert (backoff_base_micros retention * pn <= backoff_base_micros retention * pm)
    by (apply Z.mul_le_mono_nonneg_l; lia).
  split_and!; try lia. unfold i64_sat_add, i64_clamp. lia.
Qed.

Definition sample_retention : RetentionPolicyV1 := {|
  ephemeral_max_age_micros := 10; session_max_age_micros := 20; project_max_age_micros := 30;
  profile_max_age_micros := 40; receipt_retention_micros := 50; max_queue_items := 8;
  max_queue_bytes := 4096; max_attempts := 3; backoff_base_micros := 1000;
  backoff_max_micros := 5000; sweep_batch_rows := 4;
|}.

Lemma retry_backoff_capped_exponential_witness :
  next_attempt_delay sample_retention 2 = 2000 ∧ next_attempt_delay sample_retention 4 = 5000 ∧
  next_attempt_delay sample_retention 2 <= next_attempt_delay sample_retention 4.
Proof.
  split; [vm_compute; reflexivity|]. split; [vm_compute; reflexivity|].
  apply (retry_backoff_capped_exponential sample_retention 2 4 0);
    [vm_compute; reflexivity|vm_compute; congruence|lia|unfold i64_min, i64_max; lia].
Defined.
