(* ===== verification/HygieneReceipt.v ===== *)
(** * Hygiene receipts of the provider boundary

    [tracedecay-memory-provider-api/src/hygiene.rs]: the sanitization receipt
    that binds an observation payload to the pipeline that cleared it, its
    derived identifier, and the hand-written JSON printer and strict parser that
    carry it across a restart, with the text checks of [src/lib.rs] they share.

    A parser position is the rest of the input: [from] and [next] of the source
    are the bytes that follow them, and reaching [bytes.len()] is the empty
    rest. *)
From stdpp Require Import base list numbers sets strings.
From S2P Require Import Prelude RustText Bytes ObservationState.

#[local] Open Scope Z_scope.
#[local] Open Scope rust_scope.

(** ** Shared checks: lib.rs *)
Definition api_require_non_empty (value field : rstr) : result unit ApiError :=
  if is_empty value then Err (ApiEmptyField field) else Ok tt.

Definition is_lowercase_sha256 (value : rstr) : bool :=
  (str_len value =? 64) && forallb is_lowercase_hex_byte (utf8_encode value).

Definition api_require_sha256 (value field : rstr) : result unit ApiError :=
  if is_lowercase_sha256 value then Ok tt else Err (InvalidSha256 field).

Definition require_tagged_sha256 (value field : rstr) : result unit ApiError :=
  match strip_prefix (str "sha256:") value with
  | None => Err (InvalidSha256 field)
  | Some digest => api_require_sha256 digest field
  end.

(** [lowercase_sha256_hex] is [lowercase_hex] of an array of 32 bytes. *)
Definition lowercase_sha256_hex (value : bytes) : rstr := lowercase_hex value.

(** ** Hygiene receipts: hygiene.rs *)
Definition RECEIPT_DIGEST_DOMAIN : bytes := str "tracedecay.memory.observation.hygiene.receipt.v1".
Definition OBSERVATION_HYGIENE_RECEIPT_ID_PREFIX : rstr := str "obs-hygiene-receipt.v1.".
Definition OBSERVATION_HYGIENE_WITHHELD_ID_PREFIX : rstr := str "obs-hygiene-withheld.v1.".
Definition WITHHELD_DIGEST_DOMAIN : bytes := str "tracedecay.memory.observation.hygiene.withheld.v1".
Definition SANITIZER_REVISION_MAX_BYTES : Z := 256.

Inductive SanitizationDisposition : Type := Accepted | Redacted.

#[export] Instance SanitizationDisposition_eq_dec : EqDecision SanitizationDisposition.
Proof. solve_decision. Defined.

Definition disposition_as_str (self : SanitizationDisposition) : rstr :=
  match self with Accepted => str "accepted" | Redacted => str "redacted" end.

Definition disposition_from_wire (value : rstr) : option SanitizationDisposition :=
  match_str value [(str "accepted", Accepted); (str "redacted", Redacted)].

Inductive WithheldReason : Type :=
  | SecretRejected | Quarantined | UnclassifiablePayload | UnknownEligibility.

Definition withheld_reason_as_str (self : WithheldReason) : rstr :=
  match self with
  | SecretRejected => str "secret_rejected"
  | Quarantined => str "quarantined"
  | UnclassifiablePayload => str "unclassifiable_payload"
  | UnknownEligibility => str "unknown_eligibility"
  end.

Definition withheld_reason_from_wire (value : rstr) : option WithheldReason :=
  match_str value
    [(str "secret_rejected", SecretRejected); (str "quarantined", Quarantined);
     (str "unclassifiable_payload", UnclassifiablePayload);
     (str "unknown_eligibility", UnknownEligibility)].

Record PayloadSanitizationReceipt : Type := {
  hr_receipt_id : rstr;
  hr_sanitizer_revision : rstr;
  hr_source_payload_sha256 : rstr;
  hr_sanitized_payload_sha256 : rstr;
  hr_extensions_digest : rstr;
  hr_disposition : SanitizationDisposition;
  hr_finding_count : Z;
  hr_findings_digest : rstr;
}.

(** The constructor inputs: everything but the derived identifier. *)
Record PayloadSanitizationReceiptParts : Type := {
  hp_sanitizer_revision : rstr;
  hp_source_payload_sha256 : rstr;
  hp_sanitized_payload_sha256 : rstr;
  hp_extensions_digest : rstr;
  hp_disposition : SanitizationDisposition;
  hp_finding_count : Z;
  hp_findings_digest : rstr;
}.

Definition require_disposition_matches_digests (disposition : SanitizationDisposition)
    (source_payload_sha256 sanitized_payload_sha256 : rstr) : result unit ApiError :=
  match disposition with
  | Accepted =>
    if bool_decide (sanitized_payload_sha256 = source_payload_sha256) then Ok tt
    else Err SanitizationAcceptedPayloadModified
  | Redacted =>
    if bool_decide (sanitized_payload_sha256 = source_payload_sha256)
    then Err SanitizationRedactedPayloadUnmodified else Ok tt
  end.

(** A byte that needs no JSON escape and no decoding. *)
Definition printable_without_escapes (byte : Z) : bool :=
  within 33 126 byte && negb (byte =? 34) && negb (byte =? 92).

Definition require_sanitizer_revision (value : rstr) : result unit ApiError :=
  if is_empty value || (str_len value >? SANITIZER_REVISION_MAX_BYTES)
  then Err InvalidSanitizerRevision else
  if forallb printable_without_escapes (utf8_encode value) then Ok tt
  else Err InvalidSanitizerRevision.

Definition u32_to_be_bytes (x : Z) : bytes := reverse (to_le_bytes 4 x).

(** Every frame, the domain included, behind its length. *)
Definition framed (domain : bytes) (parts : list bytes) : bytes :=
  absorbed domain ++ (parts ≫= absorbed).

Section hygiene.
Context `{Sha256}.

Definition framed_digest (domain : bytes) (parts : list bytes) : bytes := sha256 (framed domain parts).

Definition derive_receipt_id (sanitizer_revision source_payload_sha256 sanitized_payload_sha256
    extensions_digest : rstr) (disposition : SanitizationDisposition) (finding_count : Z)
    (findings_digest : rstr) : rstr :=
  OBSERVATION_HYGIENE_RECEIPT_ID_PREFIX ++
  lowercase_sha256_hex (framed_digest RECEIPT_DIGEST_DOMAIN
    [utf8_encode sanitizer_revision; utf8_encode source_payload_sha256;
     utf8_encode sanitized_payload_sha256; utf8_encode extensions_digest;
     utf8_encode (disposition_as_str disposition); u32_to_be_bytes finding_count;
     utf8_encode findings_digest]).

Definition derive_withheld_receipt_id (sanitizer_revision source_payload_sha256
    extensions_digest : rstr) (reason : WithheldReason) (finding_count : Z)
    (findings_digest : rstr) : rstr :=
  OBSERVATION_HYGIENE_WITHHELD_ID_PREFIX ++
  lowercase_sha256_hex (framed_digest WITHHELD_DIGEST_DOMAIN
    [utf8_encode sanitizer_revision; utf8_encode source_payload_sha256;
     utf8_encode extensions_digest; utf8_encode (withheld_reason_as_str reason);
     u32_to_be_bytes finding_count; utf8_encode findings_digest]).

Definition sanitization_receipt_new (parts : PayloadSanitizationReceiptParts) :
    result PayloadSanitizationReceipt ApiError :=
  let? _ := require_sanitizer_revision (hp_sanitizer_revision parts) in
  let? _ := api_require_sha256 (hp_source_payload_sha256 parts) (str "source_payload_sha256") in
  let? _ := api_require_sha256 (hp_sanitized_payload_sha256 parts) (str "sanitized_payload_sha256") in
  let? _ := api_require_sha256 (hp_extensions_digest parts) (str "sanitization_extensions_digest") in
  let? _ := api_require_sha256 (hp_findings_digest parts) (str "sanitization_findings_digest") in
  let? _ := require_disposition_matches_digests (hp_disposition parts)
              (hp_source_payload_sha256 parts) (hp_sanitized_payload_sha256 parts) in
  Ok {| hr_receipt_id := derive_receipt_id (hp_sanitizer_revision parts)
          (hp_source_payload_sha256 parts) (hp_sanitized_payload_sha256 parts)
          (hp_extensions_digest parts) (hp_disposition parts) (hp_finding_count parts)
          (hp_findings_digest parts);
        hr_sanitizer_revision := hp_sanitizer_revision parts;
        hr_source_payload_sha256 := hp_source_payload_sha256 parts;
        hr_sanitized_payload_sha256 := hp_sanitized_payload_sha256 parts;
        hr_extensions_digest := hp_extensions_digest parts;
        hr_disposition := hp_disposition parts; hr_finding_count := hp_finding_count parts;
        hr_findings_digest := hp_findings_digest parts |}.

Definition sanitization_receipt_validate (self : PayloadSanitizationReceipt) : result unit ApiError :=
  let? _ := require_sanitizer_revision (hr_sanitizer_revision self) in
  let? _ := api_require_sha256 (hr_source_payload_sha256 self) (str "source_payload_sha256") in
  let? _ := api_require_sha256 (hr_sanitized_payload_sha256 self) (str "sanitized_payload_sha256") in
  let? _ := api_require_sha256 (hr_extensions_digest self) (str "sanitization_extensions_digest") in
  let? _ := api_require_sha256 (hr_findings_digest self) (str "sanitization_findings_digest") in
  let? _ := require_disposition_matches_digests (hr_disposition self)
              (hr_source_payload_sha256 self) (hr_sanitized_payload_sha256 self) in
  if bool_decide (derive_receipt_id (hr_sanitizer_revision self) (hr_source_payload_sha256 self)
       (hr_sanitized_payload_sha256 self) (hr_extensions_digest self) (hr_disposition self)
       (hr_finding_count self) (hr_findings_digest self) = hr_receipt_id self)
  then Ok tt else Err SanitizationReceiptTampered.

Definition verify_binding (self : PayloadSanitizationReceipt) (payload_sha256 extensions_digest : rstr) :
    result unit ApiError :=
  let? _ := sanitization_receipt_validate self in
  if negb (bool_decide (hr_sanitized_payload_sha256 self = payload_sha256))
     || negb (bool_decide (hr_extensions_digest self = extensions_digest))
  then Err SanitizationReceiptUnbound else Ok tt.
End hygiene.

(** *** Printing *)

(** [u32::to_string]; ten digits are enough. *)
Fixpoint decimal_digits (fuel : nat) (n : Z) : rstr :=
  match fuel with
  | O => []
  | S fuel => if n <? 10 then [48 + n] else decimal_digits fuel (n / 10) ++ [48 + n mod 10]
  end.
Definition u32_to_string (n : Z) : rstr := decimal_digits 10 n.

Definition push_json_string_field (output key value : rstr) (first : bool) : rstr :=
  (if first then output else output ++ [44]) ++ [34] ++ key ++ [34; 58; 34] ++ value ++ [34].

Definition to_json (self : PayloadSanitizationReceipt) : rstr :=
  let output := [123] in
  let output := push_json_string_field output (str "receipt_id") (hr_receipt_id self) true in
  let output := push_json_string_field output (str "sanitizer_revision")
                  (hr_sanitizer_revision self) false in
  let output := push_json_string_field output (str "source_payload_sha256")
                  (hr_source_payload_sha256 self) false in
  let output := push_json_string_field output (str "sanitized_payload_sha256")
                  (hr_sanitized_payload_sha256 self) false in
  let output := push_json_string_field output (str "extensions_digest")
                  (hr_extensions_digest self) false in
  let output := push_json_string_field output (str "disposition")
                  (disposition_as_str (hr_disposition self)) false in
  let output := output ++ [44; 34] ++ str "finding_count" ++ [34; 58] in
  let output := output ++ u32_to_string (hr_finding_count self) in
  let output := push_json_string_field output (str "findings_digest") (hr_findings_digest self) false in
  output ++ [125].

(** *** Parsing *)
Definition malformed {A} (part : rstr) : result A ApiError := Err (MalformedSanitizationReceiptJson part).

Definition is_json_whitespace (byte : Z) : bool :=
  (byte =? 32) || (byte =? 9) || (byte =? 10) || (byte =? 13).

Fixpoint skip_whitespace (rest : bytes) : bytes :=
  match rest with
  | byte :: tail => if is_json_whitespace byte then skip_whitespace tail else rest
  | [] => []
  end.

(** The scan for the closing quote: the text before it and the rest after it. *)
Fixpoint string_body (rest : bytes) : option (bytes * bytes) :=
  match rest with
  | [] => None
  | byte :: tail =>
    if byte =? 34 then Some ([], tail)
    else if (byte =? 92) || (byte <? 32) then None
    else match string_body tail with
         | Some (text, next) => Some (byte :: text, next)
         | None => None
         end
  end.

Definition parse_json_string (rest : bytes) : result (rstr * bytes) ApiError :=
  match rest with
  | byte :: tail =>
    if negb (byte =? 34) then malformed (str "string") else
    match string_body tail with
    | None => malformed (str "string")
    | Some (text, next) =>
      match utf8_decode text with
      | Some value => Ok (value, next)
      | None => malformed (str "string")
      end
    end
  | [] => malformed (str "string")
  end.

Definition is_ascii_digit (byte : Z) : bool := within 48 57 byte.

(** The digit loop with its accumulator and the count of digits read. *)
Fixpoint digit_loop (rest : bytes) (value digits : Z) : result (Z * Z * bytes) ApiError :=
  match rest with
  | byte :: tail =>
    if negb (is_ascii_digit byte) then Ok (value, digits, rest) else
    if (digits =? 1) && (value =? 0) then malformed (str "number") else
    let scaled := value * 10 in
    if scaled >? u32_max then malformed (str "number") else
    let value := scaled + (byte - 48) in
    if value >? u32_max then malformed (str "number") else
    digit_loop tail value (digits + 1)
  | [] => Ok (value, digits, rest)
  end.

Definition parse_json_u32 (rest : bytes) : result (Z * bytes) ApiError :=
  let? read := digit_loop rest 0 0 in
  let '(value, digits, next) := read in
  if digits =? 0 then malformed (str "number") else Ok (value, next).

(** The eight variables of [parse_receipt_json]. *)
Record ReceiptFields : Type := {
  v_receipt_id : option rstr;
  v_sanitizer_revision : option rstr;
  v_source_payload_sha256 : option rstr;
  v_sanitized_payload_sha256 : option rstr;
  v_extensions_digest : option rstr;
  v_disposition : option SanitizationDisposition;
  v_finding_count : option Z;
  v_findings_digest : option rstr;
}.

Definition no_fields : ReceiptFields :=
  {| v_receipt_id := None; v_sanitizer_revision := None; v_source_payload_sha256 := None;
     v_sanitized_payload_sha256 := None; v_extensions_digest := None; v_disposition := None;
     v_finding_count := None; v_findings_digest := None |}.

(** One named field. *)
Inductive receipt_key : Type :=
  | KReceiptId | KSanitizerRevision | KSourcePayload | KSanitizedPayload | KExtensions
  | KDisposition | KFindingCount | KFindings.

#[export] Instance receipt_key_eq_dec : EqDecision receipt_key.
Proof. solve_decision. Defined.

(** [RECEIPT_JSON_KEYS], with the variable each key names. *)
Definition RECEIPT_JSON_KEYS : list (rstr * receipt_key) :=
  [(str "receipt_id", KReceiptId); (str "sanitizer_revision", KSanitizerRevision);
   (str "source_payload_sha256", KSourcePayload);
   (str "sanitized_payload_sha256", KSanitizedPayload); (str "extensions_digest", KExtensions);
   (str "disposition", KDisposition); (str "finding_count", KFindingCount);
   (str "findings_digest", KFindings)].

(** [variable.replace(value).is_some()]. *)
Definition replace_string (fields : ReceiptFields) (key : receipt_key) (value : rstr) :
    ReceiptFields * bool :=
  let 'Build_ReceiptFields i s p q x d n f := fields in
  let had {A} (o : option A) : bool := match o with Some _ => true | None => false end in
  match key with
  | KReceiptId => (Build_ReceiptFields (Some value) s p q x d n f, had i)
  | KSanitizerRevision => (Build_ReceiptFields i (Some value) p q x d n f, had s)
  | KSourcePayload => (Build_ReceiptFields i s (Some value) q x d n f, had p)
  | KSanitizedPayload => (Build_ReceiptFields i s p (Some value) x d n f, had q)
  | KExtensions => (Build_ReceiptFields i s p q (Some value) d n f, had x)
  | KFindings => (Build_ReceiptFields i s p q x d n (Some value), had f)
  | KDisposition | KFindingCount => (fields, false)
  end.

Definition replace_disposition (fields : ReceiptFields) (value : SanitizationDisposition) :
    ReceiptFields * bool :=
  let 'Build_ReceiptFields i s p q x d n f := fields in
  (Build_ReceiptFields i s p q x (Some value) n f, match d with Some _ => true | None => false end).

Definition replace_count (fields : ReceiptFields) (value : Z) : ReceiptFields * bool :=
  let 'Build_ReceiptFields i s p q x d n f := fields in
  (Build_ReceiptFields i s p q x d (Some value) f, match n with Some _ => true | None => false end).

Definition unless_duplicate (replaced : ReceiptFields * bool) (rest : bytes) :
    result (ReceiptFields * bytes) ApiError :=
  if snd replaced then malformed (str "duplicate_field") else Ok (fst replaced, skip_whitespace rest).

(** The value of a member, behind its key and separator. *)
Definition parse_value (fields : ReceiptFields) (key : receipt_key) (rest : bytes) :
    result (ReceiptFields * bytes) ApiError :=
  match key with
  | KFindingCount =>
    let? read := parse_json_u32 rest in
    unless_duplicate (replace_count fields (fst read)) (snd read)
  | KDisposition =>
    let? read := parse_json_string rest in
    match disposition_from_wire (fst read) with
    | None => malformed (str "disposition")
    | Some parsed => unless_duplicate (replace_disposition fields parsed) (snd read)
    end
  | _ =>
    let? read := parse_json_string rest in
    unless_duplicate (replace_string fields key (fst read)) (snd read)
  end.

(** One turn of the loop up to the byte that ends the member. *)
Definition parse_member (fields : ReceiptFields) (rest : bytes) :
    result (ReceiptFields * bytes) ApiError :=
  let? read := parse_json_string rest in
  match match_str (fst read) RECEIPT_JSON_KEYS with
  | None => malformed (str "unknown_field")
  | Some key =>
    match skip_whitespace (snd read) with
    | byte :: tail =>
      if negb (byte =? 58) then malformed (str "separator")
      else parse_value fields key (skip_whitespace tail)
    | [] => malformed (str "separator")
    end
  end.

(** The loop; a turn that goes on consumes a byte, so one more than the length
    of the input is fuel enough ([parse_members_reads] reads every document
    with it). *)
Fixpoint parse_members (fuel : nat) (fields : ReceiptFields) (rest : bytes) :
    result (ReceiptFields * bytes) ApiError :=
  match fuel with
  | O => malformed (str "object")
  | S fuel =>
    let? read := parse_member fields rest in
    match snd read with
    | byte :: tail =>
      if byte =? 44 then parse_members fuel (fst read) (skip_whitespace tail)
      else if byte =? 125 then Ok (fst read, skip_whitespace tail)
      else malformed (str "object")
    | [] => malformed (str "object")
    end
  end.

Definition ok_or {A} (value : option A) (error : ApiError) : result A ApiError :=
  match value with Some x => Ok x | None => Err error end.

(** The variables read as a receipt, every one of them required. *)
Definition receipt_of_fields (fields : ReceiptFields) : result PayloadSanitizationReceipt ApiError :=
  let missing := MalformedSanitizationReceiptJson (str "missing_field") in
  let? i := ok_or (v_receipt_id fields) missing in
  let? s := ok_or (v_sanitizer_revision fields) missing in
  let? p := ok_or (v_source_payload_sha256 fields) missing in
  let? q := ok_or (v_sanitized_payload_sha256 fields) missing in
  let? x := ok_or (v_extensions_digest fields) missing in
  let? d := ok_or (v_disposition fields) missing in
  let? n := ok_or (v_finding_count fields) missing in
  let? f := ok_or (v_findings_digest fields) missing in
  Ok {| hr_receipt_id := i; hr_sanitizer_revision := s; hr_source_payload_sha256 := p;
        hr_sanitized_payload_sha256 := q; hr_extensions_digest := x; hr_disposition := d;
        hr_finding_count := n; hr_findings_digest := f |}.

Definition parse_receipt_json (source : rstr) : result PayloadSanitizationReceipt ApiError :=
  match skip_whitespace (utf8_encode source) with
  | byte :: tail =>
    if negb (byte =? 123) then malformed (str "object") else
    let rest := skip_whitespace tail in
    if bool_decide (head rest = Some 125) then malformed (str "missing_field") else
    let? read := parse_members (S (length rest)) no_fields rest in
    if negb (is_empty (snd read)) then malformed (str "trailing_content")
    else receipt_of_fields (fst read)
  | [] => malformed (str "object")
  end.

Definition from_json `{Sha256} (source : rstr) : result PayloadSanitizationReceipt ApiError :=
  let? receipt := parse_receipt_json source in
  let? _ := sanitization_receipt_validate receipt in
  Ok receipt.

(** ** Lemmas *)

(** *** ASCII text *)
Definition ascii (s : rstr) : bool := forallb (within 0 127) s.

(** Text that stands between quotes without escapes. *)
Definition quotable (s : rstr) : bool :=
  forallb (λ c, within 32 127 c && negb (c =? 34) && negb (c =? 92)) s.

Lemma utf8_encode_cons c s : utf8_encode (c :: s) = utf8_char c ++ utf8_encode s.
Proof. done. Qed.

Lemma utf8_encode_app s t : utf8_encode (s ++ t) = utf8_encode s ++ utf8_encode t.
Proof. apply bind_app. Qed.

Lemma ascii_encode s : ascii s = true → utf8_encode s = s.
Proof.
  induction s as [|c s IH]; [done|]. intros [Hc Hs]%andb_true_iff. rewrite utf8_encode_cons, IH by done.
  unfold within in Hc. unfold utf8_char. by destruct (Z.ltb_spec c 128); [|lia].
Qed.

Lemma ascii_decode s : ascii s = true → utf8_decode s = Some s.
Proof.
  intros Hs. rewrite <- (ascii_encode s Hs) at 1. apply utf8_decode_encode.
  unfold ascii in Hs. rewrite forallb_Forall in *. eapply Forall_impl; [exact Hs|].
  unfold within, is_scalar. intros c Hc. lia.
Qed.

Lemma quotable_ascii s : quotable s = true → ascii s = true.
Proof.
  unfold quotable, ascii. rewrite !forallb_Forall. intros Hs. eapply Forall_impl; [exact Hs|].
  unfold within. intros c Hc. simpl in Hc. lia.
Qed.

(** A string whose encoding is of one-byte characters is that encoding. *)
Lemma encoded_ascii p s :
  (∀ c, p c = true → 0 <= c <= 127) → forallb p (utf8_encode s) = true →
  utf8_encode s = s ∧ forallb p s = true.
Proof.
  intros Hp. induction s as [|c s IH]; [done|]. rewrite utf8_encode_cons, forallb_app, andb_true_iff.
  intros [Hc Hs]. destruct (IH Hs) as [E F]. assert (utf8_char c = [c]) as Ec.
  { unfold utf8_char in *. destruct (Z.ltb_spec c 128); [done|]. exfalso.
    destruct (c <? 2048) eqn:?; [|destruct (c <? 65536) eqn:?]; simpl in Hc;
      apply andb_true_iff in Hc as [Hc _]; apply Hp in Hc; utf8_arith. }
  rewrite Ec in *. simpl in Hc. rewrite andb_true_r in Hc. rewrite E. simpl. by rewrite Hc, F.
Qed.

Lemma lowercase_sha256_quotable s : is_lowercase_sha256 s = true → quotable s = true.
Proof.
  unfold is_lowercase_sha256. intros [_ Hs]%andb_true_iff. apply encoded_ascii in Hs as [_ Hs].
  - unfold quotable. rewrite forallb_Forall in *. eapply Forall_impl; [exact Hs|].
    unfold is_lowercase_hex_byte, within. intros c Hc. simpl in *. lia.
  - unfold is_lowercase_hex_byte, within. lia.
Qed.

Lemma revision_quotable s : require_sanitizer_revision s = Ok tt → quotable s = true.
Proof.
  unfold require_sanitizer_revision. destruct (_ || _); [done|]. destruct (forallb _ _) eqn:Hs; [|done].
  intros _. apply encoded_ascii in Hs as [_ Hs].
  - unfold quotable. rewrite forallb_Forall in *. eapply Forall_impl; [exact Hs|].
    unfold printable_without_escapes, within. intros c Hc. simpl in *. lia.
  - unfold printable_without_escapes, within. lia.
Qed.

Lemma derived_id_quotable `{Sha256} a b c d e f g : quotable (derive_receipt_id a b c d e f g) = true.
Proof.
  unfold derive_receipt_id, quotable. rewrite forallb_app. apply andb_true_iff. split; [by vm_compute|].
  unfold lowercase_sha256_hex, lowercase_hex.
  destruct (hex_encode_ok _ (sha256_bytes (framed RECEIPT_DIGEST_DOMAIN
    [utf8_encode a; utf8_encode b; utf8_encode c; utf8_encode d;
     utf8_encode (disposition_as_str e); u32_to_be_bytes f; utf8_encode g]))) as (_ & _ & Hx).
  unfold framed_digest. rewrite forallb_Forall in *. eapply Forall_impl; [exact Hx|].
  unfold is_lowercase_hex_byte, within. intros x Hxx. simpl in *. lia.
Qed.

(** *** Whitespace and strings *)
Definition blank (w : bytes) : bool := forallb is_json_whitespace w.

Lemma skip_blank w rest : blank w = true → skip_whitespace (w ++ rest) = skip_whitespace rest.
Proof. induction w as [|b w IH]; [done|]. intros [Hb Hw]%andb_true_iff. simpl. rewrite Hb. auto. Qed.

Lemma skip_whitespace_split rest :
  ∃ w, blank w = true ∧ rest = w ++ skip_whitespace rest.
Proof.
  induction rest as [|b rest (w & Hw & E)]; [by exists []|]. simpl. destruct (is_json_whitespace b) eqn:Hb.
  - exists (b :: w). simpl. rewrite Hb, Hw. split; [done|]. by rewrite <- E.
  - by exists [].
Qed.

Lemma skip_solid b rest : is_json_whitespace b = false → skip_whitespace (b :: rest) = b :: rest.
Proof. simpl. by intros ->. Qed.

Definition quoted (s : bytes) : bytes := 34 :: s ++ [34].

Lemma string_body_quotable s rest :
  quotable s = true → string_body (s ++ 34 :: rest) = Some (s, rest).
Proof.
  induction s as [|c s IH]; [done|]. intros [Hc Hs]%andb_true_iff. simpl. rewrite IH by done.
  unfold within in Hc. destruct (Z.eqb_spec c 34); [lia|]. destruct (_ || _) eqn:?; [lia|done].
Qed.

Lemma parse_quoted s rest : quotable s = true → parse_json_string (quoted s ++ rest) = Ok (s, rest).
Proof.
  intros Hs. unfold quoted. simpl. rewrite <- app_assoc. simpl. rewrite string_body_quotable by done.
  by rewrite ascii_decode by by apply quotable_ascii.
Qed.

Lemma string_body_split rest text next :
  string_body rest = Some (text, next) → rest = text ++ 34 :: next.
Proof.
  revert text. induction rest as [|b rest IH]; intros text; simpl; [done|].
  destruct (Z.eqb_spec b 34) as [->|]; [by intros [= <- <-]|]. destruct (_ || _); [done|].
  destruct (string_body rest) as [[t m]|]; [|done]. intros [= <- ->]. by rewrite (IH t).
Qed.

Lemma parse_json_string_split rest s next :
  parse_json_string rest = Ok (s, next) → rest = quoted (utf8_encode s) ++ next.
Proof.
  unfold parse_json_string. intros Hp. destruct rest as [|b tail]; [done|].
  destruct (Z.eqb_spec b 34) as [->|]; [|done]. simpl in Hp.
  destruct (string_body tail) as [[text m]|] eqn:E; [|done].
  destruct (utf8_decode text) as [v|] eqn:Ev; [|done]. injection Hp as -> ->.
  apply string_body_split in E as ->. apply utf8_decode_sound in Ev as [-> _].
  unfold quoted. simpl. by rewrite <- app_assoc.
Qed.

(** *** Numbers *)

(** The value of a digit string, most significant digit first. *)
Definition digits_value (ds : rstr) : Z := foldl (λ v c, v * 10 + (c - 48)) 0 ds.

(** No superfluous leading zero. *)
Definition canonical_digits (ds : rstr) : Prop :=
  Forall (λ c, 48 <= c <= 57) ds ∧ ds ≠ [] ∧ (head ds = Some 48 → length ds = 1%nat).

Lemma digits_value_snoc ds c : digits_value (ds ++ [c]) = digits_value ds * 10 + (c - 48).
Proof. unfold digits_value. by rewrite foldl_app. Qed.

Lemma foldl_digits_ge ds v :
  0 <= v → Forall (λ c, 48 <= c <= 57) ds →
  v * 10 ^ zlen ds <= foldl (λ v c, v * 10 + (c - 48)) v ds.
Proof.
  revert v. induction ds as [|c ds IH]; intros v Hv Hd; [unfold zlen; simpl; lia|].
  apply Forall_cons in Hd as [Hc Hd]. simpl. rewrite zlen_cons, Z.add_1_l, Z.pow_succ_r by apply zlen_nonneg.
  etrans; [|apply IH; [lia|done]]. pose proof (Z.pow_nonneg 10 (zlen ds)). nia.
Qed.

Lemma foldl_digits_mono ds v :
  0 <= v → Forall (λ c, 48 <= c <= 57) ds → v <= foldl (λ v c, v * 10 + (c - 48)) v ds.
Proof.
  intros Hv Hd. pose proof (foldl_digits_ge ds v Hv Hd) as Hg.
  pose proof (Z.pow_pos_nonneg 10 (zlen ds) ltac:(lia) (zlen_nonneg ds)). nia.
Qed.

Definition starts_with_digit (rest : bytes) : bool :=
  match rest with byte :: _ => is_ascii_digit byte | [] => false end.

Lemma digit_loop_stops rest v k :
  starts_with_digit rest = false → digit_loop rest v k = Ok (v, k, rest).
Proof. destruct rest as [|b rest]; [done|]. simpl. by intros ->. Qed.

Lemma digit_loop_reads ds rest v k :
  Forall (λ c, 48 <= c <= 57) ds → starts_with_digit rest = false → 0 <= v →
  foldl (λ v c, v * 10 + (c - 48)) v ds <= u32_max →
  ds = [] ∨ 0 < v ∨ (k = 0 ∧ (head ds = Some 48 → length ds = 1%nat)) →
  digit_loop (ds ++ rest) v k = Ok (foldl (λ v c, v * 10 + (c - 48)) v ds, k + zlen ds, rest).
Proof.
  revert v k. induction ds as [|c ds IH]; intros v k Hd Hr Hv Hm Hz.
  { simpl. rewrite digit_loop_stops by done. unfold zlen. simpl. do 3 f_equal. lia. }
  apply Forall_cons in Hd as [Hc Hd]. cbn [app digit_loop foldl] in *.
  assert (is_ascii_digit c = true) as -> by (unfold is_ascii_digit, within; lia). cbn [negb].
  assert ((k =? 1) && (v =? 0) = false) as -> by (destruct Hz as [|[|[-> _]]]; [done|lia|lia]).
  pose proof (foldl_digits_mono ds (v * 10 + (c - 48)) ltac:(lia) Hd) as Hmono.
  rewrite !Z.gtb_ltb. destruct (Z.ltb_spec u32_max (v * 10)); [lia|].
  destruct (Z.ltb_spec u32_max (v * 10 + (c - 48))); [lia|].
  rewrite IH; try done; [|lia|].
  - rewrite zlen_cons. do 3 f_equal. lia.
  - destruct Hz as [|[|[-> Hh]]]; [done|right; left; lia|]. destruct (decide (c = 48)) as [->|].
    + specialize (Hh eq_refl). simpl in Hh. left. by destruct ds.
    + right. left. lia.
Qed.

Lemma digit_loop_split rest v k v' k' next :
  digit_loop rest v k = Ok (v', k', next) → 0 <= v <= u32_max →
  ∃ ds, rest = ds ++ next ∧ Forall (λ c, 48 <= c <= 57) ds ∧
    v' = foldl (λ v c, v * 10 + (c - 48)) v ds ∧ k' = k + zlen ds ∧ 0 <= v' <= u32_max ∧
    (k = 1 → v = 0 → ds = []) ∧ (k = 0 → v = 0 → head ds = Some 48 → length ds = 1%nat).
Proof.
  revert v k. induction rest as [|b rest IH]; intros v k; cbn [digit_loop].
  { intros [= -> -> <-] Hv. exists []. unfold zlen. simpl. split_and!; try done; lia. }
  destruct (negb _) eqn:Eb.
  { intros [= -> -> <-] Hv. exists []. unfold zlen. simpl. split_and!; try done; lia. }
  destruct (_ && _) eqn:Ez; [done|]. rewrite !Z.gtb_ltb.
  destruct (Z.ltb_spec u32_max (v * 10)); [done|].
  destruct (Z.ltb_spec u32_max (v * 10 + (b - 48))); [done|]. intros Hl Hv.
  unfold is_ascii_digit, within in Eb.
  apply IH in Hl as (ds & -> & Hd & -> & -> & Hb & Hone & Hzero); [|lia].
  exists (b :: ds). rewrite zlen_cons. simpl.
  split_and!; try done; try lia; [by constructor; [lia|]|].
  intros -> -> [= ->]. by rewrite Hone by lia.
Qed.

(** *** Decimal numbers *)
Lemma decimal_digits_step fuel n :
  decimal_digits (S fuel) n =
  if n <? 10 then [48 + n] else decimal_digits fuel (n / 10) ++ [48 + n mod 10].
Proof. done. Qed.

Lemma decimal_digits_spec fuel n :
  0 <= n < 10 ^ Z.of_nat (S fuel) →
  canonical_digits (decimal_digits (S fuel) n) ∧ digits_value (decimal_digits (S fuel) n) = n ∧
  (0 < n → head (decimal_digits (S fuel) n) ≠ Some 48).
Proof.
  revert n. induction fuel as [|fuel IH]; intros n Hn.
  { change (10 ^ Z.of_nat 1) with 10 in Hn. cbn [decimal_digits]. destruct (Z.ltb_spec n 10); [|lia].
    unfold canonical_digits, digits_value. simpl. split_and!; try done; try lia.
    - by repeat constructor; lia.
    - intros ? [= ?]. lia. }
  rewrite Nat2Z.inj_succ, Z.pow_succ_r in Hn by lia.
  rewrite (decimal_digits_step (S fuel)). destruct (Z.ltb_spec n 10) as [Hs|Hs].
  { unfold canonical_digits, digits_value. simpl. split_and!; try done; try lia.
    - by repeat constructor; lia.
    - intros ? [= ?]. lia. }
  destruct (IH (n / 10)) as ((Hd & Hne & Hc) & Hv & Hh);
    [split; [apply Z.div_pos; lia|apply Z.div_lt_upper_bound; lia]|].
  pose proof (Z.div_mod n 10 ltac:(lia)). pose proof (Z.mod_pos_bound n 10 ltac:(lia)).
  assert (0 < n / 10) as Hpos by (apply Z.div_str_pos; lia). specialize (Hh Hpos).
  set (ds := decimal_digits (S fuel) (n / 10)) in *.
  assert (head (ds ++ [48 + n mod 10]) = head ds) as Eh by (by destruct ds).
  rewrite digits_value_snoc. split_and!.
  - unfold canonical_digits. rewrite Eh. split_and!; [|by destruct ds|done].
    apply Forall_app. split; [done|]. repeat constructor; lia.
  - lia.
  - by rewrite Eh.
Qed.

Lemma u32_to_string_spec n :
  0 <= n <= u32_max → canonical_digits (u32_to_string n) ∧ digits_value (u32_to_string n) = n.
Proof.
  intros Hn. destruct (decimal_digits_spec 9 n) as (? & ? & _); [|done]. unfold u32_max in Hn.
  change (10 ^ Z.of_nat 10) with 10000000000. lia.
Qed.

Lemma canonical_value_ge ds :
  canonical_digits ds → (2 <= length ds)%nat → 10 ^ (zlen ds - 1) <= digits_value ds.
Proof.
  intros (Hd & Hne & Hc) Hl. destruct ds as [|c ds]; [done|]. apply Forall_cons in Hd as [Hb Hd].
  assert (c ≠ 48) as H48 by (intros ->; simpl in *; specialize (Hc eq_refl); lia).
  unfold digits_value. cbn [foldl]. rewrite zlen_cons.
  pose proof (foldl_digits_ge ds (0 * 10 + (c - 48)) ltac:(lia) Hd) as Hg.
  replace (1 + zlen ds - 1) with (zlen ds) by lia.
  pose proof (Z.pow_pos_nonneg 10 (zlen ds) ltac:(lia) (zlen_nonneg ds)). nia.
Qed.

Lemma decimal_digits_unique ds fuel :
  canonical_digits ds → (length ds <= fuel)%nat → decimal_digits fuel (digits_value ds) = ds.
Proof.
  revert fuel. induction ds as [|c ds IH] using rev_ind; intros fuel (Hd & Hne & Hc) Hl; [done|].
  rewrite length_app in *. simpl in Hl, Hc. destruct fuel as [|fuel]; [lia|]. cbn [decimal_digits].
  apply Forall_app in Hd as [Hd Hb]. rewrite Forall_singleton in Hb. rewrite digits_value_snoc.
  destruct ds as [|b ds'] eqn:Eds.
  { change (digits_value []) with 0. destruct (Z.ltb_spec (0 * 10 + (c - 48)) 10); [|lia].
    simpl. f_equal. lia. }
  rewrite <- Eds in *. assert (canonical_digits ds) as Hcan.
  { split_and!; [done|by subst|]. intros Hh. subst ds. simpl in Hh. injection Hh as ->.
    specialize (Hc eq_refl). simpl in *. lia. }
  assert (1 <= digits_value ds) as Hv.
  { destruct (decide (2 <= length ds)%nat) as [H2|H2].
    - pose proof (canonical_value_ge ds Hcan H2).
      pose proof (Z.pow_pos_nonneg 10 (zlen ds - 1) ltac:(lia) ltac:(unfold zlen; lia)). lia.
    - subst ds. destruct ds'; [|simpl in H2; lia]. simpl in Hc. rewrite Forall_singleton in Hd.
      unfold digits_value. simpl. destruct (decide (b = 48)) as [->|]; [specialize (Hc eq_refl); lia|lia]. }
  destruct (Z.ltb_spec (digits_value ds * 10 + (c - 48)) 10); [lia|].
  rewrite Z.div_add_l, (Z.div_small (c - 48)), Z.add_0_r by lia. rewrite IH by (done || lia).
  assert ((digits_value ds * 10 + (c - 48)) mod 10 = c - 48) as ->
    by (rewrite Z.add_comm, Z.mod_add by lia; apply Z.mod_small; lia).
  do 2 f_equal. lia.
Qed.

Lemma canonical_u32 ds :
  canonical_digits ds → digits_value ds <= u32_max → ds = u32_to_string (digits_value ds).
Proof.
  intros Hc Hm. symmetry. apply decimal_digits_unique; [done|].
  destruct (decide (length ds <= 10)%nat) as [|Hl]; [done|]. exfalso.
  pose proof (canonical_value_ge ds Hc ltac:(lia)) as Hg. unfold u32_max in Hm.
  assert (10 ^ 10 <= 10 ^ (zlen ds - 1)) by (apply Z.pow_le_mono_r; unfold zlen; lia). lia.
Qed.

Lemma parse_u32_reads n rest :
  0 <= n <= u32_max → starts_with_digit rest = false →
  parse_json_u32 (u32_to_string n ++ rest) = Ok (n, rest).
Proof.
  intros Hn Hr. destruct (u32_to_string_spec n Hn) as [(Hd & Hne & Hc) Hv]. unfold parse_json_u32.
  rewrite digit_loop_reads; try done; [|unfold digits_value in Hv; lia|by right; right].
  unfold digits_value in Hv. rewrite Hv. rewrite Z.add_0_l.
  destruct (Z.eqb_spec (zlen (u32_to_string n)) 0) as [E|]; [|done].
  unfold zlen in E. by destruct (u32_to_string n).
Qed.

Lemma parse_u32_split rest n next :
  parse_json_u32 rest = Ok (n, next) → rest = u32_to_string n ++ next ∧ 0 <= n <= u32_max.
Proof.
  unfold parse_json_u32. destruct (digit_loop rest 0 0) as [[[v k] nx]|] eqn:E; [|done].
  apply digit_loop_split in E as (ds & -> & Hd & -> & -> & Hb & _ & H0); [|unfold u32_max; lia].
  destruct (Z.eqb_spec (0 + zlen ds) 0) as [|Hk]; [done|]. intros [= <- <-]. split; [|done]. f_equal.
  apply canonical_u32; [|apply Hb]. split_and!; [done|by intros ->|by apply H0].
Qed.

(** ** The language of receipts

    A document is the object of the eight members in any order, with blanks
    between the tokens and nothing else. *)
Definition all_keys : list receipt_key :=
  [KReceiptId; KSanitizerRevision; KSourcePayload; KSanitizedPayload; KExtensions; KDisposition;
   KFindingCount; KFindings].

Definition key_name (k : receipt_key) : rstr :=
  match k with
  | KReceiptId => str "receipt_id"
  | KSanitizerRevision => str "sanitizer_revision"
  | KSourcePayload => str "source_payload_sha256"
  | KSanitizedPayload => str "sanitized_payload_sha256"
  | KExtensions => str "extensions_digest"
  | KDisposition => str "disposition"
  | KFindingCount => str "finding_count"
  | KFindings => str "findings_digest"
  end.

(** The text of a field of the receipt. *)
Definition value_text (r : PayloadSanitizationReceipt) (k : receipt_key) : bytes :=
  match k with
  | KReceiptId => quoted (utf8_encode (hr_receipt_id r))
  | KSanitizerRevision => quoted (utf8_encode (hr_sanitizer_revision r))
  | KSourcePayload => quoted (utf8_encode (hr_source_payload_sha256 r))
  | KSanitizedPayload => quoted (utf8_encode (hr_sanitized_payload_sha256 r))
  | KExtensions => quoted (utf8_encode (hr_extensions_digest r))
  | KDisposition => quoted (disposition_as_str (hr_disposition r))
  | KFindingCount => u32_to_string (hr_finding_count r)
  | KFindings => quoted (utf8_encode (hr_findings_digest r))
  end.

Inductive members_text (value : receipt_key → bytes) : list receipt_key → bytes → Prop :=
  | one_member k w1 w2 w3 :
      blank w1 = true → blank w2 = true → blank w3 = true →
      members_text value [k] (quoted (key_name k) ++ w1 ++ [58] ++ w2 ++ value k ++ w3)
  | more_members k ks w1 w2 w3 w4 text :
      blank w1 = true → blank w2 = true → blank w3 = true → blank w4 = true →
      members_text value ks text →
      members_text value (k :: ks)
        (quoted (key_name k) ++ w1 ++ [58] ++ w2 ++ value k ++ w3 ++ [44] ++ w4 ++ text).

Definition receipt_document (r : PayloadSanitizationReceipt) (source : rstr) : Prop :=
  ∃ ks w0 w1 w2 text, blank w0 = true ∧ blank w1 = true ∧ blank w2 = true ∧ ks ≡ₚ all_keys ∧
    members_text (value_text r) ks text ∧
    utf8_encode source = w0 ++ [123] ++ w1 ++ text ++ [125] ++ w2.

(** *** The parser accepts the documents *)
Definition pick {A} (k : receipt_key) (seen : list receipt_key) (x : A) : option A :=
  if decide (k ∈ seen) then Some x else None.

(** The variables once the members [seen] of the receipt have been read. *)
Definition fields_of (r : PayloadSanitizationReceipt) (seen : list receipt_key) : ReceiptFields :=
  {| v_receipt_id := pick KReceiptId seen (hr_receipt_id r);
     v_sanitizer_revision := pick KSanitizerRevision seen (hr_sanitizer_revision r);
     v_source_payload_sha256 := pick KSourcePayload seen (hr_source_payload_sha256 r);
     v_sanitized_payload_sha256 := pick KSanitizedPayload seen (hr_sanitized_payload_sha256 r);
     v_extensions_digest := pick KExtensions seen (hr_extensions_digest r);
     v_disposition := pick KDisposition seen (hr_disposition r);
     v_finding_count := pick KFindingCount seen (hr_finding_count r);
     v_findings_digest := pick KFindings seen (hr_findings_digest r) |}.

Lemma pick_here {A} k seen (x : A) : pick k (k :: seen) x = Some x.
Proof. unfold pick. rewrite decide_True; [done|left]. Qed.

Lemma pick_other {A} k k' seen (x : A) : k' ≠ k → pick k' (k :: seen) x = pick k' seen x.
Proof.
  intros Hne. unfold pick. destruct (decide (k' ∈ seen)) as [Hin|Hin].
  - by rewrite decide_True by by right.
  - rewrite decide_False; [done|]. by intros [?|?]%elem_of_cons.
Qed.

Lemma pick_absent {A} k seen (x : A) : k ∉ seen → pick k seen x = None.
Proof. intros. unfold pick. by rewrite decide_False. Qed.

(** A receipt whose fields print without escapes. *)
Record printable (r : PayloadSanitizationReceipt) : Prop := {
  pr_id : quotable (hr_receipt_id r) = true;
  pr_revision : quotable (hr_sanitizer_revision r) = true;
  pr_source : quotable (hr_source_payload_sha256 r) = true;
  pr_sanitized : quotable (hr_sanitized_payload_sha256 r) = true;
  pr_extensions : quotable (hr_extensions_digest r) = true;
  pr_findings : quotable (hr_findings_digest r) = true;
  pr_count : 0 <= hr_finding_count r <= u32_max;
}.

Lemma valid_printable `{Sha256} r :
  sanitization_receipt_validate r = Ok tt → 0 <= hr_finding_count r <= u32_max → printable r.
Proof.
  unfold sanitization_receipt_validate, api_require_sha256. intros Hv Hc.
  destruct (require_sanitizer_revision _) as [[]|] eqn:H1; [|done].
  destruct (is_lowercase_sha256 (hr_source_payload_sha256 r)) eqn:H2; [|done].
  destruct (is_lowercase_sha256 (hr_sanitized_payload_sha256 r)) eqn:H3; [|done].
  destruct (is_lowercase_sha256 (hr_extensions_digest r)) eqn:H4; [|done].
  destruct (is_lowercase_sha256 (hr_findings_digest r)) eqn:H5; [|done].
  destruct (require_disposition_matches_digests _ _ _); [|done].
  case_bool_decide as Hid; [|done].
  split; auto using lowercase_sha256_quotable, revision_quotable. rewrite <- Hid. apply derived_id_quotable.
Qed.

Lemma encode_quotable s : quotable s = true → utf8_encode s = s.
Proof. intros. by apply ascii_encode, quotable_ascii. Qed.

(** Reading the value of a member that has not been seen yet. *)
Lemma parse_value_reads r seen k rest :
  printable r → k ∉ seen → starts_with_digit rest = false →
  parse_value (fields_of r seen) k (value_text r k ++ rest) =
  Ok (fields_of r (k :: seen), skip_whitespace rest).
Proof.
  intros [P1 P2 P3 P4 P5 P6 Pc] Hk Hr.
  destruct k; cbn [parse_value value_text];
    rewrite ?encode_quotable, ?parse_quoted by (done || (by destruct (hr_disposition r)));
    try (rewrite parse_u32_reads by done);
    unfold fields_of; cbn [fst snd replace_string replace_count];
    try (replace (disposition_from_wire (disposition_as_str (hr_disposition r)))
           with (Some (hr_disposition r)) by (by destruct (hr_disposition r)));
    cbn [replace_disposition];
    unfold unless_duplicate; cbn [fst snd]; rewrite (pick_absent _ seen) by done;
    rewrite ?pick_here, !pick_other by done; reflexivity.
Qed.

Lemma key_name_matches k : match_str (key_name k) RECEIPT_JSON_KEYS = Some k.
Proof. by destruct k; vm_compute. Qed.

Lemma key_name_quotable k : quotable (key_name k) = true.
Proof. by destruct k; vm_compute. Qed.

Lemma match_key_name s k : match_str s RECEIPT_JSON_KEYS = Some k → s = key_name k.
Proof.
  intros Hin%match_str_elem. unfold RECEIPT_JSON_KEYS in Hin.
  repeat (apply elem_of_cons in Hin as [[= -> ->]|Hin]; [reflexivity|]). by apply elem_of_nil in Hin.
Qed.

(** The first byte of a value is no blank. *)
Lemma value_solid r k rest :
  printable r → skip_whitespace (value_text r k ++ rest) = value_text r k ++ rest.
Proof.
  intros Hp. destruct k; try done. cbn [value_text].
  destruct (u32_to_string_spec _ (pr_count _ Hp)) as [(Hd & Hne & _) _].
  destruct (u32_to_string _) as [|c ds]; [done|]. apply Forall_cons in Hd as [Hc _].
  apply skip_solid. unfold is_json_whitespace. lia.
Qed.

Lemma blank_then_solid w b rest :
  blank w = true → is_json_whitespace b = false → skip_whitespace (w ++ b :: rest) = b :: rest.
Proof. intros. by rewrite skip_blank, skip_solid. Qed.

Lemma blank_no_digit w b rest :
  blank w = true → is_ascii_digit b = false → starts_with_digit (w ++ b :: rest) = false.
Proof.
  destruct w as [|c w]; [done|]. intros [Hc _]%andb_true_iff _. simpl.
  unfold is_json_whitespace in Hc. unfold is_ascii_digit, within. lia.
Qed.

Lemma parse_member_reads r seen k w1 w2 w3 b rest :
  printable r → k ∉ seen → blank w1 = true → blank w2 = true → blank w3 = true →
  is_ascii_digit b = false → is_json_whitespace b = false →
  parse_member (fields_of r seen)
    (quoted (key_name k) ++ w1 ++ [58] ++ w2 ++ value_text r k ++ w3 ++ [b] ++ rest) =
  Ok (fields_of r (k :: seen), b :: rest).
Proof.
  intros Hp Hk H1 H2 H3 Hb Hw. unfold parse_member. rewrite parse_quoted by apply key_name_quotable.
  cbn [fst snd]. rewrite key_name_matches. cbn [app]. rewrite blank_then_solid by done.
  cbn [Z.eqb negb Pos.eqb]. rewrite skip_blank, value_solid by done.
  rewrite parse_value_reads by (try done; by apply blank_no_digit).
  by rewrite blank_then_solid.
Qed.

Lemma parse_members_reads r ks text seen w fuel :
  printable r → members_text (value_text r) ks text → NoDup (ks ++ seen) → blank w = true →
  (length ks <= fuel)%nat →
  ∃ seen', seen' ≡ₚ ks ++ seen ∧
    parse_members fuel (fields_of r seen) (text ++ [125] ++ w) = Ok (fields_of r seen', []).
Proof.
  intros Hp Ht. revert seen fuel.
  induction Ht as [k w1 w2 w3 H1 H2 H3|k ks w1 w2 w3 w4 text H1 H2 H3 H4 Ht IH];
    intros seen fuel Hnd Hw Hf; simpl in Hf; (destruct fuel as [|fuel]; [lia|]); cbn [parse_members];
    rewrite <- !app_assoc; simpl in Hnd; apply NoDup_cons in Hnd as [Hk Hnd].
  - exists (k :: seen). split; [done|]. rewrite parse_member_reads by done.
    cbn [fst snd Z.eqb Pos.eqb]. by rewrite <- (app_nil_r w), skip_blank by done.
  - destruct (IH (k :: seen) fuel) as (seen' & Hperm & Hs); [|done|lia|].
    { rewrite <- Permutation_middle. by constructor. }
    exists seen'. split; [rewrite Hperm; by rewrite <- Permutation_middle|].
    rewrite parse_member_reads by (try done; set_solver).
    cbn [fst snd Z.eqb Pos.eqb]. rewrite skip_blank by done.
    assert (skip_whitespace (text ++ [125] ++ w) = text ++ [125] ++ w) as ->; [by inversion Ht|]. done.
Qed.

Lemma members_length value ks text :
  members_text value ks text → (length ks <= length text)%nat ∧ head text = Some 34.
Proof.
  induction 1 as [k w1 w2 w3 H1 H2 H3|k ks w1 w2 w3 w4 text H1 H2 H3 H4 Ht [IH _]];
    (split; [|done]); rewrite ?length_app; unfold quoted; rewrite ?length_cons, ?length_app; simpl length; lia.
Qed.

Lemma all_fields_of r seen : seen ≡ₚ all_keys → receipt_of_fields (fields_of r seen) = Ok r.
Proof.
  intros Hp. unfold receipt_of_fields, fields_of, pick. simpl.
  assert (∀ k, k ∈ seen) as Hall by (intros k; rewrite Hp; destruct k; set_solver).
  rewrite !decide_True by done. simpl. by destruct r.
Qed.

Lemma document_parses r source :
  printable r → receipt_document r source → parse_receipt_json source = Ok r.
Proof.
  intros Hp (ks & w0 & w1 & w2 & text & H0 & H1 & H2 & Hks & Ht & E). unfold parse_receipt_json.
  rewrite E. cbn [app]. rewrite blank_then_solid by done. cbn [negb Z.eqb Pos.eqb].
  destruct (members_length _ _ _ Ht) as [Hl Hh].
  change (125 :: w2) with ([125] ++ w2). assert (skip_whitespace (w1 ++ text ++ [125] ++ w2) = text ++ [125] ++ w2) as ->.
  { rewrite skip_blank by done. by destruct text as [|? ?]; [|injection Hh as ->]. }
  rewrite bool_decide_eq_false_2 by (destruct text; [done|by injection Hh as ->]).
  destruct (parse_members_reads r ks text [] w2 (S (length (text ++ [125] ++ w2)))) as (seen & Hs & Hm);
    [done|done|rewrite app_nil_r, Hks; by apply (bool_decide_unpack _)|done|rewrite length_app; lia|].
  replace (fields_of r []) with no_fields in Hm by done. rewrite Hm. simpl.
  apply all_fields_of. by rewrite Hs, app_nil_r.
Qed.

(** The printed receipt is a document: the members in order, without blanks. *)
Lemma printed_document r : printable r → receipt_document r (to_json r).
Proof.
  intros Hp. exists all_keys, [], [], [].
  assert (∀ k ks text, members_text (value_text r) ks text → members_text (value_text r) (k :: ks)
    (quoted (key_name k) ++ [58] ++ value_text r k ++ [44] ++ text)) as Hmore
    by (intros; by apply (more_members _ _ _ [] [] [] [])).
  eexists. split_and!; try done.
  - do 7 apply Hmore. exact (one_member _ _ [] [] [] eq_refl eq_refl eq_refl).
  - destruct Hp as [P1 P2 P3 P4 P5 P6 Pc]. cbn [value_text].
    rewrite !(encode_quotable (hr_receipt_id r)), !(encode_quotable (hr_sanitizer_revision r)),
      !(encode_quotable (hr_source_payload_sha256 r)), !(encode_quotable (hr_sanitized_payload_sha256 r)),
      !(encode_quotable (hr_extensions_digest r)), !(encode_quotable (hr_findings_digest r)) by done.
    rewrite ascii_encode.
    + unfold to_json, push_json_string_field, quoted, key_name.
      repeat (progress (cbn [app]; rewrite <- ?app_assoc)). reflexivity.
    + unfold ascii, to_json, push_json_string_field. rewrite !forallb_app, !andb_true_iff.
      split_and!; try (vm_compute; reflexivity); try (by apply quotable_ascii);
        [by destruct (hr_disposition r); vm_compute|].
      destruct (u32_to_string_spec _ Pc) as [(Hd & _) _]. apply forallb_Forall.
      eapply Forall_impl; [exact Hd|]. unfold within. intros c Hc. simpl in Hc. lia.
Qed.

(** *** The parser accepts nothing else *)
Definition field_text (fields : ReceiptFields) (k : receipt_key) : option bytes :=
  match k with
  | KReceiptId => quoted ∘ utf8_encode <$> v_receipt_id fields
  | KSanitizerRevision => quoted ∘ utf8_encode <$> v_sanitizer_revision fields
  | KSourcePayload => quoted ∘ utf8_encode <$> v_source_payload_sha256 fields
  | KSanitizedPayload => quoted ∘ utf8_encode <$> v_sanitized_payload_sha256 fields
  | KExtensions => quoted ∘ utf8_encode <$> v_extensions_digest fields
  | KDisposition => quoted ∘ disposition_as_str <$> v_disposition fields
  | KFindingCount => u32_to_string <$> v_finding_count fields
  | KFindings => quoted ∘ utf8_encode <$> v_findings_digest fields
  end.

Definition count_fits (fields : ReceiptFields) : Prop :=
  ∀ n, v_finding_count fields = Some n → 0 <= n <= u32_max.

(** The member [k] with the text [txt] was added, and nothing else changed. *)
Record field_added (fields fields' : ReceiptFields) (k : receipt_key) (txt : bytes) : Prop := {
  fa_fresh : field_text fields k = None;
  fa_added : field_text fields' k = Some txt;
  fa_others : ∀ k', k' ≠ k → field_text fields' k' = field_text fields k';
  fa_count : count_fits fields → count_fits fields';
}.

Lemma disposition_text s d : disposition_from_wire s = Some d → s = disposition_as_str d.
Proof.
  intros Hin%match_str_elem. repeat (apply elem_of_cons in Hin as [[= -> ->]|Hin]; [done|]).
  by apply elem_of_nil in Hin.
Qed.

Lemma parse_value_splits fields k rest fields' rest' :
  parse_value fields k rest = Ok (fields', rest') →
  ∃ txt w, blank w = true ∧ rest = txt ++ w ++ rest' ∧ field_added fields fields' k txt.
Proof.
  intros Hp.
  assert (∀ replaced next, unless_duplicate replaced next = Ok (fields', rest') →
    snd replaced = false ∧ fst replaced = fields' ∧ ∃ w, blank w = true ∧ next = w ++ rest') as Hu.
  { intros replaced next. unfold unless_duplicate. destruct (snd replaced); [done|]. intros [= <- <-].
    split; [done|]. split; [done|]. apply skip_whitespace_split. }
  destruct k; cbn [parse_value] in Hp;
    lazymatch type of Hp with
    | context [parse_json_u32 rest] => destruct (parse_json_u32 rest) as [[n next]|] eqn:E
    | _ => destruct (parse_json_string rest) as [[s next]|] eqn:E
    end; try done; cbn [fst snd] in Hp;
    try (destruct (disposition_from_wire s) as [d|] eqn:Ed; [|done]);
    apply Hu in Hp as (Hf & <- & w & Hw & ->);
    try (apply parse_json_string_split in E as ->); try (apply parse_u32_split in E as [-> Hn]);
    destruct fields as [i r p q x d0 c f]; simpl in Hf;
    (eexists; exists w; split; [exact Hw|]; split; [reflexivity|]; split;
      [simpl; by case_match|simpl; try done|by intros [] ?|unfold count_fits; simpl; try done]).
  - apply disposition_text in Ed as ->. by destruct d.
  - by intros _ ? [= <-].
Qed.

Lemma parse_member_splits fields rest fields' rest' :
  parse_member fields rest = Ok (fields', rest') →
  ∃ k txt w1 w2 w3, blank w1 = true ∧ blank w2 = true ∧ blank w3 = true ∧
    rest = quoted (key_name k) ++ w1 ++ [58] ++ w2 ++ txt ++ w3 ++ rest' ∧
    field_added fields fields' k txt.
Proof.
  unfold parse_member. intros Hp.
  destruct (parse_json_string rest) as [[s next]|] eqn:E; [|done]. cbn [fst snd] in Hp.
  apply parse_json_string_split in E as ->.
  destruct (match_str s RECEIPT_JSON_KEYS) as [k|] eqn:Ek; [|done]. apply match_key_name in Ek as ->.
  destruct (skip_whitespace_split next) as (w1 & H1 & E1).
  destruct (skip_whitespace next) as [|b tail]; [done|]. destruct (Z.eqb_spec b 58) as [->|]; [|done].
  simpl in Hp. destruct (skip_whitespace_split tail) as (w2 & H2 & E2).
  apply parse_value_splits in Hp as (txt & w3 & H3 & E3 & Ha).
  exists k, txt, w1, w2, w3. split_and!; try done. rewrite E1, E2, E3.
  by rewrite (encode_quotable (key_name k)) by apply key_name_quotable.
Qed.

(** What the loop has read: distinct new members, whose texts the variables hold. *)
Record members_read (fields fields' : ReceiptFields) (ks : list receipt_key) : Prop := {
  mr_fresh : ∀ k, k ∈ ks → field_text fields k = None;
  mr_distinct : NoDup ks;
  mr_present : ∀ k, is_Some (field_text fields' k) ↔ is_Some (field_text fields k) ∨ k ∈ ks;
  mr_kept : ∀ k, is_Some (field_text fields k) → field_text fields' k = field_text fields k;
  mr_count : count_fits fields → count_fits fields';
}.

Lemma field_added_read fields fields' k txt :
  field_added fields fields' k txt → members_read fields fields' [k].
Proof.
  intros [Hf Ha Ho Hc]. split; try done.
  - by intros k' ->%list_elem_of_singleton.
  - apply NoDup_singleton.
  - intros k'. rewrite list_elem_of_singleton. destruct (decide (k' = k)) as [->|Hne].
    + rewrite Ha. naive_solver.
    + rewrite Ho by done. naive_solver.
  - intros k' Hk'. destruct (decide (k' = k)) as [->|Hne]; [|auto].
    rewrite Hf in Hk'. by destruct (is_Some_None Hk').
Qed.

Lemma members_read_cons fields fields1 fields' k ks :
  members_read fields fields1 [k] → members_read fields1 fields' ks → members_read fields fields' (k :: ks).
Proof.
  intros [F1 D1 P1 K1 C1] [F2 D2 P2 K2 C2].
  assert (is_Some (field_text fields1 k)) as Hk by (apply P1; right; left).
  split; [| | | |auto].
  - intros k' [->|Hk']%elem_of_cons; [apply F1; left|].
    destruct (field_text fields k') as [t|] eqn:E; [|done].
    assert (field_text fields1 k' = Some t) by (rewrite K1; [done|by rewrite E]).
    rewrite F2 in *; done.
  - apply NoDup_cons. split; [|done]. intros Hin. rewrite F2 in Hk by done. by destruct (is_Some_None Hk).
  - intros k'. rewrite P2, P1, !elem_of_cons, elem_of_nil. tauto.
  - intros k' Hk'. rewrite K2; [by apply K1|]. rewrite K1; done.
Qed.

Lemma members_text_ext value value' ks text :
  (∀ k, k ∈ ks → value k = value' k) → members_text value ks text → members_text value' ks text.
Proof.
  intros Hv Ht. induction Ht as [k w1 w2 w3 H1 H2 H3|k ks w1 w2 w3 w4 text H1 H2 H3 H4 Ht IH].
  - rewrite Hv by left. by constructor.
  - rewrite Hv by left. constructor; try done. apply IH. intros. apply Hv. by right.
Qed.

Definition held (fields : ReceiptFields) (k : receipt_key) : bytes := default [] (field_text fields k).

Lemma parse_members_splits fuel fields rest fields' rest' :
  parse_members fuel fields rest = Ok (fields', rest') →
  ∃ ks text w, blank w = true ∧ rest = text ++ [125] ++ w ++ rest' ∧
    members_text (held fields') ks text ∧ members_read fields fields' ks.
Proof.
  revert fields rest. induction fuel as [|fuel IH]; intros fields rest; cbn [parse_members]; [done|].
  destruct (parse_member fields rest) as [[fields1 rest1]|] eqn:E; [|done]. cbn [fst snd].
  apply parse_member_splits in E as (k & txt & w1 & w2 & w3 & H1 & H2 & H3 & -> & Ha).
  pose proof (field_added_read _ _ _ _ Ha) as Hr. destruct rest1 as [|b tail]; [done|].
  destruct (Z.eqb_spec b 44) as [->|_]; [|destruct (Z.eqb_spec b 125) as [->|]; [|done]].
  - intros (ks & text & w & Hw & E & Ht & Hm)%IH.
    destruct (skip_whitespace_split tail) as (w4 & H4 & E4). rewrite E in E4.
    pose proof (members_read_cons _ _ _ _ _ Hr Hm) as Hc.
    assert (txt = held fields' k) as ->.
    { unfold held. rewrite (mr_kept _ _ _ Hm k), (fa_added _ _ _ _ Ha); [done|]. by rewrite (fa_added _ _ _ _ Ha). }
    exists (k :: ks). eexists. exists w. split; [done|]. split; [|split; [exact (more_members _ k ks w1 w2 w3 w4 text H1 H2 H3 H4 Ht)|done]].
    rewrite E4. repeat (progress (cbn [app]; rewrite <- ?app_assoc)). reflexivity.
  - intros [= <- <-]. destruct (skip_whitespace_split tail) as (w & Hw & E).
    assert (txt = held fields1 k) as -> by (unfold held; by rewrite (fa_added _ _ _ _ Ha)).
    exists [k]. eexists. exists w. split; [done|]. split; [|split; [exact (one_member _ k w1 w2 w3 H1 H2 H3)|done]].
    rewrite E at 1. repeat (progress (cbn [app]; rewrite <- ?app_assoc)). reflexivity.
Qed.

Lemma receipt_of_fields_texts fields r :
  receipt_of_fields fields = Ok r →
  v_finding_count fields = Some (hr_finding_count r) ∧ ∀ k, field_text fields k = Some (value_text r k).
Proof.
  unfold receipt_of_fields, ok_or. destruct fields as [[i|] [s|] [p|] [q|] [x|] [d|] [n|] [f|]]; try done.
  intros [= <-]. split; [done|]. by intros [].
Qed.

Lemma parsed_document source r :
  parse_receipt_json source = Ok r →
  receipt_document r source ∧ 0 <= hr_finding_count r <= u32_max.
Proof.
  unfold parse_receipt_json. intros Hp. destruct (skip_whitespace_split (utf8_encode source)) as (w0 & H0 & E0).
  destruct (skip_whitespace (utf8_encode source)) as [|b tail]; [done|].
  destruct (Z.eqb_spec b 123) as [->|]; [|done]. cbn [negb] in Hp.
  destruct (skip_whitespace_split tail) as (w1 & H1 & E1). case_bool_decide; [done|].
  destruct (parse_members _ _ _) as [[fields rest]|] eqn:Em; [|done].
  destruct rest; [|done]. cbn [fst snd is_empty negb] in Hp. apply receipt_of_fields_texts in Hp as [Hn Hall].
  apply parse_members_splits in Em as (ks & text & w2 & H2 & E2 & Ht & [_ Hnd Hpres _ Hc]).
  split; [|by apply Hc in Hn].
  exists ks, w0, w1, w2, text. split_and!; try done.
  - apply NoDup_Permutation; [done|by apply (bool_decide_unpack _)|]. intros k. split.
    + intros _. destruct k; set_solver.
    + intros _. destruct (proj1 (Hpres k)) as [Hx|]; [by rewrite Hall| |done].
      exfalso. by destruct k; destruct (is_Some_None Hx).
  - eapply members_text_ext; [|exact Ht]. intros k _. unfold held. by rewrite Hall.
  - rewrite E0, E1, E2, app_nil_r. done.
Qed.

(** ** Properties *)

(** C18. The strict parser accepts exactly the documents of valid receipts: a
    text parses to a receipt if and only if the receipt passes its own
    validation, its finding count is a [u32] without superfluous zeros, and the
    text is the object of its eight members, each once, in some order, with
    blanks between the tokens, no escapes and nothing after it.  Hence every
    printed receipt parses back, and what parses prints to a text of the same
    receipt. *)
Theorem receipt_language_exact `{Sha256} source r :
  (from_json source = Ok r ↔
   sanitization_receipt_validate r = Ok tt ∧ 0 <= hr_finding_count r <= u32_max ∧
   receipt_document r source) ∧
  (from_json source = Ok r → from_json (to_json r) = Ok r).
Proof.
  assert (∀ source, from_json source = Ok r ↔
   sanitization_receipt_validate r = Ok tt ∧ 0 <= hr_finding_count r <= u32_max ∧
   receipt_document r source) as Hexact.
  { clear source. intros source. unfold from_json. split.
    - destruct (parse_receipt_json source) as [r'|] eqn:E; [|done].
      destruct (sanitization_receipt_validate r') as [[]|] eqn:V; [|done]. intros [= <-].
      apply parsed_document in E as [? ?]. done.
    - intros (V & Hn & Hd). rewrite (document_parses r source (valid_printable r V Hn) Hd). simpl. by rewrite V. }
  split; [done|]. intros (V & Hn & _)%Hexact. apply Hexact. split; [done|]. split; [done|].
  by apply printed_document, valid_printable.
Qed.

Section samples.
#[local] Existing Instance mixing_sha256.

Definition sample_parts : PayloadSanitizationReceiptParts := {|
  hp_sanitizer_revision := str "rules.v3"; hp_source_payload_sha256 := repeat 97 64;
  hp_sanitized_payload_sha256 := repeat 98 64; hp_extensions_digest := repeat 99 64;
  hp_disposition := Redacted; hp_finding_count := 120; hp_findings_digest := repeat 100 64;
|}.

(** The minted receipt, in a text with blanks around it. *)
Definition minted : option PayloadSanitizationReceipt :=
  match sanitization_receipt_new sample_parts with Ok r => Some r | Err _ => None end.

Definition blank_text (r : PayloadSanitizationReceipt) : rstr := [32] ++ to_json r ++ [10].

Lemma minted_reads : from_option (λ r, from_json (blank_text r) = Ok r) False minted.
Proof. vm_compute. reflexivity. Qed.

Lemma receipt_language_exact_witness :
  from_option (λ r, from_json (to_json r) = Ok r) False minted.
Proof.
  pose proof minted_reads as Hb. revert Hb. generalize minted. intros [r|] Hb; [|exact Hb].
  exact (proj2 (receipt_language_exact (blank_text r) r) Hb).
Defined.
End samples.
