(* ===== verification/SpoolRevision.v ===== *)
(** * The text of a records-file revision

    The hand-written serializers of [tracedecay-hooks/src/spool/checkpoint.rs]
    ([revision_identity], [revision_length], [revision_time]): how the
    revision that the checkpoint and the transition file store is spelled in
    their JSON, and what is accepted when it is read back.  Slicing a string
    inside a character panics, which is an outcome of its own. *)
From stdpp Require Import base list numbers strings.
From S2P Require Import Prelude RustText Bytes HygieneReceipt.

#[local] Open Scope Z_scope.

(** What a [deserialize] function does with the string it is given. *)
Inductive deserialized (A : Type) : Type :=
  | Parsed (a : A)
  | Rejected
  | Panicked.
Arguments Parsed {A} _.
Arguments Rejected {A}.
Arguments Panicked {A}.

(** ** [uN::from_str_radix(_, 16)] at the type with largest value [max] *)
Definition hex_value (c : Z) : option Z :=
  if within 48 57 c then Some (c - 48)
  else if within 97 102 c then Some (c - 87)
  else if within 65 70 c then Some (c - 55)
  else None.

Fixpoint radix_loop (max acc : Z) (s : bytes) : option Z :=
  match s with
  | [] => Some acc
  | c :: s =>
    match hex_value c with
    | None => None
    | Some d => if acc * 16 + d >? max then None else radix_loop max (acc * 16 + d) s
    end
  end.

(** A leading [+] is accepted in front of digits, a lone sign is not. *)
Definition from_str_radix (max : Z) (s : bytes) : option Z :=
  match s with
  | [] => None
  | [c] => if (c =? 43) || (c =? 45) then None else radix_loop max 0 s
  | c :: rest => if c =? 43 then radix_loop max 0 rest else radix_loop max 0 s
  end.

(** ** Character boundaries: [&s[a..b]] of a string with bytes [b] panics
    unless both ends are at a boundary. *)
Definition is_char_boundary (s : bytes) (i : nat) : bool :=
  match s !! i with
  | Some b => negb (cont b)
  | None => (i =? length s)%nat
  end.

(** ** revision_identity *)
Definition identity_serialize (identity : bytes) : rstr := identity ≫= hex_byte.

(** The loop over the 32 output bytes; [n] are left from byte [at_]. *)
Fixpoint hex_identity_loop (n : nat) (at_ : nat) (encoded : bytes) : deserialized bytes :=
  match n with
  | O => Parsed []
  | S n =>
    if negb (is_char_boundary encoded at_ && is_char_boundary encoded (at_ + 2)) then Panicked
    else match from_str_radix 255 (slice at_ (at_ + 2) encoded) with
    | None => Rejected
    | Some output =>
      match hex_identity_loop n (at_ + 2) encoded with
      | Parsed rest => Parsed (output :: rest)
      | Rejected => Rejected
      | Panicked => Panicked
      end
    end
  end.

Definition identity_deserialize (encoded : rstr) : deserialized bytes :=
  if negb (str_len encoded =? 64) then Rejected
  else hex_identity_loop 32 0 (utf8_encode encoded).

(** ** revision_length: [format!("{length:016x}")] of a [u64] *)
Fixpoint hex_digits (n : nat) (x : Z) : rstr :=
  match n with
  | O => []
  | S n => hex_digits n (x / 16) ++ [nth (Z.to_nat (x mod 16)) HEX_DIGITS 0]
  end.

Definition length_serialize (length : Z) : rstr := hex_digits 16 length.

Definition length_deserialize (encoded : rstr) : deserialized Z :=
  if negb (str_len encoded =? 16) then Rejected
  else match from_str_radix u64_max (utf8_encode encoded) with
       | Some length => Parsed length
       | None => Rejected
       end.

(** ** revision_time: the two's complement of each [i64] *)
Definition i64_to_u64 (x : Z) : Z := x mod 18446744073709551616.
Definition u64_to_i64 (u : Z) : Z := if u <=? i64_max then u else u - 18446744073709551616.

Definition time_serialize (time : Z * Z) : rstr :=
  hex_digits 16 (i64_to_u64 (fst time)) ++ [58] ++ hex_digits 16 (i64_to_u64 (snd time)).

Definition time_deserialize (encoded : rstr) : deserialized (Z * Z) :=
  match split_once 58 encoded with
  | None => Rejected
  | Some (seconds, subsecond) =>
    if negb (str_len seconds =? 16) || negb (str_len subsecond =? 16) then Rejected
    else match from_str_radix u64_max (utf8_encode seconds),
               from_str_radix u64_max (utf8_encode subsecond) with
         | Some s, Some n => Parsed (u64_to_i64 s, u64_to_i64 n)
         | _, _ => Rejected
         end
  end.

(** ** Lemmas *)
Lemma hex_value_digit n : 0 <= n < 16 → hex_value (nth (Z.to_nat n) HEX_DIGITS 0) = Some n.
Proof.
  intros Hn. assert (n ∈ seqZ 0 16) as Hi by (apply elem_of_seqZ; lia). revert n Hi Hn.
  apply (Forall_forall (λ n, 0 <= n < 16 → hex_value (nth (Z.to_nat n) HEX_DIGITS 0) = Some n)).
  repeat (constructor; [done|]). constructor.
Qed.

Lemma radix_loop_app max acc s t :
  radix_loop max acc (s ++ t) = radix_loop max acc s ≫= λ acc, radix_loop max acc t.
Proof.
  revert acc. induction s as [|c s IH]; intros acc; [done|]. cbn [app radix_loop].
  destruct (hex_value c); [|done]. by destruct (_ >? _).
Qed.

Lemma hex_digits_length n x : length (hex_digits n x) = n.
Proof. revert x. induction n as [|n IH]; intros x; [done|]. cbn [hex_digits]. rewrite length_app, IH. simpl. lia. Qed.

Lemma hex_digits_ascii n x : 0 <= x → forallb is_lowercase_hex_byte (hex_digits n x) = true.
Proof.
  revert x. induction n as [|n IH]; intros x Hx; [done|]. cbn [hex_digits].
  rewrite forallb_app, IH by (apply Z.div_pos; lia). cbn [forallb andb].
  by rewrite (proj1 (hex_digit_ok (x mod 16) (Z.mod_pos_bound x 16 eq_refl))).
Qed.

Lemma hex_text_ascii s : forallb is_lowercase_hex_byte s = true → ascii s = true.
Proof.
  unfold ascii. rewrite !forallb_Forall. intros Hs. eapply Forall_impl; [exact Hs|].
  unfold is_lowercase_hex_byte, within. intros c Hc. simpl in Hc. lia.
Qed.

Lemma radix_hex_digits max n x :
  0 <= x < 16 ^ Z.of_nat n → x <= max → radix_loop max 0 (hex_digits n x) = Some x.
Proof.
  revert x. induction n as [|n IH]; intros x Hx Hm.
  { change (16 ^ Z.of_nat 0) with 1 in Hx. simpl. f_equal. lia. }
  rewrite Nat2Z.inj_succ, Z.pow_succ_r in Hx by lia.
  pose proof (Z.div_mod x 16 ltac:(lia)). pose proof (Z.mod_pos_bound x 16 eq_refl).
  cbn [hex_digits]. rewrite radix_loop_app, IH; [|split; [apply Z.div_pos|apply Z.div_lt_upper_bound]; lia|lia].
  cbn [mbind option_bind radix_loop]. rewrite hex_value_digit by done.
  rewrite Z.gtb_ltb, (proj2 (Z.ltb_ge _ _)) by lia. f_equal. lia.
Qed.

(** A text of hexadecimal digits does not start with a sign. *)
Lemma from_str_radix_hex max s :
  s ≠ [] → forallb is_lowercase_hex_byte s = true → from_str_radix max s = radix_loop max 0 s.
Proof.
  intros Hs Hf. destruct s as [|c s]; [done|]. cbn [forallb] in Hf. apply andb_true_iff in Hf as [Hc _].
  unfold is_lowercase_hex_byte, within in Hc. unfold from_str_radix.
  destruct (Z.eqb_spec c 43), (Z.eqb_spec c 45); try lia. by destruct s.
Qed.

Lemma from_str_radix_digits n x :
  0 <= x < 16 ^ Z.of_nat (S n) → x <= u64_max → from_str_radix u64_max (hex_digits (S n) x) = Some x.
Proof.
  intros Hx Hm. rewrite from_str_radix_hex, radix_hex_digits; try done.
  - intros E. apply (f_equal length) in E. by rewrite hex_digits_length in E.
  - apply hex_digits_ascii. lia.
Qed.

Lemma hex_byte_value b : is_byte b = true → from_str_radix 255 (hex_byte b) = Some b.
Proof.
  intros Hb. rewrite from_str_radix_hex by (done || apply hex_byte_ok; done).
  unfold is_byte, within in Hb. unfold hex_byte. rewrite Z.shiftr_div_pow2 by lia. change (2 ^ 4) with 16.
  change 15 with (Z.ones 4). rewrite Z.land_ones by lia. change (2 ^ 4) with 16.
  pose proof (Z.div_mod b 16 ltac:(lia)). pose proof (Z.mod_pos_bound b 16 eq_refl).
  assert (0 <= b / 16 < 16) by (split; [apply Z.div_pos|apply Z.div_lt_upper_bound]; lia).
  cbn [radix_loop]. rewrite hex_value_digit, Z.gtb_ltb, (proj2 (Z.ltb_ge _ _)) by lia.
  rewrite hex_value_digit, Z.gtb_ltb, (proj2 (Z.ltb_ge _ _)) by lia. f_equal. lia.
Qed.

Lemma ascii_boundary s i : ascii s = true → (i <= length s)%nat → is_char_boundary s i = true.
Proof.
  intros Hs Hi. unfold is_char_boundary. destruct (s !! i) as [b|] eqn:E.
  - unfold ascii in Hs. rewrite forallb_Forall, Forall_lookup in Hs. specialize (Hs i b E).
    unfold within in Hs. unfold cont, within. destruct (Z.leb_spec 128 b); simpl; [lia|done].
  - apply lookup_ge_None in E. apply Nat.eqb_eq. lia.
Qed.

Lemma identity_loop_hex pre bs rest :
  forallb is_byte bs = true → ascii (pre ++ (bs ≫= hex_byte) ++ rest) = true →
  hex_identity_loop (length bs) (length pre) (pre ++ (bs ≫= hex_byte) ++ rest) = Parsed bs.
Proof.
  revert pre. induction bs as [|b bs IH]; intros pre Hb Ha; [done|].
  cbn [forallb] in Hb. apply andb_true_iff in Hb as [Hb Hbs]. cbn [length hex_identity_loop].
  change ((b :: bs) ≫= hex_byte) with (hex_byte b ++ (bs ≫= hex_byte)) in *.
  assert (length (hex_byte b) = 2%nat) as L by done.
  rewrite !ascii_boundary by (done || (rewrite !length_app, L; lia)). cbn [negb andb].
  rewrite <- (app_assoc (hex_byte b)). rewrite slice_app by (rewrite ?L; lia). rewrite hex_byte_value by done.
  replace (pre ++ hex_byte b ++ (bs ≫= hex_byte) ++ rest)
    with ((pre ++ hex_byte b) ++ (bs ≫= hex_byte) ++ rest) in * by (by rewrite <- !app_assoc).
  replace (length pre + 2)%nat with (length (pre ++ hex_byte b)) by (rewrite length_app, L; done).
  rewrite IH; [done|done|]. by rewrite <- !app_assoc in *.
Qed.

Lemma i64_u64_round_trip x : i64_min <= x <= i64_max → u64_to_i64 (i64_to_u64 x) = x ∧ 0 <= i64_to_u64 x <= u64_max.
Proof.
  unfold u64_to_i64, i64_to_u64, i64_min, i64_max, u64_max. intros Hx.
  pose proof (Z.mod_pos_bound x 18446744073709551616 eq_refl). split; [|lia].
  destruct (Z.leb_spec 0 x).
  - rewrite Z.mod_small by lia. by destruct (Z.leb_spec x 9223372036854775807); [|lia].
  - rewrite <- (Z.mod_unique x 18446744073709551616 (-1) (x + 18446744073709551616)) by lia.
    by destruct (Z.leb_spec (x + 18446744073709551616) 9223372036854775807); lia.
Qed.

Lemma split_once_here sep s t : sep ∉ s → split_once sep (s ++ sep :: t) = Some (s, t).
Proof.
  induction s as [|c s IH]; intros Hn; cbn [app split_once]; [by rewrite Z.eqb_refl|].
  apply not_elem_of_cons in Hn as [Hc Hs]. rewrite (proj2 (Z.eqb_neq _ _)) by done. by rewrite IH.
Qed.

Lemma hex_text_no_colon s : forallb is_lowercase_hex_byte s = true → 58 ∉ s.
Proof.
  rewrite forallb_Forall, Forall_forall. intros Hs Hc. specialize (Hs 58 Hc). vm_compute in Hs. done.
Qed.

Lemma hex_digits_text n x : 0 <= x → utf8_encode (hex_digits n x) = hex_digits n x ∧ str_len (hex_digits n x) = Z.of_nat n.
Proof.
  intros Hx. assert (utf8_encode (hex_digits n x) = hex_digits n x) as E
    by (by apply ascii_encode, hex_text_ascii, hex_digits_ascii).
  split; [done|]. unfold str_len, zlen. by rewrite E, hex_digits_length.
Qed.

(** A records-file revision survives its text form: a 32-byte identity, a
    length of 64 bits and two signed 64-bit times deserialize from what was
    serialized, into text of fixed width (64, 16 and 33 characters). *)
Theorem revision_text_round_trip identity length time :
  is_array 32 identity = true → 0 <= length <= u64_max →
  i64_min <= fst time <= i64_max → i64_min <= snd time <= i64_max →
  identity_deserialize (identity_serialize identity) = Parsed identity ∧
  length_deserialize (length_serialize length) = Parsed length ∧
  time_deserialize (time_serialize time) = Parsed time ∧
  str_len (identity_serialize identity) = 64 ∧ str_len (length_serialize length) = 16 ∧
  str_len (time_serialize time) = 33.
Proof.
  intros [Hi Hb]%is_array_spec Hl Hs Hn. destruct (hex_encode_ok identity Hb) as (E & L & A).
  assert (str_len (identity_serialize identity) = 64) as Li.
  { unfold str_len, identity_serialize. rewrite E, L. unfold zlen. lia. }
  destruct (hex_digits_text 16 length) as [El Ll]; [lia|].
  destruct (i64_u64_round_trip _ Hs) as [Rs Bs], (i64_u64_round_trip _ Hn) as [Rn Bn].
  destruct (hex_digits_text 16 (i64_to_u64 (fst time))) as [Es Ls]; [lia|].
  destruct (hex_digits_text 16 (i64_to_u64 (snd time))) as [En Ln]; [lia|].
  assert (∀ x, 0 <= x <= u64_max → from_str_radix u64_max (hex_digits 16 x) = Some x) as R.
  { intros x Hx. apply from_str_radix_digits; [|lia]. unfold u64_max in Hx. simpl. lia. }
  split_and!; try done.
  - unfold identity_deserialize. rewrite Li. cbn [negb Z.eqb Pos.eqb]. unfold identity_serialize. rewrite E.
    rewrite <- Hi. pose proof (identity_loop_hex [] identity [] Hb) as P. rewrite app_nil_r in P.
    apply P. by apply hex_text_ascii.
  - unfold length_deserialize, length_serialize. rewrite Ll, El, R by done. done.
  - unfold time_deserialize, time_serialize.
    change ([58] ++ ?t) with (58 :: t). rewrite split_once_here by (apply hex_text_no_colon, hex_digits_ascii; lia).
    rewrite Ls, Ln, Es, En, !R by done. cbn [negb orb Z.eqb Pos.eqb]. rewrite Rs, Rn. by destruct time.
  - unfold str_len, time_serialize. rewrite !utf8_encode_app, Es, En. unfold zlen.
    rewrite !length_app, !hex_digits_length. done.
Qed.

Definition sample_identity : bytes := zeros 16 ++ repeat 255 16.

Lemma revision_text_round_trip_witness :
  is_array 32 sample_identity = true ∧
  identity_deserialize (identity_serialize sample_identity) = Parsed sample_identity ∧
  time_deserialize (time_serialize (-1, 999)) = Parsed (-1, 999).
Proof.
  pose proof (revision_text_round_trip sample_identity 4096 (-1, 999)) as P.
  split; [done|]. split; apply P; done.
Defined.

(** Sixty-four bytes of text, of which the second and third are one character. *)
Definition straddling_identity : rstr := 97 :: 233 :: repeat 48 61.

(** An identity of the right length whose text has a character across an
    even byte offset makes [deserialize] panic instead of rejecting it, while
    ASCII text never panics: the panic is reachable from the bytes of a
    checkpoint file with a correct checksum. *)
Theorem identity_deserialize_can_panic :
  identity_deserialize straddling_identity = Panicked ∧
  ∀ encoded, ascii encoded = true → identity_deserialize encoded ≠ Panicked.
Proof.
  split; [done|]. intros s Hs. unfold identity_deserialize. destruct (Z.eqb_spec (str_len s) 64) as [L|]; [|done].
  cbn [negb]. unfold str_len, zlen in L. rewrite (ascii_encode s Hs) in *.
  assert (∀ n k, (k + 2 * n <= length s)%nat → hex_identity_loop n k s ≠ Panicked) as P; [|apply P; lia].
  induction n as [|n IH]; intros k Hk; [done|]. cbn [hex_identity_loop].
  rewrite !ascii_boundary by (done || lia). cbn [negb andb]. destruct (from_str_radix _ _); [|done].
  specialize (IH (k + 2)%nat ltac:(lia)). by destruct (hex_identity_loop n _ _).
Qed.
