(* ===== verification/SpoolDisk.v ===== *)
(** * The spool directory and the group commit

    The files of one host spool as the operating system keeps them, and
    [tracedecay-hooks/src/spool/commit.rs]: the commit lock's file, which
    stores how far a completed sync of the records file reached, and
    [commit_records], which shares one sync among the writers.

    [Disk] separates what processes see from what a crash may leave: a name
    that was replaced since the last directory sync may come back, and of a
    records file only the synced prefix is certain.  Reads and writes are the
    successful ones; an operation that stops on an I/O error leaves the disk of
    one of its earlier writes. *)
From stdpp Require Import base list numbers strings.
From S2P Require Import Prelude RustText Bytes HookContract SpoolFrame SpoolCheckpoint.

#[local] Open Scope Z_scope.
#[local] Open Scope rust_scope.

(** ** Files *)

(** [rf_generation] tells apart files that had the same inode number one after
    the other: an open file denotes one of them, [stat] does not show it. *)
Record RecordsFile : Type := {
  rf_dev : Z;
  rf_ino : Z;
  rf_generation : Z;
  rf_content : bytes;
  rf_synced : Z;
  rf_modified : Z * Z;
  rf_changed : Z * Z;
}.

(** The members of the spool root.  [prior_records] and [prior_meta] are the
    directory entries since the last directory sync, newest first;
    [prior_commit] the earlier contents of the commit lock's file, which is
    never synced.  [clock] is the file system's time. *)
Record Disk : Type := {
  records : option RecordsFile;
  prior_records : list (option RecordsFile);
  meta_file : option bytes;
  prior_meta : list (option bytes);
  commit_file : bytes;
  prior_commit : list bytes;
  checkpoint_file : option bytes;
  transition_file : option bytes;
  cursor_file : option bytes;
  clock : Z * Z;
}.

(** A root that was just created. *)
Definition empty_root (now : Z * Z) : Disk := {|
  records := None; prior_records := []; meta_file := None; prior_meta := [];
  commit_file := []; prior_commit := []; checkpoint_file := None; transition_file := None;
  cursor_file := None; clock := now |}.

Definition with_records (d : Disk) (f : option RecordsFile) : Disk := {|
  records := f; prior_records := prior_records d; meta_file := meta_file d;
  prior_meta := prior_meta d; commit_file := commit_file d; prior_commit := prior_commit d;
  checkpoint_file := checkpoint_file d; transition_file := transition_file d;
  cursor_file := cursor_file d; clock := clock d |}.

(** The name now denotes [f]; the entry it had may come back after a crash. *)
Definition rename_records (d : Disk) (f : option RecordsFile) : Disk := {|
  records := f; prior_records := records d :: prior_records d; meta_file := meta_file d;
  prior_meta := prior_meta d; commit_file := commit_file d; prior_commit := prior_commit d;
  checkpoint_file := checkpoint_file d; transition_file := transition_file d;
  cursor_file := cursor_file d; clock := clock d |}.

Definition rename_meta (d : Disk) (b : option bytes) : Disk := {|
  records := records d; prior_records := prior_records d; meta_file := b;
  prior_meta := meta_file d :: prior_meta d; commit_file := commit_file d;
  prior_commit := prior_commit d; checkpoint_file := checkpoint_file d;
  transition_file := transition_file d; cursor_file := cursor_file d; clock := clock d |}.

Definition write_commit (d : Disk) (b : bytes) : Disk := {|
  records := records d; prior_records := prior_records d; meta_file := meta_file d;
  prior_meta := prior_meta d; commit_file := b; prior_commit := commit_file d :: prior_commit d;
  checkpoint_file := checkpoint_file d; transition_file := transition_file d;
  cursor_file := cursor_file d; clock := clock d |}.

Definition with_accelerators (d : Disk) (checkpoint transition cursor : option bytes) : Disk := {|
  records := records d; prior_records := prior_records d; meta_file := meta_file d;
  prior_meta := prior_meta d; commit_file := commit_file d; prior_commit := prior_commit d;
  checkpoint_file := checkpoint; transition_file := transition; cursor_file := cursor;
  clock := clock d |}.

(** [sync_directory]: every entry is durable. *)
Definition sync_directory (d : Disk) : Disk := {|
  records := records d; prior_records := []; meta_file := meta_file d; prior_meta := [];
  commit_file := commit_file d; prior_commit := prior_commit d;
  checkpoint_file := checkpoint_file d; transition_file := transition_file d;
  cursor_file := cursor_file d; clock := clock d |}.

Definition records_content (d : Disk) : option bytes := rf_content <$> records d.

(** [sync_file_data] on the records file. *)
Definition synced_file (f : RecordsFile) : RecordsFile := {|
  rf_dev := rf_dev f; rf_ino := rf_ino f; rf_generation := rf_generation f; rf_content := rf_content f;
  rf_synced := zlen (rf_content f); rf_modified := rf_modified f; rf_changed := rf_changed f |}.

Definition sync_records (d : Disk) : Disk := with_records d (synced_file <$> records d).

(** [append_unsynced]: the file is created when it is missing; [created] is
    the empty file the system makes then. *)
Definition appended_file (now : Z * Z) (f : RecordsFile) (frame : bytes) : RecordsFile := {|
  rf_dev := rf_dev f; rf_ino := rf_ino f; rf_generation := rf_generation f; rf_content := rf_content f ++ frame;
  rf_synced := rf_synced f;
  rf_modified := if is_empty frame then rf_modified f else now;
  rf_changed := if is_empty frame then rf_changed f else now |}.

Definition new_file (now : Z * Z) (dev ino generation : Z) : RecordsFile := {|
  rf_dev := dev; rf_ino := ino; rf_generation := generation; rf_content := []; rf_synced := 0;
  rf_modified := now; rf_changed := now |}.

Definition append_frame (d : Disk) (created : RecordsFile) (frame : bytes) : Disk :=
  match records d with
  | Some f => with_records d (Some (appended_file (clock d) f frame))
  | None => rename_records d (Some (appended_file (clock d) created frame))
  end.

(** [truncate_file]: the length is set and the file synced. *)
Definition truncated_file (now : Z * Z) (f : RecordsFile) (length : Z) : RecordsFile := {|
  rf_dev := rf_dev f; rf_ino := rf_ino f; rf_generation := rf_generation f; rf_content := take (Z.to_nat length) (rf_content f);
  rf_synced := length; rf_modified := now; rf_changed := now |}.

Definition truncate_records (d : Disk) (length : Z) : Disk :=
  with_records d ((λ f, truncated_file (clock d) f length) <$> records d).

(** ** Revisions *)
Section disk.
Context `{Sha256}.

Definition revision_for_file (f : RecordsFile) : RecordsFileRevisionV1 := {|
  identity := sha256 (str "hook-spool-records-unix-v1"
                      ++ to_le_bytes 8 (rf_dev f) ++ to_le_bytes 8 (rf_ino f));
  length_ := zlen (rf_content f);
  modified := rf_modified f;
  changed := rf_changed f |}.

Definition records_identity (f : RecordsFile) : bytes := identity (revision_for_file f).

Definition records_file_revision (d : Disk) : option RecordsFileRevisionV1 :=
  revision_for_file <$> records d.
End disk.

(** ** The transition file *)
Definition MAX_TRANSITION_BYTES : Z := 16 * 1024.

Record HookSpoolTransitionBodyV1 : Type := {
  t_version : Z;
  t_checkpoint_checksum : bytes;
  t_checkpoint_revision : option RecordsFileRevisionV1;
  t_current_revision : RecordsFileRevisionV1;
}.

Record HookSpoolTransitionFileV1 : Type := {
  t_body : HookSpoolTransitionBodyV1;
  t_checksum : bytes;
}.

Record ValidatedTransitionV1 : Type := {
  vt_checkpoint_checksum : bytes;
  vt_checkpoint_revision : option RecordsFileRevisionV1;
  vt_current_revision : RecordsFileRevisionV1;
}.

(** [canonical_json_bytes] of the body, [serde_json::to_vec] of the file and
    [serde_json::from_slice], with the round trip of the derived pair. *)
Class TransitionCodec := {
  body_json_bytes : HookSpoolTransitionBodyV1 → option bytes;
  transition_to_vec : HookSpoolTransitionFileV1 → option bytes;
  transition_from_slice : bytes → option HookSpoolTransitionFileV1;
  transition_round_trip : ∀ t b, transition_to_vec t = Some b → transition_from_slice b = Some t;
}.

(** [read_bounded] through [read_accelerator]: an empty or oversized file is
    no accelerator. *)
Definition read_accelerator (file : option bytes) (maximum : Z) : option bytes :=
  match file with
  | None => None
  | Some b => if (zlen b =? 0) || (zlen b >? maximum) then None else Some b
  end.

Section transition.
Context `{Sha256} `{TransitionCodec}.

Definition read_transition (d : Disk) : option ValidatedTransitionV1 :=
  match read_accelerator (transition_file d) MAX_TRANSITION_BYTES with
  | None => None
  | Some b =>
    match transition_from_slice b with
    | None => None
    | Some file =>
      match body_json_bytes (t_body file) with
      | None => None
      | Some body_bytes =>
        if negb (t_version (t_body file) =? CHECKPOINT_FORMAT_VERSION)
           || negb (bool_decide (frame_checksum body_bytes = t_checksum file))
        then None
        else Some {|
          vt_checkpoint_checksum := t_checkpoint_checksum (t_body file);
          vt_checkpoint_revision := t_checkpoint_revision (t_body file);
          vt_current_revision := t_current_revision (t_body file) |}
      end
    end
  end.

Definition write_transition (d : Disk) (checkpoint : CheckpointAnchorV1) :
    result (Disk * RecordsFileRevisionV1) HookSpoolError :=
  match records_file_revision d with
  | None => Err MetadataCorrupted
  | Some current_revision =>
    let body := {|
      t_version := CHECKPOINT_FORMAT_VERSION;
      t_checkpoint_checksum := anchor_checksum checkpoint;
      t_checkpoint_revision := anchor_records_revision checkpoint;
      t_current_revision := current_revision |} in
    match body_json_bytes body with
    | None => Err MetadataCorrupted
    | Some body_bytes =>
      match transition_to_vec {| t_body := body; t_checksum := frame_checksum body_bytes |} with
      | None => Err MetadataCorrupted
      | Some b =>
        Ok (with_accelerators d (checkpoint_file d) (Some b) (cursor_file d), current_revision)
      end
    end
  end.
End transition.

(** ** The synced extent in the commit lock's file *)
Definition IDENTITY_BYTES : nat := 32.
Definition EXTENT_BYTES : nat := IDENTITY_BYTES + 8.
Definition EXTENT_RECORD_BYTES : Z := 72.

Section commit.
Context `{Sha256}.

Definition extent_record (identity : bytes) (synced_through : Z) : bytes :=
  let b := identity ++ to_le_bytes 8 synced_through in b ++ frame_checksum b.

(** What [synced_through] reads from the contents [file]: at most one byte past
    the record. *)
Definition extent_of (file identity : bytes) : option Z :=
  let b := take (Z.to_nat (EXTENT_RECORD_BYTES + 1)) file in
  if negb (zlen b =? EXTENT_RECORD_BYTES)
     || negb (bool_decide (frame_checksum (take EXTENT_BYTES b) = drop EXTENT_BYTES b))
     || negb (bool_decide (take IDENTITY_BYTES b = identity))
  then None
  else Some (from_le_bytes (slice IDENTITY_BYTES EXTENT_BYTES b)).

Definition synced_through (d : Disk) (identity : bytes) : option Z := extent_of (commit_file d) identity.

Definition publish (d : Disk) (identity : bytes) (synced_through : Z) : Disk :=
  write_commit d (extent_record identity synced_through).

Definition invalidate (d : Disk) : Disk := write_commit d [].

Definition forget_synced_extent (d : Disk) : Disk := invalidate d.
End commit.

Section commit_records.
Context `{Sha256} `{TransitionCodec}.

(** The bytes the sync about to start certainly covers: the transition names
    complete frames, and nothing past the length [written] that was read. *)
Definition commit_claim (d : Disk) (identity_ : bytes) (end_ written : Z) : Z :=
  Z.min
    match read_transition d with
    | Some transition =>
      if bool_decide (identity (vt_current_revision transition) = identity_)
      then Z.max (length_ (vt_current_revision transition)) end_
      else end_
    | None => end_
    end
    written.

(** What [commit_records] does after its reads, under the commit lock. *)
Inductive CommitPlan : Type :=
  | AlreadySynced
  | NameReplacement (current : bytes)
  | SyncThrough (claim : Z) (first : bool).

Definition commit_plan (d : Disk) (identity_ : bytes) (end_ : Z) :
    result CommitPlan HookSpoolError :=
  match records d with
  | None => Err RecoveryRequired
  | Some file =>
    let current := records_identity file in
    if negb (bool_decide (current = identity_)) then
      match synced_through d current with
      | None => Ok (NameReplacement current)
      | Some _ => Ok AlreadySynced
      end
    else
      let synced := synced_through d identity_ in
      if match synced with Some synced => synced >=? end_ | None => false end
      then Ok AlreadySynced
      else
        let written := zlen (rf_content file) in
        if written <? end_ then Err MetadataCorrupted
        else Ok (SyncThrough (commit_claim d identity_ end_ written)
                   (match synced with None => true | Some _ => false end))
  end.

(** The whole of [commit_records], when nothing else runs meanwhile. *)
Definition commit_records (d : Disk) (identity_ : bytes) (end_ : Z) : result Disk HookSpoolError :=
  let? plan := commit_plan d identity_ end_ in
  Ok match plan with
  | AlreadySynced => d
  | NameReplacement current => publish (sync_directory d) current 0
  | SyncThrough claim first =>
    let d := sync_records d in
    publish (if first then sync_directory d else d) identity_ claim
  end.
End commit_records.

(** ** Lemmas *)
Section lemmas.
Context `{Sha256}.

Lemma records_identity_array f : is_array 32 (records_identity f) = true.
Proof. apply sha256_array. Qed.

Lemma extent_record_length identity n : length identity = 32%nat → zlen (extent_record identity n) = 72.
Proof.
  intros Hl. unfold extent_record, zlen, frame_checksum.
  rewrite !length_app, sha256_length, to_le_bytes_length, Hl. done.
Qed.

(** The extent that was published is read back for its file and no other. *)
Lemma extent_of_record identity other n :
  length identity = 32%nat → 0 <= n <= u64_max →
  extent_of (extent_record identity n) other = if bool_decide (identity = other) then Some n else None.
Proof.
  intros Hl Hn. pose proof (extent_record_length identity n Hl) as L. unfold extent_of.
  rewrite take_ge by (unfold zlen, EXTENT_RECORD_BYTES in *; lia). rewrite L. unfold extent_record.
  assert (length (identity ++ to_le_bytes 8 n) = EXTENT_BYTES) as Le.
  { rewrite length_app, Hl, to_le_bytes_length. done. }
  rewrite (take_app_length' (identity ++ _)), (drop_app_length' (identity ++ _)) by done.
  case_bool_decide as Hc; [clear Hc|by destruct Hc]. cbn [negb orb].
  change (72 =? EXTENT_RECORD_BYTES) with true. cbn [negb orb]. unfold frame_checksum.
  rewrite <- app_assoc, (take_app_length' identity) by done.
  case_bool_decide; [|done]. cbn [negb]. unfold slice. rewrite (drop_app_length' identity) by done.
  rewrite take_app_length' by (rewrite to_le_bytes_length; done).
  by rewrite from_to_le_u64.
Qed.

Lemma extent_of_empty identity : extent_of [] identity = None.
Proof. done. Qed.
End lemmas.
