(* ===== verification/SpoolCommit.v ===== *)
(** * The group commit under concurrency and crashes

    The protocol of [tracedecay-hooks/src/spool/commit.rs] as a step relation
    on the spool directory, its commit lock and the compactions in flight.
    Writers append under the writer lease while one committer at a time holds
    the commit lock; an open truncates a torn tail and a compaction replaces
    the file; a reset removes its members one by one; any process may die and
    the machine may crash between any two writes.  Inode numbers are reused
    freely.

    A step carries a label that tells whether it is one of three events the
    protocol does not survive: a reset that stops between the removal of the
    records file and the forgetting of the extent, a crash that brings back an
    extent that was forgotten (the commit lock's file is never synced), and a
    replacement of a file whose revision only happens to equal the observed
    one.  The durability theorem is about runs of the other steps.

    The invariant is that a published extent never claims more than is durable:
    the name of the file and its first bytes survive every crash. *)
From stdpp Require Import base numbers strings relations gmap list.
From S2P Require Import Prelude RustText Bytes HookContract SpoolFrame SpoolCheckpoint SpoolDisk.

#[local] Open Scope Z_scope.

(** ** The state *)

(** What the holder of the commit lock has left to do, with the generation and
    the identity of the file it opened. *)
Inductive Committer : Type :=
  | Idle
  | NeedSync (g : Z) (id : bytes) (claim : Z) (first : bool)
  | NeedDirectory (g : Z) (id : bytes) (claim : Z)
  | NeedPublish (g : Z) (id : bytes) (claim : Z)
  | NeedInvalidate
  | Resetting (done : nat).

Definition open_file (c : Committer) : option (Z * bytes) :=
  match c with
  | NeedSync g id _ _ | NeedDirectory g id _ | NeedPublish g id _ => Some (g, id)
  | Idle | NeedInvalidate | Resetting _ => None
  end.

(** A reset holds the writer lease as well. *)
Definition lease_free (c : Committer) : Prop := ∀ k, c ≠ Resetting k.

(** Between the removal of the records file and the forgetting of its extent,
    the extent claims bytes of no file. *)
Definition extent_live (c : Committer) : Prop := ∀ k, c = Resetting k → ¬ (1 <= k <= 5)%nat.

(** A compaction: it remembers the revision it read under the lease, forgets
    the extent, and stages its synced replacement. *)
Inductive Reclaim : Type :=
  | Observed (revision : option RecordsFileRevisionV1) (g : option Z)
  | Forgot (revision : option RecordsFileRevisionV1) (g : option Z)
  | Staged (revision : option RecordsFileRevisionV1) (g : option Z) (f : RecordsFile).

Definition reclaim_generation (r : Reclaim) : option Z :=
  match r with Observed _ g | Forgot _ g | Staged _ g _ => g end.

Definition staged_file (r : Reclaim) : option RecordsFile :=
  match r with Staged _ _ f => Some f | _ => None end.

Record Shared : Type := {
  disk : Disk;
  committer : Committer;
  reclaims : gmap Z Reclaim;
}.

Definition names (d : Disk) : list (option RecordsFile) := records d :: prior_records d.

Definition generations (d : Disk) : list Z := rf_generation <$> omap id (names d).

Definition head_generation (d : Disk) : option Z := rf_generation <$> records d.

(** [sync_file_data] through an open file: the file is synced under whatever
    name it still has. *)
Definition sync_if (g : Z) (f : RecordsFile) : RecordsFile :=
  if rf_generation f =? g then synced_file f else f.

Definition sync_open (d : Disk) (g : Z) : Disk := {|
  records := option_map (sync_if g) (records d);
  prior_records := option_map (sync_if g) <$> prior_records d;
  meta_file := meta_file d; prior_meta := prior_meta d; commit_file := commit_file d;
  prior_commit := prior_commit d; checkpoint_file := checkpoint_file d;
  transition_file := transition_file d; cursor_file := cursor_file d; clock := clock d |}.

(** What [HookSpoolV1::reset] writes under both locks, in its order: each
    member is removed, the extent forgotten and the directory synced.  It may
    stop after any of them. *)
Definition reset_writes : list (Disk → Disk) := [
  λ d, rename_records d None;
  λ d, rename_meta d None;
  λ d, with_accelerators d None (transition_file d) (cursor_file d);
  λ d, with_accelerators d (checkpoint_file d) None (cursor_file d);
  λ d, with_accelerators d (checkpoint_file d) (transition_file d) None;
  invalidate;
  sync_directory ].

(** The contents of the commit lock's file written since the extent was last
    forgotten.  A crash that restores one of these, or none, is orderly; one
    that restores an older one is a [StaleExtent]. *)
Fixpoint recent (contents : list bytes) : list bytes :=
  match contents with
  | [] => []
  | c :: contents => if is_empty c then [] else c :: recent contents
  end.

Definition recoverable (d : Disk) : list bytes := recent (commit_file d :: prior_commit d).

Definition bounded (f : RecordsFile) : Prop :=
  0 <= rf_synced f <= zlen (rf_content f) ∧ zlen (rf_content f) <= u64_max.

Section protocol.
Context `{Sha256} `{TransitionCodec}.

(** A file the system makes now: its inode number is of no file that exists or
    is open, and it is none of the files before it. *)
Definition fresh_file (s : Shared) (f : RecordsFile) : Prop :=
  bounded f ∧
  (∀ g, records (disk s) = Some g → records_identity g ≠ records_identity f) ∧
  (rf_generation f ∉ generations (disk s)) ∧
  (∀ g id, open_file (committer s) = Some (g, id) → g ≠ rf_generation f ∧ id ≠ records_identity f) ∧
  (∀ p r, reclaims s !! p = Some r → reclaim_generation r ≠ Some (rf_generation f)) ∧
  (∀ p r g, reclaims s !! p = Some r → staged_file r = Some g →
     rf_generation g ≠ rf_generation f ∧ records_identity g ≠ records_identity f).

(** What a crash leaves of a file: at least its synced prefix, and then
    whatever reached the disk. *)
Definition survives (f f' : RecordsFile) : Prop :=
  rf_dev f' = rf_dev f ∧ rf_ino f' = rf_ino f ∧ rf_generation f' = rf_generation f ∧
  take (Z.to_nat (rf_synced f)) (rf_content f) `prefix_of` rf_content f' ∧
  rf_synced f' = zlen (rf_content f') ∧ zlen (rf_content f') <= u64_max.

Definition survives_name (e e' : option RecordsFile) : Prop :=
  match e, e' with
  | None, None => True
  | Some f, Some f' => survives f f'
  | _, _ => False
  end.

(** The disk after a crash: each name is one it had since the last directory
    sync, the commit lock's file holds an extent of [contents] or none, and the
    unsynced accelerators hold anything. *)
Inductive crashed (contents : list bytes) (d : Disk) : Disk → Prop :=
  crash_intro e e' m c checkpoint transition cursor now :
    e ∈ names d → survives_name e e' → m ∈ meta_file d :: prior_meta d →
    (c ∈ contents ∨ ∀ id, extent_of c id = None) →
    crashed contents d {|
      records := e'; prior_records := []; meta_file := m; prior_meta := [];
      commit_file := c; prior_commit := []; checkpoint_file := checkpoint;
      transition_file := transition; cursor_file := cursor; clock := now |}.

(** ** The steps *)
Inductive Hazard : Type := Orderly | ReusedRevision | InterruptedReset | StaleExtent.

Inductive spool_step : Hazard → Shared → Shared → Prop :=
  (* A writer appends bytes under the writer lease, a whole frame or less. *)
  | step_append s f frame :
      lease_free (committer s) → records (disk s) = Some f → zlen (rf_content f ++ frame) <= u64_max →
      spool_step Orderly s {| disk := append_frame (disk s) f frame;
                      committer := committer s; reclaims := reclaims s |}
  | step_create s f frame :
      lease_free (committer s) → records (disk s) = None → fresh_file s f → rf_content f = [] → zlen frame <= u64_max →
      spool_step Orderly s {| disk := append_frame (disk s) f frame;
                      committer := committer s; reclaims := reclaims s |}
  (* Metadata, accelerators and time change in any way. *)
  | step_meta s b :
      spool_step Orderly s {| disk := rename_meta (disk s) b;
                      committer := committer s; reclaims := reclaims s |}
  | step_accelerators s checkpoint transition cursor :
      spool_step Orderly s {| disk := with_accelerators (disk s) checkpoint transition cursor;
                      committer := committer s; reclaims := reclaims s |}
  | step_directory s :
      spool_step Orderly s {| disk := sync_directory (disk s);
                      committer := committer s; reclaims := reclaims s |}
  (* [commit_records]: its reads, then the sync, the directory and the extent. *)
  | step_begin s f id end_ claim first :
      committer s = Idle → records (disk s) = Some f →
      commit_plan (disk s) id end_ = Ok (SyncThrough claim first) → 0 <= end_ →
      spool_step Orderly s {| disk := disk s; committer := NeedSync (rf_generation f) id claim first;
                      reclaims := reclaims s |}
  | step_begin_replacement s f id end_ current :
      committer s = Idle → records (disk s) = Some f →
      commit_plan (disk s) id end_ = Ok (NameReplacement current) →
      spool_step Orderly s {| disk := disk s; committer := NeedDirectory (rf_generation f) current 0;
                      reclaims := reclaims s |}
  | step_sync s g id claim first :
      committer s = NeedSync g id claim first →
      spool_step Orderly s {| disk := sync_open (disk s) g;
                      committer := if first : bool then NeedDirectory g id claim
                                   else NeedPublish g id claim;
                      reclaims := reclaims s |}
  | step_sync_directory s g id claim :
      committer s = NeedDirectory g id claim →
      spool_step Orderly s {| disk := sync_directory (disk s); committer := NeedPublish g id claim;
                      reclaims := reclaims s |}
  | step_publish s g id claim :
      committer s = NeedPublish g id claim →
      spool_step Orderly s {| disk := publish (disk s) id claim; committer := Idle;
                      reclaims := reclaims s |}
  (* [publish] emptied the lock's file and stopped before it wrote the extent. *)
  | step_publish_stops s g id claim :
      committer s = NeedPublish g id claim →
      spool_step Orderly s {| disk := invalidate (disk s); committer := Idle;
                      reclaims := reclaims s |}
  (* An open cuts a torn tail under the commit lock, unless durable bytes would
     be lost, and forgets the extent. *)
  | step_truncate s f valid_end :
      committer s = Idle → records (disk s) = Some f → 0 <= valid_end <= zlen (rf_content f) →
      (∀ synced, synced_through (disk s) (records_identity f) = Some synced → synced <= valid_end) →
      spool_step Orderly s {| disk := truncate_records (disk s) valid_end; committer := NeedInvalidate;
                      reclaims := reclaims s |}
  | step_invalidate s :
      committer s = NeedInvalidate →
      spool_step Orderly s {| disk := invalidate (disk s); committer := Idle; reclaims := reclaims s |}
  (* A committer, an open or a reset dies, or stops on an I/O error. *)
  | step_release s :
      extent_live (committer s) →
      spool_step Orderly s {| disk := disk s; committer := Idle; reclaims := reclaims s |}
  (* A compaction: observe under the lease, forget, stage, and publish under the
     lease when the revision is the observed one. *)
  | step_observe s p :
      lease_free (committer s) → reclaims s !! p = None →
      spool_step Orderly s {| disk := disk s; committer := committer s;
                      reclaims := <[p := Observed (records_file_revision (disk s))
                                                  (head_generation (disk s))]> (reclaims s) |}
  | step_forget s p revision g :
      reclaims s !! p = Some (Observed revision g) → committer s = Idle →
      spool_step Orderly s {| disk := forget_synced_extent (disk s); committer := Idle;
                      reclaims := <[p := Forgot revision g]> (reclaims s) |}
  | step_stage s p revision g f :
      reclaims s !! p = Some (Forgot revision g) → fresh_file s f →
      rf_synced f = zlen (rf_content f) →
      spool_step Orderly s {| disk := disk s; committer := committer s;
                      reclaims := <[p := Staged revision g f]> (reclaims s) |}
  | step_replace s p revision g f :
      lease_free (committer s) → reclaims s !! p = Some (Staged revision g f) →
      records_file_revision (disk s) = revision →
      spool_step (if bool_decide (head_generation (disk s) = g) then Orderly else ReusedRevision)
        s {| disk := rename_records (disk s) (Some f); committer := committer s;
             reclaims := delete p (reclaims s) |}
  | step_abandon s p :
      spool_step Orderly s {| disk := disk s; committer := committer s; reclaims := delete p (reclaims s) |}
  (* A reset takes both locks and makes its writes one by one.  It may stop
     between any two, also between the removal of the records file and the
     forgetting of its extent. *)
  | step_reset_begin s :
      committer s = Idle →
      spool_step Orderly s {| disk := disk s; committer := Resetting 0; reclaims := reclaims s |}
  | step_reset s k write :
      committer s = Resetting k → reset_writes !! k = Some write →
      spool_step Orderly s {| disk := write (disk s); committer := Resetting (S k);
                      reclaims := reclaims s |}
  | step_reset_dies s :
      ¬ extent_live (committer s) →
      spool_step InterruptedReset s {| disk := disk s; committer := Idle; reclaims := reclaims s |}
  (* The machine crashes; the commit lock's file may come back with any of its
     contents. *)
  | step_crash s d :
      extent_live (committer s) → crashed (recoverable (disk s)) (disk s) d →
      spool_step Orderly s {| disk := d; committer := Idle; reclaims := ∅ |}
  | step_crash_in_reset s d :
      ¬ extent_live (committer s) → crashed (recoverable (disk s)) (disk s) d →
      spool_step InterruptedReset s {| disk := d; committer := Idle; reclaims := ∅ |}
  | step_crash_stale s d :
      crashed (commit_file (disk s) :: prior_commit (disk s)) (disk s) d →
      spool_step StaleExtent s {| disk := d; committer := Idle; reclaims := ∅ |}.

Definition initial (now : Z * Z) : Shared :=
  {| disk := empty_root now; committer := Idle; reclaims := ∅ |}.

Definition reachable (s : Shared) : Prop := ∃ now, rtc (spool_step Orderly) (initial now) s.

(** ** The invariant *)

(** [contents] that may be read back claim [n] synced bytes of file [id]. *)
Definition claimed (d : Disk) (id : bytes) (n : Z) : Prop :=
  ∃ c, c ∈ recoverable d ∧ extent_of c id = Some n.

Definition claim_ok (d : Disk) (id : bytes) (n : Z) : Prop :=
  (None ∉ names d) ∧
  (∀ f, Some f ∈ names d → records_identity f = id → n <= rf_synced f) ∧
  (∀ f, records d = Some f → records_identity f = id →
     prior_records d = [] ∧ ∃ m, synced_through d id = Some m ∧ n <= m).

(** The open file is the head unless it was replaced, and then the head has
    another identity and no extent. *)
Definition opened_ok (d : Disk) (g : Z) (id : bytes) (claim : Z) : Prop :=
  0 <= claim <= u64_max ∧ length id = 32%nat ∧
  (∃ f, records d = Some f ∧ (records_identity f = id → rf_generation f = g) ∧
     (records_identity f ≠ id → ∀ n, ¬ claimed d (records_identity f) n)) ∧
  (∀ n, claimed d id n → n <= claim).

Definition committer_ok (d : Disk) (c : Committer) : Prop :=
  match c with
  | Idle | NeedInvalidate | Resetting _ => True
  | NeedSync g id claim first =>
    opened_ok d g id claim ∧
    (∀ f, Some f ∈ names d → rf_generation f = g → claim <= zlen (rf_content f)) ∧
    (first = false →
      (None ∉ names d) ∧ (∀ f, Some f ∈ names d → records_identity f = id → rf_generation f = g) ∧
      (∀ f, records d = Some f → records_identity f = id → prior_records d = []))
  | NeedDirectory g id claim =>
    opened_ok d g id claim ∧
    (∀ f, Some f ∈ names d → rf_generation f = g → claim <= rf_synced f)
  | NeedPublish g id claim =>
    opened_ok d g id claim ∧ (None ∉ names d) ∧
    (∀ f, Some f ∈ names d → records_identity f = id → claim <= rf_synced f) ∧
    (∀ f, records d = Some f → records_identity f = id → prior_records d = [])
  end.

Definition reclaim_ok (d : Disk) (c : Committer) (r : Reclaim) : Prop :=
  reclaim_generation r = head_generation d →
  match r with
  | Observed _ _ => True
  | Forgot _ _ =>
    (∀ id n, claimed d id n → ∃ f, records d = Some f ∧ records_identity f = id) ∧
    (∀ g id, open_file c = Some (g, id) → ∃ f, records d = Some f ∧ records_identity f = id)
  | Staged _ _ f => ∀ n, ¬ claimed d (records_identity f) n
  end.

Definition staged_ok (s : Shared) (p : Z) (f : RecordsFile) : Prop :=
  bounded f ∧
  (∀ g, records (disk s) = Some g → records_identity g ≠ records_identity f) ∧
  (rf_generation f ∉ generations (disk s)) ∧
  (∀ g id, open_file (committer s) = Some (g, id) → g ≠ rf_generation f ∧ id ≠ records_identity f) ∧
  (∀ q r, reclaims s !! q = Some r → reclaim_generation r ≠ Some (rf_generation f)) ∧
  (∀ q r g, q ≠ p → reclaims s !! q = Some r → staged_file r = Some g →
     rf_generation g ≠ rf_generation f ∧ records_identity g ≠ records_identity f).

Record inv (s : Shared) : Prop := {
  inv_bounds : ∀ f, Some f ∈ names (disk s) → bounded f;
  inv_generations : NoDup (generations (disk s));
  inv_claims : extent_live (committer s) → ∀ id n, claimed (disk s) id n → claim_ok (disk s) id n;
  inv_committer : committer_ok (disk s) (committer s);
  inv_staged : ∀ p r f, reclaims s !! p = Some r → staged_file r = Some f → staged_ok s p f;
  inv_reclaims : extent_live (committer s) → ∀ p r, reclaims s !! p = Some r → reclaim_ok (disk s) (committer s) r;
}.

(** ** Preservation *)

(** A file after writes that lose nothing. *)
Definition grows (f f' : RecordsFile) : Prop :=
  rf_dev f' = rf_dev f ∧ rf_ino f' = rf_ino f ∧ rf_generation f' = rf_generation f ∧
  rf_synced f <= rf_synced f' ∧ zlen (rf_content f) <= zlen (rf_content f') ∧ bounded f'.

Lemma equal_identity f f' : rf_dev f' = rf_dev f → rf_ino f' = rf_ino f → records_identity f' = records_identity f.
Proof. unfold records_identity, revision_for_file. simpl. by intros -> ->. Qed.

Lemma grows_identity f f' : grows f f' → records_identity f' = records_identity f.
Proof. intros (? & ? & _). by apply equal_identity. Qed.

Lemma grows_refl f : bounded f → grows f f.
Proof. unfold grows. intros. split_and!; (done || lia). Qed.

Lemma grows_synced f : bounded f → grows f (synced_file f).
Proof. unfold grows, bounded, synced_file. simpl. intros. split_and!; (done || lia). Qed.

Lemma grows_appended now f b : bounded f → zlen (rf_content f ++ b) <= u64_max → grows f (appended_file now f b).
Proof.
  unfold grows, bounded, appended_file. simpl. rewrite zlen_app. pose proof (zlen_nonneg b).
  intros. split_and!; (done || lia).
Qed.

(** The two disks hold the same names with grown files and the same extents. *)
Definition advances (d d' : Disk) : Prop :=
  Forall2 (option_Forall2 grows) (names d) (names d') ∧
  commit_file d' = commit_file d ∧ prior_commit d' = prior_commit d.

Lemma claimed_same d d' id n :
  commit_file d' = commit_file d → prior_commit d' = prior_commit d → claimed d' id n ↔ claimed d id n.
Proof. unfold claimed, recoverable. by intros -> ->. Qed.

Lemma advances_elem d d' f' :
  advances d d' → Some f' ∈ names d' → ∃ f, Some f ∈ names d ∧ grows f f'.
Proof.
  intros (Hn & _) (i & Hi)%list_elem_of_lookup.
  destruct (Forall2_lookup_r _ _ _ _ _ Hn Hi) as (e & He & Hg).
  inversion Hg as [f f0 Hf|]; subst. exists f. split; [|done]. by eapply list_elem_of_lookup_2.
Qed.

Lemma advances_head d d' :
  advances d d' → option_Forall2 grows (records d) (records d') ∧
  Forall2 (option_Forall2 grows) (prior_records d) (prior_records d').
Proof. intros (Hn & _). unfold names in Hn. by apply Forall2_cons in Hn. Qed.

Lemma advances_head_some d d' f' :
  advances d d' → records d' = Some f' → ∃ f, records d = Some f ∧ grows f f'.
Proof.
  intros Ha E. apply advances_head in Ha as [Hh _]. rewrite E in Hh. inversion Hh; subst. eauto.
Qed.

Lemma advances_prior d d' : advances d d' → prior_records d = [] → prior_records d' = [].
Proof. intros [_ Hp]%advances_head E. rewrite E in Hp. by inversion Hp. Qed.

Lemma advances_none d d' : advances d d' → None ∈ names d' → None ∈ names d.
Proof.
  intros (Hn & _) (i & Hi)%list_elem_of_lookup.
  destruct (Forall2_lookup_r _ _ _ _ _ Hn Hi) as (e & He & Hg). inversion Hg; subst.
  by eapply list_elem_of_lookup_2.
Qed.

Lemma advances_generations d d' : advances d d' → generations d' = generations d.
Proof.
  intros (Hn & _). unfold generations. induction Hn as [|e e' l l' He _ IH]; [done|].
  inversion He as [f f' (_ & _ & Hg & _)|]; subst; simpl; [f_equal; [exact Hg|exact IH]|exact IH].
Qed.

Lemma advances_head_generation d d' : advances d d' → head_generation d' = head_generation d.
Proof.
  intros [Hh _]%advances_head. unfold head_generation.
  inversion Hh as [f f' (_ & _ & Hg & _)|]; simpl; [by rewrite Hg|done].
Qed.

Lemma advances_claims d d' id n : advances d d' → claimed d' id n ↔ claimed d id n.
Proof. intros (_ & ? & ?). by apply claimed_same. Qed.

Lemma advances_opened d d' g id claim : advances d d' → opened_ok d g id claim → opened_ok d' g id claim.
Proof.
  intros Ha (Hc & Hl & (f & Ef & Hg & Hn) & Hm). split_and!; try lia; try done.
  - destruct (advances_head d d' Ha) as [Hh _]. rewrite Ef in Hh. inversion Hh as [f0 f' Hf|]; subst.
    exists f'. split; [done|]. rewrite (grows_identity f f' Hf). split.
    + intros Ei. destruct Hf as (_ & _ & -> & _). auto.
    + intros Ei n Hcl. rewrite (advances_claims d d') in Hcl by done. by eapply Hn.
  - intros n Hcl. rewrite (advances_claims d d') in Hcl by done. auto.
Qed.

Lemma advances_committer d d' c : advances d d' → committer_ok d c → committer_ok d' c.
Proof.
  intros Ha. assert (∀ f', Some f' ∈ names d' → ∃ f, Some f ∈ names d ∧ grows f f') as He
    by (intros f' Hf'; by apply (advances_elem d d')).
  assert (None ∉ names d → None ∉ names d') as HN by (intros Hn Hn'; by apply Hn, (advances_none d d')).
  assert (∀ id, (∀ f, records d = Some f → records_identity f = id → prior_records d = []) →
    ∀ f, records d' = Some f → records_identity f = id → prior_records d' = []) as HP.
  { intros id Hp f Ef Ei. apply (advances_prior d); [done|].
    destruct (advances_head_some d d' f Ha Ef) as (f0 & E0 & G). apply (Hp f0); [done|].
    by rewrite <- (grows_identity f0 f). }
  destruct c as [|g id claim first|g id claim|g id claim| |]; simpl; try done.
  - intros (Ho & Hc & Hf). split_and!.
    + by eapply advances_opened.
    + intros f' (f & Hin & (? & ? & G & ? & ? & ?))%He Eg. specialize (Hc f Hin). lia.
    + intros E. destruct (Hf E) as (A & B & C). split_and!; [auto|..|by apply HP].
      intros f' (f & Hin & G)%He Ei. rewrite (grows_identity f f' G) in Ei.
      destruct G as (_ & _ & -> & _). auto.
  - intros (Ho & Hc). split; [by eapply advances_opened|].
    intros f' (f & Hin & (? & ? & G & ? & ? & ?))%He Eg. specialize (Hc f Hin). lia.
  - intros (Ho & A & B & C). split_and!; [by eapply advances_opened|auto|..|by apply HP].
    intros f' (f & Hin & G)%He Ei. rewrite (grows_identity f f' G) in Ei.
    specialize (B f Hin Ei). destruct G as (_ & _ & _ & ? & _). lia.
Qed.

(** Writes that lose nothing keep the invariant, whatever the committer does
    next, if that is sound for the new disk. *)
Lemma inv_advances s d' :
  inv s → advances (disk s) d' →
  inv {| disk := d'; committer := committer s; reclaims := reclaims s |}.
Proof.
  intros [I1 I2 I3 I4 I5 I6] Ha. constructor; simpl.
  - intros f' (f & _ & G)%(advances_elem _ _ _ Ha). apply G.
  - by rewrite (advances_generations _ _ Ha).
  - intros Hl id n Hcl. pose proof Hcl as Hcl'. rewrite (advances_claims _ _ _ _ Ha) in Hcl'.
    destruct (I3 Hl id n Hcl') as (A & B & C). split_and!.
    + intros Hn. by apply A, (advances_none _ _ Ha).
    + intros f' (f & Hin & G)%(advances_elem _ _ _ Ha) Ei. rewrite (grows_identity f f' G) in Ei.
      specialize (B f Hin Ei). destruct G as (_ & _ & _ & ? & _). lia.
    + intros f' (f & Ef & G)%(advances_head_some _ _ _ Ha) Ei. rewrite (grows_identity f f' G) in Ei.
      destruct (C f Ef Ei) as (Hp & m & Hm & Hle). split; [by apply (advances_prior _ _ Ha)|].
      exists m. split; [|done]. unfold synced_through. by destruct Ha as (_ & -> & _).
  - by apply (advances_committer (disk s)).
  - intros p r f Hr Hf. destruct (I5 p r f Hr Hf) as (B & A1 & A2 & A3 & A4 & A5). split_and!; simpl; try done.
    + intros g (g0 & E0 & G)%(advances_head_some _ _ _ Ha). rewrite (grows_identity g0 g G). auto.
    + by rewrite (advances_generations _ _ Ha).
  - intros Hl p r Hr Eg. rewrite (advances_head_generation _ _ Ha) in Eg. specialize (I6 Hl p r Hr Eg).
    assert (∀ id, (∃ f, records (disk s) = Some f ∧ records_identity f = id) →
                  ∃ f, records d' = Some f ∧ records_identity f = id) as HH.
    { intros id (f & Ef & Ei). destruct (advances_head _ _ Ha) as [Hh _]. rewrite Ef in Hh.
      inversion Hh as [f0 f' G|]; subst. exists f'. by rewrite (grows_identity f f' G). }
    destruct r; simpl in *; [done|..].
    + destruct I6 as [A B]. split; [|by eauto].
      intros id n Hcl. rewrite (advances_claims _ _ _ _ Ha) in Hcl. eauto.
    + intros n Hcl. rewrite (advances_claims _ _ _ _ Ha) in Hcl. by eapply I6.
Qed.

(** Writes elsewhere in the directory. *)
Lemma names_advances d d' :
  (∀ f, Some f ∈ names d → bounded f) → names d' = names d →
  commit_file d' = commit_file d → prior_commit d' = prior_commit d → advances d d'.
Proof.
  intros Hb E E1 E2. split; [|done]. rewrite E. clear E.
  induction (names d) as [|e l IH]; [constructor|]. constructor.
  - destruct e as [f|]; constructor. apply grows_refl, Hb. by left.
  - apply IH. intros f Hf. apply Hb. by right.
Qed.

Lemma sync_open_advances d g : (∀ f, Some f ∈ names d → bounded f) → advances d (sync_open d g).
Proof.
  intros Hb. split; [|done]. change (names (sync_open d g)) with (option_map (sync_if g) <$> names d).
  induction (names d) as [|e l IH]; [constructor|]. constructor; [|apply IH; intros f Hf; apply Hb; by right].
  destruct e as [f|]; constructor. unfold sync_if. specialize (Hb f ltac:(by left)).
  destruct (_ =? _); [by apply grows_synced|by apply grows_refl].
Qed.

Lemma head_advances d f f' :
  (∀ f, Some f ∈ names d → bounded f) → records d = Some f → grows f f' →
  advances d (with_records d (Some f')).
Proof.
  intros Hb Ef G. split; [|done]. unfold names. simpl. rewrite Ef. constructor; [by constructor|].
  assert (∀ f, Some f ∈ prior_records d → bounded f) as Hb' by (intros h Hh; apply Hb; by right).
  clear - Hb'. induction (prior_records d) as [|e l IH]; [constructor|]. constructor.
  - destruct e as [h|]; constructor. apply grows_refl, Hb'. by left.
  - apply IH. intros h Hh. apply Hb'. by right.
Qed.

(** *** Directory syncs *)
Lemma directory_opened d g id claim : opened_ok d g id claim → opened_ok (sync_directory d) g id claim.
Proof. done. Qed.

Lemma directory_names d e : e ∈ names (sync_directory d) → e ∈ names d.
Proof. unfold names. simpl. intros ->%list_elem_of_singleton. by left. Qed.

Lemma directory_generations d : generations (sync_directory d) `sublist_of` generations d.
Proof.
  unfold generations, names. simpl. destruct (records d); simpl; repeat constructor;
    apply sublist_nil_l.
Qed.

Lemma inv_directory s : inv s → inv {| disk := sync_directory (disk s); committer := committer s; reclaims := reclaims s |}.
Proof.
  intros [I1 I2 I3 I4 I5 I6]. constructor; simpl.
  - intros f Hf%directory_names. auto.
  - eapply sublist_NoDup; [done|apply directory_generations].
  - intros Hl id n Hcl. destruct (I3 Hl id n Hcl) as (A & B & C). split_and!.
    + intros Hn%directory_names. done.
    + intros f Hf%directory_names. auto.
    + intros f Ef Ei. destruct (C f Ef Ei) as [_ Hm]. done.
  - destruct (committer s) as [|g id claim first|g id claim|g id claim| |]; simpl in *; try done.
    + destruct I4 as (Ho & Hc & Hf). split_and!; [done|intros f Hin%directory_names; auto|].
      intros E. destruct (Hf E) as (A & B & C). split_and!; [intros Hn%directory_names; done| |done].
      intros f Hin%directory_names. auto.
    + destruct I4 as (Ho & Hc). split; [done|]. intros f Hin%directory_names. auto.
    + destruct I4 as (Ho & A & B & C). split_and!; [done|intros Hn%directory_names; done| |done].
      intros f Hin%directory_names. auto.
  - intros p r f Hr Hf. destruct (I5 p r f Hr Hf) as (B & A1 & A2 & A3 & A4 & A5). split_and!; simpl; try done.
    intros Hin. apply A2. eapply elem_of_sublist; [done|apply directory_generations].
  - intros Hl p r Hr. exact (I6 Hl p r Hr).
Qed.

(** *** The committer *)
Lemma inv_committer_change s c :
  inv s → extent_live (committer s) → committer_ok (disk s) c →
  (∀ g id, open_file c = Some (g, id) →
     (∀ p r f, reclaims s !! p = Some r → staged_file r = Some f → g ≠ rf_generation f ∧ id ≠ records_identity f) ∧
     (∀ p rv g', reclaims s !! p = Some (Forgot rv g') → g' = head_generation (disk s) →
        ∃ f, records (disk s) = Some f ∧ records_identity f = id)) →
  inv {| disk := disk s; committer := c; reclaims := reclaims s |}.
Proof.
  intros [I1 I2 I3 I4 I5 I6] Hl Hc Ho. constructor; simpl; try done.
  - auto.
  - intros p r f Hr Hf. destruct (I5 p r f Hr Hf) as (B & A1 & A2 & A3 & A4 & A5). split_and!; simpl; try done.
    intros g id E. destruct (Ho g id E) as [Hs _]. by eapply Hs.
  - intros _ p r Hr Eg. specialize (I6 Hl p r Hr Eg). destruct r as [|rv g0|]; simpl in *; try done.
    destruct I6 as [A B]. split; [done|]. intros g id E. destruct (Ho g id E) as [_ Hf]. by eapply Hf.
Qed.

(** A change of phase keeps the open file. *)
Lemma inv_phase s c :
  inv s → extent_live (committer s) → committer_ok (disk s) c → open_file c = open_file (committer s) →
  inv {| disk := disk s; committer := c; reclaims := reclaims s |}.
Proof.
  intros Hi Hl Hc Eo. apply inv_committer_change; [done..|]. intros g id E. rewrite Eo in E. split.
  - intros p r f Hr Hf. destruct (inv_staged s Hi p r f Hr Hf) as (_ & _ & _ & A & _). by apply A.
  - intros p rv g' Hr Eg. destruct (inv_reclaims s Hi Hl p _ Hr Eg) as [_ A]. by eapply A.
Qed.

Lemma generation_in d f : Some f ∈ names d → rf_generation f ∈ generations d.
Proof. intros Hf. unfold generations. apply list_elem_of_fmap. exists f. split; [done|]. apply list_elem_of_omap. eauto. Qed.

Lemma head_in d f : records d = Some f → Some f ∈ names d.
Proof. intros E. unfold names. rewrite E. by left. Qed.

(** Whoever opens the head opens no staged file. *)
Lemma inv_open_head s c g id f :
  inv s → extent_live (committer s) → records (disk s) = Some f → rf_generation f = g → records_identity f = id →
  committer_ok (disk s) c → open_file c = Some (g, id) →
  inv {| disk := disk s; committer := c; reclaims := reclaims s |}.
Proof.
  intros Hi Hl Ef Eg Ei Hc Eo. apply inv_committer_change; [done..|]. intros g' id' E. rewrite Eo in E.
  injection E as <- <-. split; [|eauto]. intros p r h Hr Hh.
  destruct (inv_staged s Hi p r h Hr Hh) as (_ & A & B & _). split; [|by rewrite <- Ei; apply A].
  intros ->. apply B. rewrite <- Eg. by apply generation_in, head_in.
Qed.

Lemma generation_unique d f g :
  NoDup (generations d) → Some f ∈ names d → Some g ∈ names d → rf_generation f = rf_generation g → f = g.
Proof.
  unfold generations. intros Hn Hf Hg E. eapply NoDup_fmap_inj; [exact Hn|..|exact E]; apply list_elem_of_omap; eauto.
Qed.

Lemma recoverable_commit d c id n : commit_file d = c → extent_of c id = Some n → claimed d id n.
Proof.
  intros E Hn. exists c. split; [|done]. unfold recoverable. rewrite E. simpl.
  destruct c; [done|]. simpl. by left.
Qed.

Lemma commit_plan_inv d id end_ f plan :
  records d = Some f → commit_plan d id end_ = Ok plan →
  match plan with
  | AlreadySynced =>
    (records_identity f = id ∧ ∃ n, synced_through d id = Some n ∧ end_ <= n) ∨
    (records_identity f ≠ id ∧ ∃ n, synced_through d (records_identity f) = Some n)
  | NameReplacement current =>
    current = records_identity f ∧ current ≠ id ∧ synced_through d current = None
  | SyncThrough claim first =>
    records_identity f = id ∧ end_ <= claim <= zlen (rf_content f) ∧
    (∀ n, synced_through d id = Some n → n < end_) ∧
    first = match synced_through d id with None => true | Some _ => false end
  end.
Proof.
  unfold commit_plan. intros Ef. rewrite Ef. case_bool_decide as Ei; cbn [negb].
  - destruct (synced_through d id) as [n|] eqn:En.
    + destruct (Z.geb_spec n end_); [intros [= <-]; left; eauto|].
      destruct (Z.ltb_spec (zlen (rf_content f)) end_); [done|]. intros [= <-].
      unfold commit_claim. split_and!; try done; [|lia|by intros ? [= <-]].
      destruct (read_transition d); [case_bool_decide|]; lia.
    + destruct (Z.ltb_spec (zlen (rf_content f)) end_); [done|]. intros [= <-].
      unfold commit_claim. split_and!; try done; [|lia].
      destruct (read_transition d); [case_bool_decide|]; lia.
  - destruct (synced_through d (records_identity f)) as [n|] eqn:En; intros [= <-]; [right; eauto|done].
Qed.

Lemma inv_begin s f id end_ claim first :
  inv s → extent_live (committer s) → records (disk s) = Some f → commit_plan (disk s) id end_ = Ok (SyncThrough claim first) → 0 <= end_ →
  inv {| disk := disk s; committer := NeedSync (rf_generation f) id claim first; reclaims := reclaims s |}.
Proof.
  intros Hi Hl Ef Hp He. destruct (commit_plan_inv _ _ _ _ _ Ef Hp) as (Ei & Hc & Hlt & Hfst).
  pose proof (inv_bounds s Hi f (head_in _ _ Ef)) as (B1 & B2).
  assert (Hcl : ∀ n, claimed (disk s) id n → prior_records (disk s) = [] ∧ n < end_).
  { intros n Hn. destruct (inv_claims s Hi Hl id n Hn) as (_ & _ & C). destruct (C f Ef Ei) as (Hpr & m & Hm & Hle).
    specialize (Hlt m Hm). split; [done|lia]. }
  apply (inv_open_head s _ (rf_generation f) id f); try done. simpl. split_and!.
  - split_and!; try lia.
    + pose proof (records_identity_array f) as [L _]%is_array_spec. by rewrite <- Ei.
    + exists f. split_and!; [done..|]. intros Hne. done.
    + intros n Hn. destruct (Hcl n Hn). lia.
  - intros h Hh Eg. rewrite (generation_unique _ h f (inv_generations s Hi) Hh (head_in _ _ Ef) Eg). lia.
  - intros ->. destruct (synced_through (disk s) id) as [n|] eqn:En; [|done].
    assert (claimed (disk s) id n) as Hn by (by eapply recoverable_commit).
    destruct (inv_claims s Hi Hl id n Hn) as (A & _ & _). destruct (Hcl n Hn) as [Hpr _]. split_and!; try done.
    intros h Hh _. unfold names in Hh. rewrite Hpr, Ef in Hh. apply list_elem_of_singleton in Hh. by injection Hh as ->.
Qed.

Lemma inv_begin_replacement s f id end_ current :
  inv s → extent_live (committer s) → records (disk s) = Some f → commit_plan (disk s) id end_ = Ok (NameReplacement current) →
  inv {| disk := disk s; committer := NeedDirectory (rf_generation f) current 0; reclaims := reclaims s |}.
Proof.
  intros Hi Hl Ef Hp. destruct (commit_plan_inv _ _ _ _ _ Ef Hp) as (Ei & _ & Hs).
  apply (inv_open_head s _ (rf_generation f) current f); try done. simpl. split.
  - split_and!; try done.
    + pose proof (records_identity_array f) as [L _]%is_array_spec. by rewrite Ei.
    + exists f. split_and!; done.
    + intros n Hn. destruct (inv_claims s Hi Hl current n Hn) as (_ & _ & C).
      destruct (C f Ef (eq_sym Ei)) as (_ & m & Hm & _). by rewrite Hs in Hm.
  - intros h Hh _. apply (inv_bounds s Hi h Hh).
Qed.

Lemma inv_sync s g id claim first :
  inv s → committer s = NeedSync g id claim first →
  inv {| disk := sync_open (disk s) g;
         committer := if first : bool then NeedDirectory g id claim else NeedPublish g id claim;
         reclaims := reclaims s |}.
Proof.
  intros Hi Ec. pose proof (sync_open_advances (disk s) g (inv_bounds s Hi)) as Ha.
  pose proof (inv_advances s _ Hi Ha) as Hi'. pose proof (inv_committer _ Hi') as Hc. simpl in Hc.
  rewrite Ec in Hc. destruct Hc as (Ho & Hlen & Hf).
  assert (Hsync : ∀ h, Some h ∈ names (sync_open (disk s) g) → rf_generation h = g → claim <= rf_synced h).
  { intros h Hh Eg. specialize (Hlen h Hh Eg).
    change (names (sync_open (disk s) g)) with (option_map (sync_if g) <$> names (disk s)) in Hh.
    apply list_elem_of_fmap in Hh as ([h0|] & E & _); [|done]. injection E as ->. unfold sync_if in *.
    destruct (Z.eqb_spec (rf_generation h0) g); simpl in *; [lia|done]. }
  apply (inv_phase _ _ Hi'); simpl; [by rewrite Ec| |rewrite Ec; by destruct first].
  destruct first; simpl; [done|]. destruct (Hf eq_refl) as (A & B & C). split_and!; try done. auto.
Qed.

Lemma inv_sync_directory s g id claim :
  inv s → committer s = NeedDirectory g id claim →
  inv {| disk := sync_directory (disk s); committer := NeedPublish g id claim; reclaims := reclaims s |}.
Proof.
  intros Hi Ec. pose proof (inv_directory s Hi) as Hi'. pose proof (inv_committer _ Hi') as Hc. simpl in Hc.
  rewrite Ec in Hc. destruct Hc as (Ho & Hs). apply (inv_phase _ _ Hi'); simpl; [by rewrite Ec| |by rewrite Ec].
  destruct Ho as (H1 & H2 & (f & Ef & Hg & Hn) & H3). split_and!; try done.
  - exact (conj H1 (conj H2 (conj (ex_intro _ f (conj Ef (conj Hg Hn))) H3))).
  - unfold names. simpl. simpl in Ef. rewrite Ef. by intros ?%list_elem_of_singleton.
  - intros h Hh Ei. unfold names in Hh. simpl in Hh, Ef. rewrite Ef in Hh.
    apply list_elem_of_singleton in Hh. injection Hh as ->. apply Hs; [|auto].
    unfold names. simpl. rewrite Ef. by left.
Qed.


Lemma recent_cons c l : c ≠ [] → recent (c :: l) = c :: recent l.
Proof. by destruct c. Qed.

Lemma extent_record_nonempty id n : length id = 32%nat → extent_record id n ≠ [].
Proof. intros Hl E. pose proof (extent_record_length id n Hl) as L. by rewrite E in L. Qed.

Lemma claimed_publish d id n id' n' :
  length id = 32%nat → 0 <= n <= u64_max →
  claimed (publish d id n) id' n' ↔ (id' = id ∧ n' = n) ∨ claimed d id' n'.
Proof.
  intros Hl Hn. unfold claimed, recoverable, publish. simpl commit_file. simpl prior_commit.
  rewrite recent_cons by by apply extent_record_nonempty. split.
  - intros (c & [->|Hc]%elem_of_cons & E); [|right; eauto].
    rewrite extent_of_record in E by done. case_bool_decide; [|done]. injection E as <-. by left.
  - intros [[-> ->]|(c & Hc & E)]; [|by exists c; split; [right|]].
    exists (extent_record id n). split; [by left|]. rewrite extent_of_record by done. by rewrite bool_decide_eq_true_2.
Qed.

Lemma inv_publish s g id claim :
  inv s → committer s = NeedPublish g id claim →
  inv {| disk := publish (disk s) id claim; committer := Idle; reclaims := reclaims s |}.
Proof.
  intros Hi Ec. pose proof (inv_committer s Hi) as Hc. rewrite Ec in Hc.
  destruct Hc as ((Hb & Hl & (h & Eh & Hg & Hne) & Hm) & HN & Hs & Hp).
  assert (extent_live (committer s)) as Hlive by by rewrite Ec.
  destruct Hi as [I1 I2 I3 I4 I5 I6]. constructor; simpl; try done.
  - intros _ id' n'. rewrite claimed_publish by done. intros Hcl.
    assert (Hst : ∀ m, synced_through (publish (disk s) id claim) id' = Some m ↔ id' = id ∧ m = claim).
    { intros m. unfold synced_through, publish. simpl commit_file. rewrite extent_of_record by done.
      case_bool_decide; split; intros Hx; [by injection Hx as <-|by destruct Hx as [_ ->]|done|by destruct Hx as [-> _]]. }
    destruct Hcl as [[-> ->]|Hcl].
    + split_and!; try done. intros f Ef Ei. split; [by eapply Hp|]. exists claim. split; [by apply Hst|lia].
    + destruct (I3 Hlive id' n' Hcl) as (A & B & C). split_and!; try done. intros f Ef Ei.
      destruct (C f Ef Ei) as (Hpr & m & Hm' & Hle). split; [done|].
      destruct (decide (id' = id)) as [->|Hid].
      * exists claim. split; [by apply Hst|]. by apply Hm.
      * simpl in Ef. rewrite Eh in Ef. injection Ef as ->. exfalso. eapply (Hne ltac:(congruence) n'). by rewrite Ei.
  - intros p r f Hr Hf. destruct (I5 p r f Hr Hf) as (B & A1 & A2 & A3 & A4 & A5). split_and!; simpl; done.
  - intros _ p r Hr Eg. pose proof (I6 Hlive p r Hr Eg) as Hr'. destruct r as [| |rv g0 f]; simpl in *; [done|..].
    + destruct Hr' as [A B]. split; [|done]. intros id' n'. rewrite claimed_publish by done.
      intros [[-> _]|Hcl]; [|eauto]. apply (B g id). by rewrite Ec.
    + intros n. rewrite claimed_publish by done. intros [[E _]|Hcl]; [|by eapply Hr'].
      destruct (I5 p _ f Hr eq_refl) as (_ & _ & _ & A3 & _). destruct (A3 g id) as [_ Hx]; [by rewrite Ec|]. congruence.
Qed.

Lemma invalidate_claims d id n : ¬ claimed (invalidate d) id n.
Proof. intros (c & Hc & _). by apply elem_of_nil in Hc. Qed.

(** Forgetting the extent is always sound. *)
Lemma inv_invalidate s c :
  inv s → open_file c = None → committer_ok (invalidate (disk s)) c →
  inv {| disk := invalidate (disk s); committer := c; reclaims := reclaims s |}.
Proof.
  intros [I1 I2 I3 I4 I5 I6] Hc0 Hc1. constructor; simpl; try done.
  - intros _ id n Hc. by apply invalidate_claims in Hc.
  - intros p r f Hr Hf. destruct (I5 p r f Hr Hf) as (B & A1 & A2 & A3 & A4 & A5). split_and!; simpl; try done.
    by rewrite Hc0.
  - intros _ p r Hr Eg. destruct r; simpl; [done|split; [|by rewrite Hc0]|]; intros; [exfalso|intros ?]; by eapply invalidate_claims.
Qed.

Lemma with_head_names d f f' : records d = Some f → rf_generation f' = rf_generation f →
  generations (with_records d (Some f')) = generations d ∧
  head_generation (with_records d (Some f')) = head_generation d.
Proof. intros E G. unfold generations, names, head_generation. simpl. rewrite E. simpl. by rewrite G. Qed.

Lemma inv_truncate s f valid_end :
  inv s → committer s = Idle → records (disk s) = Some f → 0 <= valid_end <= zlen (rf_content f) →
  (∀ synced, synced_through (disk s) (records_identity f) = Some synced → synced <= valid_end) →
  inv {| disk := truncate_records (disk s) valid_end; committer := NeedInvalidate; reclaims := reclaims s |}.
Proof.
  intros [I1 I2 I3 I4 I5 I6] Ec Ef Hv Hsync. assert (extent_live (committer s)) as Hlive by by rewrite Ec.
  unfold truncate_records. rewrite Ef. simpl.
  set (f' := truncated_file (clock (disk s)) f valid_end).
  assert (records_identity f' = records_identity f) as Ei by (by apply equal_identity).
  destruct (with_head_names (disk s) f f' Ef eq_refl) as [Eg Eh].
  assert (bounded f') as Hb'.
  { destruct (I1 f (head_in _ _ Ef)) as (B1 & B2). unfold bounded, f', truncated_file, zlen in *. simpl.
    rewrite length_take. lia. }
  constructor; simpl; try done.
  - intros h [E|Hh]%elem_of_cons; [by injection E as ->|]. apply I1. by right.
  - by rewrite Eg.
  - intros _ id n Hcl. destruct (I3 Hlive id n Hcl) as (A & B & C). split_and!.
    + intros [E|Hn]%elem_of_cons; [done|]. apply A. by right.
    + intros h [E|Hh]%elem_of_cons Ehid.
      * injection E as ->. rewrite Ei in Ehid. destruct (C f Ef Ehid) as (_ & m & Hm & Hle).
        rewrite <- Ehid in Hm. specialize (Hsync m Hm). simpl. lia.
      * apply B; [by right|done].
    + intros h Eh' Ehid. simpl in Eh'. injection Eh' as <-. rewrite Ei in Ehid. by apply (C f).
  - intros p r h Hr Hh. destruct (I5 p r h Hr Hh) as (B & A1 & A2 & A3 & A4 & A5). split_and!; simpl; try done.
    + intros g [= <-]. rewrite Ei. auto.
    + by rewrite Eg.
  - intros _ p r Hr Egen. rewrite Eh in Egen. pose proof (I6 Hlive p r Hr Egen) as Hr'. destruct r; simpl in *; [done|..|done].
    split; [|done]. intros id n Hcl. destruct Hr' as [A _]. destruct (A id n Hcl) as (h & E & Hid).
    exists f'. split; [done|]. rewrite Ei. congruence.
Qed.


(** *** The name *)
Lemma push_names d e h : h ∈ names (rename_records d e) ↔ h = e ∨ h ∈ names d.
Proof. unfold names. simpl. apply elem_of_cons. Qed.

Lemma push_generations d f : generations (rename_records d (Some f)) = rf_generation f :: generations d.
Proof. done. Qed.

(** A committer with an open file survives a new head of another identity. *)
Lemma committer_push d c f :
  committer_ok d c → (∀ n, ¬ claimed d (records_identity f) n) →
  (∀ g id, open_file c = Some (g, id) → g ≠ rf_generation f ∧ id ≠ records_identity f) →
  committer_ok (rename_records d (Some f)) c.
Proof.
  intros Hc Hn Ho.
  assert (∀ g id claim, id ≠ records_identity f → opened_ok d g id claim →
    opened_ok (rename_records d (Some f)) g id claim) as HO.
  { intros g id claim Hid (H1 & H2 & _ & H4). split_and!; try done; [lia..|].
    exists f. split_and!; [done|intros E; by destruct Hid|done]. }
  destruct c as [|g id claim first|g id claim|g id claim| |]; simpl in *; try done;
    destruct (Ho g id eq_refl) as [Hg Hid].
  - destruct Hc as (A & B & C). split_and!; [by apply HO|..].
    + intros h [E|Hh]%push_names Eg; [injection E as ->; by destruct Hg|auto].
    + intros E. destruct (C E) as (C1 & C2 & C3). split_and!.
      * intros [?|?]%push_names; done.
      * intros h [E'|Hh]%push_names Eh; [injection E' as ->; by destruct Hid|auto].
      * intros h Eh Ei. simpl in Eh. injection Eh as <-. by destruct Hid.
  - destruct Hc as (A & B). split; [by apply HO|].
    intros h [E|Hh]%push_names Eg; [injection E as ->; by destruct Hg|auto].
  - destruct Hc as (A & B & C & D). split_and!; [by apply HO|..].
    + intros [?|?]%push_names; done.
    + intros h [E'|Hh]%push_names Eh; [injection E' as ->; by destruct Hid|auto].
    + intros h Eh Ei. simpl in Eh. injection Eh as <-. by destruct Hid.
Qed.

(** A new head [f] that no extent claims, with what is still staged in [m]. *)
Lemma inv_push s f m :
  inv s → extent_live (committer s) → bounded f → rf_generation f ∉ generations (disk s) → (∀ n, ¬ claimed (disk s) (records_identity f) n) →
  (∀ id n, claimed (disk s) id n → None ∉ names (disk s)) →
  (∀ g id, open_file (committer s) = Some (g, id) → g ≠ rf_generation f ∧ id ≠ records_identity f) →
  m ⊆ reclaims s →
  (∀ p r, m !! p = Some r → reclaim_generation r ≠ Some (rf_generation f)) →
  (∀ p r g, m !! p = Some r → staged_file r = Some g →
     rf_generation g ≠ rf_generation f ∧ records_identity g ≠ records_identity f) →
  inv {| disk := rename_records (disk s) (Some f); committer := committer s; reclaims := m |}.
Proof.
  intros [I1 I2 I3 I4 I5 I6] Hl Hb Hg Hn HN Ho Hm Hrg Hst. constructor; simpl.
  - intros h [E|Hh]%push_names; [by injection E as ->|auto].
  - rewrite push_generations. by constructor.
  - intros _ id n Hcl. destruct (I3 Hl id n Hcl) as (A & B & C). split_and!.
    + intros [?|?]%push_names; done.
    + intros h [E|Hh]%push_names Ei; [|auto]. injection E as ->. subst id. by apply Hn in Hcl.
    + intros h Eh Ei. simpl in Eh. injection Eh as <-. subst id. by apply Hn in Hcl.
  - by apply committer_push.
  - intros p r h Hr Hh. destruct (I5 p r h) as (B & A1 & A2 & A3 & A4 & A5); [by eapply lookup_weaken|done|].
    destruct (Hst p r h Hr Hh) as [G1 G2]. split_and!; simpl; try done.
    + intros g [= <-]. by apply not_eq_sym.
    + rewrite push_generations. intros [E|Hin]%elem_of_cons; done.
    + intros q r' Hr'. apply (A4 q). by eapply lookup_weaken.
    + intros q r' g Hq Hr'. apply (A5 q); [done|]. by eapply lookup_weaken.
  - intros _ p r Hr Eg. simpl in Eg. by destruct (Hrg p r Hr).
Qed.

Lemma inv_replace s p revision g f :
  inv s → extent_live (committer s) → reclaims s !! p = Some (Staged revision g f) → head_generation (disk s) = g →
  inv {| disk := rename_records (disk s) (Some f); committer := committer s; reclaims := delete p (reclaims s) |}.
Proof.
  intros Hi Hl Hr Eg. destruct (inv_staged s Hi p _ f Hr eq_refl) as (B & A1 & A2 & A3 & A4 & A5).
  apply inv_push; try done.
  - exact (inv_reclaims s Hi Hl p _ Hr (eq_sym Eg)).
  - intros id n Hcl. apply (inv_claims s Hi Hl id n Hcl).
  - apply delete_subseteq.
  - intros q r [_ Hq]%lookup_delete_Some. by apply (A4 q).
  - intros q r h [Hne Hq]%lookup_delete_Some. by apply (A5 q).
Qed.

Lemma inv_create s f frame :
  inv s → extent_live (committer s) → records (disk s) = None → fresh_file s f → rf_content f = [] → zlen frame <= u64_max →
  inv {| disk := append_frame (disk s) f frame; committer := committer s; reclaims := reclaims s |}.
Proof.
  intros Hi Hlive En (B & A1 & A2 & A3 & A4 & A5) Ec Hl. unfold append_frame. rewrite En.
  set (f' := appended_file (clock (disk s)) f frame).
  assert (records_identity f' = records_identity f) as Ei by (by apply equal_identity).
  assert (∀ id n, ¬ claimed (disk s) id n) as Hn.
  { intros id n Hcl. destruct (inv_claims s Hi Hlive id n Hcl) as (A & _). apply A. unfold names. rewrite En. by left. }
  apply inv_push; try done; rewrite ?Ei; try done.
  - apply grows_appended; [done|]. by rewrite Ec.
  - intros id n Hcl. by apply Hn in Hcl.
Qed.

(** A reset holds no file open. *)
Lemma inv_reset_hold s k :
  inv s → (extent_live (Resetting k) → extent_live (committer s)) →
  inv {| disk := disk s; committer := Resetting k; reclaims := reclaims s |}.
Proof.
  intros [I1 I2 I3 I4 I5 I6] Hl. constructor; simpl; try done.
  - auto.
  - intros p r f Hr Hf. destruct (I5 p r f Hr Hf) as (B & A1 & A2 & A3 & A4 & A5). split_and!; simpl; done.
  - intros Hlive p r Hr Eg. specialize (I6 (Hl Hlive) p r Hr Eg). destruct r; simpl in *; try done.
    split; [by apply I6|done].
Qed.

(** It may remove the name: it forgets the extent before anybody appends. *)
Lemma inv_reset_unlink s :
  inv s → inv {| disk := rename_records (disk s) None; committer := Resetting 1; reclaims := reclaims s |}.
Proof.
  intros [I1 I2 I3 I4 I5 I6]. assert (¬ extent_live (Resetting 1)) as Hdead.
  { intros Hl. apply (Hl 1%nat); [done|lia]. }
  constructor; simpl; try done.
  - intros f [E|Hf]%push_names; [done|auto].
  - intros p r f Hr Hf. destruct (I5 p r f Hr Hf) as (B & A1 & A2 & A3 & A4 & A5). split_and!; simpl; done.
Qed.

Lemma inv_reset s k write :
  inv s → committer s = Resetting k → reset_writes !! k = Some write →
  inv {| disk := write (disk s); committer := Resetting (S k); reclaims := reclaims s |}.
Proof.
  intros Hi Ec Hw. pose proof (inv_bounds s Hi) as Hb.
  assert (∀ d', names d' = names (disk s) → commit_file d' = commit_file (disk s) →
    prior_commit d' = prior_commit (disk s) → (1 <= k <= 4)%nat →
    inv {| disk := d'; committer := Resetting (S k); reclaims := reclaims s |}) as Hquiet.
  { intros d' E1 E2 E3 Hk. apply (inv_reset_hold _ (S k) (inv_advances s d' Hi (names_advances _ _ Hb E1 E2 E3))).
    intros Hl. exfalso. apply (Hl (S k)); [done|lia]. }
  destruct k as [|[|[|[|[|[|[|k]]]]]]]; simpl in Hw; [injection Hw as <-..|done];
    [by apply inv_reset_unlink|by apply Hquiet; (done || lia)..| |].
  - by apply inv_invalidate.
  - apply (inv_reset_hold _ 7 (inv_directory s Hi)). simpl. rewrite Ec. intros _ k [= <-]. lia.
Qed.

Lemma survives_identity f f' : survives f f' → records_identity f' = records_identity f.
Proof. intros (? & ? & _). by apply equal_identity. Qed.

Lemma survives_synced f f' : bounded f → survives f f' → rf_synced f <= rf_synced f' ∧ bounded f'.
Proof.
  intros (B1 & B2) (_ & _ & _ & Hp & Es & Hl). apply prefix_length in Hp. unfold zlen in *.
  rewrite length_take in Hp. unfold bounded, zlen. lia.
Qed.

Lemma inv_crash s d :
  inv s → extent_live (committer s) → crashed (recoverable (disk s)) (disk s) d → inv {| disk := d; committer := Idle; reclaims := ∅ |}.
Proof.
  intros Hi Hl Hc. destruct Hc as [e e' m c checkpoint transition cursor now He Hs Hm Hcommit].
  assert (Hcl : ∀ id n, extent_of c id = Some n → claimed (disk s) id n).
  { intros id n E. destruct Hcommit as [Hin|Hnone]; [by exists c|]. by rewrite Hnone in E. }
  constructor; simpl.
  - intros f' Hf. apply list_elem_of_singleton in Hf. simpl in Hf. subst e'. destruct e as [f|]; [|done]. simpl in Hs.
    apply (survives_synced f); [by apply (inv_bounds s Hi)|done].
  - unfold generations, names. simpl. destruct e'; simpl; [apply NoDup_singleton|constructor].
  - intros _ id n (c0 & Hc0 & E). unfold recoverable in Hc0. simpl in Hc0.
    destruct (is_empty c); [by apply elem_of_nil in Hc0|]. apply list_elem_of_singleton in Hc0 as ->.
    destruct (inv_claims s Hi Hl id n (Hcl id n E)) as (A & B & C). split_and!.
    + unfold names. simpl. intros Hn. apply list_elem_of_singleton in Hn. subst e'. by destruct e.
    + intros f' Hf Ei. apply list_elem_of_singleton in Hf. simpl in Hf. subst e'. destruct e as [f|]; [|done]. simpl in Hs.
      rewrite (survives_identity f f' Hs) in Ei. specialize (B f He Ei).
      destruct (survives_synced f f' (inv_bounds s Hi f He) Hs). lia.
    + intros f' _ _. split; [done|]. exists n. split; [|lia]. done.
  - done.
  - intros p r f Hr. by rewrite lookup_empty in Hr.
  - intros _ p r Hr. by rewrite lookup_empty in Hr.
Qed.

(** *** Compactions in flight *)

(** Entering or leaving a phase that stages nothing. *)
Lemma inv_unstaged s p r :
  inv s → staged_file r = None → reclaim_ok (disk s) (committer s) r →
  (reclaim_generation r = head_generation (disk s) ∨ ∃ r0, reclaims s !! p = Some r0 ∧ reclaim_generation r = reclaim_generation r0) →
  inv {| disk := disk s; committer := committer s; reclaims := <[p := r]> (reclaims s) |}.
Proof.
  intros [I1 I2 I3 I4 I5 I6] Hn Hr Hg. constructor; simpl; try done.
  - intros q r' f [[<- <-]|[Hq Hr']]%lookup_insert_Some Hf; [congruence|].
    destruct (I5 q r' f Hr' Hf) as (B & A1 & A2 & A3 & A4 & A5). split_and!; simpl; try done.
    + intros q' r0 [[<- <-]|[Hq' Hr0]]%lookup_insert_Some; [|by apply (A4 q')].
      destruct Hg as [->|(r0 & Hr0 & ->)]; [|by apply (A4 p)].
      unfold head_generation. intros Eg. apply A2. destruct (records (disk s)) as [h|] eqn:Eh; [|done].
      simpl in Eg. injection Eg as <-. by apply generation_in, head_in.
    + intros q' r0 g Hne [[<- <-]|[Hq' Hr0]]%lookup_insert_Some; [congruence|]. by apply (A5 q').
  - intros Hl q r' [[<- <-]|[Hq Hr']]%lookup_insert_Some; [done|by apply (I6 Hl q)].
Qed.

Lemma inv_forget s p revision g :
  inv s → reclaims s !! p = Some (Observed revision g) → committer s = Idle →
  inv {| disk := forget_synced_extent (disk s); committer := Idle;
         reclaims := <[p := Forgot revision g]> (reclaims s) |}.
Proof.
  intros Hi Hr Ec. apply (inv_unstaged _ p (Forgot revision g) (inv_invalidate s Idle Hi eq_refl I)); simpl; try done.
  - intros _. simpl. split; [|done]. intros id n Hc. by apply invalidate_claims in Hc.
  - right. by exists (Observed revision g).
Qed.

Lemma inv_stage s p revision g f :
  inv s → reclaims s !! p = Some (Forgot revision g) → fresh_file s f →
  inv {| disk := disk s; committer := committer s; reclaims := <[p := Staged revision g f]> (reclaims s) |}.
Proof.
  intros [I1 I2 I3 I4 I5 I6] Hr (B & A1 & A2 & A3 & A4 & A5). constructor; simpl; try done.
  - intros q r' h [[<- <-]|[Hq Hr']]%lookup_insert_Some Hh.
    + simpl in Hh. injection Hh as <-. split_and!; simpl; try done.
      * intros q r [[<- <-]|[_ Hr0]]%lookup_insert_Some; [by apply (A4 p _ Hr)|by apply (A4 q)].
      * intros q r k Hne [[E _]|[_ Hr0]]%lookup_insert_Some; [done|by apply (A5 q)].
    + destruct (I5 q r' h Hr' Hh) as (B' & C1 & C2 & C3 & C4 & C5). split_and!; simpl; try done.
      * intros q' r [[<- <-]|[_ Hr0]]%lookup_insert_Some; [by apply (C4 p _ Hr)|by apply (C4 q')].
      * intros q' r k Hne [[<- <-]|[_ Hr0]]%lookup_insert_Some Hk; [|by apply (C5 q' r k)].
        simpl in Hk. injection Hk as <-. destruct (A5 q r' h Hr' Hh). by split; apply not_eq_sym.
  - intros Hl q r' [[<- <-]|[Hq Hr']]%lookup_insert_Some; [|by apply (I6 Hl q)]. intros Eg. simpl.
    destruct (I6 Hl p _ Hr Eg) as [A _]. intros n Hcl. destruct (A _ n Hcl) as (h & Eh & Ei). by apply (A1 h).
Qed.

Lemma inv_abandon s p :
  inv s → inv {| disk := disk s; committer := committer s; reclaims := delete p (reclaims s) |}.
Proof.
  intros [I1 I2 I3 I4 I5 I6]. constructor; simpl; try done.
  - intros q r f [_ Hr]%lookup_delete_Some Hf. destruct (I5 q r f Hr Hf) as (B & A1 & A2 & A3 & A4 & A5).
    split_and!; simpl; try done.
    + intros q' r' [_ Hr']%lookup_delete_Some. by apply (A4 q').
    + intros q' r' g Hne [_ Hr']%lookup_delete_Some. by apply (A5 q').
  - intros Hl q r [_ Hr]%lookup_delete_Some. by apply (I6 Hl q).
Qed.

Lemma fresh_initial f now : bounded f → fresh_file (initial now) f.
Proof.
  intros Hb. split_and!; [apply Hb..| |by apply not_elem_of_nil| | |]; simpl; try done;
    intros p r; by rewrite lookup_empty.
Qed.

Lemma inv_of_empty_root now : inv (initial now).
Proof.
  constructor; simpl; try done.
  - intros f Hf. by apply list_elem_of_singleton in Hf.
  - constructor.
  - intros _ id n (c & Hc & _). by apply elem_of_nil in Hc.
Qed.

Lemma lease_free_live c : lease_free c → extent_live c.
Proof. intros Hl k ->. by destruct (Hl k). Qed.

Lemma idle_live s : committer s = Idle → extent_live (committer s).
Proof. by intros -> k. Qed.

Lemma spool_step_inv s s' : inv s → spool_step Orderly s s' → inv s'.
Proof.
  intros Hi Hs. pose proof (inv_bounds s Hi) as Hb. inversion Hs; subst; clear Hs;
    try match goal with HH : lease_free _ |- _ => pose proof (lease_free_live _ HH) end;
    try match goal with HH : committer s = Idle |- _ => pose proof (idle_live _ HH) end.
  - apply inv_advances; [done|]. unfold append_frame. case_match; [|done]. simplify_eq.
    apply (head_advances _ f); [done..|]. apply grows_appended; [by apply Hb, head_in|done].
  - by apply inv_create.
  - by apply inv_advances, names_advances.
  - by apply inv_advances, names_advances.
  - by apply inv_directory.
  - by eapply inv_begin.
  - by eapply inv_begin_replacement.
  - by apply inv_sync.
  - by apply inv_sync_directory.
  - by eapply inv_publish.
  - by apply inv_invalidate.
  - by eapply inv_truncate.
  - by apply inv_invalidate.
  - by apply inv_committer_change.
  - apply inv_unstaged; try done. by left.
  - by apply inv_forget.
  - by apply inv_stage.
  - case_bool_decide; [|done]. by eapply inv_replace.
  - by apply inv_abandon.
  - by apply inv_reset_hold.
  - by eapply inv_reset.
  - by eapply inv_crash.
Qed.

Lemma reachable_inv s : reachable s → inv s.
Proof.
  intros (now & Hr). revert Hr. generalize (inv_of_empty_root now). generalize (initial now).
  intros s0 Hi Hr. induction Hr as [|x y z Hxy _ IH]; [done|]. apply IH. by eapply spool_step_inv.
Qed.


(** ** What an answered commit means *)

(** The name is durable and, if it is the file that was committed, so are its
    bytes through [end_].  A file of another identity replaced the committed one
    by a compaction. *)
Definition answered (d : Disk) (id : bytes) (end_ : Z) : Prop :=
  ∃ f, records d = Some f ∧ prior_records d = [] ∧ (records_identity f = id → end_ <= rf_synced f).

Lemma claimed_answered s f id n end_ :
  inv s → extent_live (committer s) → records (disk s) = Some f → synced_through (disk s) (records_identity f) = Some n →
  (records_identity f = id → end_ <= n) → answered (disk s) id end_.
Proof.
  intros Hi Hl Ef Hn He. assert (claimed (disk s) (records_identity f) n) as Hcl by (by eapply recoverable_commit).
  destruct (inv_claims s Hi Hl _ _ Hcl) as (_ & B & C). destruct (C f Ef eq_refl) as [Hp _].
  exists f. split_and!; [done..|]. intros Ei. specialize (B f (head_in _ _ Ef) eq_refl). specialize (He Ei). lia.
Qed.

(** Synced alone, the head is the only file of its generation. *)
Lemma sync_open_head d f :
  NoDup (generations d) → records d = Some f → sync_open d (rf_generation f) = sync_records d.
Proof.
  intros Hn Ef. unfold sync_open, sync_records, with_records. rewrite Ef. simpl. unfold sync_if at 1.
  rewrite Z.eqb_refl. f_equal. unfold generations, names in Hn. rewrite Ef in Hn. cbn in Hn.
  apply NoDup_cons in Hn as [Hn _]. induction (prior_records d) as [|e l IH]; [done|].
  cbn. destruct e as [h|]; cbn in *; [|f_equal; by apply IH]. apply not_elem_of_cons in Hn as [Hh Hn].
  rewrite IH by done. unfold sync_if. by rewrite (proj2 (Z.eqb_neq _ _)) by congruence.
Qed.

(** [commit_records] that runs alone is a run of the protocol. *)
Lemma commit_records_steps s id end_ d :
  inv s → committer s = Idle → 0 <= end_ → commit_records (disk s) id end_ = Ok d →
  rtc (spool_step Orderly) s {| disk := d; committer := Idle; reclaims := reclaims s |}.
Proof.
  intros Hi Ec He. unfold commit_records. destruct (commit_plan (disk s) id end_) as [plan|] eqn:Ep; [|done].
  intros [= <-]. assert (∃ f, records (disk s) = Some f) as [f Ef].
  { unfold commit_plan in Ep. destruct (records (disk s)); [eauto|done]. }
  destruct plan as [|current|claim first].
  - destruct s as [d c m]. simpl in *. subst c. apply rtc_refl.
  - eapply rtc_l; [by eapply step_begin_replacement|]. eapply rtc_l; [by apply step_sync_directory|].
    eapply rtc_l; [by eapply step_publish|]. apply rtc_refl.
  - rewrite <- (sync_open_head _ f (inv_generations s Hi) Ef).
    eapply rtc_l; [by eapply step_begin|]. eapply rtc_l; [by apply step_sync|]. destruct first.
    + eapply rtc_l; [by apply step_sync_directory|]. eapply rtc_l; [by eapply step_publish|]. apply rtc_refl.
    + eapply rtc_l; [by eapply step_publish|]. apply rtc_refl.
Qed.

Lemma commit_records_answered s id end_ d :
  inv s → committer s = Idle → 0 <= end_ → commit_records (disk s) id end_ = Ok d → answered d id end_.
Proof.
  intros Hi Ec He Hd. pose proof (idle_live s Ec) as Hl. pose proof (commit_records_steps s id end_ d Hi Ec He Hd) as Hr.
  assert (inv {| disk := d; committer := Idle; reclaims := reclaims s |}) as Hi'.
  { clear - Hi Hr. induction Hr as [|x y z Hxy _ IH]; [done|]. apply IH. by eapply spool_step_inv. }
  unfold commit_records in Hd. destruct (commit_plan (disk s) id end_) as [plan|] eqn:Ep; [|done].
  injection Hd as <-. assert (∃ f, records (disk s) = Some f) as [f Ef].
  { unfold commit_plan in Ep. destruct (records (disk s)); [eauto|done]. }
  pose proof (inv_bounds s Hi f (head_in _ _ Ef)) as (B1 & B2).
  pose proof (records_identity_array f) as [L _]%is_array_spec.
  pose proof (commit_plan_inv _ _ _ _ _ Ef Ep) as Hp. destruct plan as [|current|claim first].
  - destruct Hp as [[Ei (n & Hn & Hle)]|[Ei (n & Hn)]].
    + apply (claimed_answered s f id n); try done. by rewrite Ei.
    + by apply (claimed_answered s f id n).
  - destruct Hp as (Ec' & Hne & _). apply (claimed_answered _ f id 0 end_ Hi'); simpl; [done..| |].
    + unfold synced_through, publish. simpl commit_file. rewrite extent_of_record by (by rewrite ?Ec').
      by rewrite bool_decide_eq_true_2.
    + intros Ei. congruence.
  - destruct Hp as (Ei & Hc & _ & _). apply (claimed_answered _ (synced_file f) id claim end_ Hi'); simpl; [done|..].
    + destruct first; simpl; unfold sync_records, with_records; simpl; by rewrite Ef.
    + assert (records_identity (synced_file f) = id) as -> by (rewrite <- Ei; by apply equal_identity).
      unfold synced_through, publish. simpl commit_file. rewrite extent_of_record by (by rewrite <- ?Ei || lia).
      by rewrite bool_decide_eq_true_2.
    + intros _. lia.
Qed.



(** ** The excluded events *)

(** A new records file whose inode number an extent still names: its commit is
    answered without any sync, and a crash may lose the file whole. *)
Definition skips_sync (s : Shared) (f : RecordsFile) (frame : bytes) : Prop :=
  let s' := {| disk := append_frame (disk s) f frame; committer := Idle; reclaims := ∅ |} in
  spool_step Orderly s s' ∧
  commit_records (disk s') (records_identity f) (zlen frame) = Ok (disk s') ∧
  ∃ d, spool_step Orderly s' {| disk := d; committer := Idle; reclaims := ∅ |} ∧ records d = None.

Lemma reused_number_skips_sync s f frame n :
  committer s = Idle → reclaims s = ∅ → records (disk s) = None → bounded f → rf_content f = [] →
  rf_generation f ∉ generations (disk s) → synced_through (disk s) (records_identity f) = Some n →
  zlen frame <= n <= u64_max → skips_sync s f frame.
Proof.
  intros Ec Er En Hb Hf Hg Hn Hl. unfold skips_sync. cbv zeta. split_and!.
  - rewrite <- Er at 1. rewrite <- Ec at 1. apply step_create; try done; [by rewrite Ec|..|lia].
    split_and!; try apply Hb; try done; [by rewrite En|by rewrite Ec|..]; intros p r; by rewrite Er, lookup_empty.
  - simpl. unfold append_frame. rewrite En. unfold commit_records, commit_plan. simpl.
    set (g := appended_file (clock (disk s)) f frame).
    assert (records_identity g = records_identity f) as Eg by (by apply equal_identity).
    rewrite Eg, bool_decide_eq_true_2 by done. cbn [negb].
    change (synced_through (rename_records (disk s) (Some g)) (records_identity f))
      with (synced_through (disk s) (records_identity f)). rewrite Hn.
    destruct (Z.geb_spec n (zlen frame)); [done|lia].
  - eexists. split; [apply step_crash; [done|]|shelve]. simpl. unfold append_frame. rewrite En.
    apply (crash_intro _ _ None None (meta_file (disk s)) [] None None None (clock (disk s))); try done.
    + unfold names. simpl. rewrite En. right. by left.
    + by left.
    + by right.
    Unshelve. done.
Qed.

Lemma reset_prefix s k k' write :
  committer s = Resetting k → k' = S k → reset_writes !! k = Some write →
  spool_step Orderly s {| disk := write (disk s); committer := Resetting k'; reclaims := reclaims s |}.
Proof. intros Ec -> Hw. by apply step_reset. Qed.

(** The disk after a reset that ran to its end. *)
Definition reset_disk (d : Disk) : Disk := foldl (λ d write, write d) d reset_writes.

Lemma reset_completes s :
  committer s = Idle →
  rtc (spool_step Orderly) s {| disk := reset_disk (disk s); committer := Idle; reclaims := reclaims s |}.
Proof.
  intros Ec. eapply rtc_l; [by apply step_reset_begin|].
  do 7 (eapply rtc_l; [by eapply reset_prefix|]). eapply rtc_l; [apply step_release|apply rtc_refl].
  intros k [= <-]. lia.
Qed.

(** [reset] removes the records file before it forgets the extent.  From
    any spool with a synced extent, a reset that stops in between and a next
    records file of the same inode number make the commit of a frame no longer
    than the extent answer without any sync, and a crash can then lose the
    file whole. *)
Theorem interrupted_reset_skips_sync s f n f' frame :
  committer s = Idle → reclaims s = ∅ → records (disk s) = Some f →
  synced_through (disk s) (records_identity f) = Some n → zlen frame <= n <= u64_max →
  bounded f' → rf_content f' = [] → rf_generation f' ∉ generations (disk s) →
  records_identity f' = records_identity f →
  ∃ s1 s2, rtc (spool_step Orderly) s s1 ∧ spool_step InterruptedReset s1 s2 ∧ skips_sync s2 f' frame.
Proof.
  intros Ec Er Ef Hn Hl Hb Hf Hg Ei. eexists _, _. split_and!.
  - eapply rtc_l; [by apply step_reset_begin|]. apply rtc_once. by eapply (reset_prefix _ 0).
  - apply step_reset_dies. intros Hlive. apply (Hlive 1%nat); [done|lia].
  - apply (reused_number_skips_sync _ _ _ n); try done. simpl. by rewrite Ei.
Qed.

(** Nothing syncs the file of the commit lock.  After a reset that ran to
    its end, a crash may restore the extent it forgot; a next records file of
    the same inode number then takes it for its own, and the commit of a frame
    no longer than the extent answers without any sync. *)
Theorem forgotten_extent_comes_back s f n f' frame :
  committer s = Idle → reclaims s = ∅ → records (disk s) = Some f →
  synced_through (disk s) (records_identity f) = Some n → zlen frame <= n <= u64_max →
  bounded f' → rf_content f' = [] → records_identity f' = records_identity f →
  rtc (spool_step Orderly) s {| disk := reset_disk (disk s); committer := Idle; reclaims := ∅ |} ∧
  ∃ s', spool_step StaleExtent {| disk := reset_disk (disk s); committer := Idle; reclaims := ∅ |} s' ∧
    skips_sync s' f' frame.
Proof.
  intros Ec Er Ef Hn Hl Hb Hf Ei. split; [rewrite <- Er; by apply reset_completes|].
  eexists. split.
  - apply step_crash_stale. apply (crash_intro _ _ None None None (commit_file (disk s)) None None None (clock (disk s))); try done.
    + by left.
    + by left.
    + left. right. by left.
  - apply (reused_number_skips_sync _ _ _ n); try done; simpl; [apply not_elem_of_nil|by rewrite Ei].
Qed.

End protocol.

(** ** Evaluation *)
#[local] Existing Instance mixing_sha256.

(** A codec whose writer refuses: a spool without a transition file. *)
Definition no_transition_codec : TransitionCodec.
Proof.
  refine {| body_json_bytes := λ _, None; transition_to_vec := λ _, None; transition_from_slice := λ _, None |}.
  done.
Defined.

#[local] Existing Instance no_transition_codec.

Definition sample_file (g ino : Z) : RecordsFile := new_file (0, 0) 1 ino g.

Definition sample_appended : Shared :=
  {| disk := append_frame (empty_root (0, 0)) (sample_file 1 7) [10; 20; 30]; committer := Idle; reclaims := ∅ |}.

Definition sample_committed : result Disk HookSpoolError :=
  commit_records (disk sample_appended) (records_identity (sample_file 1 7)) 3.

Definition committed_disk (r : result Disk HookSpoolError) : Disk :=
  match r with Ok d => d | Err _ => empty_root (0, 0) end.

Lemma sample_committed_ok : sample_committed = Ok (committed_disk sample_committed).
Proof. vm_compute. reflexivity. Qed.

Lemma sample_appended_reachable : reachable sample_appended.
Proof.
  exists (0, 0). apply rtc_once. apply (step_create (initial (0, 0)) (sample_file 1 7) [10; 20; 30]);
    [done|reflexivity| |reflexivity|by vm_compute].
  apply fresh_initial. by vm_compute.
Qed.



Definition sample_synced : Shared :=
  {| disk := committed_disk sample_committed; committer := Idle; reclaims := ∅ |}.

Lemma interrupted_reset_skips_sync_witness :
  ∃ s1 s2, rtc (spool_step Orderly) sample_synced s1 ∧ spool_step InterruptedReset s1 s2 ∧
    skips_sync s2 (sample_file 2 7) [40; 50].
Proof.
  apply (interrupted_reset_skips_sync sample_synced
    (synced_file (appended_file (0, 0) (sample_file 1 7) [10; 20; 30])) 3 (sample_file 2 7) [40; 50]);
    try (vm_compute; reflexivity); try by vm_compute.
  change (2 ∉ [1]). by intros ?%list_elem_of_singleton.
Defined.

Lemma forgotten_extent_comes_back_witness :
  ∃ s', spool_step StaleExtent
      {| disk := reset_disk (disk sample_synced); committer := Idle; reclaims := ∅ |} s' ∧
    skips_sync s' (sample_file 2 7) [40; 50].
Proof.
  apply (forgotten_extent_comes_back sample_synced
    (synced_file (appended_file (0, 0) (sample_file 1 7) [10; 20; 30])) 3 (sample_file 2 7) [40; 50]);
    try (vm_compute; reflexivity); by vm_compute.
Defined.
