(* ===== verification/SpoolOpen.v ===== *)
(** * Opening and recovering a spool

    [HookSpoolV1::open_after_lease] of [tracedecay-hooks/src/spool/mod.rs] with
    the metadata file of [spool/meta.rs] and the replay cursor: the whole open
    as a function on the spool directory.  A trusted checkpoint spares the
    decoding of the frames it covers, a torn tail is cut, lost durable bytes
    and corruption are recorded, the sequence is carried forward and the
    checkpoint refreshed.

    An operation returns the disk it leaves with its result, also when the
    result is an error. *)
From stdpp Require Import base list numbers strings.
From S2P Require Import Prelude RustText Bytes OrdMap HookContract SpoolFrame SpoolScan SpoolMeta.
From S2P Require Import SpoolReplay SpoolCheckpoint SpoolDisk.

#[local] Open Scope Z_scope.
#[local] Open Scope rust_scope.

(** ** Operations on a directory *)
Definition io (A : Type) : Type := Disk → Disk * result A HookSpoolError.

Definition io_ret {A} (a : A) : io A := λ d, (d, Ok a).
Definition io_fail {A} (e : HookSpoolError) : io A := λ d, (d, Err e).
Definition io_lift {A} (r : result A HookSpoolError) : io A := λ d, (d, r).
Definition io_read {A} (f : Disk → A) : io A := λ d, (d, Ok (f d)).
Definition io_write (f : Disk → Disk) : io unit := λ d, (f d, Ok tt).
Definition io_bind {A B} (m : io A) (k : A → io B) : io B :=
  λ d, match m d with
       | (d, Ok a) => k a d
       | (d, Err e) => (d, Err e)
       end.

Notation "'let!' x := m 'in' k" := (io_bind m (λ x, k))
  (at level 10, x name, m at level 100, k at level 200) : rust_scope.

(** ** The metadata file *)
Definition MAX_META_BYTES : Z := 1024 * 1024.

(** [serde_json] at the metadata: [from_slice::<Value>], the version as
    [get("version").and_then(as_u64)], [from_value] and [to_vec].  The retired
    append intent is read and never written back. *)
Class MetaCodec := {
  MetaValue : Type;
  meta_from_slice : bytes → option MetaValue;
  meta_version : MetaValue → option Z;
  meta_from_value : MetaValue → option HookSpoolMetaV1;
  meta_to_vec : HookSpoolMetaV1 → option bytes;
  meta_json_nonempty : ∀ meta b, meta_to_vec meta = Some b → b ≠ [];
  meta_round_trip : ∀ meta b, meta_to_vec meta = Some b →
    retired_append_intent meta = None →
    ∃ v, meta_from_slice b = Some v ∧ meta_version v = Some (version meta) ∧
         meta_from_value v = Some meta;
}.

(** [read_bounded] of the spool: a missing file is [None], an empty or an
    oversized one an error. *)
Definition read_bounded (file : option bytes) (maximum : Z) : result (option bytes) HookSpoolError :=
  match file with
  | None => Ok None
  | Some b =>
    if (zlen b =? 0) || (zlen b >? maximum) then Err MetadataCorrupted else Ok (Some b)
  end.

Section meta.
Context `{MetaCodec}.

Definition decode_exact_meta (b : bytes) : result HookSpoolMetaV1 HookSpoolError :=
  match meta_from_slice b with
  | None => Err MetadataCorrupted
  | Some value =>
    match meta_version value with
    | None => Err (ResetRequired MetadataShape)
    | Some found =>
      if found >? u16_max then Err (ResetRequired MetadataShape)
      else if negb (found =? SPOOL_META_VERSION)
      then Err (ResetRequired (MetadataVersion found SPOOL_META_VERSION))
      else match meta_from_value value with
           | Some meta => Ok meta
           | None => Err (ResetRequired MetadataShape)
           end
    end
  end.

Definition read_meta (d : Disk) : result (option HookSpoolMetaV1) HookSpoolError :=
  let? b := read_bounded (meta_file d) MAX_META_BYTES in
  match b with
  | None => Ok None
  | Some b => let? meta := decode_exact_meta b in Ok (Some meta)
  end.

Definition encode_meta (meta : HookSpoolMetaV1) : result bytes HookSpoolError :=
  match meta_to_vec meta with
  | None => Err MetadataCorrupted
  | Some b => if zlen b >? MAX_META_BYTES then Err MetadataCorrupted else Ok b
  end.

(** The atomic write stages and syncs the bytes, renames them into place and
    syncs the directory. *)
Definition write_meta (meta : HookSpoolMetaV1) : io unit :=
  let! b := io_lift (encode_meta meta) in
  io_write (λ d, sync_directory (rename_meta d (Some b))).
End meta.

(** ** The replay cursor *)
Definition read_replay_cursor (d : Disk) : result (option bytes) HookSpoolError :=
  let? b := read_bounded (cursor_file d) 32 in
  Ok match b with Some b => if zlen b =? 32 then Some b else None | None => None end.

(** ** The handle *)
Definition CHECKPOINT_REWRITE_FRAME_THRESHOLD : Z := 64.
Definition CHECKPOINT_REWRITE_BYTE_THRESHOLD : Z := 256 * 1024.

Record HookSpoolV1 : Type := {
  s_config : HookSpoolConfigV1;
  s_lease : HookSpoolWriterLeaseV1;
  s_meta : HookSpoolMetaV1;
  s_checkpoint : option CheckpointAnchorV1;
  s_observed : option RecordsFileRevisionV1;
  s_prefix : RecordsPrefixDigestV1;
  s_pending : list PendingRecordV1;
  s_usage : usage;
  s_physical_len : Z;
  s_round_robin_after : option bytes;
  s_replay_claims : list (bytes * bytes);
  s_recovery_required : bool;
  s_uncommitted : option (bytes * Z);
}.

Record HookSpoolOpenReportV1 : Type := {
  o_pending_records : Z;
  o_pending_bytes : Z;
  o_committed_through : Z;
  o_next_sequence : Z;
  o_scanned_records : Z;
  o_checkpoint_records : Z;
  o_checkpoint_bytes : Z;
  o_checkpoint_rewritten : bool;
  o_truncated_partial_tail_bytes : Z;
  o_corrupted_at_offset : option Z;
}.

Definition with_integrity (meta : HookSpoolMetaV1) (i : SpoolIntegrityV1) : HookSpoolMetaV1 := {|
  version := version meta; committed_through := committed_through meta;
  next_sequence := next_sequence meta; acknowledged := acknowledged meta; integrity := i;
  retired_append_intent := retired_append_intent meta |}.

(** A scan whose torn tail was cut. *)
Definition cut_scan (scan : ScanResult) : ScanResult := {|
  scan_records_found := scan_records_found scan; valid_end := valid_end scan;
  physical_len := valid_end scan; scanned_records := scanned_records scan;
  partial_tail := None; corruption := corruption scan |}.

Section open.
Context `{Sha256} `{HookSpoolCodec} `{CheckpointCodec} `{TransitionCodec} `{MetaCodec}.

Definition write_checkpoint_file (config : HookSpoolConfigV1) (records : list PendingRecordV1)
    (covered : RecordsPrefixDigestV1) : io CheckpointAnchorV1 :=
  λ d, match write_checkpoint (records_file_revision d) config records covered with
       | Ok (b, anchor) =>
         (with_accelerators d (Some b) (transition_file d) (cursor_file d), Ok anchor)
       | Err e => (d, Err e)
       end.

(** Metadata may name only sequences the durable records file holds. *)
Definition write_meta_after_records (meta : HookSpoolMetaV1) : io unit :=
  let! _ := λ d, match records_file_revision d with
                 | Some revision =>
                   match commit_records d (identity revision) (length_ revision) with
                   | Ok d => (d, Ok tt)
                   | Err e => (d, Err e)
                   end
                 | None => (d, Ok tt)
                 end in
  write_meta meta.

(** The checkpoint whose revision is that of the records file, or which the
    transition file extends to it. *)
Definition revision_trusted (d : Disk) (checkpoint : option ValidatedCheckpointV1) :
    option ValidatedCheckpointV1 :=
  match checkpoint with
  | None => None
  | Some checkpoint =>
    if bool_decide (v_records_revision checkpoint = records_file_revision d) then Some checkpoint
    else match read_transition d with
    | None => None
    | Some transition =>
      if bool_decide (vt_checkpoint_checksum transition = v_checksum checkpoint)
         && bool_decide (vt_checkpoint_revision transition = v_records_revision checkpoint)
         && bool_decide (Some (vt_current_revision transition) = records_file_revision d)
         && (length_ (vt_current_revision transition) >=? covered_end checkpoint)
      then Some checkpoint else None
    end
  end.

(** The revision names the file, not its bytes: the covered digest decides. *)
Definition content_trusted (d : Disk) (checkpoint : option ValidatedCheckpointV1) :
    option ValidatedCheckpointV1 * RecordsPrefixDigestV1 :=
  match checkpoint with
  | None => (None, digest_empty)
  | Some checkpoint =>
    let read := read_through digest_empty (records_content d) (covered_end checkpoint) in
    if snd read && bool_decide (digest_checksum (fst read) = v_covered_checksum checkpoint)
    then (Some checkpoint, fst read)
    else (None, digest_empty)
  end.

(** The scan, from the covered end on when a checkpoint is trusted. *)
Definition scan_after (d : Disk) (config : HookSpoolConfigV1)
    (checkpoint : option ValidatedCheckpointV1) : result ScanResult HookSpoolError :=
  match checkpoint with
  | Some checkpoint =>
    if zlen (v_records checkpoint) >? u32_max then Err MetadataCorrupted
    else scan_records_from (records_content d) config (v_records checkpoint) (covered_end checkpoint)
  | None => scan_records (records_content d) config
  end.

(** Corruption is recorded; a torn tail is cut unless a published sync reached
    past its start.  Returns the metadata, the scan and the bytes cut. *)
Definition recover_tail (identity_ : option bytes) (meta : HookSpoolMetaV1) (scan : ScanResult) :
    io (HookSpoolMetaV1 * ScanResult * Z) :=
  match corruption scan with
  | Some offset =>
    let meta := with_integrity meta (CorruptedAt offset) in
    let! _ := write_meta meta in io_ret (meta, scan, 0)
  | None =>
    match partial_tail scan with
    | None => io_ret (meta, scan, 0)
    | Some _ =>
      let! synced := io_read (λ d, identity_ ≫= synced_through d) in
      if match synced with Some synced => synced >? valid_end scan | None => false end
      then
        let meta := with_integrity meta (CorruptedAt (valid_end scan)) in
        let! _ := write_meta meta in io_ret (meta, scan, 0)
      else
        let! _ := io_write (λ d, truncate_records d (valid_end scan)) in
        let! _ := io_write invalidate in
        io_ret (meta, cut_scan scan, sat_sub (physical_len scan) (valid_end scan))
    end
  end.

(** The refresh of the checkpoint of a healthy spool, after the sequence was
    carried forward and the metadata checked: the metadata, the anchor and
    whether the checkpoint was rewritten. *)
Definition settle_open (config : HookSpoolConfigV1) (meta_was_missing : bool)
    (meta : HookSpoolMetaV1) (scan : ScanResult) (prefix : RecordsPrefixDigestV1)
    (reusable : option CheckpointAnchorV1) :
    io (HookSpoolMetaV1 * option CheckpointAnchorV1 * bool) :=
  let suffix_bytes :=
    match reusable with
    | None => valid_end scan
    | Some anchor =>
      sat_sub (valid_end scan)
        (match anchor_records_revision anchor with Some r => length_ r | None => 0 end)
    end in
  let rewrite_checkpoint :=
    match reusable with None => true | Some _ => false end
    || (scanned_records scan >=? CHECKPOINT_REWRITE_FRAME_THRESHOLD)
    || (suffix_bytes >=? CHECKPOINT_REWRITE_BYTE_THRESHOLD) in
  match integrity meta with
  | Healthy =>
    let! meta := io_lift (advance_next_sequence meta (scan_records_found scan)) in
    let! _ := io_lift (validate_meta_against_records meta
                         (p_sequence <$> scan_records_found scan) (limits config)) in
    let! _ := if meta_was_missing then write_meta_after_records meta else io_ret tt in
    match reusable, rewrite_checkpoint with
    | Some anchor, false => io_ret (meta, Some anchor, false)
    | _, _ =>
      let! anchor := write_checkpoint_file config (scan_records_found scan) prefix in
      io_ret (meta, Some anchor, true)
    end
  | CorruptedAt _ => io_ret (meta, None, false)
  end.

Definition anchor_of (checkpoint : ValidatedCheckpointV1) : CheckpointAnchorV1 :=
  {| anchor_records_revision := v_records_revision checkpoint;
     anchor_checksum := v_checksum checkpoint |}.

Definition open_after_lease (config : HookSpoolConfigV1) (lease : HookSpoolWriterLeaseV1) :
    io (HookSpoolV1 * HookSpoolOpenReportV1) :=
  let! stored_meta := λ d, (d, read_meta d) in
  let meta_was_missing := match stored_meta with None => true | Some _ => false end in
  let meta := match stored_meta with Some meta => meta | None => fresh end in
  let! _ := io_lift (validate_meta meta (limits config)) in
  let! current_revision := io_read records_file_revision in
  let! cached := io_read (λ d, read_checkpoint (checkpoint_file d) config) in
  let! trusted := io_read (λ d, content_trusted d (revision_trusted d cached)) in
  let! scan := λ d, (d, scan_after d config (fst trusted)) in
  let! recovered := recover_tail (identity <$> current_revision) meta scan in
  let '(meta, scan, truncated) := recovered in
  let! prefix := io_read (λ d, read_through (snd trusted) (records_content d) (physical_len scan)) in
  let! _ := if snd prefix then io_ret tt else io_fail Io in
  let! settled := settle_open config meta_was_missing meta scan (fst prefix) (anchor_of <$> fst trusted) in
  let '(meta, checkpoint, rewritten) := settled in
  let! acknowledged := io_lift (acknowledged_map meta) in
  let pending := pending_of meta acknowledged (scan_records_found scan) in
  let! pending_by_session := io_lift (usage_by_session pending (limits config)) in
  let! _ := if zlen pending >? u32_max then io_fail SpoolFull else io_ret tt in
  let! round_robin := λ d, (d, read_replay_cursor d) in
  io_ret
    ({| s_config := config; s_lease := lease; s_meta := meta; s_checkpoint := checkpoint;
        s_observed := if rewritten then checkpoint ≫= anchor_records_revision else current_revision;
        s_prefix := fst prefix; s_pending := pending; s_usage := pending_by_session;
        s_physical_len := physical_len scan; s_round_robin_after := round_robin;
        s_replay_claims := []; s_recovery_required := false; s_uncommitted := None |},
     {| o_pending_records := zlen pending; o_pending_bytes := pending_bytes pending_by_session;
        o_committed_through := committed_through meta; o_next_sequence := next_sequence meta;
        o_scanned_records := scanned_records scan;
        o_checkpoint_records := match fst trusted with Some c => zlen (v_records c) | None => 0 end;
        o_checkpoint_bytes := match cached with Some c => v_bytes c | None => 0 end;
        o_checkpoint_rewritten := rewritten;
        o_truncated_partial_tail_bytes := truncated;
        o_corrupted_at_offset :=
          match integrity meta with Healthy => None | CorruptedAt offset => Some offset end |}).
End open.
