(* ===== verification/SpoolRecovery.v ===== *)
(** * What an open recovers

    The theorems about [open_after_lease]: an open through a trusted checkpoint
    finds what the full scan finds; an open after any number of appends, the
    last of them torn, returns exactly the unsettled records, cuts the torn
    tail and leaves every complete frame; lost durable bytes and corruption are
    recorded and nothing is cut; and what an empty cursor file does. *)
From stdpp Require Import base numbers strings list sorting.
From S2P Require Import Prelude RustText Bytes OrdMap HookContract SpoolFrame SpoolScan SpoolMeta.
From S2P Require Import SpoolReplay SpoolCheckpoint SpoolDisk SpoolOpen.

#[local] Open Scope Z_scope.
#[local] Open Scope rust_scope.

Section recovery.
Context `{Sha256} `{HookSpoolCodec} `{CheckpointCodec} `{TransitionCodec} `{MetaCodec}.

(** ** The scan after a checkpoint *)

(** Two scans that differ in the entries they started from, [r1] and [r2], and
    in the number of frames they decoded before. *)
Definition same_scan (r1 r2 : list PendingRecordV1) (n1 n2 : Z)
    (a b : result ScanResult HookSpoolError) : Prop :=
  match a, b with
  | Ok a, Ok b =>
    (∃ t, scan_records_found a = r1 ++ t ∧ scan_records_found b = r2 ++ t) ∧
    valid_end a = valid_end b ∧ physical_len a = physical_len b ∧
    partial_tail a = partial_tail b ∧ corruption a = corruption b ∧
    scanned_records a - n1 = scanned_records b - n2
  | Err e, Err e' => e = e'
  | _, _ => False
  end.

Lemma same_scan_app r1 r2 t n1 n2 a b :
  same_scan (r1 ++ t) (r2 ++ t) (n1 + 1) (n2 + 1) a b → same_scan r1 r2 n1 n2 a b.
Proof.
  unfold same_scan. destruct a, b; try done. intros ((u & E1 & E2) & ? & ? & ? & ? & ?).
  split_and!; try done; [|lia]. exists (t ++ u). by rewrite !app_assoc.
Qed.

Lemma scan_loop_same fuel config plen rest off r1 r2 prev n1 n2 :
  length r1 = length r2 → max_host_records (limits config) <= u32_max →
  0 <= n1 <= zlen r1 → 0 <= n2 <= zlen r2 →
  same_scan r1 r2 n1 n2 (scan_loop fuel config plen rest off r1 prev n1)
    (scan_loop fuel config plen rest off r2 prev n2).
Proof.
  revert rest off r1 r2 prev n1 n2. induction fuel as [|fuel IH]; intros rest off r1 r2 prev n1 n2 Hl Hm Hn1 Hn2; [done|].
  assert (zlen r1 = zlen r2) as Hz by (unfold zlen; by rewrite Hl).
  assert (∀ v p t c, same_scan r1 r2 n1 n2
    (Ok {| scan_records_found := r1; valid_end := v; physical_len := p; scanned_records := n1;
           partial_tail := t; corruption := c |})
    (Ok {| scan_records_found := r2; valid_end := v; physical_len := p; scanned_records := n2;
           partial_tail := t; corruption := c |})) as Hstop.
  { intros. split_and!; simpl; try done; [|lia]. exists []. by rewrite !app_nil_r. }
  cbn [scan_loop]. destruct (negb _); [apply Hstop|]. destruct (_ <? _); [apply Hstop|].
  destruct (_ || _); [apply Hstop|]. destruct (_ >? _); [apply Hstop|].
  destruct (decode_complete_frame _ _ _) as [record|e]; [|destruct e; try done; apply Hstop].
  rewrite <- Hz. destruct (_ || (zlen r1 >=? _)) eqn:E; [apply Hstop|].
  apply orb_false_iff in E as [_ E]. rewrite Z.geb_leb in E. apply Z.leb_gt in E.
  unfold checked_add. rewrite !bool_decide_eq_true_2 by lia.
  apply (same_scan_app _ _ [from_record record off]).
  apply IH; rewrite ?length_app, ?zlen_app; [by rewrite Hl|done|..]; unfold zlen at 2; simpl; lia.
Qed.

(** The loop ends before fuel that exceeds what is left of the file. *)
Lemma scan_loop_fuel k fuel config plen rest off recs prev n :
  zlen rest = plen - off → 0 <= off → plen <= u32_max → (length rest < fuel)%nat →
  scan_loop (fuel + k) config plen rest off recs prev n = scan_loop fuel config plen rest off recs prev n.
Proof.
  revert rest off recs prev n. induction fuel as [|fuel IH]; intros rest off recs prev n Hr Ho Hp Hf; [lia|].
  cbn [scan_loop Nat.add]. destruct (negb _); [done|]. case_step; [done|]. case_step; [done|]. case_step; [done|].
  set (declared := from_le_bytes (take 4 rest)) in *.
  unfold FRAME_LENGTH_BYTES, FRAME_HEADER_BYTES, FRAME_CHECKSUM_BYTES in *. bools.
  rewrite !Z.gtb_ltb, !Z.ltb_ge in *.
  destruct (decode_complete_frame _ off _) as [record|error] eqn:Hd; [|done].
  case_step; [done|]. destruct (checked_add _ _ _) as [m|]; [|done].
  pose proof (decode_framed_len _ _ _ _ Hd) as Hfl.
  assert (zlen (take (Z.to_nat (4 + declared)) rest) = 4 + declared) as Htl
    by (unfold zlen in *; rewrite length_take; lia).
  rewrite Htl in Hfl. unfold sat_add, u32_max, u64_max in *.
  apply IH; unfold zlen in *; rewrite ?length_drop; lia.
Qed.

Lemma log_records_length off l : length (log_records off l) = length l.
Proof. revert off. induction l as [|[a f] l IH]; intros off; [done|]. simpl. by rewrite IH. Qed.

Lemma log_records_sequences off l : p_sequence <$> log_records off l = (λ x, a_sequence x.1) <$> l.
Proof. revert off. induction l as [|[a f] l IH]; intros off; [done|]. cbn [log_records fmap list_fmap]. by rewrite IH. Qed.

Lemma indexed_sequences (records : list PendingRecordV1) : p_sequence <$> (indexed <$> records) = p_sequence <$> records.
Proof. rewrite <- list_fmap_compose. by apply list_fmap_ext. Qed.

(** The scan from the end of a log with the index of that log is the full scan
    with the payloads of the log left out. *)
Lemma scan_from_index config l rest :
  config_validate config = Ok tt → log_ok (host config) l →
  zlen (log_bytes l ++ rest) <= max_host_bytes (limits config) → zlen l <= max_host_records (limits config) →
  same_scan (indexed <$> log_records 0 l) (log_records 0 l) 0 (zlen l)
    (scan_records_from (Some (log_bytes l ++ rest)) config (indexed <$> log_records 0 l) (zlen (log_bytes l)))
    (scan_records (Some (log_bytes l ++ rest)) config).
Proof.
  intros Hc Hok Hb Hn. apply config_validate_bounds in Hc as (B1 & B2 & _).
  unfold MAX_SPOOL_BYTES_PER_HOST, MAX_SPOOL_RECORDS_PER_HOST in *.
  pose proof (log_frames_nonempty _ _ (proj1 Hok)). pose proof (zlen_nonneg l). pose proof (zlen_nonneg rest).
  assert (Hfull : scan_records (Some (log_bytes l ++ rest)) config =
    scan_loop (S (length rest) + (length (log_bytes l) - length l)) config (zlen (log_bytes l ++ rest)) rest
      (zlen (log_bytes l)) (log_records 0 l) ((λ x, a_sequence x.1) <$> last l) (zlen l)).
  { unfold scan_records, scan_records_from. rewrite drop_0.
    rewrite Z.gtb_ltb, (proj2 (Z.ltb_ge _ _)) by done.
    rewrite Z.gtb_ltb, (proj2 (Z.ltb_ge _ _)) by apply zlen_nonneg.
    replace (S (length (log_bytes l ++ rest))) with
      (length l + (S (length rest) + (length (log_bytes l) - length l)))%nat by (rewrite length_app; lia).
    rewrite scan_loop_log; try done; unfold u32_max; try lia. }
  rewrite Hfull. unfold scan_records_from.
  rewrite Z.gtb_ltb, (proj2 (Z.ltb_ge _ _)) by done.
  rewrite Z.gtb_ltb, (proj2 (Z.ltb_ge _ _)) by (rewrite zlen_app; lia).
  replace (Z.to_nat (zlen (log_bytes l))) with (length (log_bytes l)) by (unfold zlen; lia).
  rewrite drop_app_length.
  assert (p_sequence <$> last (indexed <$> log_records 0 l) = (λ x, a_sequence x.1) <$> last l) as ->.
  { rewrite <- !fmap_last, indexed_sequences, log_records_sequences. done. }
  set (n := (length (log_bytes l) - length l)%nat).
  assert (Hfuel : ∀ k, scan_loop (S (length rest) + k) config (zlen (log_bytes l ++ rest)) rest
    (zlen (log_bytes l)) (indexed <$> log_records 0 l) ((λ x, a_sequence x.1) <$> last l) 0 =
    scan_loop (S (length rest)) config (zlen (log_bytes l ++ rest)) rest
    (zlen (log_bytes l)) (indexed <$> log_records 0 l) ((λ x, a_sequence x.1) <$> last l) 0).
  { intros k. apply scan_loop_fuel; [rewrite zlen_app; lia|apply zlen_nonneg|unfold u32_max; lia|lia]. }
  rewrite <- (Hfuel n). apply scan_loop_same; try lia.
  - by rewrite length_fmap.
  - unfold u32_max. lia.
  - split; [lia|]. apply zlen_nonneg.
  - unfold zlen. rewrite log_records_length. lia.
Qed.

(** *** The checkpoint of a log *)
Lemma log_records_contiguous off l : contiguous off (log_records off l).
Proof. revert off. induction l as [|[a f] l IH]; intros off; [done|]. split; [done|]. apply IH. Qed.

Lemma record_checksum_array h a frame :
  appended_typed h a = true → appended_frame a = Ok frame →
  is_array 32 (drop (Z.to_nat (zlen frame - FRAME_CHECKSUM_BYTES)) frame) = true.
Proof.
  intros Ht Hf. destruct (appended_frame_inv h a frame Ht Hf) as (payload & _ & He & Hl & _).
  unfold appended_typed in Ht. bools. apply encode_frame_inv in He as (_ & _ & Hfr).
  assert (length (frame_head (FRAME_HEADER_BYTES + zlen payload + FRAME_CHECKSUM_BYTES) (a_sequence a)
    (a_queued_at a) (protected_session_id (a_envelope a)) payload) = Z.to_nat (zlen frame - FRAME_CHECKSUM_BYTES)) as Hh.
  { rewrite frame_head_length by by apply envelope_typed_session. rewrite Hl.
    unfold FRAME_OVERHEAD, FRAME_LENGTH_BYTES, FRAME_HEADER_BYTES, FRAME_CHECKSUM_BYTES, zlen. lia. }
  rewrite <- Hh, Hfr, drop_app_length. apply sha256_array.
Qed.

Lemma log_entry_typed h a frame off :
  log_entry_ok h (a, frame) → entry_typed (from_record (record_of a frame) off) = true.
Proof.
  intros [Ht Hf]. simpl in Ht, Hf. pose proof (record_checksum_array h a frame Ht Hf) as Hcs.
  destruct (appended_frame_inv h a frame Ht Hf) as (payload & _ & _ & Hl & Hp).
  unfold appended_typed, envelope_typed in Ht. bools. unfold entry_typed. simpl.
  unfold within in *. bools. unfold FRAME_OVERHEAD, FRAME_LENGTH_BYTES, FRAME_HEADER_BYTES, FRAME_CHECKSUM_BYTES,
    MAX_HOOK_PAYLOAD_BYTES, u32_max in *.
  rewrite !andb_true_iff. split_and!; try done; lia.
Qed.

Lemma log_records_typed h off l :
  Forall (log_entry_ok h) l → Forall (λ r, entry_typed r = true) (log_records off l).
Proof.
  intros Hl. revert off. induction Hl as [|[a f] l Ha _ IH]; intros off; constructor; [|apply IH].
  by eapply log_entry_typed.
Qed.

(** A checkpoint of the log whose bytes are [b]. *)
Definition checkpoint_of (config : HookSpoolConfigV1) (cp : ValidatedCheckpointV1) (b : bytes) : Prop :=
  ∃ l, log_ok (host config) l ∧ zlen l <= max_host_records (limits config) ∧ log_bytes l = b ∧
    v_records cp = indexed <$> log_records 0 l ∧ v_covered_checksum cp = sha256 b ∧ covered_end cp = zlen b.

Lemma written_checkpoint_of config revision l b anchor cp :
  log_ok (host config) l → zlen (log_bytes l) <= u64_max →
  write_checkpoint revision config (log_records 0 l) (digest_of (log_bytes l)) = Ok (b, anchor) →
  read_checkpoint (Some b) config = Some cp → checkpoint_of config cp (log_bytes l).
Proof.
  intros Hl Hb Hw Hr.
  destruct (read_written_checkpoint revision config (log_records 0 l) (digest_of (log_bytes l)) b anchor) as [E _];
    [by eapply log_records_typed, Hl|apply log_records_contiguous|done|].
  rewrite E in Hr. injection Hr as <-. unfold write_checkpoint in Hw.
  destruct (_ || _) eqn:Ev; [done|]. bools. exists l.
  match goal with H : valid_cached_records _ _ _ = true |- _ => destruct (valid_cached_records_bounds _ _ _ H) as (Hv1 & _) end.
  split_and!; try done.
  - unfold zlen in *. by rewrite log_records_length in Hv1.
  - unfold covered_end. simpl. match goal with H : (_ =? len _) = true |- _ => apply Z.eqb_eq in H; rewrite H end.
    unfold digest_of, digest_extend, sat_add. simpl. lia.
Qed.

Lemma read_through_spec self file end_ :
  0 <= len self <= end_ → end_ <= u64_max → len self <= zlen file →
  read_through self (Some file) end_ =
    ({| hasher := hasher self ++ take (Z.to_nat (end_ - len self)) (drop (Z.to_nat (len self)) file);
        len := Z.min end_ (zlen file) |}, end_ <=? zlen file).
Proof.
  intros Hl He Hf. unfold read_through. destruct (Z.leb_spec end_ (len self)) as [Hz|Hz].
  { assert (end_ = len self) as -> by lia. rewrite Z.sub_diag, take_0, app_nil_r, Z.eqb_refl.
    rewrite (proj2 (Z.leb_le _ _)), Z.min_l by lia. by destruct self. }
  rewrite read_through_loop_spec by lia. cbv zeta. f_equal.
  - f_equal. unfold zlen in *. rewrite length_take, length_drop. lia.
  - apply eq_true_iff_eq. rewrite !Z.leb_le. unfold zlen in *. rewrite length_drop. lia.
Qed.

Lemma read_through_prefix b n :
  0 <= n <= u64_max → n <= zlen b →
  read_through digest_empty (Some b) n = ({| hasher := take (Z.to_nat n) b; len := n |}, true).
Proof.
  intros Hn Hb. rewrite read_through_spec by (simpl; pose proof (zlen_nonneg b); lia).
  cbn [len hasher digest_empty]. rewrite Z.sub_0_r, drop_0, Z.min_l, (proj2 (Z.leb_le _ _)) by lia. done.
Qed.

Lemma content_trusted_inv d cp file :
  records_content d = Some file → 0 <= covered_end cp <= u64_max →
  fst (content_trusted d (Some cp)) = Some cp →
  covered_end cp <= zlen file ∧ sha256 (take (Z.to_nat (covered_end cp)) file) = v_covered_checksum cp.
Proof.
  intros Hf Hc. unfold content_trusted. rewrite Hf.
  rewrite read_through_spec by (simpl; pose proof (zlen_nonneg file); lia).
  cbn [len hasher digest_empty fst snd]. rewrite Z.sub_0_r, drop_0.
  destruct (Z.leb_spec (covered_end cp) (zlen file)); simpl; [|done]. by case_bool_decide.
Qed.

(** C9. Opening through a checkpoint is opening by a full scan. Let [b] be the
    bytes of the log a checkpoint was written for. When an open trusts the
    checkpoint for a records file, then the file starts with [b], unless two
    strings collide under SHA-256; the scan that starts after [b] from the
    index finds the same valid end, torn tail or corruption as the scan of the
    whole file, the same records past [b], and before it the same entries
    without their payloads, decoding none of their frames. *)
Theorem checkpoint_open_equals_full_scan config d file revision l written anchor cp :
  config_validate config = Ok tt → log_ok (host config) l →
  write_checkpoint revision config (log_records 0 l) (digest_of (log_bytes l)) = Ok (written, anchor) →
  read_checkpoint (Some written) config = Some cp →
  records_content d = Some file → zlen file <= max_host_bytes (limits config) →
  zlen (log_bytes l) <= u64_max →
  (sha256 (take (length (log_bytes l)) file) = sha256 (log_bytes l) →
   take (length (log_bytes l)) file = log_bytes l) →
  fst (content_trusted d (Some cp)) = Some cp →
  log_bytes l `prefix_of` file ∧
  same_scan (indexed <$> log_records 0 l) (log_records 0 l) 0 (zlen l)
    (scan_after d config (Some cp)) (scan_after d config None).
Proof.
  intros Hc Hl Hw Hr Hf Hm Hb Hcoll Ht.
  assert (E := proj1 (read_written_checkpoint revision config (log_records 0 l) (digest_of (log_bytes l)) written anchor
    (log_records_typed _ 0 l (proj1 Hl)) (log_records_contiguous 0 l) Hw)).
  assert (v_records cp = indexed <$> log_records 0 l) as Hrec by (rewrite E in Hr; by injection Hr as <-).
  assert (v_covered_checksum cp = sha256 (log_bytes l)) as Hsum by (rewrite E in Hr; by injection Hr as <-).
  destruct (written_checkpoint_of config revision l written anchor cp Hl Hb Hw Hr) as (l' & _ & Hn & _ & Hrec' & _ & Hend).
  assert (length l' = length l) as Hlen.
  { rewrite Hrec in Hrec'. apply (f_equal length) in Hrec'. by rewrite !length_fmap, !log_records_length in Hrec'. }
  pose proof (zlen_nonneg (log_bytes l)).
  destruct (content_trusted_inv d cp file Hf) as [Hle Hs]; [lia|done|].
  rewrite Hend in Hs, Hle. rewrite Hsum in Hs. unfold zlen in Hs. rewrite Nat2Z.id in Hs. specialize (Hcoll Hs).
  assert (file = log_bytes l ++ drop (length (log_bytes l)) file) as Hfile by (rewrite <- Hcoll at 1; by rewrite take_drop).
  split; [by exists (drop (length (log_bytes l)) file)|].
  unfold scan_after. rewrite Hf, Hrec, Hend. rewrite Z.gtb_ltb, (proj2 (Z.ltb_ge _ _)).
  2:{ unfold zlen in *. rewrite length_fmap, log_records_length. apply config_validate_bounds in Hc as (_ & B & _).
      unfold MAX_SPOOL_RECORDS_PER_HOST, u32_max in *. lia. }
  rewrite Hfile. apply scan_from_index; try done; [by rewrite <- Hfile|]. unfold zlen in *. lia.
Qed.
(** ** What depends on the index alone *)
Lemma advance_loop_indexed first next records :
  advance_loop first next (indexed <$> records) = advance_loop first next records.
Proof.
  revert next. induction records as [|r records IH]; intros next; [done|]. cbn [fmap list_fmap advance_loop indexed p_sequence].
  destruct (_ >=? _); [|apply IH]. destruct (negb _); [done|]. destruct (checked_add _ _ _); [apply IH|done].
Qed.

Lemma usage_loop_indexed limits records m :
  usage_loop limits (indexed <$> records) m = usage_loop limits records m.
Proof.
  revert m. induction records as [|r records IH]; intros m; [done|].
  cbn [fmap list_fmap usage_loop indexed p_session p_framed_len].
  repeat (case_step; try done); apply IH.
Qed.

Lemma pending_of_indexed meta map (records : list PendingRecordV1) :
  pending_of meta map (indexed <$> records) = indexed <$> pending_of meta map records.
Proof. unfold pending_of. rewrite filter_fmap. done. Qed.

Lemma encode_entries_indexed (records : list PendingRecordV1) :
  (indexed <$> records) ≫= encode_checkpoint_entry = records ≫= encode_checkpoint_entry.
Proof. induction records as [|r records IH]; [done|]. cbn. by rewrite IH. Qed.

Lemma write_checkpoint_indexed revision config (records : list PendingRecordV1) covered :
  write_checkpoint revision config (indexed <$> records) covered =
  write_checkpoint revision config records covered.
Proof.
  unfold write_checkpoint. rewrite valid_cached_records_indexed, encode_entries_indexed.
  unfold zlen at 1 2. rewrite length_fmap. done.
Qed.

Lemma cached_records_end_log h l off end_ prev :
  Forall (log_entry_ok h) l → StronglySorted Z.lt ((λ x, a_sequence x.1) <$> l) →
  (∀ p x, prev = Some p → x ∈ l → p < a_sequence x.1) → 0 <= end_ →
  end_ + zlen (log_bytes l) <= u64_max →
  cached_records_end (log_records off l) prev end_ = Some (end_ + zlen (log_bytes l)).
Proof.
  intros Hl. revert off end_ prev. induction Hl as [|[a f] l [Ht Hf] Hl IH]; intros off end_ prev Hs Hp Hnn Hb.
  { simpl. f_equal. change (zlen (log_bytes [])) with 0. lia. }
  cbn [fmap list_fmap] in Hs. apply StronglySorted_inv in Hs as [Hs Hlt]. rewrite log_bytes_cons, zlen_app in *.
  destruct (appended_frame_inv _ _ _ Ht Hf) as (p & _ & _ & Hlen & Hpl). simpl in Ht.
  pose proof (zlen_nonneg (log_bytes l)). pose proof (zlen_nonneg f).
  assert (1 <= a_sequence a) by (unfold appended_typed in Ht; bools; lia).
  cbn [log_records cached_records_end from_record record_of p_sequence p_framed_len sequence framed_len].
  rewrite (proj2 (Z.eqb_neq _ _)) by lia. cbn [orb].
  assert (match prev with Some s => a_sequence a <=? s | None => false end = false) as ->.
  { destruct prev as [s|]; [|done]. apply Z.leb_gt. apply (Hp s (a, f)); [done|by left]. }
  cbn [fst snd] in Hlen.
  rewrite (proj2 (Z.ltb_ge (zlen f) _)), Z.gtb_ltb, (proj2 (Z.ltb_ge _ (zlen f))) by lia. cbn [orb].
  unfold checked_add. rewrite bool_decide_eq_true_2 by lia.
  rewrite IH; [f_equal; lia|done|..|lia|lia].
  intros s x [= <-] Hx. rewrite Forall_forall in Hlt. apply Hlt, list_elem_of_fmap. eauto.
Qed.

Lemma valid_log_records config l revision :
  log_ok (host config) l → zlen l <= max_host_records (limits config) →
  max_host_records (limits config) <= MAX_SPOOL_RECORDS_PER_HOST →
  zlen (log_bytes l) <= u64_max → zlen (log_bytes l) <= max_host_bytes (limits config) →
  length_ revision = zlen (log_bytes l) →
  valid_cached_records (log_records 0 l) (Some revision) config = true.
Proof.
  intros [Hl Hs] Hn Hm Hb Hb' Hr. unfold valid_cached_records.
  assert (zlen (log_records 0 l) = zlen l) as -> by (unfold zlen; by rewrite log_records_length).
  rewrite !Z.gtb_ltb, !(proj2 (Z.ltb_ge _ _)) by lia. cbn [orb].
  rewrite (cached_records_end_log (host config) l 0 0 None) by (done || lia). rewrite Z.add_0_l, Hr, Z.eqb_refl.
  by rewrite (proj2 (Z.leb_le _ _)).
Qed.

(** ** The recovered spool *)

(** The records file after recovery: a torn tail is cut. *)
Definition recovered_file (now : Z * Z) (f : RecordsFile) (l : list (Appended * bytes)) (tail : bytes) : RecordsFile :=
  if is_empty tail then f else truncated_file now f (zlen (log_bytes l)).

(** The disk holds the log [l] with a possibly torn append after it, and healthy
    metadata that agrees with the log; a checkpoint that would be trusted
    indexes a prefix of the log, and no extent reaches into the torn frame. *)
Record spool_at (config : HookSpoolConfigV1) (d : Disk) (f : RecordsFile) (meta : HookSpoolMetaV1) (next : Z)
    (l : list (Appended * bytes)) (tail : bytes) : Prop := {
  at_config : config_validate config = Ok tt;
  at_file : records d = Some f;
  at_content : rf_content f = log_bytes l ++ tail;
  at_log : log_ok (host config) l;
  at_records : zlen l <= max_host_records (limits config);
  at_bytes : zlen (log_bytes l ++ tail) <= max_host_bytes (limits config);
  at_tail : tail = [] ∨ ∃ a frame k, log_entry_ok (host config) (a, frame) ∧
    (0 < k < length frame)%nat ∧ tail = take k frame;
  at_extent : tail ≠ [] → ∀ n, synced_through d (records_identity f) = Some n → n <= zlen (log_bytes l);
  at_meta : read_meta d = Ok (Some meta);
  at_valid : validate_meta meta (limits config) = Ok tt;
  at_healthy : integrity meta = Healthy;
  at_next : advance_next_sequence meta (log_records 0 l) = Ok (with_next_sequence meta next);
  at_cover : validate_meta_against_records (with_next_sequence meta next)
    (p_sequence <$> log_records 0 l) (limits config) = Ok tt;
  at_index : ∀ cp, fst (content_trusted d (revision_trusted d (read_checkpoint (checkpoint_file d) config))) = Some cp →
    ∃ l0 l1, l = l0 ++ l1 ∧ v_records cp = indexed <$> log_records 0 l0 ∧ covered_end cp = zlen (log_bytes l0);
  at_header : ∃ b, zlen b <= 65536 ∧ header_json_bytes {|
    h_version := CHECKPOINT_FORMAT_VERSION; h_host := host config;
    h_records_revision := Some (revision_for_file (recovered_file (clock d) f l tail));
    h_covered_checksum := sha256 (log_bytes l); h_record_count := zlen l |} = Some b;
  at_usage : ∀ map, acknowledged_map (with_next_sequence meta next) = Ok map →
    is_ok (usage_by_session (pending_of (with_next_sequence meta next) map (log_records 0 l))
      (limits config)) = true;
  at_cursor : is_ok (read_replay_cursor d) = true;
}.

Lemma log_records_app off l k :
  log_records off (l ++ k) = log_records off l ++ log_records (off + zlen (log_bytes l)) k.
Proof.
  revert off. induction l as [|[a f] l IH]; intros off.
  { simpl. change (zlen (log_bytes [])) with 0. by rewrite Z.add_0_r. }
  cbn [app log_records]. rewrite IH, log_bytes_cons, zlen_app. by rewrite Z.add_assoc.
Qed.

Lemma log_bytes_app l k : log_bytes (l ++ k) = log_bytes l ++ log_bytes k.
Proof. unfold log_bytes. by rewrite fmap_app, concat_app. Qed.

Lemma log_ok_app h l k : log_ok h (l ++ k) → log_ok h l.
Proof.
  intros [Hl Hs]. split; [by apply Forall_app in Hl as [? _]|].
  rewrite fmap_app in Hs. by apply StronglySorted_app_1_l in Hs.
Qed.

Lemma scan_log_tail config l tail :
  config_validate config = Ok tt → log_ok (host config) l →
  (tail = [] ∨ ∃ a frame k, log_entry_ok (host config) (a, frame) ∧ (0 < k < length frame)%nat ∧ tail = take k frame) →
  zlen (log_bytes l ++ tail) <= max_host_bytes (limits config) → zlen l <= max_host_records (limits config) →
  scan_records (Some (log_bytes l ++ tail)) config = Ok {|
    scan_records_found := log_records 0 l; valid_end := zlen (log_bytes l);
    physical_len := zlen (log_bytes l ++ tail); scanned_records := zlen l;
    partial_tail := if is_empty tail then None else Some tail; corruption := None |}.
Proof.
  intros Hc Hok Ht Hb Hn. apply config_validate_bounds in Hc as (B1 & B2 & _).
  unfold MAX_SPOOL_BYTES_PER_HOST, MAX_SPOOL_RECORDS_PER_HOST in *.
  destruct (scan_records_log config l tail) as [fuel ->]; unfold u32_max; try done; try lia.
  destruct Ht as [->|(a & frame & k & Ha & Hk & ->)].
  - rewrite app_nil_r. cbn [scan_loop]. by rewrite (proj2 (Z.ltb_ge _ _)) by lia.
  - rewrite (scan_loop_torn _ config _ a frame k); [|done|lia|apply zlen_app]. unfold partial_scan.
    destruct (take k frame) eqn:E; [|done]. apply (f_equal length) in E. rewrite length_take in E. simpl in E. lia.
Qed.

(** The scan of an open, whichever way it starts. *)
Lemma scan_at config d f meta next l tail :
  spool_at config d f meta next l tail →
  let trusted := content_trusted d (revision_trusted d (read_checkpoint (checkpoint_file d) config)) in
  ∃ sc, scan_after d config (fst trusted) = Ok sc ∧
    indexed <$> scan_records_found sc = indexed <$> log_records 0 l ∧
    valid_end sc = zlen (log_bytes l) ∧ physical_len sc = zlen (log_bytes l ++ tail) ∧
    partial_tail sc = (if is_empty tail then None else Some tail) ∧ corruption sc = None.
Proof.
  intros Ha trusted. destruct Ha as [Hc Hf Hct Hl Hn Hb Ht _ _ _ _ _ _ Hi _ _ _].
  assert (records_content d = Some (log_bytes l ++ tail)) as Hcont by (unfold records_content; rewrite Hf; simpl; by rewrite Hct).
  pose proof (scan_log_tail config l tail Hc Hl Ht Hb Hn) as Hfull.
  destruct (fst trusted) as [cp|] eqn:Ecp.
  - destruct (Hi cp Ecp) as (l0 & l1 & -> & Hr & He).
    unfold scan_after. rewrite Hcont, Hr, He. rewrite Z.gtb_ltb, (proj2 (Z.ltb_ge _ _)).
    2:{ unfold zlen in *. rewrite length_fmap, log_records_length. rewrite length_app in Hn.
        apply config_validate_bounds in Hc as (_ & B & _). unfold MAX_SPOOL_RECORDS_PER_HOST, u32_max in *. lia. }
    pose proof (scan_from_index config l0 (log_bytes l1 ++ tail) Hc (log_ok_app _ _ _ Hl)) as Hs.
    rewrite log_bytes_app, <- app_assoc in *. rewrite Hfull in Hs.
    destruct (scan_records_from _ _ _ _) as [sc|]; [|destruct Hs; [done|unfold zlen in *; rewrite length_app in Hn; lia]].
    destruct Hs as ((t & E1 & E2) & V & P & T & C & _); [done|unfold zlen in *; rewrite length_app in Hn; lia|].
    simpl in *. exists sc. split_and!; try done.
    rewrite E1, E2, !fmap_app. f_equal. rewrite <- list_fmap_compose. by apply list_fmap_ext.
  - unfold scan_after. rewrite Hcont, Hfull. eexists. split_and!; done.
Qed.

(** ** The open *)
Lemma io_bind_ok {A B} (m : io A) (k : A → io B) d d' a : m d = (d', Ok a) → io_bind m k d = k a d'.
Proof. unfold io_bind. by intros ->. Qed.

(** The disk once the torn tail is cut. *)
Definition recovered (d : Disk) (l : list (Appended * bytes)) (tail : bytes) : Disk :=
  if is_empty tail then d else invalidate (truncate_records d (zlen (log_bytes l))).

Lemma recovered_records d f l tail :
  records d = Some f → rf_content f = log_bytes l ++ tail →
  records (recovered d l tail) = Some (recovered_file (clock d) f l tail) ∧
  rf_content (recovered_file (clock d) f l tail) = log_bytes l ∧
  records_identity (recovered_file (clock d) f l tail) = records_identity f.
Proof.
  intros Hf Hc. unfold recovered, recovered_file. destruct tail as [|x tail]; simpl.
  { by rewrite Hf, Hc, app_nil_r. }
  unfold truncate_records. rewrite Hf. simpl. split_and!; [done| |done].
  rewrite Hc. unfold zlen. rewrite Nat2Z.id. apply take_app_length.
Qed.

Lemma recovered_members d l tail :
  meta_file (recovered d l tail) = meta_file d ∧ cursor_file (recovered d l tail) = cursor_file d ∧
  checkpoint_file (recovered d l tail) = checkpoint_file d ∧ clock (recovered d l tail) = clock d.
Proof. unfold recovered. by destruct (is_empty tail). Qed.

Lemma recover_tail_at config d f meta next l tail sc :
  spool_at config d f meta next l tail →
  valid_end sc = zlen (log_bytes l) → physical_len sc = zlen (log_bytes l ++ tail) →
  partial_tail sc = (if is_empty tail then None else Some tail) → corruption sc = None →
  recover_tail (Some (records_identity f)) meta sc d =
    (recovered d l tail, Ok (meta, if is_empty tail then sc else cut_scan sc, zlen tail)).
Proof.
  intros Ha Hv Hp Ht Hc. unfold recover_tail. rewrite Hc, Ht. unfold recovered.
  destruct tail as [|x tail]; [done|]. cbn [is_empty]. unfold io_bind, io_read, io_write, io_ret. cbn [mbind option_bind].
  pose proof (at_extent _ _ _ _ _ _ _ Ha ltac:(done)) as He.
  assert (match synced_through d (records_identity f) with Some synced => synced >? valid_end sc | None => false end = false) as ->.
  { destruct (synced_through d (records_identity f)) as [n|]; [|done]. specialize (He n eq_refl).
    rewrite Z.gtb_ltb. apply Z.ltb_ge. lia. }
  rewrite Hv, Hp. f_equal. f_equal. f_equal. rewrite zlen_app. unfold sat_sub.
  pose proof (zlen_nonneg (x :: tail)). lia.
Qed.

Lemma write_checkpoint_log config d f meta next l tail (found : list PendingRecordV1) :
  spool_at config d f meta next l tail → indexed <$> found = indexed <$> log_records 0 l →
  ∃ b anchor, write_checkpoint (records_file_revision (recovered d l tail)) config found
      {| hasher := log_bytes l; len := zlen (log_bytes l) |} = Ok (b, anchor) ∧
    anchor_records_revision anchor = records_file_revision (recovered d l tail).
Proof.
  intros Ha Hi. rewrite <- write_checkpoint_indexed, Hi, write_checkpoint_indexed.
  destruct Ha as [Hc Hf Hct Hl Hn Hb Ht _ _ _ _ _ _ _ (hb & Hhb & Hh) _ _].
  destruct (recovered_records d f l tail Hf Hct) as (Hr & Hrc & _).
  unfold records_file_revision. rewrite Hr. cbn [fmap option_fmap option_map].
  pose proof (config_validate_bounds _ Hc) as (B1 & B2 & _).
  pose proof (zlen_nonneg l). pose proof (zlen_nonneg hb). pose proof (zlen_nonneg tail). pose proof (zlen_nonneg (log_bytes l)).
  rewrite zlen_app in Hb.
  assert (zlen (log_records 0 l) = zlen l) as Lr by (unfold zlen; by rewrite log_records_length).
  assert (zlen (log_records 0 l ≫= encode_checkpoint_entry) = zlen l * 132) as Le.
  { rewrite entries_length by (eapply log_records_typed, Hl). by rewrite Lr. }
  unfold write_checkpoint. rewrite valid_log_records; try done;
    [|unfold u64_max, MAX_SPOOL_BYTES_PER_HOST in *; lia|lia|simpl; by rewrite Hrc].
  cbn [len length_ revision_for_file]. rewrite Hrc, Z.eqb_refl. cbn [negb orb].
  unfold MAX_SPOOL_RECORDS_PER_HOST, u32_max in *. rewrite Lr, Z.gtb_ltb, (proj2 (Z.ltb_ge _ _)) by lia.
  unfold digest_checksum. cbn [hasher]. rewrite Hh. rewrite Z.gtb_ltb, (proj2 (Z.ltb_ge _ _)) by lia.
  assert (zlen (to_le_bytes 4 (zlen hb)) = 4) as L4 by (unfold zlen; by rewrite to_le_bytes_length).
  rewrite Z.gtb_ltb, (proj2 (Z.ltb_ge _ _)); [eauto|].
  rewrite !zlen_app, L4, Le. unfold CHECKPOINT_HEADER_BYTES, MAX_CHECKPOINT_BYTES, MAX_SPOOL_BYTES_PER_HOST. lia.
Qed.

(** The checks and the checkpoint of a recovered spool. *)
Lemma settle_open_at config d f meta next l tail sc reusable :
  spool_at config d f meta next l tail →
  indexed <$> scan_records_found sc = indexed <$> log_records 0 l →
  ∃ d' anchor rewritten,
    settle_open config false meta sc {| hasher := log_bytes l; len := zlen (log_bytes l) |} reusable (recovered d l tail) =
      (d', Ok (with_next_sequence meta next, Some anchor, rewritten)) ∧
    records d' = records (recovered d l tail) ∧ meta_file d' = meta_file d ∧ cursor_file d' = cursor_file d ∧
    (rewritten = true → anchor_records_revision anchor = records_file_revision (recovered d l tail)) ∧
    (rewritten = false → d' = recovered d l tail ∧ ∃ a, reusable = Some a).
Proof.
  intros Ha Hi. destruct (recovered_members d l tail) as (Hm & Hcu & _).
  assert (advance_next_sequence meta (scan_records_found sc) = Ok (with_next_sequence meta next)) as Hadv.
  { unfold advance_next_sequence. rewrite <- advance_loop_indexed, Hi, advance_loop_indexed. apply (at_next _ _ _ _ _ _ _ Ha). }
  assert (p_sequence <$> scan_records_found sc = p_sequence <$> log_records 0 l) as Hseq.
  { rewrite <- indexed_sequences, Hi. apply indexed_sequences. }
  destruct (write_checkpoint_log config d f meta next l tail (scan_records_found sc) Ha Hi) as (b & anchor & Hw & Hrev).
  unfold settle_open. rewrite (at_healthy _ _ _ _ _ _ _ Ha).
  unfold io_bind, io_lift, io_ret. rewrite Hadv, Hseq, (at_cover _ _ _ _ _ _ _ Ha).
  unfold write_checkpoint_file.
  destruct reusable as [a|]; [destruct (_ || _)|]; cbv beta iota zeta; rewrite ?Hw; cbv beta iota.
  - eexists _, anchor, true. split_and!; try done.
  - eexists _, a, false. split_and!; try done. eauto.
  - eexists _, anchor, true. split_and!; try done.
Qed.

(** A handle that agrees with its disk: the log [l] and the metadata. *)
Record handle_at (config : HookSpoolConfigV1) (s : HookSpoolV1) (d : Disk) (meta : HookSpoolMetaV1)
    (l : list (Appended * bytes)) : Prop := {
  ha_config : s_config s = config;
  ha_meta : s_meta s = meta;
  ha_content : records_content d = Some (log_bytes l);
  ha_observed : s_observed s = records_file_revision d;
  ha_prefix : s_prefix s = {| hasher := log_bytes l; len := zlen (log_bytes l) |};
  ha_len : s_physical_len s = zlen (log_bytes l);
  ha_checkpoint : s_checkpoint s ≠ None;
  ha_ready : s_recovery_required s = false;
  ha_pending : ∃ map, acknowledged_map meta = Ok map ∧
    indexed <$> s_pending s = indexed <$> pending_of meta map (log_records 0 l);
  ha_usage : usage_by_session (s_pending s) (limits config) = Ok (s_usage s);
}.

Lemma cover_acknowledged meta sequences limits :
  validate_meta_against_records meta sequences limits = Ok tt → ∃ map, acknowledged_map meta = Ok map.
Proof.
  unfold validate_meta_against_records. destruct (_ <? _); [done|]. destruct (_ >? _); [done|].
  destruct (acknowledged_map meta); [eauto|done].
Qed.

Lemma open_at_log config lease d f meta next l tail :
  spool_at config d f meta next l tail →
  ∃ d' s report,
    open_after_lease config lease d = (d', Ok (s, report)) ∧
    records d' = Some (recovered_file (clock d) f l tail) ∧ meta_file d' = meta_file d ∧
    (tail = [] ∨ fst (content_trusted d (revision_trusted d (read_checkpoint (checkpoint_file d) config))) = None →
     handle_at config s d' (with_next_sequence meta next) l ∧ s_uncommitted s = None ∧ s_lease s = lease) ∧
    o_truncated_partial_tail_bytes report = zlen tail ∧ o_corrupted_at_offset report = None ∧
    o_pending_records report = zlen (s_pending s) ∧
    (∃ map, acknowledged_map (with_next_sequence meta next) = Ok map ∧
       indexed <$> s_pending s = indexed <$> pending_of (with_next_sequence meta next) map (log_records 0 l)).
Proof.
  intros Ha. pose proof Ha as [Hc Hf Hct Hl Hn Hb Ht He Hmeta Hvalid Hhealthy Hnext Hcover Hidx Hhead Husage Hcur].
  set (trusted := content_trusted d (revision_trusted d (read_checkpoint (checkpoint_file d) config))) in *.
  destruct (scan_at config d f meta next l tail Ha) as (sc & Hsc & Hfound & Hv & Hp & Hpt & Hcor). fold trusted in Hsc.
  pose proof (recover_tail_at config d f meta next l tail sc Ha Hv Hp Hpt Hcor) as Hrec.
  destruct (recovered_records d f l tail Hf Hct) as (Hr & Hrc & Hri).
  destruct (recovered_members d l tail) as (Hm & Hcu & _).
  set (sc' := if is_empty tail then sc else cut_scan sc) in *.
  assert (physical_len sc' = zlen (log_bytes l)) as Hp'.
  { unfold sc'. destruct tail; cbn [is_empty]; [by rewrite Hp, app_nil_r|]. exact Hv. }
  assert (scan_records_found sc' = scan_records_found sc) as Hf' by (unfold sc'; by destruct (is_empty tail)).
  assert (Hpre : read_through (snd trusted) (records_content (recovered d l tail)) (physical_len sc') =
    ({| hasher := log_bytes l; len := zlen (log_bytes l) |}, true)).
  { pose proof (config_validate_bounds _ Hc) as (B1 & _). rewrite zlen_app in Hb. pose proof (zlen_nonneg tail).
    pose proof (zlen_nonneg (log_bytes l)). unfold MAX_SPOOL_BYTES_PER_HOST in B1.
    rewrite Hp'. unfold records_content. rewrite Hr. cbn [fmap option_fmap option_map]. rewrite Hrc.
    assert (snd trusted = digest_empty ∨ ∃ k, snd trusted = {| hasher := take (Z.to_nat k) (log_bytes l); len := k |}
      ∧ 0 <= k <= zlen (log_bytes l)) as [->|(k & -> & Hk)].
    { unfold trusted, content_trusted in *. destruct (revision_trusted _ _) as [cp|]; [|by left].
      destruct (_ && _) eqn:Et; [|by left]. right. destruct (Hidx cp eq_refl) as (l0 & l1 & El & _ & Ece).
      exists (covered_end cp). assert (0 <= covered_end cp <= zlen (log_bytes l)) as Hce.
      { rewrite Ece, El, log_bytes_app, zlen_app. pose proof (zlen_nonneg (log_bytes l0)). pose proof (zlen_nonneg (log_bytes l1)). lia. }
      split; [|done]. unfold records_content. rewrite Hf. cbn [fmap option_fmap option_map snd fst].
      rewrite Hct, read_through_prefix by (rewrite ?zlen_app; unfold u64_max; lia). cbn [fst].
      f_equal. apply take_app_le. unfold zlen in Hce. lia. }
    - rewrite read_through_prefix by (unfold u64_max; lia). unfold zlen. rewrite Nat2Z.id. by rewrite firstn_all.
    - rewrite read_through_spec by (cbn [len]; unfold u64_max; lia). cbn [hasher len].
      rewrite Z.min_id, Z.leb_refl. f_equal. f_equal.
      replace (Z.to_nat (zlen (log_bytes l) - k)) with (length (log_bytes l) - Z.to_nat k)%nat by (unfold zlen; lia).
      rewrite <- (length_drop (log_bytes l)), firstn_all. apply take_drop. }
  destruct (settle_open_at config d f meta next l tail sc' (anchor_of <$> fst trusted) Ha) as
    (d' & anchor & rewritten & Hset & Hsr & Hsm & Hscu & Hrw & Hnr); [by rewrite Hf'|].
  destruct (cover_acknowledged _ _ _ Hcover) as [map Hmap].
  set (pending := pending_of (with_next_sequence meta next) map (scan_records_found sc)).
  assert (indexed <$> pending = indexed <$> pending_of (with_next_sequence meta next) map (log_records 0 l)) as Hpend.
  { unfold pending. by rewrite <- !pending_of_indexed, Hfound. }
  destruct (usage_by_session pending (limits config)) as [u|e] eqn:Eu.
  2:{ specialize (Husage map Hmap). unfold usage_by_session in *.
      rewrite <- usage_loop_indexed, Hpend, usage_loop_indexed in Eu. by rewrite Eu in Husage. }
  assert (zlen pending <= u32_max) as Hpl.
  { assert (length (indexed <$> pending) <= length l)%nat as Hle.
    { rewrite Hpend, length_fmap. unfold pending_of. rewrite <- (log_records_length 0 l). apply filter_length_le. }
    rewrite length_fmap in Hle. apply config_validate_bounds in Hc as (_ & B & _).
    unfold zlen, MAX_SPOOL_RECORDS_PER_HOST, u32_max in *. lia. }
  destruct (read_replay_cursor d) as [cursor|] eqn:Ecur; [|done].
  exists d'. eexists. eexists. split.
  { unfold open_after_lease.
    erewrite io_bind_ok; [|by rewrite Hmeta]. cbv beta iota zeta.
    erewrite io_bind_ok; [|unfold io_lift; by rewrite Hvalid]. erewrite io_bind_ok; [|done]. erewrite io_bind_ok; [|done].
    erewrite io_bind_ok; [|done]. fold trusted. erewrite io_bind_ok; [|by rewrite Hsc].
    unfold records_file_revision at 1. rewrite Hf. cbn [fmap option_fmap option_map]. fold (records_identity f).
    erewrite io_bind_ok; [|exact Hrec]. cbv beta iota. fold sc'.
    erewrite io_bind_ok; [|unfold io_read; by rewrite Hpre]. cbn [fst snd]. erewrite io_bind_ok; [|done].
    erewrite io_bind_ok; [|exact Hset]. cbv beta iota. erewrite io_bind_ok; [|unfold io_lift; by rewrite Hmap].
    cbv beta zeta. rewrite Hf'. fold pending. erewrite io_bind_ok; [|unfold io_lift; by rewrite Eu].
    rewrite Z.gtb_ltb, (proj2 (Z.ltb_ge _ _)) by done. erewrite io_bind_ok; [|done].
    erewrite io_bind_ok; [reflexivity|]. unfold read_replay_cursor in *. rewrite Hscu. by rewrite Ecur. }
  simpl. split_and!; try done; [by rewrite Hsr| | |eauto].
  - intros Hor. split_and!; [|done..]. constructor; simpl; try done.
    + unfold records_content. rewrite Hsr, Hr. simpl. by rewrite Hrc.
    + unfold records_file_revision in *. rewrite Hsr. destruct rewritten; [by apply Hrw|].
      rewrite Hr. cbn. destruct Hor as [->|Hno].
      * unfold recovered_file. simpl. by rewrite Hf.
      * destruct (Hnr eq_refl) as (_ & a & Hra). by rewrite Hno in Hra.
    + eauto.
  - rewrite Hhealthy. done.
Qed.


(** ** What an open keeps on any disk *)

(** The view [v] of the disk is the same after [m]. *)
Definition io_keeps {B A} (v : Disk → B) (m : io A) : Prop := ∀ d, v (fst (m d)) = v d.

Lemma keeps_bind {B A C} (v : Disk → B) (m : io A) (k : A → io C) :
  io_keeps v m → (∀ a, io_keeps v (k a)) → io_keeps v (io_bind m k).
Proof.
  intros Hm Hk d. unfold io_bind. specialize (Hm d). destruct (m d) as [d1 [a|e]]; [|done].
  by rewrite (Hk a d1).
Qed.

Lemma keeps_write {B} (v : Disk → B) g : (∀ d, v (g d) = v d) → io_keeps v (io_write g).
Proof. intros Hg d. apply Hg. Qed.

Lemma keeps_pure {B A} (v : Disk → B) (m : io A) : (∀ d, fst (m d) = d) → io_keeps v m.
Proof. intros Hm d. by rewrite Hm. Qed.

(** A view that metadata, checkpoint, extent and syncs do not change. *)
Class StableView {B} (v : Disk → B) : Prop := {
  stable_meta : ∀ d b, v (rename_meta d b) = v d;
  stable_directory : ∀ d, v (sync_directory d) = v d;
  stable_sync : ∀ d, v (sync_records d) = v d;
  stable_commit : ∀ d b, v (write_commit d b) = v d;
  stable_checkpoint : ∀ d b, v (with_accelerators d b (transition_file d) (cursor_file d)) = v d;
}.

Definition content_view (d : Disk) : option (bytes * bytes) :=
  (λ f, (records_identity f, rf_content f)) <$> records d.

#[export] Instance content_view_stable : StableView content_view.
Proof. constructor; try done. intros d. unfold content_view, sync_records. simpl. by destruct (records d). Qed.

#[export] Instance cursor_view_stable : StableView cursor_file.
Proof. by constructor. Qed.

Section stable.
Context {B : Type} (v : Disk → B) `{!StableView v}.

Lemma write_meta_keeps meta : io_keeps v (write_meta meta).
Proof.
  apply keeps_bind; [by apply keeps_pure|]. intros b. apply keeps_write. intros d.
  by rewrite stable_directory, stable_meta.
Qed.

Lemma commit_records_keeps d d' id end_ : commit_records d id end_ = Ok d' → v d' = v d.
Proof.
  unfold commit_records. destruct (commit_plan d id end_) as [[|current|claim first]|]; [..|done]; intros [= <-]; unfold publish.
  - done.
  - by rewrite stable_commit, stable_directory.
  - rewrite stable_commit. destruct first; rewrite ?stable_directory; apply stable_sync.
Qed.

Lemma write_meta_after_records_keeps meta : io_keeps v (write_meta_after_records meta).
Proof.
  apply keeps_bind; [|intros; apply write_meta_keeps]. intros d.
  destruct (records_file_revision d) as [r|]; [|done].
  destruct (commit_records _ _ _) as [d'|] eqn:E; [|done]. by apply commit_records_keeps in E.
Qed.

Lemma write_checkpoint_file_keeps config found covered : io_keeps v (write_checkpoint_file config found covered).
Proof. intros d. unfold write_checkpoint_file. destruct (write_checkpoint _ _ _ _) as [[b a]|]; [apply stable_checkpoint|done]. Qed.

Lemma settle_open_keeps config missing meta sc prefix reusable :
  io_keeps v (settle_open config missing meta sc prefix reusable).
Proof.
  unfold settle_open. destruct (integrity meta); [|by apply keeps_pure].
  apply keeps_bind; [by apply keeps_pure|]. intros meta'. apply keeps_bind; [by apply keeps_pure|]. intros _.
  apply keeps_bind; [destruct missing; [apply write_meta_after_records_keeps|by apply keeps_pure]|]. intros _.
  assert (∀ (A C : Type) (k : CheckpointAnchorV1 → io C),
    (∀ a, io_keeps v (k a)) → io_keeps v (io_bind (write_checkpoint_file config (scan_records_found sc) prefix) k)) as Hw.
  { intros _ C k Hk. apply keeps_bind; [apply write_checkpoint_file_keeps|done]. }
  destruct reusable as [a|]; [destruct (_ || _)|]; try (apply (Hw unit); by intros; apply keeps_pure); by apply keeps_pure.
Qed.

(** Everything of the open after the torn tail was looked at. *)
Lemma open_keeps config lease d :
  v (fst (open_after_lease config lease d)) = v d ∨
  ∃ meta sc, scan_after d config
      (fst (content_trusted d (revision_trusted d (read_checkpoint (checkpoint_file d) config)))) = Ok sc ∧
    v (fst (open_after_lease config lease d)) =
    v (fst (recover_tail (identity <$> records_file_revision d) meta sc d)).
Proof.
  remember (open_after_lease config lease d) as r eqn:Er. unfold open_after_lease in Er.
  unfold io_bind at 1 in Er. destruct (read_meta d) as [stored|]; [|by left; rewrite Er]. cbv zeta in Er.
  set (meta := match stored with Some meta => meta | None => fresh end) in Er.
  unfold io_bind at 1, io_lift at 1 in Er. destruct (validate_meta meta (limits config)); [|by left; rewrite Er].
  do 3 (unfold io_bind at 1, io_read at 1 in Er). cbv beta iota in Er.
  unfold io_bind at 1 in Er. destruct (scan_after d config _) as [sc|]; [|by left; rewrite Er].
  right. exists meta, sc. split; [done|]. unfold io_bind at 1 in Er. rewrite Er. clear Er r.
  destruct (recover_tail _ _ _ d) as [d1 [[[meta' sc'] cut]|]]; [|done]. cbv beta iota.
  match goal with |- v (fst (?m d1)) = _ => assert (io_keeps v m) as Hk; [|apply Hk] end.
  apply keeps_bind; [by apply keeps_pure|]. intros prefix.
  apply keeps_bind; [apply keeps_pure; by destruct (snd prefix)|]. intros _.
  apply keeps_bind; [apply settle_open_keeps|]. intros [[meta'' ck] rw].
  apply keeps_bind; [by apply keeps_pure|]. intros map. cbv zeta.
  apply keeps_bind; [by apply keeps_pure|]. intros u.
  apply keeps_bind; [apply keeps_pure; by destruct (_ >? _)|]. intros _.
  apply keeps_bind; [by apply keeps_pure|]. intros rr. by apply keeps_pure.
Qed.
End stable.

(** C8. Whatever bytes a spool directory holds, an open loses nothing that a
    completed sync covered: the records file keeps its identity, it is changed
    at most by cutting a torn tail that the scan found, and never below the
    extent published for it; also when the open fails. *)
Theorem open_never_cuts_synced_bytes config lease d f :
  records d = Some f →
  ∃ f', records (fst (open_after_lease config lease d)) = Some f' ∧
    records_identity f' = records_identity f ∧
    (rf_content f' = rf_content f ∨
     ∃ sc tail, scan_after d config
         (fst (content_trusted d (revision_trusted d (read_checkpoint (checkpoint_file d) config)))) = Ok sc ∧
       partial_tail sc = Some tail ∧ rf_content f' = take (Z.to_nat (valid_end sc)) (rf_content f) ∧
       ∀ n, synced_through d (records_identity f) = Some n → n <= valid_end sc).
Proof.
  intros Hf.
  assert (∀ d', content_view d' = content_view d → ∃ f', records d' = Some f' ∧
    records_identity f' = records_identity f ∧ rf_content f' = rf_content f) as Hsame.
  { intros d' E. unfold content_view in E. rewrite Hf in E. destruct (records d') as [f'|]; [|done].
    simpl in E. injection E as E1 E2. eauto. }
  destruct (open_keeps content_view config lease d) as [E|(meta & sc & Hsc & E)].
  { destruct (Hsame _ E) as (f' & A & B & C). exists f'. split_and!; [done..|]. by left. }
  unfold recover_tail in E. unfold records_file_revision in E. rewrite Hf in E.
  cbn [fmap option_fmap option_map] in E. fold (records_identity f) in E.
  assert (∀ meta, io_keeps content_view (let! _ := write_meta meta in io_ret (meta, sc, 0))) as Hw.
  { intros m. apply keeps_bind; [apply (write_meta_keeps content_view)|]. intros. by apply keeps_pure. }
  destruct (corruption sc) as [off|].
  { rewrite (Hw _ d) in E. destruct (Hsame _ E) as (f' & A & B & C). exists f'. split_and!; [done..|]. by left. }
  destruct (partial_tail sc) as [tail|] eqn:Et.
  2:{ destruct (Hsame _ E) as (f' & A & B & C). exists f'. split_and!; [done..|]. by left. }
  unfold io_bind at 1, io_read at 1 in E. cbn [mbind option_bind] in E. cbv beta iota in E.
  destruct (match synced_through d (records_identity f) with Some synced => synced >? valid_end sc | None => false end) eqn:Es.
  { rewrite (Hw _ d) in E. destruct (Hsame _ E) as (f' & A & B & C). exists f'. split_and!; [done..|]. by left. }
  assert (content_view (fst (open_after_lease config lease d)) =
    Some (records_identity f, take (Z.to_nat (valid_end sc)) (rf_content f))) as E'.
  { rewrite E. unfold io_bind, io_write, io_ret. simpl. unfold content_view, truncate_records. simpl. rewrite Hf. done. }
  unfold content_view in E'. destruct (records (fst (open_after_lease config lease d))) as [f'|] eqn:Ef'; [|done]. injection E' as E1 E2.
  exists f'. split_and!; [done..|]. right. exists sc, tail. split_and!; try done.
  intros n Hn. rewrite Hn, Z.gtb_ltb in Es. by apply Z.ltb_ge in Es.
Qed.

(** C35. The replay cursor is documented as an accelerator whose torn file
    restarts the rotation.  A cursor file that a crash left empty, the usual
    remains of an unsynced rename, is not ignored: no open of the spool
    succeeds any more, and the failed open leaves the file. *)
Theorem empty_cursor_blocks_every_open config lease d :
  cursor_file d = Some [] →
  is_err (snd (open_after_lease config lease d)) = true ∧
  cursor_file (fst (open_after_lease config lease d)) = Some [].
Proof.
  intros Hc.
  assert (Hrt : ∀ i meta sc, io_keeps cursor_file (recover_tail i meta sc)).
  { intros i meta sc. unfold recover_tail.
    assert (∀ m, io_keeps cursor_file (let! _ := write_meta m in io_ret (m, sc, 0))) as Hw.
    { intros m. apply keeps_bind; [apply (write_meta_keeps cursor_file)|]. intros. by apply keeps_pure. }
    destruct (corruption sc); [apply Hw|]. destruct (partial_tail sc); [|by apply keeps_pure].
    apply keeps_bind; [by apply keeps_pure|]. intros synced.
    match goal with |- io_keeps _ (if ?b then _ else _) => destruct b end; [apply Hw|].
    apply keeps_bind; [by apply keeps_write|]. intros _. apply keeps_bind; [by apply keeps_write|]. intros _. by apply keeps_pure. }
  split.
  2:{ destruct (open_keeps cursor_file config lease d) as [->|(meta & sc & _ & ->)]; [done|]. by rewrite Hrt. }
  unfold open_after_lease.
  assert (Hbind : ∀ {A C} (m : io A) (k : A → io C),
    io_keeps cursor_file m → (∀ a d, cursor_file d = Some [] → is_err (snd (k a d)) = true) →
    ∀ d, cursor_file d = Some [] → is_err (snd (io_bind m k d)) = true).
  { intros A C m k Hm Hk d0 H0'. unfold io_bind. specialize (Hm d0). destruct (m d0) as [d1 [a|e]]; [|done].
    apply Hk. by rewrite <- H0'. }
  revert d Hc. apply Hbind; [by apply keeps_pure|]. intros stored. cbv zeta.
  apply Hbind; [by apply keeps_pure|]. intros _. apply Hbind; [by apply keeps_pure|]. intros rev.
  apply Hbind; [by apply keeps_pure|]. intros cached. apply Hbind; [by apply keeps_pure|]. intros trusted.
  apply Hbind; [by apply keeps_pure|]. intros sc. apply Hbind; [apply Hrt|]. intros [[meta' sc'] cut].
  apply Hbind; [by apply keeps_pure|]. intros prefix. apply Hbind; [apply keeps_pure; by destruct (snd prefix)|]. intros _.
  apply Hbind; [apply (settle_open_keeps cursor_file)|]. intros [[meta'' ck] rw].
  apply Hbind; [by apply keeps_pure|]. intros map. apply Hbind; [by apply keeps_pure|]. intros u.
  apply Hbind; [apply keeps_pure; by destruct (_ >? _)|]. intros _ d Hc.
  unfold io_bind, read_replay_cursor. rewrite Hc. done.
Qed.

End recovery.
