(* ===== verification/SpoolHandle.v ===== *)
(** * The spool handle

    The operations of [HookSpoolV1] in [tracedecay-hooks/src/spool/mod.rs] on
    an open handle and its directory: append, prepare, commit, hydration,
    settlement, publication of the metadata, and the compaction.  The state of
    an operation is the handle and the disk.

    A durability barrier runs with the writer lease released.  What other
    processes do to the directory meanwhile is the argument [Window] of the
    operation, a function on disks before and after the barrier; the locks are
    granted within their budgets. *)
From stdpp Require Import base list numbers strings.
From S2P Require Import Prelude RustText Bytes OrdMap HookContract SpoolFrame SpoolScan SpoolMeta.
From S2P Require Import SpoolReplay SpoolCheckpoint SpoolDisk SpoolOpen.

#[local] Open Scope Z_scope.
#[local] Open Scope rust_scope.

(** ** Operations on a handle *)
Definition op (A : Type) : Type := HookSpoolV1 * Disk → HookSpoolV1 * Disk * result A HookSpoolError.

Definition op_ret {A} (a : A) : op A := λ st, (st, Ok a).
Definition op_fail {A} (e : HookSpoolError) : op A := λ st, (st, Err e).
Definition op_bind {A B} (m : op A) (k : A → op B) : op B :=
  λ st, match m st with
        | (st, Ok a) => k a st
        | (st, Err e) => (st, Err e)
        end.
Definition op_get : op HookSpoolV1 := λ st, (st, Ok (fst st)).
Definition op_set (f : HookSpoolV1 → HookSpoolV1) : op unit := λ st, ((f (fst st), snd st), Ok tt).
Definition op_lift {A} (r : result A HookSpoolError) : op A := λ st, (st, r).
Definition op_io {A} (m : io A) : op A :=
  λ st, let '(d, r) := m (snd st) in ((fst st, d), r).
(** The result itself, so that a failure can be handled. *)
Definition op_try {A} (m : op A) : op (result A HookSpoolError) :=
  λ st, let '(st, r) := m st in (st, Ok r).

Notation "'let*' x := m 'in' k" := (op_bind m (λ x, k))
  (at level 10, x name, m at level 100, k at level 200) : rust_scope.

(** Field updates of the handle. *)
Definition with_recovery_required (s : HookSpoolV1) : HookSpoolV1 := {|
  s_config := s_config s; s_lease := s_lease s; s_meta := s_meta s; s_checkpoint := s_checkpoint s;
  s_observed := s_observed s; s_prefix := s_prefix s; s_pending := s_pending s; s_usage := s_usage s;
  s_physical_len := s_physical_len s; s_round_robin_after := s_round_robin_after s;
  s_replay_claims := s_replay_claims s; s_recovery_required := true;
  s_uncommitted := s_uncommitted s |}.

Definition with_uncommitted (s : HookSpoolV1) (u : option (bytes * Z)) : HookSpoolV1 := {|
  s_config := s_config s; s_lease := s_lease s; s_meta := s_meta s; s_checkpoint := s_checkpoint s;
  s_observed := s_observed s; s_prefix := s_prefix s; s_pending := s_pending s; s_usage := s_usage s;
  s_physical_len := s_physical_len s; s_round_robin_after := s_round_robin_after s;
  s_replay_claims := s_replay_claims s; s_recovery_required := s_recovery_required s;
  s_uncommitted := u |}.

Definition with_observed (s : HookSpoolV1) (r : option RecordsFileRevisionV1) : HookSpoolV1 := {|
  s_config := s_config s; s_lease := s_lease s; s_meta := s_meta s; s_checkpoint := s_checkpoint s;
  s_observed := r; s_prefix := s_prefix s; s_pending := s_pending s; s_usage := s_usage s;
  s_physical_len := s_physical_len s; s_round_robin_after := s_round_robin_after s;
  s_replay_claims := s_replay_claims s; s_recovery_required := s_recovery_required s;
  s_uncommitted := s_uncommitted s |}.

Definition with_pending (s : HookSpoolV1) (pending : list PendingRecordV1) (u : usage) : HookSpoolV1 := {|
  s_config := s_config s; s_lease := s_lease s; s_meta := s_meta s; s_checkpoint := s_checkpoint s;
  s_observed := s_observed s; s_prefix := s_prefix s; s_pending := pending; s_usage := u;
  s_physical_len := s_physical_len s; s_round_robin_after := s_round_robin_after s;
  s_replay_claims := s_replay_claims s; s_recovery_required := s_recovery_required s;
  s_uncommitted := s_uncommitted s |}.

(** The handle after its frame was written: digest, sequence and length. *)
Definition with_frame (s : HookSpoolV1) (prefix : RecordsPrefixDigestV1) (meta : HookSpoolMetaV1)
    (len : Z) : HookSpoolV1 := {|
  s_config := s_config s; s_lease := s_lease s; s_meta := meta; s_checkpoint := s_checkpoint s;
  s_observed := s_observed s; s_prefix := prefix; s_pending := s_pending s; s_usage := s_usage s;
  s_physical_len := len; s_round_robin_after := s_round_robin_after s;
  s_replay_claims := s_replay_claims s; s_recovery_required := s_recovery_required s;
  s_uncommitted := s_uncommitted s |}.

Definition with_compacted (s : HookSpoolV1) (pending : list PendingRecordV1)
    (checkpoint : CheckpointAnchorV1) (prefix : RecordsPrefixDigestV1) (len : Z) : HookSpoolV1 := {|
  s_config := s_config s; s_lease := s_lease s; s_meta := s_meta s; s_checkpoint := Some checkpoint;
  s_observed := anchor_records_revision checkpoint; s_prefix := prefix; s_pending := pending;
  s_usage := s_usage s; s_physical_len := len; s_round_robin_after := s_round_robin_after s;
  s_replay_claims := s_replay_claims s; s_recovery_required := s_recovery_required s;
  s_uncommitted := s_uncommitted s |}.

Definition with_claims (s : HookSpoolV1) (claims : list (bytes * bytes)) : HookSpoolV1 := {|
  s_config := s_config s; s_lease := s_lease s; s_meta := s_meta s; s_checkpoint := s_checkpoint s;
  s_observed := s_observed s; s_prefix := s_prefix s; s_pending := s_pending s; s_usage := s_usage s;
  s_physical_len := s_physical_len s; s_round_robin_after := s_round_robin_after s;
  s_replay_claims := claims; s_recovery_required := s_recovery_required s;
  s_uncommitted := s_uncommitted s |}.

Definition with_cursor (s : HookSpoolV1) (cursor : option bytes) : HookSpoolV1 := {|
  s_config := s_config s; s_lease := s_lease s; s_meta := s_meta s; s_checkpoint := s_checkpoint s;
  s_observed := s_observed s; s_prefix := s_prefix s; s_pending := s_pending s; s_usage := s_usage s;
  s_physical_len := s_physical_len s; s_round_robin_after := cursor;
  s_replay_claims := s_replay_claims s; s_recovery_required := s_recovery_required s;
  s_uncommitted := s_uncommitted s |}.

Definition with_verdict (s : HookSpoolV1) (meta : HookSpoolMetaV1)
    (checkpoint : option CheckpointAnchorV1) : HookSpoolV1 := {|
  s_config := s_config s; s_lease := s_lease s; s_meta := meta; s_checkpoint := checkpoint;
  s_observed := s_observed s; s_prefix := s_prefix s; s_pending := s_pending s; s_usage := s_usage s;
  s_physical_len := s_physical_len s; s_round_robin_after := s_round_robin_after s;
  s_replay_claims := s_replay_claims s; s_recovery_required := s_recovery_required s;
  s_uncommitted := s_uncommitted s |}.

(** What happens outside while the lease is released, and the process that
    takes it back. *)
Record Window : Type := {
  w_before : Disk → Disk;
  w_after : Disk → Disk;
  w_pid : Z;
  w_nonce : Z;
}.

Definition quiet : Window := {| w_before := λ d, d; w_after := λ d, d; w_pid := 1; w_nonce := 1 |}.

Section handle.
Context `{Sha256} `{HookSpoolCodec} `{CheckpointCodec} `{TransitionCodec} `{MetaCodec}.

(** ** Guards *)
Definition ensure_healthy (s : HookSpoolV1) : result unit HookSpoolError :=
  match integrity (s_meta s) with
  | Healthy => Ok tt
  | CorruptedAt at_offset => Err (Corrupted at_offset)
  end.

Definition ensure_writable (s : HookSpoolV1) (now : Z) : result unit HookSpoolError :=
  let? _ := ensure_healthy s in
  if s_recovery_required s then Err RecoveryRequired else ensure_live_lease (s_lease s) now.

(** Sets [recovery_required] and fails. *)
Definition op_recover {A} (e : HookSpoolError) : op A :=
  let* _ := op_set with_recovery_required in op_fail e.

Definition fail_corrupted {A} (at_offset : Z) : op A :=
  let* _ := op_set (λ s, with_verdict s (with_integrity (s_meta s) (CorruptedAt at_offset)) (s_checkpoint s)) in
  let* s := op_get in
  let* written := op_try (op_io (write_meta (s_meta s))) in
  match written with
  | Err error => op_recover error
  | Ok _ => op_fail (Corrupted at_offset)
  end.

Definition fail_checkpoint_mismatch {A} : op A :=
  let* _ := op_set with_recovery_required in
  let* _ := op_io (io_write (λ d, with_accelerators d None (transition_file d) (cursor_file d))) in
  let* _ := op_set (λ s, with_verdict s (s_meta s) None) in
  op_fail MetadataCorrupted.

Definition note_uncommitted (end_ : Z) : op unit :=
  let* s := op_get in
  match s_observed s with
  | None => op_fail MetadataCorrupted
  | Some revision =>
    let end_ := match s_uncommitted s with
                | Some (id, e) => if bool_decide (id = identity revision) then Z.max e end_ else end_
                | None => end_
                end in
    op_set (λ s, with_uncommitted s (Some (identity revision, end_)))
  end.

Definition commit_io (identity_ : bytes) (end_ : Z) : io unit :=
  λ d, match commit_records d identity_ end_ with
       | Ok d => (d, Ok tt)
       | Err e => (d, Err e)
       end.

(** ** Hydration *)
Definition read_frame_at (file : bytes) (file_offset framed_len : Z) : result bytes HookSpoolError :=
  match get_range file_offset (file_offset + framed_len) file with
  | Some frame => Ok frame
  | None => Err Io
  end.

(** The entries at [indices], with their index. *)
Fixpoint hydrate_entries (pending : list PendingRecordV1) (indices : list nat) :
    result (list (nat * PendingRecordV1)) HookSpoolError :=
  match indices with
  | [] => Ok []
  | index :: indices =>
    match pending !! index with
    | None => Err MetadataCorrupted
    | Some entry => let? rest := hydrate_entries pending indices in Ok ((index, entry) :: rest)
    end
  end.

(** [collect::<Option<Vec<_>>>]. *)
Fixpoint collect_records (entries : list (nat * PendingRecordV1)) : option (list HookSpoolRecordV1) :=
  match entries with
  | [] => Some []
  | (_, entry) :: entries =>
    match to_record entry, collect_records entries with
    | Some record, Some records => Some (record :: records)
    | _, _ => None
    end
  end.

Definition hydrated (entry : PendingRecordV1) (record : HookSpoolRecordV1) : PendingRecordV1 := {|
  p_sequence := p_sequence entry; p_session := p_session entry; p_queued_at := p_queued_at entry;
  p_framed_len := p_framed_len entry; p_file_offset := p_file_offset entry;
  p_event_id := p_event_id entry; p_project_id := p_project_id entry;
  p_worktree_id := p_worktree_id entry; p_checksum := p_checksum entry;
  p_envelope := Some (envelope record); p_native_lifecycle := native_lifecycle record |}.

Fixpoint hydrate_loop (file : bytes) (entries : list (nat * PendingRecordV1)) :
    op (list HookSpoolRecordV1) :=
  match entries with
  | [] => op_ret []
  | (index, entry) :: entries =>
    let* record :=
      match to_record entry with
      | Some record => op_ret record
      | None =>
        match read_frame_at file (p_file_offset entry) (p_framed_len entry) with
        | Err error => op_recover error
        | Ok frame =>
          let* s := op_get in
          match decode_complete_frame frame (p_file_offset entry) (host (s_config s)) with
          | Ok record =>
            if matches_record entry record then
              match s_pending s !! index with
              | None => op_fail MetadataCorrupted
              | Some pending =>
                let* _ := op_set (λ s, with_pending s
                  (<[index := hydrated pending record]> (s_pending s)) (s_usage s)) in
                op_ret record
              end
            else fail_checkpoint_mismatch
          | Err _ => fail_checkpoint_mismatch
          end
        end
      end in
    let* records := hydrate_loop file entries in
    op_ret (record :: records)
  end.

Definition hydrate_many (indices : list nat) : op (list HookSpoolRecordV1) :=
  let* s := op_get in
  let* entries := op_lift (hydrate_entries (s_pending s) indices) in
  match collect_records entries with
  | Some records => op_ret records
  | None =>
    let* revision := op_io (io_read records_file_revision) in
    if negb (bool_decide (revision = s_observed s)) then op_recover MetadataCorrupted
    else
      let* file := op_io (io_read records_content) in
      match file with
      | None => op_recover Io
      | Some file => hydrate_loop file entries
      end
  end.

Definition hydrate (index : nat) : op HookSpoolRecordV1 :=
  let* records := hydrate_many [index] in
  match records with
  | record :: _ => op_ret record
  | [] => op_fail MetadataCorrupted
  end.

(** ** The lease released around a barrier *)
Definition without_lease {T} (now : Z) (w : Window) (barrier : io T) : op T :=
  let* s := op_get in
  let* _ := op_lift (ensure_writable s now) in
  let* _ := op_set (λ s, with_recovery_required (with_uncommitted s None)) in
  let* _ := op_io (io_write (w_before w)) in
  let* outcome := op_try (op_io
    (let! _ := match s_uncommitted s with
               | Some (id, end_) => commit_io id end_
               | None => io_ret tt
               end in
     barrier)) in
  let* _ := op_io (io_write (w_after w)) in
  let* lease := op_lift (new_lease (writer_lease_micros (s_config s)) now (w_pid w) (w_nonce w)) in
  let* _ := op_set (λ s, with_claims s []) in
  let* reloaded := op_io (open_after_lease (s_config s) lease) in
  let* _ := op_set (λ _, with_claims (fst reloaded) (s_replay_claims s)) in
  op_lift outcome.

(** ** Compaction *)

(** The loop of [pending_frames]: the bytes so far, their length and the
    rebuilt entries. *)
Fixpoint frames_loop (source : bytes) (entries : list PendingRecordV1) (b : bytes) (offset : Z)
    (rebuilt : list PendingRecordV1) : op (bytes * list PendingRecordV1) :=
  match entries with
  | [] => op_ret (b, rebuilt)
  | entry :: entries =>
    match get_range (p_file_offset entry) (p_file_offset entry + p_framed_len entry) source with
    | None => fail_corrupted (p_file_offset entry)
    | Some frame =>
      let* s := op_get in
      match decode_complete_frame frame (p_file_offset entry) (host (s_config s)) with
      | Ok record =>
        if matches_record entry record
        then frames_loop source entries (b ++ frame) (sat_add u64_max offset (p_framed_len entry))
               (rebuilt ++ [from_record record offset])
        else fail_checkpoint_mismatch
      | Err _ => fail_corrupted (p_file_offset entry)
      end
    end
  end.

Definition pending_frames : op (bytes * list PendingRecordV1) :=
  let* s := op_get in
  let* _ := op_lift (ensure_healthy s) in
  let* revision := op_io (io_read records_file_revision) in
  if negb (bool_decide (revision = s_observed s)) then op_recover MetadataCorrupted
  else
    let* file := op_io (io_read records_content) in
    let* source := op_lift (read_bounded file (max_host_bytes (limits (s_config s)))) in
    match source with
    | Some source => frames_loop source (s_pending s) [] 0 []
    | None => if is_empty (s_pending s) then op_ret ([], []) else fail_corrupted 0
    end.

(** [StagedReplacement::stage] and [publish]: a new synced file takes the name;
    the system gives it an inode. *)
Definition replacement (d : Disk) (b : bytes) (dev ino generation : Z) : RecordsFile := {|
  rf_dev := dev; rf_ino := ino; rf_generation := generation; rf_content := b; rf_synced := zlen b;
  rf_modified := clock d; rf_changed := clock d |}.

(** The inodes of new files: device, number, generation. *)
Abbreviation inode := (Z * Z * Z)%type.

Definition reclaim (now : Z) (w : Window) (new : inode) : op unit :=
  let* frames := pending_frames in
  let b := fst frames in
  let rebuilt := snd frames in
  let* s := op_get in
  let revision := s_observed s in
  let* staged := without_lease now w
    (let! _ := io_write forget_synced_extent in
     io_read (λ d, let '(dev, ino, g) := new in replacement d b dev ino g)) in
  let* s := op_get in
  if negb (bool_decide (s_observed s = revision))
     || negb (bool_decide (p_sequence <$> s_pending s = p_sequence <$> rebuilt))
  then op_ret tt
  else
    let* _ := op_io (io_write (λ d, rename_records d (Some staged))) in
    let prefix := digest_of b in
    let* checkpoint := op_try (op_io (write_checkpoint_file (s_config s) rebuilt prefix)) in
    match checkpoint with
    | Err error => op_recover error
    | Ok checkpoint => op_set (λ s, with_compacted s rebuilt checkpoint prefix (zlen b))
    end.

(** ** Appending *)
Fixpoint event_position (event_id_ : bytes) (pending : list PendingRecordV1) : option nat :=
  match pending with
  | [] => None
  | record :: pending =>
    if bool_decide (p_event_id record = event_id_) then Some O else S <$> event_position event_id_ pending
  end.

(** What [append_record] does with an event that is already pending. *)
Definition append_duplicate (e : HookEventEnvelopeV2) (lifecycle : option NativeContextScoutLifecycleV1)
    (index : nat) : op HookSpoolRecordV1 :=
  let* existing := hydrate index in
  if bool_decide (envelope existing = e) && bool_decide (native_lifecycle existing = lifecycle) then
    let* s := op_get in
    match s_pending s !! index with
    | None => op_fail MetadataCorrupted
    | Some entry =>
      let* _ := note_uncommitted (sat_add u64_max (p_file_offset entry) (p_framed_len entry)) in
      op_ret existing
    end
  else op_fail EventIdConflict.

(** From the check of the records file on: the frame is written, the record
    noted and the transition published. *)
Definition append_new (sequence : Z) (frame : bytes) (new : inode) : op HookSpoolRecordV1 :=
  let* s := op_get in
  let* revision := op_io (io_read records_file_revision) in
  let* file := op_io (io_read records_content) in
  if negb (bool_decide (revision = s_observed s)) || negb (matches_file (s_prefix s) file)
  then op_recover MetadataCorrupted
  else
    let* _ := op_io (io_write (λ d,
      append_frame d (let '(dev, ino, g) := new in new_file (clock d) dev ino g) frame)) in
    let prefix := digest_extend (s_prefix s) frame in
    let* _ := op_set (λ s, with_frame s prefix (s_meta s) (s_physical_len s)) in
    let* record := op_lift (decode_complete_frame frame (s_physical_len s) (host (s_config s))) in
    match checked_add u64_max sequence 1 with
    | None => op_fail MetadataCorrupted
    | Some next =>
      let len := sat_add u64_max (s_physical_len s) (zlen frame) in
      let* _ := op_set (λ s, with_frame s prefix (with_next_sequence (s_meta s) next) len) in
      let* noted := op_lift (note_pending (s_pending s) (s_usage s) record (sat_sub len (zlen frame))) in
      let* _ := op_set (λ s, with_pending s (fst noted) (snd noted)) in
      match s_checkpoint s with
      | None => op_recover RecoveryRequired
      | Some checkpoint =>
        let* written := op_try (op_io (λ d,
          match write_transition d checkpoint with
          | Ok (d, revision) => (d, Ok revision)
          | Err e => (d, Err e)
          end)) in
        match written with
        | Ok revision =>
          if length_ revision =? len then
            let* _ := op_set (λ s, with_observed s (Some revision)) in
            let* _ := note_uncommitted len in
            op_ret record
          else op_recover MetadataCorrupted
        | Err error => op_recover error
        end
      end
    end.

(** One pass of [append_record]; [None] asks for the restart after a reclaim. *)
Definition append_pass (e : HookEventEnvelopeV2) (lifecycle : option NativeContextScoutLifecycleV1)
    (binding : HookScopeBindingV1) (now : Z) (may_reclaim : bool) (new : inode) :
    op (option HookSpoolRecordV1) :=
  let* s := op_get in
  let* _ := op_lift (ensure_writable s now) in
  let* _ := op_lift (match envelope_validate e binding with
                     | Ok _ => Ok tt
                     | Err error => Err (EnvelopeRejected error)
                     end) in
  let* _ := if negb (bool_decide (producer e = host (s_config s)))
            then op_fail (EnvelopeRejected BindingMismatch) else op_ret tt in
  let* encoded := op_lift (encode_spool_payload e lifecycle) in
  if is_empty encoded || (zlen encoded >? MAX_HOOK_PAYLOAD_BYTES) then op_fail RecordTooLarge
  else match event_position (event_id e) (s_pending s) with
  | Some index => let* existing := append_duplicate e lifecycle index in op_ret (Some existing)
  | None =>
    let sequence := next_sequence (s_meta s) in
    let* frame := op_lift (encode_frame sequence now (protected_session_id e) encoded) in
    let* _ := op_lift (ensure_append_capacity (s_config s) (s_pending s) (s_usage s) e (zlen frame)) in
    if sat_add u64_max (s_physical_len s) (zlen frame) >? max_host_bytes (limits (s_config s)) then
      if negb may_reclaim || (s_physical_len s <=? pending_bytes (s_usage s))
      then op_fail SpoolFull
      else op_ret None
    else let* record := append_new sequence frame new in op_ret (Some record)
  end.

(** [append_with_native_lifecycle]: reclaiming reloads the spool, so the append
    restarts against it once. *)
Definition append_with_native_lifecycle (e : HookEventEnvelopeV2)
    (lifecycle : option NativeContextScoutLifecycleV1) (binding : HookScopeBindingV1) (now : Z)
    (w : Window) (new compacted : inode) : op HookSpoolRecordV1 :=
  let* first := append_pass e lifecycle binding now true new in
  match first with
  | Some record => op_ret record
  | None =>
    let* _ := reclaim now w compacted in
    let* second := append_pass e lifecycle binding now false new in
    match second with Some record => op_ret record | None => op_fail SpoolFull end
  end.

Definition append (e : HookEventEnvelopeV2) (binding : HookScopeBindingV1) (now : Z)
    (w : Window) (new compacted : inode) : op HookSpoolRecordV1 :=
  append_with_native_lifecycle e None binding now w new compacted.

(** ** Preparing and committing *)
Definition prepare (new : inode) : op unit :=
  let* s := op_get in
  let* _ := op_lift (ensure_healthy s) in
  let* _ := if s_recovery_required s then op_fail RecoveryRequired else op_ret tt in
  let* _ := op_io (io_write (λ d,
    append_frame d (let '(dev, ino, g) := new in new_file (clock d) dev ino g) [])) in
  let* revision := op_io (io_read records_file_revision) in
  match revision with
  | None => op_fail MetadataCorrupted
  | Some revision =>
    let* _ := match s_observed s with
              | None => let* _ := op_io (write_checkpoint_file (s_config s) (s_pending s) (s_prefix s)) in op_ret tt
              | Some _ => op_ret tt
              end in
    op_io (commit_io (identity revision) (length_ revision))
  end.

Definition commit : op unit :=
  let* s := op_get in
  match s_uncommitted s with
  | Some (id, end_) => op_io (commit_io id end_)
  | None => op_ret tt
  end.

(** ** Settlement *)
Definition publish_meta (meta : HookSpoolMetaV1) (now : Z) (w1 w2 : Window) : op unit :=
  let* b := op_lift (encode_meta meta) in
  let* settled_against := op_io (λ d, (d, read_bounded (meta_file d) MAX_META_BYTES)) in
  let* s := op_get in
  let* _ := without_lease now w1
    match s_observed s with
    | Some revision => commit_io (identity revision) (length_ revision)
    | None => io_ret tt
    end in
  let* current := op_io (λ d, (d, read_bounded (meta_file d) MAX_META_BYTES)) in
  if negb (bool_decide (current = settled_against)) then op_fail WriterLeaseLost
  else
    let* _ := op_io (io_write (λ d, rename_meta d (Some b))) in
    without_lease now w2 (io_write sync_directory).

Definition acknowledge_many (acknowledgements : list HookSpoolAckV1) (now : Z) (w1 w2 w3 : Window)
    (compacted : inode) : op (list (result bool HookSpoolError)) :=
  let* s := op_get in
  let* _ := op_lift (ensure_writable s now) in
  let* plan := op_lift (acknowledge_plan (s_meta s) (s_pending s) acknowledgements) in
  match snd plan with
  | None => op_ret (fst plan)
  | Some next_meta =>
    let* _ := publish_meta next_meta now w1 w2 in
    let* s := op_get in
    let* _ := if s_physical_len s >? sat_mul u64_max (pending_bytes (s_usage s)) 2
              then reclaim now w3 compacted else op_ret tt in
    op_ret (fst plan)
  end.

(** ** Replay *)
Definition write_replay_cursor (cursor : bytes) : io unit :=
  io_write (λ d, with_accelerators d (checkpoint_file d) (transition_file d) (Some cursor)).

Record HookReplayBatchV1 : Type := {
  b_claim_id : bytes;
  b_session : bytes;
  b_records : list HookSpoolRecordV1;
  b_byte_count : Z;
}.

(** The hydrated records dealt out to the selected sessions in order. *)
Fixpoint batches_of (selected : list Selection) (hydrated : list HookSpoolRecordV1)
    (claims : list (bytes * bytes)) :
    result (list HookReplayBatchV1) HookSpoolError * list (bytes * bytes) :=
  match selected with
  | [] => (Ok [], claims)
  | sel :: selected =>
    let n := length (s_indices sel) in
    if (length hydrated <? n)%nat then (Err MetadataCorrupted, claims)
    else
      let claims := map_insert (s_session sel) (s_claim_id sel) claims in
      let '(rest, claims) := batches_of selected (drop n hydrated) claims in
      (let? rest := rest in
       Ok ({| b_claim_id := s_claim_id sel; b_session := s_session sel;
              b_records := take n hydrated; b_byte_count := s_byte_count sel |} :: rest), claims)
  end.

(** [claim_replay_batches_in_scope]; [pid] and [nonce] make the claim ids. *)
Definition claim_replay_batches_in_scope (now : Z) (requested_sessions : nat)
    (scope : option (bytes * bytes)) (pid nonce : Z) : op (list HookReplayBatchV1) :=
  let* s := op_get in
  let* _ := op_lift (ensure_healthy s) in
  let* picked := op_lift (select_batches (s_pending s) now scope (s_replay_claims s)
                            (s_round_robin_after s) requested_sessions pid nonce) in
  let selected := fst (fst picked) in
  let* hydrated := hydrate_many (selected ≫= s_indices) in
  let* _ := match last selected with
            | Some selection =>
              if bool_decide (s_round_robin_after s = Some (s_session selection)) then op_ret tt
              else
                let* _ := op_io (write_replay_cursor (s_session selection)) in
                op_set (λ s, with_cursor s (Some (s_session selection)))
            | None => op_ret tt
            end in
  let '(batches, claims) := batches_of selected hydrated (s_replay_claims s) in
  let* _ := op_set (λ s, with_claims s claims) in
  op_lift batches.

Definition claim_replay_batches (now : Z) (requested_sessions : nat) (pid nonce : Z) :
    op (list HookReplayBatchV1) :=
  claim_replay_batches_in_scope now requested_sessions None pid nonce.

Definition release_replay_claim (claim_id : bytes) : op unit :=
  let* s := op_get in
  match find (λ entry, bool_decide (snd entry = claim_id)) (s_replay_claims s) with
  | None => op_fail ReplayClaimUnknown
  | Some (session, _) => op_set (λ s, with_claims s (map_remove session (s_replay_claims s)))
  end.

(** ** Queries *)
Definition has_records (d : Disk) : bool :=
  match records d with Some f => 0 <? zlen (rf_content f) | None => false end.

Definition pending_envelope (event_id_ : bytes) : op (option HookEventEnvelopeV2) :=
  let* s := op_get in
  match event_position event_id_ (s_pending s) with
  | None => op_ret None
  | Some index => let* record := hydrate index in op_ret (Some (envelope record))
  end.

(** The positions of the pending records that satisfy [p]. *)
Definition indices_where (p : PendingRecordV1 → bool) (pending : list PendingRecordV1) : list nat :=
  List.filter (λ i, match pending !! i with Some r => p r | None => false end) (seq 0 (length pending)).

Definition in_scope (project worktree : bytes) (record : PendingRecordV1) : bool :=
  bool_decide (p_project_id record = project) && bool_decide (p_worktree_id record = worktree).

Definition pending_scope_count (s : HookSpoolV1) (project worktree : bytes) : Z :=
  zlen (List.filter (in_scope project worktree) (s_pending s)).

Definition pending_count (s : HookSpoolV1) : Z := zlen (s_pending s).

Definition pending_records_in_scope (project worktree : bytes) : op (list HookSpoolRecordV1) :=
  let* s := op_get in
  let* _ := op_lift (ensure_healthy s) in
  hydrate_many (indices_where (in_scope project worktree) (s_pending s)).

Definition pending_records : op (list HookSpoolRecordV1) :=
  let* s := op_get in
  let* _ := op_lift (ensure_healthy s) in
  hydrate_many (seq 0 (length (s_pending s))).

Definition expired_records (now : Z) : op (list HookSpoolRecordV1) :=
  let* s := op_get in
  hydrate_many (indices_where (λ record, is_expired record now) (s_pending s)).

Definition acknowledge (acknowledgement : HookSpoolAckV1) (now : Z) (w1 w2 w3 : Window)
    (compacted : inode) : op bool :=
  let* outcomes := acknowledge_many [acknowledgement] now w1 w2 w3 compacted in
  match last outcomes with
  | Some outcome => op_lift outcome
  | None => op_fail AckConflict
  end.
End handle.
