(* ===== verification/SpoolAppend.v ===== *)
(** * What an append does to the log

    On a handle that agrees with its directory, an append of a fresh event that
    the limits admit writes exactly one frame, and the handle agrees with the
    directory again; its record is what the next open recovers, as long as the
    file holds no more frames than the record limit, and what every open takes
    for corruption when it holds more. *)
From stdpp Require Import base numbers strings list sorting.
From S2P Require Import Prelude RustText Bytes OrdMap HookContract SpoolFrame SpoolScan SpoolMeta.
From S2P Require Import SpoolReplay SpoolCheckpoint SpoolDisk SpoolOpen SpoolRecovery SpoolHandle.

#[local] Open Scope Z_scope.
#[local] Open Scope rust_scope.

Section append.
Context `{Sha256} `{HookSpoolCodec} `{CheckpointCodec} `{TransitionCodec} `{MetaCodec}.

Lemma op_bind_ok {A B} (m : op A) (k : A → op B) st st' a :
  m st = (st', Ok a) → op_bind m k st = k a st'.
Proof. intros E. unfold op_bind. by rewrite E. Qed.

Lemma op_bind_lift {A B} (r : result A HookSpoolError) (k : A → op B) st a :
  r = Ok a → op_bind (op_lift r) k st = k a st.
Proof. intros ->. done. Qed.

(** ** The pending records of a longer log *)
Lemma acknowledged_map_next meta map n :
  acknowledged_map meta = Ok map → next_sequence meta <= n →
  acknowledged_map (with_next_sequence meta n) = Ok map ∧ map_get (next_sequence meta) map = None.
Proof.
  intros Hm Hn. pose proof Hm as Hok. apply acknowledged_map_ok in Hok as ([_ He] & _ & Hp). split.
  - unfold acknowledged_map in *. cbn [with_next_sequence committed_through next_sequence acknowledged].
    clear He Hp. revert Hm. generalize (@nil (Z * AcknowledgedSequenceV1)).
    induction (acknowledged meta) as [|e entries IH]; intros m0; [done|]. cbn [acknowledged_loop].
    destruct (_ || _ || _ || _) eqn:E; [done|]. intros Hm. bools. rewrite Z.geb_leb, Z.leb_gt in *.
    rewrite !(proj2 (Z.leb_gt _ _)), bool_decide_eq_false_2 by (done || lia).
    destruct (map_get _ m0); [done|]. by apply IH.
  - apply map_get_None. rewrite (keyed_keys map (acknowledged meta)) by done.
    intros (e & E & Hin)%list_elem_of_fmap. apply He in Hin as [? _]. lia.
Qed.

Lemma pending_of_snoc meta map n off l a frame :
  map_get (a_sequence a) map = None → committed_through meta < a_sequence a →
  pending_of (with_next_sequence meta n) map (log_records off (l ++ [(a, frame)])) =
  pending_of meta map (log_records off l) ++ [from_record (record_of a frame) (off + zlen (log_bytes l))].
Proof.
  intros Hg Hc. rewrite log_records_app. unfold pending_of. rewrite List.filter_app. f_equal.
  cbn [log_records List.filter from_record p_sequence record_of sequence with_next_sequence committed_through].
  by rewrite Hg, Z.gtb_ltb, (proj2 (Z.ltb_lt _ _)) by lia.
Qed.

Lemma log_records_framed h off l : Forall (log_entry_ok h) l → Forall framed_ok (log_records off l).
Proof.
  intros Hl. revert off. induction Hl as [|[a f] l [Ht Hf] _ IH]; intros off; constructor; [|apply IH].
  cbn [fst snd] in Ht, Hf. destruct (appended_frame_inv h a f Ht Hf) as (p & _ & _ & E & Hp).
  unfold framed_ok. cbn [from_record p_framed_len record_of framed_len]. lia.
Qed.

Lemma pending_framed config s d meta l :
  handle_at config s d meta l → log_ok (host config) l → Forall framed_ok (s_pending s).
Proof.
  intros Hh [Hl _]. destruct (ha_pending _ _ _ _ _ Hh) as (map & _ & E).
  assert (Forall framed_ok (indexed <$> s_pending s)) as Hi.
  { rewrite E. apply Forall_fmap. eapply (Forall_impl framed_ok); [|by intros r].
    unfold pending_of. clear E. induction (log_records_framed (host config) 0 l Hl) as [|r rs Hr _ IH]; [constructor|].
    cbn [List.filter]. destruct (_ && _); [by constructor|done]. }
  clear -Hi. induction (s_pending s) as [|r rs IH]; [constructor|].
  rewrite fmap_cons in Hi. apply Forall_cons in Hi as [Hr Hi]. constructor; [exact Hr|by apply IH].
Qed.

(** ** The append *)

(** The event is fresh and the limits admit its frame. *)
Record appendable (config : HookSpoolConfigV1) (s : HookSpoolV1) (d : Disk) (meta : HookSpoolMetaV1)
    (l : list (Appended * bytes)) (binding : HookScopeBindingV1) (new : Z * Z * Z) (a : Appended) (frame : bytes) : Prop := {
  ap_config : config_validate config = Ok tt;
  ap_log : log_ok (host config) (l ++ [(a, frame)]);
  ap_sequence : a_sequence a = next_sequence meta;
  ap_next : committed_through meta < next_sequence meta < u64_max;
  ap_healthy : integrity meta = Healthy;
  ap_lease : a_queued_at a < expires_at (s_lease s);
  ap_valid : is_ok (envelope_validate (a_envelope a) binding) = true;
  ap_fresh : event_position (event_id (a_envelope a)) (s_pending s) = None;
  ap_capacity : ensure_append_capacity config (s_pending s) (s_usage s) (a_envelope a) (zlen frame) = Ok tt;
  ap_room : zlen (log_bytes l) + zlen frame <= max_host_bytes (limits config);
  ap_transition : ∀ anchor, is_ok (write_transition
    (append_frame d (let '(dev, ino, g) := new in new_file (clock d) dev ino g) frame) anchor) = true;
  ap_uncommitted : ∀ id end_, s_uncommitted s = Some (id, end_) → end_ <= zlen (log_bytes l) + zlen frame;
}.

Lemma matches_log_file l d :
  records_content d = Some (log_bytes l) → zlen (log_bytes l) <= u64_max →
  matches_file {| hasher := log_bytes l; len := zlen (log_bytes l) |} (records_content d) = true.
Proof.
  intros E Hl. unfold matches_file. rewrite E. cbn [len].
  rewrite read_through_prefix by (pose proof (zlen_nonneg (log_bytes l)); lia). cbn [fst snd andb].
  apply bool_decide_eq_true_2. unfold digest_checksum. cbn [hasher]. by rewrite take_ge by (unfold zlen; lia).
Qed.


Lemma write_transition_ok d anchor d2 rev :
  write_transition d anchor = Ok (d2, rev) →
  d2 = with_accelerators d (checkpoint_file d) (transition_file d2) (cursor_file d) ∧
  records_file_revision d = Some rev.
Proof.
  unfold write_transition. destruct (records_file_revision d); [|done].
  destruct (body_json_bytes _); [|done]. destruct (transition_to_vec _); [|done]. by intros [= <- <-].
Qed.

Lemma note_uncommitted_at s d rev end_ :
  s_observed s = Some rev → (∀ id e, s_uncommitted s = Some (id, e) → e <= end_) →
  note_uncommitted end_ (s, d) = ((with_uncommitted s (Some (identity rev, end_)), d), Ok tt).
Proof.
  intros Ho Hu. unfold note_uncommitted. rewrite (op_bind_ok _ _ _ (s, d) s) by done. rewrite Ho.
  unfold op_set. cbn [fst snd]. destruct (s_uncommitted s) as [[id e]|]; [|done].
  case_bool_decide; [|done]. rewrite Z.max_r by by eapply Hu. done.
Qed.

(** The handle after the frame of [a] was written and noted. *)
Definition appended_handle (s : HookSpoolV1) (l : list (Appended * bytes)) (a : Appended) (frame : bytes)
    (m : usage) (rev : RecordsFileRevisionV1) : HookSpoolV1 :=
  let p := digest_of (log_bytes (l ++ [(a, frame)])) in
  with_uncommitted (with_observed (with_pending
    (with_frame s p (with_next_sequence (s_meta s) (a_sequence a + 1)) (len p))
    (s_pending s ++ [from_record (record_of a frame) (zlen (log_bytes l))]) m) (Some rev))
    (Some (identity rev, len p)).

Lemma digest_of_log l :
  zlen (log_bytes l) <= u64_max → digest_of (log_bytes l) = {| hasher := log_bytes l; len := zlen (log_bytes l) |}.
Proof.
  intros Hl. unfold digest_of, digest_extend, digest_empty, sat_add. cbn [hasher len].
  by rewrite Z.add_0_l, Z.min_r by done.
Qed.

Lemma log_bytes_snoc l a frame : log_bytes (l ++ [(a, frame)]) = log_bytes l ++ frame.
Proof. rewrite log_bytes_app. f_equal. unfold log_bytes. simpl. apply app_nil_r. Qed.

Lemma appended_handle_at config s d d' meta l a frame m f now :
  handle_at config s d meta l → a_sequence a = next_sequence meta →
  committed_through meta < next_sequence meta → zlen (log_bytes l) + zlen frame <= u64_max →
  rf_content f = log_bytes l → records d' = Some (appended_file now f frame) →
  usage_by_session (s_pending s ++ [from_record (record_of a frame) (zlen (log_bytes l))]) (limits config) = Ok m →
  handle_at config (appended_handle s l a frame m (revision_for_file (appended_file now f frame))) d'
    (with_next_sequence meta (next_sequence meta + 1)) (l ++ [(a, frame)]).
Proof.
  intros Hh Hs Hc Hz Hf Hd Hu. destruct Hh as [Hcfg Hmeta Hcont Hobs Hpre Hlen Hck Hready (map & Hmap & Hpend) Husage].
  assert (zlen (log_bytes (l ++ [(a, frame)])) <= u64_max) by by rewrite log_bytes_snoc, zlen_app.
  constructor; unfold appended_handle; rewrite ?digest_of_log by done; cbn -[log_bytes digest_of from_record zlen]; try done.
  - by rewrite Hmeta, Hs.
  - unfold records_content. rewrite Hd, log_bytes_snoc. cbn. by rewrite Hf.
  - unfold records_file_revision. by rewrite Hd.
  - destruct (acknowledged_map_next meta map (next_sequence meta + 1)) as [Hm' Hg]; [done|lia|].
    exists map. split; [exact Hm'|]. rewrite pending_of_snoc by (by rewrite ?Hs). by rewrite !fmap_app, Hpend.
Qed.

(** [append_new] on a handle that agrees with the disk. *)
Lemma append_new_at config s d meta l binding new a frame :
  handle_at config s d meta l → appendable config s d meta l binding new a frame →
  ∃ s' d', append_new (a_sequence a) frame new (s, d) = ((s', d'), Ok (record_of a frame)) ∧
    handle_at config s' d' (with_next_sequence meta (next_sequence meta + 1)) (l ++ [(a, frame)]) ∧
    s_uncommitted s' = (λ f, (records_identity f, zlen (log_bytes (l ++ [(a, frame)])))) <$> records d' ∧
    s_pending s' = s_pending s ++ [from_record (record_of a frame) (zlen (log_bytes l))] ∧
    s_lease s' = s_lease s ∧ meta_file d' = meta_file d ∧ cursor_file d' = cursor_file d ∧
    checkpoint_file d' = checkpoint_file d ∧
    records d' = (λ f, appended_file (clock d) f frame) <$> records d.
Proof.
  intros Hh Ha. pose proof (pending_framed _ _ _ _ _ Hh (log_ok_app _ _ _ (ap_log _ _ _ _ _ _ _ _ _ Ha))) as Hpf.
  pose proof Hh as [Hcfg Hmeta Hcont Hobs Hpre Hlen Hck Hready _ Husage].
  destruct Ha as [Hc Hlog Hseq Hnext _ _ _ _ Hcap Hroom Htrans Hunc].
  pose proof (config_validate_bounds _ Hc) as (B1 & _). unfold MAX_SPOOL_BYTES_PER_HOST in B1.
  pose proof (zlen_nonneg (log_bytes l)) as Hz. pose proof (zlen_nonneg frame) as Hzf.
  assert (zlen (log_bytes (l ++ [(a, frame)])) = zlen (log_bytes l) + zlen frame) as Hzl by by rewrite log_bytes_snoc, zlen_app.
  assert (log_entry_ok (host config) (a, frame)) as [Ht Hf] by (destruct Hlog as [[_ Hl]%Forall_app _]; by inversion Hl).
  cbn [fst snd] in Ht, Hf. destruct (appended_frame_inv _ _ _ Ht Hf) as (p & _ & _ & Hfl & Hp).
  assert (FRAME_OVERHEAD = 94) as Hoh by done. unfold MAX_HOOK_PAYLOAD_BYTES in Hp.
  assert (Hmf := matches_log_file l d Hcont ltac:(unfold u64_max; lia)).
  unfold records_content in Hcont. destruct (records d) as [f|] eqn:Ef; [|done]. injection Hcont as Hfc.
  destruct (s_checkpoint s) as [anchor|] eqn:Eanchor; [|done]. specialize (Htrans anchor).
  set (created := let '(dev, ino, g) := new in new_file (clock d) dev ino g) in *.
  set (d1 := append_frame d created frame) in *.
  assert (records d1 = Some (appended_file (clock d) f frame)) as Ed1 by (unfold d1, append_frame; by rewrite Ef).
  destruct (write_transition d1 anchor) as [[d2 rev]|] eqn:Ew; [|done].
  destruct (write_transition_ok _ _ _ _ Ew) as [Ed2 Hrev].
  unfold records_file_revision in Hrev. rewrite Ed1 in Hrev. injection Hrev as Erev.
  assert (length_ rev = zlen (log_bytes l) + zlen frame) as Hrl.
  { rewrite <- Erev. cbn [revision_for_file length_ appended_file rf_content]. by rewrite Hfc, zlen_app. }
  destruct (note_pending_usage config (s_pending s) (s_usage s) (a_envelope a) (record_of a frame) (zlen (log_bytes l)))
    as (m' & Hnote & Husage'); [done..|cbn; lia|done|].
  exists (appended_handle s l a frame m' rev), d2. split_and!.
  - unfold append_new. rewrite (op_bind_ok _ _ _ (s, d) s) by done.
    rewrite (op_bind_ok _ _ _ (s, d) (records_file_revision d)) by done.
    rewrite (op_bind_ok _ _ _ (s, d) (records_content d)) by done.
    rewrite <- Hobs, Hpre, Hmf, bool_decide_eq_true_2 by done. cbn [negb orb].
    rewrite (op_bind_ok _ _ _ (s, d1) tt) by done.
    rewrite (op_bind_ok _ _ _ _ tt) by reflexivity. cbn [fst snd].
    rewrite (op_bind_lift _ _ _ (record_of a frame)) by (rewrite Hcfg; by apply decode_appended_frame).
    unfold checked_add. rewrite bool_decide_eq_true_2, Hlen by lia.
    unfold sat_add, sat_sub. rewrite Z.min_r by (unfold u64_max; lia).
    rewrite (op_bind_ok _ _ _ _ tt) by reflexivity. cbn [fst snd].
    replace (Z.max 0 (zlen (log_bytes l) + zlen frame - zlen frame)) with (zlen (log_bytes l)) by lia.
    rewrite (op_bind_lift _ _ _ _ Hnote), (op_bind_ok _ _ _ _ tt) by reflexivity. cbn [fst snd]. rewrite Eanchor.
    erewrite (op_bind_ok (op_try _)) by (unfold op_try, op_io; cbn [fst snd]; rewrite Ew; reflexivity). cbv beta iota.
    rewrite Hrl, Z.eqb_refl, (op_bind_ok _ _ _ _ tt) by reflexivity. cbn [fst snd].
    erewrite op_bind_ok by (apply (note_uncommitted_at _ _ rev); done). unfold op_ret, appended_handle.
    rewrite digest_of_log, log_bytes_snoc, zlen_app by (rewrite Hzl; unfold u64_max; lia).
    unfold digest_extend, sat_add. cbn [hasher len]. rewrite Z.min_r by (unfold u64_max; lia). done.
  - rewrite <- Erev. eapply appended_handle_at; try done; [lia|unfold u64_max; lia|]. rewrite Ed2. exact Ed1.
  - rewrite Ed2. cbn [with_accelerators records]. rewrite Ed1. unfold appended_handle.
    cbn [with_uncommitted s_uncommitted fmap option_fmap option_map].
    rewrite digest_of_log by (rewrite Hzl; unfold u64_max; lia). cbn [len]. by rewrite <- Erev.
  - done.
  - done.
  - rewrite Ed2. cbn. unfold d1, append_frame. by rewrite Ef.
  - rewrite Ed2. cbn. unfold d1, append_frame. by rewrite Ef.
  - rewrite Ed2. cbn. unfold d1, append_frame. by rewrite Ef.
  - rewrite Ed2. exact Ed1.
Qed.

(** ** Reopening after an append *)
Lemma advance_loop_snoc first next n records r :
  advance_loop first next records = Ok n → first <= p_sequence r → p_sequence r = n → n < u64_max →
  advance_loop first next (records ++ [r]) = Ok (n + 1).
Proof.
  revert next. induction records as [|x records IH]; intros next; cbn [app advance_loop].
  - intros [= ->] Hf Hr Hn. rewrite Hr in *. rewrite Z.geb_leb, (proj2 (Z.leb_le _ _)), Z.eqb_refl by exact Hf. cbn [negb].
    unfold checked_add. by rewrite bool_decide_eq_true_2 by lia.
  - destruct (_ >=? _); [|apply IH]. destruct (negb _); [done|]. destruct (checked_add _ _ _); [apply IH|done].
Qed.

Lemma advance_loop_ge first next n records : advance_loop first next records = Ok n → next <= n.
Proof.
  revert next. induction records as [|x records IH]; intros next; cbn [advance_loop]; [intros [= ->]; lia|].
  destruct (_ >=? _); [|apply IH]. destruct (negb _); [done|].
  unfold checked_add. case_bool_decide; [|done]. intros ?%IH. lia.
Qed.

(** The new frame is within the window, so the metadata still covers the log. *)
Lemma cover_snoc meta limits seqs :
  0 <= committed_through meta < next_sequence meta → next_sequence meta < u64_max →
  StronglySorted Z.lt (seqs ++ [next_sequence meta]) →
  next_sequence meta - committed_through meta <= max_host_records limits →
  validate_meta_against_records meta seqs limits = Ok tt →
  validate_meta_against_records (with_next_sequence meta (next_sequence meta + 1))
    (seqs ++ [next_sequence meta]) limits = Ok tt.
Proof.
  intros Hc Hn Hs Hw Hv. destruct (cover_acknowledged _ _ _ Hv) as [map Hmap].
  assert (acks_ok (with_next_sequence meta (next_sequence meta + 1))) as Hok'.
  { eapply acknowledged_map_ok. apply (acknowledged_map_next meta map); [done|lia]. }
  apply acknowledged_map_ok in Hmap as [Hok _].
  rewrite covered_exactly in Hv by (done || lia || by eapply StronglySorted_app_1_l).
  destruct (decide _) as [(_ & _ & Hall & Hlt)|]; [|done].
  rewrite covered_exactly; cbn [with_next_sequence committed_through next_sequence acknowledged]; [|done|lia|lia|done].
  rewrite decide_True; [done|]. split_and!; [lia|lia| |].
  - apply Forall_forall. intros k Hk%elem_of_seqZ. rewrite elem_of_app, list_elem_of_singleton.
    destruct (decide (k = next_sequence meta)) as [->|]; [tauto|].
    rewrite Forall_forall in Hall. destruct (Hall k); [apply elem_of_seqZ; lia|tauto..].
  - apply Forall_app. split; [eapply Forall_impl; [exact Hlt|]; intros; simpl in *; lia|].
    constructor; [lia|done].
Qed.

(** The metadata and the checkpoint on the disk are of the handle's log. *)
Record backed_by (config : HookSpoolConfigV1) (d : Disk) (stored meta : HookSpoolMetaV1)
    (l : list (Appended * bytes)) : Prop := {
  bk_meta : read_meta d = Ok (Some stored);
  bk_valid : validate_meta stored (limits config) = Ok tt;
  bk_next : advance_next_sequence stored (log_records 0 l) = Ok meta;
  bk_cover : validate_meta_against_records meta (p_sequence <$> log_records 0 l) (limits config) = Ok tt;
  bk_index : ∀ cp, read_checkpoint (checkpoint_file d) config = Some cp →
    ∃ l0 l1, l = l0 ++ l1 ∧ v_records cp = indexed <$> log_records 0 l0 ∧ covered_end cp = zlen (log_bytes l0);
  bk_cursor : is_ok (read_replay_cursor d) = true;
}.

(** The header of a checkpoint of the file [f] with the log [l] is at most 64 KiB. *)
Definition header_fits (config : HookSpoolConfigV1) (f : RecordsFile) (l : list (Appended * bytes)) : Prop :=
  ∃ b, zlen b <= 65536 ∧ header_json_bytes {|
    h_version := CHECKPOINT_FORMAT_VERSION; h_host := host config;
    h_records_revision := Some (revision_for_file f);
    h_covered_checksum := sha256 (log_bytes l); h_record_count := zlen l |} = Some b.

(** The whole append, without compaction. *)
Lemma append_at config s d meta l binding new a frame w compacted :
  handle_at config s d meta l → appendable config s d meta l binding new a frame →
  ∃ s' d', append_with_native_lifecycle (a_envelope a) (a_lifecycle a) binding (a_queued_at a) w new compacted (s, d) =
      ((s', d'), Ok (record_of a frame)) ∧
    handle_at config s' d' (with_next_sequence meta (next_sequence meta + 1)) (l ++ [(a, frame)]) ∧
    s_uncommitted s' = (λ f, (records_identity f, zlen (log_bytes (l ++ [(a, frame)])))) <$> records d' ∧
    s_pending s' = s_pending s ++ [from_record (record_of a frame) (zlen (log_bytes l))] ∧
    s_lease s' = s_lease s ∧ meta_file d' = meta_file d ∧ cursor_file d' = cursor_file d ∧
    checkpoint_file d' = checkpoint_file d ∧
    records d' = (λ f, appended_file (clock d) f frame) <$> records d.
Proof.
  intros Hh Ha. destruct (append_new_at _ _ _ _ _ _ _ _ _ Hh Ha) as (s' & d' & E & Hrest).
  exists s', d'. split; [|exact Hrest].
  destruct Hh as [Hcfg Hmeta _ _ _ Hlen _ Hready _ _]. destruct Ha as [Hc Hlog Hseq Hnext Hhealthy Hlease Hvalid Hfresh Hcap Hroom _ _].
  assert (log_entry_ok (host config) (a, frame)) as [Ht Hf] by (destruct Hlog as [[_ Hl]%Forall_app _]; by inversion Hl).
  cbn [fst snd] in Ht, Hf. destruct (appended_frame_inv _ _ _ Ht Hf) as (p & Hp & Hef & Hfl & Hpl).
  unfold append_with_native_lifecycle. rewrite (op_bind_ok _ _ _ (s', d') (Some (record_of a frame))); [reflexivity|].
  unfold append_pass. rewrite (op_bind_ok _ _ _ (s, d) s) by done.
  rewrite (op_bind_lift _ _ _ tt).
  2:{ unfold ensure_writable, ensure_healthy. rewrite Hmeta, Hhealthy, Hready. unfold ensure_live_lease. cbn.
      by rewrite (proj2 (Z.leb_gt _ _)). }
  rewrite (op_bind_lift _ _ _ tt) by by destruct (envelope_validate _ _).
  rewrite bool_decide_eq_true_2 by (rewrite Hcfg; unfold appended_typed in Ht; bools; done). cbn [negb].
  rewrite (op_bind_ok _ _ _ (s, d) tt) by done. rewrite (op_bind_lift _ _ _ _ Hp).
  assert (is_empty p = false) as -> by (destruct p; [unfold zlen in Hpl; simpl in Hpl; lia|done]).
  rewrite Z.gtb_ltb, (proj2 (Z.ltb_ge _ _)), Hfresh by lia. cbn [orb].
  rewrite Hmeta, <- Hseq, (op_bind_lift _ _ _ _ Hef), Hcfg, (op_bind_lift _ _ _ _ Hcap), Hlen.
  pose proof (config_validate_bounds _ Hc) as (B1 & _). unfold MAX_SPOOL_BYTES_PER_HOST in B1.
  unfold sat_add. rewrite Z.min_r by (unfold u64_max; lia). rewrite Z.gtb_ltb, (proj2 (Z.ltb_ge _ _)) by lia.
  by rewrite (op_bind_ok _ _ _ _ _ E).
Qed.
Lemma trusted_is_read d config cp :
  fst (content_trusted d (revision_trusted d (read_checkpoint (checkpoint_file d) config))) = Some cp →
  read_checkpoint (checkpoint_file d) config = Some cp.
Proof.
  unfold revision_trusted. destruct (read_checkpoint _ _) as [c|]; [|done].
  assert (∀ x, fst (content_trusted d (Some x)) = Some cp → Some x = Some cp) as Hct.
  { intros x. cbn [content_trusted]. destruct (_ && _); [by intros [= ->]|done]. }
  case_bool_decide; [apply Hct|]. destruct (read_transition d); [|done]. destruct (_ && _); [apply Hct|done].
Qed.

(** The disk after an append is one an open recovers. *)
Lemma appended_spool_at config s' d d' stored meta l a frame :
  config_validate config = Ok tt → (∀ f, records d' = Some f → header_fits config f (l ++ [(a, frame)])) →
  log_ok (host config) (l ++ [(a, frame)]) →
  a_sequence a = next_sequence meta → 0 <= committed_through meta < next_sequence meta →
  next_sequence meta < u64_max → integrity stored = Healthy →
  zlen (log_bytes (l ++ [(a, frame)])) <= max_host_bytes (limits config) →
  zlen l < max_host_records (limits config) →
  next_sequence meta - committed_through meta <= max_host_records (limits config) →
  backed_by config d stored meta l →
  handle_at config s' d' (with_next_sequence meta (next_sequence meta + 1)) (l ++ [(a, frame)]) →
  meta_file d' = meta_file d → cursor_file d' = cursor_file d → checkpoint_file d' = checkpoint_file d →
  ∃ f, spool_at config d' f stored (next_sequence meta + 1) (l ++ [(a, frame)]) [].
Proof.
  intros Hc Hfit Hlog Hseq Hcn Hmax Hh Hb Hr Hw [Bm Bv Bn Bc Bi Bcur] [_ _ Hcont _ _ _ _ _ (map & Hmap & Hpend) Husage] Em Ecur Eck.
  unfold advance_next_sequence in Bn. destruct (advance_loop _ _ _) as [next|] eqn:Eadv; [|done]. injection Bn as <-.
  cbn [with_next_sequence next_sequence committed_through] in *.
  unfold records_content in Hcont. destruct (records d') as [f|] eqn:Ef; [|done]. injection Hcont as Hcont.
  exists f. constructor; try done.
  - by rewrite app_nil_r.
  - rewrite zlen_app. unfold zlen in *. simpl. lia.
  - by rewrite app_nil_r.
  - by left.
  - by unfold read_meta in *; rewrite Em.
  - unfold advance_next_sequence. rewrite log_records_app. cbn [log_records].
    rewrite (advance_loop_snoc _ _ next); [done|done| |done|lia].
    cbn. rewrite Hseq. by eapply advance_loop_ge.
  - rewrite log_records_app, fmap_app. cbn [log_records fmap list_fmap from_record p_sequence record_of sequence].
    rewrite Hseq. refine (cover_snoc (with_next_sequence stored next) _ _ _ _ _ _ Bc); cbn; try done; try lia.
    rewrite log_records_sequences. destruct Hlog as [_ Hs]. rewrite fmap_app in Hs. cbn in Hs. by rewrite Hseq in Hs.
  - intros cp Hcp%trusted_is_read. rewrite Eck in Hcp. destruct (Bi cp Hcp) as (l0 & l1 & -> & ? & ?).
    exists l0, (l1 ++ [(a, frame)]). by rewrite app_assoc.
  - by apply Hfit.
  - intros map' Hmap'. change (acknowledged_map (with_next_sequence stored (next + 1)) = Ok map) in Hmap.
    rewrite Hmap in Hmap'. injection Hmap' as <-. unfold usage_by_session in *.
    rewrite <- usage_loop_indexed.
    match type of Hpend with _ = ?x => change (is_ok (usage_loop (limits config) x []) = true) end.
    by rewrite <- Hpend, usage_loop_indexed, Husage.
  - by unfold read_replay_cursor in *; rewrite Ecur.
Qed.

(** C10. An append that the limits admit extends the log by exactly its frame. On
    a handle that agrees with its directory, the append of a fresh, valid event
    succeeds without compacting, returns the record of its frame, and leaves
    the file with that frame at its end, the handle agreeing with the directory
    again: index, usage table, sequence, prefix digest and file revision. The
    metadata, the checkpoint and the cursor are not written, and what the
    commit has to sync is the file up to the end of the frame. *)
Theorem append_extends_the_log config s d meta l binding new a frame w compacted :
  handle_at config s d meta l → appendable config s d meta l binding new a frame →
  ∃ s' d', append_with_native_lifecycle (a_envelope a) (a_lifecycle a) binding (a_queued_at a) w new compacted (s, d) =
      ((s', d'), Ok (record_of a frame)) ∧
    handle_at config s' d' (with_next_sequence meta (next_sequence meta + 1)) (l ++ [(a, frame)]) ∧
    s_uncommitted s' = (λ f, (records_identity f, zlen (log_bytes (l ++ [(a, frame)])))) <$> records d' ∧
    s_pending s' = s_pending s ++ [from_record (record_of a frame) (zlen (log_bytes l))] ∧
    s_lease s' = s_lease s ∧ meta_file d' = meta_file d ∧ cursor_file d' = cursor_file d ∧
    checkpoint_file d' = checkpoint_file d ∧
    records d' = (λ f, appended_file (clock d) f frame) <$> records d.
Proof. apply append_at. Qed.

(** C7. What an append wrote is what the next open finds. After an append by a
    handle that agrees with its directory, the next open of the directory
    succeeds, cuts nothing, reports no corruption, continues the sequence and
    finds the pending records of the handle and, last, the record of the event
    at its offset: provided the file holds fewer frames than the record limit,
    settled ones included, and the sequences past the settled frontier do not
    outnumber it. The two limits are not checked by the append. *)
Theorem appended_record_is_recovered config s d stored meta l binding new a frame w compacted lease :
  handle_at config s d meta l → appendable config s d meta l binding new a frame →
  backed_by config d stored meta l →
  (∀ f, records d = Some f → header_fits config (appended_file (clock d) f frame) (l ++ [(a, frame)])) →
  0 <= committed_through meta → zlen l < max_host_records (limits config) →
  next_sequence meta - committed_through meta <= max_host_records (limits config) →
  ∃ s' d' d'' s'' report,
    append_with_native_lifecycle (a_envelope a) (a_lifecycle a) binding (a_queued_at a) w new compacted (s, d) =
      ((s', d'), Ok (record_of a frame)) ∧
    open_after_lease config lease d' = (d'', Ok (s'', report)) ∧
    records_content d'' = Some (log_bytes l ++ frame) ∧
    indexed <$> s_pending s'' = indexed <$> s_pending s ++ [from_record (record_of a frame) (zlen (log_bytes l))] ∧
    next_sequence (s_meta s'') = next_sequence meta + 1 ∧
    o_truncated_partial_tail_bytes report = 0 ∧ o_corrupted_at_offset report = None.
Proof.
  intros Hh Ha Hbk Hfit Hc Hn Hw.
  destruct (append_at config s d meta l binding new a frame w compacted Hh Ha)
    as (s' & d' & E & Hh' & _ & Hp & _ & Em & Ecur & Eck & Erec).
  destruct Ha as [Hcfg Hlog Hseq Hnext Hhealthy _ _ _ _ Hroom _ _].
  assert (integrity stored = Healthy) as Hs.
  { pose proof (bk_next _ _ _ _ _ Hbk) as Hb. unfold advance_next_sequence in Hb.
    destruct (advance_loop _ _ _); [|done]. by injection Hb as <-. }
  destruct (appended_spool_at config s' d d' stored meta l a frame) as [f Hat]; try done; try lia.
  { intros f Hf. rewrite Erec in Hf. destruct (records d) as [f0|]; [|done]. injection Hf as <-. by apply Hfit. }
  { rewrite log_bytes_snoc, zlen_app. lia. }
  destruct (open_at_log config lease d' f stored _ _ [] Hat) as (d'' & s'' & report & Eo & Er & _ & Hha & Ht & Hco & _).
  destruct (Hha (or_introl eq_refl)) as ([_ Hm _ _ _ _ _ _ (map & Hmap & Hpend) _] & _ & _).
  exists s', d', d'', s'', report. split_and!; [done..| | | |done|done].
  - unfold records_content. rewrite Er. cbn [fmap option_fmap option_map recovered_file is_empty].
    by rewrite (at_content _ _ _ _ _ _ _ Hat), app_nil_r, log_bytes_snoc.
  - destruct Hh' as [_ _ _ _ _ _ _ _ (map' & Hmap' & Hpend') _]. rewrite <- Hp, Hpend, Hpend'.
    pose proof (bk_next _ _ _ _ _ Hbk) as Hb. unfold advance_next_sequence in Hb.
    destruct (advance_loop _ _ _) as [next|]; [|done]. injection Hb as <-.
    change (acknowledged_map (with_next_sequence stored (next + 1)) = Ok map) in Hmap.
    change (acknowledged_map (with_next_sequence stored (next + 1)) = Ok map') in Hmap'.
    rewrite Hmap' in Hmap. by injection Hmap as <-.
  - by rewrite Hm.
Qed.

(** ** A log longer than the record limit *)
Lemma io_bind_inv {A B} (m : io A) (k : A → io B) d d' b :
  io_bind m k d = (d', Ok b) → ∃ d1 a, m d = (d1, Ok a) ∧ k a d1 = (d', Ok b).
Proof. unfold io_bind. destruct (m d) as [d1 [a|e]]; [eauto|done]. Qed.

(** An open whose scan reports corruption returns a handle that is corrupted
    there, with the pending records among those of the scan. *)
Lemma open_records_corruption config lease d sc off d' s report :
  scan_after d config (fst (content_trusted d (revision_trusted d (read_checkpoint (checkpoint_file d) config)))) = Ok sc →
  corruption sc = Some off → open_after_lease config lease d = (d', Ok (s, report)) →
  o_corrupted_at_offset report = Some off ∧ integrity (s_meta s) = CorruptedAt off ∧
  ∀ r, r ∈ s_pending s → r ∈ scan_records_found sc.
Proof.
  intros Hsc Hco Hopen. unfold open_after_lease in Hopen.
  apply io_bind_inv in Hopen as (d1 & stored & E1 & Hopen). injection E1 as <- _.
  apply io_bind_inv in Hopen as (d1 & [] & E1 & Hopen). injection E1 as <- _.
  do 3 (apply io_bind_inv in Hopen as (d1 & ? & E1 & Hopen); injection E1 as <- <-).
  apply io_bind_inv in Hopen as (d1 & sc' & E1 & Hopen). rewrite Hsc in E1. injection E1 as <- <-.
  apply io_bind_inv in Hopen as (d1 & ((meta & sc') & cut) & E1 & Hopen).
  unfold recover_tail in E1. rewrite Hco in E1. apply io_bind_inv in E1 as (d2 & [] & _ & E1).
  injection E1 as <- <- <- <-.
  apply io_bind_inv in Hopen as (d1 & prefix & _ & Hopen). apply io_bind_inv in Hopen as (d3 & [] & _ & Hopen).
  apply io_bind_inv in Hopen as (d4 & ((meta' & cp) & rewritten) & E1 & Hopen).
  unfold settle_open in E1. cbn [integrity with_integrity] in E1. injection E1 as <- <- _ <-.
  apply io_bind_inv in Hopen as (d5 & map & _ & Hopen). apply io_bind_inv in Hopen as (d6 & usage & _ & Hopen).
  apply io_bind_inv in Hopen as (d7 & [] & _ & Hopen). apply io_bind_inv in Hopen as (d8 & after & _ & Hopen).
  injection Hopen as _ <- <-. cbn. split_and!; [done..|]. intros r Hr.
  unfold pending_of in Hr. by apply list_elem_of_In, filter_In in Hr as [Hr%list_elem_of_In _].
Qed.

(** The scan of a longer log, from a checkpoint of a prefix or from none. *)
Lemma scan_after_full_log config d l a frame :
  config_validate config = Ok tt → log_ok (host config) (l ++ [(a, frame)]) →
  zlen (log_bytes l ++ frame) <= max_host_bytes (limits config) →
  zlen l = max_host_records (limits config) → records_content d = Some (log_bytes l ++ frame) →
  (∀ cp, read_checkpoint (checkpoint_file d) config = Some cp →
    ∃ l0 l1, l = l0 ++ l1 ∧ v_records cp = indexed <$> log_records 0 l0 ∧ covered_end cp = zlen (log_bytes l0)) →
  ∃ sc, scan_after d config (fst (content_trusted d (revision_trusted d (read_checkpoint (checkpoint_file d) config)))) = Ok sc ∧
    corruption sc = Some (zlen (log_bytes l)) ∧ p_sequence <$> scan_records_found sc = (λ x, a_sequence x.1) <$> l.
Proof.
  intros Hc Hlog Hb Hn Hd Hi. pose proof (log_ok_app _ _ _ Hlog) as Hl.
  assert (log_entry_ok (host config) (a, frame)) as Ha
    by (destruct Hlog as [Hlog _]; apply Forall_app in Hlog as [_ Hlog]; by apply Forall_cons in Hlog as [? _]).
  pose proof (scan_full_log config l a frame [] Hc Hl Ha) as Hfull. rewrite !app_nil_r in Hfull.
  specialize (Hfull Hb Hn). destruct (fst (content_trusted _ _)) as [cp|] eqn:Ecp.
  - apply trusted_is_read in Ecp. destruct (Hi cp Ecp) as (l0 & l1 & -> & Hr & He).
    unfold scan_after. rewrite Hd, Hr, He. unfold zlen in Hn. rewrite length_app in Hn.
    apply config_validate_bounds in Hc as Hbounds. destruct Hbounds as (_ & B & _).
    unfold MAX_SPOOL_RECORDS_PER_HOST in B. rewrite Z.gtb_ltb, (proj2 (Z.ltb_ge _ _)).
    2:{ unfold zlen. rewrite length_fmap, log_records_length. unfold u32_max. lia. }
    pose proof (scan_from_index config l0 (log_bytes l1 ++ frame) Hc (log_ok_app _ _ _ Hl)) as Hs.
    rewrite log_bytes_app, <- app_assoc in *. rewrite Hfull in Hs.
    specialize (Hs Hb ltac:(unfold zlen; lia)). unfold same_scan in Hs.
    destruct (scan_records_from _ _ _ _) as [sc|]; [|done]. destruct Hs as ((t & E1 & E2) & _ & _ & _ & Hco & _).
    exists sc. split_and!; [done|exact Hco|]. cbn in E2. rewrite E1, fmap_app, indexed_sequences, <- fmap_app, <- E2.
    apply log_records_sequences.
  - unfold scan_after. rewrite Hd, Hfull. eexists. split_and!; [done..|]. apply log_records_sequences.
Qed.

(** C36. An append past the record limit destroys the spool. On a handle whose
    file holds as many frames as the record limit, settled ones included, the
    append of any event that the pending records leave room for succeeds; and
    then no open, whatever its lease, returns a healthy handle: it reports
    corruption at the offset of the new frame, the event is not among its
    pending records, and every append to it is refused. *)
Theorem append_past_the_limit_corrupts config s d stored meta l binding new a frame w compacted :
  handle_at config s d meta l → appendable config s d meta l binding new a frame →
  backed_by config d stored meta l → zlen l = max_host_records (limits config) →
  ∃ s' d',
    append_with_native_lifecycle (a_envelope a) (a_lifecycle a) binding (a_queued_at a) w new compacted (s, d) =
      ((s', d'), Ok (record_of a frame)) ∧
    ∀ lease d'' s'' report, open_after_lease config lease d' = (d'', Ok (s'', report)) →
      o_corrupted_at_offset report = Some (zlen (log_bytes l)) ∧
      (∀ r, r ∈ s_pending s'' → p_sequence r ≠ a_sequence a) ∧
      ∀ e lifecycle binding' now w' new' compacted',
        append_with_native_lifecycle e lifecycle binding' now w' new' compacted' (s'', d'') =
          ((s'', d''), Err (Corrupted (zlen (log_bytes l)))).
Proof.
  intros Hh Ha Hbk Hn. destruct (append_at config s d meta l binding new a frame w compacted Hh Ha)
    as (s' & d' & E & Hh' & _ & _ & _ & _ & _ & Eck & _).
  exists s', d'. split; [done|]. intros lease d'' s'' report Ho.
  pose proof (ha_content _ _ _ _ _ Hh') as Hcont. rewrite log_bytes_snoc in Hcont.
  pose proof (ap_log _ _ _ _ _ _ _ _ _ Ha) as Hlog.
  destruct (scan_after_full_log config d' l a frame) as (sc & Hsc & Hco & Hseq); try done.
  { apply (ap_config _ _ _ _ _ _ _ _ _ Ha). }
  { rewrite zlen_app. apply (ap_room _ _ _ _ _ _ _ _ _ Ha). }
  { rewrite Eck. apply (bk_index _ _ _ _ _ Hbk). }
  destruct (open_records_corruption _ _ _ _ _ _ _ _ Hsc Hco Ho) as (R1 & R2 & R3). split_and!; [done| |].
  - intros r Hr%R3 Heq. destruct Hlog as [_ Hs]. rewrite fmap_app in Hs.
    assert (a_sequence a ∈ (λ x : Appended * bytes, a_sequence x.1) <$> l) as Hin
      by (rewrite <- Hseq, <- Heq; by apply list_elem_of_fmap_2).
    pose proof (StronglySorted_app_1_elem_of _ _ _ _ (a_sequence a) Hs Hin ltac:(by left)). lia.
  - intros. unfold append_with_native_lifecycle, append_pass, op_bind, op_get, op_lift, ensure_writable, ensure_healthy.
    cbn [fst]. by rewrite R2.
Qed.

End append.
