(* ===== verification/SpoolRun.v ===== *)
(** * Runs of a spool

    Whole hook invocations and settlements, each with a handle of its own, over
    one directory, and concrete codecs to evaluate them with. *)
From stdpp Require Import base numbers strings list.
From S2P Require Import Prelude RustText Bytes OrdMap HookContract SpoolFrame SpoolScan SpoolMeta.
From S2P Require Import SpoolReplay SpoolCheckpoint SpoolDisk SpoolCommit SpoolOpen SpoolRecovery.
From S2P Require Import SpoolHandle SpoolAppend.

#[local] Open Scope Z_scope.
#[local] Open Scope rust_scope.

(** ** Invocations *)
Section runs.
Context `{Sha256} `{HookSpoolCodec} `{CheckpointCodec} `{TransitionCodec} `{MetaCodec}.

Definition open_at (config : HookSpoolConfigV1) (now : Z) (d : Disk) :
    Disk * result (HookSpoolV1 * HookSpoolOpenReportV1) HookSpoolError :=
  match config_validate config with
  | Err e => (d, Err e)
  | Ok _ =>
    match new_lease (writer_lease_micros config) now 1 1 with
    | Err e => (d, Err e)
    | Ok lease => open_after_lease config lease d
    end
  end.

(** One operation on a handle opened for it. *)
Definition with_open {A} (config : HookSpoolConfigV1) (now : Z) (m : op A) (d : Disk) :
    Disk * result A HookSpoolError :=
  match open_at config now d with
  | (d, Ok (s, _)) => let '((_, d), r) := m (s, d) in (d, r)
  | (d, Err e) => (d, Err e)
  end.

(** A hook: open, append, release the lease and commit. *)
Definition hook (config : HookSpoolConfigV1) (e : HookEventEnvelopeV2) (binding : HookScopeBindingV1)
    (now ino : Z) (d : Disk) : Disk * result HookSpoolRecordV1 HookSpoolError :=
  with_open config now
    (let* record := append e binding now quiet (1, ino, ino) (1, ino + 1, ino + 1) in
     let* _ := commit in op_ret record) d.

(** A settlement pass of the daemon. *)
Definition settle (config : HookSpoolConfigV1) (acks : list HookSpoolAckV1) (now ino : Z) (d : Disk) :
    Disk * result (list (result bool HookSpoolError)) HookSpoolError :=
  with_open config now (acknowledge_many acks now quiet quiet quiet (1, ino, ino)) d.
End runs.

(** ** Concrete codecs: a value is the list of its fields, lists with their
    length first *)
Definition put_list (l rest : bytes) : bytes := zlen l :: l ++ rest.
Definition get_list (b : bytes) : option (bytes * bytes) :=
  match b with
  | n :: rest => Some (take (Z.to_nat n) rest, drop (Z.to_nat n) rest)
  | [] => None
  end.

Lemma get_put_list l rest : get_list (put_list l rest) = Some (l, rest).
Proof. unfold get_list, put_list, zlen. rewrite Nat2Z.id, take_app_length, drop_app_length. done. Qed.

Definition host_number (h : NativeHostIdentityV1) : Z :=
  match h with
  | ClaudeCode => 0 | CursorDesktop => 1 | CursorCloud => 2 | Codex => 3 | Hermes => 4 | Kiro => 5
  | Cline => 6 | RooCode => 7 | Kilo => 8 | KimiCode => 9 | OpenCode => 10 | Pi => 11
  | FactoryDroid => 12
  end.

Definition host_of_number (n : Z) : NativeHostIdentityV1 :=
  match n with
  | 0 => ClaudeCode | 1 => CursorDesktop | 2 => CursorCloud | 3 => Codex | 4 => Hermes | 5 => Kiro
  | 6 => Cline | 7 => RooCode | 8 => Kilo | 9 => KimiCode | 10 => OpenCode | 11 => Pi
  | _ => FactoryDroid
  end.

Lemma host_number_inj h : host_of_number (host_number h) = h.
Proof. by destruct h. Qed.

Definition put_revision (r : RecordsFileRevisionV1) (rest : bytes) : bytes :=
  put_list (identity r) (length_ r :: fst (modified r) :: snd (modified r) ::
    fst (changed r) :: snd (changed r) :: rest).
Definition get_revision (b : bytes) : option (RecordsFileRevisionV1 * bytes) :=
  match get_list b with
  | Some (i, l :: m1 :: m2 :: c1 :: c2 :: rest) =>
    Some ({| identity := i; length_ := l; modified := (m1, m2); changed := (c1, c2) |}, rest)
  | _ => None
  end.

Lemma get_put_revision r rest : get_revision (put_revision r rest) = Some (r, rest).
Proof. unfold get_revision, put_revision. rewrite get_put_list. by destruct r as [? ? [] []]. Qed.

Definition put_revision_option (r : option RecordsFileRevisionV1) (rest : bytes) : bytes :=
  match r with None => 0 :: rest | Some r => 1 :: put_revision r rest end.
Definition get_revision_option (b : bytes) : option (option RecordsFileRevisionV1 * bytes) :=
  match b with
  | 0 :: rest => Some (None, rest)
  | _ :: rest => match get_revision rest with Some (r, rest) => Some (Some r, rest) | None => None end
  | [] => None
  end.

Lemma get_put_revision_option r rest : get_revision_option (put_revision_option r rest) = Some (r, rest).
Proof. destruct r; [|done]. cbn [put_revision_option get_revision_option]. by rewrite get_put_revision. Qed.

Definition flat_header (h : HookSpoolCheckpointHeaderV1) : bytes :=
  h_version h :: host_number (h_host h) :: h_record_count h ::
    put_revision_option (h_records_revision h) (h_covered_checksum h).
Definition header_of_flat (b : bytes) : option HookSpoolCheckpointHeaderV1 :=
  match b with
  | v :: h :: n :: rest =>
    match get_revision_option rest with
    | Some (r, c) => Some {| h_version := v; h_host := host_of_number h; h_records_revision := r;
                             h_covered_checksum := c; h_record_count := n |}
    | None => None
    end
  | _ => None
  end.

Definition flat_checkpoint_codec : CheckpointCodec.
Proof.
  refine {| header_json_bytes := λ h, Some (flat_header h); header_from_slice := header_of_flat |}.
  intros [v h r c n] b [= <-]. unfold flat_header, header_of_flat.
  cbn [h_version h_host h_records_revision h_covered_checksum h_record_count].
  by rewrite get_put_revision_option, host_number_inj.
Defined.

Definition flat_body (t : HookSpoolTransitionBodyV1) : bytes :=
  t_version t :: put_list (t_checkpoint_checksum t)
    (put_revision_option (t_checkpoint_revision t) (put_revision (t_current_revision t) [])).
Definition body_of_flat (b : bytes) : option HookSpoolTransitionBodyV1 :=
  match b with
  | v :: rest =>
    match get_list rest with
    | Some (c, rest) =>
      match get_revision_option rest with
      | Some (r, rest) =>
        match get_revision rest with
        | Some (n, _) => Some {| t_version := v; t_checkpoint_checksum := c; t_checkpoint_revision := r;
                                 t_current_revision := n |}
        | None => None
        end
      | None => None
      end
    | None => None
    end
  | [] => None
  end.

Lemma body_of_flat_body t : body_of_flat (flat_body t) = Some t.
Proof.
  unfold body_of_flat, flat_body. rewrite get_put_list, get_put_revision_option, get_put_revision. by destruct t.
Qed.

Definition flat_transition_codec : TransitionCodec.
Proof.
  refine {| body_json_bytes := λ t, Some (flat_body t);
            transition_to_vec := λ f, Some (put_list (t_checksum f) (flat_body (t_body f)));
            transition_from_slice := λ b,
              match get_list b with
              | Some (c, rest) => (λ t, {| t_body := t; t_checksum := c |}) <$> body_of_flat rest
              | None => None
              end |}.
  intros [t c] b [= <-]. cbn [t_body t_checksum]. by rewrite get_put_list, body_of_flat_body.
Defined.

Definition put_ack (k : AcknowledgedSequenceV1) (rest : bytes) : bytes :=
  k_sequence k :: (match k_disposition k with Committed => 0 | TerminalTombstone => 1 end) ::
    put_list (k_receipt_id k) rest.
Fixpoint get_acks (n : nat) (b : bytes) : list AcknowledgedSequenceV1 :=
  match n, b with
  | S n, s :: d :: rest =>
    match get_list rest with
    | Some (r, rest) =>
      {| k_sequence := s; k_receipt_id := r;
         k_disposition := if d =? 0 then Committed else TerminalTombstone |} :: get_acks n rest
    | None => []
    end
  | _, _ => []
  end.

Lemma get_put_acks l : get_acks (length l) (foldr put_ack [] l) = l.
Proof.
  induction l as [|[s r d] l IH]; [done|]. cbn [length foldr put_ack get_acks k_sequence k_receipt_id k_disposition].
  rewrite get_put_list, IH. by destruct d.
Qed.

Definition flat_meta (m : HookSpoolMetaV1) : bytes :=
  version m :: committed_through m :: next_sequence m ::
    (match integrity m with Healthy => -1 | CorruptedAt offset => offset end) ::
    zlen (acknowledged m) :: foldr put_ack [] (acknowledged m).
Definition meta_of_flat (b : bytes) : option HookSpoolMetaV1 :=
  match b with
  | v :: c :: n :: i :: k :: rest => Some {|
      version := v; committed_through := c; next_sequence := n; acknowledged := get_acks (Z.to_nat k) rest;
      integrity := if i =? -1 then Healthy else CorruptedAt i; retired_append_intent := None |}
  | _ => None
  end.

(** The offset of a recorded corruption is a [u64]. *)
Definition offset_typed (m : HookSpoolMetaV1) : bool :=
  match integrity m with Healthy => true | CorruptedAt offset => 0 <=? offset end.

Definition flat_meta_codec : MetaCodec.
Proof.
  refine {| MetaValue := HookSpoolMetaV1; meta_from_slice := meta_of_flat;
            meta_version := λ m, Some (version m); meta_from_value := Some;
            meta_to_vec := λ m, if offset_typed m then Some (flat_meta m) else None |}.
  - intros meta b. destruct (offset_typed meta); [|done]. by intros [= <-].
  - intros [v c n a i r] b. unfold offset_typed. cbn [integrity]. intros Hb Hr. cbn [retired_append_intent] in Hr. subst r.
    eexists. split_and!; [|done|done].
    destruct i as [|off]; [|destruct (Z.leb_spec 0 off); [|done]]; injection Hb as <-;
      unfold flat_meta, meta_of_flat; cbn [version committed_through next_sequence acknowledged integrity];
      unfold zlen; rewrite Nat2Z.id, get_put_acks; [done|]. by rewrite (proj2 (Z.eqb_neq _ _)) by lia.
Defined.

(** ** Sample spools *)
#[local] Existing Instance mixing_sha256.
#[local] Existing Instance sample_codec.
#[local] Existing Instance flat_checkpoint_codec.
#[local] Existing Instance flat_transition_codec.
#[local] Existing Instance flat_meta_codec.

(** A host with room for [n] records. *)
Definition run_config (n : Z) : HookSpoolConfigV1 := {|
  host := Codex;
  limits := {| max_host_records := n; max_host_bytes := 100000;
               max_session_records := n; max_session_bytes := 90000 |};
  writer_lease_micros := 5000000 |}.

Definition run_binding : HookScopeBindingV1 := {|
  binding_host := Codex; binding_project_id := repeat 1 16; binding_repository_id := repeat 2 16;
  binding_worktree_id := repeat 3 16; binding_worktree_epoch := 4; binding_binding_token := repeat 5 32;
  capabilities := [{| capability_family := SessionBoundaryFamily; capability_support := Native |}] |}.

(** A hook with the event [n], or the settlement of the sequence [n]. *)
Inductive invocation : Type := HookWith (n : Z) | SettleOne (n : Z).

Definition invoke (config : HookSpoolConfigV1) (i : invocation) (ino : Z) (d : Disk) : Disk * bool :=
  match i with
  | HookWith n =>
    let '(d, r) := hook config (a_envelope (sample_append n)) run_binding 1000 ino d in (d, is_ok r)
  | SettleOne n =>
    let ack := {| ack_sequence := n; ack_receipt_id := repeat 7 16; ack_disposition := Committed |} in
    let '(d, r) := settle config [ack] 1000 ino d in
    (d, match r with Ok [Ok true] => true | _ => false end)
  end.

(** The disk after the invocations, and which of them succeeded. *)
Fixpoint run (config : HookSpoolConfigV1) (steps : list invocation) (ino : Z) (d : Disk) : Disk * list bool :=
  match steps with
  | [] => (d, [])
  | i :: steps =>
    let '(d, b) := invoke config i ino d in
    let '(d, bs) := run config steps (ino + 2) d in (d, b :: bs)
  end.

Definition open_report (config : HookSpoolConfigV1) (d : Disk) : result HookSpoolOpenReportV1 HookSpoolError :=
  match snd (open_at config 1000 d) with Ok (_, report) => Ok report | Err e => Err e end.

Definition run_start : Disk := empty_root (0, 0).

(** ** Runs that lose the spool *)

(** The recovery scan counts every frame of the file against the record
    limit, the append only the pending ones, and the file is compacted only
    when it is more than twice as long as they are. So whole hooks and
    settlements reach what [append_past_the_limit_corrupts] describes: on a
    host with room for two records, three hooks and one settlement all succeed,
    and the next open records the third frame as corruption, and every later
    hook is refused. *)
Example settled_frames_brick_the_spool :
  let '(d, succeeded) :=
    run (run_config 2) [HookWith 1; HookWith 2; SettleOne 1; HookWith 3] 10 run_start in
  succeeded = [true; true; true; true] ∧
  (∃ report, open_report (run_config 2) d = Ok report ∧
     o_pending_records report = 1 ∧ o_corrupted_at_offset report = Some 190) ∧
  snd (hook (run_config 2) (a_envelope (sample_append 1)) run_binding 1000 30 d) = Err (Corrupted 190).
Proof. vm_compute. split; [done|]. split; [|done]. by eexists. Qed.

(** The metadata of a spool is refused when the sequences past the settled
    frontier outnumber the record limit, but one record that stays unsettled
    while later ones are settled keeps the frontier in place.  On a host with
    room for three records, where the first of four events is never settled,
    every hook and settlement succeeds with at most two events pending, and
    then no open succeeds any more. *)
Theorem stuck_record_blocks_every_open :
  let '(d, succeeded) := run (run_config 3)
    [HookWith 1; HookWith 2; SettleOne 2; HookWith 3; SettleOne 3; HookWith 2] 10 run_start in
  succeeded = [true; true; true; true; true; true] ∧
  open_at (run_config 3) 1000 d = (d, Err MetadataCorrupted).
Proof. vm_compute. done. Qed.

(** ** Evaluation *)
Definition file_with (content : bytes) : RecordsFile := {|
  rf_dev := 1; rf_ino := 10; rf_generation := 0; rf_content := content; rf_synced := 0;
  rf_modified := (5, 0); rf_changed := (5, 0) |}.

(** A directory with these files. *)
Definition disk_with (content : bytes) (meta checkpoint cursor : option bytes) : Disk :=
  let d := with_accelerators (with_records (empty_root (7, 0)) (Some (file_with content))) checkpoint None cursor in
  rename_meta d meta.

Definition sample_spool_meta (next : Z) : HookSpoolMetaV1 := {|
  version := version fresh; committed_through := 0; next_sequence := next; acknowledged := [];
  integrity := Healthy; retired_append_intent := None |}.

Definition sample_torn : bytes := take 50 (sample_frame 3).

(** Two complete frames and a torn one, metadata from before the second. *)
Definition torn_disk : Disk :=
  disk_with (log_bytes sample_log ++ sample_torn) (Some (flat_meta (sample_spool_meta 2))) None None.

Lemma sample_log_ok : log_ok Codex sample_log.
Proof. split; repeat constructor. Qed.

Lemma torn_disk_at :
  spool_at (run_config 4) torn_disk (file_with (log_bytes sample_log ++ sample_torn)) (sample_spool_meta 2) 3
    sample_log sample_torn.
Proof.
  constructor.
  - reflexivity.
  - reflexivity.
  - reflexivity.
  - exact sample_log_ok.
  - vm_compute. discriminate.
  - vm_compute. discriminate.
  - right. exists (sample_append 3), (sample_frame 3), 50%nat. split_and!; [split; vm_compute; reflexivity| | |done];
      apply Nat.ltb_lt; vm_compute; reflexivity.
  - intros _ n E. vm_compute in E. discriminate.
  - vm_compute. reflexivity.
  - reflexivity.
  - reflexivity.
  - vm_compute. reflexivity.
  - vm_compute. reflexivity.
  - intros cp E. vm_compute in E. discriminate.
  - eexists. split; [|reflexivity]. vm_compute. discriminate.
  - intros map Hmap. vm_compute in Hmap. injection Hmap as <-. vm_compute. reflexivity.
  - reflexivity.
Qed.


Lemma open_never_cuts_synced_bytes_witness :
  ∃ f, records (fst (open_after_lease (run_config 4) {| token := []; expires_at := 9 |} torn_disk)) = Some f ∧
    rf_content f = log_bytes sample_log ∧ synced_through torn_disk (records_identity f) = None.
Proof.
  destruct (open_never_cuts_synced_bytes (run_config 4) {| token := []; expires_at := 9 |} torn_disk
    (file_with (log_bytes sample_log ++ sample_torn)) eq_refl) as (f & E & Hi & _).
  exists f. split; [done|]. rewrite Hi. split; [|vm_compute; reflexivity].
  vm_compute in E. injection E as <-. vm_compute. reflexivity.
Defined.

Lemma empty_cursor_blocks_every_open_witness :
  is_err (snd (open_after_lease (run_config 4) {| token := []; expires_at := 9 |}
    (disk_with (log_bytes sample_log) None None (Some [])))) = true.
Proof. by apply (empty_cursor_blocks_every_open (run_config 4)). Defined.

(** Three frames and the checkpoint of the first two. *)
Definition sample_written_checkpoint : result (bytes * CheckpointAnchorV1) HookSpoolError :=
  write_checkpoint (Some (revision_for_file (file_with (log_bytes sample_log)))) (run_config 4)
    (log_records 0 sample_log) (digest_of (log_bytes sample_log)).

Definition indexed_disk : Disk :=
  disk_with (log_bytes sample_log ++ sample_frame 3) (Some (flat_meta (sample_spool_meta 2)))
    (Some (fst (written sample_written_checkpoint))) None.

Lemma checkpoint_open_equals_full_scan_witness :
  ∃ cp, read_checkpoint (checkpoint_file indexed_disk) (run_config 4) = Some cp ∧
    same_scan (indexed <$> log_records 0 sample_log) (log_records 0 sample_log) 0 (zlen sample_log)
      (scan_after indexed_disk (run_config 4) (Some cp)) (scan_after indexed_disk (run_config 4) None).
Proof.
  eexists. split; [vm_compute; reflexivity|].
  refine (proj2 (checkpoint_open_equals_full_scan (run_config 4) indexed_disk (log_bytes sample_log ++ sample_frame 3)
    (Some (revision_for_file (file_with (log_bytes sample_log)))) sample_log
    (fst (written sample_written_checkpoint)) (snd (written sample_written_checkpoint)) _ _ _ _ _ _ _ _ _ _)).
  - reflexivity.
  - exact sample_log_ok.
  - vm_compute. reflexivity.
  - vm_compute. reflexivity.
  - reflexivity.
  - vm_compute. discriminate.
  - vm_compute. discriminate.
  - intros _. vm_compute. reflexivity.
  - vm_compute. reflexivity.
Defined.

Lemma flat_transition_writes d anchor : records d ≠ None → is_ok (write_transition d anchor) = true.
Proof. unfold write_transition, records_file_revision. by destruct (records d). Qed.

(** The checks of [spool_at] on a concrete directory without a torn tail. *)
Ltac whole_log_evaluates :=
  constructor;
  [ reflexivity | reflexivity | by rewrite app_nil_r | exact sample_log_ok | vm_compute; discriminate
  | vm_compute; discriminate | by left | done | vm_compute; reflexivity | reflexivity | reflexivity
  | vm_compute; reflexivity | vm_compute; reflexivity
  | let E := fresh in intros ? E; vm_compute in E; discriminate
  | eexists; split; [|reflexivity]; vm_compute; discriminate
  | let E := fresh in intros ? E; vm_compute in E; injection E as <-; vm_compute; reflexivity
  | reflexivity ].

(** The checks of [appendable] on an evaluated handle. *)
Ltac append_evaluates :=
  constructor;
  [ reflexivity | split; repeat constructor | reflexivity | vm_compute; done | reflexivity
  | vm_compute; reflexivity | vm_compute; reflexivity | vm_compute; reflexivity | vm_compute; reflexivity
  | vm_compute; discriminate | intros ?; by apply flat_transition_writes | intros ? ?; discriminate ].

(** The handle of an open of the two frames, with its disk. *)
Definition sample_disk : Disk :=
  disk_with (log_bytes sample_log) (Some (flat_meta (sample_spool_meta 2))) None None.

Lemma sample_disk_at :
  spool_at (run_config 4) sample_disk (file_with (log_bytes sample_log)) (sample_spool_meta 2) 3 sample_log [].
Proof. whole_log_evaluates. Qed.

(** What the open of [sample_disk] returns, by evaluation. *)
Definition sample_opened : Disk * result (HookSpoolV1 * HookSpoolOpenReportV1) HookSpoolError :=
  Eval vm_compute in open_after_lease (run_config 4) {| token := []; expires_at := 5000 |} sample_disk.

Lemma sample_opened_eq :
  open_after_lease (run_config 4) {| token := []; expires_at := 5000 |} sample_disk = sample_opened.
Proof. vm_compute. reflexivity. Qed.

Definition sample_third : Appended := sample_append 3.

Definition opened_handle_at (s : HookSpoolV1) (d : Disk) : Prop :=
  sample_opened = (d, match snd sample_opened with Ok (_, r) => Ok (s, r) | Err e => Err e end).

Lemma sample_handle_at s d :
  opened_handle_at s d → handle_at (run_config 4) s d (sample_spool_meta 3) sample_log ∧
    appendable (run_config 4) s d (sample_spool_meta 3) sample_log run_binding (1, 20, 20)
      sample_third (sample_frame 3).
Proof.
  intros Ho.
  destruct (open_at_log (run_config 4) {| token := []; expires_at := 5000 |} sample_disk _ _ _ _ _ sample_disk_at)
    as (d' & s' & report & E & _ & _ & Hh & _).
  rewrite sample_opened_eq in E. unfold opened_handle_at in Ho. rewrite E in Ho. injection Ho as -> ->.
  split; [by apply Hh; left|]. clear Hh. injection E as <- <- _.
  append_evaluates.
Qed.

Lemma sample_handle_exists : ∃ s d, opened_handle_at s d.
Proof. unfold opened_handle_at. eexists _, _. vm_compute. reflexivity. Qed.

Lemma append_extends_the_log_witness :
  ∃ s d s' d', opened_handle_at s d ∧
    append_with_native_lifecycle (a_envelope sample_third) None run_binding 1003 quiet (1, 20, 20) (1, 21, 21) (s, d) =
      ((s', d'), Ok (record_of sample_third (sample_frame 3))) ∧
    handle_at (run_config 4) s' d' (sample_spool_meta 4) (sample_log ++ [(sample_third, sample_frame 3)]).
Proof.
  destruct sample_handle_exists as (s & d & Ho). destruct (sample_handle_at s d Ho) as [Hh Ha].
  destruct (append_extends_the_log (run_config 4) s d (sample_spool_meta 3) sample_log run_binding (1, 20, 20)
    sample_third (sample_frame 3) quiet (1, 21, 21) Hh Ha) as (s' & d' & E & Hh' & _).
  by exists s, d, s', d'.
Defined.

Lemma sample_backed s d : opened_handle_at s d →
  backed_by (run_config 4) d (sample_spool_meta 2) (sample_spool_meta 3) sample_log ∧
  ∀ f, records d = Some f →
    header_fits (run_config 4) (appended_file (clock d) f (sample_frame 3)) (sample_log ++ [(sample_third, sample_frame 3)]).
Proof.
  intros Ho. assert (d = fst sample_opened) as -> by (unfold opened_handle_at in Ho; by rewrite Ho).
  split; [constructor|].
  - vm_compute. reflexivity.
  - reflexivity.
  - vm_compute. reflexivity.
  - vm_compute. reflexivity.
  - intros cp E. vm_compute in E. injection E as <-. exists sample_log, []. split_and!; [done|vm_compute; reflexivity..].
  - reflexivity.
  - intros f E. injection E as <-. eexists. split; [|reflexivity]. vm_compute. discriminate.
Qed.

Lemma appended_record_is_recovered_witness :
  ∃ s d s' d' d'' s'' report, opened_handle_at s d ∧
    append_with_native_lifecycle (a_envelope sample_third) None run_binding 1003 quiet (1, 20, 20) (1, 21, 21) (s, d) =
      ((s', d'), Ok (record_of sample_third (sample_frame 3))) ∧
    open_after_lease (run_config 4) {| token := []; expires_at := 9000 |} d' = (d'', Ok (s'', report)) ∧
    records_content d'' = Some (log_bytes sample_log ++ sample_frame 3) ∧ o_corrupted_at_offset report = None.
Proof.
  destruct sample_handle_exists as (s & d & Ho). destruct (sample_handle_at s d Ho) as [Hh Ha].
  destruct (sample_backed s d Ho) as [Hb Hf].
  destruct (appended_record_is_recovered (run_config 4) s d (sample_spool_meta 2) (sample_spool_meta 3) sample_log
    run_binding (1, 20, 20) sample_third (sample_frame 3) quiet (1, 21, 21) {| token := []; expires_at := 9000 |}
    Hh Ha Hb Hf) as (s' & d' & d'' & s'' & report & E1 & E2 & E3 & _ & _ & _ & E4); [done..|].
  by exists s, d, s', d', d'', s'', report.
Defined.

(** The two frames on a host with room for two records, the first one settled. *)
Definition full_meta (next : Z) : HookSpoolMetaV1 := {|
  version := version fresh; committed_through := 1; next_sequence := next; acknowledged := [];
  integrity := Healthy; retired_append_intent := None |}.

Definition full_disk : Disk := disk_with (log_bytes sample_log) (Some (flat_meta (full_meta 3))) None None.

Lemma full_disk_at :
  spool_at (run_config 2) full_disk (file_with (log_bytes sample_log)) (full_meta 3) 3 sample_log [].
Proof. whole_log_evaluates. Qed.

Definition full_opened : Disk * result (HookSpoolV1 * HookSpoolOpenReportV1) HookSpoolError :=
  Eval vm_compute in open_after_lease (run_config 2) {| token := []; expires_at := 5000 |} full_disk.

Lemma full_opened_eq :
  open_after_lease (run_config 2) {| token := []; expires_at := 5000 |} full_disk = full_opened.
Proof. vm_compute. reflexivity. Qed.

Lemma full_handle_at s report :
  snd full_opened = Ok (s, report) →
  handle_at (run_config 2) s (fst full_opened) (full_meta 3) sample_log ∧
  appendable (run_config 2) s (fst full_opened) (full_meta 3) sample_log run_binding (1, 20, 20)
    sample_third (sample_frame 3) ∧
  backed_by (run_config 2) (fst full_opened) (full_meta 3) (full_meta 3) sample_log.
Proof.
  intros Ho.
  destruct (open_at_log (run_config 2) {| token := []; expires_at := 5000 |} full_disk _ _ _ _ _ full_disk_at)
    as (d' & s' & report' & E & _ & _ & Hh & _).
  rewrite full_opened_eq in E. rewrite E in Ho |- *. injection Ho as -> ->. cbn [fst].
  split; [by apply Hh; left|]. clear Hh. injection E as <- <- _. split; [append_evaluates|].
  constructor; [vm_compute; reflexivity|reflexivity|vm_compute; reflexivity|vm_compute; reflexivity| |reflexivity].
  intros cp E. vm_compute in E. injection E as <-. exists sample_log, []. split_and!; [done|vm_compute; reflexivity..].
Qed.

(** The append succeeds, and the open that follows returns a corrupted handle. *)
Lemma append_past_the_limit_corrupts_witness :
  ∃ s d s' d' d'' s'' report,
    full_opened = (d, match snd full_opened with Ok (_, r) => Ok (s, r) | Err e => Err e end) ∧
    append_with_native_lifecycle (a_envelope sample_third) None run_binding 1003 quiet (1, 20, 20) (1, 21, 21) (s, d) =
      ((s', d'), Ok (record_of sample_third (sample_frame 3))) ∧
    open_after_lease (run_config 2) {| token := []; expires_at := 9000 |} d' = (d'', Ok (s'', report)) ∧
    o_corrupted_at_offset report = Some 190.
Proof.
  assert (∃ s report, snd full_opened = Ok (s, report)) as (s & report & Ho)
    by (eexists _, _; vm_compute; reflexivity).
  destruct (full_handle_at s report Ho) as (Hh & Ha & Hb).
  destruct (append_past_the_limit_corrupts (run_config 2) s (fst full_opened) (full_meta 3) (full_meta 3) sample_log
    run_binding (1, 20, 20) sample_third (sample_frame 3) quiet (1, 21, 21) Hh Ha Hb ltac:(vm_compute; reflexivity))
    as (s' & d' & E & Hopens).
  assert (∃ d'' s'' report'', open_after_lease (run_config 2) {| token := []; expires_at := 9000 |} d' =
    (d'', Ok (s'', report''))) as (d'' & s'' & report'' & Eo).
  { vm_compute in Ho. injection Ho as <- _. vm_compute in E. injection E as _ <-.
    eexists _, _, _. vm_compute. reflexivity. }
  exists s, (fst full_opened), s', d', d'', s'', report''.
  split; [by rewrite Ho; vm_compute in Ho |- *; injection Ho as <- <-|]. split; [exact E|]. split; [exact Eo|].
  destruct (Hopens _ _ _ _ Eo) as [Hr _]. rewrite Hr. vm_compute. reflexivity.
Defined.
