(* ===== verification/ObservationEnvelope.v ===== *)
(** * The admitted observation envelope

    What admission accepts: the canonical payload, the opaque extensions and the
    exact scope of [tracedecay-memory-provider-api/src/lib.rs] (over the
    identifiers of the generated contract), the settlement receipt of
    [tracedecay-memory-observation/src/settlement.rs], the envelope of
    [src/envelope.rs] and the derived identities of [src/identity.rs].

    Identity newtypes are their strings and a scope digest is computed where the
    code computes it.  SHA-256 is the parameter of [Bytes]: the theorems about
    derived keys are about the bytes that are hashed. *)
From stdpp Require Import base list numbers sorting strings.
From S2P Require Import Prelude RustText Bytes ObservationState HygieneReceipt.

#[local] Open Scope Z_scope.
#[local] Open Scope rust_scope.

(** The [From<ApiError>] conversion of [?]. *)
Definition lift_api {A} (r : result A ApiError) : result A ObservationJournalError :=
  match r with Ok a => Ok a | Err e => Err (Api e) end.

(** ** Identifiers of the generated contract *)
Definition is_ascii_lowercase (byte : Z) : bool := within 97 122 byte.

(** The loop over the bytes, with [previous_was_separator]. *)
Fixpoint segments_loop (bytes : bytes) (previous_was_separator : bool) : result unit IdentifierError :=
  match bytes with
  | [] => if previous_was_separator then Err InvalidSyntax else Ok tt
  | byte :: bytes =>
    if is_ascii_lowercase byte || is_ascii_digit byte then segments_loop bytes false
    else if ((byte =? 46) || (byte =? 95) || (byte =? 45)) && negb previous_was_separator
    then segments_loop bytes true
    else Err InvalidSyntax
  end.

Definition valid_segmented_ascii (value : rstr) (maximum : Z) : result unit IdentifierError :=
  match utf8_encode value with
  | [] => Err IdentifierEmpty
  | first :: _ =>
    if zlen (utf8_encode value) >? maximum then Err IdentifierTooLong else
    if negb (is_ascii_lowercase first) then Err InvalidSyntax else
    segments_loop (utf8_encode value) false
  end.

(** [rsplit_once(separator)]: around the last occurrence. *)
Fixpoint rsplit_once (separator value : rstr) : option (rstr * rstr) :=
  match value with
  | [] => None
  | c :: tail =>
    match rsplit_once separator tail with
    | Some (prefix, suffix) => Some (c :: prefix, suffix)
    | None => pair [] <$> strip_prefix separator value
    end
  end.

Definition capability_id_new (value : rstr) : result unit IdentifierError :=
  if str_len value >? 96 then Err IdentifierTooLong else
  match rsplit_once (str ".v") value with
  | None => Err InvalidSyntax
  | Some (prefix, version) =>
    let? _ := valid_segmented_ascii prefix 90 in
    if is_empty version || negb (forallb is_ascii_digit (utf8_encode version))
       || bool_decide (head (utf8_encode version) = Some 48)
    then Err InvalidSyntax else Ok tt
  end.

(** [CapabilityId::new(value).map_err(ApiError::InvalidVersionedId)]. *)
Definition require_versioned_id (value : rstr) : result unit ApiError :=
  match capability_id_new value with Ok _ => Ok tt | Err e => Err (InvalidVersionedId e) end.

(** ** Payloads, extensions and scopes *)
Record CanonicalPayload : Type := {
  p_contract_id : rstr;
  p_bytes : bytes;
  p_sha256 : rstr;
}.

Record OwnedOpaqueExtension : Type := {
  e_extension_id : rstr;
  e_extension_version : Z;
  e_required : bool;
  e_payload_sha256 : rstr;
  e_canonical_payload : bytes;
}.

Record OwnedExactScope : Type := {
  x_profile_id : rstr;
  x_project_id : rstr;
  x_repository_identity : rstr;
  x_worktree_identity : rstr;
  x_branch_identity : rstr;
  x_agent_session_id : rstr;
  x_resolved_scope_digest : rstr;
}.

Definition EXACT_SCOPE_DIGEST_DOMAIN : bytes := str "tracedecay.memory-provider.exact-scope.v1" ++ [0].
Definition OPAQUE_EXTENSIONS_DOMAIN : bytes :=
  str "tracedecay.memory-provider.observation-extensions.v1" ++ [0].

Definition exact_scope_validate (self : OwnedExactScope) : result unit ApiError :=
  let? _ := api_require_non_empty (x_profile_id self) (str "profile_id") in
  let? _ := api_require_non_empty (x_project_id self) (str "project_id") in
  let? _ := api_require_non_empty (x_repository_identity self) (str "repository_identity") in
  let? _ := api_require_non_empty (x_worktree_identity self) (str "worktree_identity") in
  let? _ := api_require_non_empty (x_branch_identity self) (str "branch_identity") in
  let? _ := api_require_non_empty (x_agent_session_id self) (str "agent_session_id") in
  let? _ := require_tagged_sha256 (x_resolved_scope_digest self) (str "resolved_scope_digest") in
  Ok tt.

(** The fields of one extension, as the set digest absorbs them. *)
Definition extension_fields (self : OwnedOpaqueExtension) : list bytes :=
  [utf8_encode (e_extension_id self); u64_to_be_bytes (e_extension_version self);
   [if e_required self then 1 else 0]; utf8_encode (e_payload_sha256 self)].

Section digests.
Context `{Sha256}.

Definition payload_validate (self : CanonicalPayload) : result unit ApiError :=
  let? _ := require_versioned_id (p_contract_id self) in
  let? _ := api_require_sha256 (p_sha256 self) (str "payload_sha256") in
  if is_empty (p_bytes self) then Err (ApiEmptyField (str "canonical_payload")) else
  if negb (bool_decide (p_sha256 self = lowercase_sha256_hex (sha256 (p_bytes self))))
  then Err (ContentDigestMismatch (str "payload_sha256")) else Ok tt.

Definition extension_validate (self : OwnedOpaqueExtension) : result unit ApiError :=
  let? _ := require_versioned_id (e_extension_id self) in
  if e_extension_version self =? 0 then Err InvalidExtensionVersion else
  let? _ := api_require_sha256 (e_payload_sha256 self) (str "extension_payload_sha256") in
  if is_empty (e_canonical_payload self)
  then Err (ApiEmptyField (str "extension_canonical_payload")) else
  if negb (bool_decide (e_payload_sha256 self = lowercase_sha256_hex (sha256 (e_canonical_payload self))))
  then Err (ContentDigestMismatch (str "extension_payload_sha256")) else Ok tt.

(** The loop of [validate_extension_boundary]: the total of the payloads. *)
Fixpoint boundary_loop (extensions : list OwnedOpaqueExtension) (maximum_extension_bytes total : Z) :
    result Z ApiError :=
  match extensions with
  | [] => Ok total
  | extension :: extensions =>
    let? _ := extension_validate extension in
    let extension_bytes := zlen (e_canonical_payload extension) in
    if extension_bytes >? maximum_extension_bytes
    then Err (BoundaryBytesExceeded (str "extension_canonical_payload") maximum_extension_bytes)
    else boundary_loop extensions maximum_extension_bytes (sat_add u64_max total extension_bytes)
  end.

Definition validate_extension_boundary (extensions : list OwnedOpaqueExtension)
    (maximum_extensions maximum_extension_bytes : Z) (maximum_total_bytes : option Z) :
    result unit ApiError :=
  if zlen extensions >? maximum_extensions
  then Err (TooManyBoundaryItems (str "extensions") maximum_extensions) else
  let? total := boundary_loop extensions maximum_extension_bytes 0 in
  match maximum_total_bytes with
  | Some maximum =>
    if total >? maximum then Err (BoundaryBytesExceeded (str "extensions") maximum) else Ok tt
  | None => Ok tt
  end.

(** The loop of [opaque_extensions_digest]: the bytes the digest absorbs. *)
Fixpoint extensions_loop (extensions : list OwnedOpaqueExtension) (previous : option rstr) :
    result bytes ApiError :=
  match extensions with
  | [] => Ok []
  | extension :: extensions =>
    let? _ := extension_validate extension in
    let id := e_extension_id extension in
    if match previous with
       | Some last => match str_compare last id with Lt => false | _ => true end
       | None => false
       end
    then Err UnorderedExtensions else
    let? rest := extensions_loop extensions (Some id) in
    Ok ((extension_fields extension ≫= absorbed) ++ rest)
  end.

Definition opaque_extensions_digest (extensions : list OwnedOpaqueExtension) : result rstr ApiError :=
  let? fields := extensions_loop extensions None in
  Ok (lowercase_sha256_hex
        (sha256 (OPAQUE_EXTENSIONS_DOMAIN ++ u64_to_be_bytes (zlen extensions) ++ fields))).

Definition observation_extensions_digest (extensions : list OwnedOpaqueExtension) :
    result rstr ApiError :=
  let? _ := validate_extension_boundary extensions 32 262144 (Some 524288) in
  opaque_extensions_digest extensions.

Definition exact_scope_fields (self : OwnedExactScope) : list bytes :=
  [utf8_encode (x_profile_id self); utf8_encode (x_project_id self);
   utf8_encode (x_repository_identity self); utf8_encode (x_worktree_identity self);
   utf8_encode (x_branch_identity self); utf8_encode (x_agent_session_id self);
   utf8_encode (x_resolved_scope_digest self)].

Definition exact_scope_sha256 (self : OwnedExactScope) : rstr :=
  lowercase_hex (sha256 (EXACT_SCOPE_DIGEST_DOMAIN ++ (exact_scope_fields self ≫= absorbed))).
End digests.

(** ** settlement.rs *)
Inductive SourceAuthorityV1 : Type :=
  | HostSession | ToolExecution | SourceEdit | TestExecution | DiagnosticBroker | GitEvidence
  | NativeFactPromotion | FeedbackOutcome | AutomationOutcome.

#[export] Instance SourceAuthorityV1_eq_dec : EqDecision SourceAuthorityV1.
Proof. solve_decision. Defined.

Definition authority_as_wire (self : SourceAuthorityV1) : rstr :=
  match self with
  | HostSession => str "host_session"
  | ToolExecution => str "tool_execution"
  | SourceEdit => str "source_edit"
  | TestExecution => str "test_execution"
  | DiagnosticBroker => str "diagnostic_broker"
  | GitEvidence => str "git_evidence"
  | NativeFactPromotion => str "native_fact_promotion"
  | FeedbackOutcome => str "feedback_outcome"
  | AutomationOutcome => str "automation_outcome"
  end.

Definition authority_arms : list (rstr * SourceAuthorityV1) :=
  [(str "host_session", HostSession); (str "tool_execution", ToolExecution);
   (str "source_edit", SourceEdit); (str "test_execution", TestExecution);
   (str "diagnostic_broker", DiagnosticBroker); (str "git_evidence", GitEvidence);
   (str "native_fact_promotion", NativeFactPromotion); (str "feedback_outcome", FeedbackOutcome);
   (str "automation_outcome", AutomationOutcome)].

Definition authority_from_wire (value : rstr) : result SourceAuthorityV1 ObservationJournalError :=
  match match_str value authority_arms with
  | Some authority => Ok authority
  | None => Err (UnknownWireValue (str "source_authority") value)
  end.

Record SourceStreamKeyV1 : Type := {
  sk_source_authority : SourceAuthorityV1;
  sk_exact_scope_sha256 : rstr;
  sk_source_stream : rstr;
}.

Definition stream_key_validate (self : SourceStreamKeyV1) : result unit ObservationJournalError :=
  require_sha256 (sk_exact_scope_sha256 self) (str "exact_scope_sha256").

Record CanonicalSettlementReceiptV1 : Type := {
  c_source_authority : SourceAuthorityV1;
  c_commit_point_id : rstr;
  c_source_event_id : rstr;
  c_source_event_revision : Z;
  c_source_event_sha256 : rstr;
  c_source_stream : rstr;
  c_source_sequence : Z;
  c_settled_at_unix_micros : Z;
  c_settlement_proof_sha256 : rstr;
}.

Definition settlement_validate (self : CanonicalSettlementReceiptV1) :
    result unit ObservationJournalError :=
  if is_empty (c_commit_point_id self) then Err (UnsettledSource (str "commit_point_id")) else
  if is_empty (c_source_event_id self) then Err (UnsettledSource (str "source_event_id")) else
  let? _ := require_bounded (c_source_event_id self) (str "source_event_id") SOURCE_EVENT_ID_MAX_BYTES in
  let? _ := require_bounded (c_commit_point_id self) (str "commit_point_id") SOURCE_EVENT_ID_MAX_BYTES in
  if negb (is_sha256 (c_source_event_sha256 self))
  then Err (UnsettledSource (str "source_event_sha256")) else
  if negb (is_sha256 (c_settlement_proof_sha256 self))
  then Err (UnsettledSource (str "settlement_proof_sha256")) else
  Ok tt.

(** ** envelope.rs *)
Definition MAX_PAYLOAD_BYTES : Z := 3145728.
Definition MAX_SANITIZATION_RECEIPT_JSON_BYTES : Z := 4096.

Record ProviderTargetV1 : Type := {
  t_provider_id : rstr;
  t_provider_instance_id : rstr;
  t_registration_revision : Z;
  t_ready_receipt_digest : rstr;
}.

Definition target_validate (self : ProviderTargetV1) : result unit ObservationJournalError :=
  let? _ := require_bounded (t_provider_instance_id self) (str "provider_instance_id")
              SOURCE_EVENT_ID_MAX_BYTES in
  if t_registration_revision self =? 0 then Err (ValueOutOfRange (str "registration_revision")) else
  require_sha256 (t_ready_receipt_digest self) (str "ready_receipt_digest").

Inductive PrivacyClassificationV1 : Type := Public | Internal | Sensitive | Restricted.

Definition classification_as_wire (self : PrivacyClassificationV1) : rstr :=
  match self with
  | Public => str "public" | Internal => str "internal" | Sensitive => str "sensitive"
  | Restricted => str "restricted"
  end.

Definition retention_class_as_wire (self : RetentionClassV1) : rstr :=
  match self with
  | Ephemeral => str "ephemeral" | SessionClass => str "session" | ProjectClass => str "project"
  | ProfileClass => str "profile"
  end.

Inductive ProvenanceOriginV1 : Type :=
  | FromUser | FromAgent | FromTool | FromRepository | TracedecayNative | FromAutomation.

Record ObservationPrivacyV1 : Type := {
  classification : PrivacyClassificationV1;
  retention_class : RetentionClassV1;
  redaction_revision : Z;
  content_policy_revision : Z;
  forget_source_key : rstr;
  expires_at_unix_micros : Z;
}.

Definition privacy_validate (self : ObservationPrivacyV1) : result unit ObservationJournalError :=
  require_bounded (forget_source_key self) (str "forget_source_key") SOURCE_EVENT_ID_MAX_BYTES.

Definition PRIVACY_DOMAIN : bytes := str "tracedecay.memory-provider.observation-privacy.v1" ++ [0].
Definition SANITIZATION_BINDING_DOMAIN : bytes :=
  str "tracedecay.memory-provider.observation-sanitization-binding.v1" ++ [0].
Definition IDEMPOTENCY_DOMAIN : bytes :=
  str "tracedecay.memory-provider.observation-idempotency.v1" ++ [0].
Definition ENVELOPE_DOMAIN : bytes := str "tracedecay.memory-provider.observation-envelope.v1" ++ [0].
Definition OBSERVATION_CONTRACT_ID : rstr := str "tracedecay.memory.provider.observation.v1".

Record SanitizationBindingV1 : Type := {
  b_receipt_id : rstr;
  b_sanitizer_revision : rstr;
  b_source_payload_sha256 : rstr;
  b_receipt_json : rstr;
}.

Record AdmittedObservationV1 : Type := {
  a_observation_id : rstr;
  a_idempotency_key : rstr;
  a_target : ProviderTargetV1;
  a_exact_scope : OwnedExactScope;
  a_source : CanonicalSettlementReceiptV1;
  a_observation_kind : rstr;
  a_payload : CanonicalPayload;
  a_extensions : list OwnedOpaqueExtension;
  a_extensions_digest : rstr;
  a_provenance_origin : ProvenanceOriginV1;
  a_provenance_sha256 : rstr;
  a_privacy : ObservationPrivacyV1;
  a_sanitization : SanitizationBindingV1;
  a_occurred_at_unix_micros : Z;
  a_admitted_at_unix_micros : Z;
  a_deadline_unix_micros : Z;
  a_request_id : rstr;
  a_envelope_sha256 : rstr;
}.

(** The queue weight in bytes. *)
Definition queue_bytes (self : AdmittedObservationV1) : Z :=
  sat_add usize_max (zlen (p_bytes (a_payload self)))
    (foldr (λ e total, zlen (e_canonical_payload e) + total) 0 (a_extensions self)).

(** The eleven inputs of the idempotency key, in contract order. *)
Record IdempotencyInputV1 : Type := {
  i_contract_id : rstr;
  i_provider_id : rstr;
  i_registration_revision : Z;
  i_exact_scope_sha256 : rstr;
  i_source_authority : SourceAuthorityV1;
  i_source_event_id : rstr;
  i_source_event_revision : Z;
  i_observation_kind : rstr;
  i_payload_contract : rstr;
  i_payload_sha256 : rstr;
  i_extensions_digest : rstr;
}.

Definition idempotency_fields (input : IdempotencyInputV1) : list bytes :=
  [utf8_encode (i_contract_id input); utf8_encode (i_provider_id input);
   u64_to_be_bytes (i_registration_revision input); utf8_encode (i_exact_scope_sha256 input);
   utf8_encode (authority_as_wire (i_source_authority input)); utf8_encode (i_source_event_id input);
   u64_to_be_bytes (i_source_event_revision input); utf8_encode (i_observation_kind input);
   utf8_encode (i_payload_contract input); utf8_encode (i_payload_sha256 input);
   utf8_encode (i_extensions_digest input)].

(** What the key digest is fed. *)
Definition idempotency_preimage (input : IdempotencyInputV1) : bytes :=
  IDEMPOTENCY_DOMAIN ++ (idempotency_fields input ≫= absorbed).

Section envelope.
Context `{Sha256}.

Definition privacy_digest (self : ObservationPrivacyV1) : rstr :=
  lowercase_hex (sha256 (PRIVACY_DOMAIN ++
    ([utf8_encode (classification_as_wire (classification self));
      utf8_encode (retention_class_as_wire (retention_class self));
      u64_to_be_bytes (redaction_revision self); u64_to_be_bytes (content_policy_revision self);
      utf8_encode (forget_source_key self); i64_to_be_bytes (expires_at_unix_micros self)]
     ≫= absorbed))).

Definition binding_validate (self : SanitizationBindingV1) (payload_sha256 extensions_digest : rstr) :
    result unit ObservationJournalError :=
  let? _ := require_bounded (b_receipt_id self) (str "sanitization_receipt_id")
              SOURCE_EVENT_ID_MAX_BYTES in
  let? _ := require_bounded (b_sanitizer_revision self) (str "sanitizer_revision")
              SOURCE_EVENT_ID_MAX_BYTES in
  let? _ := require_sha256 (b_source_payload_sha256 self) (str "source_payload_sha256") in
  let? _ := require_bounded (b_receipt_json self) (str "sanitization_receipt_json")
              MAX_SANITIZATION_RECEIPT_JSON_BYTES in
  let? receipt := lift_api (from_json (b_receipt_json self)) in
  if negb (bool_decide (hr_receipt_id receipt = b_receipt_id self))
  then Err (ReceiptDigestMismatch (str "sanitization_receipt_id")) else
  if negb (bool_decide (hr_sanitizer_revision receipt = b_sanitizer_revision self))
  then Err (ReceiptDigestMismatch (str "sanitizer_revision")) else
  if negb (bool_decide (hr_source_payload_sha256 receipt = b_source_payload_sha256 self))
  then Err (ReceiptDigestMismatch (str "sanitization_source_payload_sha256")) else
  lift_api (verify_binding receipt payload_sha256 extensions_digest).

Definition binding_digest (self : SanitizationBindingV1) : rstr :=
  lowercase_hex (sha256 (SANITIZATION_BINDING_DOMAIN ++
    ([utf8_encode (b_receipt_id self); utf8_encode (b_sanitizer_revision self);
      utf8_encode (b_source_payload_sha256 self); utf8_encode (b_receipt_json self)] ≫= absorbed))).

Definition idempotency_key_derive (input : IdempotencyInputV1) : rstr :=
  lowercase_hex (sha256 (idempotency_preimage input)).

Definition idempotency_input (self : AdmittedObservationV1) : IdempotencyInputV1 := {|
  i_contract_id := OBSERVATION_CONTRACT_ID; i_provider_id := t_provider_id (a_target self);
  i_registration_revision := t_registration_revision (a_target self);
  i_exact_scope_sha256 := exact_scope_sha256 (a_exact_scope self);
  i_source_authority := c_source_authority (a_source self);
  i_source_event_id := c_source_event_id (a_source self);
  i_source_event_revision := c_source_event_revision (a_source self);
  i_observation_kind := a_observation_kind self;
  i_payload_contract := p_contract_id (a_payload self); i_payload_sha256 := p_sha256 (a_payload self);
  i_extensions_digest := a_extensions_digest self;
|}.

Definition derive_idempotency_key (self : AdmittedObservationV1) : rstr :=
  idempotency_key_derive (idempotency_input self).

(** The fields [envelope_digest] absorbs, in order. *)
Definition envelope_fields (self : AdmittedObservationV1) : list bytes :=
  [utf8_encode (a_observation_id self); utf8_encode (a_idempotency_key self);
   utf8_encode (t_provider_id (a_target self));
   utf8_encode (t_provider_instance_id (a_target self));
   u64_to_be_bytes (t_registration_revision (a_target self));
   utf8_encode (t_ready_receipt_digest (a_target self));
   utf8_encode (exact_scope_sha256 (a_exact_scope self));
   utf8_encode (c_source_event_sha256 (a_source self));
   u64_to_be_bytes (c_source_sequence (a_source self)); utf8_encode (a_observation_kind self);
   utf8_encode (p_contract_id (a_payload self)); utf8_encode (p_sha256 (a_payload self));
   utf8_encode (a_extensions_digest self); utf8_encode (a_provenance_sha256 self);
   utf8_encode (privacy_digest (a_privacy self)); utf8_encode (binding_digest (a_sanitization self));
   i64_to_be_bytes (a_occurred_at_unix_micros self); i64_to_be_bytes (a_admitted_at_unix_micros self);
   i64_to_be_bytes (a_deadline_unix_micros self); utf8_encode (a_request_id self)].

Definition expected_envelope_sha256 (self : AdmittedObservationV1) : rstr :=
  lowercase_hex (sha256 (ENVELOPE_DOMAIN ++ (envelope_fields self ≫= absorbed))).

Definition admitted_validate (self : AdmittedObservationV1) : result unit ObservationJournalError :=
  let? _ := target_validate (a_target self) in
  let? _ := lift_api (exact_scope_validate (a_exact_scope self)) in
  let? _ := settlement_validate (a_source self) in
  let? _ := lift_api (payload_validate (a_payload self)) in
  let? _ := privacy_validate (a_privacy self) in
  let? derived_extensions := lift_api (observation_extensions_digest (a_extensions self)) in
  if negb (bool_decide (derived_extensions = a_extensions_digest self))
  then Err ExtensionsDigestMismatch else
  let? _ := binding_validate (a_sanitization self) (p_sha256 (a_payload self)) (a_extensions_digest self) in
  if zlen (p_bytes (a_payload self)) >? MAX_PAYLOAD_BYTES
  then Err (FieldTooLarge (str "canonical_payload") MAX_PAYLOAD_BYTES) else
  let? _ := require_bounded (a_request_id self) (str "request_id") SOURCE_EVENT_ID_MAX_BYTES in
  let? _ := require_sha256 (a_provenance_sha256 self) (str "provenance_sha256") in
  if a_deadline_unix_micros self <=? a_admitted_at_unix_micros self
  then Err (DeadlineBeforeAdmission (a_deadline_unix_micros self) (a_admitted_at_unix_micros self)) else
  let derived_key := derive_idempotency_key self in
  if negb (bool_decide (derived_key = a_idempotency_key self))
  then Err (IdempotencyKeyMismatch derived_key (a_idempotency_key self)) else
  if negb (bool_decide (expected_envelope_sha256 self = a_envelope_sha256 self))
  then Err EnvelopeDigestMismatch else Ok tt.
End envelope.

(** *** Withheld events *)
Record WithheldAdmissionV1 : Type := {
  w_source_authority : rstr;
  w_exact_scope_sha256 : rstr;
  w_source_stream : rstr;
  w_source_sequence : Z;
  w_source_event_id : rstr;
  w_source_event_revision : rstr;
  w_receipt_id : rstr;
  w_reason : rstr;
  w_source_payload_sha256 : rstr;
  w_extensions_digest : rstr;
  w_sanitizer_revision : rstr;
  w_finding_count : Z;
  w_findings_digest : rstr;
  w_forget_source_key : rstr;
}.

Definition withheld_validate `{Sha256} (self : WithheldAdmissionV1) : result unit ObservationJournalError :=
  let? _ := authority_from_wire (w_source_authority self) in
  let? _ := require_sha256 (w_exact_scope_sha256 self) (str "exact_scope_sha256") in
  let? _ := require_bounded (w_source_stream self) (str "source_stream") SOURCE_EVENT_ID_MAX_BYTES in
  let? _ := require_bounded (w_source_event_id self) (str "source_event_id") SOURCE_EVENT_ID_MAX_BYTES in
  let? _ := require_bounded (w_source_event_revision self) (str "source_event_revision")
              SOURCE_EVENT_ID_MAX_BYTES in
  let? _ := require_bounded (w_receipt_id self) (str "receipt_id") SOURCE_EVENT_ID_MAX_BYTES in
  let? _ := require_bounded (w_reason self) (str "reason") SOURCE_EVENT_ID_MAX_BYTES in
  let? _ := require_sha256 (w_source_payload_sha256 self) (str "source_payload_sha256") in
  let? _ := require_sha256 (w_extensions_digest self) (str "extensions_digest") in
  let? _ := require_bounded (w_sanitizer_revision self) (str "sanitizer_revision")
              SOURCE_EVENT_ID_MAX_BYTES in
  let? _ := require_sha256 (w_findings_digest self) (str "sanitization_findings_digest") in
  match withheld_reason_from_wire (w_reason self) with
  | None => Err (UnknownWireValue (str "withheld_reason") (w_reason self))
  | Some reason =>
    if negb (bool_decide (derive_withheld_receipt_id (w_sanitizer_revision self)
         (w_source_payload_sha256 self) (w_extensions_digest self) reason (w_finding_count self)
         (w_findings_digest self) = w_receipt_id self))
    then Err (ReceiptDigestMismatch (str "withheld_receipt_id")) else
    require_bounded (w_forget_source_key self) (str "forget_source_key") SOURCE_EVENT_ID_MAX_BYTES
  end.

(** ** Lemmas *)

(** *** Framing *)
Lemma u64_to_be_bytes_length x : length (u64_to_be_bytes x) = 8%nat.
Proof. unfold u64_to_be_bytes. by rewrite length_reverse, to_le_bytes_length. Qed.

Lemma u64_to_be_bytes_inj x y :
  0 <= x <= u64_max → 0 <= y <= u64_max → u64_to_be_bytes x = u64_to_be_bytes y → x = y.
Proof.
  unfold u64_to_be_bytes. intros Hx Hy E%(inj reverse).
  rewrite <- (from_to_le_u64 x), <- (from_to_le_u64 y) by done. by rewrite E.
Qed.

(** A field that fits its length prefix. *)
Definition frameable (field : bytes) : Prop := zlen field <= u64_max.

Lemma absorbed_app_inj x y r r' :
  frameable x → frameable y → absorbed x ++ r = absorbed y ++ r' → x = y ∧ r = r'.
Proof.
  unfold absorbed, frameable. rewrite <- !app_assoc. intros Hx Hy E.
  apply app_inj_1 in E as [El E]; [|by rewrite !u64_to_be_bytes_length].
  apply u64_to_be_bytes_inj in El; [|split; [apply zlen_nonneg|done]..].
  apply app_inj_1 in E; [done|]. unfold zlen in El. lia.
Qed.

(** The concatenation of frames determines the fields. *)
Lemma frames_inj xs ys :
  length xs = length ys → Forall frameable xs → Forall frameable ys →
  xs ≫= absorbed = ys ≫= absorbed → xs = ys.
Proof.
  revert ys. induction xs as [|x xs IH]; intros [|y ys] Hl Hx Hy E; try done; [].
  apply Forall_cons in Hx as [Hx Hxs]. apply Forall_cons in Hy as [Hy Hys].
  change (absorbed x ++ (xs ≫= absorbed) = absorbed y ++ (ys ≫= absorbed)) in E.
  apply absorbed_app_inj in E as [-> E]; [|done..]. f_equal. apply IH; [by injection Hl|done..].
Qed.

Lemma authority_wire_inj a b : authority_as_wire a = authority_as_wire b → a = b.
Proof.
  intros E. assert (match_str (authority_as_wire a) authority_arms = Some a) as Ea by (by destruct a; vm_compute).
  assert (match_str (authority_as_wire b) authority_arms = Some b) as Eb by (by destruct b; vm_compute).
  congruence.
Qed.

(** Two byte strings of which neither starts with the other one's head. *)
Lemma domains_apart (d d' x y : bytes) :
  take (Nat.min (length d) (length d')) d ≠
  take (Nat.min (length d) (length d')) d' →
  d ++ x ≠ d' ++ y.
Proof.
  intros Hne E. apply Hne.
  rewrite <- (take_app_le d x), <- (take_app_le d' y) by lia. by rewrite E.
Qed.

(** *** Validation *)

Lemma lift_api_ok {A} (r : result A ApiError) a : lift_api r = Ok a → r = Ok a.
Proof. by destruct r; simpl; [intros [= ->]|]. Qed.

(** The canonical bytes of an extension set. *)
Definition extension_bytes (extensions : list OwnedOpaqueExtension) : Z :=
  foldr (λ e total, zlen (e_canonical_payload e) + total) 0 extensions.

Lemma extension_bytes_nonneg extensions : 0 <= extension_bytes extensions.
Proof.
  induction extensions as [|e extensions IH]; simpl; [done|].
  pose proof (zlen_nonneg (e_canonical_payload e)). unfold extension_bytes in *. lia.
Qed.

Lemma valid_extension_nonempty `{Sha256} e :
  extension_validate e = Ok tt → 1 <= zlen (e_canonical_payload e).
Proof.
  unfold extension_validate. destruct (require_versioned_id _); [|done].
  destruct (_ =? 0); [done|]. destruct (api_require_sha256 _ _); [|done].
  destruct (e_canonical_payload e) as [|b l]; [done|]. rewrite zlen_cons. pose proof (zlen_nonneg l). lia.
Qed.

Lemma boundary_loop_spec `{Sha256} extensions m t total :
  boundary_loop extensions m t = Ok total → 0 <= t <= u64_max →
  Forall (λ e, extension_validate e = Ok tt ∧ 1 <= zlen (e_canonical_payload e) <= m) extensions ∧
  total = Z.min u64_max (t + extension_bytes extensions).
Proof.
  revert t. induction extensions as [|e extensions IH]; intros t; cbn [boundary_loop extension_bytes foldr].
  { intros [= ->] ?. split; [constructor|lia]. }
  destruct (extension_validate e) as [[]|] eqn:Ev; [|done]. rewrite Z.gtb_ltb.
  destruct (Z.ltb_spec m (zlen (e_canonical_payload e))); [done|]. intros Hl Ht.
  pose proof (valid_extension_nonempty e Ev). pose proof (extension_bytes_nonneg extensions).
  apply IH in Hl as [Hall ->]; [|unfold sat_add; lia]. split; [by constructor|].
  fold (extension_bytes extensions). unfold sat_add. lia.
Qed.

(** The identifiers come in strictly ascending order. *)
Definition ascending (extensions : list OwnedOpaqueExtension) : Prop :=
  StronglySorted (λ a b, str_compare (e_extension_id a) (e_extension_id b) = Lt) extensions.

Lemma str_compare_lt_trans a b c :
  str_compare a b = Lt → str_compare b c = Lt → str_compare a c = Lt.
Proof. apply bytes_compare_lt_trans. Qed.

Lemma extensions_loop_ascending `{Sha256} extensions previous fields :
  extensions_loop extensions previous = Ok fields →
  ascending extensions ∧
  ∀ last, previous = Some last → Forall (λ e, str_compare last (e_extension_id e) = Lt) extensions.
Proof.
  revert previous fields. induction extensions as [|e extensions IH]; intros previous fields;
    cbn [extensions_loop]; [intros; split; [constructor|constructor]|].
  destruct (extension_validate e); [|done].
  destruct (match previous with Some _ => _ | None => _ end) eqn:Eo; [done|].
  destruct (extensions_loop extensions _) as [rest|] eqn:El; [|done]. intros _.
  apply IH in El as [Ha Hl]. specialize (Hl _ eq_refl). split; [by constructor|].
  intros last ->. assert (str_compare last (e_extension_id e) = Lt) as Hlt by (by destruct (str_compare _ _)).
  constructor; [done|]. eapply Forall_impl; [exact Hl|]. intros x Hx. by eapply str_compare_lt_trans.
Qed.

(** *** What validation guarantees *)
Record envelope_wf `{Sha256} (a : AdmittedObservationV1) : Prop := {
  wf_key : a_idempotency_key a = derive_idempotency_key a ∧ is_sha256 (a_idempotency_key a) = true;
  wf_envelope : a_envelope_sha256 a = expected_envelope_sha256 a;
  wf_payload : p_sha256 (a_payload a) = lowercase_hex (sha256 (p_bytes (a_payload a))) ∧
    1 <= zlen (p_bytes (a_payload a)) <= MAX_PAYLOAD_BYTES;
  wf_extensions : zlen (a_extensions a) <= 32 ∧ ascending (a_extensions a) ∧
    Forall (λ e, extension_validate e = Ok tt ∧ 1 <= zlen (e_canonical_payload e) <= 262144) (a_extensions a) ∧
    extension_bytes (a_extensions a) <= 524288;
  wf_queue : queue_bytes a = zlen (p_bytes (a_payload a)) + extension_bytes (a_extensions a) ∧
    1 <= queue_bytes a <= 3670016;
  wf_deadline : a_admitted_at_unix_micros a < a_deadline_unix_micros a;
  wf_registration : t_registration_revision (a_target a) ≠ 0;
  wf_hygiene : ∃ r, from_json (b_receipt_json (a_sanitization a)) = Ok r ∧
    hr_receipt_id r = b_receipt_id (a_sanitization a) ∧
    hr_sanitized_payload_sha256 r = p_sha256 (a_payload a) ∧
    hr_extensions_digest r = a_extensions_digest a;
}.

Lemma hex_of_digest_is_sha256 `{Sha256} b : is_sha256 (lowercase_hex (sha256 b)) = true.
Proof.
  destruct (hex_encode_ok _ (sha256_bytes b)) as (E & L & A). unfold is_sha256, lowercase_hex, str_len.
  rewrite E, L. apply andb_true_iff. split; [|done]. unfold zlen. by rewrite sha256_length.
Qed.

Lemma observation_extensions_facts `{Sha256} extensions d :
  observation_extensions_digest extensions = Ok d →
  zlen extensions <= 32 ∧ ascending extensions ∧
  Forall (λ e, extension_validate e = Ok tt ∧ 1 <= zlen (e_canonical_payload e) <= 262144) extensions ∧
  extension_bytes extensions <= 524288.
Proof.
  unfold observation_extensions_digest, validate_extension_boundary, opaque_extensions_digest. intros Hd.
  rewrite !Z.gtb_ltb in Hd. destruct (Z.ltb_spec 32 (zlen extensions)); [done|].
  destruct (boundary_loop _ _ _) as [total|] eqn:Eb; [|done].
  apply boundary_loop_spec in Eb as [Hall ->]; [|unfold u64_max; lia].
  rewrite Z.gtb_ltb in Hd. destruct (Z.ltb_spec 524288 (Z.min u64_max (0 + extension_bytes extensions))); [done|].
  destruct (extensions_loop _ _) as [fields|] eqn:El; [|done].
  apply extensions_loop_ascending in El as [Ha _]. unfold u64_max in *. split_and!; try done; lia.
Qed.

Lemma binding_facts `{Sha256} b p e :
  binding_validate b p e = Ok tt →
  ∃ r, from_json (b_receipt_json b) = Ok r ∧ hr_receipt_id r = b_receipt_id b ∧
    hr_sanitized_payload_sha256 r = p ∧ hr_extensions_digest r = e.
Proof.
  unfold binding_validate. intros Hv.
  do 4 lazymatch type of Hv with
       | (match ?e with Ok _ => _ | Err _ => _ end) = _ => destruct e; [|done]
       end.
  destruct (lift_api (from_json _)) as [r|] eqn:E; [|done]. apply lift_api_ok in E. exists r.
  case_bool_decide as Hid; [|done]. simpl in Hv. case_bool_decide; [|done]. case_bool_decide; [|done].
  simpl in Hv. apply lift_api_ok in Hv. unfold verify_binding in Hv.
  destruct (sanitization_receipt_validate r); [|done].
  case_bool_decide; [|done]. by case_bool_decide.
Qed.

Lemma admitted_facts `{Sha256} a : admitted_validate a = Ok tt → envelope_wf a.
Proof.
  unfold admitted_validate. intros Hv.
  destruct (target_validate _) as [[]|] eqn:Et; [|done].
  destruct (lift_api (exact_scope_validate _)); [|done]. destruct (settlement_validate _); [|done].
  destruct (lift_api (payload_validate _)) as [[]|] eqn:Ep; [|done].
  destruct (privacy_validate _); [|done].
  destruct (lift_api (observation_extensions_digest _)) as [d|] eqn:Ee; [|done].
  case_bool_decide as Ed; [|done]. cbn [negb] in Hv.
  destruct (binding_validate _ _ _) as [[]|] eqn:Eb; [|done].
  rewrite Z.gtb_ltb in Hv. destruct (Z.ltb_spec MAX_PAYLOAD_BYTES (zlen (p_bytes (a_payload a)))); [done|].
  destruct (require_bounded _ _ _); [|done]. destruct (require_sha256 _ _); [|done].
  destruct (Z.leb_spec (a_deadline_unix_micros a) (a_admitted_at_unix_micros a)); [done|].
  case_bool_decide as Ek; [|done]. case_bool_decide as Env; [|done].
  apply lift_api_ok in Ep, Ee. apply observation_extensions_facts in Ee as (X1 & X2 & X3 & X4).
  apply binding_facts in Eb. unfold target_validate in Et. destruct (require_bounded _ _ _); [|done].
  destruct (Z.eqb_spec (t_registration_revision (a_target a)) 0); [done|].
  unfold payload_validate in Ep. destruct (require_versioned_id _); [|done].
  destruct (api_require_sha256 _ _); [|done]. destruct (is_empty (p_bytes (a_payload a))) eqn:Ene; [done|].
  case_bool_decide as Eps; [|done].
  assert (1 <= zlen (p_bytes (a_payload a))).
  { destruct (p_bytes (a_payload a)) as [|b l]; [done|]. rewrite zlen_cons. pose proof (zlen_nonneg l). lia. }
  pose proof (extension_bytes_nonneg (a_extensions a)).
  assert (queue_bytes a = zlen (p_bytes (a_payload a)) + extension_bytes (a_extensions a)) as Hq
    by (unfold queue_bytes, sat_add; fold (extension_bytes (a_extensions a));
        unfold usize_max, u64_max, MAX_PAYLOAD_BYTES in *; lia).
  split; try done.
  - split; [done|]. rewrite <- Ek. apply hex_of_digest_is_sha256.
  - rewrite Hq. unfold MAX_PAYLOAD_BYTES in *. lia.
Qed.

(** ** Properties *)

(** C26. An envelope that passes its validation is well typed for the journal:
    its key is the SHA-256 text derived from its own eleven inputs, its envelope
    digest covers its fields, the payload is not empty, within 3 MiB and named by
    its digest, at most 32 valid extensions of at most 256 KiB and 512 KiB in all
    come in strictly ascending order, the queue weight is the exact number of
    bytes, positive and below 3.5 MiB, the deadline lies after the admission, and
    the hygiene receipt it carries is the one for this payload and these
    extensions. *)
Theorem validated_envelope_is_well_formed `{Sha256} a :
  admitted_validate a = Ok tt → envelope_wf a.
Proof. apply admitted_facts. Qed.

(** The values of the Rust types: scalar strings in addressable memory and
    [u64] revisions. *)
Definition string_value (s : rstr) : Prop := forallb is_scalar s = true ∧ frameable (utf8_encode s).

Record input_value (i : IdempotencyInputV1) : Prop := {
  iv_strings : Forall string_value [i_contract_id i; i_provider_id i; i_exact_scope_sha256 i;
    i_source_event_id i; i_observation_kind i; i_payload_contract i; i_payload_sha256 i;
    i_extensions_digest i];
  iv_revisions : 0 <= i_registration_revision i <= u64_max ∧ 0 <= i_source_event_revision i <= u64_max;
}.

Lemma input_frameable i : input_value i → Forall frameable (idempotency_fields i).
Proof.
  intros [Hs _]. repeat (apply Forall_cons in Hs as [[_ ?] Hs]).
  unfold idempotency_fields. repeat (apply Forall_cons; split); try done;
    unfold frameable; try (unfold zlen; rewrite u64_to_be_bytes_length; unfold u64_max; lia).
  destruct (i_source_authority i); vm_compute; congruence.
Qed.

(** C27. The bytes hashed for an idempotency key determine all eleven inputs, and
    are never the bytes hashed for an envelope, a delivery receipt, a lease, a
    privacy record, a hygiene binding, an exact scope or an extension set: the
    length framing and the domain constants leave no two derivations alike, so
    equal keys for different inputs would be a SHA-256 collision. *)
Theorem idempotency_key_binds_its_inputs i :
  input_value i →
  (∀ j, input_value j → idempotency_preimage i = idempotency_preimage j → i = j) ∧
  Forall (λ domain, ∀ rest, idempotency_preimage i ≠ domain ++ rest)
    [ENVELOPE_DOMAIN; RECEIPT_ID_DOMAIN; LEASE_ID_DOMAIN; PRIVACY_DOMAIN; SANITIZATION_BINDING_DOMAIN;
     EXACT_SCOPE_DIGEST_DOMAIN; OPAQUE_EXTENSIONS_DOMAIN].
Proof.
  intros Hi. split.
  - intros j Hj E%app_inv_head. apply frames_inj in E; [|done|by apply input_frameable..].
    destruct i as [i1 i2 i3 i4 i5 i6 i7 i8 i9 i10 i11], j as [j1 j2 j3 j4 j5 j6 j7 j8 j9 j10 j11].
    destruct Hi as [Hi [Hi3 Hi7]], Hj as [Hj [Hj3 Hj7]]. simpl in *.
    repeat (apply Forall_cons in Hi as [[? _] Hi]). repeat (apply Forall_cons in Hj as [[? _] Hj]).
    unfold idempotency_fields in E.
    cbn [i_contract_id i_provider_id i_registration_revision i_exact_scope_sha256 i_source_authority
         i_source_event_id i_source_event_revision i_observation_kind i_payload_contract
         i_payload_sha256 i_extensions_digest] in E.
    apply (inj2 cons) in E as [E1 E]. apply (inj2 cons) in E as [E2 E]. apply (inj2 cons) in E as
    [E3 E]. apply (inj2 cons) in E as [E4 E]. apply (inj2 cons) in E as [E5 E]. apply (inj2 cons)
    in E as [E6 E]. apply (inj2 cons) in E as [E7 E]. apply (inj2 cons) in E as [E8 E]. apply (inj2
    cons) in E as [E9 E]. apply (inj2 cons) in E as [E10 E]. apply (inj2 cons) in E as [E11 E].
    apply utf8_encode_inj in E1, E2, E4, E6, E8, E9, E10, E11; try done.
    apply u64_to_be_bytes_inj in E3, E7; try done.
    rewrite !ascii_encode in E5 by (destruct i5, j5; vm_compute; reflexivity).
    apply authority_wire_inj in E5. congruence.
  - repeat (apply Forall_cons; split); [..|constructor]; intros rest; apply domains_apart;
      vm_compute; congruence.
Qed.

(** ** A concrete envelope *)
Section samples.
#[local] Existing Instance mixing_sha256.

Definition sample_digest : rstr := repeat 97 64.

Definition sample_payload : CanonicalPayload :=
  {| p_contract_id := str "message.text.v1"; p_bytes := [104; 105];
     p_sha256 := lowercase_hex (sha256 [104; 105]) |}.

Definition sample_extension (id : rstr) : OwnedOpaqueExtension :=
  {| e_extension_id := id; e_extension_version := 1; e_required := false;
     e_payload_sha256 := lowercase_hex (sha256 [1; 2; 3]); e_canonical_payload := [1; 2; 3] |}.

Definition sample_extensions : list OwnedOpaqueExtension :=
  [sample_extension (str "a.hint.v1"); sample_extension (str "b.hint.v2")].

Definition ok_default {A E} (d : A) (r : result A E) : A := match r with Ok a => a | Err _ => d end.

Definition sample_extensions_digest : rstr := ok_default [] (observation_extensions_digest sample_extensions).

Definition sample_scope : OwnedExactScope :=
  {| x_profile_id := str "profile-1"; x_project_id := str "project-1";
     x_repository_identity := str "repo-1"; x_worktree_identity := str "worktree-1";
     x_branch_identity := str "refs/heads/main"; x_agent_session_id := str "session-1";
     x_resolved_scope_digest := str "sha256:" ++ repeat 49 64 |}.

(** The hygiene receipt of an unmodified payload. *)
Definition sample_binding : SanitizationBindingV1 :=
  match sanitization_receipt_new
    {| hp_sanitizer_revision := str "rules.v3"; hp_source_payload_sha256 := p_sha256 sample_payload;
       hp_sanitized_payload_sha256 := p_sha256 sample_payload;
       hp_extensions_digest := sample_extensions_digest; hp_disposition := Accepted;
       hp_finding_count := 0; hp_findings_digest := sample_digest |} with
  | Ok r => {| b_receipt_id := hr_receipt_id r; b_sanitizer_revision := hr_sanitizer_revision r;
               b_source_payload_sha256 := hr_source_payload_sha256 r; b_receipt_json := to_json r |}
  | Err _ => {| b_receipt_id := []; b_sanitizer_revision := []; b_source_payload_sha256 := [];
                b_receipt_json := [] |}
  end.

(** An envelope before its key and digest are stamped. *)
Definition sample_draft (observation_id event : rstr) (sequence : Z) (key digest : rstr) :
    AdmittedObservationV1 := {|
  a_observation_id := observation_id; a_idempotency_key := key;
  a_target := {| t_provider_id := str "provider"; t_provider_instance_id := str "instance";
                 t_registration_revision := 1; t_ready_receipt_digest := sample_digest |};
  a_exact_scope := sample_scope;
  a_source := {| c_source_authority := HostSession; c_commit_point_id := str "session.commit";
                 c_source_event_id := event; c_source_event_revision := 1;
                 c_source_event_sha256 := sample_digest; c_source_stream := str "main";
                 c_source_sequence := sequence; c_settled_at_unix_micros := 5;
                 c_settlement_proof_sha256 := sample_digest |};
  a_observation_kind := str "message.observed.v1"; a_payload := sample_payload;
  a_extensions := sample_extensions; a_extensions_digest := sample_extensions_digest;
  a_provenance_origin := FromAgent; a_provenance_sha256 := sample_digest;
  a_privacy := {| classification := Internal; retention_class := SessionClass;
                  redaction_revision := 1; content_policy_revision := 1;
                  forget_source_key := str "session-1"; expires_at_unix_micros := 900 |};
  a_sanitization := sample_binding; a_occurred_at_unix_micros := 1; a_admitted_at_unix_micros := 10;
  a_deadline_unix_micros := 1000; a_request_id := str "request-1"; a_envelope_sha256 := digest;
|}.

Definition sample_admitted (observation_id event : rstr) (sequence : Z) : AdmittedObservationV1 :=
  let key := derive_idempotency_key (sample_draft observation_id event sequence [] []) in
  sample_draft observation_id event sequence key
    (expected_envelope_sha256 (sample_draft observation_id event sequence key [])).

Lemma validated_envelope_is_well_formed_witness :
  envelope_wf (sample_admitted (str "o1") (str "event-1") 0).
Proof. apply validated_envelope_is_well_formed. vm_compute. reflexivity. Defined.

Definition sample_input : IdempotencyInputV1 := {|
  i_contract_id := OBSERVATION_CONTRACT_ID; i_provider_id := str "provider";
  i_registration_revision := 1; i_exact_scope_sha256 := sample_digest;
  i_source_authority := HostSession; i_source_event_id := str "event-1";
  i_source_event_revision := 1; i_observation_kind := str "message.observed.v1";
  i_payload_contract := str "message.text.v1"; i_payload_sha256 := sample_digest;
  i_extensions_digest := sample_digest;
|}.

Lemma idempotency_key_binds_its_inputs_witness :
  input_value sample_input ∧ (∀ rest, idempotency_preimage sample_input ≠ LEASE_ID_DOMAIN ++ rest).
Proof.
  assert (Hi : input_value sample_input).
  { split; [|split; vm_compute; split; congruence].
    repeat (apply Forall_cons; split); [..|constructor]; split; vm_compute; congruence. }
  split; [done|]. destruct (idempotency_key_binds_its_inputs sample_input Hi) as [_ Hd].
  rewrite Forall_forall in Hd. apply Hd. do 2 right. left.
Defined.
End samples.
