(* ===== verification/ObservationJournal.v ===== *)
(** * The observation journal store

    The SQLite journal of [tracedecay-memory-observation/src/sqlite]: the
    operations of [dispatch.rs] that lease, settle, release and reap delivery
    rows, and the acknowledged watermark of [recovery.rs].

    A table is the list of its rows, a statement the function it computes on
    them: [UPDATE ... WHERE] rewrites the matching rows and counts them,
    [ORDER BY ... LIMIT] sorts and takes.  Columns hold the values they decode
    to, so the parsing of a drifted row is not part of the model, and a row of
    the journal has the columns that admission, delivery and retention read.  An operation runs in
    one transaction: an error leaves the store as it was, which is why the
    result carries no store. *)
From stdpp Require Import base list numbers sorting strings.
From S2P Require Import Prelude RustText Bytes ObservationState ObservationEnvelope.

#[local] Open Scope Z_scope.
#[local] Open Scope rust_scope.

(** ** Tables *)
Record JournalRow : Type := {
  j_idempotency_key : rstr;
  j_observation_id : rstr;
  j_exact_scope_sha256 : rstr;
  j_provider_id : rstr;
  j_registration_revision : Z;
  j_source_authority : rstr;
  j_source_stream : rstr;
  j_source_event_id : rstr;
  j_source_event_revision : Z;
  j_source_sequence : Z;
  j_payload_sha256 : rstr;
  j_payload_bytes : option bytes;
  j_extensions_digest : rstr;
  (** The canonical payloads of the extensions; no extensions are [NULL]. *)
  j_extensions : list bytes;
  j_retention_class : RetentionClassV1;
  j_forget_source_key : rstr;
  j_expires_at_micros : Z;
  j_admitted_at_micros : Z;
  j_deadline_micros : Z;
  (** The four columns of the hygiene binding, set and cleared together. *)
  j_sanitization : option SanitizationBindingV1;
  j_content_forgotten_at_micros : option Z;
}.

Record DeliveryRow : Type := {
  d_idempotency_key : rstr;
  d_observation_id : rstr;
  d_provider_id : rstr;
  d_registration_revision : Z;
  d_last_provider_instance_id : option rstr;
  d_state : DeliveryStateV1;
  d_attempt_number : Z;
  d_next_attempt_at_micros : Z;
  d_lease_owner : option rstr;
  d_lease_id : option rstr;
  d_lease_expires_at_micros : option Z;
  d_last_outcome : option ObservationOutcomeV1;
  d_last_committed_effect : option ObservationCommittedEffectV1;
  d_last_receipt_id : option rstr;
  d_source_sequence : Z;
  d_exact_scope_sha256 : rstr;
  d_queue_bytes : Z;
  d_updated_at_micros : Z;
}.

(** The primary key of the recovery table. *)
Record StreamKey : Type := {
  k_provider_id : rstr;
  k_registration_revision : Z;
  k_source_authority : rstr;
  k_exact_scope_sha256 : rstr;
  k_source_stream : rstr;
}.

#[export] Instance StreamKey_eq_dec : EqDecision StreamKey.
Proof. solve_decision. Defined.

Record RecoveryRow : Type := {
  v_key : StreamKey;
  acknowledged_sequence : option Z;
  acknowledged_observation_id : option rstr;
  acknowledged_at_micros : option Z;
  implementation_identity_sha256 : option rstr;
  state_schema_version : option rstr;
  v_state_generation : option Z;
  replay_position_retained : option Z;
  automatic_repair_attempts : Z;
  last_defect : option rstr;
  last_assessment_id : option rstr;
  v_updated_at_micros : Z;
}.

Record Store : Type := {
  journal : list JournalRow;
  deliveries : list DeliveryRow;
  receipts : list ObservationDeliveryReceiptV1;
  refusals : list AttemptRefusalRecordV1;
  orphans : list AttemptOrphanRecordV1;
  recovery : list RecoveryRow;
}.

Definition with_deliveries (s : Store) (rows : list DeliveryRow) : Store :=
  {| journal := journal s; deliveries := rows; receipts := receipts s; refusals := refusals s;
     orphans := orphans s; recovery := recovery s |}.
Definition with_receipts (s : Store) (rows : list ObservationDeliveryReceiptV1) : Store :=
  {| journal := journal s; deliveries := deliveries s; receipts := rows; refusals := refusals s;
     orphans := orphans s; recovery := recovery s |}.
Definition with_refusals (s : Store) (rows : list AttemptRefusalRecordV1) : Store :=
  {| journal := journal s; deliveries := deliveries s; receipts := receipts s; refusals := rows;
     orphans := orphans s; recovery := recovery s |}.
Definition with_orphans (s : Store) (rows : list AttemptOrphanRecordV1) : Store :=
  {| journal := journal s; deliveries := deliveries s; receipts := receipts s;
     refusals := refusals s; orphans := rows; recovery := recovery s |}.
Definition with_recovery (s : Store) (rows : list RecoveryRow) : Store :=
  {| journal := journal s; deliveries := deliveries s; receipts := receipts s;
     refusals := refusals s; orphans := orphans s; recovery := rows |}.

(** ** Statements *)

(** [UPDATE deliveries SET f WHERE p] and the number of changed rows. *)
Definition update_where (p : DeliveryRow → bool) (f : DeliveryRow → DeliveryRow)
    (rows : list DeliveryRow) : list DeliveryRow * Z :=
  ((λ d, if p d then f d else d) <$> rows, zlen (List.filter p rows)).

(** The columns an [UPDATE] of a delivery row may set; the rest is kept. *)
Definition set_row (d : DeliveryRow) (instance : option rstr) (state : DeliveryStateV1)
    (attempt_number next_attempt_at : Z) (lease_owner lease_id : option rstr)
    (lease_expires_at : option Z) (last_outcome : option ObservationOutcomeV1)
    (last_committed_effect : option ObservationCommittedEffectV1) (last_receipt_id : option rstr)
    (updated_at : Z) : DeliveryRow := {|
  d_idempotency_key := d_idempotency_key d;
  d_observation_id := d_observation_id d;
  d_provider_id := d_provider_id d;
  d_registration_revision := d_registration_revision d;
  d_last_provider_instance_id := instance;
  d_state := state;
  d_attempt_number := attempt_number;
  d_next_attempt_at_micros := next_attempt_at;
  d_lease_owner := lease_owner;
  d_lease_id := lease_id;
  d_lease_expires_at_micros := lease_expires_at;
  d_last_outcome := last_outcome;
  d_last_committed_effect := last_committed_effect;
  d_last_receipt_id := last_receipt_id;
  d_source_sequence := d_source_sequence d;
  d_exact_scope_sha256 := d_exact_scope_sha256 d;
  d_queue_bytes := d_queue_bytes d;
  d_updated_at_micros := updated_at;
|}.

Definition str_eqb (a b : rstr) : bool := bool_decide (a = b).
Definition state_eqb (a b : DeliveryStateV1) : bool := bool_decide (a = b).
Definition opt_eqb (a : option rstr) (b : rstr) : bool := bool_decide (a = Some b).

Definition sql_i64 (value : Z) (field : rstr) : result Z ObservationJournalError :=
  if value <=? i64_max then Ok value else Err (ValueOutOfRange field).

Definition sql_i64_opt (value : option Z) (field : rstr) : result unit ObservationJournalError :=
  check_some value (λ v, let? _ := sql_i64 v field in Ok tt).

Definition read_u32 (value : Z) (field : rstr) : result Z ObservationJournalError :=
  if (0 <=? value) && (value <=? u32_max) then Ok value else Err (ValueOutOfRange field).

(** [ADVANCE_DELIVERY]. *)
Definition advance_delivery (state : DeliveryStateV1) (next_attempt_at : Z)
    (receipt : ObservationDeliveryReceiptV1) (rows : list DeliveryRow) : list DeliveryRow * Z :=
  update_where
    (λ d, str_eqb (d_observation_id d) (r_observation_id receipt) && state_eqb (d_state d) Leased
          && (d_attempt_number d =? r_attempt_number receipt))
    (λ d, set_row d (r_provider_instance_id receipt) state (d_attempt_number d) next_attempt_at
            None None None (Some (outcome receipt)) (Some (committed_effect receipt))
            (Some (receipt_id receipt)) (finished_at_unix_micros receipt)) rows.

(** [CLAIM_LEASE]. *)
Definition claim_lease (lease_id lease_owner : rstr) (lease_expires_at : Z) (instance : rstr)
    (now : Z) (idempotency_key : rstr) (previous : DeliveryStateV1) (consumed : Z)
    (rows : list DeliveryRow) : list DeliveryRow * Z :=
  update_where
    (λ d, str_eqb (d_idempotency_key d) idempotency_key && state_eqb (d_state d) previous
          && (d_attempt_number d =? consumed))
    (λ d, set_row d (Some instance) Leased (d_attempt_number d + 1) (d_next_attempt_at_micros d)
            (Some lease_owner) (Some lease_id) (Some lease_expires_at) (d_last_outcome d)
            (d_last_committed_effect d) (d_last_receipt_id d) now) rows.

(** [RELEASE_LEASE]. *)
Definition release_lease_rows (retry_after : Z) (lease : rstr) (rows : list DeliveryRow) :
    list DeliveryRow * Z :=
  update_where (λ d, opt_eqb (d_lease_id d) lease && state_eqb (d_state d) Leased)
    (λ d, set_row d (d_last_provider_instance_id d) Pending (d_attempt_number d) retry_after
            None None None (d_last_outcome d) (d_last_committed_effect d) (d_last_receipt_id d)
            retry_after) rows.

(** [RECLAIM_ONE_LEASE]. *)
Definition reclaim_one_lease (now : Z) (idempotency_key : rstr) (rows : list DeliveryRow) :
    list DeliveryRow * Z :=
  update_where (λ d, str_eqb (d_idempotency_key d) idempotency_key && state_eqb (d_state d) Leased)
    (λ d, set_row d (d_last_provider_instance_id d) Pending (d_attempt_number d)
            (d_next_attempt_at_micros d) None None None (d_last_outcome d)
            (d_last_committed_effect d) (d_last_receipt_id d) now) rows.

(** [RECORD_UNSETTLED_ATTEMPT]. *)
Definition record_unsettled_rows (retry_after : Z) (receipt : ObservationDeliveryReceiptV1)
    (lease : rstr) (rows : list DeliveryRow) : list DeliveryRow * Z :=
  update_where
    (λ d, str_eqb (d_observation_id d) (r_observation_id receipt)
          && str_eqb (d_idempotency_key d) (r_idempotency_key receipt)
          && state_eqb (d_state d) Leased && opt_eqb (d_lease_id d) lease
          && (d_attempt_number d =? r_attempt_number receipt)
          && match r_provider_instance_id receipt with
             | Some instance => opt_eqb (d_last_provider_instance_id d) instance
             | None => false
             end)
    (λ d, set_row d (r_provider_instance_id receipt) Pending (d_attempt_number d) retry_after
            None None None (Some (outcome receipt)) (Some (committed_effect receipt))
            (Some (receipt_id receipt)) (finished_at_unix_micros receipt)) rows.

(** The [UPDATE] of [expire_delivery]. *)
Definition terminate_rows (next_state : DeliveryStateV1) (attempt : Z) (o : ObservationOutcomeV1)
    (id : rstr) (now : Z) (idempotency_key : rstr) (current_state : DeliveryStateV1)
    (rows : list DeliveryRow) : list DeliveryRow * Z :=
  update_where
    (λ d, str_eqb (d_idempotency_key d) idempotency_key && state_eqb (d_state d) current_state)
    (λ d, set_row d (d_last_provider_instance_id d) next_state attempt (d_next_attempt_at_micros d)
            None None None (Some o) (Some EffectNone) (Some id) now) rows.

(** The receipt table has two unique keys: the attempt and the receipt id. *)
Definition receipt_conflicts (a b : ObservationDeliveryReceiptV1) : bool :=
  (str_eqb (r_observation_id a) (r_observation_id b) && (r_attempt_number a =? r_attempt_number b))
  || str_eqb (receipt_id a) (receipt_id b).

(** [insert_receipt_row]: the row is written with no warnings, or a unique
    key is violated and nothing is written. *)
Definition stored_receipt (r : ObservationDeliveryReceiptV1) : ObservationDeliveryReceiptV1 := {|
  receipt_id := receipt_id r; r_observation_id := r_observation_id r;
  r_idempotency_key := r_idempotency_key r; r_payload_sha256 := r_payload_sha256 r;
  r_extensions_digest := r_extensions_digest r; r_provider_id := r_provider_id r;
  r_provider_instance_id := r_provider_instance_id r;
  r_registration_revision := r_registration_revision r;
  state_generation_before := state_generation_before r;
  state_generation_after := state_generation_after r; r_attempt_number := r_attempt_number r;
  outcome := outcome r; committed_effect := committed_effect r;
  provider_effect_summary := provider_effect_summary r;
  provider_receipt_digest := provider_receipt_digest r;
  started_at_unix_micros := started_at_unix_micros r;
  finished_at_unix_micros := finished_at_unix_micros r; warnings := [];
|}.

Definition insert_receipt_row (s : Store) (r : ObservationDeliveryReceiptV1) : option Store :=
  if existsb (receipt_conflicts r) (receipts s) then None
  else Some (with_receipts s (receipts s ++ [stored_receipt r])).

(** [read_journal_row]. *)
Definition read_journal_row (s : Store) (observation_id : rstr) :
    result JournalRow ObservationJournalError :=
  match head (List.filter (λ j, str_eqb (j_observation_id j) observation_id) (journal s)) with
  | Some j => Ok j
  | None => Err (UnknownObservation observation_id)
  end.

Definition read_delivery_state (s : Store) (observation_id : rstr) :
    result DeliveryStateV1 ObservationJournalError :=
  match head (List.filter (λ d, str_eqb (d_observation_id d) observation_id) (deliveries s)) with
  | Some d => Ok (d_state d)
  | None => Err (UnknownObservation observation_id)
  end.

Definition DELIVERY_TABLE : rstr := str "tdmem_observation_delivery_v1".
Definition RECEIPT_TABLE : rstr := str "tdmem_observation_receipt_v1".

(** [INTEGER] maximum with SQL's [NULL] for no rows. *)
Definition sql_max (l : list Z) : option Z :=
  match l with [] => None | x :: l => Some (fold_left Z.max l x) end.

(** [ORDER BY key, tiebreak LIMIT n] over rows that carry both. *)
Definition ordered {A} (key : A → Z) (tiebreak : A → rstr) (limit : Z) (l : list A) : list A :=
  take (Z.to_nat limit)
    (sort_by (cmp_leb (λ a b, then_with (key a ?= key b) (str_compare (tiebreak a) (tiebreak b)))) l).

(** [deliveries d JOIN journal j ON j.idempotency_key = d.idempotency_key]. *)
Definition joined (s : Store) : list (DeliveryRow * JournalRow) :=
  deliveries s ≫= (λ d,
    (λ j, (d, j)) <$> List.filter (λ j, str_eqb (j_idempotency_key j) (d_idempotency_key d)) (journal s)).

(** ** The acknowledged watermark: recovery.rs *)
Definition ACKNOWLEDGED_GAP_SCAN_ROWS : Z := 8.

Definition stream_of (j : JournalRow) : StreamKey := {|
  k_provider_id := j_provider_id j; k_registration_revision := j_registration_revision j;
  k_source_authority := j_source_authority j; k_exact_scope_sha256 := j_exact_scope_sha256 j;
  k_source_stream := j_source_stream j;
|}.

Definition is_acknowledging (o : ObservationOutcomeV1) : bool :=
  match o with OutcomeApplied | OutcomeDuplicateAcknowledged | PartialEffect => true | _ => false end.

(** [SELECT MAX(r.finished_at_micros) ... WHERE r.outcome IN (...)]. *)
Definition acknowledged_at (s : Store) (observation_id : rstr) : option Z :=
  sql_max (finished_at_unix_micros <$>
    List.filter (λ r, str_eqb (r_observation_id r) observation_id && is_acknowledging (outcome r))
      (receipts s)).

Definition current_watermark (s : Store) (key : StreamKey) : option Z :=
  match head (List.filter (λ v, bool_decide (v_key v = key)) (recovery s)) with
  | Some v => acknowledged_sequence v
  | None => None
  end.

(** [SELECT_ACKNOWLEDGED_SUFFIX]: one page of the stream past the watermark. *)
Definition acknowledged_suffix (s : Store) (key : StreamKey) (current : option Z) : list JournalRow :=
  ordered j_source_sequence (λ _, []) ACKNOWLEDGED_GAP_SCAN_ROWS
    (List.filter (λ j, bool_decide (stream_of j = key) && (j_source_sequence j >? default (-1) current))
       (journal s)).

(** The loop over the page: the last row before the first gap. *)
Fixpoint contiguous (s : Store) (rows : list JournalRow) (last : option (Z * rstr * Z)) :
    option (Z * rstr * Z) :=
  match rows with
  | [] => last
  | j :: rows =>
    match acknowledged_at s (j_observation_id j) with
    | None => last
    | Some instant => contiguous s rows (Some (j_source_sequence j, j_observation_id j, instant))
    end
  end.

(** [ADVANCE_ACKNOWLEDGED]. *)
Definition fresh_recovery (key : StreamKey) (sequence : Z) (observation_id : rstr) (instant : Z) :
    RecoveryRow := {|
  v_key := key; acknowledged_sequence := Some sequence;
  acknowledged_observation_id := Some observation_id; acknowledged_at_micros := Some instant;
  implementation_identity_sha256 := None; state_schema_version := None;
  v_state_generation := None; replay_position_retained := None; automatic_repair_attempts := 0;
  last_defect := None; last_assessment_id := None; v_updated_at_micros := instant;
|}.

Definition raised_recovery (v : RecoveryRow) (sequence : Z) (observation_id : rstr) (instant : Z) :
    RecoveryRow := {|
  v_key := v_key v; acknowledged_sequence := Some sequence;
  acknowledged_observation_id := Some observation_id; acknowledged_at_micros := Some instant;
  implementation_identity_sha256 := implementation_identity_sha256 v;
  state_schema_version := state_schema_version v; v_state_generation := v_state_generation v;
  replay_position_retained := replay_position_retained v;
  automatic_repair_attempts := automatic_repair_attempts v; last_defect := last_defect v;
  last_assessment_id := last_assessment_id v; v_updated_at_micros := instant;
|}.

Definition upsert_recovery (rows : list RecoveryRow) (key : StreamKey) (sequence : Z)
    (observation_id : rstr) (instant : Z) : list RecoveryRow :=
  if existsb (λ v, bool_decide (v_key v = key)) rows then
    (λ v, if bool_decide (v_key v = key) && (sequence >? default (-1) (acknowledged_sequence v))
          then raised_recovery v sequence observation_id instant else v) <$> rows
  else rows ++ [fresh_recovery key sequence observation_id instant].

Definition advance_acknowledged_watermark (s : Store) (key : StreamKey) : Store :=
  match contiguous s (acknowledged_suffix s key (current_watermark s key)) None with
  | Some (sequence, observation_id, instant) =>
    with_recovery s (upsert_recovery (recovery s) key sequence observation_id instant)
  | None => s
  end.

(** ** dispatch.rs *)
Section journal.
Context `{Sha256} (policy : RetentionPolicyV1).

Record SettlementV1 : Type := {
  settled_state : DeliveryStateV1;
  settled_next_attempt_at : Z;
  advanced : bool;
}.

Definition settle_delivery (s : Store) (receipt : ObservationDeliveryReceiptV1) :
    Store * SettlementV1 :=
  let retryable := is_retryable (outcome receipt) in
  let exhausted := retryable && (r_attempt_number receipt >=? max_attempts policy) in
  let state := if exhausted then Exhausted else implied_state (outcome receipt) in
  let next_attempt_at :=
    if exhausted || negb retryable then finished_at_unix_micros receipt
    else i64_sat_add (finished_at_unix_micros receipt)
           (next_attempt_delay policy (r_attempt_number receipt)) in
  let '(rows, changed) := advance_delivery state next_attempt_at receipt (deliveries s) in
  (with_deliveries s rows,
   {| settled_state := state; settled_next_attempt_at := next_attempt_at;
      advanced := changed =? 1 |}).

Definition read_receipt (s : Store) (observation_id : rstr) (attempt_number : Z) :
    result ObservationDeliveryReceiptV1 ObservationJournalError :=
  match head (List.filter (λ r, str_eqb (r_observation_id r) observation_id
                                && (r_attempt_number r =? attempt_number)) (receipts s)) with
  | Some r => let? _ := delivery_receipt_validate r in Ok r
  | None => Err (Corrupt RECEIPT_TABLE (str "attempt_number"))
  end.

Definition advance_watermark_for (s : Store) (j : JournalRow) (receipt : ObservationDeliveryReceiptV1) :
    Store :=
  match implied_state (outcome receipt) with
  | Acknowledged | DuplicateAcknowledged => advance_acknowledged_watermark s (stream_of j)
  | _ => s
  end.

(** The receipt describes the journalled content and its registration. *)
Definition receipt_matches_journal (j : JournalRow) (receipt : ObservationDeliveryReceiptV1) :
    result unit ObservationJournalError :=
  if negb (str_eqb (j_payload_sha256 j) (r_payload_sha256 receipt))
  then Err (ReceiptDigestMismatch (str "payload_sha256")) else
  if negb (str_eqb (j_extensions_digest j) (r_extensions_digest receipt))
  then Err (ReceiptDigestMismatch (str "extensions_digest")) else
  if negb (str_eqb (j_provider_id j) (r_provider_id receipt))
  then Err (ReceiptDigestMismatch (str "provider_id")) else
  let? registration := sql_i64 (r_registration_revision receipt) (str "registration_revision") in
  if negb (j_registration_revision j =? registration)
  then Err (ReceiptDigestMismatch (str "registration_revision")) else
  Ok tt.

(** The integer conversions in front of [INSERT_RECEIPT]. *)
Definition receipt_columns_fit (receipt : ObservationDeliveryReceiptV1) :
    result unit ObservationJournalError :=
  let? _ := sql_i64 (r_registration_revision receipt) (str "registration_revision") in
  let? _ := sql_i64_opt (state_generation_before receipt) (str "state_generation_before") in
  sql_i64_opt (state_generation_after receipt) (str "state_generation_after").

Definition record_attempt (s : Store) (receipt : ObservationDeliveryReceiptV1) :
    result (AttemptOutcomeV1 * Store) ObservationJournalError :=
  let? _ := delivery_receipt_validate receipt in
  let? j := read_journal_row s (r_observation_id receipt) in
  let? _ := receipt_matches_journal j receipt in
  let? _ := receipt_columns_fit receipt in
  match insert_receipt_row s receipt with
  | None =>
    let? standing := read_receipt s (r_observation_id receipt) (r_attempt_number receipt) in
    let '(s1, settled) := settle_delivery s standing in
    let? state := if advanced settled then Ok (settled_state settled)
                  else read_delivery_state s1 (r_observation_id receipt) in
    Ok (DuplicateReceipt state, advance_watermark_for s1 j standing)
  | Some s1 =>
    let s2 := advance_watermark_for s1 j receipt in
    let '(s3, settled) := settle_delivery s2 receipt in
    if negb (advanced settled) then Ok (LeaseLost (receipt_id receipt), s3)
    else Ok (Recorded (settled_state settled)
               (if negb (is_terminal (settled_state settled))
                then Some (settled_next_attempt_at settled) else None), s3)
  end.

Definition validate_unsettled_attempt_receipt (receipt : ObservationDeliveryReceiptV1) :
    result unit ObservationJournalError :=
  let? _ := delivery_receipt_validate receipt in
  if negb (match outcome receipt with OutcomeCancelled | OutcomeEffectUnknown => true | _ => false end)
     || negb (bool_decide (committed_effect receipt = EffectIsUnknown))
     || match r_provider_instance_id receipt with None => true | Some _ => false end
     || match state_generation_before receipt with Some _ => true | None => false end
     || match state_generation_after receipt with Some _ => true | None => false end
     || match provider_receipt_digest receipt with Some _ => true | None => false end
     || negb (bool_decide (provider_effect_summary receipt = empty_summary))
     || negb (is_empty (warnings receipt))
  then Err (Corrupt RECEIPT_TABLE (str "unsettled_attempt_evidence"))
  else Ok tt.

Definition record_unsettled_attempt_in_transaction (s : Store)
    (receipt : ObservationDeliveryReceiptV1) (lease : rstr) (retry_after : Z) :
    result (AttemptOutcomeV1 * Store) ObservationJournalError :=
  let? j := read_journal_row s (r_observation_id receipt) in
  let? _ := receipt_matches_journal j receipt in
  let stored_key := d_idempotency_key <$>
    head (List.filter (λ d, str_eqb (d_observation_id d) (r_observation_id receipt)) (deliveries s)) in
  if negb (opt_eqb stored_key (r_idempotency_key receipt))
  then Err (ReceiptDigestMismatch (str "idempotency_key")) else
  let '(rows, changed) := record_unsettled_rows retry_after receipt lease (deliveries s) in
  if negb (changed =? 1)
  then Ok (LeaseLost (receipt_id receipt), with_deliveries s rows) else
  let? _ := receipt_columns_fit receipt in
  match insert_receipt_row (with_deliveries s rows) receipt with
  | None => Err (Corrupt RECEIPT_TABLE (str "attempt_number"))
  | Some s1 => Ok (Recorded Pending (Some retry_after), s1)
  end.

Definition record_unsettled_attempt (s : Store) (receipt : ObservationDeliveryReceiptV1)
    (lease : rstr) (retry_after : Z) : result (AttemptOutcomeV1 * Store) ObservationJournalError :=
  let? _ := validate_unsettled_attempt_receipt receipt in
  record_unsettled_attempt_in_transaction s receipt lease retry_after.

(** The loop over the identity fields that must agree. *)
Fixpoint all_match (fields : list (bool * rstr)) : result unit ObservationJournalError :=
  match fields with
  | [] => Ok tt
  | (matches, field) :: fields =>
    if negb matches then Err (AttemptRefusalBindingMismatch field) else all_match fields
  end.

Definition validate_attempt_refusal_binding (s : Store) (refusal : AttemptRefusalRecordV1) :
    result unit ObservationJournalError :=
  match head (List.filter (λ d, str_eqb (d_observation_id d) (f_observation_id refusal))
                (deliveries s)) with
  | None => Err (UnknownObservation (f_observation_id refusal))
  | Some d =>
    let? registration := sql_i64 (f_registration_revision refusal) (str "registration_revision") in
    all_match
      [(str_eqb (d_idempotency_key d) (f_idempotency_key refusal), str "idempotency_key");
       (str_eqb (d_provider_id d) (f_provider_id refusal), str "provider_id");
       (d_registration_revision d =? registration, str "registration_revision");
       (str_eqb (d_exact_scope_sha256 d) (f_exact_scope_sha256 refusal), str "exact_scope_sha256");
       (d_attempt_number d =? f_attempt_number refusal, str "attempt_number");
       (opt_eqb (d_last_provider_instance_id d) (f_provider_instance_id refusal),
        str "provider_instance_id")]
  end.

Definition insert_attempt_refusal (s : Store) (refusal : AttemptRefusalRecordV1) :
    result (AttemptRefusalOutcomeV1 * Store) ObservationJournalError :=
  let? _ := validate_attempt_refusal_binding s refusal in
  if existsb (λ f, str_eqb (f_observation_id f) (f_observation_id refusal)
                   && (f_attempt_number f =? f_attempt_number refusal)) (refusals s)
  then Ok (AlreadyRecorded, s)
  else Ok (RefusalRecorded, with_refusals s (refusals s ++ [refusal])).

Definition record_attempt_refusal (s : Store) (refusal : AttemptRefusalRecordV1) :
    result (AttemptRefusalOutcomeV1 * Store) ObservationJournalError :=
  let? _ := refusal_validate refusal in
  let? _ := sql_i64 (f_registration_revision refusal) (str "registration_revision") in
  insert_attempt_refusal s refusal.

Definition record_refused_terminal_attempt (s : Store) (refusal : AttemptRefusalRecordV1)
    (receipt : ObservationDeliveryReceiptV1) (lease : rstr) (retry_after : Z) :
    result (AttemptRefusalOutcomeV1 * AttemptOutcomeV1 * Store) ObservationJournalError :=
  let? _ := refusal_validate refusal in
  let? _ := validate_unsettled_attempt_receipt receipt in
  if negb (bool_decide (outcome receipt = OutcomeEffectUnknown))
  then Err (Corrupt RECEIPT_TABLE (str "unsettled_attempt_evidence")) else
  let? _ := all_match
    [(str_eqb (f_observation_id refusal) (r_observation_id receipt), str "observation_id");
     (str_eqb (f_idempotency_key refusal) (r_idempotency_key receipt), str "idempotency_key");
     (str_eqb (f_provider_id refusal) (r_provider_id receipt), str "provider_id");
     (f_registration_revision refusal =? r_registration_revision receipt,
      str "registration_revision");
     (opt_eqb (r_provider_instance_id receipt) (f_provider_instance_id refusal),
      str "provider_instance_id");
     (f_attempt_number refusal =? r_attempt_number receipt, str "attempt_number")] in
  let? _ := sql_i64 (f_registration_revision refusal) (str "registration_revision") in
  let? _ := validate_attempt_refusal_binding s refusal in
  let? recorded := record_unsettled_attempt_in_transaction s receipt lease retry_after in
  let '(attempt_outcome, s1) := recorded in
  match attempt_outcome with
  | LeaseLost _ => Ok (RefusalLeaseLost, attempt_outcome, s1)
  | _ =>
    let? inserted := insert_attempt_refusal s1 refusal in
    Ok (fst inserted, attempt_outcome, snd inserted)
  end.

Definition release_lease (s : Store) (lease : rstr) (retry_after : Z) :
    result Store ObservationJournalError :=
  let '(rows, changed) := release_lease_rows retry_after lease (deliveries s) in
  if changed =? 0 then Err (UnknownLease lease) else Ok (with_deliveries s rows).

(** *** Terminating deliveries *)
Definition highest_receipt (s : Store) (observation_id : rstr) : Z :=
  default 0 (sql_max (r_attempt_number <$>
    List.filter (λ r, str_eqb (r_observation_id r) observation_id) (receipts s))).

(** The receipt the journal writes for itself. *)
Definition terminal_receipt (j : JournalRow) (observation_id idempotency_key : rstr) (attempt : Z)
    (o : ObservationOutcomeV1) (reason : rstr) (now : Z) : ObservationDeliveryReceiptV1 := {|
  receipt_id := receipt_id_derive observation_id attempt; r_observation_id := observation_id;
  r_idempotency_key := idempotency_key; r_payload_sha256 := j_payload_sha256 j;
  r_extensions_digest := j_extensions_digest j; r_provider_id := j_provider_id j;
  r_provider_instance_id := None; r_registration_revision := j_registration_revision j;
  state_generation_before := None; state_generation_after := None; r_attempt_number := attempt;
  outcome := o; committed_effect := EffectNone;
  provider_effect_summary := {| effect_count := 0; stable_memory_refs := [];
                                provider_trace_refs := []; no_effect_reason := Some reason |};
  provider_receipt_digest := None; started_at_unix_micros := now;
  finished_at_unix_micros := now; warnings := [];
|}.

Definition expire_delivery (s : Store) (observation_id idempotency_key : rstr) (attempt_number : Z)
    (current_state next_state : DeliveryStateV1) (o : ObservationOutcomeV1) (reason : rstr)
    (now : Z) : result Store ObservationJournalError :=
  if negb (can_transition_to current_state next_state)
  then Err (Corrupt DELIVERY_TABLE (str "state")) else
  let? j := read_journal_row s observation_id in
  let? highest := read_u32 (highest_receipt s observation_id) (str "attempt_number") in
  let attempt := sat_add u32_max (Z.max attempt_number highest) 1 in
  match insert_receipt_row s (terminal_receipt j observation_id idempotency_key attempt o reason now) with
  | None => Err (Corrupt RECEIPT_TABLE (str "attempt_number"))
  | Some s1 =>
    let '(rows, changed) :=
      terminate_rows next_state attempt o (receipt_id_derive observation_id attempt) now
        idempotency_key current_state (deliveries s1) in
    if negb (changed =? 1) then Err (Corrupt DELIVERY_TABLE (str "state"))
    else Ok (with_deliveries s1 rows)
  end.

(** The loop of [terminalize_deliveries] over the selected rows. *)
Fixpoint terminalize_deliveries (s : Store) (selected : list DeliveryRow)
    (next_state : DeliveryStateV1) (o : ObservationOutcomeV1) (reason : rstr) (now : Z) :
    result Store ObservationJournalError :=
  match selected with
  | [] => Ok s
  | d :: selected =>
    let? s1 := expire_delivery s (d_observation_id d) (d_idempotency_key d) (d_attempt_number d)
                 (d_state d) next_state o reason now in
    terminalize_deliveries s1 selected next_state o reason now
  end.

(** Reading the selected rows back: every attempt number must fit [u32]. *)
Fixpoint decode_selected (rows : list DeliveryRow) : result unit ObservationJournalError :=
  match rows with
  | [] => Ok tt
  | d :: rows =>
    let? _ := read_u32 (d_attempt_number d) (str "attempt_number") in decode_selected rows
  end.

(** [d.provider_id = ?1 AND d.registration_revision = ?2 AND d.state IN
    ('pending', 'effect_unknown')]. *)
Definition addressed (request : LeaseRequestV1) (registration : Z) (d : DeliveryRow) : bool :=
  str_eqb (d_provider_id d) (q_provider_id request) && (d_registration_revision d =? registration)
  && is_deliverable (d_state d).

(** [EXPIRE_PAST_DEADLINE] and [SELECT_ATTEMPTS_EXHAUSTED]. *)
Definition past_deadline (s : Store) (request : LeaseRequestV1) (registration : Z) :
    list DeliveryRow :=
  fst <$> ordered (λ dj, d_source_sequence (fst dj)) (λ dj, d_idempotency_key (fst dj))
    (q_max_items request)
    (List.filter (λ dj, addressed request registration (fst dj)
                        && (j_deadline_micros (snd dj) <=? q_now_unix_micros request)) (joined s)).

Definition attempts_exhausted (s : Store) (request : LeaseRequestV1) (registration : Z) :
    list DeliveryRow :=
  ordered d_source_sequence d_idempotency_key (q_max_items request)
    (List.filter (λ d, addressed request registration d
                       && (d_attempt_number d >=? max_attempts policy)) (deliveries s)).

(** *** Leasing *)
Record LeasedObservationV1 : Type := {
  l_lease_id : rstr;
  l_lease_expires_at_unix_micros : Z;
  l_observation_id : rstr;
  l_idempotency_key : rstr;
  l_provider_id : rstr;
  l_provider_instance_id : rstr;
  l_registration_revision : Z;
  l_exact_scope_sha256 : rstr;
  l_payload_sha256 : rstr;
  l_payload_bytes : bytes;
  l_extensions : list bytes;
  l_extensions_digest : rstr;
  l_attempt_number : Z;
  l_deadline_unix_micros : Z;
  l_source_sequence : Z;
}.

Definition decode_leased (d : DeliveryRow) (j : JournalRow) (claiming_instance_id lease_owner : rstr)
    (leased_at lease_expires_at : Z) : result LeasedObservationV1 ObservationJournalError :=
  match j_payload_bytes j with
  | None => Err (Corrupt (str "tdmem_observation_journal_v1") (str "payload_bytes"))
  | Some payload =>
    let? stored_attempts := read_u32 (d_attempt_number d) (str "attempt_number") in
    let attempt_number := sat_add u32_max stored_attempts 1 in
    Ok {| l_lease_id := lease_id_derive (j_idempotency_key j) lease_owner leased_at attempt_number;
          l_lease_expires_at_unix_micros := lease_expires_at;
          l_observation_id := j_observation_id j; l_idempotency_key := j_idempotency_key j;
          l_provider_id := j_provider_id j; l_provider_instance_id := claiming_instance_id;
          l_registration_revision := j_registration_revision j;
          l_exact_scope_sha256 := j_exact_scope_sha256 j;
          l_payload_sha256 := j_payload_sha256 j; l_payload_bytes := payload;
          l_extensions := j_extensions j; l_extensions_digest := j_extensions_digest j;
          l_attempt_number := attempt_number; l_deadline_unix_micros := j_deadline_micros j;
          l_source_sequence := j_source_sequence j |}
  end.

Definition leased_queue_bytes (item : LeasedObservationV1) : Z :=
  let extensions := fold_left (λ total extension, sat_add usize_max total (zlen extension))
                      (l_extensions item) 0 in
  sat_add usize_max (zlen (l_payload_bytes item)) extensions.

(** The rows a lease may take, in source order. *)
Definition eligible_rows (s : Store) (request : LeaseRequestV1) (registration : Z) :
    list (DeliveryRow * JournalRow) :=
  let scan_limit := Z.min i64_max (Z.max (max_queue_items policy) (q_max_items request)) in
  ordered (λ dj, d_source_sequence (fst dj)) (λ dj, d_idempotency_key (fst dj)) scan_limit
    (List.filter (λ dj,
       addressed request registration (fst dj)
       && (d_next_attempt_at_micros (fst dj) <=? q_now_unix_micros request)
       && (j_deadline_micros (snd dj) >? q_now_unix_micros request)
       && match j_payload_bytes (snd dj) with Some _ => true | None => false end
       && match q_exact_scope_sha256 request with
          | None => true
          | Some scope => str_eqb (d_exact_scope_sha256 (fst dj)) scope
          end) (joined s)).

(** The item, the state and the attempts consumed before the claim. *)
Definition candidate : Type := LeasedObservationV1 * DeliveryStateV1 * Z.

Fixpoint candidate_loop (request : LeaseRequestV1) (rows : list (DeliveryRow * JournalRow))
    (candidates : list candidate) (leased_bytes : Z) :
    result (list candidate) ObservationJournalError :=
  match rows with
  | [] => Ok candidates
  | (d, j) :: rows =>
    if zlen candidates >=? q_max_items request then Ok candidates else
    let lease_expires := i64_sat_add (q_now_unix_micros request) (q_lease_duration_micros request) in
    let? item := decode_leased d j (q_provider_instance_id request) (q_lease_owner request)
                   (q_now_unix_micros request) lease_expires in
    let consumed := sat_sub (l_attempt_number item) 1 in
    let weight := leased_queue_bytes item in
    if is_empty candidates && (weight >? q_max_bytes request)
    then Ok [(item, d_state d, consumed)]
    else if sat_add u64_max leased_bytes weight >? q_max_bytes request
    then candidate_loop request rows candidates leased_bytes
    else candidate_loop request rows (candidates ++ [(item, d_state d, consumed)])
           (sat_add u64_max leased_bytes weight)
  end.

Fixpoint claim_loop (s : Store) (request : LeaseRequestV1) (candidates : list candidate)
    (leased : list LeasedObservationV1) : Store * list LeasedObservationV1 :=
  match candidates with
  | [] => (s, leased)
  | (item, previous_state, consumed) :: candidates =>
    let '(rows, changed) :=
      claim_lease (l_lease_id item) (q_lease_owner request) (l_lease_expires_at_unix_micros item)
        (q_provider_instance_id request) (q_now_unix_micros request) (l_idempotency_key item)
        previous_state consumed (deliveries s) in
    claim_loop (with_deliveries s rows) request candidates
      (if changed =? 1 then leased ++ [item] else leased)
  end.

(** Steps (1) and (2) of [lease_pending]: deliveries past their deadline and
    deliveries without attempts left are terminated first. *)
Definition terminate_stale (s : Store) (request : LeaseRequestV1) (registration : Z) :
    result Store ObservationJournalError :=
  let expired := past_deadline s request registration in
  let? _ := decode_selected expired in
  let? s1 := terminalize_deliveries s expired Expired DeadlineExceeded
               (str "observation_deadline_elapsed") (q_now_unix_micros request) in
  let exhausted := attempts_exhausted s1 request registration in
  let? _ := decode_selected exhausted in
  terminalize_deliveries s1 exhausted Exhausted ProviderUnavailable
    (str "max_delivery_attempts_consumed") (q_now_unix_micros request).

Definition lease_pending (s : Store) (request : LeaseRequestV1) :
    result (list LeasedObservationV1 * Store) ObservationJournalError :=
  let? _ := lease_request_validate request in
  let? registration := sql_i64 (q_registration_revision request) (str "registration_revision") in
  let? s1 := terminate_stale s request registration in
  let? candidates := candidate_loop request (eligible_rows s1 request registration) [] 0 in
  let '(s2, leased) := claim_loop s1 request candidates [] in
  Ok (leased, s2).

(** *** Reaping *)
Definition expired_leases (s : Store) (now budget : Z) : list (DeliveryRow * JournalRow) :=
  ordered (λ dj, default 0 (d_lease_expires_at_micros (fst dj))) (λ dj, d_idempotency_key (fst dj))
    budget
    (List.filter (λ dj, state_eqb (d_state (fst dj)) Leased
                        && match d_lease_expires_at_micros (fst dj) with
                           | Some expires => expires <=? now
                           | None => false
                           end) (joined s)).

Definition attempt_already_answered (s : Store) (d : DeliveryRow) : bool :=
  existsb (λ r, str_eqb (r_observation_id r) (d_observation_id d)
                && (r_attempt_number r =? d_attempt_number d)) (receipts s)
  || existsb (λ f, str_eqb (f_observation_id f) (d_observation_id d)
                   && (f_attempt_number f =? d_attempt_number d)) (refusals s).

Definition orphan_of (d : DeliveryRow) (j : JournalRow) (lease_id lease_owner : rstr)
    (expires now : Z) : AttemptOrphanRecordV1 := {|
  o_observation_id := d_observation_id d; o_attempt_number := d_attempt_number d;
  o_idempotency_key := d_idempotency_key d; o_provider_id := d_provider_id d;
  o_provider_instance_id := d_last_provider_instance_id d;
  o_registration_revision := d_registration_revision d;
  o_exact_scope_sha256 := d_exact_scope_sha256 d; o_lease_id := lease_id;
  o_lease_owner := lease_owner; o_payload_sha256 := j_payload_sha256 j;
  o_cause := LeaseExpiredWithoutAnswer;
  o_recovery := if d_attempt_number d >=? max_attempts policy then AttemptsExhausted
                else RedeliveryScheduled;
  lease_expired_at_unix_micros := expires; o_recorded_at_unix_micros := now;
|}.

(** [insert_attempt_orphan]: a second record of the attempt is a storage
    error, which rolls the reap back. *)
Definition insert_attempt_orphan (s : Store) (record : AttemptOrphanRecordV1) :
    result Store ObservationJournalError :=
  if existsb (λ o, str_eqb (o_observation_id o) (o_observation_id record)
                   && (o_attempt_number o =? o_attempt_number record)) (orphans s)
  then Err (Storage (str "tdmem_observation_attempt_orphan_v1"))
  else Ok (with_orphans s (orphans s ++ [record])).

Fixpoint reap_loop (s : Store) (leases : list (DeliveryRow * JournalRow)) (now reaped : Z) :
    result (Z * Store) ObservationJournalError :=
  match leases with
  | [] => Ok (reaped, s)
  | (d, j) :: leases =>
    let '(rows, changed) := reclaim_one_lease now (d_idempotency_key d) (deliveries s) in
    let s1 := with_deliveries s rows in
    if changed =? 0 then reap_loop s1 leases now reaped
    else
      let reaped := sat_add u32_max reaped 1 in
      if attempt_already_answered s1 d then reap_loop s1 leases now reaped
      else match d_lease_id d, d_lease_owner d, d_lease_expires_at_micros d with
      | Some lease_id, Some lease_owner, Some expires =>
        let record := orphan_of d j lease_id lease_owner expires now in
        let? _ := orphan_validate record in
        let? s2 := insert_attempt_orphan s1 record in
        reap_loop s2 leases now reaped
      | _, _, _ => Err (Storage DELIVERY_TABLE)
      end
  end.

(** [reap_expired_leases]; reading the selected rows checks the lease columns
    and the attempt numbers. *)
Fixpoint decode_expired (rows : list (DeliveryRow * JournalRow)) :
    result unit ObservationJournalError :=
  match rows with
  | [] => Ok tt
  | (d, _) :: rows =>
    let? _ := read_u32 (d_attempt_number d) (str "attempt_number") in
    match d_lease_id d, d_lease_owner d with
    | Some _, Some _ => decode_expired rows
    | _, _ => Err (Storage DELIVERY_TABLE)
    end
  end.

Definition reap_expired_leases (s : Store) (now budget : Z) :
    result (Z * Store) ObservationJournalError :=
  let leases := expired_leases s now budget in
  let? _ := decode_expired leases in
  reap_loop s leases now 0.
End journal.
