(* ===== verification/ObservationDelivery.v ===== *)
(** * Observation delivery: the invariants of the journal

    What the delivery operations of [ObservationJournal] guarantee: delivery
    rows follow the state machine of [state.rs], receipts are append-only and
    unique, each lease spends the next attempt number, the acknowledged
    watermark stays sound and does not move back, and a lease batch stays
    inside its bounds.  [ObservationSystem] carries these over the runs that
    also admit, delete and sweep. *)
From stdpp Require Import base list numbers sets sorting strings relations.
From S2P Require Import Prelude RustText Bytes ObservationState ObservationJournal.

#[local] Open Scope Z_scope.
#[local] Open Scope rust_scope.

(** ** Rows *)

(** The columns no statement rewrites. *)
Definition same_identity (d d' : DeliveryRow) : Prop :=
  d_idempotency_key d' = d_idempotency_key d ∧ d_observation_id d' = d_observation_id d ∧
  d_provider_id d' = d_provider_id d ∧ d_registration_revision d' = d_registration_revision d ∧
  d_source_sequence d' = d_source_sequence d ∧ d_exact_scope_sha256 d' = d_exact_scope_sha256 d ∧
  d_queue_bytes d' = d_queue_bytes d.

(** The lease columns are set together, and exactly on leased rows. *)
Definition lease_columns_ok (d : DeliveryRow) : Prop :=
  (d_state d = Leased ↔ is_Some (d_lease_id d)) ∧
  (is_Some (d_lease_id d) ↔ is_Some (d_lease_owner d)) ∧
  (is_Some (d_lease_id d) ↔ is_Some (d_lease_expires_at_micros d)).

(** The states the journal itself ends a delivery in. *)
Definition ends (st : DeliveryStateV1) : Prop := st = Expired ∨ st = Exhausted ∨ st = Forgotten.

(** One change of one row: a claim consumes an attempt number, the settlement
    of a lease keeps it, and a termination takes a new one. *)
Inductive row_step : DeliveryRow → DeliveryRow → Prop :=
  | row_claimed d d' :
      is_deliverable (d_state d) = true → d_state d' = Leased →
      d_attempt_number d' = d_attempt_number d + 1 →
      same_identity d d' → lease_columns_ok d' → row_step d d'
  | row_settled d d' :
      d_state d = Leased → can_transition_to Leased (d_state d') = true →
      d_attempt_number d' = d_attempt_number d →
      same_identity d d' → lease_columns_ok d' → row_step d d'
  | row_terminated d d' :
      is_terminal (d_state d) = false → ends (d_state d') →
      d_attempt_number d <= d_attempt_number d' →
      same_identity d d' → lease_columns_ok d' → row_step d d'.

(** What holds between a row and the same row later. *)
Definition row_after (d d' : DeliveryRow) : Prop :=
  same_identity d d' ∧ d_attempt_number d <= d_attempt_number d' ∧
  rtc (λ a b, can_transition_to a b = true) (d_state d) (d_state d') ∧
  (is_terminal (d_state d) = true → d' = d) ∧ (lease_columns_ok d → lease_columns_ok d').

#[export] Instance same_identity_trans : Transitive same_identity.
Proof. unfold same_identity. intros d1 d2 d3 H1 H2. naive_solver congruence. Qed.

Lemma row_step_after d d' : row_step d d' → row_after d d'.
Proof.
  intros Hs. destruct Hs as [d d' Hd Hs Ha Hi Hl|d d' Hs Ht Ha Hi Hl|d d' Hd Hs Ha Hi Hl];
    unfold row_after; (split; [done|]); (split; [lia|]).
  - split; [apply rtc_once; rewrite Hs; by destruct (d_state d)|].
    split; [|done]. by destruct (d_state d).
  - rewrite Hs. split; [by apply rtc_once|]. done.
  - split; [apply rtc_once; destruct Hs as [-> | [-> | ->]]; by destruct (d_state d)|].
    split; [|done]. by destruct (d_state d).
Qed.

Lemma row_after_trans d1 d2 d3 : row_after d1 d2 → row_after d2 d3 → row_after d1 d3.
Proof.
  intros (I1 & A1 & T1 & F1 & L1) (I2 & A2 & T2 & F2 & L2). split; [by etrans|]. split; [lia|].
  split; [by etrans|]. split; [|auto]. intros Ht. rewrite F1 in * by done. by apply F2.
Qed.

Lemma row_steps_after d d' : rtc row_step d d' → row_after d d'.
Proof.
  induction 1 as [d|d1 d2 d3 H1 _ IH].
  { unfold row_after, same_identity. split_and!; try done. }
  apply row_step_after in H1. by eapply row_after_trans.
Qed.

(** ** Stores *)

(** The slots the receipts occupy. *)
Definition slots (rs : list ObservationDeliveryReceiptV1) : list (rstr * Z) :=
  (λ r, (r_observation_id r, r_attempt_number r)) <$> rs.

(** The provider acknowledged an effect of this observation. *)
Definition acknowledged (s : Store) (observation_id : rstr) : Prop :=
  ∃ r, r ∈ receipts s ∧ r_observation_id r = observation_id ∧ is_acknowledging (outcome r) = true.

(** Every watermark covers acknowledged observations only. *)
Definition watermarks_sound (s : Store) : Prop :=
  ∀ v w j, v ∈ recovery s → acknowledged_sequence v = Some w →
    j ∈ journal s → stream_of j = v_key v → j_source_sequence j <= w →
    acknowledged s (j_observation_id j).

(** The unique indexes of the journal and of the recovery table, and the
    sign check of the sequences. *)
Record streams_ok (s : Store) : Prop := {
  so_sequences : NoDup ((λ j, (stream_of j, j_source_sequence j)) <$> journal s);
  so_nonneg : Forall (λ j, 0 <= j_source_sequence j) (journal s);
  so_keys : NoDup (v_key <$> recovery s);
}.

(** The store moved forward: the journal is fixed, every row followed the
    state machine, the audit tables only grew, and the watermarks only rose and
    stayed sound. *)
Record evolves (s s' : Store) : Prop := {
  ev_journal : journal s' = journal s;
  ev_rows : Forall2 (rtc row_step) (deliveries s) (deliveries s');
  ev_receipts : receipts s `prefix_of` receipts s';
  ev_refusals : refusals s `prefix_of` refusals s';
  ev_orphans : orphans s `prefix_of` orphans s';
  ev_unique : NoDup (slots (receipts s)) → NoDup (slots (receipts s'));
  ev_streams : streams_ok s → streams_ok s';
  ev_sound : streams_ok s → watermarks_sound s → watermarks_sound s';
  ev_rise : ∀ v, v ∈ recovery s → ∃ v', v' ∈ recovery s' ∧ v_key v' = v_key v ∧
    default (-1) (acknowledged_sequence v) <= default (-1) (acknowledged_sequence v');
  (** A watermark is an old one or the position of a row of its stream. *)
  ev_origin : ∀ v' w, v' ∈ recovery s' → acknowledged_sequence v' = Some w →
    (∃ v, v ∈ recovery s ∧ v_key v = v_key v' ∧ acknowledged_sequence v = Some w) ∨
    ∃ j, j ∈ journal s ∧ stream_of j = v_key v' ∧ j_source_sequence j = w;
}.

Lemma rows_refl rows : Forall2 (rtc row_step) rows rows.
Proof. induction rows; by constructor. Qed.

Lemma acknowledged_mono s s' o :
  receipts s `prefix_of` receipts s' → acknowledged s o → acknowledged s' o.
Proof. intros [k E] (r & Hr & Ho). exists r. split; [|done]. rewrite E, elem_of_app. by left. Qed.

(** A change that leaves the recovery table alone. *)
Lemma evolves_same_recovery s s' :
  journal s' = journal s → Forall2 (rtc row_step) (deliveries s) (deliveries s') →
  receipts s `prefix_of` receipts s' → refusals s `prefix_of` refusals s' →
  orphans s `prefix_of` orphans s' →
  (NoDup (slots (receipts s)) → NoDup (slots (receipts s'))) → recovery s' = recovery s →
  evolves s s'.
Proof.
  intros J D R F O U V. split; try done.
  - intros [S1 S2 S3]. split; congruence.
  - intros _ Hs v w j. rewrite V, J. intros. by eapply acknowledged_mono, Hs.
  - rewrite V. intros v Hv. exists v. split_and!; try done; lia.
  - rewrite V. intros v w Hv Hw. left. by exists v.
Qed.

#[export] Instance evolves_preorder : PreOrder evolves.
Proof.
  split.
  - intros s. apply evolves_same_recovery; try done.
  - intros s1 s2 s3 [J1 R1 C1 F1 O1 U1 T1 S1 W1 G1] [J2 R2 C2 F2 O2 U2 T2 S2 W2 G2].
    split; [congruence| |by etrans..|auto|auto|auto| |].
    + revert R2. generalize (deliveries s3). induction R1 as [|d1 d2 l1 l2 H1 H2 IH];
        intros l3 R2; inversion_clear R2; constructor; [by etrans|auto].
    + intros v Hv. destruct (W1 v Hv) as (v2 & H2 & K2 & L2). destruct (W2 v2 H2) as (v3 & H3 & K3 & L3).
      exists v3. split_and!; [done|congruence|lia].
    + intros v3 w H3 E3. destruct (G2 v3 w H3 E3) as [(v2 & H2 & K2 & E2)|(j & Hj & Hk & Hs)].
      * destruct (G1 v2 w H2 E2) as [(v1 & H1 & K1 & E1)|(j & Hj & Hk & Hs)]; [left; exists v1|right; exists j];
          split_and!; congruence || done.
      * right. exists j. split_and!; [congruence|done|done].
Qed.

Lemma evolves_rows s rows :
  Forall2 (rtc row_step) (deliveries s) rows → evolves s (with_deliveries s rows).
Proof. intros Hr. by apply evolves_same_recovery. Qed.

Lemma update_where_rows p f rows :
  (∀ d, p d = true → row_step d (f d)) →
  Forall2 (rtc row_step) rows (fst (update_where p f rows)).
Proof.
  intros Hf. unfold update_where. simpl. induction rows as [|d rows IH]; simpl; constructor; [|done].
  destruct (p d) eqn:E; [|done]. by apply rtc_once, Hf.
Qed.

(** ** The statements *)
Lemma set_row_identity d i st a n lo li le lo' le' lr u :
  same_identity d (set_row d i st a n lo li le lo' le' lr u).
Proof. by unfold same_identity, set_row. Qed.

Lemma released_columns d i st a n lo' le' lr u :
  st ≠ Leased → lease_columns_ok (set_row d i st a n None None None lo' le' lr u).
Proof.
  intros Hst. unfold lease_columns_ok. simpl.
  split_and!; split; try done; intros Hx; by destruct (is_Some_None Hx).
Qed.

Lemma leased_columns d i a n lo li le lo' le' lr u :
  lease_columns_ok (set_row d i Leased a n (Some lo) (Some li) (Some le) lo' le' lr u).
Proof. unfold lease_columns_ok. simpl. split_and!; split; eauto. Qed.

Ltac row_tests :=
  repeat match goal with
  | H : _ && _ = true |- _ => apply andb_true_iff in H as [? ?]
  | H : str_eqb _ _ = true |- _ => apply bool_decide_eq_true_1 in H
  | H : state_eqb _ _ = true |- _ => apply bool_decide_eq_true_1 in H
  | H : opt_eqb _ _ = true |- _ => apply bool_decide_eq_true_1 in H
  | H : (_ =? _) = true |- _ => apply Z.eqb_eq in H
  end.

Lemma advance_delivery_rows st n r rows :
  can_transition_to Leased st = true →
  Forall2 (rtc row_step) rows (fst (advance_delivery st n r rows)).
Proof.
  intros Hst. apply update_where_rows. intros d Hp. row_tests.
  apply row_settled; simpl; auto using set_row_identity.
  apply released_columns. by intros ->.
Qed.

Lemma claim_lease_rows li lo le i now k prev c rows :
  is_deliverable prev = true →
  Forall2 (rtc row_step) rows (fst (claim_lease li lo le i now k prev c rows)).
Proof.
  intros Hd. apply update_where_rows. intros d Hp. row_tests.
  apply row_claimed; simpl; auto using set_row_identity, leased_columns. congruence.
Qed.

Lemma release_lease_rows_steps n l rows :
  Forall2 (rtc row_step) rows (fst (release_lease_rows n l rows)).
Proof.
  apply update_where_rows. intros d Hp. row_tests.
  apply row_settled; simpl; auto using set_row_identity, released_columns.
Qed.

Lemma reclaim_one_lease_rows now k rows :
  Forall2 (rtc row_step) rows (fst (reclaim_one_lease now k rows)).
Proof.
  apply update_where_rows. intros d Hp. row_tests.
  apply row_settled; simpl; auto using set_row_identity, released_columns.
Qed.

Lemma record_unsettled_rows_steps n r l rows :
  Forall2 (rtc row_step) rows (fst (record_unsettled_rows n r l rows)).
Proof.
  apply update_where_rows. intros d Hp. row_tests.
  apply row_settled; simpl; auto using set_row_identity, released_columns.
Qed.

Lemma insert_receipt_row_spec s r s1 :
  insert_receipt_row s r = Some s1 →
  s1 = with_receipts s (receipts s ++ [stored_receipt r]) ∧
  Forall (λ x, receipt_conflicts r x = false) (receipts s).
Proof.
  unfold insert_receipt_row. destruct (existsb _ _) eqn:E; [done|]. intros [= <-]. split; [done|].
  apply Forall_forall. intros x Hx. destruct (receipt_conflicts r x) eqn:Ex; [|done].
  exfalso. apply not_true_iff_false in E. apply E, existsb_exists. exists x.
  by rewrite <- list_elem_of_In.
Qed.

(** A statement that touches no delivery row and appends to audit tables. *)
Ltac grow_tables :=
  apply evolves_same_recovery; simpl; first [reflexivity|done|apply rows_refl|by apply prefix_app_r].

Lemma insert_receipt_row_evolves s r s1 : insert_receipt_row s r = Some s1 → evolves s s1.
Proof.
  intros [-> Hc]%insert_receipt_row_spec.
  apply evolves_same_recovery; simpl; try done; [by apply prefix_app_r|].
  intros Hnd. unfold slots. rewrite fmap_app. apply NoDup_app. split; [done|].
  split; [|apply NoDup_singleton]. intros x (r' & -> & Hr')%list_elem_of_fmap Heq.
  apply list_elem_of_singleton in Heq. rewrite Forall_forall in Hc. specialize (Hc r' Hr').
  unfold receipt_conflicts in Hc. injection Heq as E1 E2. simpl in E1, E2. rewrite E1, E2 in Hc.
  unfold str_eqb in Hc. by rewrite bool_decide_eq_true_2, Z.eqb_refl in Hc.
Qed.

(** *** The watermark *)
Lemma acknowledged_at_spec s o : is_Some (acknowledged_at s o) → acknowledged s o.
Proof.
  unfold acknowledged_at, sql_max. intros Ha.
  destruct (List.filter _ (receipts s)) as [|r l] eqn:E; [by destruct (is_Some_None Ha)|].
  assert (r ∈ r :: l) as Hr by left. rewrite <- E in Hr.
  apply list_elem_of_In, filter_In in Hr as [Hr Hp]. row_tests. exists r.
  split_and!; [by apply list_elem_of_In|done|done].
Qed.

Lemma contiguous_spec s rows last seq o t :
  contiguous s rows last = Some (seq, o, t) →
  last = Some (seq, o, t) ∨
  ∃ pre j post, rows = pre ++ j :: post ∧ j_source_sequence j = seq ∧
    Forall (λ x, acknowledged s (j_observation_id x)) (pre ++ [j]).
Proof.
  revert last. induction rows as [|j rows IH]; intros last; simpl; [by left|].
  destruct (acknowledged_at s _) as [instant|] eqn:E; [|by left].
  assert (acknowledged s (j_observation_id j)) as Hj by (apply acknowledged_at_spec; by rewrite E).
  intros [[= <- <- <-]|(pre & j' & post & -> & Hseq & Hall)]%IH; right.
  - exists [], j, rows. split; [done|]. split; [done|]. by constructor.
  - exists (j :: pre), j', post. split; [done|]. split; [done|]. by constructor.
Qed.

Lemma current_watermark_spec s key :
  NoDup (v_key <$> recovery s) →
  ∀ v, v ∈ recovery s → v_key v = key → current_watermark s key = acknowledged_sequence v.
Proof.
  unfold current_watermark. induction (recovery s) as [|x l IH]; simpl; [by intros _ v ?%elem_of_nil|].
  intros [Hx Hl]%NoDup_cons v Hv Hk. case_bool_decide as E; simpl.
  - apply elem_of_cons in Hv as [->|Hv]; [done|]. exfalso. apply Hx. rewrite E, <- Hk.
    by apply (list_elem_of_fmap_2 v_key).
  - apply elem_of_cons in Hv as [->|Hv]; [done|]. by apply IH.
Qed.
Lemma ordered_submseteq {A} (key : A → Z) tiebreak n (l : list A) : ordered key tiebreak n l ⊆+ l.
Proof. unfold ordered. etrans; [apply submseteq_take|]. by rewrite sort_by_perm. Qed.

(** The order of an [ORDER BY] page. *)
Definition page_cmp {A} (key : A → Z) (tiebreak : A → rstr) (a b : A) : comparison :=
  then_with (key a ?= key b) (str_compare (tiebreak a) (tiebreak b)).

Lemma page_cmp_preordered {A} (key : A → Z) tiebreak : Preordered (page_cmp key tiebreak).
Proof.
  pose proof (compare_on_preordered Z.compare key) as H1.
  pose proof (compare_on_preordered str_compare tiebreak) as H2.
  exact (then_with_preordered _ _ (Preordered0:=H1) (Preordered1:=H2)).
Qed.

(** An element of the list that is not in a prefix of the page comes no
    earlier than the last element of that prefix. *)
Lemma ordered_prefix {A} (key : A → Z) tiebreak n (l : list A) pre x post y :
  ordered key tiebreak n l = pre ++ x :: post → y ∈ l → y ∈ pre ++ [x] ∨ key x <= key y.
Proof.
  unfold ordered. set (leb := cmp_leb _). intros Hp Hy.
  pose proof (sort_by_perm leb l) as Hperm.
  pose proof (page_cmp_preordered key tiebreak) as Hpre.
  assert (StronglySorted (leb_rel leb) (sort_by leb l)) as Hs
    by (apply sort_by_sorted; [apply (cmp_leb_total (page_cmp key tiebreak))|apply (cmp_leb_trans (page_cmp key tiebreak))]).
  rewrite <- (take_drop (Z.to_nat n) (sort_by leb l)), Hp in Hs, Hperm.
  rewrite <- Hperm in Hy. rewrite <- app_assoc in Hs, Hy. simpl in Hs, Hy.
  apply elem_of_app in Hy as [Hy|[->|Hy]%elem_of_cons]; [left; set_solver|left; set_solver|right].
  clear -Hs Hy. induction pre as [|z pre IH]; simpl in Hs; [|inversion_clear Hs; auto].
  inversion_clear Hs as [|? ? _ Hf]. rewrite Forall_forall in Hf. specialize (Hf y Hy).
  unfold leb_rel, leb, cmp_leb, then_with in Hf. destruct (key x ?= key y) eqn:E; [|..|done].
  - rewrite Z.compare_eq_iff in E. lia.
  - rewrite Z.compare_lt_iff in E. lia.
Qed.

(** Every row of the stream between the old and the new watermark is
    acknowledged. *)
Lemma suffix_acknowledged s key seq o t j :
  streams_ok s →
  contiguous s (acknowledged_suffix s key (current_watermark s key)) None = Some (seq, o, t) →
  j ∈ journal s → stream_of j = key → default (-1) (current_watermark s key) < j_source_sequence j <= seq →
  acknowledged s (j_observation_id j).
Proof.
  intros [Hseq _ _] Hc Hj Hk Hb.
  apply contiguous_spec in Hc as [[=]|(pre & x & post & Hpage & Hx & Hall)].
  unfold acknowledged_suffix in Hpage. set (F := List.filter _ (journal s)) in Hpage.
  assert (∀ y, y ∈ F ↔ y ∈ journal s ∧ stream_of y = key ∧ default (-1) (current_watermark s key) < j_source_sequence y) as HF.
  { intros y. unfold F. rewrite list_elem_of_In, filter_In, <- list_elem_of_In, andb_true_iff,
      bool_decide_eq_true, Z.gtb_ltb, Z.ltb_lt. done. }
  assert (x ∈ F) as HxF.
  { eapply elem_of_submseteq; [|apply (ordered_submseteq j_source_sequence (λ _, []) ACKNOWLEDGED_GAP_SCAN_ROWS)].
    rewrite Hpage. set_solver. }
  rewrite Forall_forall in Hall.
  destruct (ordered_prefix _ _ _ _ _ _ _ j Hpage) as [Hin|Hge]; [apply HF; by split_and!; [| |lia]|by apply Hall|].
  assert (x = j) as ->; [|apply Hall; set_solver].
  apply HF in HxF as (Hxj & Hxk & _).
  apply list_elem_of_lookup in Hxj as (i & Hi). apply list_elem_of_lookup in Hj as (i' & Hi').
  assert (i = i') as ->; [|congruence].
  eapply (NoDup_lookup _ _ _ (stream_of x, j_source_sequence x) Hseq); rewrite list_lookup_fmap.
  - by rewrite Hi.
  - rewrite Hi'. simpl. assert (j_source_sequence j = j_source_sequence x) as -> by lia. congruence.
Qed.

Lemma upsert_recovery_origin rows key seq o t v' :
  v' ∈ upsert_recovery rows key seq o t →
  v' ∈ rows ∨ (v_key v' = key ∧ acknowledged_sequence v' = Some seq).
Proof.
  unfold upsert_recovery. destruct (existsb _ rows).
  - intros (v & -> & Hv)%list_elem_of_fmap. destruct (_ && _) eqn:E; [|by left].
    right. simpl. bools. done.
  - intros [?| ->%list_elem_of_singleton]%elem_of_app; [by left|by right].
Qed.

Lemma upsert_recovery_keys rows key seq o t :
  NoDup (v_key <$> rows) → NoDup (v_key <$> upsert_recovery rows key seq o t).
Proof.
  intros Hnd. unfold upsert_recovery. destruct (existsb _ rows) eqn:E.
  - rewrite <- list_fmap_compose. erewrite list_fmap_ext; [exact Hnd|].
    intros i v _. simpl. by destruct (_ && _).
  - rewrite fmap_app. apply NoDup_app. split; [done|]. split; [|apply NoDup_singleton].
    intros k (v & -> & Hv)%list_elem_of_fmap Hk%list_elem_of_singleton. simpl in Hk.
    apply not_true_iff_false in E. apply E, existsb_exists. exists v.
    split; [by apply list_elem_of_In|by apply bool_decide_eq_true_2].
Qed.

Lemma upsert_recovery_rise rows key seq o t v :
  v ∈ rows → ∃ v', v' ∈ upsert_recovery rows key seq o t ∧ v_key v' = v_key v ∧
    default (-1) (acknowledged_sequence v) <= default (-1) (acknowledged_sequence v').
Proof.
  intros Hv. unfold upsert_recovery. destruct (existsb _ rows).
  - eexists. split; [by apply (list_elem_of_fmap_2 (λ v, if _ && _ then _ else v)), Hv|].
    simpl. destruct (_ && _) eqn:E; [|by split; [|lia]]. bools. rewrite Z.gtb_ltb in *. simpl. split; [done|lia].
  - exists v. rewrite elem_of_app. split; [by left|]. split; [done|lia].
Qed.

Lemma watermark_evolves s k : evolves s (advance_acknowledged_watermark s k).
Proof.
  unfold advance_acknowledged_watermark.
  destruct (contiguous _ _ _) as [[[seq o] t]|] eqn:Hc; [|done].
  split; simpl; try done.
  - intros [S1 S2 S3]. split; simpl; try done. by apply upsert_recovery_keys.
  - intros Hst Hs v w j Hv Hw Hj Hk Hle. simpl in *.
    destruct (upsert_recovery_origin _ _ _ _ _ _ Hv) as [Hold|[Hvk Hvs]];
      [by apply (Hs v w j)|].
    assert (w = seq) as -> by congruence.
    destruct (Z.le_gt_cases (j_source_sequence j) (default (-1) (current_watermark s k))) as [Hlow|Hhigh].
    2:{ apply (suffix_acknowledged s k seq o t j); [done|done|done|by rewrite Hk|lia]. }
    pose proof (so_nonneg _ Hst) as Hnn. rewrite Forall_forall in Hnn. specialize (Hnn j Hj).
    unfold current_watermark in Hlow.
    destruct (head _) as [v0|] eqn:Eh; [|simpl in Hlow; lia].
    apply head_Some_elem_of, list_elem_of_In, filter_In in Eh as [Hv0 Ev0].
    apply list_elem_of_In in Hv0. bools.
    destruct (acknowledged_sequence v0) as [w0|] eqn:E0; simpl in Hlow; [|lia].
    apply (Hs v0 w0 j); congruence || done.
  - intros v Hv. by apply upsert_recovery_rise.
  - intros v' w Hv Hw. destruct (upsert_recovery_origin _ _ _ _ _ _ Hv) as [Hold|[Hvk Hvs]];
      [left; by exists v'|right]. assert (w = seq) as -> by congruence.
    apply contiguous_spec in Hc as [?|(pre & j & post & Hpage & Hseq & _)]; [done|]. exists j.
    assert (j ∈ acknowledged_suffix s k (current_watermark s k)) as Hj by (rewrite Hpage; set_solver).
    eapply elem_of_submseteq in Hj; [|apply ordered_submseteq].
    apply list_elem_of_In, filter_In in Hj as [Hj Ht]. bools.
    split_and!; [by apply list_elem_of_In|congruence|done].
Qed.

Lemma advance_watermark_for_evolves s j r : evolves s (advance_watermark_for s j r).
Proof. unfold advance_watermark_for. destruct (implied_state _); auto using watermark_evolves; done. Qed.

(** ** The operations *)
Section operations.
Context `{Sha256} (policy : RetentionPolicyV1).

Lemma settle_delivery_evolves s r : evolves s (fst (settle_delivery policy s r)).
Proof.
  unfold settle_delivery.
  set (st := if _ && _ then Exhausted else _). set (n := if _ || _ then _ else _).
  assert (can_transition_to Leased st = true) as Hst.
  { unfold st. destruct (_ && _); [done|]. by destruct (outcome r). }
  pose proof (advance_delivery_rows st n r (deliveries s) Hst) as Hr.
  destruct (advance_delivery _ _ _ _) as [rows changed]. by apply evolves_rows.
Qed.

Lemma record_attempt_evolves s r out s' :
  record_attempt policy s r = Ok (out, s') → evolves s s'.
Proof.
  unfold record_attempt. intros Hr.
  destruct (delivery_receipt_validate r); [|done]. destruct (read_journal_row s _) as [j|]; [|done].
  destruct (receipt_matches_journal j r); [|done]. destruct (receipt_columns_fit r); [|done].
  destruct (insert_receipt_row s r) as [s1|] eqn:E.
  - pose proof (settle_delivery_evolves (advance_watermark_for s1 j r) r) as Hs.
    destruct (settle_delivery _ _ _) as [s3 settled]. simpl in Hs.
    assert (evolves s s3) as He.
    { etrans; [by eapply insert_receipt_row_evolves|]. etrans; [|exact Hs].
      apply advance_watermark_for_evolves. }
    destruct (negb _); injection Hr as _ <-; done.
  - destruct (read_receipt s _ _) as [standing|]; [|done].
    pose proof (settle_delivery_evolves s standing) as Hs.
    destruct (settle_delivery policy s standing) as [s1 settled]. simpl in Hs.
    destruct (if advanced settled then _ else _); [|done]. injection Hr as _ <-.
    etrans; [exact Hs|]. apply advance_watermark_for_evolves.
Qed.

Lemma record_unsettled_in_transaction_evolves s r l n out s' :
  record_unsettled_attempt_in_transaction s r l n = Ok (out, s') → evolves s s'.
Proof.
  unfold record_unsettled_attempt_in_transaction. intros Hr.
  destruct (read_journal_row s _) as [j|]; [|done]. destruct (receipt_matches_journal j r); [|done].
  destruct (negb _); [done|]. pose proof (record_unsettled_rows_steps n r l (deliveries s)) as Hs.
  destruct (record_unsettled_rows _ _ _ _) as [rows changed]. simpl in Hs.
  apply evolves_rows in Hs. destruct (negb _); [injection Hr as _ <-; done|].
  destruct (receipt_columns_fit r); [|done].
  destruct (insert_receipt_row _ _) as [s1|] eqn:E; [|done]. injection Hr as _ <-.
  etrans; [exact Hs|]. by eapply insert_receipt_row_evolves.
Qed.

Lemma insert_refusal_evolves s f out s' :
  insert_attempt_refusal s f = Ok (out, s') → evolves s s'.
Proof.
  unfold insert_attempt_refusal. intros Hr. destruct (validate_attempt_refusal_binding s f); [|done].
  destruct (existsb _ _); injection Hr as _ <-; [done|].
  grow_tables.
Qed.

Lemma record_refused_evolves s f r l n out out' s' :
  record_refused_terminal_attempt s f r l n = Ok (out, out', s') → evolves s s'.
Proof.
  unfold record_refused_terminal_attempt. intros Hr.
  repeat match type of Hr with
  | (match ?e with Ok _ => _ | Err _ => _ end) = _ =>
    lazymatch e with
    | record_unsettled_attempt_in_transaction _ _ _ _ => fail
    | _ => destruct e; [|done]
    end
  | (if ?b then _ else _) = _ => destruct b; [done|]
  end.
  destruct (record_unsettled_attempt_in_transaction s r l n) as [[attempt s1]|] eqn:E; [|done].
  apply record_unsettled_in_transaction_evolves in E.
  destruct attempt; [| |injection Hr as _ _ <-; done];
    (destruct (insert_attempt_refusal s1 f) as [[o s2]|] eqn:Ef; [|done]);
    simpl in Hr; injection Hr as _ _ <-; apply insert_refusal_evolves in Ef; by etrans.
Qed.

(** *** Selections *)
Definition keys (rows : list DeliveryRow) : list rstr := d_idempotency_key <$> rows.

Lemma joined_elem s d j :
  (d, j) ∈ joined s ↔ d ∈ deliveries s ∧ j ∈ journal s ∧ j_idempotency_key j = d_idempotency_key d.
Proof.
  unfold joined. rewrite list_elem_of_bind. split.
  - intros (d' & (j' & [= <- <-] & Hj)%list_elem_of_fmap & Hd).
    apply list_elem_of_In, filter_In in Hj as [Hj Hk]. apply list_elem_of_In in Hj.
    row_tests. done.
  - intros (Hd & Hj & Hk). exists d. split; [|done]. apply list_elem_of_fmap. exists j. split; [done|].
    apply list_elem_of_In, filter_In. split; [by apply list_elem_of_In|]. by apply bool_decide_eq_true_2.
Qed.

Lemma same_key_unique {A} (f : A → rstr) (k : rstr) (l : list A) :
  NoDup (f <$> l) → (length (List.filter (λ x, str_eqb (f x) k) l) ≤ 1)%nat.
Proof.
  induction l as [|x l IH]; simpl; [lia|]. intros [Hx Hl]%NoDup_cons.
  unfold str_eqb at 1. case_bool_decide as E; [|auto]. simpl.
  assert (List.filter (λ y, str_eqb (f y) k) l = []) as ->; [|done].
  apply elem_of_nil_inv. intros y [Hy Ey]%list_elem_of_In%filter_In. row_tests.
  apply Hx, list_elem_of_fmap. exists y. split; [congruence|by apply list_elem_of_In].
Qed.

Lemma joined_keys_NoDup s :
  NoDup (keys (deliveries s)) → NoDup (j_idempotency_key <$> journal s) →
  NoDup ((λ dj, d_idempotency_key (fst dj)) <$> joined s).
Proof.
  intros Hd Hj. eapply sublist_NoDup; [exact Hd|]. unfold joined, keys. clear Hd.
  induction (deliveries s) as [|d rows IH]; simpl; [constructor|].
  rewrite fmap_app, <- list_fmap_compose. simpl.
  pose proof (same_key_unique j_idempotency_key (d_idempotency_key d) (journal s) Hj) as Hl.
  destruct (List.filter _ (journal s)) as [|j [|j' js]]; simpl in *; [|by constructor|lia].
  by apply sublist_cons.
Qed.

(** What the schema and the appends guarantee of a store. *)
Record store_ok (s : Store) : Prop := {
  ok_keys : NoDup (keys (deliveries s));
  ok_observations : NoDup (d_observation_id <$> deliveries s);
  ok_journal_keys : NoDup (j_idempotency_key <$> journal s);
  ok_linked : ∀ d j, d ∈ deliveries s → j ∈ journal s →
    j_idempotency_key j = d_idempotency_key d → j_observation_id j = d_observation_id d;
  ok_leases : Forall lease_columns_ok (deliveries s);
  ok_receipts : NoDup (slots (receipts s));
}.

Lemma rows_after_fmap {B} (f : DeliveryRow → B) rows rows' :
  (∀ d d', same_identity d d' → f d' = f d) →
  Forall2 (rtc row_step) rows rows' → f <$> rows' = f <$> rows.
Proof.
  intros Hf. induction 1 as [|d d' rows rows' Hs _ IH]; [done|].
  rewrite !fmap_cons, IH. f_equal. by apply Hf, row_steps_after.
Qed.

Lemma rows_forward s s' d :
  evolves s s' → d ∈ deliveries s → ∃ d', d' ∈ deliveries s' ∧ row_after d d'.
Proof.
  intros He (i & Hi)%list_elem_of_lookup.
  destruct (Forall2_lookup_l _ _ _ _ _ (ev_rows _ _ He) Hi) as (d' & Hd' & Hs).
  exists d'. split; [by eapply list_elem_of_lookup_2|by apply row_steps_after].
Qed.

Lemma rows_backward s s' d' :
  evolves s s' → d' ∈ deliveries s' → ∃ d, d ∈ deliveries s ∧ row_after d d'.
Proof.
  intros He (i & Hi)%list_elem_of_lookup.
  destruct (Forall2_lookup_r _ _ _ _ _ (ev_rows _ _ He) Hi) as (d & Hd & Hs).
  exists d. split; [by eapply list_elem_of_lookup_2|by apply row_steps_after].
Qed.

Lemma store_ok_evolves s s' : store_ok s → evolves s s' → store_ok s'.
Proof.
  intros [K O JK L Le R] He. pose proof (rows_backward s s' ) as Hback.
  specialize (λ d', Hback d' He). destruct He as [EJ ER ERc _ _ EU _].
  split.
  - unfold keys. by rewrite (rows_after_fmap _ (deliveries s)) by (try done; by intros ? ? (-> & _)).
  - by rewrite (rows_after_fmap _ (deliveries s)) by (try done; by intros ? ? (_ & -> & _)).
  - by rewrite EJ.
  - rewrite EJ. intros d' j Hd' Hj Hk. destruct (Hback d' Hd') as (d & Hd & (Hi & _)).
    destruct Hi as (Hi1 & Hi2 & _). rewrite Hi2. apply L; congruence.
  - apply Forall_forall. intros d' Hd'. destruct (Hback d' Hd') as (d & Hd & (_ & _ & _ & _ & Hl)).
    apply Hl. rewrite Forall_forall in Le. auto.
  - auto.
Qed.

(** *** Terminations *)
Lemma keys_inj rows d d' :
  NoDup (keys rows) → d ∈ rows → d' ∈ rows → d_idempotency_key d' = d_idempotency_key d → d' = d.
Proof. intros. by apply (NoDup_fmap_inj d_idempotency_key rows). Qed.

(** One termination: the selected row ends, the others are untouched. *)
Lemma expire_delivery_spec s d next o reason now s' :
  expire_delivery s (d_observation_id d) (d_idempotency_key d) (d_attempt_number d) (d_state d)
    next o reason now = Ok s' →
  NoDup (keys (deliveries s)) → d ∈ deliveries s → is_terminal (d_state d) = false →
  d_attempt_number d <= u32_max → ends next →
  evolves s s' ∧
  ∀ x', x' ∈ deliveries s' →
    (d_idempotency_key x' = d_idempotency_key d ∧ d_state x' = next) ∨
    (d_idempotency_key x' ≠ d_idempotency_key d ∧ x' ∈ deliveries s).
Proof.
  unfold expire_delivery. intros He Hnd Hd Hdel Ha Hn.
  destruct (negb _); [done|]. destruct (read_journal_row s _) as [j|]; [|done].
  destruct (read_u32 _ _) as [highest|]; [|done].
  set (attempt := sat_add u32_max _ 1) in He.
  destruct (insert_receipt_row s _) as [s1|] eqn:Ei; [|done].
  pose proof (insert_receipt_row_evolves _ _ _ Ei) as H1.
  apply insert_receipt_row_spec in Ei as [-> _]. simpl in He.
  destruct (negb _); [done|]. injection He as <-.
  assert (∀ x, x ∈ deliveries s → d_idempotency_key x = d_idempotency_key d → x = d) as Huniq
    by (intros x Hx Hk; by apply (keys_inj (deliveries s))).
  assert (d_attempt_number d <= attempt) as Hat by (unfold attempt, sat_add; lia).
  split.
  - etrans; [exact H1|]. apply evolves_rows. simpl.
    assert (∀ x, x ∈ deliveries s → x ∈ deliveries s) as Hsub by done. revert Hsub.
    generalize (deliveries s) at 1 3 4. intros l. induction l as [|x l IH]; intros Hsub; simpl;
      constructor; [|apply IH; intros; apply Hsub; by right].
    destruct (_ && _) eqn:Ep; [|done]. row_tests. apply rtc_once.
    assert (x = d) as -> by (apply Huniq; [apply Hsub; left|done]).
    apply row_terminated; simpl; auto using set_row_identity.
    apply released_columns. by destruct Hn as [-> | [-> | ->]].
  - intros x' (x & -> & Hx)%list_elem_of_fmap. destruct (decide (d_idempotency_key x = d_idempotency_key d)) as [Ek|Ek].
    + left. rewrite (Huniq x Hx Ek). unfold str_eqb, state_eqb. rewrite !bool_decide_eq_true_2 by done.
      done.
    + right. unfold str_eqb. rewrite bool_decide_eq_false_2 by done. done.
Qed.

Lemma decode_selected_ok rows :
  decode_selected rows = Ok tt → Forall (λ d, d_attempt_number d <= u32_max) rows.
Proof.
  induction rows as [|d rows IH]; simpl; [constructor|]. unfold read_u32 at 1.
  destruct (_ && _) eqn:E; [|done]. intros Hr. bools. constructor; [lia|auto].
Qed.

Lemma terminalize_spec selected s next o reason now s' :
  terminalize_deliveries s selected next o reason now = Ok s' →
  NoDup (keys (deliveries s)) → NoDup (keys selected) →
  Forall (λ d, d ∈ deliveries s ∧ is_terminal (d_state d) = false ∧ d_attempt_number d <= u32_max) selected →
  ends next →
  evolves s s' ∧
  ∀ x', x' ∈ deliveries s' →
    (d_idempotency_key x' ∈ keys selected ∧ d_state x' = next) ∨
    ((d_idempotency_key x' ∉ keys selected) ∧ x' ∈ deliveries s).
Proof.
  revert s. induction selected as [|d selected IH]; intros s Ht Hnd Hns Hall Hn; simpl in Ht.
  { injection Ht as <-. split; [done|]. intros x' Hx'. right. split; [apply not_elem_of_nil|done]. }
  destruct (expire_delivery _ _ _ _ _ _ _ _ _) as [s1|] eqn:E; [|done].
  apply Forall_cons in Hall as [(Hd & Hdel & Ha) Hall]. apply NoDup_cons in Hns as [Hk Hns].
  destruct (expire_delivery_spec _ _ _ _ _ _ _ E Hnd Hd Hdel Ha Hn) as [He Hrows].
  assert (NoDup (keys (deliveries s1))) as Hnd1.
  { unfold keys. rewrite (rows_after_fmap _ (deliveries s)); [done|by intros ? ? (-> & _)|apply He]. }
  destruct (IH s1 Ht Hnd1 Hns) as [He' Hrows']; [|done|].
  { rewrite Forall_forall in Hall |- *. intros x Hx. destruct (Hall x Hx) as (Hxs & Hxd & Hxa).
    split; [|done]. destruct (rows_forward s s1 x He Hxs) as (x1 & Hx1 & ((Hxk & _) & _)).
    assert (d_idempotency_key x ≠ d_idempotency_key d) as Hne.
    { intros Ek. apply Hk. rewrite <- Ek. by apply (list_elem_of_fmap_2 d_idempotency_key). }
    destruct (Hrows x1 Hx1) as [[Ek _]|[_ Hx1s]]; [congruence|].
    by rewrite (keys_inj (deliveries s) x1 x) by (try done; congruence). }
  split; [by etrans|]. intros x' Hx'.
  destruct (Hrows' x' Hx') as [[Hin Hst]|[Hnin Hx1]]; [left; split; [by right|done]|].
  destruct (Hrows x' Hx1) as [[Ek Hst]|[Hne Hxs]].
  - left. split; [rewrite Ek; left|done].
  - right. split; [|done]. unfold keys. rewrite fmap_cons. intros [?|?]%elem_of_cons; done.
Qed.

(** A termination writes receipts of the selected observations and no other
    audit table. *)
Lemma terminalize_tables selected s next o reason now s' :
  terminalize_deliveries s selected next o reason now = Ok s' →
  refusals s' = refusals s ∧ orphans s' = orphans s ∧ recovery s' = recovery s ∧
  ∀ r, r ∈ receipts s' → r ∈ receipts s ∨ r_observation_id r ∈ d_observation_id <$> selected.
Proof.
  revert s. induction selected as [|d selected IH]; intros s Ht; simpl in Ht.
  { injection Ht as <-. split_and!; try done. auto. }
  destruct (expire_delivery _ _ _ _ _ _ _ _ _) as [s1|] eqn:E; [|done].
  destruct (IH s1 Ht) as (I1 & I2 & I3 & I4). clear Ht IH. unfold expire_delivery in E.
  destruct (negb _); [done|]. destruct (read_journal_row s _) as [j|]; [|done].
  destruct (read_u32 _ _) as [highest|]; [|done].
  destruct (insert_receipt_row s _) as [s2|] eqn:Ei; [|done].
  apply insert_receipt_row_spec in Ei as [-> _]. simpl in E.
  destruct (negb _); [done|]. injection E as <-. simpl in *. split_and!; try done.
  intros r [[Hr|Hr]%elem_of_app|Hr]%I4; [by left| |right; by right].
  right. apply list_elem_of_singleton in Hr as ->. left.
Qed.

(** *** Selected rows *)
Lemma addressed_deliverable request registration d :
  addressed request registration d = true → is_deliverable (d_state d) = true.
Proof. unfold addressed. intros Ha. row_tests. done. Qed.

Lemma deliverable_open st : is_deliverable st = true → is_terminal st = false.
Proof. by destruct st. Qed.

Lemma past_deadline_selected s request registration :
  store_ok s → decode_selected (past_deadline s request registration) = Ok tt →
  NoDup (keys (past_deadline s request registration)) ∧
  Forall (λ d, d ∈ deliveries s ∧ is_terminal (d_state d) = false ∧ d_attempt_number d <= u32_max)
    (past_deadline s request registration).
Proof.
  intros Hok Hdec%decode_selected_ok. unfold past_deadline in *.
  set (l := ordered _ _ _ _) in *. assert (l ⊆+ joined s) as Hl
    by (etrans; [apply ordered_submseteq|apply filter_submseteq]). split.
  - unfold keys. rewrite <- list_fmap_compose. eapply submseteq_NoDup; [by apply fmap_submseteq, Hl|].
    by apply joined_keys_NoDup; apply Hok.
  - rewrite Forall_fmap in Hdec |- *. rewrite Forall_forall in Hdec |- *. intros [d j] Hdj. simpl.
    split; [by apply (joined_elem s d j), (elem_of_submseteq _ _ _ Hdj)|].
    split; [|by apply (Hdec (d, j))].
    assert ((d, j) ∈ List.filter (λ dj, addressed request registration (fst dj)
      && (j_deadline_micros (snd dj) <=? q_now_unix_micros request)) (joined s)) as Hf
      by (eapply elem_of_submseteq; [exact Hdj|apply ordered_submseteq]).
    apply list_elem_of_In, filter_In in Hf as [_ Hf]. simpl in Hf. row_tests.
    by eapply deliverable_open, addressed_deliverable.
Qed.

Lemma attempts_exhausted_selected s request registration :
  NoDup (keys (deliveries s)) →
  decode_selected (attempts_exhausted policy s request registration) = Ok tt →
  NoDup (keys (attempts_exhausted policy s request registration)) ∧
  Forall (λ d, d ∈ deliveries s ∧ is_terminal (d_state d) = false ∧ d_attempt_number d <= u32_max)
    (attempts_exhausted policy s request registration).
Proof.
  intros Hnd Hdec%decode_selected_ok. unfold attempts_exhausted in *.
  set (l := ordered _ _ _ _) in *.
  assert (l ⊆+ List.filter (λ d, addressed request registration d
            && (d_attempt_number d >=? max_attempts policy)) (deliveries s)) as Hl
    by apply ordered_submseteq.
  split.
  - unfold keys in *. eapply submseteq_NoDup; [|exact Hnd]. apply fmap_submseteq.
    etrans; [exact Hl|apply filter_submseteq].
  - rewrite Forall_forall in Hdec |- *. intros d Hd. split; [|split; [|by apply Hdec]].
    + eapply elem_of_submseteq; [exact Hd|]. etrans; [exact Hl|apply filter_submseteq].
    + pose proof (elem_of_submseteq _ _ _ Hd Hl) as Hf.
      apply list_elem_of_In, filter_In in Hf as [_ Hf]. row_tests. by eapply deliverable_open, addressed_deliverable.
Qed.

(** *** Candidates and claims *)
Definition weights (cs : list candidate) : Z :=
  foldr (λ c total, leased_queue_bytes (fst (fst c)) + total) 0 cs.

Lemma weights_app cs cs' : weights (cs ++ cs') = weights cs + weights cs'.
Proof. induction cs as [|c cs IH]; simpl; [done|]. unfold weights in *. lia. Qed.

Lemma leased_queue_bytes_nonneg item : 0 <= leased_queue_bytes item.
Proof.
  unfold leased_queue_bytes, sat_add.
  assert (∀ l t, 0 <= t → 0 <= fold_left (λ total (e : bytes), Z.min usize_max (total + zlen e)) l t) as Hf.
  { induction l as [|e l IH]; intros t Ht; simpl; [done|]. apply IH.
    pose proof (zlen_nonneg e). unfold usize_max, u64_max. lia. }
  specialize (Hf (l_extensions item) 0). pose proof (zlen_nonneg (l_payload_bytes item)).
  unfold usize_max, u64_max in *. lia.
Qed.

(** The row a candidate was decoded from. *)
Definition decoded_from (request : LeaseRequestV1) (dj : DeliveryRow * JournalRow) (c : candidate) : Prop :=
  decode_leased (fst dj) (snd dj) (q_provider_instance_id request) (q_lease_owner request)
    (q_now_unix_micros request)
    (i64_sat_add (q_now_unix_micros request) (q_lease_duration_micros request)) = Ok (fst (fst c)) ∧
  snd (fst c) = d_state (fst dj) ∧ snd c = sat_sub (l_attempt_number (fst (fst c))) 1.

Lemma decoded_from_facts request dj item st c :
  decoded_from request dj (item, st, c) →
  l_idempotency_key item = j_idempotency_key (snd dj) ∧
  l_observation_id item = j_observation_id (snd dj) ∧
  c = l_attempt_number item - 1 ∧ 0 <= c ∧ c <= d_attempt_number (fst dj) ∧
  (d_attempt_number (fst dj) < u32_max → c = d_attempt_number (fst dj)).
Proof.
  unfold decoded_from, decode_leased. simpl. intros (Hd & -> & ->).
  destruct (j_payload_bytes (snd dj)); [|done]. unfold read_u32 in Hd.
  destruct (_ && _) eqn:E; [|done]. bools. injection Hd as <-. simpl.
  unfold sat_sub, sat_add, u32_max in *. repeat split; lia.
Qed.

Lemma candidate_loop_spec request rows cs b out :
  candidate_loop request rows cs b = Ok out →
  ∃ added taken, out = cs ++ added ∧ taken `sublist_of` rows ∧ Forall2 (decoded_from request) taken added ∧
    (zlen cs <= q_max_items request → 0 < q_max_items request → zlen out <= q_max_items request) ∧
    (weights cs <= b → 0 <= b → q_max_bytes request < u64_max → b <= q_max_bytes request →
     weights out <= q_max_bytes request ∨ zlen out = 1).
Proof.
  revert cs b. induction rows as [|[d j] rows IH]; intros cs b; simpl.
  { intros [= <-]. exists [], []. rewrite app_nil_r. split; [done|].
    split; [constructor|]. split; [constructor|]. split; [done|]. intros. left. lia. }
  rewrite Z.geb_leb. destruct (Z.leb_spec (q_max_items request) (zlen cs)) as [Hfull|Hroom].
  { intros [= <-]. exists [], []. rewrite app_nil_r. split; [done|].
    split; [apply sublist_nil_l|]. split; [constructor|]. split; [done|]. intros. left. lia. }
  destruct (decode_leased _ _ _ _ _ _) as [item|] eqn:Ed; [|done].
  set (c := (item, d_state d, sat_sub (l_attempt_number item) 1)).
  assert (decoded_from request (d, j) c) as Hc by done.
  pose proof (leased_queue_bytes_nonneg item) as Hw. rewrite !Z.gtb_ltb.
  destruct (is_empty cs && _) eqn:Ee.
  { intros [= <-]. destruct cs; [|done]. exists [c], [(d, j)]. split; [done|].
    split; [by apply sublist_skip, sublist_nil_l|]. split; [by repeat constructor|].
    split; [intros; rewrite zlen_cons; unfold zlen; simpl; lia|by right]. }
  destruct (Z.ltb_spec (q_max_bytes request) (sat_add u64_max b (leased_queue_bytes item))) as [Hbig|Hfit];
    intros Hl; apply IH in Hl as (added & taken & -> & Ht & Hf & Hn & Hb).
  - exists added, taken. split; [done|]. split; [by apply sublist_cons|]. done.
  - exists (c :: added), ((d, j) :: taken). rewrite <- app_assoc in *. split; [done|].
    split; [by apply sublist_skip|]. split; [by constructor|]. split.
    + intros. apply Hn; [|done]. rewrite zlen_app, zlen_cons. unfold zlen at 2. simpl. lia.
    + intros. unfold sat_add in *. apply Hb; try done; rewrite ?weights_app; simpl; lia.
Qed.

(** The row a claim writes. *)
Definition claimed_row (request : LeaseRequestV1) (item : LeasedObservationV1) (d : DeliveryRow) : DeliveryRow :=
  set_row d (Some (q_provider_instance_id request)) Leased (d_attempt_number d + 1)
    (d_next_attempt_at_micros d) (Some (q_lease_owner request)) (Some (l_lease_id item))
    (Some (l_lease_expires_at_unix_micros item)) (d_last_outcome d) (d_last_committed_effect d)
    (d_last_receipt_id d) (q_now_unix_micros request).

(** A claim takes a deliverable row to its claimed form, or changes nothing of
    it; a leased row is never touched. *)
Lemma claim_lease_elem li lo le i now k prev c rows x :
  is_deliverable prev = true →
  (x ∈ rows → d_state x = Leased → x ∈ fst (claim_lease li lo le i now k prev c rows)) ∧
  (x ∈ fst (claim_lease li lo le i now k prev c rows) → is_deliverable (d_state x) = true → x ∈ rows).
Proof.
  intros Hprev. unfold claim_lease, update_where. simpl. split.
  - intros Hx Hl. apply list_elem_of_fmap. exists x. split; [|done]. destruct (_ && _) eqn:E; [|done].
    row_tests. exfalso. rewrite Hl in *. by subst prev.
  - intros (y & -> & Hy)%list_elem_of_fmap. destruct (_ && _) eqn:E; done.
Qed.

Lemma claim_loop_spec request cs s leased s' out :
  claim_loop s request cs leased = (s', out) →
  Forall (λ c, is_deliverable (snd (fst c)) = true) cs →
  evolves s s' ∧
  (∀ x, x ∈ deliveries s → d_state x = Leased → x ∈ deliveries s') ∧
  ∃ added, out = leased ++ added ∧ added `sublist_of` ((λ c, fst (fst c)) <$> cs) ∧
    Forall (λ item, ∃ st c x, (item, st, c) ∈ cs ∧ x ∈ deliveries s ∧
      d_idempotency_key x = l_idempotency_key item ∧ d_state x = st ∧ d_attempt_number x = c ∧
      claimed_row request item x ∈ deliveries s') added.
Proof.
  revert s leased. induction cs as [|[[item st] c] cs IH]; intros s leased; cbn [claim_loop].
  { intros [= <- <-] _. split; [done|]. split; [done|]. exists []. rewrite app_nil_r. by repeat constructor. }
  destruct (claim_lease _ _ _ _ _ _ _ _ _) as [rows changed] eqn:Ec.
  intros Hl [Hst Hcs]%Forall_cons. simpl in Hst.
  assert (rows = fst (claim_lease (l_lease_id item) (q_lease_owner request)
    (l_lease_expires_at_unix_micros item) (q_provider_instance_id request)
    (q_now_unix_micros request) (l_idempotency_key item) st c (deliveries s))) as Hrows by (by rewrite Ec).
  destruct (IH _ _ Hl Hcs) as (He & Hleased & added & Hout & Hsub & Hall).
  assert (∀ x, x ∈ deliveries s → d_state x = Leased → x ∈ rows) as Hkeep
    by (intros; rewrite Hrows; by apply claim_lease_elem).
  split; [etrans; [|exact He]; apply evolves_rows; rewrite Hrows; by apply claim_lease_rows|].
  split; [intros; by apply Hleased; simpl; auto|].
  assert (Forall (λ it, ∃ st' c' x, (it, st', c') ∈ (item, st, c) :: cs ∧ x ∈ deliveries s ∧
    d_idempotency_key x = l_idempotency_key it ∧ d_state x = st' ∧ d_attempt_number x = c' ∧
    claimed_row request it x ∈ deliveries s') added) as Hadded.
  { rewrite Forall_forall in Hall |- *. intros it Hit.
    destruct (Hall it Hit) as (st' & c' & x & Hin & Hx & Hk & Hs & Ha & Hcl).
    exists st', c', x. split; [by right|]. split; [|done]. simpl in Hx.
    rewrite Hrows in Hx. eapply (claim_lease_elem _ _ _ _ _ _ st); [done|exact Hx|].
    rewrite Hs. rewrite Forall_forall in Hcs. exact (Hcs _ Hin). }
  destruct (Z.eqb_spec changed 1) as [->|]; [|].
  2:{ exists added. split; [done|]. split; [by apply sublist_cons|]. done. }
  exists (item :: added). split; [by rewrite Hout, <- app_assoc|]. split; [by apply sublist_skip|].
  constructor; [|done].
  assert (∃ x, x ∈ deliveries s ∧ d_idempotency_key x = l_idempotency_key item ∧ d_state x = st ∧
               d_attempt_number x = c) as (x & Hx & Hk & Hs & Ha).
  { unfold claim_lease, update_where in Ec. injection Ec as _ Ec. unfold zlen in Ec.
    destruct (List.filter _ (deliveries s)) as [|x l] eqn:Ef; [done|].
    assert (x ∈ x :: l) as Hx by left. rewrite <- Ef in Hx.
    apply list_elem_of_In, filter_In in Hx as [Hx Hp]. row_tests. exists x.
    split; [by apply list_elem_of_In|done]. }
  exists st, c, x. split; [left|]. split_and!; try done. apply Hleased; [|done]. simpl. rewrite Hrows.
  unfold claim_lease, update_where. simpl. apply list_elem_of_fmap. exists x. split; [|done].
  unfold str_eqb, state_eqb. rewrite !bool_decide_eq_true_2 by done. rewrite Ha, Z.eqb_refl. simpl.
  unfold claimed_row. by rewrite Ha.
Qed.

(** *** A lease batch *)

(** The row an item was leased from, at the start of the claims: it was
    addressed and due, with its content, and one attempt is consumed. *)
Record lease_granted (request : LeaseRequestV1) (s s' : Store) (item : LeasedObservationV1)
    (d : DeliveryRow) (j : JournalRow) : Prop := {
  lg_row : d ∈ deliveries s;
  lg_journal : j ∈ journal s;
  lg_key : d_idempotency_key d = l_idempotency_key item ∧ j_idempotency_key j = l_idempotency_key item;
  lg_observation : l_observation_id item = j_observation_id j;
  lg_addressed : addressed request (q_registration_revision request) d = true;
  lg_due : d_next_attempt_at_micros d <= q_now_unix_micros request < j_deadline_micros j;
  lg_content : j_payload_bytes j = Some (l_payload_bytes item);
  lg_attempt : l_attempt_number item = d_attempt_number d + 1;
  lg_claimed : claimed_row request item d ∈ deliveries s';
}.

Lemma eligible_row_facts s request registration d j :
  (d, j) ∈ eligible_rows policy s request registration →
  d ∈ deliveries s ∧ j ∈ journal s ∧ j_idempotency_key j = d_idempotency_key d ∧
  addressed request registration d = true ∧
  d_next_attempt_at_micros d <= q_now_unix_micros request < j_deadline_micros j ∧
  is_Some (j_payload_bytes j).
Proof.
  intros Hin. unfold eligible_rows in Hin.
  pose proof (elem_of_submseteq _ _ _ Hin (ordered_submseteq _ _ _ _)) as Hf.
  apply list_elem_of_In, filter_In in Hf as [Hj Hf]. apply list_elem_of_In, joined_elem in Hj.
  simpl in Hf. row_tests. destruct (j_payload_bytes j) as [payload|]; [|done].
  rewrite Z.gtb_ltb in *. split_and!; try apply Hj; try done; lia.
Qed.

Lemma sublist_weights (items : list LeasedObservationV1) (cs : list candidate) :
  items `sublist_of` ((λ c, fst (fst c)) <$> cs) →
  foldr (λ item total, leased_queue_bytes item + total) 0 items <= weights cs ∧ zlen items <= zlen cs.
Proof.
  revert items. induction cs as [|c cs IH]; intros items Hs.
  - apply sublist_nil_r in Hs as ->. done.
  - rewrite fmap_cons in Hs. apply sublist_cons_r in Hs as [Hs|(items' & -> & Hs)];
      apply IH in Hs as [Hw Hn]; rewrite ?zlen_cons; unfold weights in *; cbn [foldr] in *;
      pose proof (leased_queue_bytes_nonneg (fst (fst c))); split; lia.
Qed.

(** The total weight of a batch. *)
Definition batch_bytes (items : list LeasedObservationV1) : Z :=
  foldr (λ item total, leased_queue_bytes item + total) 0 items.

Lemma decoded_keys request taken added :
  Forall2 (decoded_from request) taken added →
  Forall (λ dj, j_idempotency_key (snd dj) = d_idempotency_key (fst dj)) taken →
  (λ c : candidate, l_idempotency_key (fst (fst c))) <$> added = (λ dj, d_idempotency_key (fst dj)) <$> taken.
Proof.
  induction 1 as [|dj [[item st] c] taken added Hd _ IH]; [done|]. intros [Hk Hall]%Forall_cons.
  rewrite !fmap_cons, IH by done. f_equal. apply decoded_from_facts in Hd as (Hl & _). simpl. congruence.
Qed.

Lemma terminate_stale_spec s request registration s1 :
  terminate_stale policy s request registration = Ok s1 → store_ok s →
  evolves s s1 ∧
  (∀ d, d ∈ deliveries s1 → is_deliverable (d_state d) = true → d ∈ deliveries s) ∧
  ∃ s0, evolves s s0 ∧
    (∀ d, d ∈ deliveries s0 → is_deliverable (d_state d) = true → d ∈ deliveries s) ∧
    ∀ d, d ∈ deliveries s1 → is_deliverable (d_state d) = true →
      (d_idempotency_key d ∉ keys (attempts_exhausted policy s0 request registration)) ∧
      d ∈ deliveries s0.
Proof.
  unfold terminate_stale. intros Hl Hok.
  destruct (decode_selected (past_deadline _ _ _)) as [[]|] eqn:D1; [|done].
  destruct (terminalize_deliveries s _ _ _ _ _) as [s0|] eqn:T1; [|done].
  destruct (past_deadline_selected s request registration Hok D1) as [N1 F1].
  destruct (terminalize_spec _ _ _ _ _ _ _ T1 (ok_keys _ Hok) N1 F1) as [E1 R1]; [by left|].
  pose proof (store_ok_evolves _ _ Hok E1) as Hok0.
  destruct (decode_selected (attempts_exhausted _ _ _ _)) as [[]|] eqn:D2; [|done].
  destruct (attempts_exhausted_selected s0 request registration (ok_keys _ Hok0) D2) as [N2 F2].
  destruct (terminalize_spec _ _ _ _ _ _ _ Hl (ok_keys _ Hok0) N2 F2) as [E2 R2]; [by right; left|].
  assert (∀ d, d ∈ deliveries s0 → is_deliverable (d_state d) = true → d ∈ deliveries s) as B1.
  { intros d Hd Hdel. destruct (R1 d Hd) as [[_ Es]|[_ Hd0]]; [by rewrite Es in Hdel|done]. }
  assert (∀ d, d ∈ deliveries s1 → is_deliverable (d_state d) = true →
    (d_idempotency_key d ∉ keys (attempts_exhausted policy s0 request registration)) ∧
    d ∈ deliveries s0) as B2.
  { intros d Hd Hdel. destruct (R2 d Hd) as [[_ Es]|[Hk Hd0]]; [by rewrite Es in Hdel|done]. }
  split; [by etrans|]. split; [intros d Hd Hdel; by apply B1; [apply B2|]|]. by exists s0.
Qed.

(** The candidates come from eligible rows, each row at most once. *)
Lemma candidates_spec s request registration cs :
  candidate_loop request (eligible_rows policy s request registration) [] 0 = Ok cs → store_ok s →
  Forall (λ c, ∃ dj, dj ∈ eligible_rows policy s request registration ∧ decoded_from request dj c) cs ∧
  NoDup ((λ c : candidate, l_idempotency_key (fst (fst c))) <$> cs) ∧
  (0 < q_max_items request → zlen cs <= q_max_items request) ∧
  (0 <= q_max_bytes request < u64_max → weights cs <= q_max_bytes request ∨ zlen cs = 1).
Proof.
  intros Hc Hok. apply candidate_loop_spec in Hc as (added & taken & -> & Ht & Hf & Hn & Hb).
  rewrite app_nil_l in *. set (rows := eligible_rows policy s request registration) in *.
  assert (Forall (λ dj, dj ∈ rows) taken) as Htaken.
  { apply Forall_forall. intros dj Hdj. by eapply elem_of_submseteq, sublist_submseteq. }
  split; [|split].
  - clear -Hf Htaken. induction Hf as [|dj c taken added Hd _ IH]; constructor.
    + apply Forall_cons in Htaken as [? _]. by exists dj.
    + apply Forall_cons in Htaken as [_ ?]. auto.
  - rewrite (decoded_keys request taken added Hf).
    2:{ eapply Forall_impl; [exact Htaken|]. intros [d j] Hdj. by apply eligible_row_facts in Hdj as (_ & _ & ? & _). }
    eapply submseteq_NoDup; [|apply (joined_keys_NoDup s); apply Hok]. apply fmap_submseteq.
    etrans; [by apply sublist_submseteq|]. etrans; [apply ordered_submseteq|apply filter_submseteq].
  - split; [intros; apply Hn; unfold zlen; simpl; lia|]. intros. apply Hb; simpl; lia.
Qed.

Lemma lease_pending_spec s request leased s' :
  lease_pending policy s request = Ok (leased, s') → store_ok s →
  ∃ s1, terminate_stale policy s request (q_registration_revision request) = Ok s1 ∧
  evolves s1 s' ∧ NoDup (l_idempotency_key <$> leased) ∧
  Forall (λ item, ∃ d j, lease_granted request s1 s' item d j) leased ∧
  (0 < q_max_items request → zlen leased <= q_max_items request) ∧
  (0 <= q_max_bytes request < u64_max →
   batch_bytes leased <= q_max_bytes request ∨ zlen leased <= 1).
Proof.
  unfold lease_pending. intros Hl Hok. destruct (lease_request_validate request); [|done].
  unfold sql_i64 in Hl. destruct (_ <=? i64_max); [|done].
  destruct (terminate_stale _ _ _ _) as [s1|] eqn:T; [|done]. exists s1. split; [done|].
  destruct (terminate_stale_spec _ _ _ _ T Hok) as (E1 & _). pose proof (store_ok_evolves _ _ Hok E1) as Hok1.
  destruct (candidate_loop _ _ _ _) as [cs|] eqn:C; [|done].
  destruct (candidates_spec _ _ _ _ C Hok1) as (Hcs & Hnd & Hn & Hb).
  destruct (claim_loop _ _ _ _) as [s2 out] eqn:L. injection Hl as <- <-.
  apply claim_loop_spec in L as (E2 & _ & batch & -> & Hsub & Hall).
  2:{ eapply Forall_impl; [exact Hcs|]. intros c ([d j] & Hdj & (_ & -> & _)).
      apply eligible_row_facts in Hdj as (_ & _ & _ & Ha & _). by eapply addressed_deliverable. }
  rewrite app_nil_l. destruct (sublist_weights _ _ Hsub) as [Hw Hz].
  split; [done|]. split; [|split; [|split]].
  - eapply submseteq_NoDup; [|exact Hnd].
    rewrite (list_fmap_compose (λ c : candidate, fst (fst c)) l_idempotency_key).
    by apply fmap_submseteq, sublist_submseteq.
  - rewrite Forall_forall in Hcs. rewrite Forall_forall in Hall |- *. intros item Hit.
    destruct (Hall item Hit) as (st & c & x & Hin & Hx & Hk & Hs & Ha & Hcl).
    destruct (Hcs _ Hin) as ([d j] & Hdj & Hdec). apply eligible_row_facts in Hdj as Hrow.
    destruct Hrow as (Hd & Hj & Hjk & Had & Hdue & Hpay).
    pose proof (decoded_from_facts _ _ _ _ _ Hdec) as (Fk & Fo & Fc & _).
    assert (x = d) as -> by (apply (keys_inj (deliveries s1)); [apply Hok1|done|done|simpl in Fk; congruence]).
    exists d, j. split; try done; try (simpl in *; split; congruence); [|lia].
    destruct Hdec as (Hdec & _). unfold decode_leased in Hdec. simpl in Hdec.
    destruct (j_payload_bytes j); [|done]. destruct (read_u32 _ _); [|done]. by injection Hdec as <-.
  - intros Hp. specialize (Hn Hp). lia.
  - intros Hp. destruct (Hb Hp); [left; unfold batch_bytes; lia|right; lia].
Qed.

Lemma reap_loop_evolves leases s now reaped n s' :
  reap_loop policy s leases now reaped = Ok (n, s') → evolves s s'.
Proof.
  revert s reaped. induction leases as [|[d j] leases IH]; intros s reaped; cbn [reap_loop].
  { intros [= _ <-]. done. }
  pose proof (reclaim_one_lease_rows now (d_idempotency_key d) (deliveries s)) as Hr.
  destruct (reclaim_one_lease _ _ _) as [rows changed]. apply evolves_rows in Hr.
  destruct (changed =? 0); [intros He%IH; by etrans|].
  destruct (attempt_already_answered _ _); [intros He%IH; by etrans|].
  destruct (d_lease_id d); [|done]. destruct (d_lease_owner d); [|done].
  destruct (d_lease_expires_at_micros d); [|done]. destruct (orphan_validate _); [|done].
  unfold insert_attempt_orphan. destruct (existsb _ _); [done|]. intros He%IH.
  etrans; [exact Hr|]. etrans; [|exact He]. grow_tables.
Qed.

(** The row a reap writes. *)
Definition reclaimed_row (now : Z) (d : DeliveryRow) : DeliveryRow :=
  set_row d (d_last_provider_instance_id d) Pending (d_attempt_number d) (d_next_attempt_at_micros d)
    None None None (d_last_outcome d) (d_last_committed_effect d) (d_last_receipt_id d) now.

(** The lease was answered, or it left an orphan record that says so. *)
Definition accounted (s s' : Store) (now : Z) (dj : DeliveryRow * JournalRow) : Prop :=
  attempt_already_answered s (fst dj) = true ∨
  ∃ lease_id lease_owner expires,
    d_lease_id (fst dj) = Some lease_id ∧ d_lease_owner (fst dj) = Some lease_owner ∧
    d_lease_expires_at_micros (fst dj) = Some expires ∧
    orphan_of policy (fst dj) (snd dj) lease_id lease_owner expires now ∈ orphans s'.

Lemma reclaim_one_lease_spec now d rows :
  NoDup (keys rows) → d ∈ rows → d_state d = Leased →
  snd (reclaim_one_lease now (d_idempotency_key d) rows) ≠ 0 ∧
  reclaimed_row now d ∈ fst (reclaim_one_lease now (d_idempotency_key d) rows) ∧
  ∀ x, x ∈ rows → d_idempotency_key x ≠ d_idempotency_key d →
    x ∈ fst (reclaim_one_lease now (d_idempotency_key d) rows).
Proof.
  intros Hnd Hd Hl. unfold reclaim_one_lease, update_where. cbn [fst snd].
  assert (str_eqb (d_idempotency_key d) (d_idempotency_key d) && state_eqb (d_state d) Leased = true) as Hp
    by (unfold str_eqb, state_eqb; by rewrite !bool_decide_eq_true_2).
  split; [|split].
  - unfold zlen. destruct (List.filter _ rows) as [|x l] eqn:Ef; [|simpl; lia]. exfalso.
    apply (not_elem_of_nil d). rewrite <- Ef. apply list_elem_of_In, filter_In.
    split; [by apply list_elem_of_In|done].
  - apply list_elem_of_fmap. exists d. by rewrite Hp.
  - intros x Hx Hk. apply list_elem_of_fmap. exists x. unfold str_eqb. by rewrite bool_decide_eq_false_2.
Qed.

Lemma reap_loop_accounts leases s now reaped n s' :
  reap_loop policy s leases now reaped = Ok (n, s') → NoDup (keys (deliveries s)) →
  NoDup ((λ dj, d_idempotency_key (fst dj)) <$> leases) →
  Forall (λ dj, fst dj ∈ deliveries s ∧ d_state (fst dj) = Leased) leases → reaped <= u32_max →
  (∀ x, x ∈ deliveries s → (d_idempotency_key x ∉ (λ dj, d_idempotency_key (fst dj)) <$> leases) →
        x ∈ deliveries s') ∧
  Forall (λ dj, reclaimed_row now (fst dj) ∈ deliveries s' ∧ accounted s s' now dj) leases ∧
  n = Z.min u32_max (reaped + zlen leases).
Proof.
  revert s reaped. induction leases as [|[d j] leases IH]; intros s reaped; cbn [reap_loop].
  { intros [= <- <-] _ _ _ Hr. split; [done|]. split; [constructor|]. unfold zlen. simpl. lia. }
  intros Hl Hnd [Hk Hkl]%NoDup_cons [[Hd Hst] Hall]%Forall_cons Hr. cbn [fst] in Hd, Hst, Hk.
  destruct (reclaim_one_lease_spec now d _ Hnd Hd Hst) as (Hc & Hrec & Hoth).
  pose proof (reclaim_one_lease_rows now (d_idempotency_key d) (deliveries s)) as Hrows.
  destruct (reclaim_one_lease _ _ _) as [rows changed]. simpl in Hc, Hrec, Hoth, Hrows.
  destruct (Z.eqb_spec changed 0) as [|_]; [done|].
  assert (∀ s2, deliveries s2 = rows → receipts s2 = receipts s → refusals s2 = refusals s →
    reap_loop policy s2 leases now (sat_add u32_max reaped 1) = Ok (n, s') →
    accounted s s' now (d, j) →
    (∀ x, x ∈ deliveries s → (d_idempotency_key x ∉ (λ dj, d_idempotency_key (fst dj)) <$> (d, j) :: leases) →
      x ∈ deliveries s') ∧
    Forall (λ dj, reclaimed_row now (fst dj) ∈ deliveries s' ∧ accounted s s' now dj) ((d, j) :: leases) ∧
    n = Z.min u32_max (reaped + zlen ((d, j) :: leases))) as Hgo.
  { intros s2 E1 E2 E3 Hgo Hacc. apply IH in Hgo as (G1 & G2 & ->); [|rewrite E1| |rewrite E1|].
    - rewrite E1 in G1. split; [|split].
      + rewrite fmap_cons. intros x Hx [Hne Hni]%not_elem_of_cons. apply G1; [by apply Hoth|done].
      + constructor; [split; [by apply G1|done]|]. eapply Forall_impl; [exact G2|].
        intros dj [? [Ha|Ha]]; split; [done|left|done|by right].
        unfold attempt_already_answered in *. by rewrite <- E2, <- E3.
      + rewrite zlen_cons. pose proof (zlen_nonneg leases). unfold sat_add. lia.
    - unfold keys. by rewrite (rows_after_fmap _ (deliveries s)) by (try done; by intros ? ? (-> & _)).
    - done.
    - rewrite Forall_forall in Hall |- *. intros dj Hdj. destruct (Hall dj Hdj) as [? ?].
      split; [|done]. apply Hoth; [done|]. intros Ek. apply Hk. rewrite <- Ek.
      by apply (list_elem_of_fmap_2 (λ dj, d_idempotency_key (fst dj))).
    - unfold sat_add. lia. }
  destruct (attempt_already_answered _ d) eqn:Ea.
  { apply (Hgo (with_deliveries s rows)); [done|done|done|exact Hl|by left]. }
  destruct (d_lease_id d) as [li|] eqn:E1; [|done]. destruct (d_lease_owner d) as [lo|] eqn:E2; [|done].
  destruct (d_lease_expires_at_micros d) as [le|] eqn:E3; [|done]. destruct (orphan_validate _); [|done].
  unfold insert_attempt_orphan in Hl. destruct (existsb _ _); [done|].
  eapply Hgo; [..|exact Hl|]; try reflexivity. right. exists li, lo, le. split_and!; try done.
  apply reap_loop_evolves in Hl. destruct (ev_orphans _ _ Hl) as [k ->]. simpl. set_solver.
Qed.

Lemma expired_leases_facts s now budget :
  store_ok s →
  NoDup ((λ dj, d_idempotency_key (fst dj)) <$> expired_leases s now budget) ∧
  Forall (λ dj, fst dj ∈ deliveries s ∧ d_state (fst dj) = Leased) (expired_leases s now budget).
Proof.
  intros Hok. unfold expired_leases. split.
  - eapply submseteq_NoDup; [|apply (joined_keys_NoDup s); apply Hok]. apply fmap_submseteq.
    etrans; [apply ordered_submseteq|apply filter_submseteq].
  - apply Forall_forall. intros [d j] Hin.
    pose proof (elem_of_submseteq _ _ _ Hin (ordered_submseteq _ _ _ _)) as Hf.
    apply list_elem_of_In, filter_In in Hf as [Hj Hf]. apply list_elem_of_In, joined_elem in Hj.
    simpl in *. row_tests. split; [apply Hj|done].
Qed.

(** ** Runs *)

(** One committed operation of the journal, with the attempts it handed out. *)
Definition labels (items : list LeasedObservationV1) : list (rstr * Z) :=
  (λ item, (l_observation_id item, l_attempt_number item)) <$> items.

Inductive journal_step (s : Store) : list (rstr * Z) → Store → Prop :=
  | step_lease request leased s' :
      lease_pending policy s request = Ok (leased, s') → journal_step s (labels leased) s'
  | step_record receipt out s' :
      record_attempt policy s receipt = Ok (out, s') → journal_step s [] s'
  | step_unsettled receipt lease retry_after out s' :
      record_unsettled_attempt s receipt lease retry_after = Ok (out, s') → journal_step s [] s'
  | step_refusal refusal out s' :
      record_attempt_refusal s refusal = Ok (out, s') → journal_step s [] s'
  | step_refused refusal receipt lease retry_after out out' s' :
      record_refused_terminal_attempt s refusal receipt lease retry_after = Ok (out, out', s') →
      journal_step s [] s'
  | step_release lease retry_after s' :
      release_lease s lease retry_after = Ok s' → journal_step s [] s'
  | step_reap now budget n s' :
      reap_expired_leases policy s now budget = Ok (n, s') → journal_step s [] s'
  | step_recover key :
      journal_step s [] (advance_acknowledged_watermark s key).

Lemma journal_step_evolves s handed s' : journal_step s handed s' → store_ok s → evolves s s'.
Proof.
  intros Hs Hok. destruct Hs as [q l s' E|r o s' E|r l n o s' E|f o s' E|f r l n o o' s' E|l n s' E|now b n s' E|k].
  - destruct (lease_pending_spec _ _ _ _ E Hok) as (s1 & T & E1 & _).
    destruct (terminate_stale_spec _ _ _ _ T Hok) as (E0 & _). by etrans.
  - by eapply record_attempt_evolves.
  - unfold record_unsettled_attempt in E. destruct (validate_unsettled_attempt_receipt r); [|done].
    by eapply record_unsettled_in_transaction_evolves.
  - unfold record_attempt_refusal in E. destruct (refusal_validate f); [|done].
    destruct (sql_i64 _ _); [|done]. by eapply insert_refusal_evolves.
  - by eapply record_refused_evolves.
  - unfold release_lease in E. pose proof (release_lease_rows_steps n l (deliveries s)) as Hr.
    destruct (release_lease_rows _ _ _) as [rows changed]. destruct (changed =? 0); [done|].
    injection E as <-. by apply evolves_rows.
  - unfold reap_expired_leases in E. destruct (decode_expired _); [|done].
    by eapply reap_loop_evolves.
  - apply watermark_evolves.
Qed.

(** A lease batch hands out distinct attempts, each the next one of its row. *)
Lemma journal_step_handed s handed s' :
  journal_step s handed s' → store_ok s →
  NoDup handed ∧
  ∀ o n, (o, n) ∈ handed → ∃ d d', d ∈ deliveries s ∧ d_observation_id d = o ∧
    d_attempt_number d < n ∧ d' ∈ deliveries s' ∧ d_observation_id d' = o ∧ d_attempt_number d' = n.
Proof.
  intros Hs Hok.
  destruct Hs as [q l s' E| | | | | | |];
    try (split; [constructor|]; intros ? ? Hin; by apply elem_of_nil in Hin).
  destruct (lease_pending_spec _ _ _ _ E Hok) as (s1 & T & E1 & Hnd & Hall & _).
  destruct (terminate_stale_spec _ _ _ _ T Hok) as (E0 & Hback & _).
  pose proof (store_ok_evolves _ _ Hok E0) as Hok1. rewrite Forall_forall in Hall.
  assert (∀ item d j, lease_granted q s1 s' item d j → l_observation_id item = d_observation_id d) as Hobs.
  { intros item d j G. destruct (lg_key _ _ _ _ _ _ G) as [K1 K2].
    rewrite (lg_observation _ _ _ _ _ _ G). apply (ok_linked _ Hok1); [apply G|apply G|congruence]. }
  split.
  - unfold labels. apply NoDup_fmap_2_strong; [|by eapply NoDup_fmap_1].
    intros a b Ha Hb [= Eo _]. apply (NoDup_fmap_inj l_idempotency_key l); [done..|].
    destruct (Hall a Ha) as (da & ja & Ga). destruct (Hall b Hb) as (db & jb & Gb).
    rewrite (Hobs _ _ _ Ga), (Hobs _ _ _ Gb) in Eo.
    destruct (lg_key _ _ _ _ _ _ Ga) as [<- _]. destruct (lg_key _ _ _ _ _ _ Gb) as [<- _]. f_equal.
    apply (NoDup_fmap_inj d_observation_id (deliveries s1)); [apply Hok1|apply Ga|apply Gb|done].
  - intros o n (item & [= -> ->] & Hit)%list_elem_of_fmap.
    destruct (Hall item Hit) as (d & j & G). exists d, (claimed_row q item d).
    rewrite (Hobs _ _ _ G), (lg_attempt _ _ _ _ _ _ G).
    split; [apply Hback; [apply G|exact (addressed_deliverable _ _ _ (lg_addressed _ _ _ _ _ _ G))]|].
    split; [done|]. split; [lia|]. split; [apply G|]. done.
Qed.

(** *** Settlement *)

(** The row is leased at the attempt the receipt answers. *)
Definition awaits (r : ObservationDeliveryReceiptV1) (d : DeliveryRow) : Prop :=
  d_observation_id d = r_observation_id r ∧ d_state d = Leased ∧ d_attempt_number d = r_attempt_number r.

#[export] Instance awaits_dec r d : Decision (awaits r d).
Proof. unfold awaits. apply _. Defined.

(** The row after the settlement: the lease is gone, the receipt is recorded,
    and the state is the one the outcome implies, except that a retryable
    outcome ends the delivery when no attempts are left. *)
Record settles (r : ObservationDeliveryReceiptV1) (d d' : DeliveryRow) : Prop := {
  st_identity : same_identity d d';
  st_attempt : d_attempt_number d' = d_attempt_number d;
  st_lease : d_lease_id d' = None ∧ d_lease_owner d' = None ∧ d_lease_expires_at_micros d' = None;
  st_receipt : d_last_receipt_id d' = Some (receipt_id r) ∧ d_last_outcome d' = Some (outcome r) ∧
    d_last_committed_effect d' = Some (committed_effect r);
  st_final : is_retryable (outcome r) = false →
    d_state d' = implied_state (outcome r) ∧ d_next_attempt_at_micros d' = finished_at_unix_micros r;
  st_exhausted : is_retryable (outcome r) = true → max_attempts policy <= r_attempt_number r →
    d_state d' = Exhausted;
  st_retry : is_retryable (outcome r) = true → r_attempt_number r < max_attempts policy →
    d_state d' = implied_state (outcome r) ∧
    d_next_attempt_at_micros d' =
      i64_sat_add (finished_at_unix_micros r) (next_attempt_delay policy (r_attempt_number r));
}.

Lemma awaits_test r d :
  str_eqb (d_observation_id d) (r_observation_id r) && state_eqb (d_state d) Leased
    && (d_attempt_number d =? r_attempt_number r) = bool_decide (awaits r d).
Proof.
  unfold awaits. case_bool_decide as E.
  - destruct E as (E1 & E2 & E3). unfold str_eqb, state_eqb.
    rewrite !bool_decide_eq_true_2, E3, Z.eqb_refl by done. done.
  - apply not_true_iff_false. intros Ht. row_tests. by apply E.
Qed.

(** The settlement rewrites the awaiting rows; it reports progress exactly
    when there is one. *)
Lemma settle_delivery_rows s r s' settled :
  settle_delivery policy s r = (s', settled) → NoDup (d_observation_id <$> deliveries s) →
  receipts s' = receipts s ∧
  Forall2 (λ d d', if decide (awaits r d) then settles r d d' else d' = d) (deliveries s) (deliveries s') ∧
  (advanced settled = true ↔ ∃ d, d ∈ deliveries s ∧ awaits r d).
Proof.
  unfold settle_delivery, advance_delivery, update_where. intros [= <- <-] Hnd. cbn [deliveries receipts with_deliveries advanced]. split; [done|]. split.
  - apply Forall2_fmap_r, Forall_Forall2_diag, Forall_forall. intros d _. unfold compose. rewrite awaits_test.
    destruct (decide (awaits r d)) as [Hw|Hw]; [|by rewrite bool_decide_eq_false_2].
    rewrite bool_decide_eq_true_2 by done. split; simpl; try done.
    + intros ->. simpl. done.
    + intros -> Hm. rewrite Z.geb_leb. destruct (Z.leb_spec (max_attempts policy) (r_attempt_number r)); [done|lia].
    + intros -> Hm. rewrite Z.geb_leb. destruct (Z.leb_spec (max_attempts policy) (r_attempt_number r)); [lia|done].
  - rewrite Z.eqb_eq. unfold zlen. set (l := List.filter _ (deliveries s)).
    assert (∀ d, d ∈ l ↔ d ∈ deliveries s ∧ awaits r d) as Hl.
    { intros d. unfold l. rewrite list_elem_of_In, filter_In, <- list_elem_of_In, awaits_test,
        bool_decide_eq_true. done. }
    assert (NoDup l) as Hn by (eapply submseteq_NoDup; [apply filter_submseteq|by eapply NoDup_fmap_1]).
    destruct l as [|d [|d' l]]; simpl; split; try done; try lia.
    + intros (d & Hd). by apply Hl, elem_of_nil in Hd.
    + intros _. exists d. apply Hl. by left.
    + exfalso. apply NoDup_cons in Hn as [Hn _]. apply Hn.
      destruct (proj1 (Hl d)) as [H1 (W1 & _)]; [left|].
      destruct (proj1 (Hl d')) as [H2 (W2 & _)]; [right; left|].
      rewrite (NoDup_fmap_inj d_observation_id (deliveries s) d d'); [left|done..|congruence].
Qed.

Lemma advance_watermark_for_tables s j r :
  deliveries (advance_watermark_for s j r) = deliveries s ∧
  receipts (advance_watermark_for s j r) = receipts s.
Proof.
  unfold advance_watermark_for, advance_acknowledged_watermark.
  destruct (implied_state _); try done; by destruct (contiguous _ _ _) as [[[? ?] ?]|].
Qed.

Lemma read_receipt_spec s o n r :
  read_receipt s o n = Ok r → r ∈ receipts s ∧ r_observation_id r = o ∧ r_attempt_number r = n.
Proof.
  unfold read_receipt. destruct (head _) as [r'|] eqn:E; [|done].
  destruct (delivery_receipt_validate r'); [|done]. intros [= <-].
  apply head_Some_elem_of, list_elem_of_In, filter_In in E as [Hr Hp]. row_tests.
  split; [by apply list_elem_of_In|done].
Qed.

(** *** Exhausted deliveries *)
Lemma ordered_whole {A} (key : A → Z) tiebreak n (l : list A) x :
  zlen l <= n → x ∈ l → x ∈ ordered key tiebreak n l.
Proof.
  unfold ordered. intros Hn Hx. rewrite take_ge; [by rewrite sort_by_perm|].
  rewrite sort_by_perm. unfold zlen in Hn. lia.
Qed.

(** The deliverable rows of the registration without attempts left. *)
Definition spent_rows (s : Store) (request : LeaseRequestV1) : list DeliveryRow :=
  List.filter (λ d, addressed request (q_registration_revision request) d
                    && (d_attempt_number d >=? max_attempts policy)) (deliveries s).

(** When they fit one page, every one of them is terminated before the claims. *)
Lemma terminate_stale_bounded s request s1 :
  terminate_stale policy s request (q_registration_revision request) = Ok s1 → store_ok s →
  zlen (spent_rows s request) <= q_max_items request →
  ∀ d, d ∈ deliveries s1 → addressed request (q_registration_revision request) d = true →
    d_attempt_number d < max_attempts policy.
Proof.
  intros T Hok Hfit d Hd Ha. destruct (terminate_stale_spec _ _ _ _ T Hok) as (_ & _ & s0 & E0 & B0 & Hx).
  destruct (Hx d Hd (addressed_deliverable _ _ _ Ha)) as [Hnk Hd0].
  destruct (Z.lt_ge_cases (d_attempt_number d) (max_attempts policy)) as [|Hge]; [done|]. exfalso.
  apply Hnk, (list_elem_of_fmap_2 d_idempotency_key). unfold attempts_exhausted.
  fold (spent_rows s0 request). apply ordered_whole.
  - etrans; [|exact Hfit]. unfold zlen. apply inj_le, submseteq_length, NoDup_submseteq.
    + eapply submseteq_NoDup; [apply filter_submseteq|]. eapply NoDup_fmap_1, ok_keys.
      exact (store_ok_evolves _ _ Hok E0).
    + intros x. unfold spent_rows. rewrite !list_elem_of_In, !filter_In, <- !list_elem_of_In.
      intros [Hx0 Hp]. split; [|done]. apply B0; [done|]. row_tests. by eapply addressed_deliverable.
  - unfold spent_rows. apply list_elem_of_In, filter_In. split; [by apply list_elem_of_In|].
    rewrite Ha, Z.geb_leb. simpl. lia.
Qed.

(** ** Properties *)

(** A lease batch holds at most [max_items] items and at most [max_bytes]
    queue bytes unless it is a single item, each of a different delivery; every
    item comes from a row of the requested provider and registration that was
    deliverable, due and inside its deadline with its content present, also
    after the stale deliveries were terminated, carries the next attempt number of that row, and leaves it leased to the requester
    under the item's lease id. *)
Theorem lease_batch_bounded s request leased s' :
  lease_pending policy s request = Ok (leased, s') → store_ok s →
  0 < q_max_items request → 0 <= q_max_bytes request < u64_max →
  zlen leased <= q_max_items request ∧
  (batch_bytes leased <= q_max_bytes request ∨ zlen leased <= 1) ∧
  NoDup (l_idempotency_key <$> leased) ∧
  ∃ s1, terminate_stale policy s request (q_registration_revision request) = Ok s1 ∧
    ∀ item, item ∈ leased → ∃ d j, d ∈ deliveries s ∧ lease_granted request s1 s' item d j.
Proof.
  intros Hl Hok Hn Hb. destruct (lease_pending_spec _ _ _ _ Hl Hok) as (s1 & T & _ & Hnd & Hall & H1 & H2).
  destruct (terminate_stale_spec _ _ _ _ T Hok) as (_ & Hback & _).
  split_and!; [auto|auto|done|]. exists s1. split; [done|]. intros item Hit. rewrite Forall_forall in Hall.
  destruct (Hall item Hit) as (d & j & G). exists d, j. split; [|done].
  apply Hback; [apply G|exact (addressed_deliverable _ _ _ (lg_addressed _ _ _ _ _ _ G))].
Qed.

(** A receipt settles exactly the row that is leased at the attempt it
    answers.  A first receipt of the attempt is stored and settles the row with
    its own outcome, or reports the lost lease and changes no row; a repeated
    one is not stored and settles with the standing receipt of the attempt.
    The new state is the one the outcome implies, a retryable outcome without
    attempts left ends the delivery, and a retry waits for the backoff. *)
Theorem receipt_settles_only_its_attempt s r out s' :
  record_attempt policy s r = Ok (out, s') → store_ok s →
  ∃ standing, r_observation_id standing = r_observation_id r ∧
    r_attempt_number standing = r_attempt_number r ∧
    Forall2 (λ d d', if decide (awaits r d) then settles standing d d' else d' = d)
      (deliveries s) (deliveries s') ∧
    match out with
    | Recorded _ _ => standing = r ∧ receipts s' = receipts s ++ [stored_receipt r] ∧
                      ∃ d, d ∈ deliveries s ∧ awaits r d
    | LeaseLost id => id = receipt_id r ∧ receipts s' = receipts s ++ [stored_receipt r] ∧
                      ∀ d, d ∈ deliveries s → ~ awaits r d
    | DuplicateReceipt _ => standing ∈ receipts s ∧ receipts s' = receipts s
    end.
Proof.
  unfold record_attempt. intros Hr Hok.
  destruct (delivery_receipt_validate r); [|done]. destruct (read_journal_row s _) as [j|]; [|done].
  destruct (receipt_matches_journal j r); [|done]. destruct (receipt_columns_fit r); [|done].
  destruct (insert_receipt_row s r) as [s1|] eqn:Ei.
  - apply insert_receipt_row_spec in Ei as [-> _]. set (s1 := with_receipts _ _) in Hr.
    destruct (advance_watermark_for_tables s1 j r) as [Wd Wr].
    destruct (settle_delivery _ _ _) as [s3 settled] eqn:Es. apply settle_delivery_rows in Es as (Rr & Rd & Ra).
    2:{ rewrite Wd. apply Hok. }
    rewrite Wd in Rd, Ra. rewrite Wr in Rr. simpl in Rr, Rd, Ra. exists r. split; [done|]. split; [done|].
    destruct (advanced settled); injection Hr as <- <-; (split; [exact Rd|]).
    + split_and!; [done|done|by apply Ra].
    + split_and!; [done|done|]. intros d Hd Hw. assert (false = true); [|done]. apply Ra. eauto.
  - destruct (read_receipt s _ _) as [standing|] eqn:Es; [|done].
    apply read_receipt_spec in Es as (Hin & Ho & Hn).
    destruct (settle_delivery _ _ _) as [s1 settled] eqn:E. apply settle_delivery_rows in E as (Rr & Rd & _);
      [|apply Hok].
    destruct (if advanced settled then _ else _) as [st|]; [|done]. injection Hr as <- <-.
    destruct (advance_watermark_for_tables s1 j standing) as [Wd Wr]. rewrite Wd, Wr.
    exists standing. split_and!; try done. eapply Forall2_impl; [exact Rd|]. intros d d'. simpl.
    assert (awaits standing d ↔ awaits r d) as Hw by (unfold awaits; by rewrite Ho, Hn).
    destruct (decide (awaits standing d)), (decide (awaits r d)); tauto.
Qed.

(** When the deliverable rows of the registration that have no attempts
    left fit the [max_items] of the request, no lease of the batch starts an
    attempt beyond [max_attempts]. *)
Theorem leases_within_attempt_budget s request leased s' :
  lease_pending policy s request = Ok (leased, s') → store_ok s →
  zlen (spent_rows s request) <= q_max_items request →
  Forall (λ item, l_attempt_number item <= max_attempts policy) leased.
Proof.
  intros Hl Hok Hfit. destruct (lease_pending_spec _ _ _ _ Hl Hok) as (s1 & T & _ & _ & Hall & _).
  eapply Forall_impl; [exact Hall|]. intros item (d & j & G). rewrite (lg_attempt _ _ _ _ _ _ G).
  pose proof (terminate_stale_bounded _ _ _ T Hok Hfit d (lg_row _ _ _ _ _ _ G)
    (lg_addressed _ _ _ _ _ _ G)). lia.
Qed.

(** No expired lease is dropped silently: a reap returns every lease of
    its page to [Pending] with the attempt number kept and the lease columns
    cleared, counts them, and for every one whose attempt had neither a receipt
    nor a refusal leaves an orphan record that names the lease and whether
    attempts are left; rows outside the page are untouched. *)
Theorem reaped_leases_are_accounted s now budget n s' :
  reap_expired_leases policy s now budget = Ok (n, s') → store_ok s →
  (∀ d, d ∈ deliveries s → (d_idempotency_key d ∉ keys (fst <$> expired_leases s now budget)) →
     d ∈ deliveries s') ∧
  (∀ d j, (d, j) ∈ expired_leases s now budget →
     reclaimed_row now d ∈ deliveries s' ∧ accounted s s' now (d, j)) ∧
  n = Z.min u32_max (zlen (expired_leases s now budget)).
Proof.
  unfold reap_expired_leases. intros Hr Hok. destruct (decode_expired _); [|done].
  destruct (expired_leases_facts s now budget Hok) as [Hk Hall].
  apply reap_loop_accounts in Hr as (H1 & H2 & ->); [|apply Hok|done|done|unfold u32_max; lia].
  split; [|split; [|done]].
  - unfold keys. rewrite <- list_fmap_compose. exact H1.
  - rewrite Forall_forall in H2. intros d j Hin. exact (H2 _ Hin).
Qed.
End operations.

(** ** A concrete journal *)
Section samples.
#[local] Existing Instance mixing_sha256.

Definition sample_digest : rstr := repeat 97 64.

Definition sample_journal_row (key observation_id : rstr) (sequence : Z) : JournalRow := {|
  j_idempotency_key := key; j_observation_id := observation_id;
  j_exact_scope_sha256 := sample_digest; j_provider_id := str "provider";
  j_registration_revision := 1; j_source_authority := str "session";
  j_source_stream := str "main"; j_source_event_id := observation_id;
  j_source_event_revision := 0; j_source_sequence := sequence;
  j_payload_sha256 := sample_digest; j_payload_bytes := Some [1; 2; 3];
  j_extensions_digest := sample_digest; j_extensions := [[4]; [5; 6]];
  j_retention_class := ProjectClass; j_forget_source_key := str "subject";
  j_expires_at_micros := 1000000; j_admitted_at_micros := 0; j_deadline_micros := 1000000;
  j_sanitization := None; j_content_forgotten_at_micros := None;
|}.

Definition sample_delivery_row (key observation_id : rstr) (sequence attempts : Z) : DeliveryRow := {|
  d_idempotency_key := key; d_observation_id := observation_id; d_provider_id := str "provider";
  d_registration_revision := 1; d_last_provider_instance_id := None; d_state := Pending;
  d_attempt_number := attempts; d_next_attempt_at_micros := 0; d_lease_owner := None;
  d_lease_id := None; d_lease_expires_at_micros := None; d_last_outcome := None;
  d_last_committed_effect := None; d_last_receipt_id := None; d_source_sequence := sequence;
  d_exact_scope_sha256 := sample_digest; d_queue_bytes := 6; d_updated_at_micros := 0;
|}.

Definition sample_store (attempts : Z) : Store := {|
  journal := [sample_journal_row (str "k1") (str "o1") 0; sample_journal_row (str "k2") (str "o2") 1];
  deliveries := [sample_delivery_row (str "k1") (str "o1") 0 attempts;
                 sample_delivery_row (str "k2") (str "o2") 1 attempts];
  receipts := []; refusals := []; orphans := []; recovery := [];
|}.

Definition sample_request (items : Z) : LeaseRequestV1 := {|
  q_provider_id := str "provider"; q_registration_revision := 1;
  q_provider_instance_id := str "instance"; q_exact_scope_sha256 := None;
  q_lease_owner := str "daemon"; q_now_unix_micros := 100; q_lease_duration_micros := 50;
  q_max_items := items; q_max_bytes := 64;
|}.

Definition sample_receipt : ObservationDeliveryReceiptV1 := {|
  receipt_id := receipt_id_derive (str "o1") 1; r_observation_id := str "o1";
  r_idempotency_key := str "k1"; r_payload_sha256 := sample_digest;
  r_extensions_digest := sample_digest; r_provider_id := str "provider";
  r_provider_instance_id := Some (str "instance"); r_registration_revision := 1;
  state_generation_before := None; state_generation_after := None; r_attempt_number := 1;
  outcome := OutcomeApplied; committed_effect := EffectApplied;
  provider_effect_summary := empty_summary; provider_receipt_digest := Some sample_digest;
  started_at_unix_micros := 110; finished_at_unix_micros := 120; warnings := [];
|}.

(** The store after the two deliveries are leased, and after the first one is
    acknowledged. *)
Definition sample_leased : list LeasedObservationV1 * Store :=
  match lease_pending sample_retention (sample_store 0) (sample_request 4) with
  | Ok x => x
  | Err _ => ([], sample_store 0)
  end.

Definition sample_settled : Store :=
  match record_attempt sample_retention (snd sample_leased) sample_receipt with
  | Ok (_, s) => s
  | Err _ => sample_store 0
  end.

Lemma sample_lease_ok :
  lease_pending sample_retention (sample_store 0) (sample_request 4) = Ok sample_leased.
Proof. vm_compute. reflexivity. Qed.

Lemma sample_record_ok :
  record_attempt sample_retention (snd sample_leased) sample_receipt =
  Ok (Recorded Acknowledged None, sample_settled).
Proof. vm_compute. reflexivity. Qed.

Lemma sample_store_ok attempts : store_ok (sample_store attempts).
Proof.
  split; try (apply (bool_decide_unpack _); vm_compute; exact I).
  intros d j Hd Hj. unfold sample_store in Hd, Hj. simpl in Hd, Hj.
  repeat (apply elem_of_cons in Hd as [->|Hd]); try (by apply elem_of_nil in Hd);
    repeat (apply elem_of_cons in Hj as [->|Hj]); try (by apply elem_of_nil in Hj); done.
Qed.

Lemma sample_leased_ok : store_ok (snd sample_leased).
Proof.
  apply (store_ok_evolves (sample_store 0)); [apply sample_store_ok|].
  apply (journal_step_evolves sample_retention _ (labels (fst sample_leased))); [|apply sample_store_ok].
  apply (step_lease _ _ (sample_request 4)). rewrite sample_lease_ok. by destruct sample_leased.
Qed.

Lemma lease_batch_bounded_witness :
  zlen (fst sample_leased) = 2 ∧ zlen (fst sample_leased) <= 4.
Proof.
  split; [vm_compute; reflexivity|].
  apply (lease_batch_bounded sample_retention (sample_store 0) (sample_request 4)
    (fst sample_leased) (snd sample_leased)).
  - rewrite sample_lease_ok. by destruct sample_leased.
  - apply sample_store_ok.
  - simpl. lia.
  - simpl. unfold u64_max. lia.
Defined.

Lemma receipt_settles_only_its_attempt_witness :
  ∃ standing, r_observation_id standing = str "o1" ∧ standing = sample_receipt ∧
    receipts sample_settled = receipts (snd sample_leased) ++ [stored_receipt sample_receipt].
Proof.
  destruct (receipt_settles_only_its_attempt sample_retention (snd sample_leased) sample_receipt
    (Recorded Acknowledged None) sample_settled) as (standing & Ho & _ & _ & Hs & Hr & _).
  - apply sample_record_ok.
  - apply sample_leased_ok.
  - exists standing. split; [exact Ho|]. split; [exact Hs|exact Hr].
Defined.

Lemma leases_within_attempt_budget_witness :
  Forall (λ item, l_attempt_number item <= 3) (fst sample_leased).
Proof.
  apply (leases_within_attempt_budget sample_retention (sample_store 0) (sample_request 4)
    (fst sample_leased) (snd sample_leased)).
  - rewrite sample_lease_ok. by destruct sample_leased.
  - apply sample_store_ok.
  - vm_compute. congruence.
Defined.

Definition sample_reaped : Z * Store :=
  match reap_expired_leases sample_retention (snd sample_leased) 200 1 with
  | Ok x => x
  | Err _ => (0, sample_store 0)
  end.

Lemma reaped_leases_are_accounted_witness :
  d_state <$> deliveries (snd sample_reaped) = [Pending; Leased] ∧
  o_recovery <$> orphans (snd sample_reaped) = [RedeliveryScheduled] ∧ fst sample_reaped = 1.
Proof.
  split; [vm_compute; reflexivity|]. split; [vm_compute; reflexivity|].
  destruct (reaped_leases_are_accounted sample_retention (snd sample_leased) 200 1
    (fst sample_reaped) (snd sample_reaped)) as (_ & _ & Hn).
  - vm_compute. reflexivity.
  - apply sample_leased_ok.
  - rewrite Hn. vm_compute. reflexivity.
Defined.

(** Without the premise of the attempt budget it is exceeded: under a
    policy of three attempts, with two rows that have used all three and
    [max_items = 1], one of them is terminated and the other one is leased for
    a fourth attempt. *)
Example fourth_attempt_leased :
  match lease_pending sample_retention (sample_store 3) (sample_request 1) with
  | Ok (leased, s) => (l_attempt_number <$> leased, d_state <$> deliveries s)
  | Err _ => ([], [])
  end = ([4], [Exhausted; Leased]).
Proof. vm_compute. reflexivity. Qed.
End samples.
