(* ===== verification/ObservationAppend.v ===== *)
(** * Admission to the observation journal

    [tracedecay-memory-observation/src/sqlite/append.rs]: appending an admitted
    observation, recording a withheld event and a non-message checkpoint, and
    the reads of the replay position and the queue pressure.

    [JournalDb] adds to the delivery tables of [ObservationJournal] the four
    tables that only admission and retention touch.  As there, a table is the
    list of its rows, a statement the function it computes on them, and an error
    rolls the transaction back.  The wall clock is an argument. *)
From stdpp Require Import base list numbers sorting strings.
From S2P Require Import Prelude.
From S2P Require Import RustText.
From S2P Require Import Bytes.
From S2P Require Import ObservationState.
From S2P Require Import HygieneReceipt.
From S2P Require Import ObservationEnvelope.
From S2P Require Import ObservationJournal.

#[local] Open Scope Z_scope.
#[local] Open Scope rust_scope.

(** ** inspection.rs *)
Inductive ReplayDispositionV1 : Type := DispositionAdmitted | DispositionWithheld | DispositionNonMessage.

#[export] Instance ReplayDispositionV1_eq_dec : EqDecision ReplayDispositionV1.
Proof. solve_decision. Defined.

Record ObservationLaneKeyV1 : Type := {
  n_provider_id : rstr;
  n_registration_revision : Z;
}.

Definition lane_of (target : ProviderTargetV1) : ObservationLaneKeyV1 :=
  {| n_provider_id := t_provider_id target; n_registration_revision := t_registration_revision target |}.

Definition lane_validate (self : ObservationLaneKeyV1) : result unit ObservationJournalError :=
  if n_registration_revision self =? 0 then Err (ValueOutOfRange (str "registration_revision"))
  else Ok tt.

Record QueuePressureV1 : Type := {
  u_queue_items : Z;
  u_queue_bytes : Z;
  u_oldest_admitted_at_unix_micros : option Z;
  u_max_queue_items : Z;
  u_max_queue_bytes : Z;
}.

Definition would_exceed (self : QueuePressureV1) (additional_bytes : Z) : bool :=
  (u_queue_items self >=? u_max_queue_items self)
  || (sat_add u64_max (u_queue_bytes self) additional_bytes >? u_max_queue_bytes self).

Record ReplayCursorV1 : Type := {
  rp_last_admitted_sequence : Z;
  rp_last_source_event_id : rstr;
  rp_last_source_event_revision : rstr;
  rp_last_settlement_proof_sha256 : option rstr;
  rp_last_disposition : ReplayDispositionV1;
  rp_updated_at_unix_micros : Z;
}.

(** ** port.rs *)
Inductive AppendOutcomeV1 : Type :=
  | Appended (observation_id : rstr) (source_sequence : Z)
  | DuplicateIdempotencyKey (observation_id : rstr) (state : DeliveryStateV1)
  | DuplicateSourceEvent (observation_id stored_idempotency_key : rstr)
  | SourceSequenceConflict (stored_source_event_id : rstr) (stored_source_event_revision : Z)
  | RejectedSourceSequenceRegression (last_admitted : Z)
  | RejectedWithheldSource (source_sequence : Z)
  | RejectedDeadlineExpired (deadline_unix_micros : Z)
  | RejectedCapacity (queue_items queue_bytes : Z).

(** ** Tables *)

(** The primary key of the replay cursor. *)
Record IngressKey : Type := {
  g_source_authority : rstr;
  g_exact_scope_sha256 : rstr;
  g_source_stream : rstr;
}.

#[export] Instance IngressKey_eq_dec : EqDecision IngressKey.
Proof. solve_decision. Defined.

Record TargetCursorRow : Type := {
  tc_key : StreamKey;
  tc_last_admitted_sequence : Z;
  tc_last_source_event_id : rstr;
  tc_last_source_event_revision : Z;
  tc_updated_at_micros : Z;
}.

Record ReplayCursorRow : Type := {
  rc_key : IngressKey;
  rc_cursor : ReplayCursorV1;
}.

Record WithheldRow : Type := {
  wh_record : WithheldAdmissionV1;
  wh_withheld_at_micros : Z;
}.

Record NonMessageRow : Type := {
  nm_key : IngressKey;
  nm_source_sequence : Z;
  nm_source_event_id : rstr;
  nm_source_event_revision : rstr;
  nm_settlement_proof_sha256 : rstr;
}.

Record JournalDb : Type := {
  store : Store;
  target_cursors : list TargetCursorRow;
  replay_cursors : list ReplayCursorRow;
  withheld : list WithheldRow;
  non_messages : list NonMessageRow;
}.

Definition empty_journal : JournalDb := {|
  store := {| journal := []; deliveries := []; receipts := []; refusals := []; orphans := [];
              recovery := [] |};
  target_cursors := []; replay_cursors := []; withheld := []; non_messages := [];
|}.

Definition with_store (db : JournalDb) (s : Store) : JournalDb :=
  {| store := s; target_cursors := target_cursors db; replay_cursors := replay_cursors db;
     withheld := withheld db; non_messages := non_messages db |}.
Definition with_replay_cursors (db : JournalDb) (rows : list ReplayCursorRow) : JournalDb :=
  {| store := store db; target_cursors := target_cursors db; replay_cursors := rows;
     withheld := withheld db; non_messages := non_messages db |}.
Definition with_target_cursors (db : JournalDb) (rows : list TargetCursorRow) : JournalDb :=
  {| store := store db; target_cursors := rows; replay_cursors := replay_cursors db;
     withheld := withheld db; non_messages := non_messages db |}.
Definition with_withheld (db : JournalDb) (rows : list WithheldRow) : JournalDb :=
  {| store := store db; target_cursors := target_cursors db; replay_cursors := replay_cursors db;
     withheld := rows; non_messages := non_messages db |}.
Definition with_non_messages (db : JournalDb) (rows : list NonMessageRow) : JournalDb :=
  {| store := store db; target_cursors := target_cursors db; replay_cursors := replay_cursors db;
     withheld := withheld db; non_messages := rows |}.
Definition with_journal (s : Store) (rows : list JournalRow) : Store :=
  {| journal := rows; deliveries := deliveries s; receipts := receipts s; refusals := refusals s;
     orphans := orphans s; recovery := recovery s |}.

Definition ingress_of_journal (j : JournalRow) : IngressKey :=
  {| g_source_authority := j_source_authority j; g_exact_scope_sha256 := j_exact_scope_sha256 j;
     g_source_stream := j_source_stream j |}.
Definition ingress_of_stream (k : StreamKey) : IngressKey :=
  {| g_source_authority := k_source_authority k; g_exact_scope_sha256 := k_exact_scope_sha256 k;
     g_source_stream := k_source_stream k |}.
Definition ingress_of_withheld (w : WithheldAdmissionV1) : IngressKey :=
  {| g_source_authority := w_source_authority w; g_exact_scope_sha256 := w_exact_scope_sha256 w;
     g_source_stream := w_source_stream w |}.
Definition ingress_of_source (k : SourceStreamKeyV1) : IngressKey :=
  {| g_source_authority := authority_as_wire (sk_source_authority k);
     g_exact_scope_sha256 := sk_exact_scope_sha256 k; g_source_stream := sk_source_stream k |}.

(** ** Statements *)
Definition JOURNAL_TABLE : rstr := str "tdmem_observation_journal_v1".
Definition REPLAY_CURSOR_TABLE : rstr := str "tdmem_observation_replay_cursor_v1".

Definition read_u64 (value : Z) (field : rstr) : result Z ObservationJournalError :=
  if 0 <=? value then Ok value else Err (ValueOutOfRange field).

(** [u64::to_string]: at most 20 digits. *)
Definition u64_to_string (n : Z) : rstr := decimal_digits 20 n.

(** [value.parse::<u64>().is_ok()]. *)
Definition parses_as_u64 (value : rstr) : bool :=
  let digits := match strip_prefix (str "+") value with Some rest => rest | None => value end in
  negb (is_empty digits) && forallb is_ascii_digit digits
  && (fold_left (λ n c, 10 * n + (c - 48)) digits 0 <=? u64_max).

(** [INSERT ... ON CONFLICT (key) DO UPDATE]: [merge] on the conflicting row,
    the fresh row otherwise. *)
Definition upsert {R K} `{EqDecision K} (key : R → K) (k : K) (merge : R → R) (fresh : R)
    (rows : list R) : list R :=
  if existsb (λ r, bool_decide (key r = k)) rows
  then (λ r, if bool_decide (key r = k) then merge r else r) <$> rows
  else rows ++ [fresh].

Section upsert.
Context {R K : Type} `{EqDecision K} (key : R → K) (k : K) (merge : R → R) (fresh : R).
Context (merge_key : ∀ r, key (merge r) = key r) (fresh_key : key fresh = k).

Lemma upsert_elem r' rows :
  r' ∈ upsert key k merge fresh rows →
  (r' ∈ rows ∧ key r' ≠ k) ∨ (∃ r, r ∈ rows ∧ key r = k ∧ r' = merge r) ∨ r' = fresh.
Proof.
  unfold upsert. destruct (existsb _ rows) eqn:E.
  - intros (r & -> & Hr)%list_elem_of_fmap. case_bool_decide as Hk; [right; left; by exists r|by left].
  - rewrite existsb_false in E. intros [Hr| ->%list_elem_of_singleton]%elem_of_app; [left|by right; right].
    split; [done|]. apply (E _) in Hr. by apply bool_decide_eq_false_1 in Hr.
Qed.

(** The row of the key is the merged one, or the fresh one if there was none. *)
Lemma upsert_in rows r :
  r ∈ rows → (if bool_decide (key r = k) then merge r else r) ∈ upsert key k merge fresh rows.
Proof.
  intros Hr. unfold upsert. destruct (existsb _ rows) eqn:E.
  - apply list_elem_of_fmap. by exists r.
  - rewrite existsb_false in E. rewrite (E r Hr). apply elem_of_app. by left.
Qed.

Lemma upsert_fresh rows : (∀ r, r ∈ rows → key r ≠ k) → fresh ∈ upsert key k merge fresh rows.
Proof.
  intros Hn. unfold upsert. rewrite (proj2 (existsb_false _ _)).
  - apply elem_of_app. right. by apply list_elem_of_singleton.
  - intros r Hr. apply bool_decide_eq_false_2. auto.
Qed.

Lemma upsert_keys rows : NoDup (key <$> rows) → NoDup (key <$> upsert key k merge fresh rows).
Proof.
  intros Hnd. unfold upsert. destruct (existsb _ rows) eqn:E.
  - rewrite <- list_fmap_compose. erewrite list_fmap_ext; [exact Hnd|].
    intros i r _. simpl. case_bool_decide; [apply merge_key|done].
  - rewrite existsb_false in E. apply NoDup_fmap_snoc; [done|]. intros r Hr. apply E in Hr.
    apply bool_decide_eq_false_1 in Hr. congruence.
Qed.

Context (m : R → Z).

Lemma upsert_grows rows r :
  (∀ x, m x <= m (merge x)) → r ∈ rows →
  ∃ r', r' ∈ upsert key k merge fresh rows ∧ key r' = key r ∧ m r <= m r'.
Proof.
  intros Hm Hr. unfold upsert. destruct (existsb _ rows).
  - eexists. split; [by apply (list_elem_of_fmap_2 (λ r, if bool_decide (key r = k) then merge r else r)), Hr|].
    simpl. case_bool_decide; [split; [apply merge_key|apply Hm]|split; [done|lia]].
  - exists r. rewrite elem_of_app. split; [by left|]. split; [done|lia].
Qed.

Lemma upsert_covers rows n :
  n <= m fresh → (∀ x, n <= m (merge x)) →
  ∃ r', r' ∈ upsert key k merge fresh rows ∧ key r' = k ∧ n <= m r'.
Proof.
  intros Hf Hm. unfold upsert. destruct (existsb _ rows) eqn:E.
  - apply existsb_spec in E as (r & Hr & Ek). exists (merge r). rewrite merge_key.
    apply bool_decide_eq_true_1 in Ek. split; [|by split]. apply list_elem_of_fmap. exists r.
    split; [|done]. by rewrite bool_decide_eq_true_2.
  - exists fresh. rewrite elem_of_app. split; [right; by apply list_elem_of_singleton|done].
Qed.
End upsert.

(** [UPSERT_CURSOR]: the maximum, with the evidence of the newer position. *)
Definition merge_cursor (new : ReplayCursorV1) (row : ReplayCursorRow) : ReplayCursorRow :=
  let old := rc_cursor row in
  let newer := rp_last_admitted_sequence new >=? rp_last_admitted_sequence old in
  {| rc_key := rc_key row;
     rc_cursor := {|
       rp_last_admitted_sequence :=
         Z.max (rp_last_admitted_sequence new) (rp_last_admitted_sequence old);
       rp_last_source_event_id :=
         if newer then rp_last_source_event_id new else rp_last_source_event_id old;
       rp_last_source_event_revision :=
         if newer then rp_last_source_event_revision new else rp_last_source_event_revision old;
       rp_last_settlement_proof_sha256 :=
         if newer then rp_last_settlement_proof_sha256 new else rp_last_settlement_proof_sha256 old;
       rp_last_disposition := if newer then rp_last_disposition new else rp_last_disposition old;
       rp_updated_at_unix_micros := rp_updated_at_unix_micros new |} |}.

Definition upsert_cursor (key : IngressKey) (new : ReplayCursorV1) (rows : list ReplayCursorRow) :
    list ReplayCursorRow :=
  upsert rc_key key (merge_cursor new) {| rc_key := key; rc_cursor := new |} rows.

(** [UPSERT_WITHHELD_CURSOR]: only a strictly newer position. *)
Definition merge_withheld_cursor (new : ReplayCursorV1) (row : ReplayCursorRow) : ReplayCursorRow :=
  if rp_last_admitted_sequence new >? rp_last_admitted_sequence (rc_cursor row)
  then {| rc_key := rc_key row; rc_cursor := new |} else row.

Definition upsert_withheld_cursor (key : IngressKey) (new : ReplayCursorV1)
    (rows : list ReplayCursorRow) : list ReplayCursorRow :=
  upsert rc_key key (merge_withheld_cursor new) {| rc_key := key; rc_cursor := new |} rows.

(** [UPSERT_TARGET_CURSOR]. *)
Definition merge_target (new old : TargetCursorRow) : TargetCursorRow :=
  if tc_last_admitted_sequence new >=? tc_last_admitted_sequence old then
    {| tc_key := tc_key old; tc_last_admitted_sequence := tc_last_admitted_sequence new;
       tc_last_source_event_id := tc_last_source_event_id new;
       tc_last_source_event_revision := tc_last_source_event_revision new;
       tc_updated_at_micros := tc_updated_at_micros new |}
  else old.

Definition upsert_target_cursor (new : TargetCursorRow) (rows : list TargetCursorRow) :
    list TargetCursorRow :=
  upsert tc_key (tc_key new) (merge_target new) new rows.

(** The unique keys of the journal table: the idempotency key, the observation
    and the position of one registration in one stream. *)
Definition journal_conflicts (a b : JournalRow) : bool :=
  str_eqb (j_idempotency_key a) (j_idempotency_key b)
  || str_eqb (j_observation_id a) (j_observation_id b)
  || (bool_decide (stream_of a = stream_of b) && (j_source_sequence a =? j_source_sequence b)).

(** [INSERT_JOURNAL], [INSERT OR IGNORE]: the number of inserted rows. *)
Definition insert_journal (row : JournalRow) (s : Store) : Store * Z :=
  if existsb (journal_conflicts row) (journal s) then (s, 0)
  else (with_journal s (journal s ++ [row]), 1).

(** [INSERT_DELIVERY], [INSERT OR IGNORE]. *)
Definition insert_delivery (row : DeliveryRow) (s : Store) : Store :=
  if existsb (λ d, str_eqb (d_idempotency_key d) (d_idempotency_key row)
                   || str_eqb (d_observation_id d) (d_observation_id row)) (deliveries s)
  then s else with_deliveries s (deliveries s ++ [row]).

(** The primary key of the withheld table. *)
Definition withheld_conflicts (a b : WithheldRow) : bool :=
  bool_decide (ingress_of_withheld (wh_record a) = ingress_of_withheld (wh_record b))
  && (w_source_sequence (wh_record a) =? w_source_sequence (wh_record b))
  && str_eqb (w_receipt_id (wh_record a)) (w_receipt_id (wh_record b)).

(** [INSERT_WITHHELD], [INSERT OR IGNORE]. *)
Definition insert_withheld (row : WithheldRow) (rows : list WithheldRow) : list WithheldRow :=
  if existsb (withheld_conflicts row) rows then rows else rows ++ [row].

Definition withheld_at (db : JournalDb) (key : IngressKey) (sequence : Z) : bool :=
  existsb (λ w, bool_decide (ingress_of_withheld (wh_record w) = key)
                && (w_source_sequence (wh_record w) =? sequence)) (withheld db).

Definition journalled_at (db : JournalDb) (key : IngressKey) (sequence : Z) : bool :=
  existsb (λ j, bool_decide (ingress_of_journal j = key) && (j_source_sequence j =? sequence))
    (journal (store db)).

Definition non_message_at (db : JournalDb) (key : IngressKey) (sequence : Z) : option NonMessageRow :=
  head (List.filter (λ n, bool_decide (nm_key n = key) && (nm_source_sequence n =? sequence))
          (non_messages db)).

Definition reject_non_message (db : JournalDb) (key : IngressKey) (sequence : Z) :
    result unit ObservationJournalError :=
  match non_message_at db key sequence with
  | Some _ =>
    let? sequence := read_u64 sequence (str "source_sequence") in
    Err (SourceCheckpointConflict sequence)
  | None => Ok tt
  end.

Definition select_by_key (s : Store) (key : rstr) : option (DeliveryRow * JournalRow) :=
  head (List.filter (λ dj, str_eqb (j_idempotency_key (snd dj)) key) (joined s)).

Definition select_by_source (s : Store) (key : StreamKey) (sequence : Z) : option JournalRow :=
  head (List.filter (λ j, bool_decide (stream_of j = key) && (j_source_sequence j =? sequence))
          (journal s)).

Definition select_target_cursor (db : JournalDb) (key : StreamKey) : option TargetCursorRow :=
  head (List.filter (λ c, bool_decide (tc_key c = key)) (target_cursors db)).

Definition select_cursor (db : JournalDb) (key : IngressKey) : option ReplayCursorV1 :=
  rc_cursor <$> head (List.filter (λ c, bool_decide (rc_key c = key)) (replay_cursors db)).

(** [state IN ('pending', 'leased', 'effect_unknown')]. *)
Definition is_unsettled (st : DeliveryStateV1) : bool :=
  match st with Pending | Leased | EffectUnknown => true | _ => false end.

(** The joined rows of one registration that are still queued. *)
Definition queued (s : Store) (provider_id : rstr) (registration : Z) : list (DeliveryRow * JournalRow) :=
  List.filter (λ dj, str_eqb (d_provider_id (fst dj)) provider_id
                     && (d_registration_revision (fst dj) =? registration)
                     && is_unsettled (d_state (fst dj))) (joined s).

Definition sql_min (l : list Z) : option Z :=
  match l with [] => None | x :: l => Some (fold_left Z.min l x) end.

(** [SUM] of integers fails when it leaves the 64-bit range. *)
Definition sql_sum (l : list Z) : result Z ObservationJournalError :=
  let total := foldr Z.add 0 l in
  if total <=? i64_max then Ok total else Err (Storage DELIVERY_TABLE).

Definition read_pressure (s : Store) (lane : ObservationLaneKeyV1) (policy : RetentionPolicyV1) :
    result QueuePressureV1 ObservationJournalError :=
  let? registration := sql_i64 (n_registration_revision lane) (str "registration_revision") in
  let rows := queued s (n_provider_id lane) registration in
  let? bytes := sql_sum ((λ dj, d_queue_bytes (fst dj)) <$> rows) in
  let? items := read_u64 (zlen rows) (str "queue_items") in
  let? bytes := read_u64 bytes (str "queue_bytes") in
  Ok {| u_queue_items := items; u_queue_bytes := bytes;
        u_oldest_admitted_at_unix_micros := sql_min ((λ dj, j_admitted_at_micros (snd dj)) <$> rows);
        u_max_queue_items := max_queue_items policy; u_max_queue_bytes := max_queue_bytes policy |}.

(** ** Admission *)
Section admission.
Context `{Sha256} (policy : RetentionPolicyV1).

Definition admitted_scope_sha256 (admitted : AdmittedObservationV1) : rstr :=
  exact_scope_sha256 (a_exact_scope admitted).

Definition admitted_stream (admitted : AdmittedObservationV1) : StreamKey := {|
  k_provider_id := t_provider_id (a_target admitted);
  k_registration_revision := t_registration_revision (a_target admitted);
  k_source_authority := authority_as_wire (c_source_authority (a_source admitted));
  k_exact_scope_sha256 := admitted_scope_sha256 admitted;
  k_source_stream := c_source_stream (a_source admitted);
|}.

(** The columns of the journal row and of its pending delivery. *)
Definition journal_row_of (admitted : AdmittedObservationV1) : JournalRow := {|
  j_idempotency_key := a_idempotency_key admitted;
  j_observation_id := a_observation_id admitted;
  j_exact_scope_sha256 := admitted_scope_sha256 admitted;
  j_provider_id := t_provider_id (a_target admitted);
  j_registration_revision := t_registration_revision (a_target admitted);
  j_source_authority := authority_as_wire (c_source_authority (a_source admitted));
  j_source_stream := c_source_stream (a_source admitted);
  j_source_event_id := c_source_event_id (a_source admitted);
  j_source_event_revision := c_source_event_revision (a_source admitted);
  j_source_sequence := c_source_sequence (a_source admitted);
  j_payload_sha256 := p_sha256 (a_payload admitted);
  j_payload_bytes := Some (p_bytes (a_payload admitted));
  j_extensions_digest := a_extensions_digest admitted;
  j_extensions := e_canonical_payload <$> a_extensions admitted;
  j_retention_class := retention_class (a_privacy admitted);
  j_forget_source_key := forget_source_key (a_privacy admitted);
  j_expires_at_micros := expires_at_unix_micros (a_privacy admitted);
  j_admitted_at_micros := a_admitted_at_unix_micros admitted;
  j_deadline_micros := a_deadline_unix_micros admitted;
  j_sanitization := Some (a_sanitization admitted);
  j_content_forgotten_at_micros := None;
|}.

Definition delivery_row_of (admitted : AdmittedObservationV1) (now : Z) : DeliveryRow := {|
  d_idempotency_key := a_idempotency_key admitted;
  d_observation_id := a_observation_id admitted;
  d_provider_id := t_provider_id (a_target admitted);
  d_registration_revision := t_registration_revision (a_target admitted);
  d_last_provider_instance_id := None;
  d_state := Pending;
  d_attempt_number := 0;
  d_next_attempt_at_micros := a_admitted_at_unix_micros admitted;
  d_lease_owner := None;
  d_lease_id := None;
  d_lease_expires_at_micros := None;
  d_last_outcome := None;
  d_last_committed_effect := None;
  d_last_receipt_id := None;
  d_source_sequence := c_source_sequence (a_source admitted);
  d_exact_scope_sha256 := admitted_scope_sha256 admitted;
  d_queue_bytes := Z.max (queue_bytes admitted) 1;
  d_updated_at_micros := now;
|}.

(** Step (2): the same settled event under another key, or another event. *)
Definition source_outcome (admitted : AdmittedObservationV1) (j : JournalRow) :
    result AppendOutcomeV1 ObservationJournalError :=
  let? stored_revision := read_u64 (j_source_event_revision j) (str "source_event_revision") in
  if str_eqb (j_source_event_id j) (c_source_event_id (a_source admitted))
     && (stored_revision =? c_source_event_revision (a_source admitted))
  then Ok (DuplicateSourceEvent (j_observation_id j) (j_idempotency_key j))
  else Ok (SourceSequenceConflict (j_source_event_id j) stored_revision).

(** Step (4): a position at or below the cursor of this registration. *)
Definition cursor_outcome (admitted : AdmittedObservationV1) (sequence : Z) (c : TargetCursorRow) :
    result (option AppendOutcomeV1) ObservationJournalError :=
  let? same_event :=
    if str_eqb (tc_last_source_event_id c) (c_source_event_id (a_source admitted)) then
      let? last_revision := read_u64 (tc_last_source_event_revision c)
                              (str "last_source_event_revision") in
      Ok (last_revision =? c_source_event_revision (a_source admitted))
    else Ok false in
  if (sequence <? tc_last_admitted_sequence c)
     || ((sequence =? tc_last_admitted_sequence c) && negb same_event) then
    let? last := read_u64 (tc_last_admitted_sequence c) (str "last_admitted_sequence") in
    Ok (Some (RejectedSourceSequenceRegression last))
  else Ok None.

(** Steps (1) to (5): the outcome that answers without a new row. *)
Definition standing_outcome (db : JournalDb) (admitted : AdmittedObservationV1) (sequence : Z) :
    result (option AppendOutcomeV1) ObservationJournalError :=
  match select_by_key (store db) (a_idempotency_key admitted) with
  | Some (d, j) =>
    if negb (str_eqb (j_payload_sha256 j) (p_sha256 (a_payload admitted)))
    then Err (Corrupt JOURNAL_TABLE (str "payload_sha256"))
    else Ok (Some (DuplicateIdempotencyKey (j_observation_id j) (d_state d)))
  | None =>
  match select_by_source (store db) (admitted_stream admitted) sequence with
  | Some j => let? out := source_outcome admitted j in Ok (Some out)
  | None =>
  if withheld_at db (ingress_of_stream (admitted_stream admitted)) sequence
  then Ok (Some (RejectedWithheldSource sequence)) else
  let? regression :=
    match select_target_cursor db (admitted_stream admitted) with
    | Some c => cursor_outcome admitted sequence c
    | None => Ok None
    end in
  match regression with
  | Some out => Ok (Some out)
  | None =>
    let? pressure := read_pressure (store db) (lane_of (a_target admitted)) policy in
    if would_exceed pressure (queue_bytes admitted)
    then Ok (Some (RejectedCapacity (u_queue_items pressure) (u_queue_bytes pressure)))
    else Ok None
  end end end.

(** Step (6): the journal, the delivery and both cursors advance together. *)
Definition append_row (db : JournalDb) (admitted : AdmittedObservationV1) (sequence now : Z) :
    result JournalDb ObservationJournalError :=
  let? revision := sql_i64 (c_source_event_revision (a_source admitted)) (str "source_event_revision") in
  let? _ := sql_i64 (zlen (p_bytes (a_payload admitted))) (str "payload_byte_len") in
  let '(s1, inserted) := insert_journal (journal_row_of admitted) (store db) in
  if negb (inserted =? 1) then
    match head (List.filter (λ j, str_eqb (j_observation_id j) (a_observation_id admitted))
                  (journal (store db))) with
    | Some holder =>
      Err (InvalidObservationId (str "observation id " ++ a_observation_id admitted
             ++ str " is already held by idempotency key " ++ j_idempotency_key holder))
    | None => Err (Corrupt JOURNAL_TABLE (str "idempotency_key"))
    end
  else
    let? _ := sql_i64 (Z.max (queue_bytes admitted) 1) (str "queue_bytes") in
    let s2 := insert_delivery (delivery_row_of admitted now) s1 in
    let db := with_replay_cursors (with_store db s2)
      (upsert_cursor (ingress_of_stream (admitted_stream admitted))
         {| rp_last_admitted_sequence := sequence;
            rp_last_source_event_id := c_source_event_id (a_source admitted);
            rp_last_source_event_revision :=
              u64_to_string (c_source_event_revision (a_source admitted));
            rp_last_settlement_proof_sha256 := Some (c_settlement_proof_sha256 (a_source admitted));
            rp_last_disposition := DispositionAdmitted; rp_updated_at_unix_micros := now |}
         (replay_cursors db)) in
    Ok (with_target_cursors db
          (upsert_target_cursor
             {| tc_key := admitted_stream admitted; tc_last_admitted_sequence := sequence;
                tc_last_source_event_id := c_source_event_id (a_source admitted);
                tc_last_source_event_revision := revision; tc_updated_at_micros := now |}
             (target_cursors db))).

Definition append_admitted_in_transaction (db : JournalDb) (admitted : AdmittedObservationV1) (now : Z) :
    result (AppendOutcomeV1 * JournalDb) ObservationJournalError :=
  let? _ := admitted_validate admitted in
  if now >=? a_deadline_unix_micros admitted
  then Ok (RejectedDeadlineExpired (a_deadline_unix_micros admitted), db) else
  let? sequence := sql_i64 (c_source_sequence (a_source admitted)) (str "source_sequence") in
  let? _ := sql_i64 (t_registration_revision (a_target admitted)) (str "registration_revision") in
  let? _ := reject_non_message db (ingress_of_stream (admitted_stream admitted)) sequence in
  let? standing := standing_outcome db admitted sequence in
  match standing with
  | Some out => Ok (out, db)
  | None =>
    let? db1 := append_row db admitted sequence now in
    Ok (Appended (a_observation_id admitted) (c_source_sequence (a_source admitted)), db1)
  end.

(** [append_admitted] of the port: the clock is the admission instant. *)
Definition append_admitted (db : JournalDb) (admitted : AdmittedObservationV1) :
    result (AppendOutcomeV1 * JournalDb) ObservationJournalError :=
  append_admitted_in_transaction db admitted (a_admitted_at_unix_micros admitted).

Definition record_withheld_at (db : JournalDb) (record : WithheldAdmissionV1) (now : Z) :
    result JournalDb ObservationJournalError :=
  let? _ := withheld_validate record in
  let? sequence := sql_i64 (w_source_sequence record) (str "source_sequence") in
  let? _ := reject_non_message db (ingress_of_withheld record) sequence in
  let db1 := with_withheld db
    (insert_withheld {| wh_record := record; wh_withheld_at_micros := now |} (withheld db)) in
  Ok (with_replay_cursors db1
        (upsert_withheld_cursor (ingress_of_withheld record)
           {| rp_last_admitted_sequence := sequence;
              rp_last_source_event_id := w_source_event_id record;
              rp_last_source_event_revision := w_source_event_revision record;
              rp_last_settlement_proof_sha256 := None; rp_last_disposition := DispositionWithheld;
              rp_updated_at_unix_micros := now |}
           (replay_cursors db1))).

Definition record_non_message (db : JournalDb) (stream : SourceStreamKeyV1)
    (source : CanonicalSettlementReceiptV1) (now : Z) : result JournalDb ObservationJournalError :=
  let? _ := stream_key_validate stream in
  let? _ := settlement_validate source in
  if negb (bool_decide (sk_source_authority stream = c_source_authority source))
     || negb (str_eqb (sk_source_stream stream) (c_source_stream source))
  then Err (UnsettledSource (str "source_stream")) else
  let? sequence := sql_i64 (c_source_sequence source) (str "source_sequence") in
  let key := ingress_of_source stream in
  let conflict := Err (SourceCheckpointConflict (c_source_sequence source)) in
  if journalled_at db key sequence || withheld_at db key sequence then conflict else
  match non_message_at db key sequence with
  | Some previous =>
    if str_eqb (nm_source_event_id previous) (c_source_event_id source)
       && str_eqb (nm_source_event_revision previous) (u64_to_string (c_source_event_revision source))
       && str_eqb (nm_settlement_proof_sha256 previous) (c_settlement_proof_sha256 source)
    then Ok db else conflict
  | None =>
    if match select_cursor db key with
       | Some cursor => rp_last_admitted_sequence cursor >=? sequence
       | None => false
       end
    then conflict else
    let db1 := with_non_messages db
      (non_messages db ++
        [{| nm_key := key; nm_source_sequence := sequence;
            nm_source_event_id := c_source_event_id source;
            nm_source_event_revision := u64_to_string (c_source_event_revision source);
            nm_settlement_proof_sha256 := c_settlement_proof_sha256 source |}]) in
    Ok (with_replay_cursors db1
          (upsert_cursor key
             {| rp_last_admitted_sequence := sequence;
                rp_last_source_event_id := c_source_event_id source;
                rp_last_source_event_revision := u64_to_string (c_source_event_revision source);
                rp_last_settlement_proof_sha256 := Some (c_settlement_proof_sha256 source);
                rp_last_disposition := DispositionNonMessage; rp_updated_at_unix_micros := now |}
             (replay_cursors db1)))
  end.
End admission.

(** ** Reads *)

(** The decisions [validate_replay_identity] collects for one position: the
    event, its revision and the settlement proof where the table keeps one. *)
Definition decisions_at (db : JournalDb) (key : IngressKey) (sequence : Z) :
    list (rstr * rstr * option rstr) :=
  ((λ j, (j_source_event_id j, u64_to_string (j_source_event_revision j), None)) <$>
     List.filter (λ j, bool_decide (ingress_of_journal j = key) && (j_source_sequence j =? sequence))
       (journal (store db)))
  ++ ((λ w, (w_source_event_id (wh_record w), w_source_event_revision (wh_record w), None)) <$>
     List.filter (λ w, bool_decide (ingress_of_withheld (wh_record w) = key)
                       && (w_source_sequence (wh_record w) =? sequence)) (withheld db))
  ++ ((λ n, (nm_source_event_id n, nm_source_event_revision n, Some (nm_settlement_proof_sha256 n))) <$>
     List.filter (λ n, bool_decide (nm_key n = key) && (nm_source_sequence n =? sequence))
       (non_messages db))
  ++ ((λ c, (rp_last_source_event_id (rc_cursor c), rp_last_source_event_revision (rc_cursor c),
             rp_last_settlement_proof_sha256 (rc_cursor c))) <$>
     List.filter (λ c, bool_decide (rc_key c = key)
                       && (rp_last_admitted_sequence (rc_cursor c) =? sequence)) (replay_cursors db)).

(** The loop over those rows, with [found]. *)
Fixpoint identity_loop (rows : list (rstr * rstr * option rstr)) (event_id revision : rstr)
    (sequence : Z) (found : bool) : result unit ObservationJournalError :=
  match rows with
  | [] => if negb found then Err (SourceCheckpointConflict sequence) else Ok tt
  | (event, stored_revision, proof) :: rows =>
    let? _ := check_some proof (λ p, require_sha256 p (str "settlement_proof_sha256")) in
    if negb (str_eqb event event_id) || negb (str_eqb stored_revision revision)
    then Err (SourceCheckpointConflict sequence)
    else identity_loop rows event_id revision sequence true
  end.

Definition validate_replay_identity (db : JournalDb) (stream : SourceStreamKeyV1) (sequence : Z)
    (event_id : rstr) (revision : Z) : result unit ObservationJournalError :=
  let? _ := stream_key_validate stream in
  let? position := sql_i64 sequence (str "source_sequence") in
  identity_loop (decisions_at db (ingress_of_source stream) position) event_id
    (u64_to_string revision) sequence false.

Definition replay_cursor (db : JournalDb) (stream : SourceStreamKeyV1) :
    result (option ReplayCursorV1) ObservationJournalError :=
  let? _ := stream_key_validate stream in
  match select_cursor db (ingress_of_source stream) with
  | None => Ok None
  | Some cursor =>
    if bool_decide (rp_last_disposition cursor = DispositionNonMessage)
       && (is_empty (rp_last_source_event_id cursor)
           || negb (parses_as_u64 (rp_last_source_event_revision cursor))
           || negb (match rp_last_settlement_proof_sha256 cursor with
                    | Some proof => is_sha256 proof
                    | None => false
                    end))
    then Err (Corrupt REPLAY_CURSOR_TABLE (str "non_message_checkpoint")) else
    let? _ := read_u64 (rp_last_admitted_sequence cursor) (str "last_admitted_sequence") in
    Ok (Some cursor)
  end.

Definition lane_pressure (policy : RetentionPolicyV1) (db : JournalDb) (lane : ObservationLaneKeyV1) :
    result QueuePressureV1 ObservationJournalError :=
  let? _ := lane_validate lane in read_pressure (store db) lane policy.
