(* ===== verification/ObservationRetention.v ===== *)
(** * Retention sweeps and privacy deletion

    [tracedecay-memory-observation/src/sqlite/retention.rs] (the sweep, the
    deletion of a source and its verification) with the requests and receipts of
    [src/retention.rs].

    A sweep and a deletion commit one transaction and checkpoint the write-ahead
    log afterwards, so they return the journal next to their result: a failing
    checkpoint is reported although the transaction is durable.  The outcome of
    the checkpoint is an argument. *)
From stdpp Require Import base list numbers sorting strings.
From S2P Require Import Prelude.
From S2P Require Import RustText.
From S2P Require Import Bytes.
From S2P Require Import ObservationState.
From S2P Require Import HygieneReceipt.
From S2P Require Import ObservationEnvelope.
From S2P Require Import ObservationJournal.
From S2P Require Import ObservationAppend.

#[local] Open Scope Z_scope.
#[local] Open Scope rust_scope.

(** ** retention.rs *)
Record RetentionSweepReceiptV1 : Type := {
  payloads_purged : Z;
  deliveries_expired : Z;
  sw_deliveries_forgotten : Z;
  journal_rows_deleted : Z;
  receipts_deleted : Z;
  sw_withheld_rows_deleted : Z;
  sw_wal_truncated : bool;
  remaining : Z;
}.

Record ForgetSourceRequestV1 : Type := {
  fr_forget_source_key : rstr;
  fr_reason : rstr;
  fr_requested_at_unix_micros : Z;
}.

Definition forget_request_validate (self : ForgetSourceRequestV1) : result unit ObservationJournalError :=
  let? _ := require_bounded (fr_forget_source_key self) (str "forget_source_key")
              SOURCE_EVENT_ID_MAX_BYTES in
  require_bounded (fr_reason self) (str "reason") SOURCE_EVENT_ID_MAX_BYTES.

Record ForgetReceiptV1 : Type := {
  fg_forget_source_key : rstr;
  journal_rows_matched : Z;
  payloads_zeroed : Z;
  sanitization_bindings_cleared : Z;
  fg_deliveries_forgotten : Z;
  fg_withheld_rows_deleted : Z;
  receipts_retained : Z;
  fg_wal_truncated : bool;
  completed_at_unix_micros : Z;
}.

Record ForgetVerificationV1 : Type := {
  vf_forget_source_key : rstr;
  journal_rows_matching : Z;
  rows_with_content_remaining : Z;
  rows_with_binding_remaining : Z;
  undelivered_remaining : Z;
  withheld_rows_remaining : Z;
  vf_wal_truncated : bool;
  verified : bool;
}.

(** ** Statements *)

(** [EFFECTIVE_EXPIRY].  A sum past the integer range is a real number in SQL,
    above every instant, so the unbounded sum compares the same way. *)
Definition effective_expiry (policy : RetentionPolicyV1) (j : JournalRow) : Z :=
  Z.min (j_expires_at_micros j) (j_admitted_at_micros j + max_age_for policy (j_retention_class j)).

Definition has_content (j : JournalRow) : bool :=
  match j_payload_bytes j with Some _ => true | None => false end.
Definition has_binding (j : JournalRow) : bool :=
  match j_sanitization j with Some _ => true | None => false end.

(** [PURGE_COLUMNS] and the stamp. *)
Definition purge_row (now : Z) (j : JournalRow) : JournalRow := {|
  j_idempotency_key := j_idempotency_key j; j_observation_id := j_observation_id j;
  j_exact_scope_sha256 := j_exact_scope_sha256 j; j_provider_id := j_provider_id j;
  j_registration_revision := j_registration_revision j;
  j_source_authority := j_source_authority j; j_source_stream := j_source_stream j;
  j_source_event_id := j_source_event_id j; j_source_event_revision := j_source_event_revision j;
  j_source_sequence := j_source_sequence j; j_payload_sha256 := j_payload_sha256 j;
  j_payload_bytes := None; j_extensions_digest := j_extensions_digest j; j_extensions := [];
  j_retention_class := j_retention_class j; j_forget_source_key := j_forget_source_key j;
  j_expires_at_micros := j_expires_at_micros j; j_admitted_at_micros := j_admitted_at_micros j;
  j_deadline_micros := j_deadline_micros j; j_sanitization := None;
  j_content_forgotten_at_micros := Some (default now (j_content_forgotten_at_micros j));
|}.

(** [UPDATE journal SET ... WHERE p]. *)
Definition purge_where (p : JournalRow → bool) (now : Z) (s : Store) : Store :=
  with_journal s ((λ j, if p j then purge_row now j else j) <$> journal s).

Definition purge_content (s : Store) (idempotency_key : rstr) (now : Z) : Store :=
  purge_where (λ j, str_eqb (j_idempotency_key j) idempotency_key) now s.

(** The deletions of one aged-out observation: its receipts and refusals, and
    the journal row with the delivery row that cascades. *)
Definition delete_receipts (s : Store) (observation_id : rstr) : Store * Z :=
  (with_receipts s (List.filter (λ r, negb (str_eqb (r_observation_id r) observation_id)) (receipts s)),
   zlen (List.filter (λ r, str_eqb (r_observation_id r) observation_id) (receipts s))).

Definition delete_refusals (s : Store) (observation_id : rstr) : Store :=
  with_refusals s (List.filter (λ f, negb (str_eqb (f_observation_id f) observation_id)) (refusals s)).

Definition delete_journal (s : Store) (key : rstr) : Store * Z :=
  (with_deliveries
     (with_journal s (List.filter (λ j, negb (str_eqb (j_idempotency_key j) key)) (journal s)))
     (List.filter (λ d, negb (str_eqb (d_idempotency_key d) key)) (deliveries s)),
   zlen (List.filter (λ j, str_eqb (j_idempotency_key j) key) (journal s))).

(** [DELETE_AGED_WITHHELD]. *)
Definition aged_withheld (cutoff limit : Z) (rows : list WithheldRow) : list WithheldRow :=
  take (Z.to_nat limit)
    (sort_by (cmp_leb (λ a b,
       then_with (wh_withheld_at_micros a ?= wh_withheld_at_micros b)
         (then_with (w_source_sequence (wh_record a) ?= w_source_sequence (wh_record b))
            (str_compare (w_receipt_id (wh_record a)) (w_receipt_id (wh_record b))))))
       (List.filter (λ w, wh_withheld_at_micros w <=? cutoff) rows)).

Definition delete_aged_withheld (cutoff limit : Z) (rows : list WithheldRow) : list WithheldRow * Z :=
  let selected := aged_withheld cutoff limit rows in
  (List.filter (λ w, negb (existsb (withheld_conflicts w) selected)) rows,
   zlen (List.filter (λ w, existsb (withheld_conflicts w) selected) rows)).

(** ** Sweeping *)
Section retention.
Context `{Sha256} (policy : RetentionPolicyV1).

(** The joined rows a phase selects, in its order. *)
Definition expired_content (s : Store) (now : Z) : list (DeliveryRow * JournalRow) :=
  List.filter (λ dj, has_content (snd dj) && (effective_expiry policy (snd dj) <=? now)) (joined s).

Definition stranded (s : Store) : list (DeliveryRow * JournalRow) :=
  List.filter (λ dj, negb (has_content (snd dj)) && is_unsettled (d_state (fst dj))) (joined s).

Definition aged_out (s : Store) (cutoff : Z) : list (DeliveryRow * JournalRow) :=
  List.filter (λ dj, match j_content_forgotten_at_micros (snd dj) with
                     | Some instant => instant <=? cutoff
                     | None => false
                     end && is_terminal (d_state (fst dj))) (joined s).

Definition by_admission (limit : Z) (l : list (DeliveryRow * JournalRow)) :
    list (DeliveryRow * JournalRow) :=
  ordered (λ dj, j_admitted_at_micros (snd dj)) (λ dj, j_idempotency_key (snd dj)) limit l.

(** Phase (1): expire what is not terminal, then purge. *)
Fixpoint purge_loop (s : Store) (candidates : list DeliveryRow) (now purged expired : Z) :
    result (Store * Z * Z) ObservationJournalError :=
  match candidates with
  | [] => Ok (s, purged, expired)
  | d :: candidates =>
    let? ended :=
      if negb (is_terminal (d_state d)) then
        let? s1 := expire_delivery s (d_observation_id d) (d_idempotency_key d) (d_attempt_number d)
                     (d_state d) Expired DeadlineExceeded (str "retention_expiry") now in
        Ok (s1, sat_add u32_max expired 1)
      else Ok (s, expired) in
    purge_loop (purge_content (fst ended) (d_idempotency_key d) now) candidates now
      (sat_add u32_max purged 1) (snd ended)
  end.

(** Phase (3): the loop over the rows whose audit window has closed. *)
Fixpoint delete_loop (s : Store) (deletable : list JournalRow) (receipts_n rows_n : Z) :
    result (Store * Z * Z) ObservationJournalError :=
  match deletable with
  | [] => Ok (s, receipts_n, rows_n)
  | j :: deletable =>
    let '(s1, receipts_deleted) := delete_receipts s (j_observation_id j) in
    let? receipts_deleted := read_u32 receipts_deleted (str "receipts_deleted") in
    let '(s2, deleted) := delete_journal (delete_refusals s1 (j_observation_id j)) (j_idempotency_key j) in
    let? deleted := read_u32 deleted (str "journal_rows_deleted") in
    delete_loop s2 deletable (sat_add u32_max receipts_n receipts_deleted)
      (sat_add u32_max rows_n deleted)
  end.

Definition remaining_candidates (db : JournalDb) (now deletable_cutoff : Z) : Z :=
  let purgeable := zlen (List.filter
    (λ j, has_content j && (effective_expiry policy j <=? now)) (journal (store db))) in
  let withheld_n := zlen (List.filter (λ w, wh_withheld_at_micros w <=? deletable_cutoff)
                            (withheld db)) in
  sat_add u64_max
    (sat_add u64_max (sat_add u64_max purgeable (zlen (stranded (store db))))
       (zlen (aged_out (store db) deletable_cutoff))) withheld_n.

(** The transaction of [sweep_expired]. *)
Definition sweep_transaction (db : JournalDb) (now budget : Z) :
    result (RetentionSweepReceiptV1 * JournalDb) ObservationJournalError :=
  let batch := Z.max (Z.min budget (sweep_batch_rows policy)) 1 in
  let deletable_cutoff := i64_sat_sub now (receipt_retention_micros policy) in
  let candidates := fst <$> by_admission batch (expired_content (store db) now) in
  let? _ := decode_selected candidates in
  let? purged := purge_loop (store db) candidates now 0 0 in
  let '(s1, payloads, expired) := purged in
  let unsettled := fst <$> by_admission batch (stranded s1) in
  let? _ := decode_selected unsettled in
  let? s2 := terminalize_deliveries s1 unsettled Forgotten OutcomeCancelled
               (str "content_forgotten") now in
  let deletable := snd <$> ordered (λ dj, default 0 (j_content_forgotten_at_micros (snd dj)))
                             (λ dj, j_idempotency_key (snd dj)) batch (aged_out s2 deletable_cutoff) in
  let? removed := delete_loop s2 deletable 0 0 in
  let '(s3, receipts_n, rows_n) := removed in
  let '(withheld_rows, withheld_n) := delete_aged_withheld deletable_cutoff batch (withheld db) in
  let? withheld_n := read_u32 withheld_n (str "withheld_rows_deleted") in
  let db1 := with_withheld (with_store db s3) withheld_rows in
  Ok ({| payloads_purged := payloads; deliveries_expired := expired;
         sw_deliveries_forgotten := Z.min u32_max (zlen unsettled);
         journal_rows_deleted := rows_n; receipts_deleted := receipts_n;
         sw_withheld_rows_deleted := withheld_n; sw_wal_truncated := false;
         remaining := remaining_candidates db1 now deletable_cutoff |}, db1).

Definition sweep_expired (db : JournalDb) (now budget : Z)
    (checkpoint : result bool ObservationJournalError) :
    result RetentionSweepReceiptV1 ObservationJournalError * JournalDb :=
  match sweep_transaction db now budget with
  | Err e => (Err e, db)
  | Ok (r, db1) =>
    (let? truncated := checkpoint in
     Ok {| payloads_purged := payloads_purged r; deliveries_expired := deliveries_expired r;
           sw_deliveries_forgotten := sw_deliveries_forgotten r;
           journal_rows_deleted := journal_rows_deleted r; receipts_deleted := receipts_deleted r;
           sw_withheld_rows_deleted := sw_withheld_rows_deleted r; sw_wal_truncated := truncated;
           remaining := remaining r |}, db1)
  end.

(** ** Privacy deletion *)
Definition of_source (key : rstr) (j : JournalRow) : bool := str_eqb (j_forget_source_key j) key.

(** The unsettled deliveries of a source, [ORDER BY d.idempotency_key]. *)
Definition undelivered_of (s : Store) (key : rstr) : list (DeliveryRow * JournalRow) :=
  List.filter (λ dj, of_source key (snd dj) && is_unsettled (d_state (fst dj))) (joined s).

Definition by_key (l : list (DeliveryRow * JournalRow)) : list DeliveryRow :=
  fst <$> sort_by (cmp_leb (λ a b, str_compare (d_idempotency_key (fst a)) (d_idempotency_key (fst b)))) l.

(** The receipts of a source: [receipt r JOIN journal j]. *)
Definition retained_receipts (s : Store) (key : rstr) : list (ObservationDeliveryReceiptV1 * JournalRow) :=
  receipts s ≫= (λ r, (λ j, (r, j)) <$>
    List.filter (λ j, str_eqb (j_idempotency_key j) (r_idempotency_key r) && of_source key j) (journal s)).

(** The transaction of [forget_source]. *)
Definition forget_transaction (db : JournalDb) (request : ForgetSourceRequestV1) :
    result (ForgetReceiptV1 * JournalDb) ObservationJournalError :=
  let key := fr_forget_source_key request in
  let matching := List.filter (of_source key) (journal (store db)) in
  let unsettled := by_key (undelivered_of (store db) key) in
  let? _ := decode_selected unsettled in
  let? s1 := terminalize_deliveries (store db) unsettled Forgotten OutcomeCancelled
               (fr_reason request) (fr_requested_at_unix_micros request) in
  let s2 := purge_where (of_source key) (fr_requested_at_unix_micros request) s1 in
  let of_key := λ w, str_eqb (w_forget_source_key (wh_record w)) key in
  let db1 := with_withheld (with_store db s2) (List.filter (λ w, negb (of_key w)) (withheld db)) in
  Ok ({| fg_forget_source_key := key; journal_rows_matched := zlen matching;
         payloads_zeroed := zlen (List.filter has_content matching);
         sanitization_bindings_cleared := zlen (List.filter has_binding matching);
         fg_deliveries_forgotten := Z.min u32_max (zlen unsettled);
         fg_withheld_rows_deleted := zlen (List.filter of_key (withheld db));
         receipts_retained := zlen (retained_receipts s2 key); fg_wal_truncated := false;
         completed_at_unix_micros := fr_requested_at_unix_micros request |}, db1).

Definition forget_source (db : JournalDb) (request : ForgetSourceRequestV1)
    (checkpoint : result bool ObservationJournalError) :
    result ForgetReceiptV1 ObservationJournalError * JournalDb :=
  match (let? _ := forget_request_validate request in forget_transaction db request) with
  | Err e => (Err e, db)
  | Ok (r, db1) =>
    (let? truncated := checkpoint in
     Ok {| fg_forget_source_key := fg_forget_source_key r;
           journal_rows_matched := journal_rows_matched r; payloads_zeroed := payloads_zeroed r;
           sanitization_bindings_cleared := sanitization_bindings_cleared r;
           fg_deliveries_forgotten := fg_deliveries_forgotten r;
           fg_withheld_rows_deleted := fg_withheld_rows_deleted r;
           receipts_retained := receipts_retained r; fg_wal_truncated := truncated;
           completed_at_unix_micros := completed_at_unix_micros r |}, db1)
  end.

Definition verify_forgotten (db : JournalDb) (key : rstr)
    (checkpoint : result bool ObservationJournalError) :
    result ForgetVerificationV1 ObservationJournalError :=
  let? truncated := checkpoint in
  let matching := List.filter (of_source key) (journal (store db)) in
  let content := zlen (List.filter has_content matching) in
  let binding := zlen (List.filter has_binding matching) in
  let undelivered := zlen (undelivered_of (store db) key) in
  let withheld_n := zlen (List.filter (λ w, str_eqb (w_forget_source_key (wh_record w)) key)
                            (withheld db)) in
  Ok {| vf_forget_source_key := key; journal_rows_matching := zlen matching;
        rows_with_content_remaining := content; rows_with_binding_remaining := binding;
        undelivered_remaining := undelivered; withheld_rows_remaining := withheld_n;
        vf_wal_truncated := truncated;
        verified := (content =? 0) && (binding =? 0) && (undelivered =? 0) && (withheld_n =? 0)
                    && truncated |}.
End retention.
