(* ===== verification/ObservationSystem.v ===== *)
(** * The observation journal as a whole

    Admission, delivery, retention and privacy deletion over the same tables:
    the invariant every committed operation preserves, what an admission does,
    what a deletion leaves behind, and what a run of these operations does to
    delivery rows, attempt numbers and watermarks, with sweeps left out where
    they break it. *)
From stdpp Require Import base list numbers sets sorting strings relations.
From S2P Require Import Prelude.
From S2P Require Import RustText.
From S2P Require Import Bytes.
From S2P Require Import ObservationState.
From S2P Require Import HygieneReceipt.
From S2P Require Import ObservationEnvelope.
From S2P Require Import ObservationJournal.
From S2P Require Import ObservationDelivery.
From S2P Require Import ObservationAppend.
From S2P Require Import ObservationRetention.

#[local] Open Scope Z_scope.
#[local] Open Scope rust_scope.

(** ** The invariant *)

(** A journal row and the delivery row written with it. *)
Record paired (j : JournalRow) (d : DeliveryRow) : Prop := {
  pr_key : d_idempotency_key d = j_idempotency_key j;
  pr_observation : d_observation_id d = j_observation_id j;
  pr_provider : d_provider_id d = j_provider_id j;
  pr_registration : d_registration_revision d = j_registration_revision j;
  pr_sequence : d_source_sequence d = j_source_sequence j;
  pr_scope : d_exact_scope_sha256 d = j_exact_scope_sha256 j;
  pr_weight : 1 <= d_queue_bytes d;
}.

(** The queued rows of one registration. *)
Definition in_lane (provider_id : rstr) (registration : Z) (d : DeliveryRow) : bool :=
  str_eqb (d_provider_id d) provider_id && (d_registration_revision d =? registration)
  && is_unsettled (d_state d).

Definition lane_bytes (provider_id : rstr) (registration : Z) (rows : list DeliveryRow) : Z :=
  foldr Z.add 0 (d_queue_bytes <$> List.filter (in_lane provider_id registration) rows).

(** A cursor of the registration stands at or past the position. *)
Definition target_reached (db : JournalDb) (key : StreamKey) (sequence : Z) : Prop :=
  ∃ c, c ∈ target_cursors db ∧ tc_key c = key ∧ sequence <= tc_last_admitted_sequence c.

(** The replay position of the stream stands at or past the position. *)
Definition replay_reached (db : JournalDb) (key : IngressKey) (sequence : Z) : Prop :=
  ∃ c, c ∈ replay_cursors db ∧ rc_key c = key ∧ sequence <= rp_last_admitted_sequence (rc_cursor c).

(** What the decisions, the cursors and the queue owe each other. *)
Record db_ok (policy : RetentionPolicyV1) (db : JournalDb) : Prop := {
  db_paired : Forall2 paired (journal (store db)) (deliveries (store db));
  db_keys : NoDup (j_idempotency_key <$> journal (store db));
  db_observations : NoDup (j_observation_id <$> journal (store db));
  db_leases : Forall lease_columns_ok (deliveries (store db));
  db_receipts : NoDup (slots (receipts (store db)));
  db_streams : streams_ok (store db);
  db_target_keys : NoDup (tc_key <$> target_cursors db);
  db_replay_keys : NoDup (rc_key <$> replay_cursors db);
  db_targets : ∀ j, j ∈ journal (store db) → target_reached db (stream_of j) (j_source_sequence j);
  db_watermarks : ∀ v w, v ∈ recovery (store db) → acknowledged_sequence v = Some w →
    target_reached db (v_key v) w;
  db_replay_targets : ∀ c, c ∈ target_cursors db →
    replay_reached db (ingress_of_stream (tc_key c)) (tc_last_admitted_sequence c);
  db_replay_withheld : ∀ w, w ∈ withheld db →
    replay_reached db (ingress_of_withheld (wh_record w)) (w_source_sequence (wh_record w));
  db_replay_non_messages : ∀ n, n ∈ non_messages db →
    replay_reached db (nm_key n) (nm_source_sequence n);
  db_exclusive : ∀ n, n ∈ non_messages db →
    journalled_at db (nm_key n) (nm_source_sequence n) = false ∧
    withheld_at db (nm_key n) (nm_source_sequence n) = false;
  db_queue : ∀ provider_id registration,
    zlen (List.filter (in_lane provider_id registration) (deliveries (store db)))
      <= max_queue_items policy ∧
    lane_bytes provider_id registration (deliveries (store db)) <= max_queue_bytes policy;
}.

(** ** Pairing *)
Lemma paired_keys js ds : Forall2 paired js ds → keys ds = j_idempotency_key <$> js.
Proof. unfold keys. induction 1 as [|j d js ds [] _ IH]; [done|]. rewrite !fmap_cons. congruence. Qed.

Lemma paired_observations js ds :
  Forall2 paired js ds → d_observation_id <$> ds = j_observation_id <$> js.
Proof. induction 1 as [|j d js ds [] _ IH]; [done|]. rewrite !fmap_cons. congruence. Qed.

Lemma paired_elem js ds d :
  Forall2 paired js ds → d ∈ ds → ∃ j, j ∈ js ∧ paired j d.
Proof.
  intros Hp (i & Hi)%list_elem_of_lookup. destruct (Forall2_lookup_r _ _ _ _ _ Hp Hi) as (j & Hj & Hjd).
  exists j. split; [by eapply list_elem_of_lookup_2|done].
Qed.

Lemma db_store_ok policy db : db_ok policy db → store_ok (store db).
Proof.
  intros Hok. pose proof (db_paired _ _ Hok) as Hp. split.
  - rewrite (paired_keys _ _ Hp). apply Hok.
  - rewrite (paired_observations _ _ Hp). apply Hok.
  - apply Hok.
  - intros d j Hd Hj Hk. destruct (paired_elem _ _ _ Hp Hd) as (j' & Hj' & Hpd).
    rewrite (pr_observation _ _ Hpd). f_equal.
    apply (NoDup_fmap_inj j_idempotency_key (journal (store db))); [apply Hok|done|done|].
    rewrite Hk. apply Hpd.
  - apply Hok.
  - apply Hok.
Qed.

(** The join of the two tables is the pairing itself. *)
Lemma joined_zip s :
  Forall2 paired (journal s) (deliveries s) → NoDup (j_idempotency_key <$> journal s) →
  joined s = zip (deliveries s) (journal s).
Proof.
  intros Hp Hnd. unfold joined.
  assert (∀ j, j ∈ journal s → j ∈ journal s) as Hsub by done. revert Hp Hsub.
  generalize (journal s) at 1 2 5. intros js. generalize (deliveries s). intros ds Hp.
  induction Hp as [|j d js ds Hjd _ IH]; intros Hsub; [done|]. rewrite bind_cons. cbn [zip zip_with].
  rewrite IH by (intros; apply Hsub; by right).
  assert (List.filter (λ x, str_eqb (j_idempotency_key x) (d_idempotency_key d)) (journal s) = [j]) as ->; [|done].
  pose proof (same_key_unique j_idempotency_key (d_idempotency_key d) (journal s) Hnd) as Hl.
  assert (j ∈ List.filter (λ x, str_eqb (j_idempotency_key x) (d_idempotency_key d)) (journal s)) as Hin.
  { apply elem_of_filterb. split; [apply Hsub; left|]. apply bool_decide_eq_true_2. symmetry. apply Hjd. }
  destruct (List.filter _ _) as [|x [|y l]]; [by apply elem_of_nil in Hin| |simpl in Hl; lia].
  by apply list_elem_of_singleton in Hin as ->.
Qed.

Lemma filter_zip_fst {A B} (p : A → bool) (l : list A) (k : list B) :
  length l = length k → (fst <$> List.filter (λ x, p (fst x)) (zip l k)) = List.filter p l.
Proof.
  revert k. induction l as [|a l IH]; intros [|b k]; [done..|]. intros [= Hl]. simpl.
  destruct (p a); simpl; [f_equal|]; by apply IH.
Qed.

Lemma queued_rows s provider_id registration :
  Forall2 paired (journal s) (deliveries s) → NoDup (j_idempotency_key <$> journal s) →
  fst <$> queued s provider_id registration = List.filter (in_lane provider_id registration) (deliveries s).
Proof.
  intros Hp Hnd. unfold queued. rewrite joined_zip by done.
  apply (filter_zip_fst (in_lane provider_id registration)). symmetry. by eapply Forall2_length.
Qed.

(** ** Delivery *)
Lemma paired_after j d d' : paired j d → same_identity d d' → paired j d'.
Proof. intros [] (I1 & I2 & I3 & I4 & I5 & I6 & I7). split; congruence. Qed.

Lemma in_lane_after p r d d' : row_after d d' → in_lane p r d' = true → in_lane p r d = true.
Proof.
  unfold in_lane. intros ((_ & _ & -> & -> & _) & _ & _ & Ht & _) Hl.
  apply andb_true_iff in Hl as [-> Hu]. simpl.
  destruct (is_terminal (d_state d)) eqn:E; [|by destruct (d_state d)].
  rewrite (Ht eq_refl) in Hu. done.
Qed.

(** A queue never grows while its rows follow the state machine. *)
Lemma lane_after p r js ds ds' :
  Forall2 paired js ds → Forall2 (rtc row_step) ds ds' →
  zlen (List.filter (in_lane p r) ds') <= zlen (List.filter (in_lane p r) ds) ∧
  lane_bytes p r ds' <= lane_bytes p r ds.
Proof.
  intros Hp Hs. revert js Hp. unfold lane_bytes.
  induction Hs as [|d d' ds ds' Hd _ IH]; intros js Hp; [done|].
  inversion Hp as [|j ? js' ? Hjd Hps]; subst. destruct (IH js' Hps) as [IH1 IH2].
  apply row_steps_after in Hd. cbn [List.filter].
  pose proof (in_lane_after p r d d' Hd) as Hl.
  pose proof (pr_weight _ _ Hjd). destruct Hd as ((_ & _ & _ & _ & _ & _ & Hq) & _).
  destruct (in_lane p r d') eqn:E'; [rewrite Hl by done|destruct (in_lane p r d)];
    rewrite ?zlen_cons, ?fmap_cons; simpl; lia.
Qed.

Lemma db_ok_evolves policy db s' :
  db_ok policy db → evolves (store db) s' → db_ok policy (with_store db s').
Proof.
  intros Hok He. pose proof (store_ok_evolves _ _ (db_store_ok _ _ Hok) He) as Hs'.
  pose proof (db_paired _ _ Hok) as Hp. pose proof (ev_rows _ _ He) as Hr.
  destruct Hok. split; simpl; try done.
  - rewrite (ev_journal _ _ He). revert Hp Hr. generalize (deliveries s'). clear. intros l Hp. revert l.
    induction Hp as [|j d js ds Hjd _ IH]; intros l Hr; inversion_clear Hr; constructor; auto.
    eapply paired_after; [done|by apply row_steps_after].
  - by rewrite (ev_journal _ _ He).
  - by rewrite (ev_journal _ _ He).
  - apply Hs'.
  - apply Hs'.
  - by apply (ev_streams _ _ He).
  - rewrite (ev_journal _ _ He). done.
  - intros v w Hv Hw. destruct (ev_origin _ _ He v w Hv Hw) as [(v0 & H0 & K0 & E0)|(j & Hj & <- & <-)].
    + rewrite <- K0. by apply (db_watermarks0 v0).
    + by apply db_targets0.
  - intros n Hn. unfold journalled_at. simpl. rewrite (ev_journal _ _ He). by apply db_exclusive0.
  - intros p r. destruct (db_queue0 p r) as [Q1 Q2]. destruct (lane_after p r _ _ _ Hp Hr). lia.
Qed.

(** ** Cursors *)
Lemma merge_target_key new old : tc_key (merge_target new old) = tc_key old.
Proof. unfold merge_target. by destruct (_ >=? _). Qed.

Lemma merge_target_max new old :
  tc_last_admitted_sequence (merge_target new old) =
  Z.max (tc_last_admitted_sequence new) (tc_last_admitted_sequence old).
Proof. unfold merge_target. rewrite Z.geb_leb. destruct (Z.leb_spec (tc_last_admitted_sequence old) (tc_last_admitted_sequence new)); simpl; lia. Qed.

(** Every upsert of the replay table moves positions forward only. *)
Record advances (key : IngressKey) (n : Z) (rows rows' : list ReplayCursorRow) : Prop := {
  av_keys : NoDup (rc_key <$> rows) → NoDup (rc_key <$> rows');
  av_grows : ∀ r, r ∈ rows → ∃ r', r' ∈ rows' ∧ rc_key r' = rc_key r ∧
    rp_last_admitted_sequence (rc_cursor r) <= rp_last_admitted_sequence (rc_cursor r');
  av_covers : ∃ r', r' ∈ rows' ∧ rc_key r' = key ∧ n <= rp_last_admitted_sequence (rc_cursor r');
}.

Lemma upsert_advances merge key new rows :
  (∀ r, rc_key (merge r) = rc_key r) →
  (∀ r, rp_last_admitted_sequence (rc_cursor (merge r)) =
        Z.max (rp_last_admitted_sequence new) (rp_last_admitted_sequence (rc_cursor r))) →
  advances key (rp_last_admitted_sequence new) rows
    (upsert rc_key key merge {| rc_key := key; rc_cursor := new |} rows).
Proof.
  intros Hk Hm. set (m := λ r, rp_last_admitted_sequence (rc_cursor r)). split.
  - by apply upsert_keys.
  - intros r. apply (upsert_grows rc_key key merge _ Hk m). intros x. unfold m. rewrite Hm. lia.
  - apply (upsert_covers rc_key key merge {| rc_key := key; rc_cursor := new |} Hk eq_refl m); [done|]. intros x. unfold m. rewrite Hm. lia.
Qed.

Lemma upsert_cursor_advances key new rows :
  advances key (rp_last_admitted_sequence new) rows (upsert_cursor key new rows).
Proof. by apply upsert_advances. Qed.

Lemma upsert_withheld_cursor_advances key new rows :
  advances key (rp_last_admitted_sequence new) rows (upsert_withheld_cursor key new rows).
Proof.
  apply upsert_advances; intros r; unfold merge_withheld_cursor; rewrite Z.gtb_ltb;
    destruct (Z.ltb_spec (rp_last_admitted_sequence (rc_cursor r)) (rp_last_admitted_sequence new));
    simpl; done || lia.
Qed.

Lemma replay_reached_mono db db' key n rows k m :
  replay_cursors db = rows → advances key n rows (replay_cursors db') →
  replay_reached db k m → replay_reached db' k m.
Proof.
  intros <- Ha (c & Hc & Hk & Hm). destruct (av_grows _ _ _ _ Ha c Hc) as (c' & Hc' & Hk' & Hm').
  exists c'. split; [done|]. split; [congruence|lia].
Qed.

Lemma replay_reached_new db key n rows :
  advances key n rows (replay_cursors db) → replay_reached db key n.
Proof. intros Ha. apply Ha. Qed.

(** ** Admission *)
Section system.
Context `{Sha256} (policy : RetentionPolicyV1).
Context (items_policy : 0 <= max_queue_items policy) (bytes_policy : 0 <= max_queue_bytes policy <= u64_max).

(** The cursors an admitted position writes. *)
Definition admitted_cursor (a : AdmittedObservationV1) (now : Z) : ReplayCursorV1 := {|
  rp_last_admitted_sequence := c_source_sequence (a_source a);
  rp_last_source_event_id := c_source_event_id (a_source a);
  rp_last_source_event_revision := u64_to_string (c_source_event_revision (a_source a));
  rp_last_settlement_proof_sha256 := Some (c_settlement_proof_sha256 (a_source a));
  rp_last_disposition := DispositionAdmitted; rp_updated_at_unix_micros := now |}.

Definition target_cursor_of (a : AdmittedObservationV1) (now : Z) : TargetCursorRow := {|
  tc_key := admitted_stream a; tc_last_admitted_sequence := c_source_sequence (a_source a);
  tc_last_source_event_id := c_source_event_id (a_source a);
  tc_last_source_event_revision := c_source_event_revision (a_source a);
  tc_updated_at_micros := now |}.

(** The journal with one more observation. *)
Definition appended_db (db : JournalDb) (a : AdmittedObservationV1) (now : Z) : JournalDb := {|
  store := {| journal := journal (store db) ++ [journal_row_of a];
              deliveries := deliveries (store db) ++ [delivery_row_of a now];
              receipts := receipts (store db); refusals := refusals (store db);
              orphans := orphans (store db); recovery := recovery (store db) |};
  target_cursors := upsert_target_cursor (target_cursor_of a now) (target_cursors db);
  replay_cursors := upsert_cursor (ingress_of_stream (admitted_stream a)) (admitted_cursor a now)
                      (replay_cursors db);
  withheld := withheld db; non_messages := non_messages db |}.

(** No journal row has the key, the observation or the position. *)
Definition unclaimed (db : JournalDb) (a : AdmittedObservationV1) : Prop :=
  ∀ j, j ∈ journal (store db) →
    j_idempotency_key j ≠ a_idempotency_key a ∧ j_observation_id j ≠ a_observation_id a ∧
    (stream_of j, j_source_sequence j) ≠ (admitted_stream a, c_source_sequence (a_source a)).

Lemma sql_i64_ok v f w : sql_i64 v f = Ok w → w = v ∧ v <= i64_max.
Proof. unfold sql_i64. destruct (Z.leb_spec v i64_max); [|done]. intros [= <-]. done. Qed.

Lemma journal_conflicts_spec j j' :
  journal_conflicts j j' = false ↔
  j_idempotency_key j ≠ j_idempotency_key j' ∧ j_observation_id j ≠ j_observation_id j' ∧
  (stream_of j, j_source_sequence j) ≠ (stream_of j', j_source_sequence j').
Proof.
  unfold journal_conflicts, str_eqb. rewrite !orb_false_iff, andb_false_iff, !bool_decide_eq_false, Z.eqb_neq.
  split; [|intros (? & ? & Hp)].
  - intros ([? ?] & [Hs|Hs]); split_and!; try done; congruence.
  - split; [done|]. destruct (decide (stream_of j = stream_of j')); [right|by left]. congruence.
Qed.

Lemma append_row_spec db a now db' :
  db_ok policy db → append_row db a (c_source_sequence (a_source a)) now = Ok db' →
  unclaimed db a ∧ c_source_event_revision (a_source a) <= i64_max ∧ db' = appended_db db a now.
Proof.
  intros Hok. unfold append_row. destruct (sql_i64 (c_source_event_revision _) _) as [rev|] eqn:Er; [|done].
  apply sql_i64_ok in Er as [-> Hrev]. destruct (sql_i64 (zlen _) _); [|done].
  unfold insert_journal. destruct (existsb _ _) eqn:Ec.
  { simpl. by destruct (head _). }
  simpl. destruct (sql_i64 (Z.max _ _) _); [|done]. rewrite existsb_false in Ec.
  assert (unclaimed db a) as Hu.
  { intros j Hj. apply Ec, journal_conflicts_spec in Hj as (? & ? & ?). split_and!; auto; congruence. }
  unfold insert_delivery. simpl. destruct (existsb _ _) eqn:Ed.
  { apply existsb_spec in Ed as (d & Hd & Ed). exfalso.
    destruct (paired_elem _ _ _ (db_paired _ _ Hok) Hd) as (j & Hj & Hp).
    destruct (Hu j Hj) as (N1 & N2 & _). destruct Hp as [P1 P2].
    apply orb_true_iff in Ed as [Ed|Ed]; row_tests; simpl in *; congruence. }
  intros [= <-]. done.
Qed.

(** What the checks before the insertion established. *)
Record admissible (db : JournalDb) (a : AdmittedObservationV1) : Prop := {
  ad_key : select_by_key (store db) (a_idempotency_key a) = None;
  ad_source : select_by_source (store db) (admitted_stream a) (c_source_sequence (a_source a)) = None;
  ad_withheld : withheld_at db (ingress_of_stream (admitted_stream a)) (c_source_sequence (a_source a)) = false;
  ad_cursor : ∀ c, select_target_cursor db (admitted_stream a) = Some c →
    tc_last_admitted_sequence c <= c_source_sequence (a_source a) ∧
    (tc_last_admitted_sequence c = c_source_sequence (a_source a) →
      tc_last_source_event_id c = c_source_event_id (a_source a));
  ad_items : zlen (queued (store db) (t_provider_id (a_target a)) (t_registration_revision (a_target a)))
               < max_queue_items policy;
  ad_bytes : foldr Z.add 0 ((λ dj, d_queue_bytes (fst dj)) <$>
               queued (store db) (t_provider_id (a_target a)) (t_registration_revision (a_target a)))
               + queue_bytes a <= max_queue_bytes policy;
}.

Lemma read_pressure_fits s a pressure :
  1 <= queue_bytes a <= 3670016 → read_pressure s (lane_of (a_target a)) policy = Ok pressure →
  would_exceed pressure (queue_bytes a) = false →
  zlen (queued s (t_provider_id (a_target a)) (t_registration_revision (a_target a)))
    < max_queue_items policy ∧
  foldr Z.add 0 ((λ dj, d_queue_bytes (fst dj)) <$>
    queued s (t_provider_id (a_target a)) (t_registration_revision (a_target a))) + queue_bytes a
    <= max_queue_bytes policy.
Proof.
  unfold read_pressure. intros Hq Hr Hw.
  destruct (sql_i64 _ _) as [registration|] eqn:Er; [|done]. apply sql_i64_ok in Er as [-> _].
  unfold sql_sum in Hr. simpl in Hr. set (total := foldr _ _ _) in *.
  destruct (Z.leb_spec total i64_max); [|done]. simpl in Hr. unfold read_u64 in Hr.
  destruct (0 <=? zlen _); [|done]. destruct (Z.leb_spec 0 total); [|done]. injection Hr as <-.
  unfold would_exceed in Hw. simpl in Hw. rewrite Z.geb_leb, Z.gtb_ltb in Hw.
  apply orb_false_iff in Hw as [W1%Z.leb_gt W2%Z.ltb_ge]. unfold sat_add, u64_max, i64_max in *.
  split; [done|]. destruct bytes_policy. lia.
Qed.

Lemma standing_none db a :
  1 <= queue_bytes a <= 3670016 →
  standing_outcome policy db a (c_source_sequence (a_source a)) = Ok None → admissible db a.
Proof.
  unfold standing_outcome. intros Hq Hs.
  destruct (select_by_key _ _) as [[d j]|] eqn:E1; [by destruct (negb _)|].
  destruct (select_by_source _ _ _) as [j|] eqn:E2; [by destruct (source_outcome a j)|].
  destruct (withheld_at _ _ _) eqn:E3; [done|].
  destruct (match select_target_cursor db _ with Some c => _ | None => _ end) as [[out|]|] eqn:E4; [done| |done].
  destruct (read_pressure _ _ _) as [pressure|] eqn:E5; [|done].
  destruct (would_exceed _ _) eqn:E6; [done|].
  destruct (read_pressure_fits _ _ _ Hq E5 E6) as [H1 H2]. split; try done.
  intros c Ec. rewrite Ec in E4. unfold cursor_outcome, str_eqb in E4.
  case_bool_decide as Ee; [|].
  - destruct (read_u64 (tc_last_source_event_revision c) _); [|done].
    destruct (_ || _) eqn:Eo; [by destruct (read_u64 _ _)|].
    apply orb_false_iff in Eo as [Eo%Z.ltb_ge _]. by split; [lia|].
  - destruct (_ || _) eqn:Eo; [by destruct (read_u64 _ _)|].
    apply orb_false_iff in Eo as [Eo%Z.ltb_ge En]. apply andb_false_iff in En as [En%Z.eqb_neq|]; [|done].
    split; lia.
Qed.

(** An admission either answers without changing anything or inserts one row. *)
Lemma append_cases db a now out db' :
  append_admitted_in_transaction policy db a now = Ok (out, db') →
  (db' = db ∧ ∀ o n, out ≠ Appended o n) ∨
  (out = Appended (a_observation_id a) (c_source_sequence (a_source a)) ∧
   envelope_wf a ∧ now < a_deadline_unix_micros a ∧
   non_message_at db (ingress_of_stream (admitted_stream a)) (c_source_sequence (a_source a)) = None ∧
   admissible db a ∧ append_row db a (c_source_sequence (a_source a)) now = Ok db').
Proof.
  unfold append_admitted_in_transaction. intros Ha.
  destruct (admitted_validate a) as [[]|] eqn:Ev; [|done]. apply admitted_facts in Ev.
  rewrite Z.geb_leb in Ha. destruct (Z.leb_spec (a_deadline_unix_micros a) now).
  { injection Ha as <- <-. left. done. }
  destruct (sql_i64 (c_source_sequence _) _) as [sequence|] eqn:Es; [|done]. apply sql_i64_ok in Es as [-> Hs].
  destruct (sql_i64 (t_registration_revision _) _) as [registration|]; [|done].
  unfold reject_non_message in Ha.
  destruct (non_message_at _ _ _) eqn:En; [by destruct (read_u64 _ _)|].
  destruct (standing_outcome _ _ _ _) as [[o|]|] eqn:Eo; [| |done].
  - injection Ha as <- <-. left. split; [done|]. intros i n ->. unfold standing_outcome in Eo.
    destruct (select_by_key _ _) as [[d j]|]; [by destruct (negb _)|].
    destruct (select_by_source _ _ _) as [j|].
    { unfold source_outcome in Eo. destruct (read_u64 _ _); [|done]. by destruct (_ && _). }
    destruct (withheld_at _ _ _); [done|]. destruct (select_target_cursor _ _) as [c|].
    + destruct (cursor_outcome _ _ _) as [[x|]|] eqn:Ec; [|by destruct (read_pressure _ _ _) as [p|]; [destruct (would_exceed p _)|]|done].
      injection Eo as ->. unfold cursor_outcome in Ec.
      destruct (if str_eqb _ _ then _ else _) as [b|]; [|done]. destruct (_ || _); [|done].
      by destruct (read_u64 _ _).
    + by destruct (read_pressure _ _ _) as [p|]; [destruct (would_exceed p _)|].
  - destruct (append_row _ _ _ _) as [db1|] eqn:Er; [|done]. injection Ha as <- <-. right.
    split_and!; try done. apply standing_none; [apply Ev|done].
Qed.

Lemma journal_row_stream a : stream_of (journal_row_of a) = admitted_stream a.
Proof. done. Qed.

Lemma new_row_paired a now : envelope_wf a → paired (journal_row_of a) (delivery_row_of a now).
Proof. intros Hwf. pose proof (wf_queue _ Hwf). split; simpl; try done. lia. Qed.

Lemma appended_target db a now key n :
  target_reached db key n → target_reached (appended_db db a now) key n.
Proof.
  intros (c & Hc & <- & Hn).
  destruct (upsert_grows tc_key (tc_key (target_cursor_of a now)) (merge_target (target_cursor_of a now))
    (target_cursor_of a now) (merge_target_key _) tc_last_admitted_sequence (target_cursors db) c) as (c' & Hc' & Hk & Hl);
    [|done|].
  { intros x. rewrite merge_target_max. lia. }
  exists c'. split_and!; [done|done|lia].
Qed.

Lemma appended_target_new db a now :
  target_reached (appended_db db a now) (admitted_stream a) (c_source_sequence (a_source a)).
Proof.
  apply (upsert_covers tc_key (tc_key (target_cursor_of a now)) (merge_target (target_cursor_of a now))
    (target_cursor_of a now) (merge_target_key _) eq_refl tc_last_admitted_sequence (target_cursors db)); [done|].
  intros x. rewrite merge_target_max. simpl. lia.
Qed.

(** A cursor of the new table is an old one or stands at the new position. *)
Lemma appended_target_origin db a now c :
  c ∈ target_cursors (appended_db db a now) →
  c ∈ target_cursors db ∨
  (tc_key c = admitted_stream a ∧ tc_last_admitted_sequence c = c_source_sequence (a_source a)).
Proof.
  intros [[Hc _]|[(r & Hr & Hk & ->)| ->]]%upsert_elem; [by left| |by right].
  unfold merge_target. destruct (_ >=? _); [by right|by left].
Qed.

Lemma appended_replay db a now key n :
  replay_reached db key n → replay_reached (appended_db db a now) key n.
Proof. eapply replay_reached_mono; [done|]. apply upsert_cursor_advances. Qed.

Lemma journalled_at_appended db a now key n :
  journalled_at (appended_db db a now) key n =
  journalled_at db key n
  || (bool_decide (ingress_of_stream (admitted_stream a) = key) && (c_source_sequence (a_source a) =? n)).
Proof. unfold journalled_at. simpl. rewrite existsb_app. simpl. by rewrite orb_false_r. Qed.

(** The queue of the lane takes the new row in, the other lanes are as before. *)
Lemma appended_lane db a now p r :
  db_ok policy db → envelope_wf a → admissible db a →
  zlen (List.filter (in_lane p r) (deliveries (store db) ++ [delivery_row_of a now]))
    <= max_queue_items policy ∧
  lane_bytes p r (deliveries (store db) ++ [delivery_row_of a now]) <= max_queue_bytes policy.
Proof.
  intros Hok Hwf Had. destruct (db_queue _ _ Hok p r) as [Q1 Q2]. unfold lane_bytes in *.
  rewrite List.filter_app, zlen_app, fmap_app, sum_nonneg_app. simpl.
  destruct (in_lane p r (delivery_row_of a now)) eqn:El; [|simpl; unfold zlen at 2; simpl; lia].
  unfold in_lane in El. row_tests. simpl in *. subst p r.
  pose proof (queued_rows (store db) (t_provider_id (a_target a)) (t_registration_revision (a_target a))
    (db_paired _ _ Hok) (db_keys _ _ Hok)) as Hqr.
  pose proof (ad_items _ _ Had) as Hi. pose proof (ad_bytes _ _ Had) as Hb. pose proof (wf_queue _ Hwf).
  change (λ dj : DeliveryRow * JournalRow, d_queue_bytes (fst dj))
    with (d_queue_bytes ∘ (fst : DeliveryRow * JournalRow → DeliveryRow)) in Hb.
  rewrite list_fmap_compose in Hb. rewrite <- Hqr in *. unfold zlen in *. rewrite length_fmap in *.
  simpl. lia.
Qed.
Lemma non_message_at_none db key n row :
  non_message_at db key n = None → row ∈ non_messages db → ¬ (nm_key row = key ∧ nm_source_sequence row = n).
Proof.
  intros Hn Hr [E1 E2]. pose proof (head_filter_none _ _ _ Hn Hr) as Hf. simpl in Hf.
  by rewrite bool_decide_eq_true_2, (proj2 (Z.eqb_eq _ _) E2) in Hf.
Qed.

Lemma db_ok_appended db a now :
  db_ok policy db → envelope_wf a → 0 <= c_source_sequence (a_source a) → admissible db a →
  non_message_at db (ingress_of_stream (admitted_stream a)) (c_source_sequence (a_source a)) = None →
  unclaimed db a → db_ok policy (appended_db db a now).
Proof.
  intros Hok Hwf Hnn Had Hnm Hu. pose proof Hok as []. split; simpl.
  - apply Forall2_app; [done|]. constructor; [by apply new_row_paired|constructor].
  - apply NoDup_fmap_snoc; [done|]. intros j Hj. apply (Hu j Hj).
  - apply NoDup_fmap_snoc; [done|]. intros j Hj. apply (Hu j Hj).
  - apply Forall_app. split; [done|]. constructor; [|constructor].
    unfold lease_columns_ok. simpl. split_and!; split; try done; intros Hx; by destruct (is_Some_None Hx).
  - done.
  - destruct db_streams0. split; simpl; [|by apply Forall_app; split; [|repeat constructor]|done].
    apply NoDup_fmap_snoc; [done|]. intros j Hj. apply (Hu j Hj).
  - apply upsert_keys; [apply merge_target_key|done|done].
  - by apply (upsert_cursor_advances _ _ _).
  - intros j [Hj| ->%list_elem_of_singleton]%elem_of_app; [by apply appended_target, db_targets0|].
    rewrite journal_row_stream. apply appended_target_new.
  - intros v w Hv Hw. by eapply appended_target, db_watermarks0.
  - intros c [Hc|[-> ->]]%appended_target_origin; [by apply appended_replay, db_replay_targets0|].
    exact (av_covers _ _ _ _ (upsert_cursor_advances (ingress_of_stream (admitted_stream a))
             (admitted_cursor a now) (replay_cursors db))).
  - intros w Hw. by apply appended_replay, db_replay_withheld0.
  - intros n Hn. by apply appended_replay, db_replay_non_messages0.
  - intros n Hn. destruct (db_exclusive0 n Hn) as [X1 X2]. split; [|done].
    rewrite journalled_at_appended, X1. simpl. apply not_true_iff_false. intros Ht. bools.
    apply (non_message_at_none _ _ _ n Hnm Hn). split; [done|]. by symmetry; apply Z.eqb_eq.
  - intros p r. by apply appended_lane.
Qed.

Lemma db_ok_append db a now out db' :
  db_ok policy db → 0 <= c_source_sequence (a_source a) →
  append_admitted_in_transaction policy db a now = Ok (out, db') → db_ok policy db'.
Proof.
  intros Hok Hnn [[-> _]|(-> & Hwf & _ & Hnm & Had & Hr)]%append_cases; [done|].
  destruct (append_row_spec _ _ _ _ Hok Hr) as (Hu & _ & ->). by apply db_ok_appended.
Qed.

(** ** Withheld and non-message positions *)
Lemma db_ok_withheld db w now db' :
  db_ok policy db → record_withheld_at db w now = Ok db' → db_ok policy db'.
Proof.
  intros Hok. unfold record_withheld_at. destruct (withheld_validate w); [|done].
  destruct (sql_i64 _ _) as [sequence|] eqn:Es; [|done]. apply sql_i64_ok in Es as [-> _].
  unfold reject_non_message. destruct (non_message_at _ _ _) eqn:En; [by destruct (read_u64 _ _)|].
  intros [= <-]. set (new := {| wh_record := w; wh_withheld_at_micros := now |}).
  match goal with |- context [upsert_withheld_cursor _ ?c _] => set (cursor := c) end.
  pose proof (upsert_withheld_cursor_advances (ingress_of_withheld w) cursor (replay_cursors db)) as Hav.
  assert (∀ x, x ∈ insert_withheld new (withheld db) → x ∈ withheld db ∨ x = new) as Hin.
  { intros x. unfold insert_withheld. destruct (existsb _ _); [by left|].
    intros [Hx| ->%list_elem_of_singleton]%elem_of_app; [by left|by right]. }
  destruct Hok. split; simpl; try done.
  - by apply Hav.
  - intros c Hc. eapply replay_reached_mono; [done|exact Hav|]. by apply db_replay_targets0.
  - intros x [Hx| ->]%Hin; [|by eapply replay_reached_new].
    eapply replay_reached_mono; [done|exact Hav|]. by apply db_replay_withheld0.
  - intros n Hn. eapply replay_reached_mono; [done|exact Hav|]. by apply db_replay_non_messages0.
  - intros n Hn. destruct (db_exclusive0 n Hn) as [X1 X2]. split; [done|].
    unfold withheld_at in *. simpl. rewrite existsb_false in X2 |- *. intros x [Hx| ->]%Hin; [by apply X2|].
    apply not_true_iff_false. intros Ht. bools. apply (non_message_at_none _ _ _ n En Hn).
    split; [done|]. by symmetry; apply Z.eqb_eq.
Qed.

Lemma db_ok_non_message db stream source now db' :
  db_ok policy db → record_non_message db stream source now = Ok db' → db_ok policy db'.
Proof.
  intros Hok. unfold record_non_message. destruct (stream_key_validate _); [|done].
  destruct (settlement_validate _); [|done]. destruct (_ || _); [done|].
  destruct (sql_i64 _ _) as [sequence|] eqn:Es; [|done]. apply sql_i64_ok in Es as [-> _].
  destruct (journalled_at _ _ _ || withheld_at _ _ _) eqn:Ed; [done|].
  apply orb_false_iff in Ed as [Ej Ew]. destruct (non_message_at _ _ _) as [previous|] eqn:En.
  { destruct (_ && _); [|done]. by intros [= <-]. }
  destruct (match select_cursor db _ with Some _ => _ | None => _ end); [done|]. intros [= <-].
  match goal with |- context [upsert_cursor _ ?c _] => set (cursor := c) end.
  pose proof (upsert_cursor_advances (ingress_of_source stream) cursor (replay_cursors db)) as Hav.
  destruct Hok. split; simpl; try done.
  - by apply Hav.
  - intros c Hc. eapply replay_reached_mono; [done|exact Hav|]. by apply db_replay_targets0.
  - intros w Hw. eapply replay_reached_mono; [done|exact Hav|]. by apply db_replay_withheld0.
  - intros n [Hn| ->%list_elem_of_singleton]%elem_of_app; [|by eapply replay_reached_new].
    eapply replay_reached_mono; [done|exact Hav|]. by apply db_replay_non_messages0.
  - intros n [Hn| ->%list_elem_of_singleton]%elem_of_app; [by apply db_exclusive0|done].
Qed.

(** ** Retention *)

(** The columns that identify a journal row. *)
Definition j_identity (j : JournalRow) : rstr * rstr * StreamKey * Z :=
  (j_idempotency_key j, j_observation_id j, stream_of j, j_source_sequence j).

Lemma ingress_of_identity j : ingress_of_journal j = ingress_of_stream (stream_of j).
Proof. done. Qed.

Lemma identity_inv j j' :
  j_identity j' = j_identity j →
  j_idempotency_key j' = j_idempotency_key j ∧ j_observation_id j' = j_observation_id j ∧
  stream_of j' = stream_of j ∧ j_source_sequence j' = j_source_sequence j.
Proof. unfold j_identity. intros E. repeat apply pair_eq in E as [E ?]. done. Qed.

Lemma paired_identity j j' d : j_identity j' = j_identity j → paired j d → paired j' d.
Proof. intros [=] []. split; simpl in *; congruence. Qed.

Lemma identity_fmap {B} (g : JournalRow → B) js js' :
  (∀ j j', j_identity j' = j_identity j → g j' = g j) →
  Forall2 (λ j j', j_identity j' = j_identity j) js js' → g <$> js' = g <$> js.
Proof. intros Hg. induction 1 as [|j j' js js' Hj _ IH]; [done|]. rewrite !fmap_cons, IH. f_equal. auto. Qed.

Lemma identity_elem js js' j' :
  Forall2 (λ j j', j_identity j' = j_identity j) js js' → j' ∈ js' → ∃ j, j ∈ js ∧ j_identity j' = j_identity j.
Proof.
  intros Hf (i & Hi)%list_elem_of_lookup. destruct (Forall2_lookup_r _ _ _ _ _ Hf Hi) as (j & Hj & E).
  exists j. split; [by eapply list_elem_of_lookup_2|done].
Qed.

(** Rewriting content columns keeps the invariant. *)
Lemma db_ok_content db js' :
  db_ok policy db → Forall2 (λ j j', j_identity j' = j_identity j) (journal (store db)) js' →
  db_ok policy (with_store db (with_journal (store db) js')).
Proof.
  intros Hok Hf. pose proof (λ j, identity_elem _ _ j Hf) as Hel. destruct Hok. split; simpl; try done.
  - revert db_paired0. clear -Hf. generalize (deliveries (store db)).
    induction Hf as [|j j' js js' Hj _ IH]; intros l Hp; inversion_clear Hp; constructor;
      [by eapply paired_identity|auto].
  - by rewrite (identity_fmap j_idempotency_key _ _ ltac:(by intros ? ? [=]) Hf).
  - by rewrite (identity_fmap j_observation_id _ _ ltac:(by intros ? ? [=]) Hf).
  - destruct db_streams0 as [S1 S2 S3]. split; simpl; [| |done].
    + rewrite (identity_fmap (λ j, (stream_of j, j_source_sequence j)) (journal (store db)));
        [done| |done]. by intros ? ? (_ & _ & -> & ->)%identity_inv.
    + rewrite Forall_forall in S2 |- *. intros j' (j & Hj & (_ & _ & _ & ->)%identity_inv)%Hel. auto.
  - intros j' (j & Hj & (_ & _ & -> & ->)%identity_inv)%Hel. by apply db_targets0.
  - intros n Hn. destruct (db_exclusive0 n Hn) as [X1 X2]. split; [|done].
    unfold journalled_at in *. simpl. rewrite existsb_false in X1 |- *. intros j' (j & Hj & E)%Hel.
    apply identity_inv in E as (_ & _ & E3 & E4). rewrite ingress_of_identity, E3, E4. by apply X1.
Qed.

Lemma purge_where_ok db s p now :
  db_ok policy (with_store db s) → db_ok policy (with_store db (purge_where p now s)).
Proof.
  intros Hok. apply (db_ok_content (with_store db s)); [done|]. simpl.
  induction (journal s) as [|j js IH]; simpl; constructor; [by destruct (p j)|done].
Qed.

(** Rows selected from the join: each delivery once, with its journal row. *)
Lemma selected_rows s p l :
  store_ok s → l ⊆+ List.filter p (joined s) → decode_selected (fst <$> l) = Ok tt →
  NoDup (keys (fst <$> l)) ∧
  Forall (λ d, d ∈ deliveries s ∧
    (∃ j, j ∈ journal s ∧ j_idempotency_key j = d_idempotency_key d ∧ p (d, j) = true) ∧
    d_attempt_number d <= u32_max) (fst <$> l).
Proof.
  intros Hok Hl Hdec%decode_selected_ok.
  assert (l ⊆+ joined s) as Hlj by (etrans; [exact Hl|apply filter_submseteq]). split.
  - unfold keys. rewrite <- list_fmap_compose. eapply submseteq_NoDup; [by apply fmap_submseteq, Hlj|].
    by apply joined_keys_NoDup; apply Hok.
  - rewrite Forall_forall in Hdec |- *. intros d Hd. split_and!; [..|by apply Hdec];
      apply list_elem_of_fmap in Hd as ([d' j] & -> & Hdj); simpl;
      pose proof (elem_of_submseteq _ _ _ Hdj Hl) as [Hin Hp]%elem_of_filterb;
      apply joined_elem in Hin as (Hd & Hj & Hk); [done|by exists j].
Qed.

Lemma unsettled_open st : is_unsettled st = negb (is_terminal st).
Proof. by destruct st. Qed.

Lemma expire_keeps s s1 d next x :
  evolves s s1 → NoDup (keys (deliveries s)) →
  (∀ x', x' ∈ deliveries s1 →
    (d_idempotency_key x' = d_idempotency_key d ∧ d_state x' = next) ∨
    (d_idempotency_key x' ≠ d_idempotency_key d ∧ x' ∈ deliveries s)) →
  x ∈ deliveries s → d_idempotency_key x ≠ d_idempotency_key d → x ∈ deliveries s1.
Proof.
  intros He Hnd Hrows Hx Hne. destruct (rows_forward s s1 x He Hx) as (x1 & Hx1 & ((Hk & _) & _)).
  destruct (Hrows x1 Hx1) as [[Ek _]|[_ Hx1s]]; [congruence|].
  by rewrite (keys_inj (deliveries s) x1 x) by (try done; congruence).
Qed.

Lemma purge_loop_ok db candidates s now purged expired s' purged' expired' :
  purge_loop s candidates now purged expired = Ok (s', purged', expired') →
  db_ok policy (with_store db s) → NoDup (keys candidates) →
  Forall (λ d, d ∈ deliveries s ∧ d_attempt_number d <= u32_max) candidates →
  db_ok policy (with_store db s').
Proof.
  revert s purged expired. induction candidates as [|d candidates IH];
    intros s purged expired Hp Hok Hnd Hall; cbn [purge_loop] in Hp; [by injection Hp as <- _ _|].
  apply Forall_cons in Hall as [[Hd Ha] Hall]. apply NoDup_cons in Hnd as [Hk Hnd].
  assert (∀ x, x ∈ candidates → d_idempotency_key x ≠ d_idempotency_key d) as Hne.
  { intros x Hx E. apply Hk. rewrite <- E. by apply (list_elem_of_fmap_2 d_idempotency_key). }
  destruct (is_terminal (d_state d)) eqn:Et; cbn [negb] in Hp.
  - eapply IH; [exact Hp|by apply purge_where_ok|done|done].
  - destruct (expire_delivery _ _ _ _ _ _ _ _ _) as [s1|] eqn:Ee; [|done]. cbn [fst snd] in Hp.
    pose proof (ok_keys _ (db_store_ok _ _ Hok)) as Hks. simpl in Hks.
    destruct (expire_delivery_spec _ _ _ _ _ _ _ Ee Hks Hd Et Ha) as [He Hrows]; [by left|].
    eapply IH; [exact Hp| |done|].
    + apply purge_where_ok. by apply (db_ok_evolves policy (with_store db s)).
    + rewrite Forall_forall in Hall |- *. intros x Hx. destruct (Hall x Hx) as [Hxs Hxa].
      split; [|done]. apply (expire_keeps s s1 d Expired); auto.
Qed.

(** *** Deletions *)
Lemma lane_filter p r q js ds :
  Forall2 paired js ds →
  zlen (List.filter (in_lane p r) (List.filter q ds)) <= zlen (List.filter (in_lane p r) ds) ∧
  lane_bytes p r (List.filter q ds) <= lane_bytes p r ds.
Proof.
  unfold lane_bytes. induction 1 as [|j d js ds Hjd _ [IH1 IH2]]; [done|]. pose proof (pr_weight _ _ Hjd).
  cbn [List.filter]. destruct (q d); cbn [List.filter]; destruct (in_lane p r d);
    rewrite ?zlen_cons, ?fmap_cons; simpl; lia.
Qed.

Lemma journalled_at_sub db db' key n :
  (∀ j, j ∈ journal (store db') → j ∈ journal (store db)) → journalled_at db key n = false →
  journalled_at db' key n = false.
Proof. unfold journalled_at. rewrite !existsb_false. auto. Qed.

Lemma db_ok_delete db s observation_id key :
  db_ok policy (with_store db s) →
  db_ok policy (with_store db
    (fst (delete_journal (delete_refusals (fst (delete_receipts s observation_id)) observation_id) key))).
Proof.
  intros Hok. assert (∀ j, j ∈ List.filter (λ j, negb (str_eqb (j_idempotency_key j) key)) (journal s) → j ∈ journal s) as Hsub
    by (intros j [Hj _]%elem_of_filterb; done).
  destruct Hok; simpl in *. split; simpl; try done.
  - eapply Forall2_filter; [|done]. intros j d Hjd. by rewrite (pr_key _ _ Hjd).
  - by apply NoDup_fmap_filter.
  - by apply NoDup_fmap_filter.
  - rewrite Forall_forall in db_leases0 |- *. intros d [Hd _]%elem_of_filterb. auto.
  - by apply NoDup_fmap_filter.
  - destruct db_streams0 as [S1 S2 S3]. split; simpl in *; [by apply NoDup_fmap_filter| |done].
    rewrite Forall_forall in S2 |- *. auto.
  - intros j Hj%Hsub. exact (db_targets0 j Hj).
  - intros n Hn. destruct (db_exclusive0 n Hn) as [X1 X2]. split; [|done].
    eapply journalled_at_sub; [|exact X1]. done.
  - intros p r. destruct (db_queue0 p r). destruct (lane_filter p r (λ d, negb (str_eqb (d_idempotency_key d) key)) _ _ db_paired0). lia.
Qed.

Lemma delete_loop_ok db deletable s n m s' n' m' :
  delete_loop s deletable n m = Ok (s', n', m') →
  db_ok policy (with_store db s) → db_ok policy (with_store db s').
Proof.
  revert s n m. induction deletable as [|j deletable IH]; intros s n m Hd Hok; cbn [delete_loop] in Hd;
    [by injection Hd as <- _ _|].
  pose proof (db_ok_delete db s (j_observation_id j) (j_idempotency_key j) Hok) as Hdel.
  destruct (delete_receipts s _) as [s1 rd]. cbn [fst] in Hdel. destruct (read_u32 rd _); [|done].
  destruct (delete_journal _ _) as [s2 jd]. destruct (read_u32 jd _); [|done]. by eapply IH.
Qed.

Lemma db_ok_withheld_filter db p :
  db_ok policy db → db_ok policy (with_withheld db (List.filter p (withheld db))).
Proof.
  intros []. split; simpl; try done.
  - intros w [Hw _]%elem_of_filterb. by apply db_replay_withheld0.
  - intros n Hn. destruct (db_exclusive0 n Hn) as [X1 X2]. split; [done|]. unfold withheld_at in *.
    simpl. rewrite existsb_false in X2 |- *. intros w [Hw _]%elem_of_filterb. auto.
Qed.

(** *** The two retention transactions *)
Lemma terminalize_selected db s p l next o reason now s' :
  db_ok policy (with_store db s) → l ⊆+ List.filter p (joined s) →
  (∀ d j, p (d, j) = true → is_unsettled (d_state d) = true) →
  decode_selected (fst <$> l) = Ok tt → ends next →
  terminalize_deliveries s (fst <$> l) next o reason now = Ok s' →
  evolves s s' ∧ db_ok policy (with_store db s') ∧
  ∀ x', x' ∈ deliveries s' →
    (d_idempotency_key x' ∈ keys (fst <$> l) ∧ d_state x' = next) ∨
    ((d_idempotency_key x' ∉ keys (fst <$> l)) ∧ x' ∈ deliveries s).
Proof.
  intros Hok Hl Hp Hdec Hn Ht. pose proof (db_store_ok _ _ Hok) as Hs. simpl in Hs.
  destruct (selected_rows s p l Hs Hl Hdec) as [Hnd Hall].
  destruct (terminalize_spec _ _ _ _ _ _ _ Ht (ok_keys _ Hs) Hnd) as [He Hrows]; [|done|].
  { eapply Forall_impl; [exact Hall|]. intros d (Hd & (j & _ & _ & Hpj) & Ha). split_and!; [done| |done].
    apply Hp in Hpj. rewrite unsettled_open in Hpj. by apply negb_true_iff. }
  split; [done|]. split; [|done]. by apply (db_ok_evolves policy (with_store db s)).
Qed.

Lemma sweep_ok db now budget r db' :
  db_ok policy db → sweep_transaction policy db now budget = Ok (r, db') → db_ok policy db'.
Proof.
  intros Hok. unfold sweep_transaction. set (batch := Z.max _ 1). set (cutoff := i64_sat_sub _ _).
  destruct (decode_selected _) as [[]|] eqn:D1; [|done].
  destruct (purge_loop _ _ _ _ _) as [[[s1 n1] n2]|] eqn:P1; [|done].
  assert (db_ok policy (with_store db s1)) as Hok1.
  { destruct (selected_rows (store db)
      (λ dj, has_content (snd dj) && (effective_expiry policy (snd dj) <=? now))
      (by_admission batch (expired_content policy (store db) now))) as [Hnd Hall];
      [by eapply db_store_ok|apply ordered_submseteq|done|].
    eapply purge_loop_ok; [exact P1|by destruct db|done|].
    eapply Forall_impl; [exact Hall|]. by intros d (Hd & _ & Ha). }
  destruct (decode_selected (fst <$> by_admission batch (stranded s1))) as [[]|] eqn:D2; [|done].
  destruct (terminalize_deliveries _ _ _ _ _ _) as [s2|] eqn:T2; [|done].
  assert (db_ok policy (with_store db s2)) as Hok2.
  { eapply (terminalize_selected db s1 (λ dj, negb (has_content (snd dj)) && is_unsettled (d_state (fst dj))));
      [done|apply ordered_submseteq| |exact D2|by right; right|exact T2].
    intros d j Hp. by apply andb_true_iff in Hp as [_ Hp]. }
  destruct (delete_loop _ _ _ _) as [[[s3 n3] n4]|] eqn:L3; [|done].
  pose proof (delete_loop_ok _ _ _ _ _ _ _ _ L3 Hok2) as Hok3.
  unfold delete_aged_withheld. destruct (read_u32 _ _); [|done]. intros [= _ <-].
  exact (db_ok_withheld_filter _ _ Hok3).
Qed.

(** What a deletion commits. *)
Lemma forget_cases db request r db' :
  db_ok policy db → forget_transaction db request = Ok (r, db') →
  ∃ s1, evolves (store db) s1 ∧ db_ok policy (with_store db s1) ∧
    (∀ d j, d ∈ deliveries s1 → j ∈ journal s1 → j_idempotency_key j = d_idempotency_key d →
       j_forget_source_key j = fr_forget_source_key request → is_terminal (d_state d) = true) ∧
    (∀ d j, (d, j) ∈ joined (store db) → j_forget_source_key j ≠ fr_forget_source_key request →
       d ∈ deliveries s1) ∧
    db' = with_withheld
            (with_store db (purge_where (of_source (fr_forget_source_key request))
                              (fr_requested_at_unix_micros request) s1))
            (List.filter (λ w, negb (str_eqb (w_forget_source_key (wh_record w))
                                       (fr_forget_source_key request))) (withheld db)) ∧
    db_ok policy db'.
Proof.
  intros Hok. unfold forget_transaction. set (key := fr_forget_source_key request).
  destruct (decode_selected _) as [[]|] eqn:D; [|done].
  destruct (terminalize_deliveries _ _ _ _ _ _) as [s1|] eqn:T; [|done]. intros [= _ <-].
  set (p := λ dj : DeliveryRow * JournalRow, of_source key (snd dj) && is_unsettled (d_state (fst dj))).
  assert (db_ok policy (with_store db (store db))) as Hok0 by by destruct db.
  unfold by_key in *. set (l := sort_by _ _) in *.
  assert (l ≡ₚ List.filter p (joined (store db))) as Hl by apply sort_by_perm.
  destruct (terminalize_selected db (store db) p l Forgotten OutcomeCancelled (fr_reason request)
    (fr_requested_at_unix_micros request) s1 Hok0) as (He & Hok1 & Hrows);
    [by rewrite Hl| |done|by right; right|done|].
  { intros d j Hp. by apply andb_true_iff in Hp as [_ Hp]. }
  exists s1. split_and!; [done|done| | |done|by apply (db_ok_withheld_filter (with_store db _)), purge_where_ok].
  - intros d j Hd Hj Hk Hf. destruct (Hrows d Hd) as [[_ ->]|[Hnin Hd0]]; [done|].
    destruct (is_terminal (d_state d)) eqn:Et; [done|]. destruct Hnin.
    rewrite (ev_journal _ _ He) in Hj. apply list_elem_of_fmap. exists d. split; [done|].
    apply list_elem_of_fmap. exists (d, j). split; [done|]. rewrite Hl. apply elem_of_filterb.
    split; [by apply joined_elem|]. unfold p, of_source. simpl.
    rewrite unsettled_open, Et. apply andb_true_iff. split; [|done]. by apply bool_decide_eq_true_2.
  - intros d j (Hd & Hj & Hk)%joined_elem Hf. destruct (rows_forward _ _ d He Hd) as (d1 & Hd1 & ((Hk1 & _) & _)).
    pose proof (db_store_ok _ _ Hok) as Hst. destruct (Hrows d1 Hd1) as [[Hin _]|[_ Hd0]].
    + exfalso. apply Hf. apply list_elem_of_fmap in Hin as (x & Hkx & Hx).
      apply list_elem_of_fmap in Hx as ([x' y] & -> & Hxy). rewrite Hl in Hxy.
      apply elem_of_filterb in Hxy as [(Hx & Hy & Hky)%joined_elem Hp]. unfold p, of_source in Hp. simpl in *.
      apply andb_true_iff in Hp as [Hp%bool_decide_eq_true_1 _]. rewrite <- Hp. f_equal.
      apply (NoDup_fmap_inj j_idempotency_key (journal (store db))); [apply Hst|done|done|congruence].
    + by rewrite (keys_inj (deliveries (store db)) d1 d) by (try apply Hst; done || congruence).
Qed.

(** What a deletion leaves alone, table by table. *)
Lemma forget_tables db request r db' :
  db_ok policy db → forget_transaction db request = Ok (r, db') →
  refusals (store db') = refusals (store db) ∧ orphans (store db') = orphans (store db) ∧
  recovery (store db') = recovery (store db) ∧
  (∀ x, x ∈ receipts (store db') → x ∈ receipts (store db) ∨
     ∃ j, j ∈ journal (store db) ∧ j_observation_id j = r_observation_id x ∧
          j_forget_source_key j = fr_forget_source_key request) ∧
  ∀ w, w ∈ withheld db' ↔
    w ∈ withheld db ∧ w_forget_source_key (wh_record w) ≠ fr_forget_source_key request.
Proof.
  intros Hok. unfold forget_transaction. set (key := fr_forget_source_key request).
  destruct (decode_selected _) as [[]|] eqn:D; [|done].
  destruct (terminalize_deliveries _ _ _ _ _ _) as [s1|] eqn:T; [|done]. intros [= _ <-].
  destruct (terminalize_tables _ _ _ _ _ _ _ T) as (T1 & T2 & T3 & T4). simpl. split_and!; [done..| |].
  - intros x Hx. destruct (T4 x Hx) as [?|Hin]; [by left|right].
    apply list_elem_of_fmap in Hin as (d & Ed & Hd). unfold by_key in Hd.
    apply list_elem_of_fmap in Hd as ([d' j] & -> & Hdj). rewrite sort_by_perm in Hdj. unfold undelivered_of in Hdj.
    apply elem_of_filterb in Hdj as [(Hd & Hj & Hk)%joined_elem Hp]. simpl in *.
    apply andb_true_iff in Hp as [Hp _]. exists j. split; [done|].
    split; [|by apply bool_decide_eq_true_1 in Hp].
    rewrite Ed. by apply (ok_linked _ (db_store_ok _ _ Hok)).
  - intros w. rewrite elem_of_filterb. unfold str_eqb, key. rewrite negb_true_iff, bool_decide_eq_false. done.
Qed.

(** ** Runs *)

(** One committed operation, with the attempts it hands out; [sweeps] says
    whether retention may run. *)
Inductive db_operation (sweeps : bool) (db : JournalDb) : list (rstr * Z) → JournalDb → Prop :=
  | db_append a now out db' :
      0 <= c_source_sequence (a_source a) →
      append_admitted_in_transaction policy db a now = Ok (out, db') → db_operation sweeps db [] db'
  | db_withhold w now db' : record_withheld_at db w now = Ok db' → db_operation sweeps db [] db'
  | db_checkpoint stream source now db' :
      record_non_message db stream source now = Ok db' → db_operation sweeps db [] db'
  | db_deliver handed s' :
      journal_step policy (store db) handed s' → db_operation sweeps db handed (with_store db s')
  | db_forget request checkpoint r db' :
      forget_source db request checkpoint = (r, db') → db_operation sweeps db [] db'
  | db_sweep now budget checkpoint r db' :
      sweeps = true → sweep_expired policy db now budget checkpoint = (r, db') → db_operation sweeps db [] db'.

Definition db_step (sweeps : bool) (db db' : JournalDb) : Prop := ∃ handed, db_operation sweeps db handed db'.

(** A run of operations with every attempt that its leases handed out. *)
Inductive db_run (sweeps : bool) (db : JournalDb) : list (rstr * Z) → JournalDb → Prop :=
  | db_run_done : db_run sweeps db [] db
  | db_run_more trace db1 handed db2 :
      db_run sweeps db trace db1 → db_operation sweeps db1 handed db2 → db_run sweeps db (trace ++ handed) db2.

Lemma empty_ok : db_ok policy empty_journal.
Proof.
  split; simpl; try (by constructor); try (by intros ? ?%elem_of_nil); try (by intros ? ? ?%elem_of_nil).
  - split; simpl; constructor.
  - intros p r. unfold lane_bytes, zlen. simpl. lia.
Qed.

Lemma forget_source_cases db request checkpoint r db' :
  forget_source db request checkpoint = (r, db') →
  db' = db ∨ ∃ receipt, forget_transaction db request = Ok (receipt, db').
Proof.
  unfold forget_source. destruct (forget_request_validate request); [|intros [= _ <-]; by left].
  destruct (forget_transaction db request) as [[receipt db1]|]; intros [= _ <-]; [right; by exists receipt|by left].
Qed.

Lemma db_step_ok sweeps db db' : db_step sweeps db db' → db_ok policy db → db_ok policy db'.
Proof.
  intros [handed Hs] Hok.
  destruct Hs as [a now out db' Hn E|w now db' E|k c now db' E|handed s' E|q ck r db' E|now b ck r db' _ E].
  - by eapply db_ok_append.
  - by eapply db_ok_withheld.
  - by eapply db_ok_non_message.
  - apply db_ok_evolves; [done|]. eapply journal_step_evolves; [exact E|by eapply db_store_ok].
  - apply forget_source_cases in E as [->|[receipt E]]; [done|].
    by destruct (forget_cases _ _ _ _ Hok E) as (s1 & _ & _ & _ & _ & _ & Hok').
  - unfold sweep_expired in E. destruct (sweep_transaction policy db now b) as [[receipt db1]|] eqn:Es;
      injection E as _ <-; [by eapply sweep_ok|done].
Qed.

Lemma db_run_ok sweeps db db' : rtc (db_step sweeps) db db' → db_ok policy db → db_ok policy db'.
Proof. induction 1; [done|]. eauto using db_step_ok. Qed.

(** *** Watermarks, as long as no row is swept *)

(** Every cursor of a registration still has its journal row. *)
Record unswept (db : JournalDb) : Prop := {
  us_backed : ∀ c, c ∈ target_cursors db → ∃ j, j ∈ journal (store db) ∧ stream_of j = tc_key c ∧
    j_source_sequence j = tc_last_admitted_sequence c;
  us_sound : watermarks_sound (store db);
}.

(** A new row lies past every watermark of its stream. *)
Lemma admissible_past_watermark db a v w :
  db_ok policy db → unswept db → admissible db a → unclaimed db a →
  v ∈ recovery (store db) → acknowledged_sequence v = Some w → v_key v = admitted_stream a →
  w < c_source_sequence (a_source a).
Proof.
  intros Hok [Hb _] Had Hu Hv Hw Hk. destruct (db_watermarks _ _ Hok v w Hv Hw) as (c & Hc & Hck & Hle).
  destruct (ad_cursor _ _ Had c) as [Hl _].
  { apply (head_filter_unique tc_key); [apply Hok| |done|apply bool_decide_eq_true_2; congruence].
    intros x _ Hx. bools. congruence. }
  destruct (Hb c Hc) as (j & Hj & Hjs & Hjn). destruct (Hu j Hj) as (_ & _ & Hne).
  destruct (decide (tc_last_admitted_sequence c = c_source_sequence (a_source a))); [|lia].
  destruct Hne. f_equal; congruence.
Qed.

Lemma unswept_append db a now :
  db_ok policy db → admissible db a → unclaimed db a → unswept db → unswept (appended_db db a now).
Proof.
  intros Hok Had Hu Hus. split.
  - intros c [Hc|[Hk Hl]]%appended_target_origin; simpl; setoid_rewrite elem_of_app.
    + destruct (us_backed _ Hus c Hc) as (j & Hj & ?). exists j. split; [by left|done].
    + exists (journal_row_of a). rewrite list_elem_of_singleton. split; [by right|].
      by rewrite journal_row_stream, Hk, Hl.
  - intros v w j Hv Hw [Hj| ->%list_elem_of_singleton]%elem_of_app Hk Hle;
      [by apply (us_sound _ Hus v w j)|].
    pose proof (admissible_past_watermark _ _ _ _ Hok Hus Had Hu Hv Hw) as Hlt. simpl in *.
    rewrite <- Hk, journal_row_stream in Hlt. specialize (Hlt eq_refl). lia.
Qed.

Lemma unswept_purge db p now s :
  unswept (with_store db s) → unswept (with_store db (purge_where p now s)).
Proof.
  intros [Hb Hs]. assert (∀ j', j' ∈ journal (purge_where p now s) → ∃ j, j ∈ journal s ∧ j_identity j' = j_identity j) as Hback.
  { intros j' (j & -> & Hj)%list_elem_of_fmap. exists j. split; [done|]. by destruct (p j). }
  split.
  - intros c Hc. destruct (Hb c Hc) as (j & Hj & Hk & Hq). simpl in *.
    exists (if p j then purge_row now j else j).
    split; [by apply (list_elem_of_fmap_2 (λ j, if p j then purge_row now j else j))|]. by destruct (p j).
  - intros v w j' Hv Hw (j & Hj & (_ & Ho & Hk & Hq)%identity_inv)%Hback Hkv Hle. rewrite Ho.
    apply (Hs v w j); simpl; congruence || done || lia.
Qed.

Lemma unswept_evolves db s' :
  db_ok policy db → evolves (store db) s' → unswept db → unswept (with_store db s').
Proof.
  intros Hok He [Hb Hs]. split; simpl.
  - rewrite (ev_journal _ _ He). done.
  - apply (ev_sound _ _ He); [apply Hok|done].
Qed.

Lemma unswept_step db db' : db_step false db db' → db_ok policy db → unswept db → unswept db'.
Proof.
  intros [handed Hs] Hok Hus.
  destruct Hs as [a now out db' Hn E|w now db' E|k c now db' E|handed s' E|q ck r db' E|]; [..|done].
  - apply append_cases in E as [[-> _]|(_ & _ & _ & _ & Had & Hr)]; [done|].
    destruct (append_row_spec _ _ _ _ Hok Hr) as (Hu & _ & ->). by apply unswept_append.
  - unfold record_withheld_at in E. destruct (withheld_validate w); [|done].
    destruct (sql_i64 _ _); [|done]. destruct (reject_non_message _ _ _); [|done]. injection E as <-.
    by destruct Hus.
  - unfold record_non_message in E. destruct (stream_key_validate _); [|done].
    destruct (settlement_validate _); [|done]. destruct (_ || _); [done|]. destruct (sql_i64 _ _); [|done].
    destruct (_ || _); [done|]. destruct (non_message_at _ _ _).
    { destruct (_ && _); [|done]. by injection E as <-. }
    destruct (match select_cursor db _ with Some _ => _ | None => _ end); [done|]. injection E as <-.
    by destruct Hus.
  - apply unswept_evolves; [done| |done]. eapply journal_step_evolves; [exact E|by eapply db_store_ok].
  - apply forget_source_cases in E as [->|[receipt E]]; [done|].
    destruct (forget_cases _ _ _ _ Hok E) as (s1 & He & _ & _ & _ & -> & _).
    destruct (unswept_purge db (of_source (fr_forget_source_key q)) (fr_requested_at_unix_micros q) s1) as [B S];
      [by apply unswept_evolves|]. done.
Qed.

(** *** What a run without sweeps keeps *)

(** Rows stay in their place and follow the state machine, new rows come after
    them, the audit tables only grow and no watermark moves back. *)
Record extends (db db' : JournalDb) : Prop := {
  ex_rows : ∃ rows new, deliveries (store db') = rows ++ new ∧ Forall2 row_after (deliveries (store db)) rows;
  ex_journal : ∃ js new, journal (store db') = js ++ new ∧
    Forall2 (λ j j', j_identity j' = j_identity j) (journal (store db)) js;
  ex_receipts : receipts (store db) `prefix_of` receipts (store db');
  ex_refusals : refusals (store db) `prefix_of` refusals (store db');
  ex_orphans : orphans (store db) `prefix_of` orphans (store db');
  ex_rise : ∀ v, v ∈ recovery (store db) → ∃ v', v' ∈ recovery (store db') ∧ v_key v' = v_key v ∧
    default (-1) (acknowledged_sequence v) <= default (-1) (acknowledged_sequence v');
}.

Lemma row_after_refl d : row_after d d.
Proof. by apply row_steps_after. Qed.

Lemma rows_after_refl rows : Forall2 row_after rows rows.
Proof. induction rows; constructor; [apply row_after_refl|done]. Qed.

Lemma identity_refl js : Forall2 (λ j j', j_identity j' = j_identity j) js js.
Proof. induction js; by constructor. Qed.

Lemma extends_same_store db db' : store db' = store db → extends db db'.
Proof.
  intros E. split; rewrite ?E; try done.
  - exists (deliveries (store db)), []. rewrite app_nil_r. split; [done|apply rows_after_refl].
  - exists (journal (store db)), []. rewrite app_nil_r. split; [done|apply identity_refl].
  - intros v Hv. by exists v.
Qed.

Lemma extends_evolves db db' :
  evolves (store db) (store db') → extends db db'.
Proof.
  intros He. split; try apply He.
  - exists (deliveries (store db')), []. rewrite app_nil_r. split; [done|].
    eapply Forall2_impl; [apply He|]. apply row_steps_after.
  - exists (journal (store db)), []. rewrite app_nil_r, (ev_journal _ _ He). split; [done|apply identity_refl].
Qed.

Lemma journal_extends_trans db1 db2 db3 : extends db1 db2 → extends db2 db3 → extends db1 db3.
Proof.
  intros [(r1 & n1 & E1 & R1) (j1 & m1 & F1 & J1) P1 Q1 O1 W1] [(r2 & n2 & E2 & R2) (j2 & m2 & F2 & J2) P2 Q2 O2 W2].
  split; try (by etrans).
  - rewrite E1 in R2. apply Forall2_app_inv_l in R2 as (x & y & R2 & _ & ->).
    exists x, (y ++ n2). rewrite app_assoc. split; [done|].
    eapply Forall2_trans; [|exact R1|exact R2]. apply row_after_trans.
  - rewrite F1 in J2. apply Forall2_app_inv_l in J2 as (x & y & J2 & _ & ->).
    exists x, (y ++ m2). rewrite app_assoc. split; [done|].
    eapply Forall2_trans; [|exact J1|exact J2]. simpl. congruence.
  - intros v Hv. destruct (W1 v Hv) as (v' & Hv' & K1 & L1). destruct (W2 v' Hv') as (v'' & Hv'' & K2 & L2).
    exists v''. split_and!; [done|congruence|lia].
Qed.

Lemma operation_extends db handed db' : db_operation false db handed db' → db_ok policy db → extends db db'.
Proof.
  intros Hs Hok. destruct Hs as [a now out db' Hn E|w now db' E|k c now db' E|handed s' E|q ck r db' E|]; [..|done].
  - apply append_cases in E as [[-> _]|(_ & _ & _ & _ & Had & Hr)]; [by apply extends_same_store|].
    destruct (append_row_spec _ _ _ _ Hok Hr) as (Hu & _ & ->). split; simpl; try done.
    + eexists _, _. split; [done|apply rows_after_refl].
    + eexists _, _. split; [done|apply identity_refl].
    + intros v Hv. by exists v.
  - unfold record_withheld_at in E. destruct (withheld_validate w); [|done].
    destruct (sql_i64 _ _); [|done]. destruct (reject_non_message _ _ _); [|done]. injection E as <-.
    by apply extends_same_store.
  - unfold record_non_message in E. destruct (stream_key_validate _); [|done].
    destruct (settlement_validate _); [|done]. destruct (_ || _); [done|]. destruct (sql_i64 _ _); [|done].
    destruct (_ || _); [done|]. destruct (non_message_at _ _ _).
    { destruct (_ && _); [|done]. injection E as <-. by apply extends_same_store. }
    destruct (match select_cursor db _ with Some _ => _ | None => _ end); [done|]. injection E as <-.
    by apply extends_same_store.
  - apply extends_evolves. eapply journal_step_evolves; [exact E|by eapply db_store_ok].
  - apply forget_source_cases in E as [->|[receipt E]]; [by apply extends_same_store|].
    destruct (forget_cases _ _ _ _ Hok E) as (s1 & He & _ & _ & _ & -> & _).
    apply (journal_extends_trans _ (with_store db s1)); [by apply extends_evolves|]. split; simpl; try done.
    + eexists _, []. rewrite app_nil_r. split; [done|apply rows_after_refl].
    + eexists _, []. rewrite app_nil_r. split; [done|].
      induction (journal s1) as [|j js IH]; constructor; [by destruct (of_source _ j)|done].
    + intros v Hv. by exists v.
Qed.

Lemma run_extends db trace db' :
  db_run false db trace db' → db_ok policy db → db_ok policy db' ∧ extends db db'.
Proof.
  intros Hr Hok. induction Hr as [|trace db1 handed db2 _ [IH1 IH2] Hs]; [split; [done|by apply extends_same_store]|].
  split; [eapply db_step_ok; [by exists handed|done]|]. eapply journal_extends_trans; [done|]. by eapply operation_extends.
Qed.

Lemma extended_row db db' d :
  extends db db' → d ∈ deliveries (store db) → ∃ d', d' ∈ deliveries (store db') ∧ row_after d d'.
Proof.
  intros He (i & Hi)%list_elem_of_lookup. destruct (ex_rows _ _ He) as (rows & new & E & Hf).
  destruct (Forall2_lookup_l _ _ _ _ _ Hf Hi) as (d' & Hd' & Ha). exists d'. split; [|done].
  rewrite E. apply elem_of_app. left. by eapply list_elem_of_lookup_2.
Qed.

Lemma observation_unique db d d' :
  db_ok policy db → d ∈ deliveries (store db) → d' ∈ deliveries (store db) →
  d_observation_id d = d_observation_id d' → d = d'.
Proof.
  intros Hok Hd Hd'. apply (NoDup_fmap_inj d_observation_id (deliveries (store db))); [|done|done].
  apply (db_store_ok _ _ Hok).
Qed.

(** The attempts a run hands out are distinct and lie above the attempt number
    of the row before the run, if it was there, and at most at the one after. *)
Lemma run_handed db trace db' :
  db_run false db trace db' → db_ok policy db →
  NoDup trace ∧
  (∀ o n, (o, n) ∈ trace → ∃ d', d' ∈ deliveries (store db') ∧ d_observation_id d' = o ∧ n <= d_attempt_number d') ∧
  (∀ o n d, (o, n) ∈ trace → d ∈ deliveries (store db) → d_observation_id d = o → d_attempt_number d < n).
Proof.
  intros Hr Hok. induction Hr as [|trace db1 handed db2 Hr IH Hs].
  { split_and!; [constructor|..]; by intros ? ? ?%elem_of_nil || intros ? ? ? ?%elem_of_nil. }
  destruct IH as (Hnd & Hup & Hlow). destruct (run_extends _ _ _ Hr Hok) as [Hok1 He1].
  pose proof (operation_extends _ _ _ Hs Hok1) as He2.
  assert (NoDup handed ∧ ∀ o n, (o, n) ∈ handed → ∃ d d', d ∈ deliveries (store db1) ∧ d_observation_id d = o ∧
    d_attempt_number d < n ∧ d' ∈ deliveries (store db2) ∧ d_observation_id d' = o ∧ d_attempt_number d' = n) as [Hnh Hh].
  { destruct Hs as [| | |handed s' E| |]; try (split; [constructor|by intros ? ? ?%elem_of_nil]).
    exact (journal_step_handed _ _ _ _ E (db_store_ok _ _ Hok1)). }
  split_and!.
  - apply NoDup_app. split; [done|]. split; [|done]. intros [o n] Hin Hnew.
    destruct (Hup o n Hin) as (d1 & Hd1 & Ho1 & Hn1). destruct (Hh o n Hnew) as (x & _ & Hx & Hxo & Hxn & _).
    rewrite (observation_unique db1 d1 x) in Hn1 by (done || congruence). lia.
  - intros o n [Hin|Hin]%elem_of_app.
    + destruct (Hup o n Hin) as (d1 & Hd1 & Ho1 & Hn1).
      destruct (extended_row _ _ _ He2 Hd1) as (d2 & Hd2 & ((_ & I & _) & A & _)). exists d2.
      split_and!; [done|congruence|lia].
    + destruct (Hh o n Hin) as (_ & d2 & _ & _ & _ & Hd2 & Ho2 & Hn2). exists d2. split_and!; [done..|lia].
  - intros o n d [Hin|Hin]%elem_of_app Hd Ho; [by eapply Hlow|].
    destruct (Hh o n Hin) as (x & _ & Hx & Hxo & Hxn & _).
    destruct (extended_row _ _ _ He1 Hd) as (d1 & Hd1 & ((_ & I & _) & A & _)).
    rewrite (observation_unique db1 d1 x) in A by (done || congruence). lia.
Qed.

Lemma unswept_run db trace db' :
  db_run false db trace db' → db_ok policy db → unswept db → unswept db'.
Proof.
  intros Hr Hok Hus. induction Hr as [|trace db1 handed db2 Hr IH Hs]; [done|].
  destruct (run_extends _ _ _ Hr Hok) as [Hok1 _]. eapply unswept_step; [by exists handed|done|done].
Qed.

Lemma unswept_empty : unswept empty_journal.
Proof. split; [by intros ? ?%elem_of_nil|by intros ? ? ? ?%elem_of_nil]. Qed.

(** ** The outcomes of an admission *)
Lemma joined_has_row db j :
  db_ok policy db → j ∈ journal (store db) → ∃ d, (d, j) ∈ joined (store db) ∧ paired j d.
Proof.
  intros Hok (i & Hi)%list_elem_of_lookup.
  destruct (Forall2_lookup_l _ _ _ _ _ (db_paired _ _ Hok) Hi) as (d & Hd & Hp). exists d. split; [|done].
  apply joined_elem. split_and!; [by eapply list_elem_of_lookup_2..|symmetry; apply Hp].
Qed.

Lemma select_by_key_none db key j :
  db_ok policy db → select_by_key (store db) key = None → j ∈ journal (store db) →
  j_idempotency_key j ≠ key.
Proof.
  intros Hok Hn Hj <-. destruct (joined_has_row _ _ Hok Hj) as (d & Hd & _).
  pose proof (head_filter_none _ _ _ Hn Hd) as Hf. simpl in Hf. by apply bool_decide_eq_false_1 in Hf.
Qed.

Lemma select_by_key_some db d j :
  db_ok policy db → (d, j) ∈ joined (store db) → select_by_key (store db) (j_idempotency_key j) = Some (d, j).
Proof.
  intros Hok Hin. apply (head_filter_unique (λ dj, d_idempotency_key (fst dj))).
  - pose proof (db_store_ok _ _ Hok) as Hs. apply joined_keys_NoDup; apply Hs.
  - intros [x y] [Hx [Hy Hk]]%joined_elem Ht. simpl in Ht. row_tests. simpl in *.
    apply joined_elem in Hin as (_ & _ & Hk'). congruence.
  - done.
  - by apply bool_decide_eq_true_2.
Qed.

Lemma select_by_source_some s key n j :
  select_by_source s key n = Some j → j ∈ journal s ∧ stream_of j = key ∧ j_source_sequence j = n.
Proof. intros [Hj Ht]%head_filter_some. bools. apply Z.eqb_eq in H1. done. Qed.

(** Nothing but a reused observation id stops the insertion. *)
Lemma append_row_error db a now e :
  db_ok policy db → admissible db a → append_row db a (c_source_sequence (a_source a)) now = Err e →
  e ≠ Corrupt JOURNAL_TABLE (str "idempotency_key").
Proof.
  intros Hok Had. unfold append_row, sql_i64. destruct (_ <=? i64_max); [|by intros [= <-]].
  destruct (_ <=? i64_max); [|by intros [= <-]]. unfold insert_journal.
  destruct (existsb _ _) eqn:Ec; cbn -[str].
  - apply existsb_spec in Ec as (j & Hj & Hc). destruct (head _) eqn:Eh; [by intros [= <-]|].
    exfalso. pose proof (head_filter_none _ _ _ Eh Hj) as Ho. simpl in Ho.
    unfold journal_conflicts in Hc. simpl in Hc.
    apply orb_true_iff in Hc as [[Hc|Hc]%orb_true_iff|Hc].
    + row_tests. by eapply (select_by_key_none db (a_idempotency_key a) j); [|apply Had| |].
    + row_tests. unfold str_eqb in Ho. by rewrite bool_decide_eq_true_2 in Ho.
    + pose proof (head_filter_none _ _ _ (ad_source _ _ Had) Hj) as Hs. simpl in Hs. bools.
      apply Z.eqb_eq in H1. rewrite bool_decide_eq_true_2, H1, Z.eqb_refl in Hs; done.
  - destruct (_ <=? i64_max); [done|by intros [= <-]].
Qed.

(** What each answer without a new row says about the journal. *)
Definition explains (db : JournalDb) (a : AdmittedObservationV1) (now : Z) (out : AppendOutcomeV1) : Prop :=
  let at_position j := j ∈ journal (store db) ∧ stream_of j = admitted_stream a ∧
    j_source_sequence j = c_source_sequence (a_source a) ∧ j_idempotency_key j ≠ a_idempotency_key a in
  let same_event j := j_source_event_id j = c_source_event_id (a_source a) ∧
    j_source_event_revision j = c_source_event_revision (a_source a) in
  match out with
  | Appended _ _ => False
  | DuplicateIdempotencyKey o st => ∃ d j, (d, j) ∈ joined (store db) ∧
      j_idempotency_key j = a_idempotency_key a ∧ j_observation_id j = o ∧ d_state d = st ∧
      j_payload_sha256 j = p_sha256 (a_payload a)
  | DuplicateSourceEvent o k => ∃ j, at_position j ∧ same_event j ∧
      j_observation_id j = o ∧ j_idempotency_key j = k
  | SourceSequenceConflict e r => ∃ j, at_position j ∧ ¬ same_event j ∧
      j_source_event_id j = e ∧ j_source_event_revision j = r
  | RejectedSourceSequenceRegression last => ∃ c, c ∈ target_cursors db ∧ tc_key c = admitted_stream a ∧
      tc_last_admitted_sequence c = last ∧ c_source_sequence (a_source a) <= last
  | RejectedWithheldSource n => n = c_source_sequence (a_source a) ∧
      withheld_at db (ingress_of_stream (admitted_stream a)) n = true
  | RejectedDeadlineExpired deadline => deadline = a_deadline_unix_micros a ∧ deadline <= now
  | RejectedCapacity items bytes =>
      let rows := List.filter (in_lane (t_provider_id (a_target a)) (t_registration_revision (a_target a)))
                    (deliveries (store db)) in
      items = zlen rows ∧ bytes = foldr Z.add 0 (d_queue_bytes <$> rows) ∧
      (max_queue_items policy <= items ∨ max_queue_bytes policy < bytes + queue_bytes a)
  end.

Lemma capacity_explained db a now pressure :
  db_ok policy db → read_pressure (store db) (lane_of (a_target a)) policy = Ok pressure →
  would_exceed pressure (queue_bytes a) = true →
  explains db a now (RejectedCapacity (u_queue_items pressure) (u_queue_bytes pressure)).
Proof.
  intros Hok. unfold read_pressure. destruct (sql_i64 _ _) as [registration|] eqn:Er; [|done].
  apply sql_i64_ok in Er as [-> _]. unfold sql_sum. simpl. set (total := foldr _ _ _).
  destruct (total <=? i64_max); [|done]. unfold read_u64. destruct (0 <=? zlen _); [|done].
  destruct (0 <=? total); [|done]. intros [= <-] Hw. unfold would_exceed in Hw. simpl in *.
  rewrite Z.geb_leb, Z.gtb_ltb in Hw.
  rewrite <- (queued_rows (store db)) by apply Hok. unfold zlen in *. rewrite length_fmap.
  split; [done|]. split; [unfold total; by rewrite <- list_fmap_compose|].
  apply orb_true_iff in Hw as [Hw%Z.leb_le|Hw%Z.ltb_lt]; [left; done|right].
  unfold sat_add in Hw. lia.
Qed.

Lemma standing_some db a now out :
  db_ok policy db → standing_outcome policy db a (c_source_sequence (a_source a)) = Ok (Some out) →
  explains db a now out.
Proof.
  intros Hok. unfold standing_outcome. destruct (select_by_key _ _) as [[d j]|] eqn:E1.
  { apply head_filter_some in E1 as [Hin Hk]. simpl in Hk. destruct (str_eqb (j_payload_sha256 j) _) eqn:Ep; [|done]. row_tests.
    intros [= <-]. by exists d, j. }
  destruct (select_by_source _ _ _) as [j|] eqn:E2.
  { apply select_by_source_some in E2 as (Hj & Hs & Hn).
    pose proof (select_by_key_none _ _ _ Hok E1 Hj) as Hk.
    unfold source_outcome, read_u64. destruct (0 <=? _); [|done].
    destruct (str_eqb _ _ && _) eqn:Ee; cbn beta iota; intros [= <-]; exists j; (split; [done|]).
    - row_tests. done.
    - split; [|done]. intros [Q1 Q2]. unfold str_eqb in Ee. rewrite Q1, Q2 in Ee. by rewrite bool_decide_eq_true_2, Z.eqb_refl in Ee. }
  destruct (withheld_at _ _ _) eqn:E3; [by intros [= <-]|].
  destruct (select_target_cursor db _) as [c|] eqn:E4.
  - apply head_filter_some in E4 as [Hc Hk]. bools.
    destruct (cursor_outcome _ _ _) as [[x|]|] eqn:Eo; [|..|done].
    + intros [= <-]. unfold cursor_outcome in Eo. destruct (if str_eqb _ _ then _ else _) as [same|]; [|done].
      destruct (_ || _) eqn:Er; [|done]. unfold read_u64 in Eo. destruct (0 <=? _); [|done].
      injection Eo as <-. exists c. split_and!; [done|done|done|].
      apply orb_true_iff in Er as [Er%Z.ltb_lt|[Er%Z.eqb_eq _]%andb_true_iff]; lia.
    + destruct (read_pressure _ _ _) as [pr|] eqn:E5; [|done]. destruct (would_exceed _ _) eqn:E6; [|done].
      intros [= <-]. by apply capacity_explained.
  - destruct (read_pressure _ _ _) as [pr|] eqn:E5; [|done]. destruct (would_exceed _ _) eqn:E6; [|done].
    intros [= <-]. by apply capacity_explained.
Qed.

(** The same envelope again, inside its deadline, is a duplicate. *)
Lemma append_again db a now now' :
  db_ok policy (appended_db db a now) → admitted_validate a = Ok tt → now' < a_deadline_unix_micros a →
  c_source_sequence (a_source a) <= i64_max → t_registration_revision (a_target a) <= i64_max →
  non_message_at db (ingress_of_stream (admitted_stream a)) (c_source_sequence (a_source a)) = None →
  append_admitted_in_transaction policy (appended_db db a now) a now' =
  Ok (DuplicateIdempotencyKey (a_observation_id a) Pending, appended_db db a now).
Proof.
  intros Hok Hv Hd Hs Hr Hn. unfold append_admitted_in_transaction. rewrite Hv, Z.geb_leb.
  rewrite (proj2 (Z.leb_gt _ _) Hd). unfold sql_i64. rewrite (proj2 (Z.leb_le _ _) Hs), (proj2 (Z.leb_le _ _) Hr).
  unfold reject_non_message. change (non_message_at (appended_db db a now)) with (non_message_at db). rewrite Hn.
  unfold standing_outcome.
  pose proof (select_by_key_some (appended_db db a now) (delivery_row_of a now) (journal_row_of a) Hok) as Hk.
  simpl in Hk. simpl. rewrite Hk; simpl.
  - unfold str_eqb. by rewrite bool_decide_eq_true_2.
  - apply joined_elem. simpl. rewrite !elem_of_app, !list_elem_of_singleton. auto.
Qed.

Lemma sql_i64_err v f e : sql_i64 v f = Err e → e = ValueOutOfRange f.
Proof. unfold sql_i64. destruct (v <=? i64_max); [done|]. by intros [= <-]. Qed.

Lemma append_checked db a now r :
  append_admitted_in_transaction policy db a now =
    Ok (Appended (a_observation_id a) (c_source_sequence (a_source a)), r) →
  admitted_validate a = Ok tt ∧ c_source_sequence (a_source a) <= i64_max ∧
  t_registration_revision (a_target a) <= i64_max.
Proof.
  unfold append_admitted_in_transaction. destruct (admitted_validate a) as [[]|]; [|done].
  destruct (now >=? _); [done|]. destruct (sql_i64 (c_source_sequence _) _) as [n|] eqn:Es; [|done].
  apply sql_i64_ok in Es as [_ Hs]. destruct (sql_i64 (t_registration_revision _) _) as [m|] eqn:Em; [|done].
  by apply sql_i64_ok in Em as [_ Hm].
Qed.

Lemma append_explained db a now out :
  db_ok policy db → append_admitted_in_transaction policy db a now = Ok (out, db) →
  (∀ o n, out ≠ Appended o n) → explains db a now out.
Proof.
  intros Hok E Hna. unfold append_admitted_in_transaction in E. destruct (admitted_validate a); [|done].
  rewrite Z.geb_leb in E. destruct (Z.leb_spec (a_deadline_unix_micros a) now); [by injection E as <-|].
  destruct (sql_i64 (c_source_sequence _) _) as [n|] eqn:Es; [|done]. apply sql_i64_ok in Es as [-> _].
  destruct (sql_i64 _ _); [|done]. destruct (reject_non_message _ _ _); [|done].
  destruct (standing_outcome _ _ _ _) as [[o|]|] eqn:Eo; [| |done].
  - injection E as <-. by apply standing_some.
  - destruct (append_row _ _ _ _); [|done]. injection E as <- _.
    by destruct (Hna (a_observation_id a) (c_source_sequence (a_source a))).
Qed.

Lemma read_u64_err v f e : read_u64 v f = Err e → e = ValueOutOfRange f.
Proof. unfold read_u64. destruct (0 <=? v); [done|]. by intros [= <-]. Qed.

Lemma read_pressure_err s lane e :
  read_pressure s lane policy = Err e → e ≠ Corrupt JOURNAL_TABLE (str "idempotency_key").
Proof.
  unfold read_pressure, sql_sum.
  destruct (sql_i64 _ _) as [n|x] eqn:E1; [|apply sql_i64_err in E1; by intros [= <-]; subst x].
  destruct (_ <=? i64_max); [|by intros [= <-]].
  destruct (read_u64 (zlen _) _) as [m|x] eqn:E2; [|apply read_u64_err in E2; by intros [= <-]; subst x].
  destruct (read_u64 _ (str "queue_bytes")) as [k|x] eqn:E3; [done|].
  apply read_u64_err in E3. by intros [= <-]; subst x.
Qed.

Lemma standing_error db a n e :
  standing_outcome policy db a n = Err e → e ≠ Corrupt JOURNAL_TABLE (str "idempotency_key").
Proof.
  unfold standing_outcome. destruct (select_by_key _ _) as [[d j]|].
  { destruct (negb _); [by intros [= <-]|done]. }
  destruct (select_by_source _ _ _) as [j|].
  { unfold source_outcome. destruct (read_u64 _ _) as [m|x] eqn:E1; [by destruct (_ && _)|].
    apply read_u64_err in E1. by intros [= <-]; subst x. }
  destruct (withheld_at _ _ _); [done|].
  destruct (match select_target_cursor db _ with Some c => _ | None => _ end) as [[out|]|x] eqn:E4; [done|..].
  - destruct (read_pressure _ _ _) eqn:E5; [by destruct (would_exceed _ _)|].
    intros [= <-]. by eapply read_pressure_err.
  - intros [= <-]. destruct (select_target_cursor db _) as [c|]; [|done]. unfold cursor_outcome in E4.
    destruct (if str_eqb _ _ then _ else _) as [b|y] eqn:E1.
    + destruct (_ || _); [|done]. destruct (read_u64 (tc_last_admitted_sequence c) _) eqn:E2; [done|]. apply read_u64_err in E2.
      by injection E4 as <-; subst.
    + injection E4 as <-. destruct (str_eqb _ _); [|done]. destruct (read_u64 _ _) eqn:E2; [done|].
      apply read_u64_err in E2. by injection E1 as <-; subst.
Qed.

Lemma append_error db a now e :
  db_ok policy db → admitted_validate a = Ok tt →
  append_admitted_in_transaction policy db a now = Err e →
  e ≠ Corrupt JOURNAL_TABLE (str "idempotency_key").
Proof.
  intros Hok Hv E. unfold append_admitted_in_transaction in E. rewrite Hv in E. apply admitted_facts in Hv.
  destruct (now >=? _); [done|].
  destruct (sql_i64 (c_source_sequence _) _) as [n|x] eqn:Es;
    [apply sql_i64_ok in Es as [-> _]|injection E as <-; by rewrite (sql_i64_err _ _ _ Es)].
  destruct (sql_i64 (t_registration_revision _) _) as [m|x] eqn:Em; [|injection E as <-; by rewrite (sql_i64_err _ _ _ Em)].
  unfold reject_non_message, read_u64 in E. destruct (non_message_at _ _ _); [by destruct (0 <=? _); injection E as <-|].
  destruct (standing_outcome _ _ _ _) as [[o|]|x] eqn:Eo; [done| |].
  - destruct (append_row _ _ _ _) as [|x] eqn:Er; [done|]. injection E as <-.
    eapply append_row_error; [exact Hok|apply standing_none; [apply Hv|done]|exact Er].
  - injection E as <-. by eapply standing_error.
Qed.

Lemma verification_passes db key truncated :
  (∀ j, j ∈ journal (store db) → j_forget_source_key j = key →
     has_content j = false ∧ has_binding j = false) →
  (∀ d j, (d, j) ∈ joined (store db) → j_forget_source_key j = key → is_terminal (d_state d) = true) →
  (∀ w, w ∈ withheld db → w_forget_source_key (wh_record w) ≠ key) →
  ∃ v, verify_forgotten db key (Ok truncated) = Ok v ∧ verified v = truncated.
Proof.
  intros Hj Hd Hw. eexists. split; [reflexivity|]. simpl. unfold undelivered_of.
  rewrite (filter_none has_content), (filter_none has_binding), (filter_none _ (joined _)), (filter_none _ (withheld db)).
  - done.
  - intros w Hin. apply bool_decide_eq_false_2. auto.
  - intros [d j] Hdj. unfold of_source. simpl. destruct (str_eqb _ _) eqn:Ek; [|done]. row_tests.
    by rewrite unsettled_open, (Hd d j).
  - intros j [Hin Hk]%elem_of_filterb. unfold of_source in Hk. row_tests. by apply Hj.
  - intros j [Hin Hk]%elem_of_filterb. unfold of_source in Hk. row_tests. by apply Hj.
Qed.

(** ** Properties *)

(** C4. Whatever sequence of admissions, withheld and non-message records,
    deliveries, privacy deletions and retention sweeps commits on an empty
    journal, every journal row keeps its one delivery row with the same
    identity, positions of a stream are taken once per registration, the lease
    columns and the receipts stay coherent, the cursor of a registration is at
    or past all its rows and watermarks, the replay position is at or past
    every decided position, a non-message position is never admitted or
    withheld, and no registration queues more than the configured rows and
    bytes; and as long as no sweep has removed rows, no acknowledged watermark
    covers an observation that was not acknowledged. *)
Theorem journal_invariant db :
  (rtc (db_step true) empty_journal db → db_ok policy db) ∧
  (rtc (db_step false) empty_journal db → watermarks_sound (store db)).
Proof.
  split; [intros Hr; by eapply db_run_ok, empty_ok|]. intros Hr. apply us_sound.
  pose proof unswept_empty as Hus. pose proof empty_ok as Hok. revert Hok Hus.
  induction Hr as [|db db1 db2 Hs _ IH]; [done|]. intros Hok Hus.
  apply IH; [by eapply db_step_ok|by eapply unswept_step].
Qed.

(** C20. An admission inserts one journal row, one pending delivery row and
    both cursors, for an envelope whose key, observation and position were all
    free, or it changes nothing and its answer is true of the journal: a
    duplicate names the row that holds the key with the same payload, a source
    duplicate or conflict names the row at the position, a regression a cursor
    at or past it, a withheld or expired answer the fact itself, and a capacity
    answer the exact content of a full queue.  Admitting the same envelope again
    inside its deadline is always a duplicate that changes nothing, and the
    error for a lost unique index cannot happen. *)
Theorem admission_outcomes db a now :
  db_ok policy db → 0 <= c_source_sequence (a_source a) →
  match append_admitted_in_transaction policy db a now with
  | Ok (Appended o n, db') =>
      o = a_observation_id a ∧ n = c_source_sequence (a_source a) ∧ now < a_deadline_unix_micros a ∧
      unclaimed db a ∧ db' = appended_db db a now ∧
      ∀ now', now' < a_deadline_unix_micros a →
        append_admitted_in_transaction policy db' a now' = Ok (DuplicateIdempotencyKey o Pending, db')
  | Ok (out, db') => db' = db ∧ explains db a now out
  | Err e => admitted_validate a = Ok tt → e ≠ Corrupt JOURNAL_TABLE (str "idempotency_key")
  end.
Proof.
  intros Hok Hnn. destruct (append_admitted_in_transaction policy db a now) as [[out db']|e] eqn:E.
  - pose proof (append_cases _ _ _ _ _ E) as [[-> Hna]|(-> & Hwf & Hnow & Hnm & Had & Hr)].
    + pose proof (append_explained _ _ _ _ Hok E Hna) as Hex.
      destruct out; [by destruct (Hna observation_id source_sequence)|done..].
    + destruct (append_row_spec _ _ _ _ Hok Hr) as (Hu & _ & ->). split_and!; try done. intros now' Hnow'.
      destruct (append_checked _ _ _ _ E) as (Hv & Hs & Hm).
      apply append_again; auto using db_ok_appended.
  - intros Hv. by eapply append_error.
Qed.
(** C16. A committed deletion of a source erases it: its journal rows hold no
    payload, no extension and no hygiene binding, its withheld records are gone,
    every delivery of it is terminal, and the verification query confirms all of
    it exactly when the log was truncated.  Everything else is kept: the rows,
    deliveries and withheld records of other sources, all refusals, orphan
    records, watermarks, cursors and checkpoints, and all receipts, to which only
    receipts of the source are added.  The invariant of the journal survives, and
    in every later run of admissions, deliveries and deletions without a sweep no
    lease hands out an observation the source had in the journal.  (A new
    observation of the source may still be admitted.) *)
Theorem forgotten_source_is_erased db request r db' :
  db_ok policy db → forget_transaction db request = Ok (r, db') →
  db_ok policy db' ∧
  (∀ j, j ∈ journal (store db') → j_forget_source_key j = fr_forget_source_key request →
     j_payload_bytes j = None ∧ j_extensions j = [] ∧ j_sanitization j = None ∧
     is_Some (j_content_forgotten_at_micros j)) ∧
  (∀ w, w ∈ withheld db' ↔
     w ∈ withheld db ∧ w_forget_source_key (wh_record w) ≠ fr_forget_source_key request) ∧
  (∀ d j, (d, j) ∈ joined (store db') → j_forget_source_key j = fr_forget_source_key request →
     is_terminal (d_state d) = true) ∧
  (∀ truncated, ∃ v, verify_forgotten db' (fr_forget_source_key request) (Ok truncated) = Ok v ∧
     verified v = truncated) ∧
  (∀ d j, j_forget_source_key j ≠ fr_forget_source_key request →
     (d, j) ∈ joined (store db') ↔ (d, j) ∈ joined (store db)) ∧
  (receipts (store db) `prefix_of` receipts (store db') ∧
   ∀ x, x ∈ receipts (store db') → x ∈ receipts (store db) ∨
     ∃ j, j ∈ journal (store db) ∧ j_observation_id j = r_observation_id x ∧
          j_forget_source_key j = fr_forget_source_key request) ∧
  (refusals (store db'), orphans (store db'), recovery (store db')) =
    (refusals (store db), orphans (store db), recovery (store db)) ∧
  (target_cursors db', replay_cursors db', non_messages db') =
    (target_cursors db, replay_cursors db, non_messages db) ∧
  (∀ trace db'' o n j, db_run false db' trace db'' → (o, n) ∈ trace →
     j ∈ journal (store db') → j_observation_id j = o →
     j_forget_source_key j ≠ fr_forget_source_key request).
Proof.
  intros Hok Hf. destruct (forget_tables _ _ _ _ Hok Hf) as (F1 & F2 & F3 & F4 & F5).
  destruct (forget_cases _ _ _ _ Hok Hf) as (s1 & He & Hok1 & Hterm & Hkeep & -> & Hok').
  clear Hf. set (key := fr_forget_source_key request) in *. set (now := fr_requested_at_unix_micros request) in *.
  set (db' := with_withheld _ _) in *.
  assert (∀ j, j ∈ journal (store db') → j_forget_source_key j = key → ∃ j0, j0 ∈ journal s1 ∧
    j = purge_row now j0 ∧ j_forget_source_key j0 = key) as Hpurged.
  { intros j (j0 & -> & Hj0)%list_elem_of_fmap Hk. exists j0. unfold of_source, str_eqb in *.
    case_bool_decide as E; [done|]. done. }
  assert (∀ d j, (d, j) ∈ joined (store db') → j_forget_source_key j = key → is_terminal (d_state d) = true) as Hdone.
  { intros d j (Hd & Hj & Hk)%joined_elem Hf. destruct (Hpurged j Hj Hf) as (j0 & Hj0 & -> & Hf0).
    by apply (Hterm d j0). }
  split_and!; try done.
  - intros j Hj Hk. destruct (Hpurged j Hj Hk) as (j0 & _ & -> & _). by split_and!.
  - intros truncated. apply verification_passes; [|done|by intros w [_ Hw]%F5]. intros j Hj Hk.
    by destruct (Hpurged j Hj Hk) as (j0 & _ & -> & _).
  - intros d j Hne. rewrite !joined_elem. simpl. split; intros (Hd & Hj & Hk).
    + apply list_elem_of_fmap in Hj as (j0 & -> & Hj0). unfold of_source, str_eqb in *.
      case_bool_decide as E; [done|]. rewrite (ev_journal _ _ He) in Hj0.
      destruct (rows_backward _ _ d He Hd) as (d0 & Hd0 & ((I & _) & _)).
      assert ((d0, j0) ∈ joined (store db)) as Hin by (apply joined_elem; split_and!; [done..|congruence]).
      pose proof (Hkeep d0 j0 Hin Hne) as Hd1. split_and!; [|done..].
      rewrite (keys_inj (deliveries s1) d0 d) by (done || apply (db_store_ok _ _ Hok1)). done.
    + assert ((d, j) ∈ joined (store db)) as Hin by by apply joined_elem.
      split_and!; [by apply (Hkeep d j)| |done]. apply list_elem_of_fmap. exists j.
      rewrite (ev_journal _ _ He). unfold of_source, str_eqb. by rewrite bool_decide_eq_false_2.
  - apply He.
  - by rewrite F1, F2, F3.
  - intros trace db'' o n j Hrun Hin Hj Ho Hk. destruct (run_handed _ _ _ Hrun Hok') as (_ & Hup & Hlow).
    destruct (joined_has_row _ _ Hok' Hj) as (x & Hx & Hp). pose proof (Hdone x j Hx Hk) as Ht.
    apply joined_elem in Hx as (Hx & _ & _). assert (d_observation_id x = o) as Hxo by (rewrite (pr_observation _ _ Hp); congruence).
    specialize (Hlow o n x Hin Hx Hxo). destruct (Hup o n Hin) as (d' & Hd' & Hdo & Hn).
    destruct (run_extends _ _ _ Hrun Hok') as [Hok'' Hex].
    destruct (extended_row _ _ _ Hex Hx) as (x' & Hx' & ((_ & I & _) & _ & _ & Hfix & _)).
    rewrite (observation_unique db'' d' x') in Hn by (done || congruence). rewrite (Hfix Ht) in Hn. lia.
Qed.

(** C25. Over every run of admissions, withheld and non-message records,
    delivery operations and privacy deletions, as long as no sweep runs, each
    delivery row keeps its place and its identity, follows the transitions of
    [can_transition_to], never loses an attempt number, is frozen once terminal,
    and has its lease columns set exactly while it is leased; each journal row
    keeps its place, key, observation and position; and the receipts, refusals
    and orphan records only grow, one receipt per attempt. *)
Theorem delivery_rows_follow_state_machine db trace db' :
  db_run false db trace db' → db_ok policy db →
  (∃ rows new, deliveries (store db') = rows ++ new ∧ Forall2 row_after (deliveries (store db)) rows) ∧
  (∀ d, d ∈ deliveries (store db') → lease_columns_ok d) ∧
  (∃ js new, journal (store db') = js ++ new ∧
     Forall2 (λ j j', j_identity j' = j_identity j) (journal (store db)) js) ∧
  receipts (store db) `prefix_of` receipts (store db') ∧ refusals (store db) `prefix_of` refusals (store db') ∧
  orphans (store db) `prefix_of` orphans (store db') ∧ NoDup (slots (receipts (store db'))).
Proof.
  intros Hr Hok. destruct (run_extends _ _ _ Hr Hok) as [Hok' He].
  split_and!; try apply He; [|apply Hok'].
  intros d Hd. pose proof (db_leases _ _ Hok') as Hl. rewrite Forall_forall in Hl. auto.
Qed.

(** C19. No attempt number of an observation is handed out twice: over every
    run of admissions, deliveries and privacy deletions, as long as no sweep
    runs, the (observation, attempt) pairs of all leased items are pairwise
    distinct; each lies above the attempt number the row had before the run, if
    it was there, and at most at the one it has afterwards.  So a receipt, a
    refusal or an orphan record of an attempt can belong to one lease only. *)
Theorem attempt_numbers_spent_once db trace db' :
  db_run false db trace db' → db_ok policy db →
  NoDup trace ∧
  (∀ o n, (o, n) ∈ trace → ∃ d', d' ∈ deliveries (store db') ∧ d_observation_id d' = o ∧ n <= d_attempt_number d') ∧
  (∀ o n d, (o, n) ∈ trace → d ∈ deliveries (store db) → d_observation_id d = o → d_attempt_number d < n).
Proof. apply run_handed. Qed.

(** C21. The acknowledged watermark of a stream never passes an observation
    that no provider acknowledged and never moves back: in every journal that
    admissions, deliveries and privacy deletions make of an empty one without a
    sweep, each journal row at or below the watermark of its stream has an
    acknowledging receipt, and every later such run keeps each recovery row with
    a watermark at least as high. *)
Theorem acknowledged_watermark_sound before db trace db' :
  db_run false empty_journal before db → db_run false db trace db' →
  watermarks_sound (store db) ∧ watermarks_sound (store db') ∧
  ∀ v, v ∈ recovery (store db) → ∃ v', v' ∈ recovery (store db') ∧ v_key v' = v_key v ∧
    default (-1) (acknowledged_sequence v) <= default (-1) (acknowledged_sequence v').
Proof.
  intros H1' H2'. destruct (run_extends _ _ _ H1' empty_ok) as [Hok _].
  pose proof (unswept_run _ _ _ H1' empty_ok unswept_empty) as Hus.
  pose proof (unswept_run _ _ _ H2' Hok Hus) as Hus'. destruct (run_extends _ _ _ H2' Hok) as [_ He].
  split_and!; [apply Hus|apply Hus'|apply He].
Qed.

(** ** An event whose row was swept *)

Lemma append_row_fits db a n now db' :
  append_row db a n now = Ok db' →
  c_source_event_revision (a_source a) <= i64_max ∧ zlen (p_bytes (a_payload a)) <= i64_max.
Proof.
  unfold append_row. destruct (sql_i64 (c_source_event_revision _) _) as [r|] eqn:E1; [|done].
  destruct (sql_i64 (zlen _) _) as [l|] eqn:E2; [|done].
  apply sql_i64_ok in E1 as [_ ?]. apply sql_i64_ok in E2 as [_ ?]. done.
Qed.

Lemma append_row_unclaimed db a now :
  db_ok policy db → unclaimed db a → 1 <= queue_bytes a <= 3670016 →
  c_source_event_revision (a_source a) <= i64_max → zlen (p_bytes (a_payload a)) <= i64_max →
  append_row db a (c_source_sequence (a_source a)) now = Ok (appended_db db a now).
Proof.
  intros Hok Hu Hq Hr Hl. unfold append_row, sql_i64.
  rewrite (proj2 (Z.leb_le _ _) Hr), (proj2 (Z.leb_le _ _) Hl). unfold insert_journal.
  replace (existsb (journal_conflicts (journal_row_of a)) (journal (store db))) with false.
  2:{ symmetry. apply existsb_false. intros j Hj. destruct (Hu j Hj) as (? & ? & ?).
      apply journal_conflicts_spec. split_and!; by apply not_eq_sym. }
  simpl. rewrite (proj2 (Z.leb_le (Z.max _ _) _)) by (unfold i64_max; lia). unfold insert_delivery. simpl.
  replace (existsb _ (deliveries (store db))) with false; [done|].
  symmetry. apply existsb_false. intros d Hd.
  destruct (paired_elem _ _ _ (db_paired _ _ Hok) Hd) as (j & Hj & Hp). destruct (Hu j Hj) as (N1 & N2 & _).
  destruct Hp as [P1 P2]. unfold str_eqb. rewrite !bool_decide_eq_false_2 by congruence. done.
Qed.

(** The queue of a lane that has room. *)
Lemma pressure_allows db a :
  db_ok policy db → t_registration_revision (a_target a) <= i64_max → 1 <= queue_bytes a →
  let p := t_provider_id (a_target a) in let r := t_registration_revision (a_target a) in
  zlen (List.filter (in_lane p r) (deliveries (store db))) < max_queue_items policy →
  lane_bytes p r (deliveries (store db)) + queue_bytes a <= Z.min (max_queue_bytes policy) i64_max →
  ∃ pressure, read_pressure (store db) (lane_of (a_target a)) policy = Ok pressure ∧
    would_exceed pressure (queue_bytes a) = false.
Proof.
  intros Hok Hr Hq p r Hi Hb. unfold read_pressure, sql_i64. cbn [n_registration_revision n_provider_id lane_of].
  rewrite (proj2 (Z.leb_le _ _) Hr). fold p r.
  pose proof (queued_rows (store db) p r (db_paired _ _ Hok) (db_keys _ _ Hok)) as Hqr. unfold lane_bytes in Hb.
  rewrite <- Hqr in Hi, Hb. rewrite <- list_fmap_compose in Hb.
  change (d_queue_bytes ∘ fst) with (λ dj : DeliveryRow * JournalRow, d_queue_bytes (fst dj)) in Hb.
  unfold sql_sum. simpl. set (total := foldr _ _ _) in *.
  assert (0 <= total) as Ht.
  { assert (∀ dj, dj ∈ queued (store db) p r → 0 <= d_queue_bytes (fst dj)) as Hall.
    { intros [d j] [(Hd & _ & _)%joined_elem _]%elem_of_filterb. simpl.
      destruct (paired_elem _ _ _ (db_paired _ _ Hok) Hd) as (? & _ & Hp). pose proof (pr_weight _ _ Hp). lia. }
    unfold total. clear -Hall. revert Hall. induction (queued (store db) p r) as [|x l IH]; intros Hall; [done|].
    rewrite fmap_cons. cbn [foldr]. pose proof (Hall x ltac:(left)). specialize (IH ltac:(intros; apply Hall; by right)). lia. }
  rewrite (proj2 (Z.leb_le total i64_max)) by lia. simpl. unfold read_u64.
  rewrite (proj2 (Z.leb_le 0 (zlen _)) (zlen_nonneg _)), (proj2 (Z.leb_le 0 total) Ht).
  eexists. split; [done|]. unfold would_exceed. simpl. rewrite Z.geb_leb, Z.gtb_ltb.
  unfold zlen in *. rewrite length_fmap in Hi. rewrite (proj2 (Z.leb_gt _ _)) by lia. simpl.
  apply Z.ltb_ge. unfold sat_add. lia.
Qed.

(** C34. A sweep removes the row of an event that was delivered and keeps the
    cursor of its registration.  Wherever an envelope was admitted once, is
    still inside its deadline, no journal row has its key, observation or
    position any more, the cursor of the stream still names its event, and the
    queue has room, the same envelope is admitted again: a second pending
    delivery with attempt number zero.  Where the watermark of the stream
    already covers the position and the receipts were swept too, the watermark
    then covers an observation that nobody acknowledged. *)
Theorem swept_event_is_admitted_again db0 now0 db1 db a now :
  db_ok policy db0 →
  append_admitted_in_transaction policy db0 a now0 =
    Ok (Appended (a_observation_id a) (c_source_sequence (a_source a)), db1) →
  db_ok policy db → unclaimed db a → now < a_deadline_unix_micros a →
  non_message_at db (ingress_of_stream (admitted_stream a)) (c_source_sequence (a_source a)) = None →
  withheld_at db (ingress_of_stream (admitted_stream a)) (c_source_sequence (a_source a)) = false →
  (∀ c, select_target_cursor db (admitted_stream a) = Some c →
     tc_last_admitted_sequence c = c_source_sequence (a_source a) ∧
     tc_last_source_event_id c = c_source_event_id (a_source a) ∧
     tc_last_source_event_revision c = c_source_event_revision (a_source a)) →
  0 <= c_source_event_revision (a_source a) →
  zlen (List.filter (in_lane (t_provider_id (a_target a)) (t_registration_revision (a_target a)))
          (deliveries (store db))) < max_queue_items policy →
  lane_bytes (t_provider_id (a_target a)) (t_registration_revision (a_target a)) (deliveries (store db))
    + queue_bytes a <= Z.min (max_queue_bytes policy) i64_max →
  append_admitted_in_transaction policy db a now =
    Ok (Appended (a_observation_id a) (c_source_sequence (a_source a)), appended_db db a now) ∧
  (∃ d, d ∈ deliveries (store (appended_db db a now)) ∧ d_observation_id d = a_observation_id a ∧
     d_state d = Pending ∧ d_attempt_number d = 0) ∧
  ∀ v w, v ∈ recovery (store db) → v_key v = admitted_stream a → acknowledged_sequence v = Some w →
    c_source_sequence (a_source a) <= w →
    (∀ x, x ∈ receipts (store db) → r_observation_id x ≠ a_observation_id a) →
    ¬ watermarks_sound (store (appended_db db a now)).
Proof.
  intros Hok0 E0 Hok Hu Hnow Hnm Hwh Hcur Hrev Hitems Hbytes.
  destruct (append_checked _ _ _ _ E0) as (Hv & Hseq & Hreg).
  apply append_cases in E0 as [[_ Hna]|(_ & Hwf & _ & _ & _ & Hr0)]; [by destruct (Hna _ _ eq_refl)|].
  destruct (append_row_fits _ _ _ _ _ Hr0) as [Hr Hl]. pose proof (wf_queue _ Hwf) as Hq.
  assert (standing_outcome policy db a (c_source_sequence (a_source a)) = Ok None) as Hso.
  { unfold standing_outcome. destruct (select_by_key _ _) as [[d j]|] eqn:Ek.
    { apply head_filter_some in Ek as [(Hd & Hj & Hk)%joined_elem Ht]. row_tests. simpl in *.
      by destruct (Hu j Hj) as (N & _). }
    destruct (select_by_source _ _ _) as [j|] eqn:Es.
    { apply select_by_source_some in Es as (Hj & E1 & E2). destruct (Hu j Hj) as (_ & _ & N). by rewrite E1, E2 in N. }
    rewrite Hwh. destruct (pressure_allows db a Hok Hreg) as (pressure & Ep & Ew); [lia|done|done|].
    destruct (select_target_cursor db _) as [c|]; [|by rewrite Ep, Ew].
    destruct (Hcur c eq_refl) as (C1 & C2 & C3). unfold cursor_outcome, str_eqb, read_u64.
    rewrite bool_decide_eq_true_2 by done. rewrite C1, C3, (proj2 (Z.leb_le _ _) Hrev), Z.ltb_irrefl, !Z.eqb_refl.
    simpl. by rewrite Ep, Ew. }
  split_and!.
  - unfold append_admitted_in_transaction. rewrite Hv, Z.geb_leb, (proj2 (Z.leb_gt _ _) Hnow). unfold sql_i64.
    rewrite (proj2 (Z.leb_le _ _) Hseq), (proj2 (Z.leb_le _ _) Hreg). unfold reject_non_message.
    rewrite Hnm, Hso. by rewrite (append_row_unclaimed db a now Hok Hu ltac:(lia) Hr Hl).
  - exists (delivery_row_of a now). simpl. rewrite elem_of_app, list_elem_of_singleton. auto.
  - intros v w Hvr Hk Hw Hle Hno Hs.
    destruct (Hs v w (journal_row_of a) Hvr Hw) as (x & Hx & Ho & _); simpl.
    + rewrite elem_of_app, list_elem_of_singleton. auto.
    + by rewrite journal_row_stream.
    + done.
    + by apply (Hno x Hx).
Qed.

End system.

(** ** A concrete journal *)
Section samples.
#[local] Existing Instance mixing_sha256.

Definition sample_one : AdmittedObservationV1 := sample_admitted (str "o1") (str "event-1") 0.
Definition sample_two : AdmittedObservationV1 := sample_admitted (str "o2") (str "event-2") 1.

(** The journal after one more operation. *)
Definition admit_one (db : JournalDb) (a : AdmittedObservationV1) : JournalDb :=
  match append_admitted sample_retention db a with Ok (_, db') => db' | Err _ => db end.
Definition lease_all (db : JournalDb) : JournalDb :=
  match lease_pending sample_retention (store db) (sample_request 4) with
  | Ok (_, s) => with_store db s
  | Err _ => db
  end.
Definition settle_one (db : JournalDb) (r : ObservationDeliveryReceiptV1) : JournalDb :=
  match record_attempt sample_retention (store db) r with
  | Ok (_, s) => with_store db s
  | Err _ => db
  end.

Definition sample_ack (a : AdmittedObservationV1) : ObservationDeliveryReceiptV1 := {|
  receipt_id := receipt_id_derive (a_observation_id a) 1; r_observation_id := a_observation_id a;
  r_idempotency_key := a_idempotency_key a; r_payload_sha256 := p_sha256 (a_payload a);
  r_extensions_digest := a_extensions_digest a; r_provider_id := str "provider";
  r_provider_instance_id := Some (str "instance"); r_registration_revision := 1;
  state_generation_before := None; state_generation_after := None; r_attempt_number := 1;
  outcome := OutcomeApplied; committed_effect := EffectApplied;
  provider_effect_summary := empty_summary; provider_receipt_digest := Some sample_digest;
  started_at_unix_micros := 110; finished_at_unix_micros := 120; warnings := [];
|}.

Definition sample_admitted_db : JournalDb := admit_one (admit_one empty_journal sample_one) sample_two.
Definition sample_leased_db : JournalDb := lease_all sample_admitted_db.
Definition sample_acknowledged_db : JournalDb :=
  settle_one (settle_one sample_leased_db (sample_ack sample_one)) (sample_ack sample_two).

(** The journal after the two deliveries were acknowledged, purged and deleted. *)
Definition sample_swept_db : JournalDb :=
  snd (sweep_expired sample_retention
         (snd (sweep_expired sample_retention sample_acknowledged_db 950 10 (Ok true))) 2000 10 (Ok true)).

Lemma admit_step sweeps db a :
  0 <= c_source_sequence (a_source a) → rtc (db_step sample_retention sweeps) db (admit_one db a).
Proof.
  intros Hn. unfold admit_one. destruct (append_admitted _ _ _) as [[out x]|] eqn:E; [|done].
  apply rtc_once. eexists. by eapply db_append.
Qed.

Lemma lease_step sweeps db : rtc (db_step sample_retention sweeps) db (lease_all db).
Proof.
  unfold lease_all. destruct (lease_pending _ _ _) as [[leased s]|] eqn:E; [|done].
  apply rtc_once. eexists. eapply db_deliver, step_lease, E.
Qed.

Lemma settle_step sweeps db r : rtc (db_step sample_retention sweeps) db (settle_one db r).
Proof.
  unfold settle_one. destruct (record_attempt _ _ _) as [[out s]|] eqn:E; [|done].
  apply rtc_once. eexists. eapply db_deliver, step_record, E.
Qed.

Lemma sample_leased_run sweeps : rtc (db_step sample_retention sweeps) empty_journal sample_leased_db.
Proof.
  unfold sample_leased_db, sample_admitted_db. etrans; [|apply lease_step].
  etrans; [|apply admit_step; vm_compute; congruence]. apply admit_step. vm_compute. congruence.
Qed.

Lemma sample_settled_run sweeps : rtc (db_step sample_retention sweeps) empty_journal sample_acknowledged_db.
Proof.
  etrans; [apply sample_leased_run|]. unfold sample_acknowledged_db.
  etrans; [apply settle_step|apply settle_step].
Qed.

(** The same runs with the attempts that were leased. *)
Definition lease_labels (db : JournalDb) : list (rstr * Z) :=
  match lease_pending sample_retention (store db) (sample_request 4) with Ok (l, _) => labels l | Err _ => [] end.

Lemma admit_run db0 trace db a :
  0 <= c_source_sequence (a_source a) → db_run sample_retention false db0 trace db →
  db_run sample_retention false db0 trace (admit_one db a).
Proof.
  intros Hn Hr. unfold admit_one. destruct (append_admitted _ _ _) as [[out x]|] eqn:E; [|done].
  rewrite <- (app_nil_r trace). eapply db_run_more; [done|]. by eapply db_append.
Qed.

Lemma lease_run db0 trace db :
  db_run sample_retention false db0 trace db →
  db_run sample_retention false db0 (trace ++ lease_labels db) (lease_all db).
Proof.
  intros Hr. unfold lease_labels, lease_all. destruct (lease_pending _ _ _) as [[l s]|] eqn:E.
  - eapply db_run_more; [done|]. eapply db_deliver, step_lease, E.
  - by rewrite app_nil_r.
Qed.

Lemma settle_run db0 trace db r :
  db_run sample_retention false db0 trace db → db_run sample_retention false db0 trace (settle_one db r).
Proof.
  intros Hr. unfold settle_one. destruct (record_attempt _ _ _) as [[out s]|] eqn:E; [|done].
  rewrite <- (app_nil_r trace). eapply db_run_more; [done|]. eapply db_deliver, step_record, E.
Qed.

Lemma sample_admitted_run : db_run sample_retention false empty_journal [] sample_admitted_db.
Proof. apply admit_run; [vm_compute; congruence|]. apply admit_run; [vm_compute; congruence|]. constructor. Qed.

Lemma sample_db_run :
  db_run sample_retention false sample_admitted_db [(str "o1", 1); (str "o2", 1)] sample_acknowledged_db.
Proof.
  assert ([(str "o1", 1); (str "o2", 1)] = [] ++ lease_labels sample_admitted_db) as ->
    by (vm_compute; reflexivity).
  unfold sample_acknowledged_db, sample_leased_db.
  apply settle_run. apply settle_run. apply lease_run. constructor.
Qed.

Lemma sample_swept_run : rtc (db_step sample_retention true) empty_journal sample_swept_db.
Proof.
  etrans; [apply sample_settled_run|]. unfold sample_swept_db.
  etrans; apply rtc_once; eexists; eapply db_sweep; [done|apply surjective_pairing|done|apply surjective_pairing].
Qed.

Lemma sample_bounds : 0 <= max_queue_items sample_retention ∧ 0 <= max_queue_bytes sample_retention <= u64_max.
Proof. unfold u64_max. simpl. lia. Qed.

Lemma sample_acknowledged_facts :
  d_state <$> deliveries (store sample_acknowledged_db) = [Acknowledged; Acknowledged] ∧
  acknowledged_sequence <$> recovery (store sample_acknowledged_db) = [Some 1].
Proof. vm_compute. done. Qed.

Lemma journal_invariant_witness :
  db_ok sample_retention sample_acknowledged_db ∧ watermarks_sound (store sample_acknowledged_db) ∧
  d_state <$> deliveries (store sample_acknowledged_db) = [Acknowledged; Acknowledged].
Proof.
  destruct sample_bounds as [B1 B2].
  destruct (journal_invariant sample_retention B1 B2 sample_acknowledged_db) as [H1 H2].
  split; [apply H1, sample_settled_run|]. split; [apply H2, sample_settled_run|]. apply sample_acknowledged_facts.
Defined.

Lemma sample_append_facts :
  match append_admitted_in_transaction sample_retention empty_journal sample_one 10 with
  | Ok (Appended o n, _) => o = str "o1" ∧ n = 0
  | _ => False
  end.
Proof. vm_compute. done. Qed.

Lemma sample_one_inputs : 0 <= c_source_sequence (a_source sample_one) ∧ 20 < a_deadline_unix_micros sample_one.
Proof. vm_compute. split; congruence. Qed.

Lemma admission_outcomes_witness :
  ∃ db', append_admitted_in_transaction sample_retention empty_journal sample_one 10 =
           Ok (Appended (str "o1") 0, db') ∧
    append_admitted_in_transaction sample_retention db' sample_one 20 =
           Ok (DuplicateIdempotencyKey (str "o1") Pending, db').
Proof.
  destruct sample_bounds as [B1 B2]. destruct sample_one_inputs as [I1 I2].
  pose proof (admission_outcomes sample_retention B2 empty_journal sample_one 10
    (empty_ok sample_retention B1 B2) I1) as H1.
  pose proof sample_append_facts as H2. revert H1 H2. generalize sample_one I2. intros a Ha.
  destruct (append_admitted_in_transaction sample_retention empty_journal a 10) as [[[o n| | | | | | |] db']|];
    try done. intros (_ & _ & _ & _ & _ & Hagain) [-> ->]. exists db'. split; [done|]. by apply Hagain.
Defined.

Definition sample_forget : ForgetSourceRequestV1 :=
  {| fr_forget_source_key := str "session-1"; fr_reason := str "subject request";
     fr_requested_at_unix_micros := 130 |}.

Lemma sample_forget_facts :
  match forget_transaction sample_leased_db sample_forget with
  | Ok (r, _) => payloads_zeroed r = 2 ∧ fg_deliveries_forgotten r = 2
  | Err _ => False
  end.
Proof. vm_compute. done. Qed.

Lemma forgotten_source_is_erased_witness :
  ∃ r db', forget_transaction sample_leased_db sample_forget = Ok (r, db') ∧ payloads_zeroed r = 2 ∧
    (∃ v, verify_forgotten db' (str "session-1") (Ok true) = Ok v ∧ verified v = true).
Proof.
  destruct sample_bounds as [B1 B2]. pose proof sample_forget_facts as Hf.
  pose proof (db_run_ok sample_retention B2 false empty_journal sample_leased_db (sample_leased_run false)
    (empty_ok sample_retention B1 B2)) as Hok.
  revert Hf Hok. generalize sample_leased_db. intros db Hf Hok.
  destruct (forget_transaction db sample_forget) as [[r db']|] eqn:E; [|done].
  destruct (forgotten_source_is_erased sample_retention B2 db sample_forget r db' Hok E)
    as (_ & _ & _ & _ & Hv & _).
  exists r, db'. split; [done|]. split; [apply Hf|]. apply (Hv true).
Defined.

Lemma sample_admitted_ok : db_ok sample_retention sample_admitted_db.
Proof.
  destruct sample_bounds as [B1 B2].
  exact (proj1 (run_extends sample_retention B2 _ _ _ sample_admitted_run (empty_ok sample_retention B1 B2))).
Qed.

Lemma delivery_rows_follow_state_machine_witness :
  d_state <$> deliveries (store sample_acknowledged_db) = [Acknowledged; Acknowledged] ∧
  receipts (store sample_admitted_db) `prefix_of` receipts (store sample_acknowledged_db).
Proof.
  destruct sample_bounds as [B1 B2]. split; [apply sample_acknowledged_facts|].
  destruct (delivery_rows_follow_state_machine sample_retention B2 _ _ _ sample_db_run sample_admitted_ok)
    as (_ & _ & _ & Hp & _). exact Hp.
Defined.

Lemma attempt_numbers_spent_once_witness :
  NoDup [(str "o1", 1); (str "o2", 1)] ∧
  ∃ d, d ∈ deliveries (store sample_acknowledged_db) ∧ d_observation_id d = str "o2" ∧ 1 <= d_attempt_number d.
Proof.
  destruct sample_bounds as [B1 B2].
  destruct (attempt_numbers_spent_once sample_retention B2 _ _ _ sample_db_run sample_admitted_ok) as (Hn & Hu & _).
  split; [exact Hn|]. apply (Hu (str "o2") 1). right. left.
Defined.

Lemma acknowledged_watermark_sound_witness :
  acknowledged_sequence <$> recovery (store sample_acknowledged_db) = [Some 1] ∧
  watermarks_sound (store sample_acknowledged_db).
Proof.
  destruct sample_bounds as [B1 B2]. split; [apply sample_acknowledged_facts|].
  destruct (acknowledged_watermark_sound sample_retention B1 B2 _ _ _ _ sample_admitted_run sample_db_run)
    as (_ & Hw & _). exact Hw.
Defined.

Definition swept_again (db : JournalDb) (a : AdmittedObservationV1) : bool :=
  is_empty (journal (store db)) && is_empty (deliveries (store db)) && is_empty (receipts (store db))
  && bool_decide (non_message_at db (ingress_of_stream (admitted_stream a)) (c_source_sequence (a_source a)) = None)
  && negb (withheld_at db (ingress_of_stream (admitted_stream a)) (c_source_sequence (a_source a)))
  && match select_target_cursor db (admitted_stream a) with
     | Some c => (tc_last_admitted_sequence c =? c_source_sequence (a_source a))
                 && str_eqb (tc_last_source_event_id c) (c_source_event_id (a_source a))
                 && (tc_last_source_event_revision c =? c_source_event_revision (a_source a))
     | None => false
     end
  && existsb (λ v, bool_decide (v_key v = admitted_stream a)
                   && bool_decide (acknowledged_sequence v = Some (c_source_sequence (a_source a))))
       (recovery (store db)).

Lemma sample_swept_facts : swept_again sample_swept_db sample_two = true.
Proof. vm_compute. reflexivity. Qed.

Lemma sample_first_append :
  ∃ db1, append_admitted_in_transaction sample_retention (admit_one empty_journal sample_one) sample_two 10 =
    Ok (Appended (a_observation_id sample_two) (c_source_sequence (a_source sample_two)), db1).
Proof. eexists. vm_compute. reflexivity. Qed.

Lemma sample_two_bounds :
  0 <= c_source_event_revision (a_source sample_two) ∧ 20 < a_deadline_unix_micros sample_two ∧
  queue_bytes sample_two <= Z.min (max_queue_bytes sample_retention) i64_max.
Proof. vm_compute. split_and!; congruence. Qed.

Lemma swept_event_is_admitted_again_witness :
  append_admitted_in_transaction sample_retention sample_swept_db sample_two 20 =
    Ok (Appended (a_observation_id sample_two) (c_source_sequence (a_source sample_two)),
        appended_db sample_swept_db sample_two 20) ∧
  ¬ watermarks_sound (store (appended_db sample_swept_db sample_two 20)).
Proof.
  destruct sample_bounds as [B1 B2]. pose proof (empty_ok sample_retention B1 B2) as H0'.
  pose proof (db_run_ok sample_retention B2 true empty_journal sample_swept_db sample_swept_run H0') as Hok.
  assert (db_ok sample_retention (admit_one empty_journal sample_one)) as Hok0.
  { eapply (db_run_ok sample_retention B2 true empty_journal); [|exact H0'].
    apply admit_step. vm_compute. congruence. }
  destruct sample_first_append as [db1 E0]. destruct sample_two_bounds as (R1 & R2 & R3).
  pose proof sample_swept_facts as Hf. revert Hf Hok E0 R1 R2 R3.
  generalize sample_two, sample_swept_db. intros a db Hf Hok E0 R1 R2 R3. unfold swept_again in Hf.
  apply andb_true_iff in Hf as [Hf F7]. apply andb_true_iff in Hf as [Hf F6]. apply andb_true_iff in Hf as [Hf F5].
  apply andb_true_iff in Hf as [Hf F4]. apply andb_true_iff in Hf as [Hf F3]. apply andb_true_iff in Hf as [F1 F2].
  assert (journal (store db) = []) as J by by destruct (journal (store db)).
  assert (deliveries (store db) = []) as D by by destruct (deliveries (store db)).
  assert (receipts (store db) = []) as R by by destruct (receipts (store db)).
  apply bool_decide_eq_true_1 in F4. apply negb_true_iff in F5.
  destruct (swept_event_is_admitted_again sample_retention B2 _ 10 db1 db a 20 Hok0 E0 Hok) as (A & _ & B).
  - intros j Hj. rewrite J in Hj. by apply elem_of_nil in Hj.
  - exact R2.
  - exact F4.
  - exact F5.
  - intros c Ec. rewrite Ec in F6. row_tests. split_and!; (done || lia).
  - exact R1.
  - rewrite D. done.
  - rewrite D. exact R3.
  - split; [exact A|]. apply existsb_spec in F7 as (v & Hv & Ht). bools.
    apply (B v (c_source_sequence (a_source a)) Hv); [done|done|lia|].
    intros x Hx. rewrite R in Hx. by apply elem_of_nil in Hx.
Defined.
End samples.
