(* ===== verification/ObservationFence.v ===== *)
(** * Provider source fences

    The deletion intents of
    [tracedecay-memory-observation/src/sqlite/retention.rs]: a fence per provider
    and original source with a compare-and-set revision, the immutable receipt of
    every operation, and the rule which source revisions a fence blocks.

    The two tables hold the values their JSON columns encode: a request tuple is
    compared where the code compares its serialization, and the size bound of the
    stored JSON (16 384 bytes) is not modelled, since at most five labels of 1 024
    bytes without control characters stay below it.  The control check of a
    bounded operation is an argument, its outcome at the three places where the
    transaction asks. *)
From stdpp Require Import base list numbers sorting strings relations.
From S2P Require Import Prelude.
From S2P Require Import RustText.
From S2P Require Import Bytes.
From S2P Require Import ObservationState.
From S2P Require Import ObservationJournal.
From S2P Require Import ObservationAppend.

#[local] Open Scope Z_scope.
#[local] Open Scope rust_scope.

(** ** Data *)
Inductive DeletionMode : Type := RemoveInfluence | HardDelete | Anonymize.

Definition REMOVE_INFLUENCE : rstr := str "remove_influence".
Definition HARD_DELETE : rstr := str "hard_delete".
Definition ANONYMIZE : rstr := str "anonymize".

Definition deletion_mode_as_wire (self : DeletionMode) : rstr :=
  match self with
  | RemoveInfluence => REMOVE_INFLUENCE
  | HardDelete => HARD_DELETE
  | Anonymize => ANONYMIZE
  end.

Record ProviderSourceFenceV1 : Type := {
  fc_provider_id : rstr;
  fc_original_source_sha256 : rstr;
  fc_revision : Z;
  fc_mode : rstr;
  fc_deleted_source_revision : option rstr;
  fc_admitted_source_revision : option rstr;
  fc_authority_ref : rstr;
  fc_accepted_at_utc_micros : Z;
}.

Definition blocks_revision (self : ProviderSourceFenceV1) (revision : option rstr) : bool :=
  negb (str_eqb (fc_mode self) REMOVE_INFLUENCE)
  || match fc_admitted_source_revision self with None => true | Some _ => false end
  || negb (bool_decide (fc_admitted_source_revision self = revision)).

Record ProviderSourceIntentReceiptV1 : Type := {
  ir_operation_id : rstr;
  ir_fence : ProviderSourceFenceV1;
  ir_provider_erasure_verified : bool;
}.

(** The serialized retry identity of an operation. *)
Definition IntentRequest : Type := rstr * Z * rstr * option rstr * rstr * bool.

Record FenceRow : Type := {
  fw_provider_id : rstr;
  fw_original_source_sha256 : rstr;
  fw_revision : Z;
  fw_fence : ProviderSourceFenceV1;
}.

Record IntentRow : Type := {
  iw_provider_id : rstr;
  iw_operation_id : rstr;
  iw_request : IntentRequest;
  iw_receipt : ProviderSourceIntentReceiptV1;
}.

Record FenceDb : Type := {
  fences : list FenceRow;
  intents : list IntentRow;
}.

Definition fence_conflict {A} (field : rstr) : result A ObservationJournalError :=
  Err (UnsettledSource field).

Definition validate_fence_label (value field : rstr) : result unit ObservationJournalError :=
  let? _ := require_bounded value field 1024 in
  if negb (bool_decide (trim value = value)) || existsb is_control value
  then fence_conflict field else Ok tt.

(** The loop over the revisions that are present. *)
Fixpoint validate_revisions (revisions : list (option rstr)) : result unit ObservationJournalError :=
  match revisions with
  | [] => Ok tt
  | None :: revisions => validate_revisions revisions
  | Some value :: revisions =>
    let? _ := validate_fence_label value (str "source_revision") in validate_revisions revisions
  end.

Definition known_mode (mode : rstr) : bool :=
  str_eqb mode REMOVE_INFLUENCE || str_eqb mode HARD_DELETE || str_eqb mode ANONYMIZE.

Definition is_some {A} (o : option A) : bool := match o with Some _ => true | None => false end.

(** ** Reading *)
Definition select_fence (db : FenceDb) (provider_id source : rstr) : option FenceRow :=
  head (List.filter (λ r, str_eqb (fw_provider_id r) provider_id
                          && str_eqb (fw_original_source_sha256 r) source) (fences db)).

Definition read_source_fence (db : FenceDb) (provider_id source : rstr) :
    result (option ProviderSourceFenceV1) ObservationJournalError :=
  match select_fence db provider_id source with
  | None => Ok None
  | Some row =>
    let fence := fw_fence row in
    if negb (str_eqb (fc_provider_id fence) provider_id)
       || negb (str_eqb (fc_original_source_sha256 fence) source)
    then fence_conflict (str "provider_source_fence_binding") else
    let? revision := read_u64 (fw_revision row) (str "fence_revision") in
    if negb (fc_revision fence =? revision)
       || negb (known_mode (fc_mode fence))
       || (fc_revision fence =? 0)
       || (negb (str_eqb (fc_mode fence) REMOVE_INFLUENCE) && is_some (fc_admitted_source_revision fence))
    then fence_conflict (str "provider_source_fence_binding") else
    let? _ := validate_fence_label (fc_authority_ref fence) (str "fence_authority_ref") in
    let? _ := validate_revisions [fc_deleted_source_revision fence; fc_admitted_source_revision fence] in
    Ok (Some fence)
  end.

(** ** Transitions *)
Record PreparedSourceFenceTransition : Type := {
  pt_operation_id : rstr;
  pt_provider_id : rstr;
  pt_source : rstr;
  pt_expected : Z;
  pt_mode : rstr;
  pt_revision : option rstr;
  pt_authority_ref : rstr;
  pt_accepted_at : Z;
  pt_admit_revision : bool;
}.

(** [request_json]. *)
Definition request_of (self : PreparedSourceFenceTransition) : IntentRequest :=
  (pt_source self, pt_expected self, pt_mode self, pt_revision self, pt_authority_ref self,
   pt_admit_revision self).

Definition prepare_transition (operation_id provider_id source : rstr) (expected : Z) (mode : rstr)
    (revision : option rstr) (authority_ref : rstr) (accepted_at : Z) (admit_revision : bool) :
    result PreparedSourceFenceTransition ObservationJournalError :=
  let? _ := validate_fence_label operation_id (str "operation_id") in
  let? _ := validate_fence_label provider_id (str "provider_id") in
  let? _ := validate_fence_label authority_ref (str "authority_ref") in
  let? _ := validate_revisions [revision] in
  let? _ := require_sha256 source (str "original_source_sha256") in
  Ok {| pt_operation_id := operation_id; pt_provider_id := provider_id; pt_source := source;
        pt_expected := expected; pt_mode := mode; pt_revision := revision;
        pt_authority_ref := authority_ref; pt_accepted_at := accepted_at;
        pt_admit_revision := admit_revision |}.

(** [expected.checked_add(1).filter(|v| *v <= i64::MAX)]. *)
Definition next_revision (expected : Z) : result Z ObservationJournalError :=
  match checked_add u64_max expected 1 with
  | Some next => if next <=? i64_max then Ok next else Err (ValueOutOfRange (str "fence_revision"))
  | None => Err (ValueOutOfRange (str "fence_revision"))
  end.

(** The receipt is the one this very request would have produced. *)
Definition receipt_bound (self : PreparedSourceFenceTransition) (expected_revision : Z)
    (receipt : ProviderSourceIntentReceiptV1) : bool :=
  let fence := ir_fence receipt in
  negb (negb (str_eqb (ir_operation_id receipt) (pt_operation_id self))
    || negb (str_eqb (fc_provider_id fence) (pt_provider_id self))
    || negb (str_eqb (fc_original_source_sha256 fence) (pt_source self))
    || ir_provider_erasure_verified receipt
    || negb (fc_revision fence =? expected_revision)
    || negb (str_eqb (fc_authority_ref fence) (pt_authority_ref self))
    || negb (known_mode (fc_mode fence))
    || (negb (str_eqb (fc_mode fence) REMOVE_INFLUENCE) && is_some (fc_admitted_source_revision fence))
    || (pt_admit_revision self
        && (negb (str_eqb (fc_mode fence) REMOVE_INFLUENCE)
            || negb (bool_decide (fc_admitted_source_revision fence = pt_revision self))))
    || (negb (pt_admit_revision self)
        && (negb (bool_decide (fc_deleted_source_revision fence = pt_revision self))
            || is_some (fc_admitted_source_revision fence)
            || (str_eqb (pt_mode self) HARD_DELETE && negb (str_eqb (fc_mode fence) HARD_DELETE))
            || (str_eqb (pt_mode self) ANONYMIZE && str_eqb (fc_mode fence) REMOVE_INFLUENCE)))).

Definition read_intent_receipt (db : FenceDb) (self : PreparedSourceFenceTransition) :
    result (option ProviderSourceIntentReceiptV1) ObservationJournalError :=
  match head (List.filter (λ r, str_eqb (iw_provider_id r) (pt_provider_id self)
                                && str_eqb (iw_operation_id r) (pt_operation_id self)) (intents db)) with
  | None => Ok None
  | Some row =>
    if negb (bool_decide (iw_request row = request_of self))
    then fence_conflict (str "source_intent_idempotency_conflict") else
    let receipt := iw_receipt row in
    let? expected_revision := next_revision (pt_expected self) in
    if negb (receipt_bound self expected_revision receipt)
    then fence_conflict (str "source_intent_receipt_binding") else
    let? _ := validate_fence_label (fc_authority_ref (ir_fence receipt)) (str "fence_authority_ref") in
    let? _ := validate_revisions [fc_deleted_source_revision (ir_fence receipt);
                                  fc_admitted_source_revision (ir_fence receipt)] in
    Ok (Some receipt)
  end.

(** Strong privacy modes cannot be weakened by a later intent. *)
Definition stronger_mode (mode : rstr) (previous_mode : option rstr) : rstr :=
  if str_eqb mode HARD_DELETE || opt_eqb previous_mode HARD_DELETE then HARD_DELETE
  else if str_eqb mode ANONYMIZE || opt_eqb previous_mode ANONYMIZE then ANONYMIZE
  else REMOVE_INFLUENCE.

(** The fence the transition commits, at its revision. *)
Definition next_fence (self : PreparedSourceFenceTransition) (current : option ProviderSourceFenceV1)
    (next : Z) : result ProviderSourceFenceV1 ObservationJournalError :=
  if pt_admit_revision self then
    match current with
    | None => fence_conflict (str "source_fence_missing")
    | Some fence =>
      if negb (str_eqb (fc_mode fence) REMOVE_INFLUENCE)
         || negb (is_some (pt_revision self))
         || bool_decide (pt_revision self = fc_deleted_source_revision fence)
         || bool_decide (pt_revision self = fc_admitted_source_revision fence)
      then fence_conflict (str "source_revision_not_admitted")
      else Ok {| fc_provider_id := fc_provider_id fence;
                 fc_original_source_sha256 := fc_original_source_sha256 fence;
                 fc_revision := next; fc_mode := fc_mode fence;
                 fc_deleted_source_revision := fc_deleted_source_revision fence;
                 fc_admitted_source_revision := pt_revision self;
                 fc_authority_ref := pt_authority_ref self;
                 fc_accepted_at_utc_micros := pt_accepted_at self |}
    end
  else Ok {| fc_provider_id := pt_provider_id self; fc_original_source_sha256 := pt_source self;
             fc_revision := next; fc_mode := stronger_mode (pt_mode self) (fc_mode <$> current);
             fc_deleted_source_revision := pt_revision self; fc_admitted_source_revision := None;
             fc_authority_ref := pt_authority_ref self;
             fc_accepted_at_utc_micros := pt_accepted_at self |}.

(** [INSERT ... ON CONFLICT DO UPDATE] of the fence. *)
Definition upsert_fence (row : FenceRow) (rows : list FenceRow) : list FenceRow :=
  upsert (λ r, (fw_provider_id r, fw_original_source_sha256 r))
    (fw_provider_id row, fw_original_source_sha256 row)
    (λ r, {| fw_provider_id := fw_provider_id r;
             fw_original_source_sha256 := fw_original_source_sha256 r;
             fw_revision := fw_revision row; fw_fence := fw_fence row |}) row rows.

Definition apply_transition (db : FenceDb) (self : PreparedSourceFenceTransition)
    (check : nat → result unit ObservationJournalError) :
    result (ProviderSourceIntentReceiptV1 * FenceDb) ObservationJournalError :=
  let? _ := check 0%nat in
  let? standing := read_intent_receipt db self in
  match standing with
  | Some receipt => Ok (receipt, db)
  | None =>
    let? current := read_source_fence db (pt_provider_id self) (pt_source self) in
    if negb (default 0 (fc_revision <$> current) =? pt_expected self)
    then fence_conflict (str "source_fence_revision_conflict") else
    let? next := next_revision (pt_expected self) in
    let? fence := next_fence self current next in
    let? _ := check 1%nat in
    let receipt := {| ir_operation_id := pt_operation_id self; ir_fence := fence;
                      ir_provider_erasure_verified := false |} in
    let? _ := check 2%nat in
    Ok (receipt,
        {| fences := upsert_fence {| fw_provider_id := pt_provider_id self;
                                     fw_original_source_sha256 := pt_source self;
                                     fw_revision := next; fw_fence := fence |} (fences db);
           intents := intents db ++ [{| iw_provider_id := pt_provider_id self;
                                        iw_operation_id := pt_operation_id self;
                                        iw_request := request_of self; iw_receipt := receipt |}] |})
  end.

(** ** Operations *)
Record ProviderSourceDeletionIntentV1 : Type := {
  di_operation_id : rstr;
  di_provider_id : rstr;
  di_original_source_sha256 : rstr;
  di_expected_fence_revision : Z;
  di_mode : DeletionMode;
  di_source_revision : option rstr;
  di_authority_ref : rstr;
  di_accepted_at_utc_micros : Z;
}.

Record ProviderSourceRevisionAdmissionV1 : Type := {
  ra_operation_id : rstr;
  ra_provider_id : rstr;
  ra_original_source_sha256 : rstr;
  ra_expected_fence_revision : Z;
  ra_source_revision : rstr;
  ra_authority_ref : rstr;
  ra_accepted_at_utc_micros : Z;
}.

Definition prepare_deletion (request : ProviderSourceDeletionIntentV1) :
    result PreparedSourceFenceTransition ObservationJournalError :=
  prepare_transition (di_operation_id request) (di_provider_id request)
    (di_original_source_sha256 request) (di_expected_fence_revision request)
    (deletion_mode_as_wire (di_mode request)) (di_source_revision request)
    (di_authority_ref request) (di_accepted_at_utc_micros request) false.

Definition record_provider_source_deletion_intent (db : FenceDb)
    (request : ProviderSourceDeletionIntentV1) :
    result (ProviderSourceIntentReceiptV1 * FenceDb) ObservationJournalError :=
  let? prepared := prepare_deletion request in
  apply_transition db prepared (λ _, Ok tt).

Definition admit_provider_source_revision (db : FenceDb) (request : ProviderSourceRevisionAdmissionV1) :
    result (ProviderSourceIntentReceiptV1 * FenceDb) ObservationJournalError :=
  let? prepared := prepare_transition (ra_operation_id request) (ra_provider_id request)
    (ra_original_source_sha256 request) (ra_expected_fence_revision request) REMOVE_INFLUENCE
    (Some (ra_source_revision request)) (ra_authority_ref request)
    (ra_accepted_at_utc_micros request) true in
  apply_transition db prepared (λ _, Ok tt).

(** ** Lemmas *)
Ltac fence_tests :=
  unfold str_eqb in *; bools;
  repeat match goal with H : (_ =? _) = true |- _ => apply Z.eqb_eq in H end.

(** How much a mode erases. *)
Definition strength (mode : rstr) : Z :=
  if str_eqb mode HARD_DELETE then 2 else if str_eqb mode ANONYMIZE then 1 else 0.

Lemma modes_distinct : HARD_DELETE ≠ ANONYMIZE ∧ HARD_DELETE ≠ REMOVE_INFLUENCE ∧ ANONYMIZE ≠ REMOVE_INFLUENCE.
Proof. done. Qed.

Lemma stronger_mode_strength mode previous :
  strength mode <= strength (stronger_mode mode previous) ∧
  (∀ m, previous = Some m → strength m <= strength (stronger_mode mode previous)) ∧
  known_mode (stronger_mode mode previous) = true.
Proof.
  unfold stronger_mode, strength, opt_eqb, str_eqb.
  repeat case_bool_decide; simpl; split_and!; try done; try lia; intros m Hm;
    repeat case_bool_decide; simplify_eq; done.
Qed.

(** A fence at or past the one a receipt committed. *)
Definition supersedes (old new : ProviderSourceFenceV1) : Prop :=
  fc_revision old <= fc_revision new ∧ strength (fc_mode old) <= strength (fc_mode new) ∧
  (fc_revision old = fc_revision new → new = old).

#[export] Instance supersedes_preorder : PreOrder supersedes.
Proof.
  split; [intros f; by split_and!|]. intros f1 f2 f3 (A1 & A2 & A3) (B1 & B2 & B3).
  split_and!; [lia|lia|]. intros E. rewrite B3 by lia. apply A3. lia.
Qed.

Definition fence_key (r : FenceRow) : rstr * rstr := (fw_provider_id r, fw_original_source_sha256 r).
Definition intent_key (r : IntentRow) : rstr * rstr := (iw_provider_id r, iw_operation_id r).

Definition fence_of (db : FenceDb) (provider_id source : rstr) : option ProviderSourceFenceV1 :=
  fw_fence <$> select_fence db provider_id source.

Record fences_ok (db : FenceDb) : Prop := {
  fo_keys : NoDup (fence_key <$> fences db);
  fo_intents : NoDup (intent_key <$> intents db);
  fo_bound : ∀ r, r ∈ fences db → fc_revision (fw_fence r) = fw_revision r;
  fo_behind : ∀ i, i ∈ intents db → ∃ r, r ∈ fences db ∧
    fence_key r = (iw_provider_id i, fc_original_source_sha256 (ir_fence (iw_receipt i))) ∧
    supersedes (ir_fence (iw_receipt i)) (fw_fence r);
}.

Lemma select_fence_some db p s r :
  fences_ok db → select_fence db p s = Some r ↔ r ∈ fences db ∧ fence_key r = (p, s).
Proof.
  intros Hok. unfold select_fence. split.
  - intros [Hr Ht]%head_filter_some. unfold str_eqb in Ht. bools. split; [done|]. unfold fence_key. congruence.
  - intros [Hr Hk]. unfold fence_key in Hk. injection Hk as <- <-. apply (head_filter_unique fence_key).
    + apply Hok.
    + intros x _ Hx. unfold str_eqb in Hx. bools. unfold fence_key. congruence.
    + done.
    + unfold str_eqb. by rewrite !bool_decide_eq_true_2.
Qed.

Lemma select_fence_none db p s r :
  select_fence db p s = None → r ∈ fences db → fence_key r ≠ (p, s).
Proof.
  intros Hn Hr Hk. pose proof (head_filter_none _ _ _ Hn Hr) as Hf. unfold fence_key in Hk.
  injection Hk as <- <-. unfold str_eqb in Hf. by rewrite !bool_decide_eq_true_2 in Hf.
Qed.

Lemma read_source_fence_spec db p s current :
  read_source_fence db p s = Ok current →
  (current = None ∧ select_fence db p s = None) ∨
  ∃ row f, current = Some f ∧ select_fence db p s = Some row ∧ fw_fence row = f ∧
    fc_provider_id f = p ∧ fc_original_source_sha256 f = s ∧ fc_revision f = fw_revision row ∧
    known_mode (fc_mode f) = true ∧
    validate_revisions [fc_deleted_source_revision f; fc_admitted_source_revision f] = Ok tt.
Proof.
  unfold read_source_fence. destruct (select_fence db p s) as [row|]; [|intros [= <-]; by left].
  lazymatch goal with |- context [if ?b then _ else _] => destruct b eqn:E1 end; [done|].
  unfold read_u64. destruct (0 <=? _); [|done].
  lazymatch goal with |- context [if ?b then _ else _] => destruct b eqn:E2 end; [done|].
  destruct (validate_fence_label _ _); [|done].
  destruct (validate_revisions _) as [[]|] eqn:E3; [|done]. intros [= <-]. right. exists row, (fw_fence row).
  fence_tests. by split_and!.
Qed.

(** What a transition that was prepared from a request satisfies. *)
Record prepared_ok (p : PreparedSourceFenceTransition) : Prop := {
  po_authority : validate_fence_label (pt_authority_ref p) (str "fence_authority_ref") = Ok tt;
  po_revision : validate_revisions [pt_revision p] = Ok tt;
}.

Lemma validate_fence_label_field value f g :
  validate_fence_label value f = Ok tt → validate_fence_label value g = Ok tt.
Proof.
  unfold validate_fence_label, require_bounded, require_non_empty. destruct (is_empty value); [done|].
  destruct (_ >? _); [done|]. by destruct (_ || _).
Qed.

Lemma prepare_transition_ok op prov source e mode rev auth t adm p :
  prepare_transition op prov source e mode rev auth t adm = Ok p →
  prepared_ok p ∧
  p = {| pt_operation_id := op; pt_provider_id := prov; pt_source := source; pt_expected := e;
         pt_mode := mode; pt_revision := rev; pt_authority_ref := auth; pt_accepted_at := t;
         pt_admit_revision := adm |}.
Proof.
  unfold prepare_transition. destruct (validate_fence_label op _); [|done].
  destruct (validate_fence_label prov _); [|done].
  destruct (validate_fence_label auth _) as [[]|] eqn:E1; [|done].
  destruct (validate_revisions _) as [[]|] eqn:E2; [|done]. destruct (require_sha256 _ _); [|done].
  intros [= <-]. split; [split; simpl; [by eapply validate_fence_label_field|done]|done].
Qed.

Lemma validate_revisions_pair a b :
  validate_revisions [a; b] = Ok tt ↔ validate_revisions [a] = Ok tt ∧ validate_revisions [b] = Ok tt.
Proof.
  destruct a as [a|], b as [b|]; simpl; try tauto; destruct (validate_fence_label a _) as [[]|];
    try tauto; split; try done; by intros [? ?].
Qed.

(** What the fresh branch of a transition establishes. *)
Record committed (p : PreparedSourceFenceTransition) (db : FenceDb)
    (r : ProviderSourceIntentReceiptV1) (db' : FenceDb) : Prop := {
  cm_fresh : ∀ i, i ∈ intents db → intent_key i ≠ (pt_provider_id p, pt_operation_id p);
  cm_next : next_revision (pt_expected p) = Ok (fc_revision (ir_fence r)) ∧
    fc_revision (ir_fence r) = pt_expected p + 1;
  cm_bound : receipt_bound p (fc_revision (ir_fence r)) r = true;
  cm_labels : validate_revisions [fc_deleted_source_revision (ir_fence r);
                                  fc_admitted_source_revision (ir_fence r)] = Ok tt;
  cm_source : fc_original_source_sha256 (ir_fence r) = pt_source p;
  cm_current : fence_of db (pt_provider_id p) (pt_source p) = None ∨
    ∃ f, fence_of db (pt_provider_id p) (pt_source p) = Some f ∧ fc_revision f = pt_expected p ∧
      strength (fc_mode f) <= strength (fc_mode (ir_fence r));
  cm_fences : fences db' = upsert_fence {| fw_provider_id := pt_provider_id p;
    fw_original_source_sha256 := pt_source p; fw_revision := fc_revision (ir_fence r);
    fw_fence := ir_fence r |} (fences db);
  cm_intents : intents db' = intents db ++ [{| iw_provider_id := pt_provider_id p;
    iw_operation_id := pt_operation_id p; iw_request := request_of p; iw_receipt := r |}];
}.

Lemma next_revision_ok e n : next_revision e = Ok n → n = e + 1.
Proof.
  unfold next_revision, checked_add. case_bool_decide; [|done]. destruct (_ <=? i64_max); [|done].
  by intros [= <-].
Qed.

Lemma next_fence_ok p current next f op :
  prepared_ok p → next_fence p current next = Ok f → op = pt_operation_id p →
  (current = None ∨ ∃ c, current = Some c ∧ fc_provider_id c = pt_provider_id p ∧
     fc_original_source_sha256 c = pt_source p ∧
     validate_revisions [fc_deleted_source_revision c; fc_admitted_source_revision c] = Ok tt) →
  receipt_bound p next {| ir_operation_id := op; ir_fence := f; ir_provider_erasure_verified := false |} = true ∧
  fc_revision f = next ∧ fc_original_source_sha256 f = pt_source p ∧
  validate_revisions [fc_deleted_source_revision f; fc_admitted_source_revision f] = Ok tt ∧
  (∀ c, current = Some c → strength (fc_mode c) <= strength (fc_mode f)).
Proof.
  intros [_ Hrev] Hn -> Hc. unfold next_fence in Hn. unfold receipt_bound.
  destruct (pt_admit_revision p) eqn:Ea.
  - destruct current as [c|]; [|done]. destruct Hc as [?|(c' & [= <-] & Hp & Hs & Hl)]; [done|].
    destruct (_ || _) eqn:Eb; [done|]. unfold str_eqb in Eb. bools. injection Hn as <-.
    cbn -[validate_revisions strength str]. rewrite Hp, Hs, Z.eqb_refl. unfold known_mode, str_eqb.
    rewrite (bool_decide_eq_true_2 (fc_mode c = REMOVE_INFLUENCE)),
      (bool_decide_eq_true_2 (pt_revision p = pt_revision p)), !bool_decide_eq_true_2 by done.
    split_and!; [done..| |by intros c' [= <-]].
    rewrite validate_revisions_pair in Hl |- *. by destruct Hl.
  - injection Hn as <-. cbn -[validate_revisions strength str stronger_mode].
    destruct (stronger_mode_strength (pt_mode p) (fc_mode <$> current)) as (S1 & S2 & S3).
    rewrite S3, Z.eqb_refl, andb_false_r.
    rewrite (bool_decide_eq_true_2 (pt_revision p = pt_revision p)) by done.
    split_and!; [|done|done|by rewrite validate_revisions_pair|intros c ->; by apply S2].
    unfold strength, str_eqb in *. rewrite !(bool_decide_eq_true_2 (_ = _)) by done.
    destruct modes_distinct as (N1 & N2 & N3). repeat case_bool_decide; simpl; try done; try lia; congruence.
Qed.

(** A transition answers with a standing receipt or commits a new fence. *)
Lemma apply_cases db p check r db' :
  fences_ok db → prepared_ok p → apply_transition db p check = Ok (r, db') →
  (db' = db ∧ ∃ i, i ∈ intents db ∧ intent_key i = (pt_provider_id p, pt_operation_id p) ∧
     iw_request i = request_of p ∧ iw_receipt i = r ∧ read_intent_receipt db p = Ok (Some r)) ∨
  committed p db r db'.
Proof.
  intros Hok Hp. unfold apply_transition. destruct (check 0%nat); [|done].
  destruct (read_intent_receipt db p) as [[x|]|] eqn:Er; [| |done].
  - intros [= <- <-]. left. split; [done|]. unfold read_intent_receipt in Er.
    destruct (head _) as [row|] eqn:Eh; [|done]. apply head_filter_some in Eh as [Hi Hk].
    exists row. destruct (bool_decide _) eqn:Eq; [|done]. cbn [negb] in Er.
    destruct (next_revision _); [|done]. destruct (negb _); [done|].
    destruct (validate_fence_label _ _); [|done]. destruct (validate_revisions _); [|done].
    injection Er as <-. fence_tests. unfold intent_key. split_and!; [done|congruence|done|done|].
    unfold read_intent_receipt. done.
  - destruct (read_source_fence _ _ _) as [current|] eqn:Ef; [|done].
    destruct (negb _) eqn:Ee; [done|]. apply negb_false_iff, Z.eqb_eq in Ee.
    destruct (next_revision _) as [next|] eqn:En; [|done].
    destruct (next_fence p current next) as [f|] eqn:Enf; [|done].
    destruct (check 1%nat); [|done]. destruct (check 2%nat); [|done]. intros [= <- <-]. right.
    pose proof (read_source_fence_spec _ _ _ _ Ef) as Hc.
    destruct (next_fence_ok p current next f (pt_operation_id p) Hp Enf eq_refl) as (B1 & B2 & B3 & B4 & B5).
    { destruct Hc as [[-> _]|(row & c & -> & _ & _ & H1 & H2 & _ & _ & H3)]; [by left|right; by exists c]. }
    split; simpl; try done.
    + intros i Hi Hk. unfold read_intent_receipt in Er. destruct (head _) as [row|] eqn:Eh.
      * repeat case_match; done.
      * pose proof (head_filter_none _ _ _ Eh Hi) as Hf. unfold intent_key in Hk. injection Hk as K1 K2.
        unfold str_eqb in Hf. by rewrite K1, K2, !bool_decide_eq_true_2 in Hf.
    + rewrite B2. split; [done|]. by apply next_revision_ok.
    + by rewrite B2.
    + unfold fence_of. destruct Hc as [[-> ->]|(row & c & -> & -> & <- & _)]; [by left|right].
      exists (fw_fence row). split_and!; [done|done|]. by apply B5.
    + by rewrite B2.
Qed.

(** *** The tables after a commit *)
Section committed.
Context (db db' : FenceDb) (p : PreparedSourceFenceTransition) (r : ProviderSourceIntentReceiptV1).
Context (Hok : fences_ok db) (Hc : committed p db r db').

Lemma committed_elem x :
  x ∈ fences db' →
  (x ∈ fences db ∧ fence_key x ≠ (pt_provider_id p, pt_source p)) ∨
  (fence_key x = (pt_provider_id p, pt_source p) ∧ fw_revision x = fc_revision (ir_fence r) ∧
   fw_fence x = ir_fence r).
Proof.
  rewrite (cm_fences _ _ _ _ Hc). intros [[Hx Hk]|[(y & Hy & Hk & ->)| ->]]%upsert_elem;
    [by left|right|right]; split; done.
Qed.

Lemma committed_in x :
  x ∈ fences db → fence_key x ≠ (pt_provider_id p, pt_source p) → x ∈ fences db'.
Proof.
  intros Hx Hk. rewrite (cm_fences _ _ _ _ Hc).
  eapply upsert_in in Hx. unfold upsert_fence. rewrite bool_decide_eq_false_2 in Hx; [exact Hx|done].
Qed.

Lemma committed_row :
  ∃ x, x ∈ fences db' ∧ fence_key x = (pt_provider_id p, pt_source p) ∧ fw_fence x = ir_fence r.
Proof.
  rewrite (cm_fences _ _ _ _ Hc). unfold upsert_fence.
  destruct (select_fence db (pt_provider_id p) (pt_source p)) as [y|] eqn:Ey.
  - apply (select_fence_some _ _ _ _ Hok) in Ey as [Hy Hk]. eexists. split; [by eapply upsert_in|].
    rewrite bool_decide_eq_true_2 by done. done.
  - eexists. split; [apply upsert_fresh; intros x Hx; by apply (select_fence_none db)|]. done.
Qed.

(** The fence of the key rises; before the commit it stood at the expected
    revision. *)
Lemma committed_rises x :
  x ∈ fences db → fence_key x = (pt_provider_id p, pt_source p) →
  fc_revision (fw_fence x) < fc_revision (ir_fence r) ∧
  strength (fc_mode (fw_fence x)) <= strength (fc_mode (ir_fence r)).
Proof.
  intros Hx Hk. assert (select_fence db (pt_provider_id p) (pt_source p) = Some x) as Es by by apply select_fence_some.
  destruct (cm_next _ _ _ _ Hc) as [_ Hn].
  destruct (cm_current _ _ _ _ Hc) as [E|(f & E & Hf & Hs)]; unfold fence_of in E; rewrite Es in E; [done|].
  injection E as ->. lia.
Qed.

Lemma committed_supersedes x :
  x ∈ fences db → ∃ y, y ∈ fences db' ∧ fence_key y = fence_key x ∧ supersedes (fw_fence x) (fw_fence y).
Proof.
  intros Hx. destruct (decide (fence_key x = (pt_provider_id p, pt_source p))) as [Hk|Hk].
  - destruct committed_row as (y & Hy & Hky & Hfy). exists y. split; [done|]. split; [congruence|].
    destruct (committed_rises x Hx Hk). rewrite Hfy. split_and!; lia.
  - exists x. split; [by apply committed_in|]. done.
Qed.

Lemma committed_ok : fences_ok db'.
Proof.
  split.
  - rewrite (cm_fences _ _ _ _ Hc). unfold upsert_fence. apply (upsert_keys fence_key); [done|done|apply Hok].
  - rewrite (cm_intents _ _ _ _ Hc). apply NoDup_fmap_snoc; [apply Hok|]. apply (cm_fresh _ _ _ _ Hc).
  - intros x [[Hx _]|(_ & -> & ->)]%committed_elem; [by apply Hok|done].
  - rewrite (cm_intents _ _ _ _ Hc). intros i [Hi| ->%list_elem_of_singleton]%elem_of_app.
    + destruct (fo_behind _ Hok i Hi) as (x & Hx & Hk & Hs).
      destruct (committed_supersedes x Hx) as (y & Hy & Hky & Hsy). exists y. split; [done|].
      split; [congruence|by etrans].
    + destruct committed_row as (y & Hy & Hk & Hf). exists y. simpl. rewrite (cm_source _ _ _ _ Hc), Hf. done.
Qed.
End committed.

(** ** Runs *)

(** A committed deletion intent, under any control check, or a committed
    admission of a revision. *)
Inductive fence_step (db : FenceDb) : FenceDb → Prop :=
  | step_delete request p check r db' :
      prepare_deletion request = Ok p → apply_transition db p check = Ok (r, db') → fence_step db db'
  | step_admit request r db' :
      admit_provider_source_revision db request = Ok (r, db') → fence_step db db'.

Definition empty_fences : FenceDb := {| fences := []; intents := [] |}.

Lemma empty_fences_ok : fences_ok empty_fences.
Proof. split; simpl; try constructor; by intros ? ?%elem_of_nil. Qed.

Lemma fence_step_cases db db' :
  fences_ok db → fence_step db db' → db' = db ∨ ∃ p r, committed p db r db'.
Proof.
  intros Hok Hs.
  assert (∃ p check r, prepared_ok p ∧ apply_transition db p check = Ok (r, db')) as (p & check & r & Hp & Ha).
  { destruct Hs as [request p check r db' Ep Ea|request r db' Ea].
    - exists p, check, r. split; [|done]. by apply prepare_transition_ok in Ep as [Hp _].
    - unfold admit_provider_source_revision in Ea. destruct (prepare_transition _ _ _ _ _ _ _ _ _) as [p|] eqn:Ep; [|done].
      apply prepare_transition_ok in Ep as [Hp _]. eauto. }
  destruct (apply_cases _ _ _ _ _ Hok Hp Ha) as [[-> _]|Hc]; [by left|right; by exists p, r].
Qed.

(** What a run leaves of a table: fences only rise and receipts stay. *)
Lemma fence_run db db' :
  rtc fence_step db db' → fences_ok db →
  fences_ok db' ∧ (∀ i, i ∈ intents db → i ∈ intents db') ∧
  ∀ x, x ∈ fences db → ∃ y, y ∈ fences db' ∧ fence_key y = fence_key x ∧ supersedes (fw_fence x) (fw_fence y).
Proof.
  induction 1 as [db|db db1 db' Hs _ IH]; intros Hok.
  { split_and!; [done|done|]. intros x Hx. by exists x. }
  destruct (fence_step_cases _ _ Hok Hs) as [->|(p & r & Hc)]; [by apply IH|].
  destruct (IH (committed_ok _ _ _ _ Hok Hc)) as (Hok' & Hi & Hf). split_and!; [done|..].
  - intros i Hin. apply Hi. rewrite (cm_intents _ _ _ _ Hc). apply elem_of_app. by left.
  - intros x Hx. destruct (committed_supersedes _ _ _ _ Hok Hc x Hx) as (y & Hy & Hky & Hsy).
    destruct (Hf y Hy) as (z & Hz & Hkz & Hsz). exists z. split; [done|]. split; [congruence|by etrans].
Qed.

(** The same operation at another clock. *)
Definition with_clock (p : PreparedSourceFenceTransition) (accepted_at : Z) :
    PreparedSourceFenceTransition := {|
  pt_operation_id := pt_operation_id p; pt_provider_id := pt_provider_id p; pt_source := pt_source p;
  pt_expected := pt_expected p; pt_mode := pt_mode p; pt_revision := pt_revision p;
  pt_authority_ref := pt_authority_ref p; pt_accepted_at := accepted_at;
  pt_admit_revision := pt_admit_revision p;
|}.

(** A standing receipt answers its operation. *)
Lemma read_intent_found db p i :
  fences_ok db → prepared_ok p → i ∈ intents db → intent_key i = (pt_provider_id p, pt_operation_id p) →
  iw_request i = request_of p →
  next_revision (pt_expected p) = Ok (fc_revision (ir_fence (iw_receipt i))) →
  receipt_bound p (fc_revision (ir_fence (iw_receipt i))) (iw_receipt i) = true →
  validate_revisions [fc_deleted_source_revision (ir_fence (iw_receipt i));
                      fc_admitted_source_revision (ir_fence (iw_receipt i))] = Ok tt →
  read_intent_receipt db p = Ok (Some (iw_receipt i)).
Proof.
  intros Hok Hp Hi Hk Hr Hn Hb Hl. unfold intent_key in Hk. injection Hk as K1 K2.
  unfold read_intent_receipt. rewrite (head_filter_unique intent_key _ _ i); [| |..|done|].
  - rewrite bool_decide_eq_true_2 by done. cbn [negb]. rewrite Hn, Hb. cbn [negb].
    assert (fc_authority_ref (ir_fence (iw_receipt i)) = pt_authority_ref p) as ->
      by (unfold receipt_bound in Hb; fence_tests; done).
    by rewrite (po_authority _ Hp), Hl.
  - apply Hok.
  - intros x _ Hx. fence_tests. unfold intent_key. congruence.
  - unfold str_eqb. by rewrite K1, K2, !bool_decide_eq_true_2.
Qed.

(** What a returned receipt says, whether it is new or standing. *)
Lemma apply_receipt db p check r db' :
  fences_ok db → prepared_ok p → apply_transition db p check = Ok (r, db') →
  fences_ok db' ∧ receipt_bound p (fc_revision (ir_fence r)) r = true ∧
  next_revision (pt_expected p) = Ok (fc_revision (ir_fence r)) ∧
  validate_revisions [fc_deleted_source_revision (ir_fence r);
                      fc_admitted_source_revision (ir_fence r)] = Ok tt ∧
  ∃ i, i ∈ intents db' ∧ intent_key i = (pt_provider_id p, pt_operation_id p) ∧
    iw_request i = request_of p ∧ iw_receipt i = r.
Proof.
  intros Hok Hp Ha. destruct (apply_cases _ _ _ _ _ Hok Hp Ha) as [(-> & i & Hi & Hk & Hr & Hri & Hread)|Hc].
  - split; [done|]. unfold read_intent_receipt in Hread. destruct (head _) as [row|]; [|done].
    destruct (bool_decide _); [|done]. cbn [negb] in Hread.
    destruct (next_revision _) as [n|] eqn:En; [|done]. destruct (receipt_bound p n _) eqn:Eb; [|done].
    cbn [negb] in Hread. destruct (validate_fence_label _ _); [|done].
    destruct (validate_revisions _) as [[]|] eqn:El; [|done]. injection Hread as <-.
    assert (fc_revision (ir_fence (iw_receipt row)) = n) as <-.
    { unfold receipt_bound in Eb. fence_tests. done. }
    split_and!; [done|done|done|by exists i].
  - split; [by eapply committed_ok|]. destruct (cm_next _ _ _ _ Hc) as [Hn _].
    split_and!; [by apply Hc|done|by apply Hc|]. eexists. rewrite (cm_intents _ _ _ _ Hc).
    split; [apply elem_of_app; right; by apply list_elem_of_singleton|]. done.
Qed.

(** A deletion receipt carries at least the strength that was asked for. *)
Lemma receipt_facts p r :
  receipt_bound p (fc_revision (ir_fence r)) r = true →
  ir_provider_erasure_verified r = false ∧ fc_original_source_sha256 (ir_fence r) = pt_source p ∧
  (pt_admit_revision p = false → strength (pt_mode p) <= strength (fc_mode (ir_fence r))).
Proof.
  intros Hb. unfold receipt_bound, known_mode in Hb.
  apply negb_true_iff in Hb. apply orb_false_iff in Hb as [Hb Hd]. apply orb_false_iff in Hb as [Hb _].
  apply orb_false_iff in Hb as [Hb _]. apply orb_false_iff in Hb as [Hb Hm]. fence_tests.
  split; [done|]. split; [done|]. intros Ha. rewrite Ha in Hd. cbn [negb andb] in Hd.
  apply orb_false_iff in Hd as [Hd Hd2]. apply orb_false_iff in Hd as [_ Hd1].
  unfold strength, str_eqb. destruct modes_distinct as (N1 & N2 & N3).
  repeat case_bool_decide; simpl in *; try done; try lia; congruence.
Qed.

Lemma strong_fence_blocks f revision : 0 < strength (fc_mode f) → blocks_revision f revision = true.
Proof.
  unfold strength, blocks_revision, str_eqb. destruct modes_distinct as (N1 & N2 & N3).
  repeat case_bool_decide; simpl; try done; try lia; congruence.
Qed.

(** ** Properties *)

(** C24. In every history of source fences a receipt is final: repeating its
    operation at any later time and any clock returns the very same receipt and
    changes nothing, no receipt claims that the provider erased anything, and the
    fence of the source only moves forward from the one the receipt committed:
    its revision never falls and names one fence, a stronger deletion mode is
    never weakened, a deletion leaves at least the mode it asked for, and from a
    hard deletion or an anonymization on every source revision stays blocked. *)
Theorem fence_receipts_are_final db op prov source e mode rev auth t adm p check r db1 db2 :
  rtc fence_step empty_fences db →
  prepare_transition op prov source e mode rev auth t adm = Ok p →
  apply_transition db p check = Ok (r, db1) → rtc fence_step db1 db2 →
  (∀ clock, apply_transition db2 (with_clock p clock) (λ _, Ok tt) = Ok (r, db2)) ∧
  ir_provider_erasure_verified r = false ∧
  ∃ f, fence_of db2 prov source = Some f ∧ supersedes (ir_fence r) f ∧
    (adm = false → strength mode <= strength (fc_mode f)) ∧
    (0 < strength (fc_mode (ir_fence r)) → ∀ revision, blocks_revision f revision = true).
Proof.
  intros H0 Hp Ha H2. destruct (fence_run _ _ H0 empty_fences_ok) as (Hok & _ & _).
  apply prepare_transition_ok in Hp as [Hp Ep].
  destruct (apply_receipt _ _ _ _ _ Hok Hp Ha) as (Hok1 & Hb & Hn & Hl & i & Hi & Hk & Hr & Hri).
  destruct (fence_run _ _ H2 Hok1) as (Hok2 & Hin & Hrise). apply Hin in Hi as Hi2.
  destruct (receipt_facts _ _ Hb) as (He & Hs & Hm). split; [|split; [done|]].
  - intros clock. unfold apply_transition.
    rewrite (read_intent_found db2 (with_clock p clock) i); rewrite ?Hri; try done. by destruct Hp.
  - destruct (fo_behind _ Hok1 i Hi) as (x & Hx & Hkx & Hsx).
    destruct (Hrise x Hx) as (y & Hy & Hky & Hsy). rewrite Hri in *.
    assert (supersedes (ir_fence r) (fw_fence y)) as Hsup by (etrans; done).
    exists (fw_fence y). split.
    { unfold fence_of. rewrite (proj2 (select_fence_some db2 prov source y Hok2)); [done|]. split; [done|].
      rewrite Hky, Hkx, Hs. unfold intent_key in Hk. injection Hk as -> _. by subst p. }
    split; [done|]. destruct Hsup as (_ & Hst & _). split.
    + intros ->. subst p. specialize (Hm eq_refl). simpl in Hm. lia.
    + intros Hpos revision. apply strong_fence_blocks. lia.
Qed.

(** ** A concrete fence *)
Definition sample_intent (operation : rstr) (expected : Z) (mode : DeletionMode) :
    ProviderSourceDeletionIntentV1 := {|
  di_operation_id := operation; di_provider_id := str "ncm"; di_original_source_sha256 := repeat 97 64;
  di_expected_fence_revision := expected; di_mode := mode; di_source_revision := Some (str "r1");
  di_authority_ref := str "host:1"; di_accepted_at_utc_micros := 7;
|}.

Definition fence_default (db : FenceDb) (r : result (ProviderSourceIntentReceiptV1 * FenceDb) ObservationJournalError) :
    FenceDb := match r with Ok (_, db') => db' | Err _ => db end.

Definition sample_fences : FenceDb :=
  fence_default empty_fences
    (record_provider_source_deletion_intent empty_fences (sample_intent (str "op-1") 0 HardDelete)).

(** A weaker intent after the hard deletion. *)
Definition sample_weaker : FenceDb :=
  fence_default sample_fences
    (record_provider_source_deletion_intent sample_fences (sample_intent (str "op-2") 1 RemoveInfluence)).

Lemma record_run db request :
  rtc fence_step db (fence_default db (record_provider_source_deletion_intent db request)).
Proof.
  unfold record_provider_source_deletion_intent. destruct (prepare_deletion request) as [p|] eqn:Ep; [|done].
  destruct (apply_transition db p _) as [[r db']|] eqn:Ea; [|done]. by eapply rtc_once, step_delete.
Qed.

Definition sample_prepared : PreparedSourceFenceTransition := {|
  pt_operation_id := str "op-1"; pt_provider_id := str "ncm"; pt_source := repeat 97 64;
  pt_expected := 0; pt_mode := HARD_DELETE; pt_revision := Some (str "r1");
  pt_authority_ref := str "host:1"; pt_accepted_at := 7; pt_admit_revision := false;
|}.

Definition sample_intent_receipt : ProviderSourceIntentReceiptV1 := {|
  ir_operation_id := str "op-1";
  ir_fence := {| fc_provider_id := str "ncm"; fc_original_source_sha256 := repeat 97 64;
                 fc_revision := 1; fc_mode := HARD_DELETE;
                 fc_deleted_source_revision := Some (str "r1"); fc_admitted_source_revision := None;
                 fc_authority_ref := str "host:1"; fc_accepted_at_utc_micros := 7 |};
  ir_provider_erasure_verified := false;
|}.

Lemma fence_receipts_are_final_witness :
  apply_transition sample_weaker (with_clock sample_prepared 9) (λ _, Ok tt) =
    Ok (sample_intent_receipt, sample_weaker) ∧
  fc_mode <$> fence_of sample_weaker (str "ncm") (repeat 97 64) = Some HARD_DELETE.
Proof.
  split; [|vm_compute; reflexivity].
  apply (fence_receipts_are_final empty_fences (str "op-1") (str "ncm") (repeat 97 64) 0 HARD_DELETE
    (Some (str "r1")) (str "host:1") 7 false sample_prepared (λ _, Ok tt) sample_intent_receipt sample_fences).
  - done.
  - vm_compute. reflexivity.
  - vm_compute. reflexivity.
  - apply record_run.
Defined.
