(* ===== verification/EditContract.v ===== *)
(** * Source edits: the contract types

    [tracedecay-contracts/src]: what a source-edit request carries and what a
    receipt of it records.  Scopes, grants and request contexts of
    [context.rs], authority receipts of [result/evidence.rs], effect receipts of
    [result/receipt.rs], the requests of [source_edit.rs],
    [source_edit/effect_authorization.rs] and [source_edit_rollback.rs], each
    with its validation.

    Identity newtypes and digests are their strings, times are microseconds.
    An operation of the catalog is its capability and its use case; the result
    schema is a function of them and is left out. *)
From stdpp Require Import base numbers strings list.
From S2P Require Import Prelude RustText PolicyRouting.

#[local] Open Scope Z_scope.
#[local] Open Scope rust_scope.

(** ** error.rs *)
Inductive ApplicationContractError : Type :=
  | InvalidIdentifier (field : rstr)
  | ZeroValue (field : rstr)
  | InvalidRange (field : rstr)
  | Inconsistent (field : rstr)
  | Domain (e : DomainError).

Definition contract (A : Type) : Type := result A ApplicationContractError.

(** [From<DomainError>], as [?] applies it. *)
Definition in_domain {A} (r : result A DomainError) : contract A :=
  match r with Ok a => Ok a | Err e => Err (Domain e) end.

(** [if condition { return Err(error); }] before [rest]. *)
Definition refuse_if {A} (condition : bool) (e : ApplicationContractError) (rest : contract A) : contract A :=
  if condition then Err e else rest.

Definition validate_digest (d : rstr) : contract unit :=
  in_domain (validate_integrity_digest d (str "ManifestDigest")).
Definition validate_identity (field : string) (d : rstr) : contract unit :=
  in_domain (validate_canonical_string d (str field)).
Definition validate_optional (field : string) (d : option rstr) : contract unit :=
  match d with Some d => validate_identity field d | None => Ok tt end.

(** [validate_identifier] of [identity.rs]. *)
Definition validate_identifier (value : rstr) (field : string) (maximum_bytes : Z) : contract unit :=
  if is_empty value || negb (bool_decide (trim value = value)) || (str_len value >? maximum_bytes)
     || existsb is_control value
  then Err (InvalidIdentifier (str field))
  else Ok tt.

(** ** context.rs *)
Record ResolvedScope : Type := {
  s_project_id : rstr;
  s_repository_id : rstr;
  s_worktree_id : rstr;
  s_reference : option rstr;
  s_scope_digest : rstr;
}.

#[export] Instance scope_eq_dec : EqDecision ResolvedScope.
Proof. solve_decision. Defined.

Inductive DisclosureClass : Type := DMetadata | DEvidence | DSensitive.

#[export] Instance disclosure_eq_dec : EqDecision DisclosureClass.
Proof. solve_decision. Defined.

Record CapabilityGrantSnapshot : Type := {
  g_grant_id : rstr;
  g_revision : Z;
  g_digest : rstr;
  g_issuer : rstr;
  g_issued_at : Z;
  g_expires_at : Z;
  g_scope : ResolvedScope;
  g_allowed_capabilities : list rstr;
  g_allowed_use_cases : list rstr;
  g_disclosure : DisclosureClass;
}.

Definition is_expired_at (self : CapabilityGrantSnapshot) (observed_at : Z) : bool :=
  g_expires_at self <=? observed_at.

Inductive CancellationState : Type := CancellationActive | CancellationRequested (requested_at : Z).

Inductive RequestAdmission : Type := AdmissionAdmitted | AdmissionCancelled | AdmissionTimedOut.

#[export] Instance request_admission_eq_dec : EqDecision RequestAdmission.
Proof. solve_decision. Defined.

(** A [Deadline] is its expiry. *)
Record RequestContext : Type := {
  c_actor : rstr;
  c_scope : ResolvedScope;
  c_grant : CapabilityGrantSnapshot;
  c_request_id : rstr;
  c_deadline : Z;
  c_cancellation : CancellationState;
}.

Definition deadline_is_elapsed_at (expires_at observed_at : Z) : bool := expires_at <=? observed_at.

Definition admission_at (self : RequestContext) (observed_at : Z) : RequestAdmission :=
  match c_cancellation self with
  | CancellationRequested _ => AdmissionCancelled
  | CancellationActive =>
    if deadline_is_elapsed_at (c_deadline self) observed_at || is_expired_at (c_grant self) observed_at
    then AdmissionTimedOut else AdmissionAdmitted
  end.

Definition allows (self : RequestContext) (capability_id use_case_id : rstr) : bool :=
  bool_decide (g_scope (c_grant self) = c_scope self)
  && bool_decide (capability_id ∈ g_allowed_capabilities (c_grant self))
  && bool_decide (use_case_id ∈ g_allowed_use_cases (c_grant self)).

(** ** result/evidence.rs *)
Record PolicyDecisionRef : Type := {
  p_decision_id : rstr;
  p_revision : Z;
  p_digest : rstr;
  p_evaluator_revision : rstr;
}.

#[export] Instance policy_ref_eq_dec : EqDecision PolicyDecisionRef.
Proof. solve_decision. Defined.

Definition policy_validate (self : PolicyDecisionRef) : contract unit :=
  let? _ := validate_identifier (p_decision_id self) "policy decision id" 512 in
  refuse_if (p_revision self =? 0) (ZeroValue (str "policy decision revision"))
    (let? _ := validate_digest (p_digest self) in
     validate_identity "ComponentVersion" (p_evaluator_revision self)).

Record AuthorityReceipt : Type := {
  a_grant_id : rstr;
  a_grant_revision : Z;
  a_grant_digest : rstr;
  a_authorized_scope_digest : rstr;
  a_disclosure : DisclosureClass;
  a_policy : PolicyDecisionRef;
  a_revalidated_at : Z;
}.

#[export] Instance authority_eq_dec : EqDecision AuthorityReceipt.
Proof. solve_decision. Defined.

Definition authority_validate_for (self : AuthorityReceipt) (scope : ResolvedScope) : contract unit :=
  refuse_if (a_grant_revision self =? 0) (ZeroValue (str "authority receipt grant revision"))
    (let? _ := validate_digest (a_grant_digest self) in
     let? _ := validate_digest (a_authorized_scope_digest self) in
     refuse_if (negb (bool_decide (a_authorized_scope_digest self = s_scope_digest scope)))
       (Inconsistent (str "authority receipt scope"))
       (policy_validate (a_policy self))).

(** ** source_edit/effect_authorization.rs: proofs and admissions *)
Record SourceEditEffectProofV1 : Type := {
  f_policy_digest : rstr;
  f_configuration_revision_id : rstr;
  f_configuration_digest : rstr;
  f_catalog_revision : Z;
  f_catalog_digest : rstr;
  f_privacy_domain_id : rstr;
  f_privacy_key_epoch : Z;
  f_privacy_digest : rstr;
  f_external_proof : option rstr;
}.

#[export] Instance proof_eq_dec : EqDecision SourceEditEffectProofV1.
Proof. solve_decision. Defined.

Definition proof_validate_for (self : SourceEditEffectProofV1) (authority : AuthorityReceipt) :
    contract unit :=
  let? _ := validate_digest (f_policy_digest self) in
  let? _ := validate_identity "ConfigurationRevisionId" (f_configuration_revision_id self) in
  let? _ := validate_digest (f_configuration_digest self) in
  refuse_if (f_catalog_revision self =? 0) (ZeroValue (str "source edit effect proof catalog revision"))
    (let? _ := validate_digest (f_catalog_digest self) in
     let? _ := validate_identity "PrivacyDomainId" (f_privacy_domain_id self) in
     refuse_if (f_privacy_key_epoch self =? 0)
       (ZeroValue (str "source edit effect proof privacy key epoch"))
       (let? _ := validate_digest (f_privacy_digest self) in
        let? _ := validate_optional "RetrievalAnchorId" (f_external_proof self) in
        refuse_if (negb (bool_decide (f_policy_digest self = p_digest (a_policy authority))))
          (Inconsistent (str "source edit effect proof policy digest"))
          (Ok tt))).

Record SourceEditAuthorizationAdmissionV1 : Type := {
  ad_receipt : AuthorityReceipt;
  ad_proof : SourceEditEffectProofV1;
}.

Definition admission_validate_for (self : SourceEditAuthorizationAdmissionV1) (scope : ResolvedScope) :
    contract unit :=
  let? _ := authority_validate_for (ad_receipt self) scope in
  proof_validate_for (ad_proof self) (ad_receipt self).

Definition admission_new (receipt : AuthorityReceipt) (proof : SourceEditEffectProofV1)
    (scope : ResolvedScope) : contract SourceEditAuthorizationAdmissionV1 :=
  let admission := {| ad_receipt := receipt; ad_proof := proof |} in
  let? _ := admission_validate_for admission scope in
  Ok admission.

(** ** result/receipt.rs *)
Inductive CancellationStage : Type :=
  | BeforeAdmission | BeforeRead | DuringRead | BeforeEffect | EffectInFlight | Reconciling | AfterCommit.

Record CancellationObservation : Type := {
  o_stage : CancellationStage;
  o_observed_at : Z;
}.

Inductive OperationTermination : Type :=
  | OpCompleted | OpCancelled | OpTimedOut | OpFailed | OpUnavailable | OpPartial | OpEffectUnknown.

Inductive EffectTermination : Type :=
  | Completed | NoChange | Cancelled | TimedOut | Failed | Partial | EffectUnknown.

Inductive ReconciliationState : Type := Pending | Reconciled | ReconciliationFailed.

#[export] Instance operation_termination_eq_dec : EqDecision OperationTermination.
Proof. solve_decision. Defined.
#[export] Instance effect_termination_eq_dec : EqDecision EffectTermination.
Proof. solve_decision. Defined.
#[export] Instance reconciliation_eq_dec : EqDecision ReconciliationState.
Proof. solve_decision. Defined.

(** [From<EffectTermination> for OperationTermination]. *)
Definition operation_termination (value : EffectTermination) : OperationTermination :=
  match value with
  | Completed | NoChange => OpCompleted
  | Cancelled => OpCancelled
  | TimedOut => OpTimedOut
  | Failed => OpFailed
  | Partial => OpPartial
  | EffectUnknown => OpEffectUnknown
  end.

(** The budget of a source edit is the default one and is left out. *)
Record OperationReceipt : Type := {
  or_started_at : Z;
  or_ended_at : Z;
  or_effective_deadline : Z;
  or_cancellation : option CancellationObservation;
  or_termination : OperationTermination;
}.

Definition operation_receipt_validate (self : OperationReceipt) : contract unit :=
  refuse_if (or_ended_at self <? or_started_at self) (InvalidRange (str "operation receipt interval"))
    match or_termination self, or_cancellation self with
    | (OpCancelled | OpTimedOut), None => Err (Inconsistent (str "terminal cancellation observation"))
    | _, _ => Ok tt
    end.

(** [EffectClass::SourceEdit] is the only class of this component, so the
    class checks of the receipts always pass; the field is left out. *)
Record EffectReceipt : Type := {
  er_operation : rstr;
  er_request_id : rstr;
  er_actor : rstr;
  er_scope : ResolvedScope;
  er_idempotency_key : rstr;
  er_input_digest : rstr;
  er_expected_state : rstr;
  er_policy_digest : rstr;
  er_configuration_digest : rstr;
  er_catalog_digest : rstr;
  er_privacy_digest : rstr;
  er_outcome : EffectTermination;
  er_committed_state : option rstr;
  er_external_proof : option rstr;
}.

Record EffectResult (T : Type) : Type := {
  ef_effect_id : rstr;
  ef_idempotency_key : rstr;
  ef_authority : AuthorityReceipt;
  ef_expected_state : rstr;
  ef_execution : OperationReceipt;
  ef_reconciliation : ReconciliationState;
  ef_receipt : EffectReceipt;
  ef_payload : option T;
}.
Arguments ef_effect_id {T}. Arguments ef_idempotency_key {T}. Arguments ef_authority {T}.
Arguments ef_expected_state {T}. Arguments ef_execution {T}. Arguments ef_reconciliation {T}.
Arguments ef_receipt {T}. Arguments ef_payload {T}.

Fixpoint validate_digests (ds : list rstr) : contract unit :=
  match ds with
  | [] => Ok tt
  | d :: ds => let? _ := validate_digest d in validate_digests ds
  end.

(** ** source_edit.rs: the requests *)
Inductive SourceEditKind : Type :=
  | KStrReplace | KMultiStrReplace | KInsertAt | KAstGrepRewrite
  | KReplaceSymbol | KInsertAtSymbol | KMoveSymbol | KRenameSymbol.

(** [operation_name] with its underscores replaced, as the operation spells it. *)
Definition operation_slug (self : SourceEditKind) : rstr :=
  match self with
  | KStrReplace => str "str-replace"
  | KMultiStrReplace => str "multi-str-replace"
  | KInsertAt => str "insert-at"
  | KAstGrepRewrite => str "ast-grep-rewrite"
  | KReplaceSymbol => str "replace-symbol"
  | KInsertAtSymbol => str "insert-at-symbol"
  | KMoveSymbol => str "move-symbol"
  | KRenameSymbol => str "rename-symbol"
  end.

Record ApplicationOperation : Type := {
  op_capability_id : rstr;
  op_use_case_id : rstr;
}.

#[export] Instance operation_eq_dec : EqDecision ApplicationOperation.
Proof. solve_decision. Defined.

Definition source_edit_operation (kind : SourceEditKind) : ApplicationOperation := {|
  op_capability_id := str "capability.application.source-edit." ++ operation_slug kind;
  op_use_case_id := str "use-case.application.source-edit." ++ operation_slug kind;
|}.

Definition source_edit_reconciliation_operation : ApplicationOperation := {|
  op_capability_id := str "capability.application.source-edit.reconcile";
  op_use_case_id := str "use-case.application.source-edit.reconcile";
|}.

Definition source_edit_rollback_operation : ApplicationOperation := {|
  op_capability_id := str "capability.application.source-edit.rollback";
  op_use_case_id := str "use-case.application.source-edit.rollback";
|}.

Record RenamePreviewAcceptanceV1 : Type := {
  rp_preview_id : rstr;
  rp_preview_digest : rstr;
  rp_plan_digest : rstr;
  rp_repository_revision : option rstr;
  rp_graph_revision : rstr;
}.

Definition acceptance_validate (self : RenamePreviewAcceptanceV1) : contract unit :=
  let? _ := validate_digests
    [rp_preview_id self; rp_preview_digest self; rp_plan_digest self; rp_graph_revision self] in
  match rp_repository_revision self with
  | Some revision =>
    refuse_if (is_empty (trim revision)) (InvalidIdentifier (str "rename repository revision")) (Ok tt)
  | None => Ok tt
  end.

Record RenameSymbolBindingV1 : Type := {
  rb_node_id : rstr;
  rb_qualified_name : rstr;
  rb_kind : rstr;
  rb_file : rstr;
  rb_old_name : rstr;
  rb_accepted_preview : option RenamePreviewAcceptanceV1;
}.

Inductive SourceEditRequest : Type :=
  | StrReplace (path old_str new_str : rstr) (dry_run verify : bool)
  | MultiStrReplace (path : rstr) (replacements : list (rstr * rstr)) (dry_run verify : bool)
  | InsertAt (path anchor content : rstr) (before dry_run verify : bool)
  | AstGrepRewrite (path pattern rewrite : rstr) (dry_run verify : bool)
  | ReplaceSymbol (symbol new_source : rstr) (dry_run verify : bool)
  | InsertAtSymbol (symbol content position : rstr) (dry_run verify : bool)
  | MoveSymbol (symbol dest_file : rstr) (dry_run update_references : bool)
  | RenameSymbol (binding : RenameSymbolBindingV1) (new_name : rstr) (dry_run verify : bool).

Definition edit_kind (self : SourceEditRequest) : SourceEditKind :=
  match self with
  | StrReplace _ _ _ _ _ => KStrReplace
  | MultiStrReplace _ _ _ _ => KMultiStrReplace
  | InsertAt _ _ _ _ _ _ => KInsertAt
  | AstGrepRewrite _ _ _ _ _ => KAstGrepRewrite
  | ReplaceSymbol _ _ _ _ => KReplaceSymbol
  | InsertAtSymbol _ _ _ _ _ => KInsertAtSymbol
  | MoveSymbol _ _ _ _ => KMoveSymbol
  | RenameSymbol _ _ _ _ => KRenameSymbol
  end.

Definition edit_dry_run (self : SourceEditRequest) : bool :=
  match self with
  | StrReplace _ _ _ d _ | MultiStrReplace _ _ d _ | InsertAt _ _ _ _ d _ | AstGrepRewrite _ _ _ d _
  | ReplaceSymbol _ _ d _ | InsertAtSymbol _ _ _ d _ | MoveSymbol _ _ d _ | RenameSymbol _ _ d _ => d
  end.

Definition edit_verify (self : SourceEditRequest) : bool :=
  match self with
  | StrReplace _ _ _ _ v | MultiStrReplace _ _ _ v | InsertAt _ _ _ _ _ v | AstGrepRewrite _ _ _ _ v
  | ReplaceSymbol _ _ _ v | InsertAtSymbol _ _ _ _ v | RenameSymbol _ _ _ v => v
  | MoveSymbol _ _ _ _ => false
  end.

Definition with_dry_run (self : SourceEditRequest) (dry_run : bool) : SourceEditRequest :=
  match self with
  | StrReplace p o n _ v => StrReplace p o n dry_run v
  | MultiStrReplace p r _ v => MultiStrReplace p r dry_run v
  | InsertAt p a c b _ v => InsertAt p a c b dry_run v
  | AstGrepRewrite p a r _ v => AstGrepRewrite p a r dry_run v
  | ReplaceSymbol s n _ v => ReplaceSymbol s n dry_run v
  | InsertAtSymbol s c p _ v => InsertAtSymbol s c p dry_run v
  | MoveSymbol s d _ u => MoveSymbol s d dry_run u
  | RenameSymbol b n _ v => RenameSymbol b n dry_run v
  end.

Record SourceEditEffectRequestV1 : Type := {
  q_context : RequestContext;
  q_authority : AuthorityReceipt;
  q_edit : SourceEditRequest;
  q_idempotency_key : rstr;
  q_expected_state : rstr;
  q_proof : SourceEditEffectProofV1;
  q_observed_at : Z;
}.

Inductive SourceEditReconciliationDispositionV1 : Type :=
  | ConfirmCommitted (committed_state : rstr)
  | ConfirmRolledBack.

Record SourceEditReconciliationRequestV1 : Type := {
  rq_context : RequestContext;
  rq_authority : AuthorityReceipt;
  rq_kind : SourceEditKind;
  rq_effect_id : rstr;
  rq_idempotency_key : rstr;
  rq_attempt_idempotency_key : rstr;
  rq_input_digest : rstr;
  rq_disposition : SourceEditReconciliationDispositionV1;
  rq_proof : SourceEditEffectProofV1;
  rq_observed_at : Z;
}.

Record SourceEditRollbackRequestV1 : Type := {
  bq_context : RequestContext;
  bq_authority : AuthorityReceipt;
  bq_effect_id : rstr;
  bq_original_idempotency_key : rstr;
  bq_idempotency_key : rstr;
  bq_original_input_digest : rstr;
  bq_expected_state : rstr;
  bq_proof : SourceEditEffectProofV1;
  bq_observed_at : Z;
}.

(** ** The canonical digests of this component

    [canonical_sha256] of each type that is digested.  It ends in
    [ManifestDigest::from_sha256_bytes], so what it returns is a digest. *)
Class EditDigests := {
  scope_canonical :: Canonical (rstr * rstr * rstr * rstr * option rstr);
  request_canonical ::
    Canonical (rstr * rstr * ResolvedScope * SourceEditRequest * rstr * rstr * option rstr);
  attempt_canonical ::
    Canonical (rstr * rstr * ResolvedScope * SourceEditKind * rstr * rstr * rstr * rstr *
      SourceEditReconciliationDispositionV1 * option rstr);
  rollback_canonical ::
    Canonical (rstr * rstr * ResolvedScope * rstr * rstr * rstr * rstr * rstr * option rstr);
  state_canonical :: Canonical (rstr * list (rstr * option rstr));
  planned_canonical :: Canonical (rstr * list (rstr * option rstr * option rstr));
  key_canonical :: Canonical (rstr * rstr);
  minted_canonical :: Canonical (rstr * rstr * rstr);
  record_canonical ::
    Canonical (rstr * Z * rstr * rstr * rstr * rstr * rstr * ResolvedScope * rstr * rstr *
      list (rstr * option rstr * option rstr) * rstr);
  request_digest_ok : ∀ x d, request_canonical x = Ok d → digest_ok d = true;
  rollback_digest_ok : ∀ x d, rollback_canonical x = Ok d → digest_ok d = true;
  state_digest_ok : ∀ x d, state_canonical x = Ok d → digest_ok d = true;
}.

Section validation.
Context `{EditDigests}.

Definition compute_digest (self : ResolvedScope) : contract rstr :=
  in_domain (scope_canonical (str "tracedecay.application.scope.v1", s_project_id self,
    s_repository_id self, s_worktree_id self, s_reference self)).

Definition scope_validate (self : ResolvedScope) : contract unit :=
  let? _ := validate_identity "ProjectId" (s_project_id self) in
  let? _ := validate_identity "RepositoryId" (s_repository_id self) in
  let? _ := validate_identity "WorktreeId" (s_worktree_id self) in
  let? _ := validate_optional "RefId" (s_reference self) in
  let? _ := validate_digest (s_scope_digest self) in
  let? computed := compute_digest self in
  refuse_if (negb (bool_decide (s_scope_digest self = computed)))
    (Inconsistent (str "resolved scope digest")) (Ok tt).

Definition grant_validate (self : CapabilityGrantSnapshot) : contract unit :=
  refuse_if (g_revision self =? 0) (ZeroValue (str "capability grant revision"))
    (let? _ := validate_digest (g_digest self) in
     let? _ := validate_identity "ActorId" (g_issuer self) in
     let? _ := scope_validate (g_scope self) in
     refuse_if (g_expires_at self <=? g_issued_at self) (InvalidRange (str "capability grant validity"))
       (refuse_if (is_empty (g_allowed_capabilities self) || is_empty (g_allowed_use_cases self))
         (Inconsistent (str "capability grant operation set")) (Ok tt))).

Definition context_validate (self : RequestContext) : contract unit :=
  let? _ := validate_identity "ActorId" (c_actor self) in
  let? _ := scope_validate (c_scope self) in
  let? _ := grant_validate (c_grant self) in
  refuse_if (negb (bool_decide (c_scope self = g_scope (c_grant self))))
    (Inconsistent (str "request context grant scope")) (Ok tt).

Definition effect_receipt_validate (self : EffectReceipt) : contract unit :=
  let? _ := scope_validate (er_scope self) in
  let? _ := validate_digests [er_input_digest self; er_expected_state self; er_policy_digest self;
    er_configuration_digest self; er_catalog_digest self; er_privacy_digest self] in
  let? _ := match er_committed_state self with Some state => validate_digest state | None => Ok tt end in
  let? _ := validate_optional "RetrievalAnchorId" (er_external_proof self) in
  refuse_if (bool_decide (er_outcome self = NoChange) &&
      (bool_decide (er_committed_state self ≠ None) || bool_decide (er_external_proof self ≠ None)))
    (Inconsistent (str "no-change effect receipt proof"))
    (refuse_if (bool_decide (er_outcome self = Completed) &&
        bool_decide (er_committed_state self = None) && bool_decide (er_external_proof self = None))
      (Inconsistent (str "completed effect receipt proof")) (Ok tt)).

Definition effect_result_new {T} (effect_id idempotency_key : rstr) (authority : AuthorityReceipt)
    (expected_state : rstr) (execution : OperationReceipt) (reconciliation : ReconciliationState)
    (receipt : EffectReceipt) (payload : option T) : contract (EffectResult T) :=
  refuse_if (negb (bool_decide (er_idempotency_key receipt = idempotency_key))
      || negb (bool_decide (er_expected_state receipt = expected_state))
      || negb (bool_decide (or_termination execution = operation_termination (er_outcome receipt))))
    (Inconsistent (str "effect result receipt binding"))
    (refuse_if (bool_decide (er_outcome receipt = EffectUnknown) && bool_decide (reconciliation ≠ Pending))
      (Inconsistent (str "unknown effect reconciliation"))
      (let? _ := validate_digest expected_state in
       let? _ := operation_receipt_validate execution in
       let? _ := effect_receipt_validate receipt in
       Ok {| ef_effect_id := effect_id; ef_idempotency_key := idempotency_key; ef_authority := authority;
             ef_expected_state := expected_state; ef_execution := execution;
             ef_reconciliation := reconciliation; ef_receipt := receipt; ef_payload := payload |})).

(** The grant of the context is the one the authority receipt names. *)
Definition current_grant (context : RequestContext) (authority : AuthorityReceipt) : bool :=
  bool_decide (a_grant_id authority = g_grant_id (c_grant context))
  && (a_grant_revision authority =? g_revision (c_grant context))
  && bool_decide (a_grant_digest authority = g_digest (c_grant context)).

(** The acceptance a rename carries: none on a preview, the digest of the
    accepted preview as the expected state on an apply. *)
Definition rename_acceptance_validate (edit : SourceEditRequest) (expected_state : rstr) : contract unit :=
  match edit with
  | RenameSymbol binding _ dry_run _ =>
    match dry_run, rb_accepted_preview binding with
    | true, None => Ok tt
    | false, Some accepted =>
      if bool_decide (rp_preview_digest accepted = expected_state) then acceptance_validate accepted
      else Err (Inconsistent (str "rename exact accepted preview digest"))
    | true, Some _ => Err (Inconsistent (str "rename preview acceptance on dry run"))
    | false, None => Err (Inconsistent (str "rename exact accepted preview digest"))
    end
  | _ => Ok tt
  end.

Definition request_validate (self : SourceEditEffectRequestV1) : contract unit :=
  let? _ := context_validate (q_context self) in
  let? _ := authority_validate_for (q_authority self) (c_scope (q_context self)) in
  let? _ := validate_digest (q_expected_state self) in
  let? _ := rename_acceptance_validate (q_edit self) (q_expected_state self) in
  let? _ := proof_validate_for (q_proof self) (q_authority self) in
  let operation := source_edit_operation (edit_kind (q_edit self)) in
  refuse_if (negb (bool_decide (admission_at (q_context self) (q_observed_at self) = AdmissionAdmitted)))
    (Inconsistent (str "source edit request admission"))
    (refuse_if (negb (allows (q_context self) (op_capability_id operation) (op_use_case_id operation)))
      (Inconsistent (str "source edit request capability binding"))
      (refuse_if (negb (current_grant (q_context self) (q_authority self)))
        (Inconsistent (str "source edit request current grant")) (Ok tt))).

Definition request_input_digest (self : SourceEditEffectRequestV1) : contract rstr :=
  let? _ := request_validate self in
  in_domain (request_canonical (str "tracedecay.application.source-edit-effect-request.v1",
    c_actor (q_context self), c_scope (q_context self), q_edit self, q_idempotency_key self,
    q_expected_state self, f_external_proof (q_proof self))).

Definition reconciliation_validate (self : SourceEditReconciliationRequestV1) : contract unit :=
  let? _ := context_validate (rq_context self) in
  let? _ := authority_validate_for (rq_authority self) (c_scope (rq_context self)) in
  let? _ := validate_digest (rq_input_digest self) in
  refuse_if (bool_decide (rq_attempt_idempotency_key self = rq_idempotency_key self))
    (Inconsistent (str "source edit reconciliation attempt idempotency key"))
    (let? _ := proof_validate_for (rq_proof self) (rq_authority self) in
     let? _ := match rq_disposition self with
               | ConfirmCommitted committed_state => validate_digest committed_state
               | ConfirmRolledBack => Ok tt
               end in
     let operation := source_edit_reconciliation_operation in
     refuse_if (negb (bool_decide (admission_at (rq_context self) (rq_observed_at self) = AdmissionAdmitted))
         || negb (allows (rq_context self) (op_capability_id operation) (op_use_case_id operation)))
       (Inconsistent (str "source edit reconciliation admission"))
       (refuse_if (negb (current_grant (rq_context self) (rq_authority self)))
         (Inconsistent (str "source edit reconciliation current grant")) (Ok tt))).

Definition attempt_input_digest (self : SourceEditReconciliationRequestV1) : contract rstr :=
  let? _ := reconciliation_validate self in
  in_domain (attempt_canonical (str "tracedecay.application.source-edit-reconciliation-attempt.v1",
    c_actor (rq_context self), c_scope (rq_context self), rq_kind self, rq_effect_id self,
    rq_idempotency_key self, rq_attempt_idempotency_key self, rq_input_digest self,
    rq_disposition self, f_external_proof (rq_proof self))).

Definition rollback_validate (self : SourceEditRollbackRequestV1) : contract unit :=
  let? _ := context_validate (bq_context self) in
  let? _ := authority_validate_for (bq_authority self) (c_scope (bq_context self)) in
  let? _ := validate_digest (bq_original_input_digest self) in
  let? _ := validate_digest (bq_expected_state self) in
  refuse_if (bool_decide (bq_idempotency_key self = bq_original_idempotency_key self))
    (Inconsistent (str "source edit rollback idempotency key"))
    (let? _ := proof_validate_for (bq_proof self) (bq_authority self) in
     let operation := source_edit_rollback_operation in
     refuse_if (negb (bool_decide (admission_at (bq_context self) (bq_observed_at self) = AdmissionAdmitted))
         || negb (allows (bq_context self) (op_capability_id operation) (op_use_case_id operation)))
       (Inconsistent (str "source edit rollback admission"))
       (refuse_if (negb (current_grant (bq_context self) (bq_authority self)))
         (Inconsistent (str "source edit rollback current grant")) (Ok tt))).

Definition rollback_input_digest (self : SourceEditRollbackRequestV1) : contract rstr :=
  let? _ := rollback_validate self in
  in_domain (rollback_canonical (str "tracedecay.application.source-edit-rollback-request.v1",
    c_actor (bq_context self), c_scope (bq_context self), bq_effect_id self,
    bq_original_idempotency_key self, bq_idempotency_key self, bq_original_input_digest self,
    bq_expected_state self, f_external_proof (bq_proof self))).
End validation.
