(* ===== verification/EditRecords.v ===== *)
(** * Source edits: outcomes and durable records

    [tracedecay-source-edit/src]: the outcomes of [outcome.rs], the control of
    [control.rs], the journal, the receipts and the rollback records of
    [journal.rs], and the constructors of [records.rs].

    A record is durable as the JSON of it; [DurableCodec] is [serde_json] on
    these types, with what a file holds left abstract but for its length. *)
From stdpp Require Import base numbers strings list countable.
From S2P Require Import Prelude RustText Bytes PolicyRouting EditContract.

#[local] Open Scope Z_scope.
#[local] Open Scope rust_scope.

Definition JOURNAL_VERSION : Z := 1.
Definition MAX_DURABLE_RECORD_BYTES : Z := 4 * 1024 * 1024.
Definition SOURCE_EDIT_STATE_DIGEST_DOMAIN_V1 : rstr := str "tracedecay.source-edit-state.v1".
Definition SOURCE_EDIT_RECOVERY_DIGEST_DOMAIN_V1 : rstr := str "tracedecay.source-edit-recovery.v1".

(** ** Errors

    The [TraceDecayError]s of this component; [ContractError] and [DomainError]
    are the configuration errors that [application_contract_error] and
    [domain_error] format. *)
Inductive EditError : Type :=
  | Config (message : rstr)
  | ConfigAt (message path : rstr)
  | ContractError (e : ApplicationContractError)
  | DigestError (e : DomainError)
  | IoError (operation : rstr)
  | LockDeadline
  | NotFound (message : rstr)
  | RouteError (code detail : rstr)
  | ExpectedStateMismatch (detail : rstr)
  | IdempotencyConflict (detail : rstr).

Definition config_error (message : string) : EditError := Config (str message).

Definition edit (A : Type) : Type := result A EditError.

(** [.map_err(application_contract_error)] and [.map_err(domain_error)]. *)
Definition application_contract {A} (r : contract A) : edit A :=
  match r with Ok a => Ok a | Err e => Err (ContractError e) end.
Definition domain {A} (r : result A DomainError) : edit A :=
  match r with Ok a => Ok a | Err e => Err (DigestError e) end.

(** ** control.rs *)

(** A control with the answers its cancellation signal and the clock give at
    each stage; a run passes a stage at most once. *)
Record SourceEditEffectControlV1 : Type := {
  k_deadline : Z;
  k_cancelled_at : CancellationStage → option Z;
  k_observed_at : CancellationStage → Z;
}.

Record SourceEditControlStopV1 : Type := {
  stop_termination : EffectTermination;
  stop_observation : CancellationObservation;
}.

Definition checkpoint (self : SourceEditEffectControlV1) (stage : CancellationStage) :
    option SourceEditControlStopV1 :=
  let observed_at := k_observed_at self stage in
  let deadline_elapsed := deadline_is_elapsed_at (k_deadline self) observed_at in
  let stop termination := Some {|
    stop_termination := termination;
    stop_observation := {| o_stage := stage; o_observed_at := observed_at |};
  |} in
  match k_cancelled_at self stage, deadline_elapsed with
  | Some requested_at, true => if k_deadline self <? requested_at then stop TimedOut else stop Cancelled
  | Some _, false => stop Cancelled
  | None, true => stop TimedOut
  | None, false => None
  end.

(** ** plan.rs: the plan of one file *)
Record PlannedSourceEditFile : Type := {
  relative_path : rstr;
  expected : option rstr;
  intended : option rstr;
}.

#[export] Instance planned_eq_dec : EqDecision PlannedSourceEditFile.
Proof. solve_decision. Defined.

(** ** outcome.rs *)

(** The results of the edit primitives, with the fields the transaction reads;
    what they only show to the caller (matched text, diffs, sites) is left out. *)
Record EditResult : Type := { e_success : bool; e_file_path : rstr; e_message : rstr }.
Record MultiEditResult : Type := {
  m_success : bool; m_file_path : rstr; m_applied_count : Z; m_message : rstr }.
Record InsertResult : Type := {
  i_success : bool; i_file_path : rstr; i_anchor_line : Z; i_before : bool; i_message : rstr }.
Record AstGrepResult : Type := { g_success : bool; g_file_path : rstr; g_message : rstr }.
Record MoveResult : Type := {
  v_success : bool; v_source_file : rstr; v_dest_file : rstr;
  v_applied_imports : list rstr; v_impact : list rstr; v_message : rstr }.
Record RenameResult : Type := {
  n_success : bool; n_preview_digest : option rstr; n_files : list (rstr * Z);
  n_hazards : list rstr; n_message : rstr }.

Record SourceEditDurableOutcomeV1 : Type := {
  d_operation : rstr;
  d_success : bool;
  d_files : list rstr;
  d_change_count : option Z;
  d_line : option Z;
  d_before : option bool;
  d_import_count : option Z;
  d_finding_count : option Z;
  d_failed : bool;
  d_cancelled : bool;
  d_timed_out : bool;
  d_effect_unknown : bool;
  d_reconciled : bool;
}.

Inductive SourceEditOutcome : Type :=
  | OEdit (r : EditResult)
  | OMultiEdit (r : MultiEditResult)
  | OInsert (r : InsertResult)
  | OAstGrep (r : AstGrepResult)
  | OMove (r : MoveResult)
  | ORename (r : RenameResult)
  | OFailed (message : rstr)
  | OCancelled (message : rstr)
  | OTimedOut (message : rstr)
  | OEffectUnknown (message : rstr)
  | OReconciled (success : bool) (message : rstr)
  | ODurableMetadata (r : SourceEditDurableOutcomeV1).

Definition outcome_success (self : SourceEditOutcome) : bool :=
  match self with
  | OEdit r => e_success r
  | OMultiEdit r => m_success r
  | OInsert r => i_success r
  | OAstGrep r => g_success r
  | OMove r => v_success r
  | ORename r => n_success r
  | OFailed _ | OCancelled _ | OTimedOut _ | OEffectUnknown _ => false
  | OReconciled success _ => success
  | ODurableMetadata r => d_success r
  end.

Definition candidate_files (self : SourceEditOutcome) : list rstr :=
  match self with
  | OEdit r => [e_file_path r]
  | OMultiEdit r => [m_file_path r]
  | OInsert r => [i_file_path r]
  | OAstGrep r => [g_file_path r]
  | OMove r => [v_source_file r; v_dest_file r]
  | ORename r => (n_files r).*1
  | OFailed _ | OCancelled _ | OTimedOut _ | OEffectUnknown _ | OReconciled _ _ => []
  | ODurableMetadata r => d_files r
  end.

Definition bind_preview_digest (self : SourceEditOutcome) (digest : rstr) : SourceEditOutcome :=
  match self with
  | ORename r => ORename {| n_success := n_success r; n_preview_digest := Some digest;
                            n_files := n_files r; n_hazards := n_hazards r; n_message := n_message r |}
  | _ => self
  end.

Definition from_live (operation : rstr) (outcome : SourceEditOutcome) : SourceEditDurableOutcomeV1 :=
  let '(change_count, line, before, import_count, finding_count) :=
    match outcome with
    | OMultiEdit r => (Some (m_applied_count r), None, None, None, None)
    | OInsert r => (None, Some (i_anchor_line r), Some (i_before r), None, None)
    | OMove r => (None, None, None, Some (zlen (v_applied_imports r)), Some (zlen (v_impact r)))
    | ORename r => (Some (foldr Z.add 0 ((n_files r).*2)), None, None, None, Some (zlen (n_hazards r)))
    | _ => (None, None, None, None, None)
    end in
  {| d_operation := operation; d_success := outcome_success outcome; d_files := candidate_files outcome;
     d_change_count := change_count; d_line := line; d_before := before;
     d_import_count := import_count; d_finding_count := finding_count;
     d_failed := match outcome with OFailed _ => true | _ => false end;
     d_cancelled := match outcome with OCancelled _ => true | _ => false end;
     d_timed_out := match outcome with OTimedOut _ => true | _ => false end;
     d_effect_unknown := match outcome with OEffectUnknown _ => true | _ => false end;
     d_reconciled := match outcome with OReconciled _ _ => true | _ => false end |}.

(** [value]: the outcome's JSON with [durable_metadata_only] and a message. *)
Record DurablePayload : Type := { y_outcome : SourceEditDurableOutcomeV1; y_message : rstr }.

Definition durable_value (self : SourceEditDurableOutcomeV1) : DurablePayload := {|
  y_outcome := self;
  y_message :=
    if d_failed self then str "source edit failed before the effect"
    else if d_cancelled self then str "source edit was cancelled"
    else if d_timed_out self then str "source edit timed out"
    else if d_effect_unknown self then str "source edit effect is unknown and requires reconciliation"
    else if d_reconciled self then str "source edit reconciliation completed"
    else str "source edit completed; detailed edit output was not retained";
|}.

(** The state that [run_edit_verifications] reports, and its priority. *)
Inductive SourceEditVerificationStateV1 : Type := Clean | Errors | Unavailable | VerificationFailed | VerificationCancelled.

Record SourceEditDiagnosticV1 : Type := { dg_line : Z; dg_code : rstr; dg_message : rstr }.

Record SourceEditVerificationV1 : Type := {
  vr_state : SourceEditVerificationStateV1;
  vr_verdict : rstr;
  vr_error_count : Z;
  vr_warning_count : Z;
  vr_first_errors : list SourceEditDiagnosticV1;
  vr_message : option rstr;
}.

(** ** journal.rs: the durable records *)
Inductive SourceEditJournalStateV1 : Type :=
  | Prepared
  | Applied (outcome : SourceEditDurableOutcomeV1) (committed_state : rstr) (ended_at : Z)
      (control_observation : option CancellationObservation)
      (verification_state : option SourceEditVerificationStateV1).

Record SourceEditDurableRequestV1 : Type := {
  r_operation : rstr;
  r_request_id : rstr;
  r_actor : rstr;
  r_scope : ResolvedScope;
  r_authority : AuthorityReceipt;
  r_authority_proof : SourceEditEffectProofV1;
  r_idempotency_key : rstr;
  r_deadline : Z;
  r_started_at : Z;
  r_dry_run : bool;
  r_verification_requested : bool;
}.

Record SourceEditJournalV1 : Type := {
  j_version : Z;
  j_effect_id : rstr;
  j_input_digest : rstr;
  j_expected_state : rstr;
  j_predicted_state : option rstr;
  j_candidate_files : list rstr;
  j_recovery_files : list PlannedSourceEditFile;
  j_recovery_digest : option rstr;
  j_request : SourceEditDurableRequestV1;
  j_state : SourceEditJournalStateV1;
}.

(** [journal.state = state]. *)
Definition with_state (j : SourceEditJournalV1) (state : SourceEditJournalStateV1) : SourceEditJournalV1 := {|
  j_version := j_version j; j_effect_id := j_effect_id j; j_input_digest := j_input_digest j;
  j_expected_state := j_expected_state j; j_predicted_state := j_predicted_state j;
  j_candidate_files := j_candidate_files j; j_recovery_files := j_recovery_files j;
  j_recovery_digest := j_recovery_digest j; j_request := j_request j; j_state := state |}.

Record SourceEditRollbackRecordV1 : Type := {
  b_version : Z;
  b_effect_id : rstr;
  b_input_digest : rstr;
  b_idempotency_key : rstr;
  b_operation : rstr;
  b_actor : rstr;
  b_scope : ResolvedScope;
  b_expected_state : rstr;
  b_committed_state : rstr;
  b_recovery_files : list PlannedSourceEditFile;
  b_recovery_digest : rstr;
  b_record_digest : rstr;
}.

#[export] Instance rollback_record_eq_dec : EqDecision SourceEditRollbackRecordV1.
Proof. solve_decision. Defined.

Record SourceEditDurableResultV1 : Type := {
  u_version : Z;
  u_input_digest : rstr;
  u_authority_proof : SourceEditEffectProofV1;
  u_dry_run : bool;
  u_predicted_state : option rstr;
  u_outcome : SourceEditDurableOutcomeV1;
  u_effect : EffectResult DurablePayload;
}.

(** [JOURNAL_VERSION]-ed files under the store root, by what they hold.  The
    name is the hexadecimal part of the digest of the key. *)
Inductive RecordPath : Type :=
  | ActivePath
  | ReceiptPath (name : rstr)
  | ReconciliationReceiptPath (name : rstr)
  | RollbackRecordPath (name : rstr).

#[export] Instance record_path_eq_dec : EqDecision RecordPath.
Proof. solve_decision. Defined.
#[export] Instance record_path_countable : Countable RecordPath.
Proof.
  refine (inj_countable'
    (λ p, match p with
          | ActivePath => (0%nat, []) | ReceiptPath n => (1%nat, n)
          | ReconciliationReceiptPath n => (2%nat, n) | RollbackRecordPath n => (3%nat, n)
          end)
    (λ x, match x with
          | (0%nat, _) => ActivePath | (1%nat, n) => ReceiptPath n
          | (2%nat, n) => ReconciliationReceiptPath n | (_, n) => RollbackRecordPath n
          end) _).
  by intros [].
Defined.

(** The JSON of a record, as [serde_json] writes and reads it. *)
Class DurableCodec := {
  Encoded : Type;
  encoded_len : Encoded → Z;
  journal_to_json : SourceEditJournalV1 → Encoded;
  journal_from_json : Encoded → option SourceEditJournalV1;
  result_to_json : SourceEditDurableResultV1 → Encoded;
  result_from_json : Encoded → option SourceEditDurableResultV1;
  rollback_to_json : SourceEditRollbackRecordV1 → Encoded;
  rollback_from_json : Encoded → option SourceEditRollbackRecordV1;
  journal_round_trip : ∀ j, journal_from_json (journal_to_json j) = Some j;
  result_round_trip : ∀ r, result_from_json (result_to_json r) = Some r;
  rollback_round_trip : ∀ r, rollback_from_json (rollback_to_json r) = Some r;
}.

(** ** records.rs *)
Record SourceEditApplicationResult : Type := {
  x_outcome : SourceEditOutcome;
  x_dry_run : bool;
  x_expected_state : rstr;
  x_predicted_state : option rstr;
  x_verification : option SourceEditVerificationV1;
  x_effect : option (EffectResult DurablePayload);
  x_replayed : bool;
}.

Definition into_application_result (self : SourceEditDurableResultV1) (replayed : bool) :
    SourceEditApplicationResult := {|
  x_outcome := ODurableMetadata (u_outcome self);
  x_dry_run := u_dry_run self;
  x_expected_state := ef_expected_state (u_effect self);
  x_predicted_state := u_predicted_state self;
  x_verification := None;
  x_effect := Some (u_effect self);
  x_replayed := replayed;
|}.

Definition into_live_application_result (self : SourceEditDurableResultV1) (outcome : SourceEditOutcome)
    (verification : option SourceEditVerificationV1) : SourceEditApplicationResult := {|
  x_outcome := outcome;
  x_dry_run := u_dry_run self;
  x_expected_state := ef_expected_state (u_effect self);
  x_predicted_state := u_predicted_state self;
  x_verification := verification;
  x_effect := Some (u_effect self);
  x_replayed := false;
|}.

Definition applied_effect_termination (verification_requested : bool)
    (verification_state : option SourceEditVerificationStateV1) (source_edit_succeeded : bool) :
    EffectTermination :=
  if negb source_edit_succeeded then Failed
  else if negb verification_requested ||
          match verification_state with Some Clean | Some Errors => true | _ => false end
  then Completed
  else Partial.

Section records.
Context `{EditDigests}.

Definition durable_record (journal : SourceEditJournalV1) (outcome : SourceEditDurableOutcomeV1)
    (committed_state : option rstr) (ended_at : Z) (termination : EffectTermination)
    (reconciliation : ReconciliationState) (control_observation : option CancellationObservation) :
    edit SourceEditDurableResultV1 :=
  let request := j_request journal in
  let proof := r_authority_proof request in
  let execution := {|
    or_started_at := r_started_at request;
    or_ended_at := Z.max ended_at (r_started_at request);
    or_effective_deadline := r_deadline request;
    or_cancellation := control_observation;
    or_termination := operation_termination termination;
  |} in
  let receipt := {|
    er_operation := r_operation request; er_request_id := r_request_id request;
    er_actor := r_actor request; er_scope := r_scope request;
    er_idempotency_key := r_idempotency_key request; er_input_digest := j_input_digest journal;
    er_expected_state := j_expected_state journal; er_policy_digest := f_policy_digest proof;
    er_configuration_digest := f_configuration_digest proof; er_catalog_digest := f_catalog_digest proof;
    er_privacy_digest := f_privacy_digest proof; er_outcome := termination;
    er_committed_state := committed_state; er_external_proof := f_external_proof proof;
  |} in
  let? effect := application_contract (effect_result_new (j_effect_id journal) (r_idempotency_key request)
    (r_authority request) (j_expected_state journal) execution reconciliation receipt
    (Some (durable_value outcome))) in
  Ok {| u_version := JOURNAL_VERSION; u_input_digest := j_input_digest journal;
        u_authority_proof := proof; u_dry_run := r_dry_run request;
        u_predicted_state := j_predicted_state journal; u_outcome := outcome; u_effect := effect |}.

Definition applied_durable_record (journal : SourceEditJournalV1) (outcome : SourceEditDurableOutcomeV1)
    (committed_state : rstr) (ended_at : Z) (control_observation : option CancellationObservation)
    (verification_state : option SourceEditVerificationStateV1) : edit SourceEditDurableResultV1 :=
  durable_record journal outcome (Some committed_state) ended_at
    (applied_effect_termination (r_verification_requested (j_request journal)) verification_state
       (d_success outcome))
    Reconciled control_observation.

Definition applied_record (journal : SourceEditJournalV1) (outcome : SourceEditOutcome)
    (committed_state : rstr) (ended_at : Z) (control_observation : option CancellationObservation) :
    edit SourceEditDurableResultV1 :=
  let verification_state :=
    match j_state journal with Applied _ _ _ _ v => v | Prepared => None end in
  durable_record journal (from_live (r_operation (j_request journal)) outcome) (Some committed_state) ended_at
    (applied_effect_termination (r_verification_requested (j_request journal)) verification_state
       (outcome_success outcome))
    Reconciled control_observation.

Definition unknown_record (journal : SourceEditJournalV1) (now : Z) : edit SourceEditDurableResultV1 :=
  durable_record journal
    (from_live (r_operation (j_request journal))
       (OEffectUnknown (str "source edit effect is unknown and requires reconciliation")))
    None now EffectUnknown Pending None.

Definition interrupted_record (journal : SourceEditJournalV1) (outcome : SourceEditOutcome)
    (stop : SourceEditControlStopV1) : edit SourceEditDurableResultV1 :=
  durable_record journal (from_live (r_operation (j_request journal)) outcome) None
    (o_observed_at (stop_observation stop)) (stop_termination stop) Reconciled
    (Some (stop_observation stop)).

(** [SourceEditReconciliationAttemptV1]; its control is passed apart. *)
Record SourceEditReconciliationAttemptV1 : Type := {
  at_operation : ApplicationOperation;
  at_authority : SourceEditAuthorizationAdmissionV1;
  at_input_digest : rstr;
}.

(** [digest.as_str().trim_start_matches] of the tag: the hexadecimal rest of a
    digest does not start with the tag again. *)
Definition digest_hex (digest : rstr) : rstr :=
  match strip_prefix (str "sha256:") digest with Some hex => hex | None => digest end.

Definition minted_effect_id (domain_name prefix : string) (key input_digest : rstr) : edit rstr :=
  let? digest := domain (minted_canonical (str domain_name, key, input_digest)) in
  let value := str prefix ++ digest_hex digest in
  let? _ := application_contract (validate_identifier value "effect id" 512) in
  Ok value.

Definition effect_id (key input_digest : rstr) : edit rstr :=
  minted_effect_id "tracedecay.source-edit-effect-id.v1" "effect.source-edit." key input_digest.

Definition reconciliation_attempt_effect_id (key input_digest : rstr) : edit rstr :=
  minted_effect_id "tracedecay.source-edit-reconciliation-attempt-effect-id.v1"
    "effect.source-edit-reconciliation." key input_digest.

Definition reconciliation_attempt_record (journal : SourceEditJournalV1)
    (request : SourceEditReconciliationRequestV1) (attempt : SourceEditReconciliationAttemptV1)
    (outcome : SourceEditOutcome) (committed_state : option rstr) (ended_at : Z)
    (termination : EffectTermination) (control_observation : option CancellationObservation) :
    edit SourceEditDurableResultV1 :=
  let committed_state :=
    if bool_decide (termination = Completed) then
      Some match rq_disposition request with
           | ConfirmCommitted committed_state => committed_state
           | ConfirmRolledBack => j_expected_state journal
           end
    else committed_state in
  let proof := ad_proof (at_authority attempt) in
  let execution := {|
    or_started_at := rq_observed_at request;
    or_ended_at := Z.max ended_at (rq_observed_at request);
    or_effective_deadline := c_deadline (rq_context request);
    or_cancellation := control_observation;
    or_termination := operation_termination termination;
  |} in
  let receipt := {|
    er_operation := op_use_case_id (at_operation attempt);
    er_request_id := c_request_id (rq_context request);
    er_actor := c_actor (rq_context request); er_scope := c_scope (rq_context request);
    er_idempotency_key := rq_attempt_idempotency_key request; er_input_digest := at_input_digest attempt;
    er_expected_state := j_expected_state journal; er_policy_digest := f_policy_digest proof;
    er_configuration_digest := f_configuration_digest proof; er_catalog_digest := f_catalog_digest proof;
    er_privacy_digest := f_privacy_digest proof; er_outcome := termination;
    er_committed_state := committed_state; er_external_proof := f_external_proof proof;
  |} in
  let? id := reconciliation_attempt_effect_id (rq_attempt_idempotency_key request) (at_input_digest attempt) in
  let durable_outcome := from_live (op_use_case_id (at_operation attempt)) outcome in
  let? effect := application_contract (effect_result_new id (rq_attempt_idempotency_key request)
    (ad_receipt (at_authority attempt)) (j_expected_state journal) execution Reconciled receipt
    (Some (durable_value durable_outcome))) in
  Ok {| u_version := JOURNAL_VERSION; u_input_digest := at_input_digest attempt;
        u_authority_proof := proof; u_dry_run := false;
        u_predicted_state := j_predicted_state journal; u_outcome := durable_outcome; u_effect := effect |}.
End records.
