(* ===== verification/EditFiles.v ===== *)
(** * Source edits: the worktree, the store and what may fail

    The state a source edit acts on, with the calls that read and change it:
    candidate files behind [SourceEditFileAuthority] of [file_authority.rs] with
    the path rules of [tracedecay-runtime-core/src/path_safety.rs], and the
    durable records of [digest.rs] and [journal.rs].

    A computation [tx A] runs on a [World] and returns, raises an error or stops
    where the process died or the task panicked.  Every call that reaches the
    file system takes one [Fate] of the world: an atomic replacement may be
    refused, may take place with an error reported (the directory sync failed),
    or the process may die before or after it.  An empty list of fates is a run without failures.  No
    other process writes the files during a run; temporary files, permissions
    and the retry on a used temporary name are left out.

    The directories of the worktree are part of the world: a file is opened
    through every directory above it, nothing of the code makes a directory,
    and a failed move removes empty ones. *)
From stdpp Require Import base numbers strings gmap list.
From S2P Require Import Prelude RustText Bytes PolicyRouting EditContract EditRecords.

#[local] Open Scope Z_scope.
#[local] Open Scope rust_scope.

(** ** Paths *)
Fixpoint split_on (sep : Z) (s : rstr) : list rstr :=
  match s with
  | [] => [[]]
  | c :: s =>
    let rest := split_on sep s in
    if c =? sep then [] :: rest
    else match rest with [] => [[c]] | part :: parts => (c :: part) :: parts end
  end.

Definition slash : Z := 47.
Definition dot : rstr := str ".".
Definition dot_dot : rstr := str "..".

Definition is_absolute (path : rstr) : bool :=
  match path with c :: _ => c =? slash | [] => false end.

(** The [Normal] components of a relative path: [components] drops empty and
    inner dot components, a leading dot is a [CurDir]. *)
Definition normal_components (path : rstr) : list rstr :=
  List.filter (λ c, negb (is_empty c) && negb (bool_decide (c = dot))) (split_on slash path).

Fixpoint join (parts : list rstr) : rstr :=
  match parts with
  | [] => []
  | [part] => part
  | part :: parts => part ++ slash :: join parts
  end.

(** Whether every component of a relative path is [Normal] or [CurDir]. *)
Definition stays_inside (path : rstr) : bool :=
  negb (is_absolute path) && negb (bool_decide (dot_dot ∈ normal_components path)).

(** [normalize_source_edit_relative_path]: the path as the key of a file. *)
Definition normalize_source_edit_relative_path (path : rstr) : option rstr :=
  if stays_inside path then
    match normal_components path with [] => None | parts => Some (join parts) end
  else None.

(** The directories above a file below the root of the worktree, the innermost
    first. *)
Fixpoint ancestors (parts : list rstr) : list (list rstr) :=
  match parts with
  | [] | [_] => []
  | part :: parts => [part] :: (cons part <$> ancestors parts)
  end.

Definition parents (key : rstr) : list rstr := join <$> reverse (ancestors (normal_components key)).

Definition source_edit_unsafe_path : EditError :=
  config_error "source edit path is not a regular file beneath the authorized worktree".

(** ** The world *)

(** A file and the device and inode number that [Handle] compares. *)
Record File : Type := { content : bytes; identity : Z }.

Inductive Fate : Type := Done | RefusedCall | Unconfirmed | DiesBefore | DiesAfter.

Record World `{DurableCodec} : Type := {
  tree : gmap rstr File;
  next_identity : Z;
  dirs : gset rstr;
  store : gmap RecordPath Encoded;
  fates : list Fate;
}.

Inductive answer (A : Type) : Type :=
  | Return (a : A)
  | Raise (e : EditError)
  | Died.
Arguments Return {A} _.
Arguments Raise {A} _.
Arguments Died {A}.

Section files.
Context `{DurableCodec}.

Definition tx (A : Type) : Type := World → World * answer A.

Definition ret {A} (a : A) : tx A := λ w, (w, Return a).
Definition raise {A} (e : EditError) : tx A := λ w, (w, Raise e).
(** A panic: no handler below the request runs. *)
Definition panic {A} : tx A := λ w, (w, Died).
Definition bind {A B} (m : tx A) (k : A → tx B) : tx B := λ w,
  match m w with
  | (w, Return a) => k a w
  | (w, Raise e) => (w, Raise e)
  | (w, Died) => (w, Died)
  end.
Definition lift {A} (r : edit A) : tx A := match r with Ok a => ret a | Err e => raise e end.

(** The [Result] of a call, to match on. *)
Definition attempt {A} (m : tx A) : tx (edit A) := λ w,
  match m w with
  | (w, Return a) => (w, Return (Ok a))
  | (w, Raise e) => (w, Return (Err e))
  | (w, Died) => (w, Died)
  end.

Definition with_tree (w : World) (t : gmap rstr File) (n : Z) : World :=
  {| tree := t; next_identity := n; dirs := dirs w; store := store w; fates := fates w |}.
Definition with_dirs (w : World) (d : gset rstr) : World :=
  {| tree := tree w; next_identity := next_identity w; dirs := d; store := store w; fates := fates w |}.
Definition with_store (w : World) (s : gmap RecordPath Encoded) : World :=
  {| tree := tree w; next_identity := next_identity w; dirs := dirs w; store := s; fates := fates w |}.

(** The fate of the next call. *)
Definition next_fate (w : World) : Fate * World :=
  match fates w with
  | [] => (Done, w)
  | f :: fs => (f, {| tree := tree w; next_identity := next_identity w; dirs := dirs w;
                      store := store w; fates := fs |})
  end.

(** A call that only reads. *)
Definition observe {A} (operation : string) (f : World → A) : tx A := λ w,
  match next_fate w with
  | (Done, w) => (w, Return (f w))
  | (RefusedCall, w) | (Unconfirmed, w) => (w, Raise (IoError (str operation)))
  | (DiesBefore, w) | (DiesAfter, w) => (w, Died)
  end.

(** An atomic replacement that is synced before the call returns. *)
Definition replace (operation : string) (f : World → World) : tx unit := λ w,
  match next_fate w with
  | (Done, w) => (f w, Return tt)
  | (RefusedCall, w) => (w, Raise (IoError (str operation)))
  | (Unconfirmed, w) => (f w, Raise (IoError (str operation)))
  | (DiesBefore, w) => (w, Died)
  | (DiesAfter, w) => (f w, Died)
  end.
End files.

Notation "'let!' x := m 'in' k" := (bind m (λ x, k))
  (at level 10, x name, m at level 100, k at level 200) : rust_scope.
Notation "'let!' ' x := m 'in' k" := (bind m (λ x, k))
  (at level 10, x strict pattern, m at level 100, k at level 200) : rust_scope.

(** ** file_authority.rs

    [opens] tells whether each directory above a file that exists can be opened
    without following a link. *)
Section authority.
Context `{DurableCodec} (opens : rstr → bool).

(** Whether every directory above a file exists. *)
Definition parents_exist (d : gset rstr) (key : rstr) : bool := forallb (λ p, bool_decide (p ∈ d)) (parents key).

(** [SourceEditFileAuthority::open], as the key of the file it binds. *)
Definition open (path : rstr) : tx rstr :=
  match normalize_source_edit_relative_path path with
  | None => raise source_edit_unsafe_path
  | Some key =>
    let! present := observe "open source edit parent without following symlinks"
                      (λ w, opens key && parents_exist (dirs w) key) in
    if present : bool then ret key
    else raise (IoError (str "open source edit parent without following symlinks"))
  end.

Definition read_optional_with_identity (key : rstr) : tx (option File) :=
  observe "read source edit candidate" (λ w, tree w !! key).

Definition read_optional (key : rstr) : tx (option bytes) :=
  let! file := read_optional_with_identity key in ret (content <$> file).

Definition current_identity (key : rstr) : tx (option Z) :=
  let! file := observe "identify current source edit candidate" (λ w, tree w !! key) in
  ret (identity <$> file).

Definition read_source_edit_candidate (path : rstr) : tx (option bytes) :=
  let! key := open path in read_optional key.

Definition read_to_string (key label : rstr) : tx (rstr * Z) :=
  let! file := read_optional_with_identity key in
  match file with
  | None => raise (NotFound label)
  | Some file =>
    match utf8_decode (content file) with
    | None => raise (ConfigAt (str "failed to read") label)
    | Some source => ret (source, identity file)
    end
  end.

Definition text_bytes (t : option rstr) : option bytes := utf8_encode <$> t.

(** The rename of the temporary file over the candidate: a new inode. *)
Definition put_file (key : rstr) (b : bytes) (w : World) : World :=
  with_tree w (<[key := {| content := b; identity := next_identity w |}]> (tree w)) (next_identity w + 1).
Definition remove_file (key : rstr) (w : World) : World :=
  with_tree w (delete key (tree w)) (next_identity w).

(** [std::fs::remove_dir]: only a directory without entries is removed. *)
Definition empty_directory (d : rstr) (w : World) : Prop :=
  d ∈ dirs w ∧ map_Forall (λ key _, d ∉ parents key) (tree w) ∧ set_Forall (λ e, d ∉ parents e) (dirs w).
#[export] Instance empty_directory_dec d w : Decision (empty_directory d w).
Proof. unfold empty_directory. apply _. Defined.

Definition remove_dir (d : rstr) : tx unit := λ w,
  if bool_decide (empty_directory d w)
  then replace "remove directory" (λ w, with_dirs w (dirs w ∖ {[d]})) w
  else (let! _ := observe "remove directory" (λ _, tt) in raise (IoError (str "remove directory"))) w.

Definition publish (key path : rstr) (expected : option rstr) (expected_identity : option Z)
    (intended : rstr) : tx unit :=
  let! file := read_optional_with_identity key in
  if negb (bool_decide (content <$> file = text_bytes expected)) then
    raise (ConfigAt (str "source edit candidate changed before atomic publication") path)
  else if negb (bool_decide (identity <$> file = expected_identity)) then
    raise (ConfigAt (str "source edit candidate was replaced before atomic publication") path)
  else replace "atomically publish source edit candidate" (put_file key (utf8_encode intended)).

Definition remove (key path expected : rstr) (expected_identity : Z) : tx unit :=
  let! file := read_optional_with_identity key in
  if negb (bool_decide (content <$> file = Some (utf8_encode expected))) then
    raise (ConfigAt (str "source edit candidate changed before atomic removal") path)
  else if negb (bool_decide (identity <$> file = Some expected_identity)) then
    raise (ConfigAt (str "source edit candidate was replaced before atomic removal") path)
  else replace "atomically remove source edit candidate" (remove_file key).

(** ** plan.rs: publication and restoration *)
Definition publish_source_edit_state (path : rstr) (expected intended : option rstr) : tx unit :=
  let! key := open path in
  let! expected_identity := current_identity key in
  match intended with
  | Some intended => publish key path expected expected_identity intended
  | None =>
    match expected with
    | None => raise (ConfigAt (str "source edit candidate cannot remove an absent file") path)
    | Some expected =>
      match expected_identity with
      | None => raise (ConfigAt (str "source edit candidate disappeared before atomic removal") path)
      | Some expected_identity => remove key path expected expected_identity
      end
    end
  end.

(** The first pass of [rollback_planned_source_edit_files]: what each file
    holds, unless one of them holds something else than its pre- or postimage. *)
Fixpoint observe_planned (files : list PlannedSourceEditFile) : tx (list (option bytes)) :=
  match files with
  | [] => ret []
  | file :: files =>
    let! current := read_source_edit_candidate (relative_path file) in
    if negb (bool_decide (current = text_bytes (expected file)))
       && negb (bool_decide (current = text_bytes (intended file)))
    then raise (ConfigAt (str "source edit crash recovery refused foreign bytes") (relative_path file))
    else let! rest := observe_planned files in ret (current :: rest)
  end.

Fixpoint restore_planned (files : list (PlannedSourceEditFile * option bytes)) : tx unit :=
  match files with
  | [] => ret tt
  | (file, current) :: files =>
    if bool_decide (current = text_bytes (expected file)) then restore_planned files
    else
      let! _ := publish_source_edit_state (relative_path file) (intended file) (expected file) in
      restore_planned files
  end.

Definition rollback_planned_source_edit_files (files : list PlannedSourceEditFile) : tx unit :=
  let! observed := observe_planned files in
  restore_planned (reverse (zip files observed)).

Fixpoint commit_source_edit_postimages (files : list PlannedSourceEditFile) : tx unit :=
  match files with
  | [] => ret tt
  | file :: files =>
    let! current := read_source_edit_candidate (relative_path file) in
    if negb (bool_decide (current = text_bytes (intended file))) then
      raise (ConfigAt (str "source edit postimage changed before reconciliation") (relative_path file))
    else commit_source_edit_postimages files
  end.
End authority.
