(* ===== verification/EditPlan.v ===== *)
(** * Source edits: plans, state digests and the edit primitives

    [tracedecay-source-edit/src]: the plan scopes of [plan.rs], the state
    digests and candidate names of [digest.rs], and how each edit primitive of
    [edits/] and [move_symbol/] publishes or previews what it computed.

    What a primitive computes from the text it read is a parameter,
    [Primitives], one for the preview and one for the apply: the graph evidence
    may differ between the two.  [EditText] models the text of the single-file
    primitives. *)
From stdpp Require Import base numbers strings gmap list sorting.
From S2P Require Import Prelude RustText Bytes PolicyRouting EditContract EditRecords EditFiles.

#[local] Open Scope Z_scope.
#[local] Open Scope rust_scope.

(** ** digest.rs *)

(** [Vec::dedup]. *)
Fixpoint dedup (l : list rstr) : list rstr :=
  match l with
  | [] => []
  | x :: l' =>
    match dedup l' with
    | [] => [x]
    | y :: rest => if bool_decide (x = y) then y :: rest else x :: y :: rest
    end
  end.

(** The order of strings: byte order of UTF-8 is the order of the scalar values. *)
Definition path_leb (a b : rstr) : bool := cmp_leb bytes_compare a b.

Section plan.
Context `{DurableCodec} `{Sha256} `{EditDigests} (opens : rstr → bool).

Fixpoint normalize_each (files : list rstr) : tx (list rstr) :=
  match files with
  | [] => ret []
  | file :: files =>
    if negb (stays_inside file) then
      raise (config_error "source edit candidate path is outside the authorized worktree")
    else
      let value := join (normal_components file) in
      let! _ := open opens value in
      let! rest := normalize_each files in
      ret (value :: rest)
  end.

Definition normalize_candidate_files (files : list rstr) : tx (list rstr) :=
  let! normalized := normalize_each files in
  match dedup (sort_by path_leb normalized) with
  | [] => raise (config_error "source edit preview resolved no candidate files")
  | normalized => ret normalized
  end.

Definition hash_source_edit_content (b : bytes) : edit rstr := domain (from_sha256_bytes (sha256 b)).

Definition hash_optional (b : option bytes) : edit (option rstr) :=
  match b with
  | Some b => let? d := hash_source_edit_content b in Ok (Some d)
  | None => Ok None
  end.

Definition digest_states (states : list (rstr * option rstr)) : edit rstr :=
  domain (state_canonical (SOURCE_EDIT_STATE_DIGEST_DOMAIN_V1, states)).

Fixpoint read_states (files : list rstr) : tx (list (rstr * option rstr)) :=
  match files with
  | [] => ret []
  | relative :: files =>
    let! current := read_source_edit_candidate opens relative in
    let! state := lift (hash_optional current) in
    let! rest := read_states files in
    ret ((relative, state) :: rest)
  end.

Definition source_edit_state_digest (files : list rstr) : tx rstr :=
  let! states := read_states files in
  lift (digest_states states).

Definition plan_tuple (file : PlannedSourceEditFile) : rstr * option rstr * option rstr :=
  (relative_path file, expected file, intended file).

Definition source_edit_recovery_digest (files : list PlannedSourceEditFile) : edit rstr :=
  domain (planned_canonical (SOURCE_EDIT_RECOVERY_DIGEST_DOMAIN_V1, plan_tuple <$> files)).

(** [planned.intended] or [planned.expected]. *)
Definition planned_side (want_intended : bool) (file : PlannedSourceEditFile) : option rstr :=
  if want_intended then intended file else expected file.

Fixpoint planned_states (files : list rstr) (planned_files : list PlannedSourceEditFile)
    (want_intended : bool) : edit (list (rstr * option rstr)) :=
  match files with
  | [] => Ok []
  | relative :: files =>
    match List.filter (λ planned, bool_decide (relative_path planned = relative)) planned_files with
    | [] => Err (config_error "source edit candidate is missing from its exact preview plan")
    | [planned] =>
      let? state := hash_optional (text_bytes (planned_side want_intended planned)) in
      let? rest := planned_states files planned_files want_intended in
      Ok ((relative, state) :: rest)
    | _ => Err (config_error "source edit candidate appears more than once in its exact preview plan")
    end
  end.

Definition planned_source_edit_state_digest (files : list rstr) (planned_files : list PlannedSourceEditFile)
    (want_intended : bool) : edit rstr :=
  let? states := planned_states files planned_files want_intended in
  digest_states states.

(** ** plan.rs: the scope a primitive runs in *)
Inductive PlanScope : Type :=
  | Capturing (captured : list PlannedSourceEditFile)
  | Applying (files : list PlannedSourceEditFile) (consumed : list rstr).

Definition capture_planned_source_edit (scope : PlanScope) (path : rstr) (before after : option rstr) :
    PlanScope * bool :=
  match scope with
  | Capturing captured =>
    (Capturing (captured ++ [{| relative_path := path; expected := before; intended := after |}]), true)
  | Applying _ _ => (scope, false)
  end.

Definition validate_planned_source_edit (scope : PlanScope) (path : rstr) (before after : option rstr) :
    edit PlanScope :=
  match scope with
  | Capturing _ => Ok scope
  | Applying files consumed =>
    match List.find (λ file, bool_decide (relative_path file = path)) files with
    | None => Err (ConfigAt (str "source edit apply produced unplanned candidate") path)
    | Some planned =>
      if negb (bool_decide (expected planned = before)) || negb (bool_decide (intended planned = after))
      then Err (ConfigAt (str "source edit candidate drifted from its exact preview") path)
      else Ok (Applying files (if bool_decide (path ∈ consumed) then consumed else path :: consumed))
    end
  end.

Definition publish_planned_source_edit (scope : PlanScope) (path : rstr) (before : option rstr)
    (after : rstr) : tx PlanScope :=
  match capture_planned_source_edit scope path before (Some after) with
  | (scope, true) => ret scope
  | (scope, false) =>
    let! scope := lift (validate_planned_source_edit scope path before (Some after)) in
    let! _ := publish_source_edit_state opens path before (Some after) in
    ret scope
  end.

(** ** edits/primitives.rs: the write-or-preview gate of one file *)
Definition commit_or_preview_edit (scope : PlanScope) (path key : rstr) (expected_identity : Z)
    (original modified : rstr) (dry_run : bool) : tx PlanScope :=
  if dry_run then ret (fst (capture_planned_source_edit scope path (Some original) (Some modified)))
  else
    let! scope := lift (validate_planned_source_edit scope path (Some original) (Some modified)) in
    let! _ := publish key path (Some original) (Some expected_identity) modified in
    ret scope.

(** What a primitive makes of the text it read: a refusal it reports as its
    outcome, new text, or a panic. *)
Inductive Rewrite : Type :=
  | RefuseEdit (o : SourceEditOutcome)
  | RewriteTo (modified : rstr) (o : SourceEditOutcome)
  | RewritePanics.

Inductive MoveRewrite : Type :=
  | RefuseMove (o : SourceEditOutcome)
  | MoveTo (source_modified dest_modified : rstr) (o : SourceEditOutcome).

Inductive RenameDecision : Type :=
  | RefuseRename (o : SourceEditOutcome)
  | RenameAll (o : SourceEditOutcome).

Record Primitives : Type := {
  one_target : SourceEditRequest → edit rstr;
  one_rewrite : SourceEditRequest → rstr → rstr → edit Rewrite;
  move_targets : SourceEditRequest → edit (SourceEditOutcome + (rstr * rstr));
  move_check : SourceEditRequest → rstr → edit (option SourceEditOutcome);
  move_rewrite : SourceEditRequest → rstr → option rstr → edit MoveRewrite;
  rename_targets : SourceEditRequest → edit (list rstr);
  rename_modify : SourceEditRequest → rstr → rstr → edit (option rstr);
  rename_decide : SourceEditRequest → list PlannedSourceEditFile → edit RenameDecision;
}.

Context (prims : Primitives).

(** The name a read error carries: the path as the request spells it, or the
    path of the resolved symbol. *)
Definition read_label (request : SourceEditRequest) (path : rstr) : rstr :=
  match request with
  | StrReplace spelled _ _ _ _ | MultiStrReplace spelled _ _ _ | InsertAt spelled _ _ _ _ _
  | AstGrepRewrite spelled _ _ _ _ => spelled
  | _ => path
  end.

(** [str_replace], [multi_str_replace], [insert_at], [ast_grep_rewrite],
    [replace_symbol] and [insert_at_symbol]. *)
Definition edit_one (scope : PlanScope) (request : SourceEditRequest) : tx (PlanScope * SourceEditOutcome) :=
  let! path := lift (one_target prims request) in
  let! key := open opens path in
  let! read := read_to_string key (read_label request path) in
  let! rewrite := lift (one_rewrite prims request path (fst read)) in
  match rewrite with
  | RewritePanics => panic
  | RefuseEdit o => ret (scope, o)
  | RewriteTo modified o =>
    let! scope := commit_or_preview_edit scope path key (snd read) (fst read) modified
                    (edit_dry_run request) in
    ret (scope, o)
  end.

(** [std::fs::read_to_string] of a path joined to the project root. *)
Definition plain_key (path : rstr) : rstr := default path (normalize_source_edit_relative_path path).
Definition fs_read (path : rstr) : tx (option bytes) :=
  observe "failed to read" (λ w, content <$> tree w !! plain_key path).

Definition ensure_text_unchanged (path : rstr) (text : option rstr) : tx unit :=
  let! current := fs_read path in
  if bool_decide (current = text_bytes text) then ret tt
  else raise (ConfigAt (str "changed while the move was being prepared; retry") path).

(** The loop that removes the directories above a destination, the innermost
    first, up to the root of the worktree or the first that is not removed. *)
Fixpoint remove_empty_parents (ds : list rstr) : tx unit :=
  match ds with
  | [] => ret tt
  | d :: ds =>
    let! removed := attempt (remove_dir d) in
    match removed with Ok _ => remove_empty_parents ds | Err _ => ret tt end
  end.

(** The apply of [move_symbol]: the destination before the source.  When the
    source cannot be written the destination is rolled back and, if it was new,
    the empty directories above it are removed. *)
Definition move_apply (scope : PlanScope) (source_rel dest_rel source : rstr) (dest_original : option rstr)
    (source_modified dest_modified : rstr) (o : SourceEditOutcome) : tx (PlanScope * SourceEditOutcome) :=
  let! scope := lift (validate_planned_source_edit scope source_rel (Some source) (Some source_modified)) in
  let! scope := lift (validate_planned_source_edit scope dest_rel dest_original (Some dest_modified)) in
  let! _ := ensure_text_unchanged source_rel (Some source) in
  let! _ := ensure_text_unchanged dest_rel dest_original in
  let! scope := publish_planned_source_edit scope dest_rel dest_original dest_modified in
  let! published := attempt
    (let! _ := ensure_text_unchanged source_rel (Some source) in
     let! _ := ensure_text_unchanged dest_rel (Some dest_modified) in
     publish_planned_source_edit scope source_rel (Some source) source_modified) in
  match published with
  | Ok scope => ret (scope, o)
  | Err _ =>
    let! rollback := attempt (rollback_planned_source_edit_files opens
      [{| relative_path := source_rel; expected := Some source; intended := Some source_modified |};
       {| relative_path := dest_rel; expected := dest_original; intended := Some dest_modified |}]) in
    let! _ := match dest_original, rollback with
              | None, Ok _ => remove_empty_parents (parents (plain_key dest_rel))
              | _, _ => ret tt
              end in
    raise (ConfigAt (match rollback with
                     | Ok _ => str "move aborted; destination rolled back"
                     | Err _ => str "move aborted; rollback incomplete"
                     end) source_rel)
  end.

(** From the text of both files on. *)
Definition move_commit (scope : PlanScope) (request : SourceEditRequest) (source_rel dest_rel source : rstr)
    (dest_original : option rstr) : tx (PlanScope * SourceEditOutcome) :=
  let! rewrite := lift (move_rewrite prims request source dest_original) in
  match rewrite with
  | RefuseMove o => ret (scope, o)
  | MoveTo source_modified dest_modified o =>
    if edit_dry_run request then
      let scope := fst (capture_planned_source_edit scope source_rel (Some source) (Some source_modified)) in
      let scope := fst (capture_planned_source_edit scope dest_rel dest_original (Some dest_modified)) in
      ret (scope, o)
    else move_apply scope source_rel dest_rel source dest_original source_modified dest_modified o
  end.

(** [fail]: a move that is refused. *)
Definition move_refused (source_rel dest_rel message : rstr) : SourceEditOutcome :=
  OMove {| v_success := false; v_source_file := source_rel; v_dest_file := dest_rel;
           v_applied_imports := []; v_impact := []; v_message := message |}.

(** [move_check] stands for the refusals between the two reads: the span of the
    symbol and a collision at the destination. *)
Definition move_symbol (scope : PlanScope) (request : SourceEditRequest) : tx (PlanScope * SourceEditOutcome) :=
  let! targets := lift (move_targets prims request) in
  match targets with
  | inl refusal => ret (scope, refusal)
  | inr (source_rel, dest_rel) =>
    if bool_decide (dest_rel = source_rel) then
      ret (scope, move_refused source_rel dest_rel
        (str "destination is the symbol's own file (" ++ source_rel ++ str "); nothing to move"))
    else
      let! source_bytes := fs_read source_rel in
      match source_bytes ≫= utf8_decode with
      | None => raise (ConfigAt (str "failed to read") source_rel)
      | Some source =>
        let! refusal := lift (move_check prims request source) in
        match refusal with
        | Some refusal => ret (scope, refusal)
        | None =>
          let unreadable := ret (scope, move_refused source_rel dest_rel
                                          (str "failed to read destination " ++ dest_rel)) in
          let! dest_bytes := attempt (fs_read dest_rel) in
          match dest_bytes with
          | Err _ => unreadable
          | Ok None => move_commit scope request source_rel dest_rel source None
          | Ok (Some b) =>
            match utf8_decode b with
            | None => unreadable
            | Some dest_original => move_commit scope request source_rel dest_rel source (Some dest_original)
            end
          end
        end
      end
  end.

Fixpoint rename_read (request : SourceEditRequest) (paths : list rstr) : tx (list PlannedSourceEditFile) :=
  match paths with
  | [] => ret []
  | path :: paths =>
    let! key := open opens path in
    let! read := read_to_string key path in
    let! modified := lift (rename_modify prims request path (fst read)) in
    let! rest := rename_read request paths in
    ret (match modified with
         | Some modified =>
           {| relative_path := path; expected := Some (fst read); intended := Some modified |} :: rest
         | None => rest
         end)
  end.

Definition capture_all (scope : PlanScope) (planned : list PlannedSourceEditFile) : PlanScope :=
  foldl (λ scope file, fst (capture_planned_source_edit scope (relative_path file) (expected file)
                              (intended file))) scope planned.

(** A cancellation that [ensure_active] sees between two files stops the loop the
    way a refused call does. *)
Fixpoint rename_publish (scope : PlanScope) (files : list PlannedSourceEditFile) : tx PlanScope :=
  match files with
  | [] => ret scope
  | file :: files =>
    match intended file with
    | None => raise (ConfigAt (str "rename plan lost its postimage") (relative_path file))
    | Some after =>
      let! scope := publish_planned_source_edit scope (relative_path file) (expected file) after in
      rename_publish scope files
    end
  end.

(** [rename_symbol]: every file with a bound site, in the order of the paths. *)
Definition rename_symbol (scope : PlanScope) (request : SourceEditRequest) : tx (PlanScope * SourceEditOutcome) :=
  let! paths := lift (rename_targets prims request) in
  let! planned := rename_read request paths in
  let planned := sort_by (λ a b, path_leb (relative_path a) (relative_path b)) planned in
  let! decision := lift (rename_decide prims request planned) in
  match decision with
  | RefuseRename o => ret (scope, o)
  | RenameAll o =>
    if edit_dry_run request then ret (capture_all scope planned, o)
    else
      let! scope := rename_publish scope planned in
      ret (scope, o)
  end.

(** ** dispatch.rs *)
Definition run_source_edit (scope : PlanScope) (request : SourceEditRequest) :
    tx (PlanScope * SourceEditOutcome) :=
  match request with
  | MoveSymbol _ _ _ _ => move_symbol scope request
  | RenameSymbol _ _ _ _ => rename_symbol scope request
  | _ => edit_one scope request
  end.

Definition capture_source_edit_plan (request : SourceEditRequest) :
    tx (SourceEditOutcome * list PlannedSourceEditFile) :=
  let! '(scope, outcome) := run_source_edit (Capturing []) request in
  ret (outcome, match scope with Capturing captured => captured | Applying _ _ => [] end).

(** The outcome and whether every file of the plan was validated. *)
Definition apply_source_edit_plan (files : list PlannedSourceEditFile) (request : SourceEditRequest) :
    tx (SourceEditOutcome * bool) :=
  let! '(scope, outcome) := run_source_edit (Applying files []) request in
  ret (outcome, match scope with
                | Applying _ consumed => (length consumed =? length files)%nat
                | Capturing _ => false
                end).
End plan.
