(* ===== verification/EditJournal.v ===== *)
(** * Source edits: the store of durable records

    [SourceEditDurability] of [tracedecay-source-edit/src/journal.rs]: the active
    journal, the receipts by idempotency key, the receipts of reconciliation
    attempts and the rollback records, each written by one atomic replacement
    ([persist_record] of [digest.rs]) and validated when it is read. *)
From stdpp Require Import base numbers strings gmap list.
From S2P Require Import Prelude RustText Bytes PolicyRouting EditContract EditRecords EditFiles EditPlan.

#[local] Open Scope Z_scope.
#[local] Open Scope rust_scope.

Section journal.
Context `{DurableCodec} `{Sha256} `{EditDigests}.

(** ** digest.rs: one record file *)
Definition persist_record (path : RecordPath) (encoded : Encoded) : tx unit :=
  if MAX_DURABLE_RECORD_BYTES <? encoded_len encoded
  then raise (config_error "source edit durable record exceeds its bound")
  else replace "persist source edit durable record" (λ w, with_store w (<[path := encoded]> (store w))).

Definition load_record {T} (decode : Encoded → option T) (path : RecordPath) : tx (option T) :=
  let! file := observe "source edit durable record" (λ w, store w !! path) in
  match file with
  | None => ret None
  | Some encoded =>
    if MAX_DURABLE_RECORD_BYTES <? encoded_len encoded then raise (IoError (str "source edit durable record"))
    else match decode encoded with
         | None => raise (config_error "source edit durable record is malformed")
         | Some value => ret (Some value)
         end
  end.

(** [lock]: the queue of the process and the lock file, or the deadline. *)
Definition lock : tx unit := λ w,
  match next_fate w with
  | (Done, w) => (w, Return tt)
  | (RefusedCall, w) | (Unconfirmed, w) => (w, Raise LockDeadline)
  | (DiesBefore, w) | (DiesAfter, w) => (w, Died)
  end.

(** ** The names of the record files *)
Definition receipt_path (key : rstr) : edit RecordPath :=
  let? digest := domain (key_canonical (str "tracedecay.source-edit-receipt-key.v1", key)) in
  Ok (ReceiptPath (digest_hex digest)).
Definition reconciliation_receipt_path (key : rstr) : edit RecordPath :=
  let? digest := domain (key_canonical (str "tracedecay.source-edit-reconciliation-receipt-key.v1", key)) in
  Ok (ReconciliationReceiptPath (digest_hex digest)).
Definition rollback_record_path (effect : rstr) : edit RecordPath :=
  let? digest := domain (key_canonical (str "tracedecay.source-edit-rollback-record-key.v1", effect)) in
  Ok (RollbackRecordPath (digest_hex digest)).

(** ** The active journal *)
Definition validate_durable_authority (authority : AuthorityReceipt) (proof : SourceEditEffectProofV1) :
    edit unit :=
  application_contract (proof_validate_for proof authority).

Definition validate_persisted (self : SourceEditJournalV1) : edit unit :=
  match j_predicted_state self with
  | None => Err (config_error "unsupported source edit journal: it carries no predicted state")
  | Some _ =>
    match j_recovery_digest self, is_empty (j_recovery_files self) with
    | None, true => Ok tt
    | Some digest, false =>
      let? computed := source_edit_recovery_digest (j_recovery_files self) in
      if bool_decide (digest = computed) then Ok tt
      else Err (config_error "source edit recovery journal digest does not match its preimages")
    | _, _ => Err (config_error "source edit recovery journal digest does not match its preimages")
    end
  end.

Definition load_journal : tx (option SourceEditJournalV1) :=
  let! journal := load_record journal_from_json ActivePath in
  match journal with
  | None => ret None
  | Some journal =>
    let! _ := lift (validate_durable_authority (r_authority (j_request journal))
                      (r_authority_proof (j_request journal))) in
    let! _ := lift (validate_persisted journal) in
    ret (Some journal)
  end.

Definition persist_journal (journal : SourceEditJournalV1) : tx unit :=
  persist_record ActivePath (journal_to_json journal).

(** [clear_journal]: nothing to do when the file is absent. *)
Definition clear_journal : tx unit :=
  replace "remove source edit journal" (λ w, with_store w (delete ActivePath (store w))).

(** ** Receipts *)
Definition result_validate_authority (self : SourceEditDurableResultV1) : edit unit :=
  let receipt := ef_receipt (u_effect self) in
  let proof := u_authority_proof self in
  let? _ := validate_durable_authority (ef_authority (u_effect self)) proof in
  if negb (bool_decide (er_policy_digest receipt = f_policy_digest proof))
     || negb (bool_decide (er_configuration_digest receipt = f_configuration_digest proof))
     || negb (bool_decide (er_catalog_digest receipt = f_catalog_digest proof))
     || negb (bool_decide (er_privacy_digest receipt = f_privacy_digest proof))
     || negb (bool_decide (er_external_proof receipt = f_external_proof proof))
  then Err (config_error "source edit durable receipt authority proof is inconsistent")
  else Ok tt.

Definition load_result (path : RecordPath) : tx (option SourceEditDurableResultV1) :=
  let! receipt := load_record result_from_json path in
  match receipt with
  | None => ret None
  | Some receipt =>
    if negb (u_version receipt =? JOURNAL_VERSION)
    then raise (config_error "unsupported source edit durable receipt version")
    else
      let! _ := lift (result_validate_authority receipt) in
      ret (Some receipt)
  end.

Definition load_receipt (key : rstr) : tx (option SourceEditDurableResultV1) :=
  let! path := lift (receipt_path key) in load_result path.

Definition persist_receipt (receipt : SourceEditDurableResultV1) : tx unit :=
  let! path := lift (receipt_path (ef_idempotency_key (u_effect receipt))) in
  persist_record path (result_to_json receipt).

Definition load_reconciliation_receipt (key : rstr) : tx (option SourceEditDurableResultV1) :=
  let! path := lift (reconciliation_receipt_path key) in load_result path.

Definition persist_reconciliation_receipt (receipt : SourceEditDurableResultV1) : tx unit :=
  let! path := lift (reconciliation_receipt_path (ef_idempotency_key (u_effect receipt))) in
  persist_record path (result_to_json receipt).

(** ** Rollback records *)
Definition record_digest (self : SourceEditRollbackRecordV1) : edit rstr :=
  domain (record_canonical (str "tracedecay.source-edit-rollback-record.v1", b_version self,
    b_effect_id self, b_input_digest self, b_idempotency_key self, b_operation self, b_actor self,
    b_scope self, b_expected_state self, b_committed_state self,
    plan_tuple <$> b_recovery_files self, b_recovery_digest self)).

Definition record_validate (self : SourceEditRollbackRecordV1) : edit unit :=
  let failed := Err (config_error "source edit rollback record failed its private digest binding") in
  if negb (b_version self =? JOURNAL_VERSION) || is_empty (b_recovery_files self) then failed
  else
    let? recovery := source_edit_recovery_digest (b_recovery_files self) in
    if negb (bool_decide (b_recovery_digest self = recovery)) then failed
    else
      let? digest := record_digest self in
      if negb (bool_decide (b_record_digest self = digest)) then failed else Ok tt.

Definition load_rollback_record (effect : rstr) : tx (option SourceEditRollbackRecordV1) :=
  let! path := lift (rollback_record_path effect) in
  let! record := load_record rollback_from_json path in
  match record with
  | None => ret None
  | Some record =>
    let! _ := lift (record_validate record) in
    if negb (bool_decide (b_effect_id record = effect))
    then raise (config_error "source edit rollback record effect identity does not match its key")
    else ret (Some record)
  end.

(** The record of a journal, before its own digest is set. *)
Definition rollback_record_of (journal : SourceEditJournalV1) (committed_state recovery digest : rstr) :
    SourceEditRollbackRecordV1 := {|
  b_version := JOURNAL_VERSION; b_effect_id := j_effect_id journal;
  b_input_digest := j_input_digest journal; b_idempotency_key := r_idempotency_key (j_request journal);
  b_operation := r_operation (j_request journal); b_actor := r_actor (j_request journal);
  b_scope := r_scope (j_request journal); b_expected_state := j_expected_state journal;
  b_committed_state := committed_state; b_recovery_files := j_recovery_files journal;
  b_recovery_digest := recovery; b_record_digest := digest;
|}.

(** Only a successful move keeps its preimages for a later rollback. *)
Definition persist_rollback_record (journal : SourceEditJournalV1) (committed_state : rstr)
    (succeeded : bool) : tx unit :=
  if negb (bool_decide (r_operation (j_request journal) = op_use_case_id (source_edit_operation KMoveSymbol)))
     || is_empty (j_recovery_files journal)
  then ret tt
  else if negb succeeded || negb (bool_decide (j_predicted_state journal = Some committed_state))
  then ret tt
  else
    let! recovery := lift (source_edit_recovery_digest (j_recovery_files journal)) in
    let! digest := lift (record_digest (rollback_record_of journal committed_state recovery [])) in
    let record := rollback_record_of journal committed_state recovery digest in
    let! stored := load_rollback_record (j_effect_id journal) in
    match stored with
    | Some stored =>
      if negb (bool_decide (stored = record))
      then raise (config_error "source edit rollback record conflicts with retained effect material")
      else ret tt
    | None =>
      let! path := lift (rollback_record_path (j_effect_id journal)) in
      persist_record path (rollback_to_json record)
    end.

Definition same_source_edit_authority (left right : AuthorityReceipt) : bool :=
  bool_decide (a_grant_id left = a_grant_id right)
  && (a_grant_revision left =? a_grant_revision right)
  && bool_decide (a_grant_digest left = a_grant_digest right)
  && bool_decide (a_authorized_scope_digest left = a_authorized_scope_digest right)
  && bool_decide (a_disclosure left = a_disclosure right)
  && bool_decide (a_policy left = a_policy right).
End journal.
