(* ===== verification/EditVerify.v ===== *)
(** * Source edits: verification of an applied edit

    [tracedecay-source-edit/src/verify.rs]: the diagnostics of each edited file,
    aggregated into one verification.  The diagnostics runner is a parameter. *)
From stdpp Require Import base numbers strings list.
From S2P Require Import Prelude RustText PolicyRouting EditContract EditRecords.

#[local] Open Scope Z_scope.
#[local] Open Scope rust_scope.

(** [EditDiagnosticRecord] of [port.rs]. *)
Record EditDiagnosticRecord : Type := {
  dr_file : rstr;
  dr_level : rstr;
  dr_line_start : Z;
  dr_code : option rstr;
  dr_message : rstr;
}.

(** The errors that [failed_edit_verification] tells apart, with their text. *)
Inductive DiagnosticsError : Type :=
  | DiagnosticsInterrupted (text : rstr)
  | DiagnosticsConfig (message : rstr)
  | DiagnosticsOther (text : rstr).

Definition to_ascii_lowercase (s : rstr) : rstr :=
  (λ c, if within 65 90 c then c + 32 else c) <$> s.

Definition starts_with (p s : rstr) : bool := match strip_prefix p s with Some _ => true | None => false end.

Fixpoint contains (needle s : rstr) : bool :=
  starts_with needle s || match s with [] => false | _ :: s => contains needle s end.

Definition failed_edit_verification (e : DiagnosticsError) : SourceEditVerificationV1 :=
  let '(state, verdict, text) :=
    match e with
    | DiagnosticsInterrupted text => (VerificationCancelled, str "cancelled", text)
    | DiagnosticsConfig message =>
      if contains (str "unavailable") (to_ascii_lowercase message)
      then (Unavailable, str "unavailable", str "config error: " ++ message)
      else (VerificationFailed, str "failed", str "config error: " ++ message)
    | DiagnosticsOther text => (VerificationFailed, str "failed", text)
    end in
  {| vr_state := state; vr_verdict := verdict; vr_error_count := 0; vr_warning_count := 0;
     vr_first_errors := []; vr_message := Some (take 1024 text) |}.

Definition verification_priority (state : SourceEditVerificationStateV1) : Z :=
  match state with
  | Clean => 0 | Unavailable => 1 | Errors => 2 | VerificationCancelled => 3 | VerificationFailed => 4
  end.

Section verify.
Context (run_diagnostics : rstr → result (list EditDiagnosticRecord) DiagnosticsError).

Definition as_diagnostic (d : EditDiagnosticRecord) : SourceEditDiagnosticV1 :=
  {| dg_line := dr_line_start d; dg_code := default [] (dr_code d); dg_message := dr_message d |}.

(** One turn of the loop over the diagnostics of the file: error and warning
    counts and the first three errors. *)
Definition count_diagnostic (acc : Z * Z * list SourceEditDiagnosticV1) (d : EditDiagnosticRecord) :
    Z * Z * list SourceEditDiagnosticV1 :=
  let '(errors, warnings, firsts) := acc in
  if bool_decide (dr_level d = str "error") then
    (errors + 1, warnings, if (length firsts <? 3)%nat then firsts ++ [as_diagnostic d] else firsts)
  else if bool_decide (dr_level d = str "warning") then (errors, warnings + 1, firsts)
  else acc.

Definition run_edit_verification (file_path : rstr) : SourceEditVerificationV1 :=
  match run_diagnostics file_path with
  | Err e => failed_edit_verification e
  | Ok diagnostics =>
    let '(errors, warnings, firsts) :=
      foldl count_diagnostic (0, 0, []) (List.filter (λ d, bool_decide (dr_file d = file_path)) diagnostics) in
    let '(state, verdict) := if errors =? 0 then (Clean, str "clean") else (Errors, str "errors") in
    {| vr_state := state; vr_verdict := verdict; vr_error_count := errors; vr_warning_count := warnings;
       vr_first_errors := firsts; vr_message := None |}
  end.

Definition push_error (firsts : list SourceEditDiagnosticV1) (e : SourceEditDiagnosticV1) :
    list SourceEditDiagnosticV1 :=
  if (length firsts <? 3)%nat then firsts ++ [e] else firsts.

Definition aggregate (acc : SourceEditVerificationV1) (file_path : rstr) : SourceEditVerificationV1 :=
  let result := run_edit_verification file_path in
  let worse := verification_priority (vr_state acc) <? verification_priority (vr_state result) in
  {| vr_error_count := vr_error_count acc + vr_error_count result;
     vr_warning_count := vr_warning_count acc + vr_warning_count result;
     vr_first_errors := foldl push_error (vr_first_errors acc) (vr_first_errors result);
     vr_state := if worse then vr_state result else vr_state acc;
     vr_verdict := if worse then vr_verdict result else vr_verdict acc;
     vr_message := if worse then vr_message result else vr_message acc |}.

Definition run_edit_verifications (file_paths : list rstr) : SourceEditVerificationV1 :=
  foldl aggregate {| vr_state := Clean; vr_verdict := str "clean"; vr_error_count := 0;
    vr_warning_count := 0; vr_first_errors := []; vr_message := None |} file_paths.

(** ** What a verification counts *)

(** The diagnostics of one level that a run reports for the file. *)
Definition at_level (level : string) (file_path : rstr) : list EditDiagnosticRecord :=
  match run_diagnostics file_path with
  | Ok diagnostics =>
    List.filter (λ d, bool_decide (dr_level d = str level))
      (List.filter (λ d, bool_decide (dr_file d = file_path)) diagnostics)
  | Err _ => []
  end.

Definition errors_of (file_path : rstr) : list SourceEditDiagnosticV1 :=
  as_diagnostic <$> at_level "error" file_path.

Lemma push_errors firsts l : (length firsts <= 3)%nat → foldl push_error firsts l = take 3 (firsts ++ l).
Proof.
  revert firsts. induction l as [|e l IH]; intros firsts Hl; simpl.
  - rewrite app_nil_r, take_ge; [done|lia].
  - unfold push_error at 2. destruct (Nat.ltb_spec (length firsts) 3).
    + rewrite IH by (rewrite length_app; simpl; lia). by rewrite <- app_assoc.
    + rewrite IH by done. rewrite !take_app_le by lia. done.
Qed.

Lemma count_diagnostics e w firsts l :
  (length firsts <= 3)%nat →
  foldl count_diagnostic (e, w, firsts) l =
  (e + zlen (List.filter (λ d, bool_decide (dr_level d = str "error")) l),
   w + zlen (List.filter (λ d, bool_decide (dr_level d = str "warning")) l),
   take 3 (firsts ++ (as_diagnostic <$> List.filter (λ d, bool_decide (dr_level d = str "error")) l))).
Proof.
  revert e w firsts. induction l as [|d l IH]; intros e w firsts Hl.
  - simpl. rewrite app_nil_r, take_ge by lia. unfold zlen. simpl. by rewrite !Z.add_0_r.
  - cbn [foldl List.filter]. unfold count_diagnostic at 2.
    destruct (bool_decide (dr_level d = str "error")) eqn:Ee.
    + assert (bool_decide (dr_level d = str "warning") = false) as ->.
      { bools. apply bool_decide_eq_false_2. rewrite Ee. done. }
      destruct (Nat.ltb_spec (length firsts) 3).
      * rewrite IH by (rewrite length_app; simpl; lia). rewrite fmap_cons, <- app_assoc.
        by rewrite zlen_cons, Z.add_assoc.
      * rewrite IH by done. rewrite fmap_cons, !take_app_le by lia.
        by rewrite zlen_cons, Z.add_assoc.
    + destruct (bool_decide (dr_level d = str "warning")); rewrite IH by done; [|done].
      by rewrite zlen_cons, Z.add_assoc.
Qed.

Lemma one_verification file_path :
  let v := run_edit_verification file_path in
  vr_error_count v = zlen (errors_of file_path) ∧ vr_warning_count v = zlen (at_level "warning" file_path)
  ∧ vr_first_errors v = take 3 (errors_of file_path)
  ∧ (vr_state v = Clean ↔ (∃ l, run_diagnostics file_path = Ok l) ∧ errors_of file_path = []).
Proof.
  unfold run_edit_verification, errors_of, at_level. destruct (run_diagnostics file_path) as [l|e] eqn:Er.
  - rewrite count_diagnostics by (simpl; lia). cbn [app].
    set (es := List.filter _ (List.filter _ l)). rewrite !Z.add_0_l.
    assert (zlen (as_diagnostic <$> es) = zlen es) as Hz by (unfold zlen; by rewrite length_fmap).
    destruct (Z.eqb_spec (zlen es) 0) as [E|E]; cbn [vr_error_count vr_warning_count vr_first_errors vr_state];
      (split; [done|]); (split; [done|]); (split; [done|]).
    + split; [|done]. intros _. split; [by eexists|]. destruct es; [done|]. rewrite zlen_cons in E.
      pose proof (zlen_nonneg es). lia.
    + split; [discriminate|]. intros [_ Hn]. destruct es; [|discriminate]. by destruct E.
  - assert (vr_error_count (failed_edit_verification e) = 0 ∧ vr_warning_count (failed_edit_verification e) = 0
      ∧ vr_first_errors (failed_edit_verification e) = [] ∧ vr_state (failed_edit_verification e) ≠ Clean)
      as (-> & -> & -> & Hs).
    { destruct e; unfold failed_edit_verification; try done. by destruct (contains _ _). }
    split; [done|]. split; [done|]. split; [done|]. split; [done|]. by intros [[l [=]] _].
Qed.

(** [take 3] of the first threes is [take 3] of all. *)
Lemma take_take_app {A} n (a b : list A) : take n (a ++ take n b) = take n (a ++ b).
Proof. rewrite !take_app, !take_take. f_equal. f_equal. lia. Qed.

Lemma take_app_take {A} n (a b : list A) : take n (take n a ++ b) = take n (a ++ b).
Proof. rewrite !take_app, take_take, Nat.min_id, length_take. do 2 f_equal. lia. Qed.

Lemma foldr_max_join (l : list Z) a b : foldr Z.max (Z.max a b) l = Z.max b (foldr Z.max a l).
Proof. induction l; simpl; lia. Qed.

Lemma priority_nonneg state : 0 <= verification_priority state.
Proof. destruct state; unfold verification_priority; lia. Qed.

Lemma foldr_max_zero (l : list Z) :
  (∀ z, z ∈ l → 0 <= z) → foldr Z.max 0 l = 0 ↔ ∀ z, z ∈ l → z = 0.
Proof.
  intros Hp. induction l as [|x l IH]; simpl; [split; [by intros _ z ?%elem_of_nil|done]|].
  assert (0 <= x) as Hx by (apply Hp; left).
  assert (∀ z, z ∈ l → 0 <= z) as Hl by (intros z Hz; apply Hp; by right). specialize (IH Hl).
  split.
  - intros E z [->|Hz]%elem_of_cons; [lia|]. apply IH; [|done].
    assert (∀ k, 0 <= foldr Z.max 0 k) as Hk by (intros k; induction k; simpl; lia).
    specialize (Hk l). lia.
  - intros Hall. rewrite (proj2 IH) by (intros z Hz; apply Hall; by right).
    rewrite (Hall x) by left. done.
Qed.

Lemma aggregated file_paths acc :
  (length (vr_first_errors acc) <= 3)%nat →
  let v := foldl aggregate acc file_paths in
  vr_error_count v = vr_error_count acc + foldr Z.add 0 ((λ f, zlen (errors_of f)) <$> file_paths)
  ∧ vr_warning_count v = vr_warning_count acc + foldr Z.add 0 ((λ f, zlen (at_level "warning" f)) <$> file_paths)
  ∧ vr_first_errors v = take 3 (vr_first_errors acc ++ (file_paths ≫= errors_of))
  ∧ verification_priority (vr_state v) = foldr Z.max (verification_priority (vr_state acc))
      ((λ f, verification_priority (vr_state (run_edit_verification f))) <$> file_paths).
Proof.
  revert acc. induction file_paths as [|f fs IH]; intros acc Hl.
  - simpl. rewrite app_nil_r, take_ge by done. split; [lia|]. split; [lia|]. done.
  - cbn [foldl]. rewrite !fmap_cons, bind_cons. cbn [foldr].
    destruct (one_verification f) as (He & Hw & Hf & _).
    assert (vr_first_errors (aggregate acc f) = take 3 (vr_first_errors acc ++ errors_of f)) as Hfirst.
    { unfold aggregate. cbn [vr_first_errors]. rewrite push_errors by done. rewrite Hf. apply take_take_app. }
    destruct (IH (aggregate acc f)) as (He' & Hw' & Hf' & Hs').
    { rewrite Hfirst, length_take. lia. }
    split; [|split; [|split]].
    + rewrite He'. unfold aggregate. cbn [vr_error_count]. rewrite He. lia.
    + rewrite Hw'. unfold aggregate. cbn [vr_warning_count]. rewrite Hw. lia.
    + by rewrite Hf', Hfirst, take_app_take, app_assoc.
    + rewrite Hs'. unfold aggregate. cbn [vr_state].
      destruct (Z.ltb_spec (verification_priority (vr_state acc)) (verification_priority (vr_state (run_edit_verification f))));
        rewrite <- foldr_max_join; f_equal; lia.
Qed.

(** A verification counts every diagnostic of the edited files exactly.
    Its error and warning counts are the sums over the files, its first errors
    are the first three of all errors in the order of the files, its state has
    the highest priority among the files' states, and it is clean exactly when
    diagnostics ran for every file and reported no error. *)
Theorem verification_is_exact file_paths :
  let v := run_edit_verifications file_paths in
  vr_error_count v = foldr Z.add 0 ((λ f, zlen (errors_of f)) <$> file_paths)
  ∧ vr_warning_count v = foldr Z.add 0 ((λ f, zlen (at_level "warning" f)) <$> file_paths)
  ∧ vr_first_errors v = take 3 (file_paths ≫= errors_of)
  ∧ verification_priority (vr_state v)
    = foldr Z.max 0 ((λ f, verification_priority (vr_state (run_edit_verification f))) <$> file_paths)
  ∧ (vr_state v = Clean ↔
     ∀ f, f ∈ file_paths → (∃ l, run_diagnostics f = Ok l) ∧ errors_of f = []).
Proof.
  intros v. unfold v, run_edit_verifications.
  match goal with |- context [foldl aggregate ?acc _] =>
    destruct (aggregated file_paths acc) as (He & Hw & Hf & Hs); [simpl; lia|] end.
  cbn [vr_error_count vr_warning_count vr_first_errors vr_state verification_priority app] in *.
  split; [done|]. split; [done|]. split; [done|]. split; [done|].
  assert (∀ s, s = Clean ↔ verification_priority s = 0) as Hclean.
  { by intros []. }
  rewrite Hclean, Hs. rewrite foldr_max_zero.
  - split.
    + intros Hall f Hin. destruct (one_verification f) as (_ & _ & _ & Hc). apply Hc, Hclean, Hall.
      apply list_elem_of_fmap. by exists f.
    + intros Hall z (f & -> & Hin)%list_elem_of_fmap. destruct (one_verification f) as (_ & _ & _ & Hc).
      apply Hclean, Hc. by apply Hall.
  - intros z (f & -> & _)%list_elem_of_fmap. apply priority_nonneg.
Qed.
End verify.
