(* ===== verification/EditLogic.v ===== *)
(** * Source edits: reasoning about transactions

    What computations of [EditFiles] leave unchanged, as properties that compose
    over [bind]; what the reading ones return; and when a run without failures
    returns at all. *)
From stdpp Require Import base numbers strings gmap list sorting.
From S2P Require Import Prelude RustText Bytes PolicyRouting EditContract EditRecords EditFiles EditPlan.
From S2P Require Import EditJournal.

#[local] Open Scope Z_scope.
#[local] Open Scope rust_scope.

Create HintDb edits.

Section logic.
Context `{DurableCodec}.

(** A reflexive and transitive relation between the world before and after. *)
Class Frame (R : World → World → Prop) : Prop := {
  frame_refl : ∀ w, R w w;
  frame_trans : ∀ a b c, R a b → R b c → R a c;
  frame_fates : ∀ w, R w (next_fate w).2;
}.

Definition within_frame {A} (R : World → World → Prop) (m : tx A) : Prop := ∀ w, R w (m w).1.

Section frames.
Context (R : World → World → Prop) `{!Frame R}.

Lemma frame_ret {A} (a : A) : within_frame R (ret a).
Proof. intros w. apply frame_refl. Qed.

Lemma frame_raise {A} e : within_frame R (@raise _ A e).
Proof. intros w. apply frame_refl. Qed.

Lemma frame_panic {A} : within_frame R (@panic _ A).
Proof. intros w. apply frame_refl. Qed.

Lemma frame_lift {A} (r : edit A) : within_frame R (lift r).
Proof. intros w. destruct r; apply frame_refl. Qed.

Lemma frame_bind {A B} (m : tx A) (k : A → tx B) :
  within_frame R m → (∀ a, within_frame R (k a)) → within_frame R (bind m k).
Proof.
  intros Hm Hk w. unfold bind. specialize (Hm w). destruct (m w) as [w' [a|e|]]; simpl in *; [|done..].
  eapply frame_trans; [exact Hm|apply Hk].
Qed.

(** The same with what the first computation returned. *)
Lemma frame_bind_known {A B} (m : tx A) (k : A → tx B) :
  within_frame R m → (∀ w a w', m w = (w', Return a) → within_frame R (k a)) → within_frame R (bind m k).
Proof.
  intros Hm Hk w. unfold bind. pose proof (Hm w) as Hw. destruct (m w) as [w' [a|e|]] eqn:E; [|exact Hw..].
  simpl in Hw. eapply frame_trans; [exact Hw|by eapply Hk].
Qed.

Lemma frame_bind_lift {A B} (r : edit A) (k : A → tx B) :
  (∀ a, r = Ok a → within_frame R (k a)) → within_frame R (bind (lift r) k).
Proof. intros Hk. destruct r; [by apply Hk|]. intros w. apply frame_refl. Qed.

Lemma frame_attempt {A} (m : tx A) : within_frame R m → within_frame R (attempt m).
Proof. intros Hm w. unfold attempt. specialize (Hm w). by destruct (m w) as [w' []]. Qed.

Lemma frame_observe {A} o (f : World → A) : within_frame R (observe o f).
Proof.
  intros w. unfold observe. pose proof (frame_fates w) as Hf.
  destruct (next_fate w) as [[] w']; exact Hf.
Qed.

Lemma frame_replace o (f : World → World) : (∀ w, R w (f w)) → within_frame R (replace o f).
Proof.
  intros Hr w. unfold replace. pose proof (frame_fates w) as Hf.
  destruct (next_fate w) as [[] w']; simpl in *; try exact Hf; eapply frame_trans; try exact Hf; apply Hr.
Qed.
End frames.

(** The three frames used below: nothing but fates is consumed; the tree and the
    active journal are kept; the store is kept. *)
Definition reads_only (w w' : World) : Prop :=
  tree w' = tree w ∧ (next_identity w' = next_identity w ∧ dirs w' = dirs w) ∧ store w' = store w.
Definition keeps_effect (w w' : World) : Prop :=
  tree w' = tree w ∧ store w' !! ActivePath = store w !! ActivePath.
Definition keeps_store (w w' : World) : Prop := store w' = store w.

#[export] Instance reads_only_frame : Frame reads_only.
Proof.
  split; [done| |]; unfold reads_only.
  - intros a b c (?&(?&?)&?) (?&(?&?)&?). repeat split; congruence.
  - intros w. unfold next_fate. by destruct (fates w).
Qed.
#[export] Instance keeps_effect_frame : Frame keeps_effect.
Proof.
  split; [done| |]; unfold keeps_effect.
  - intros a b c [? ?] [? ?]. split; congruence.
  - intros w. unfold next_fate. by destruct (fates w).
Qed.
#[export] Instance keeps_store_frame : Frame keeps_store.
Proof.
  split; [done| |]; unfold keeps_store.
  - intros a b c ? ?. congruence.
  - intros w. unfold next_fate. by destruct (fates w).
Qed.

Lemma reads_keeps {A} (m : tx A) : within_frame reads_only m → within_frame keeps_effect m.
Proof. intros Hm w. destruct (Hm w) as (Ht & _ & Hs). split; [done|]. by rewrite Hs. Qed.

Lemma reads_keeps_store {A} (m : tx A) : within_frame reads_only m → within_frame keeps_store m.
Proof. intros Hm w. by destruct (Hm w) as (_ & _ & Hs). Qed.

(** A run split at its first call. *)
Lemma bind_cases {A B} (m : tx A) (k : A → tx B) w w' r :
  bind m k w = (w', r) →
  (∃ a w1, m w = (w1, Return a) ∧ k a w1 = (w', r))
  ∨ (∃ e, m w = (w', Raise e) ∧ r = Raise e)
  ∨ (m w = (w', Died) ∧ r = Died).
Proof.
  unfold bind. destruct (m w) as [w1 [a|e|]] eqn:E; intros Hr.
  - left. eauto.
  - right; left. injection Hr as <- <-. eauto.
  - right; right. by injection Hr as <- <-.
Qed.

Lemma bind_return {A B} (m : tx A) (k : A → tx B) w w' b :
  bind m k w = (w', Return b) → ∃ a w1, m w = (w1, Return a) ∧ k a w1 = (w', Return b).
Proof. intros [?|[(?&_&?)|[_ ?]]]%bind_cases; [done|discriminate..]. Qed.

Lemma lift_return {A} (r : edit A) w w' a : lift r w = (w', Return a) → r = Ok a ∧ w' = w.
Proof. destruct r; simpl; intros [=]; by subst. Qed.

Lemma attempt_return {A} (m : tx A) w w' r :
  attempt m w = (w', Return r) →
  match r with Ok a => m w = (w', Return a) | Err e => m w = (w', Raise e) end.
Proof. unfold attempt. destruct (m w) as [w1 [a|e|]]; intros [=]; by subst. Qed.

Lemma attempt_not_raise {A} (m : tx A) w w' e : attempt m w ≠ (w', Raise e).
Proof. unfold attempt. destruct (m w) as [w1 [a|e'|]]; discriminate. Qed.

Lemma observe_return {A} o (f : World → A) w w' a :
  observe o f w = (w', Return a) → a = f w' ∧ reads_only w w'.
Proof.
  unfold observe. pose proof (frame_fates (R:=reads_only) w) as Hf.
  destruct (next_fate w) as [[] w1]; intros [=]; by subst.
Qed.

(** A replacement takes place, or it does not and an error or the end of the
    process says so. *)
Lemma replace_cases o (f : World → World) w :
  ∃ w1, reads_only w w1 ∧
    ((replace o f w).1 = f w1 ∨ (replace o f w).1 = w1 ∧ ∀ a, (replace o f w).2 ≠ Return a).
Proof.
  unfold replace. pose proof (frame_fates (R:=reads_only) w) as Hf.
  destruct (next_fate w) as [[] w1]; exists w1; split; try exact Hf; simpl; auto; by right.
Qed.

(** ** Runs without failures *)
Definition calm (w : World) : Prop := fates w = [].

Lemma next_fate_calm w : calm w → next_fate w = (Done, w).
Proof. unfold calm, next_fate. by intros ->. Qed.

Lemma observe_calm {A} o (f : World → A) w : calm w → observe o f w = (w, Return (f w)).
Proof. intros Hc. unfold observe. by rewrite next_fate_calm. Qed.

Lemma replace_calm o (f : World → World) w : calm w → replace o f w = (f w, Return tt).
Proof. intros Hc. unfold replace. by rewrite next_fate_calm. Qed.

Lemma bind_run {A B} (m : tx A) (k : A → tx B) w w' a :
  m w = (w', Return a) → bind m k w = k a w'.
Proof. intros E. unfold bind. by rewrite E. Qed.

Lemma lift_run {A B} (r : edit A) (k : A → tx B) w a : r = Ok a → bind (lift r) k w = k a w.
Proof. by intros ->. Qed.
End logic.

#[export] Hint Resolve frame_ret frame_raise frame_lift frame_bind frame_attempt frame_observe : edits.
#[export] Hint Resolve reads_keeps reads_keeps_store : edits.

(** Frames of a program, by its structure. *)
Ltac frame_step :=
  match goal with
  | |- within_frame _ (bind _ _) => apply (frame_bind _); [|intros ?]
  | |- within_frame _ (attempt _) => apply (frame_attempt _)
  | |- within_frame _ (ret _) => apply (frame_ret _)
  | |- within_frame _ (raise _) => apply (frame_raise _)
  | |- within_frame _ panic => apply (frame_panic _)
  | |- within_frame _ (lift _) => apply (frame_lift _)
  | |- within_frame _ (observe _ _) => apply (frame_observe _)
  | |- within_frame _ (let _ := _ in _) => cbv zeta
  | |- within_frame _ (if ?b then _ else _) => destruct b
  | |- within_frame _ (match ?x with _ => _ end) => destruct x
  | |- within_frame _ (let '(_, _) := ?x in _) => destruct x
  | |- within_frame _ _ => solve [eauto with edits nocore]
  end.
Ltac frames := repeat frame_step.

(** ** Files and digests *)

(** What a path of the worktree holds. *)
Definition contents (t : gmap rstr File) (path : rstr) : option bytes :=
  match normalize_source_edit_relative_path path with
  | Some key => content <$> t !! key
  | None => None
  end.

Section file_logic.
Context `{DurableCodec} `{Sha256} `{EditDigests} (opens : rstr → bool).

(** A path that the file authority opens where the directories are [d]. *)
Definition reachable (d : gset rstr) (path : rstr) : Prop :=
  ∃ key, normalize_source_edit_relative_path path = Some key ∧ opens key && parents_exist d key = true.

Lemma reads_open p : within_frame reads_only (open opens p).
Proof. unfold open. frames. Qed.

Lemma reads_read key : within_frame reads_only (read_optional_with_identity key).
Proof. unfold read_optional_with_identity. frames. Qed.

Lemma reads_candidate p : within_frame reads_only (read_source_edit_candidate opens p).
Proof. unfold read_source_edit_candidate, read_optional, read_optional_with_identity, open. frames. Qed.

Lemma reads_string key label : within_frame reads_only (read_to_string key label).
Proof. unfold read_to_string, read_optional_with_identity. frames. Qed.

Lemma reads_current key : within_frame reads_only (current_identity key).
Proof. unfold current_identity. frames. Qed.

Lemma reads_states files : within_frame reads_only (read_states opens files).
Proof. induction files; simpl; frames. apply reads_candidate. Qed.

Lemma reads_digest files : within_frame reads_only (source_edit_state_digest opens files).
Proof. unfold source_edit_state_digest. frames. apply reads_states. Qed.

Lemma reads_normalize files : within_frame reads_only (normalize_candidate_files opens files).
Proof.
  unfold normalize_candidate_files. frames.
  induction files; simpl; frames. apply reads_open.
Qed.

Lemma reads_observe_planned files : within_frame reads_only (observe_planned opens files).
Proof. induction files; simpl; frames. apply reads_candidate. Qed.

Lemma reads_commit files : within_frame reads_only (commit_source_edit_postimages opens files).
Proof. induction files; simpl; frames. apply reads_candidate. Qed.

(** The frame of a computation, as a fact about one run of it. *)
Lemma frame_run {A} R (m : tx A) w w' r : within_frame R m → m w = (w', r) → R w w'.
Proof. intros Hm E. specialize (Hm w). by rewrite E in Hm. Qed.

Lemma open_return p w w' key :
  open opens p w = (w', Return key) →
  normalize_source_edit_relative_path p = Some key ∧ opens key && parents_exist (dirs w) key = true ∧ reads_only w w'.
Proof.
  intros E. pose proof (frame_run _ _ _ _ _ (reads_open p) E) as Hr. unfold open in E.
  destruct (normalize_source_edit_relative_path p) as [k|] eqn:En; [|discriminate].
  apply bind_return in E as (present & w1 & [-> (_ & (_ & Hd) & _)]%observe_return & E). rewrite Hd in E.
  destruct (opens k && _) eqn:Eo; [|discriminate]. by injection E as <- <-.
Qed.

Lemma candidate_return p w w' v :
  read_source_edit_candidate opens p w = (w', Return v) → v = contents (tree w) p ∧ reachable (dirs w) p ∧ reads_only w w'.
Proof.
  intros E. pose proof (frame_run _ _ _ _ _ (reads_candidate p) E) as Hr.
  unfold read_source_edit_candidate in E. apply bind_return in E as (key & w1 & E1 & E2).
  apply open_return in E1 as (Hk & Ho & Ht & _). unfold read_optional in E2.
  apply bind_return in E2 as (file & w2 & E2 & [= <- <-]).
  apply observe_return in E2 as [-> (Ht2 & _)]. unfold contents. rewrite Hk, Ht2, Ht. split; [done|].
  split; [by exists key|done].
Qed.

Lemma open_calm p w key :
  calm w → normalize_source_edit_relative_path p = Some key → opens key && parents_exist (dirs w) key = true →
  open opens p w = (w, Return key).
Proof.
  intros Hc Hk Ho. unfold open. rewrite Hk.
  rewrite (bind_run _ _ _ _ _ (observe_calm _ _ w Hc)). by rewrite Ho.
Qed.

Lemma candidate_calm p w :
  calm w → reachable (dirs w) p → read_source_edit_candidate opens p w = (w, Return (contents (tree w) p)).
Proof.
  intros Hc (key & Hk & Ho). unfold read_source_edit_candidate, contents. rewrite Hk.
  rewrite (bind_run _ _ _ w key) by by apply open_calm. unfold read_optional, read_optional_with_identity.
  by rewrite (bind_run _ _ _ _ _ (observe_calm _ _ w Hc)).
Qed.

(** The digest of given contents of some paths. *)
Fixpoint states_of (g : rstr → option bytes) (files : list rstr) : edit (list (rstr * option rstr)) :=
  match files with
  | [] => Ok []
  | p :: files =>
    let? state := hash_optional (g p) in
    let? rest := states_of g files in
    Ok ((p, state) :: rest)
  end.

Definition digest_of (g : rstr → option bytes) (files : list rstr) : edit rstr :=
  let? states := states_of g files in digest_states states.

Lemma states_of_ext g g' files : (∀ p, p ∈ files → g p = g' p) → states_of g files = states_of g' files.
Proof.
  induction files as [|p files IH]; intros Hg; simpl; [done|].
  rewrite Hg by left. rewrite IH; [done|]. intros q Hq. apply Hg. by right.
Qed.

Lemma digest_of_ext g g' files : (∀ p, p ∈ files → g p = g' p) → digest_of g files = digest_of g' files.
Proof. intros Hg. unfold digest_of. by rewrite (states_of_ext g g'). Qed.

Lemma states_return files w w' l :
  read_states opens files w = (w', Return l) → states_of (contents (tree w)) files = Ok l.
Proof.
  revert w w' l. induction files as [|p files IH]; intros w w' l E; simpl in E.
  - by injection E as <- <-.
  - apply bind_return in E as (v & w1 & E1 & E). apply candidate_return in E1 as (-> & _ & Ht & _).
    apply bind_return in E as (state & w2 & [E2 ->]%lift_return & E).
    apply bind_return in E as (rest & w3 & E3%IH & [= <- <-]).
    simpl. rewrite E2. rewrite Ht in E3. by rewrite E3.
Qed.

Lemma state_digest_return files w w' d :
  source_edit_state_digest opens files w = (w', Return d) →
  digest_of (contents (tree w)) files = Ok d ∧ reads_only w w'.
Proof.
  intros E. split; [|by eapply frame_run; [apply reads_digest|]].
  apply bind_return in E as (l & w1 & E1%states_return & [E2 _]%lift_return).
  unfold digest_of. by rewrite E1.
Qed.

Lemma states_calm files w l :
  calm w → Forall (reachable (dirs w)) files → states_of (contents (tree w)) files = Ok l →
  read_states opens files w = (w, Return l).
Proof.
  intros Hc Hf. revert l. induction Hf as [|p files Hp Hf IH]; intros l E; simpl in *.
  - by injection E as <-.
  - rewrite (bind_run _ _ _ _ _ (candidate_calm p w Hc Hp)).
    destruct (hash_optional (contents (tree w) p)) as [state|]; [|discriminate].
    destruct (states_of (contents (tree w)) files) as [rest|]; [|discriminate]. injection E as <-.
    rewrite (lift_run _ _ _ state) by done. by rewrite (bind_run _ _ _ _ _ (IH rest eq_refl)).
Qed.

Lemma state_digest_calm files w d :
  calm w → Forall (reachable (dirs w)) files → digest_of (contents (tree w)) files = Ok d →
  source_edit_state_digest opens files w = (w, Return d).
Proof.
  intros Hc Hf E. unfold digest_of in E. unfold source_edit_state_digest.
  destruct (states_of (contents (tree w)) files) as [l|] eqn:El; [|discriminate].
  rewrite (bind_run _ _ _ _ _ (states_calm files w l Hc Hf El)). by rewrite E.
Qed.

(** The digest a plan predicts is that of any contents that agree with it. *)
Lemma planned_states_of files plan side l g :
  planned_states files plan side = Ok l →
  (∀ file, file ∈ plan → g (relative_path file) = text_bytes (planned_side side file)) →
  states_of g files = Ok l.
Proof.
  revert l. induction files as [|p files IH]; intros l E Hg; simpl in *; [done|].
  destruct (List.filter _ plan) as [|planned []] eqn:Ef; [discriminate| |discriminate].
  assert (planned ∈ plan ∧ relative_path planned = p) as [Hin Hp].
  { assert (planned ∈ List.filter (λ planned, bool_decide (relative_path planned = p)) plan) as Hin.
    { rewrite Ef. left. }
    apply elem_of_filterb in Hin as [? ?]. by bools. }
  destruct (hash_optional (text_bytes (planned_side side planned))) as [state|] eqn:Eh; [|discriminate].
  destruct (planned_states files plan side) as [rest|]; [|discriminate]. injection E as <-.
  rewrite <- Hp, Hg, Eh by done. by rewrite (IH rest).
Qed.

Lemma planned_digest_of files plan side d g :
  planned_source_edit_state_digest files plan side = Ok d →
  (∀ file, file ∈ plan → g (relative_path file) = text_bytes (planned_side side file)) →
  digest_of g files = Ok d.
Proof.
  intros E Hg. unfold planned_source_edit_state_digest in E. unfold digest_of.
  destruct (planned_states files plan side) as [l|] eqn:El; [|discriminate].
  by rewrite (planned_states_of files plan side l g).
Qed.
End file_logic.

#[export] Hint Resolve reads_open reads_read reads_candidate reads_string reads_current reads_states
  reads_digest reads_normalize reads_observe_planned reads_commit : edits.

(** ** Normal paths *)
Definition plain_part (part : rstr) : Prop := part ≠ [] ∧ part ≠ dot ∧ slash ∉ part.

Lemma split_on_cons sep s : split_on sep s ≠ [].
Proof. destruct s as [|c s]; simpl; [done|]. destruct (c =? sep); [done|]. by destruct (split_on sep s). Qed.

Lemma split_on_plain sep part : sep ∉ part → split_on sep part = [part].
Proof.
  induction part as [|c part IH]; intros Hn; simpl; [done|]. apply not_elem_of_cons in Hn as [Hc Hn].
  rewrite IH by done. by destruct (Z.eqb_spec c sep); [congruence|].
Qed.

Lemma split_on_app sep part s : sep ∉ part → split_on sep (part ++ sep :: s) = part :: split_on sep s.
Proof.
  induction part as [|c part IH]; intros Hn; simpl.
  - by rewrite Z.eqb_refl.
  - apply not_elem_of_cons in Hn as [Hc Hn]. rewrite IH by done. by destruct (Z.eqb_spec c sep); [congruence|].
Qed.

Lemma split_join parts : parts ≠ [] → Forall (λ part, slash ∉ part) parts → split_on slash (join parts) = parts.
Proof.
  intros Hne Hf. induction Hf as [|part parts Hp Hf IH]; [done|].
  destruct parts as [|part' parts]; simpl; [by apply split_on_plain|].
  rewrite split_on_app by done. f_equal. by apply IH.
Qed.

Lemma split_on_parts sep s : Forall (λ part, sep ∉ part) (split_on sep s).
Proof.
  induction s as [|c s IH]; simpl; [repeat constructor; apply not_elem_of_nil|].
  destruct (Z.eqb_spec c sep) as [->|Hne]; [constructor; [apply not_elem_of_nil|done]|].
  destruct (split_on sep s) as [|part parts]; inversion_clear IH; constructor; try done;
    [rewrite list_elem_of_singleton|rewrite not_elem_of_cons]; auto.
Qed.

Lemma normal_components_plain path : Forall plain_part (normal_components path).
Proof.
  apply Forall_forall. intros part [Hin Hp]%elem_of_filterb. bools.
  pose proof (split_on_parts slash path) as Hs. rewrite Forall_forall in Hs. split; [|split; auto].
  by destruct part.
Qed.

Lemma normal_components_join parts : parts ≠ [] → Forall plain_part parts → normal_components (join parts) = parts.
Proof.
  intros Hne Hf. unfold normal_components. rewrite split_join; [|done|].
  - apply filter_all. intros part Hin. rewrite Forall_forall in Hf. destruct (Hf part Hin) as (H1 & H2 & _).
    rewrite bool_decide_eq_false_2 by done. by destruct part.
  - eapply Forall_impl; [exact Hf|]. by intros ? (_ & _ & ?).
Qed.

Lemma join_relative parts : Forall plain_part parts → is_absolute (join parts) = false.
Proof.
  intros Hf. destruct Hf as [|part parts (H1 & _ & H3) _]; [done|].
  destruct part as [|c part]; [done|]. apply not_elem_of_cons in H3 as [Hc _].
  destruct parts; simpl; apply Z.eqb_neq; congruence.
Qed.

(** A normal path is its own key. *)
Lemma normalize_idem path key :
  normalize_source_edit_relative_path path = Some key → normalize_source_edit_relative_path key = Some key.
Proof.
  unfold normalize_source_edit_relative_path, stays_inside. intros E.
  destruct (negb (is_absolute path)) eqn:Ea; [|discriminate]. simpl in E.
  destruct (bool_decide (dot_dot ∈ normal_components path)) eqn:Ed; [discriminate|]. simpl in E.
  pose proof (normal_components_plain path) as Hf.
  destruct (normal_components path) as [|part parts] eqn:En; [discriminate|]. injection E as <-.
  change (match parts with [] => part | _ :: _ => part ++ slash :: join parts end) with (join (part :: parts)).
  rewrite join_relative, normal_components_join by done. by rewrite Ed.
Qed.

(** The spelling of a candidate that opens is normal. *)
Lemma normal_of_components path :
  stays_inside path = true → normal_components path ≠ [] →
  normalize_source_edit_relative_path path = Some (join (normal_components path)).
Proof.
  intros Hs Hn. unfold normalize_source_edit_relative_path. rewrite Hs.
  by destruct (normal_components path).
Qed.

Lemma contents_normal t path :
  normalize_source_edit_relative_path path = Some path → contents t path = content <$> t !! path.
Proof. intros E. unfold contents. by rewrite E. Qed.

(** ** Sorted names without duplicates *)
Lemma sort_paths_sorted (l : list rstr) : StronglySorted (leb_rel path_leb) (sort_by path_leb l).
Proof.
  apply sort_by_sorted; intros *; [apply (cmp_leb_total bytes_compare)|apply (cmp_leb_trans bytes_compare)].
Qed.

Lemma path_leb_antisym a b : path_leb a b = true → path_leb b a = true → a = b.
Proof.
  unfold path_leb, cmp_leb. rewrite (bytes_compare_antisym a b).
  destruct (bytes_compare a b) eqn:E; simpl; [intros; by apply bytes_compare_eq|done..].
Qed.

Lemma dedup_elem l x : x ∈ dedup l ↔ x ∈ l.
Proof.
  induction l as [|y l IH]; simpl; [done|]. rewrite elem_of_cons, <- IH.
  destruct (dedup l) as [|z rest]; [by rewrite elem_of_cons|].
  case_bool_decide as E; rewrite ?elem_of_cons; [subst; tauto|done].
Qed.

Lemma dedup_NoDup l : StronglySorted (leb_rel path_leb) l → NoDup (dedup l).
Proof.
  induction 1 as [|x l Hl IH Hx]; simpl; [constructor|].
  destruct (dedup l) as [|y rest] eqn:E; [repeat constructor; apply not_elem_of_nil|].
  case_bool_decide as Exy; [done|]. constructor; [|done]. intros Hin.
  apply Exy. apply path_leb_antisym.
  - rewrite Forall_forall in Hx. apply Hx. apply dedup_elem. rewrite E. left.
  - assert (Forall (λ z, leb_rel path_leb y z) (y :: rest)) as Hy; [|rewrite Forall_forall in Hy; by apply Hy].
    assert (∀ k, StronglySorted (leb_rel path_leb) k → StronglySorted (leb_rel path_leb) (dedup k)) as Hds.
    { induction 1 as [|a k Hk IHk Ha]; simpl; [constructor|]. destruct (dedup k) as [|b r] eqn:Ek.
      - repeat constructor.
      - case_bool_decide; [done|]. constructor; [done|]. apply Forall_forall. intros z Hz.
        rewrite Forall_forall in Ha. apply Ha, dedup_elem. by rewrite Ek. }
    specialize (Hds l Hl). rewrite E in Hds. inversion_clear Hds as [|? ? Hr Hy]. constructor; [|done].
    unfold leb_rel, path_leb, cmp_leb.
    by rewrite bytes_compare_refl.
Qed.
