(* ===== verification/EditExecute.v ===== *)
(** * Source edits: executing and recovering

    [execute.rs] of [tracedecay-source-edit/src], and the recovery and the
    replay of [reconcile.rs] that every execution starts with, over the world of
    [EditFiles].  Rolling back and reconciling are in [EditReconcile].

    What a transaction asks of the rest of the program is [Ports]: the
    authorization port with its answer to each call, the clock with its value at
    each call, the control, the diagnostics runner and the edit primitives.  A
    message formatted from an error has its fixed part only. *)
From stdpp Require Import base numbers strings gmap list.
From S2P Require Import Prelude RustText Bytes PolicyRouting EditContract EditRecords EditFiles EditPlan.
From S2P Require Import EditJournal EditVerify.

#[local] Open Scope Z_scope.
#[local] Open Scope rust_scope.

Record Ports : Type := {
  opens : rstr → bool;
  preview_primitives : Primitives;
  apply_primitives : Primitives;
  port_admit : RequestContext → ApplicationOperation → Z → option SourceEditAuthorizationAdmissionV1;
  recheck_effect : nat → RequestContext → ApplicationOperation →
    SourceEditAuthorizationAdmissionV1 → Z → option SourceEditAuthorizationAdmissionV1;
  now_micros : nat → Z;
  control : option SourceEditEffectControlV1;
  run_diagnostics : rstr → result (list EditDiagnosticRecord) DiagnosticsError;
}.

(** [control.and_then(|control| control.checkpoint(stage))]. *)
Definition stop_at (ports : Ports) (stage : CancellationStage) : option SourceEditControlStopV1 :=
  match control ports with Some control => checkpoint control stage | None => None end.

Definition application_problem : EditError :=
  NotFound (str "source edit was not found or not authorized").

(** The live outcome of a control stop: it is a cancellation or a timeout. *)
Definition control_stop_outcome (termination : EffectTermination) (cancelled timed_out : string) :
    SourceEditOutcome :=
  match termination with
  | Cancelled => OCancelled (str cancelled)
  | _ => OTimedOut (str timed_out)
  end.

Section execute.
Context `{DurableCodec} `{Sha256} `{EditDigests} (ports : Ports).

(** ** reconcile.rs: recovery and replay *)
Definition finish_recovery (record : SourceEditDurableResultV1) : tx unit :=
  let! _ := persist_receipt record in
  clear_journal.

Definition recover_applied (journal : SourceEditJournalV1) (outcome : SourceEditDurableOutcomeV1)
    (committed_state : rstr) (ended_at : Z) (control_observation : option CancellationObservation)
    (verification_state : option SourceEditVerificationStateV1) : tx unit :=
  let! _ := persist_rollback_record journal committed_state (d_success outcome) in
  let! record := lift (applied_durable_record journal outcome committed_state ended_at
                         control_observation verification_state) in
  finish_recovery record.

(** (i): the worktree holds the previewed result. *)
Definition roll_forward (journal : SourceEditJournalV1) (observed_state : rstr) : tx unit :=
  let! _ := commit_source_edit_postimages (opens ports) (j_recovery_files journal) in
  let outcome := OReconciled true
    (str "source edit crash recovery confirmed the edit already committed to disk") in
  let! _ := persist_rollback_record journal observed_state true in
  let! record := lift (applied_record journal outcome observed_state (now_micros ports 10) None) in
  finish_recovery record.

(** [durable_outcome.files.clone_from(&journal.candidate_files)]. *)
Definition with_files (o : SourceEditDurableOutcomeV1) (files : list rstr) : SourceEditDurableOutcomeV1 := {|
  d_operation := d_operation o; d_success := d_success o; d_files := files;
  d_change_count := d_change_count o; d_line := d_line o; d_before := d_before o;
  d_import_count := d_import_count o; d_finding_count := d_finding_count o; d_failed := d_failed o;
  d_cancelled := d_cancelled o; d_timed_out := d_timed_out o; d_effect_unknown := d_effect_unknown o;
  d_reconciled := d_reconciled o |}.

(** (ii), (iii): every preimage is restored. *)
Definition roll_back (journal : SourceEditJournalV1) : tx unit :=
  let! _ := rollback_planned_source_edit_files (opens ports) (j_recovery_files journal) in
  let! restored_state := source_edit_state_digest (opens ports) (j_candidate_files journal) in
  if negb (bool_decide (restored_state = j_expected_state journal)) then
    raise (config_error "source edit crash recovery did not restore the journaled preimage state")
  else
    let outcome := OFailed (str "source edit crash recovery restored every journaled preimage") in
    let durable_outcome := with_files (from_live (r_operation (j_request journal)) outcome)
                             (j_candidate_files journal) in
    let! record := lift (durable_record journal durable_outcome None (now_micros ports 11) Failed
                           Reconciled None) in
    finish_recovery record.

Definition recover_source_edit_transaction (scope : ResolvedScope) : tx unit :=
  let! journal := load_journal in
  match journal with
  | None => ret tt
  | Some journal =>
    if negb (bool_decide (r_scope (j_request journal) = scope)) then
      raise (config_error "source edit crash recovery must run in the transaction's owning worktree")
    else
      match j_state journal with
      | Applied outcome committed_state ended_at control_observation verification_state =>
        recover_applied journal outcome committed_state ended_at control_observation verification_state
      | Prepared =>
        if is_empty (j_recovery_files journal) then ret tt
        else
          let! observed_state := source_edit_state_digest (opens ports) (j_candidate_files journal) in
          if bool_decide (j_predicted_state journal = Some observed_state)
          then roll_forward journal observed_state
          else roll_back journal
      end
  end.

(** Whether the journal is the retained transaction of this request. *)
Definition is_applied (state : SourceEditJournalStateV1) : bool :=
  match state with Applied _ _ _ _ _ => true | Prepared => false end.

Definition reconcile_journal (journal : SourceEditJournalV1) (request : SourceEditEffectRequestV1)
    (input_digest : rstr) : tx SourceEditApplicationResult :=
  if negb (j_version journal =? JOURNAL_VERSION) then
    raise (config_error "unsupported source edit transaction journal version")
  else if negb (bool_decide (r_idempotency_key (j_request journal) = q_idempotency_key request))
          || negb (bool_decide (j_input_digest journal = input_digest))
          || negb (same_source_edit_authority (r_authority (j_request journal)) (q_authority request))
          || negb (bool_decide (r_authority_proof (j_request journal) = q_proof request)) then
    raise (config_error "a source edit transaction requires reconciliation before another mutation")
  else
    let! record := lift match j_state journal with
      | Prepared => unknown_record journal (now_micros ports 12)
      | Applied outcome committed_state ended_at control_observation verification_state =>
        applied_durable_record journal outcome committed_state ended_at control_observation
          verification_state
      end in
    let! _ := persist_receipt record in
    let! _ := if is_applied (j_state journal) then clear_journal else ret tt in
    ret (into_application_result record true).

Definition recover_or_replay (request : SourceEditEffectRequestV1) (input_digest : rstr) :
    tx (option SourceEditApplicationResult) :=
  let! stored := load_receipt (q_idempotency_key request) in
  match stored with
  | Some stored =>
    if negb (bool_decide (u_input_digest stored = input_digest)) then
      raise (IdempotencyConflict (str "source edit idempotency key conflicts with a prior input"))
    else if negb (bool_decide (u_authority_proof stored = q_proof request))
            || negb (same_source_edit_authority (ef_authority (u_effect stored)) (q_authority request)) then
      raise (config_error "source edit replay authority changed")
    else
      let! journal := load_journal in
      let! _ := match journal with
        | Some journal =>
          if bool_decide (r_idempotency_key (j_request journal) = q_idempotency_key request)
             && bool_decide (j_input_digest journal = input_digest)
             && is_applied (j_state journal)
          then clear_journal else ret tt
        | None => ret tt
        end in
      ret (Some (into_application_result stored true))
  | None =>
    let! journal := load_journal in
    match journal with
    | None => ret None
    | Some journal =>
      let! result := reconcile_journal journal request input_digest in
      ret (Some result)
    end
  end.

(** ** execute.rs *)
Definition durable_request (operation : ApplicationOperation) (request : SourceEditEffectRequestV1)
    (authority : SourceEditAuthorizationAdmissionV1) : SourceEditDurableRequestV1 := {|
  r_operation := op_use_case_id operation;
  r_request_id := c_request_id (q_context request);
  r_actor := c_actor (q_context request);
  r_scope := c_scope (q_context request);
  r_authority := ad_receipt authority;
  r_authority_proof := ad_proof authority;
  r_idempotency_key := q_idempotency_key request;
  r_deadline := c_deadline (q_context request);
  r_started_at := q_observed_at request;
  r_dry_run := edit_dry_run (q_edit request);
  r_verification_requested := edit_verify (q_edit request);
|}.

Record PreEffectState : Type := {
  pe_expected : rstr;
  pe_predicted : option rstr;
  pe_candidate_files : list rstr;
}.

Definition unpreviewed (expected : rstr) : PreEffectState :=
  {| pe_expected := expected; pe_predicted := None; pe_candidate_files := [] |}.

(** The receipt stored under the key of a request that is refused again. *)
Definition replay_pre_effect (stored : SourceEditDurableResultV1)
    (authority : SourceEditAuthorizationAdmissionV1) (input_digest : rstr) (conflict changed : string) :
    tx SourceEditApplicationResult :=
  if negb (bool_decide (u_input_digest stored = input_digest)) then
    raise (IdempotencyConflict (str conflict))
  else if negb (bool_decide (u_authority_proof stored = ad_proof authority)) then
    raise (config_error changed)
  else ret (into_application_result stored true).

Definition persist_pre_effect_result (operation : ApplicationOperation) (request : SourceEditEffectRequestV1)
    (authority : SourceEditAuthorizationAdmissionV1) (input_digest : rstr) (outcome : SourceEditOutcome)
    (state : PreEffectState) (termination : EffectTermination)
    (control_observation : option CancellationObservation) : tx SourceEditApplicationResult :=
  let! stored := load_receipt (q_idempotency_key request) in
  match stored with
  | Some stored =>
    replay_pre_effect stored authority input_digest
      "source edit idempotency key conflicts with a prior input" "source edit receipt authority changed"
  | None =>
    let! id := lift (effect_id (q_idempotency_key request) input_digest) in
    let journal := {|
      j_version := JOURNAL_VERSION; j_effect_id := id; j_input_digest := input_digest;
      j_expected_state := pe_expected state; j_predicted_state := pe_predicted state;
      j_candidate_files := pe_candidate_files state; j_recovery_files := []; j_recovery_digest := None;
      j_request := durable_request operation request authority; j_state := Prepared |} in
    let committed_state := if bool_decide (termination = Completed) then Some (pe_expected state) else None in
    let! record := lift (durable_record journal (from_live (op_use_case_id operation) outcome)
      committed_state (now_micros ports 1) termination Reconciled control_observation) in
    let! _ := persist_receipt record in
    ret (into_live_application_result record outcome None)
  end.

Definition fail_pre_effect_with_outcome (operation : ApplicationOperation)
    (request : SourceEditEffectRequestV1) (authority : SourceEditAuthorizationAdmissionV1)
    (input_digest : rstr) (state : PreEffectState) (outcome : SourceEditOutcome) :
    tx SourceEditApplicationResult :=
  persist_pre_effect_result operation request authority input_digest outcome state Failed None.

Definition fail_pre_effect (operation : ApplicationOperation)
    (request : SourceEditEffectRequestV1) (authority : SourceEditAuthorizationAdmissionV1)
    (input_digest : rstr) (state : PreEffectState) : tx SourceEditApplicationResult :=
  fail_pre_effect_with_outcome operation request authority input_digest state
    (OFailed (str "source edit failed before the effect")).

(** The journal stays [Prepared]. *)
Definition persist_unknown (journal : SourceEditJournalV1) (live_outcome : SourceEditOutcome)
    (verification : option SourceEditVerificationV1) : tx SourceEditApplicationResult :=
  let! record := lift (unknown_record journal (now_micros ports 2)) in
  let! _ := persist_receipt record in
  ret (into_live_application_result record live_outcome verification).

Definition authority_still_matches (authority : SourceEditAuthorizationAdmissionV1)
    (request : SourceEditEffectRequestV1) : bool :=
  same_source_edit_authority (ad_receipt authority) (q_authority request)
  && bool_decide (ad_proof authority = q_proof request).

Record ResolvedSourceEditPreview : Type := {
  pv_outcome : SourceEditOutcome;
  pv_candidate_files : list rstr;
  pv_expected_state : option rstr;
  pv_predicted_state : option rstr;
  pv_planned_files : list PlannedSourceEditFile;
}.

Definition capture_edit (edit : SourceEditRequest) : SourceEditRequest :=
  match edit with
  | RenameSymbol _ _ false _ => edit
  | _ => with_dry_run edit true
  end.

Definition resolve_source_edit_preview (edit : SourceEditRequest) : tx ResolvedSourceEditPreview :=
  let! '(outcome, planned_files) :=
    capture_source_edit_plan (opens ports) (preview_primitives ports) (capture_edit edit) in
  if negb (outcome_success outcome) then
    ret {| pv_outcome := outcome; pv_candidate_files := []; pv_expected_state := None;
           pv_predicted_state := None; pv_planned_files := [] |}
  else
    let! candidate := normalize_candidate_files (opens ports) (candidate_files outcome) in
    let! planned_candidate := normalize_candidate_files (opens ports) (relative_path <$> planned_files) in
    if negb (length planned_files =? length candidate)%nat
       || negb (bool_decide (planned_candidate = candidate)) then
      raise (config_error "source edit preview did not produce one exact plan for every candidate file")
    else
      let! expected_state := lift (planned_source_edit_state_digest candidate planned_files false) in
      let! observed_state := source_edit_state_digest (opens ports) candidate in
      if negb (bool_decide (observed_state = expected_state)) then
        raise (ExpectedStateMismatch
          (str "source edit candidate state changed while its exact preview was captured"))
      else
        let! predicted_state := lift (planned_source_edit_state_digest candidate planned_files true) in
        ret {| pv_outcome := bind_preview_digest outcome expected_state; pv_candidate_files := candidate;
               pv_expected_state := Some expected_state; pv_predicted_state := Some predicted_state;
               pv_planned_files := planned_files |}.

(** From the recorded outcome of the primitive to the cleared journal: the
    journal advances to [Applied], with the verification and a late control
    stop written into it, before the receipt is stored. *)
Definition finalize_effect (request : SourceEditEffectRequestV1) (journal : SourceEditJournalV1)
    (outcome : SourceEditOutcome) (committed_state : rstr)
    (control_observation : option CancellationObservation) : tx SourceEditApplicationResult :=
  let verification :=
    if edit_verify (q_edit request) && outcome_success outcome then
      let files := candidate_files outcome in
      if is_empty files then None else Some (run_edit_verifications (run_diagnostics ports) files)
    else None in
  let ended_at := now_micros ports 3 in
  let durable := from_live (r_operation (j_request journal)) outcome in
  let journal := with_state journal (Applied durable committed_state ended_at control_observation None) in
  let! _ := persist_journal journal in
  let verification_state := vr_state <$> verification in
  let journal :=
    with_state journal (Applied durable committed_state ended_at control_observation verification_state) in
  let! _ := if edit_verify (q_edit request) then persist_journal journal else ret tt in
  let late := match control_observation with
              | None => stop_observation <$> stop_at ports AfterCommit
              | Some _ => control_observation
              end in
  let journal := with_state journal (Applied durable committed_state ended_at late verification_state) in
  let! _ := match control_observation, late with
            | None, Some _ => persist_journal journal
            | _, _ => ret tt
            end in
  let! _ := persist_rollback_record journal committed_state (outcome_success outcome) in
  let! record := lift (applied_record journal outcome committed_state ended_at late) in
  let! _ := persist_receipt record in
  let! _ := clear_journal in
  ret (into_live_application_result record outcome verification).

(** What the primitive did is checked against the preview. *)
Definition settle_effect (request : SourceEditEffectRequestV1) (journal : SourceEditJournalV1)
    (predicted_state : rstr) (outcome : SourceEditOutcome) (plan_complete : bool) :
    tx SourceEditApplicationResult :=
  let control_observation := stop_observation <$> stop_at ports EffectInFlight in
  let! committed_state := source_edit_state_digest (opens ports) (j_candidate_files journal) in
  if outcome_success outcome && (negb plan_complete || negb (bool_decide (committed_state = predicted_state)))
  then
    persist_unknown journal (OEffectUnknown (str
      "source edit effect is unknown and requires reconciliation: the observed committed state did not match the exact preview"))
      None
  else if negb (outcome_success outcome) && negb (bool_decide (committed_state = j_expected_state journal))
  then
    persist_unknown journal (OEffectUnknown (str
      "source edit effect is unknown and requires reconciliation: the edit reported failure after candidate state changed"))
      None
  else finalize_effect request journal outcome committed_state control_observation.

(** From the published journal on. *)
Definition run_effect (request : SourceEditEffectRequestV1) (journal : SourceEditJournalV1)
    (predicted_state : rstr) : tx SourceEditApplicationResult :=
  let! _ := persist_journal journal in
  match stop_at ports BeforeEffect with
  | Some stop =>
    let live_outcome := control_stop_outcome (stop_termination stop)
      "source edit was cancelled before the effect" "source edit timed out before the effect" in
    let! record := lift (interrupted_record journal live_outcome stop) in
    let! _ := persist_receipt record in
    let! _ := clear_journal in
    ret (into_live_application_result record live_outcome None)
  | None =>
    let! effect_result := attempt (apply_source_edit_plan (opens ports) (apply_primitives ports)
      (j_recovery_files journal) (with_dry_run (q_edit request) false)) in
    match effect_result with
    | Err _ =>
      persist_unknown journal
        (OEffectUnknown (str "source edit effect is unknown and requires reconciliation")) None
    | Ok (outcome, plan_complete) => settle_effect request journal predicted_state outcome plan_complete
    end
  end.

(** The journal of an apply; every planned file is a recovery file. *)
Definition prepared_journal (operation : ApplicationOperation) (request : SourceEditEffectRequestV1)
    (authority : SourceEditAuthorizationAdmissionV1) (input_digest id : rstr) (predicted_state : rstr)
    (candidate : list rstr) (planned_files : list PlannedSourceEditFile) (recovery_digest : option rstr) :
    SourceEditJournalV1 := {|
  j_version := JOURNAL_VERSION; j_effect_id := id; j_input_digest := input_digest;
  j_expected_state := q_expected_state request; j_predicted_state := Some predicted_state;
  j_candidate_files := candidate; j_recovery_files := planned_files; j_recovery_digest := recovery_digest;
  j_request := durable_request operation request authority; j_state := Prepared |}.

(** [(!files.is_empty()).then(|| source_edit_recovery_digest(files)).transpose()]. *)
Definition recovery_digest_of (files : list PlannedSourceEditFile) : edit (option rstr) :=
  if is_empty files then Ok None
  else let? digest := source_edit_recovery_digest files in Ok (Some digest).

(** An apply after its preview: authority and state are checked once more. *)
Definition apply_edit (operation : ApplicationOperation) (request : SourceEditEffectRequestV1)
    (admission current_authority : SourceEditAuthorizationAdmissionV1) (input_digest predicted_state : rstr)
    (candidate : list rstr) (planned_files : list PlannedSourceEditFile) : tx SourceEditApplicationResult :=
  let state := {| pe_expected := q_expected_state request; pe_predicted := Some predicted_state;
                  pe_candidate_files := candidate |} in
  match recheck_effect ports 1 (q_context request) operation admission (now_micros ports 4) with
  | Some authority =>
    if negb (authority_still_matches authority request) then
      fail_pre_effect operation request current_authority input_digest state
    else
      let! recaptured := attempt (source_edit_state_digest (opens ports) candidate) in
      match recaptured with
      | Err _ => fail_pre_effect operation request authority input_digest state
      | Ok recaptured_state =>
        if negb (bool_decide (recaptured_state = q_expected_state request)) then
          fail_pre_effect operation request authority input_digest state
        else
          let! id := lift (effect_id (q_idempotency_key request) input_digest) in
          let! recovery_digest := lift (recovery_digest_of planned_files) in
          run_effect request (prepared_journal operation request authority input_digest id predicted_state
                                candidate planned_files recovery_digest) predicted_state
      end
  | None => fail_pre_effect operation request current_authority input_digest state
  end.

(** A dry run ends with the receipt of its preview. *)
Definition preview_edit (operation : ApplicationOperation) (request : SourceEditEffectRequestV1)
    (admission current_authority : SourceEditAuthorizationAdmissionV1) (input_digest : rstr)
    (current_state predicted_state : rstr) (candidate : list rstr) (outcome : SourceEditOutcome) :
    tx SourceEditApplicationResult :=
  let state := {| pe_expected := current_state; pe_predicted := Some predicted_state;
                  pe_candidate_files := candidate |} in
  match stop_at ports EffectInFlight with
  | Some stop =>
    persist_pre_effect_result operation request current_authority input_digest
      (control_stop_outcome (stop_termination stop) "source edit preview was cancelled"
         "source edit preview timed out")
      state (stop_termination stop) (Some (stop_observation stop))
  | None =>
    match recheck_effect ports 1 (q_context request) operation admission (now_micros ports 4) with
    | Some authority =>
      if negb (authority_still_matches authority request) then
        fail_pre_effect operation request current_authority input_digest state
      else
        persist_pre_effect_result operation request authority input_digest outcome state Completed None
    | None => fail_pre_effect operation request current_authority input_digest state
    end
  end.

(** From the admitted request on: recovery of an earlier transaction, replay of
    this one, preview, and the effect. *)
Definition execute_admitted (operation : ApplicationOperation) (request : SourceEditEffectRequestV1)
    (admission current_authority : SourceEditAuthorizationAdmissionV1) (input_digest : rstr) :
    tx SourceEditApplicationResult :=
  let! _ := recover_source_edit_transaction (c_scope (q_context request)) in
  let! replayed := recover_or_replay request input_digest in
  match replayed with
  | Some result => ret result
  | None =>
    let! preview := attempt (resolve_source_edit_preview (q_edit request)) in
    match preview with
    | Err _ =>
      fail_pre_effect_with_outcome operation request current_authority input_digest
        (unpreviewed (q_expected_state request)) (OFailed (str "source edit failed before the effect"))
    | Ok preview =>
      if negb (outcome_success (pv_outcome preview)) then
        persist_pre_effect_result operation request current_authority input_digest (pv_outcome preview)
          {| pe_expected := default (q_expected_state request) (pv_expected_state preview);
             pe_predicted := pv_predicted_state preview; pe_candidate_files := pv_candidate_files preview |}
          Failed None
      else
        match pv_predicted_state preview, pv_expected_state preview with
        | None, _ => raise (config_error "successful source edit preview omitted predicted state")
        | _, None => raise (config_error "successful source edit preview omitted expected state")
        | Some predicted_state, Some current_state =>
          let candidate := pv_candidate_files preview in
          if negb (edit_dry_run (q_edit request)) && negb (bool_decide (current_state = q_expected_state request))
          then
            fail_pre_effect operation request current_authority input_digest
              {| pe_expected := q_expected_state request; pe_predicted := Some predicted_state;
                 pe_candidate_files := candidate |}
          else if edit_dry_run (q_edit request) then
            preview_edit operation request admission current_authority input_digest current_state
              predicted_state candidate (pv_outcome preview)
          else
            apply_edit operation request admission current_authority input_digest predicted_state candidate
              (pv_planned_files preview)
        end
    end
  end.

(** [execute_source_edit_inner]. *)
Definition execute_source_edit (operation : ApplicationOperation) (request : SourceEditEffectRequestV1) :
    tx SourceEditApplicationResult :=
  let! _ := lift (application_contract (request_validate request)) in
  if negb (bool_decide (operation = source_edit_operation (edit_kind (q_edit request)))) then
    raise (config_error "source edit request does not match its catalog operation")
  else
    let! _ := lock in
    let! input_digest := lift (application_contract (request_input_digest request)) in
    let! requested_authority := lift (application_contract
      (admission_new (q_authority request) (q_proof request) (c_scope (q_context request)))) in
    let refuse authority := fail_pre_effect operation request authority input_digest
                              (unpreviewed (q_expected_state request)) in
    match stop_at ports BeforeAdmission with
    | Some stop =>
      persist_pre_effect_result operation request requested_authority input_digest
        (control_stop_outcome (stop_termination stop) "source edit was cancelled before admission"
           "source edit timed out before admission")
        (unpreviewed (q_expected_state request)) (stop_termination stop) (Some (stop_observation stop))
    | None =>
      match port_admit ports (q_context request) operation (q_observed_at request) with
      | None => refuse requested_authority
      | Some admission =>
        if negb (bool_decide (ad_receipt admission = q_authority request))
           || negb (bool_decide (ad_proof admission = q_proof request))
        then refuse requested_authority
        else
          match recheck_effect ports 0 (q_context request) operation admission (now_micros ports 0) with
          | Some authority =>
            if authority_still_matches authority request
            then execute_admitted operation request admission authority input_digest
            else refuse requested_authority
          | None =>
            let! receipt := load_receipt (q_idempotency_key request) in
            match receipt with
            | Some _ => raise application_problem
            | None =>
              let! journal := load_journal in
              match journal with
              | Some _ => raise application_problem
              | None => refuse admission
              end
            end
          end
      end
    end.
End execute.
