(* ===== verification/EditPublish.v ===== *)
(** * Source edits: what publication does to the files

    A plan and the tree it is about: every planned file holds its preimage, its
    postimage, or one of the two.  Publishing, restoring and the edit primitives
    move a tree only between such states, at every point where they may stop;
    a captured plan names the preimages the tree holds. *)
From stdpp Require Import base numbers strings gmap list sorting.
From S2P Require Import Prelude RustText Bytes PolicyRouting EditContract EditRecords EditFiles EditPlan.
From S2P Require Import EditJournal EditLogic EditVerify EditExecute.

#[local] Open Scope Z_scope.
#[local] Open Scope rust_scope.

(** ** Plans and trees *)
Definition holds (side : bool) (plan : list PlannedSourceEditFile) (t : gmap rstr File) : Prop :=
  ∀ file, file ∈ plan → contents t (relative_path file) = text_bytes (planned_side side file).

Definition all_pre := holds false.
Definition all_post := holds true.

Definition torn (plan : list PlannedSourceEditFile) (t : gmap rstr File) : Prop :=
  ∀ file, file ∈ plan →
    contents t (relative_path file) = text_bytes (expected file)
    ∨ contents t (relative_path file) = text_bytes (intended file).

Definition plan_paths (plan : list PlannedSourceEditFile) : list rstr := relative_path <$> plan.

(** Distinct normal paths. *)
Definition plan_ok (plan : list PlannedSourceEditFile) : Prop :=
  NoDup (plan_paths plan) ∧
  ∀ p, p ∈ plan_paths plan → normalize_source_edit_relative_path p = Some p.

(** Files outside the plan are the same. *)
Definition same_outside (plan : list PlannedSourceEditFile) (t t' : gmap rstr File) : Prop :=
  ∀ p, p ∉ plan_paths plan → t' !! p = t !! p.

Lemma same_outside_refl plan t : same_outside plan t t.
Proof. done. Qed.

Lemma same_outside_trans plan a b c : same_outside plan a b → same_outside plan b c → same_outside plan a c.
Proof. intros Hab Hbc p Hp. rewrite Hbc by done. by apply Hab. Qed.

Lemma holds_torn side plan t : holds side plan t → torn plan t.
Proof. intros Hh file Hin. specialize (Hh file Hin). destruct side; auto. Qed.

Lemma in_plan_paths plan file : file ∈ plan → relative_path file ∈ plan_paths plan.
Proof. intros Hin. apply list_elem_of_fmap. eauto. Qed.

Lemma plan_unique plan f g : plan_ok plan → f ∈ plan → g ∈ plan → relative_path f = relative_path g → f = g.
Proof. intros [Hnd _] Hf Hg. by apply (NoDup_fmap_inj relative_path plan). Qed.

(** A directory with a file that no state of the plan removes. *)
Definition occupied (plan : list PlannedSourceEditFile) (t : gmap rstr File) (d : rstr) : Prop :=
  ∃ q, d ∈ parents q ∧ is_Some (t !! q) ∧
    ∀ file, file ∈ plan → relative_path file = q → expected file ≠ None ∧ intended file ≠ None.

(** Each file that the plan creates is at the root of the worktree or beside
    another file. *)
Definition sheltered (plan : list PlannedSourceEditFile) (t : gmap rstr File) : Prop :=
  ∀ file d ds, file ∈ plan → expected file = None → parents (relative_path file) = d :: ds → occupied plan t d.

Lemma sheltered_torn plan t t' :
  plan_ok plan → torn plan t' → same_outside plan t t' → sheltered plan t → sheltered plan t'.
Proof.
  intros [_ Hn] Ht Ho Hs file d ds Hf He Hp. destruct (Hs file d ds Hf He Hp) as (q & Hq & Hin & Hk).
  exists q. split; [done|]. split; [|done]. destruct (decide (q ∈ plan_paths plan)) as [Hpl|Hpl]; [|by rewrite Ho].
  pose proof (Hn q Hpl) as Hnq. apply list_elem_of_fmap in Hpl as (g & -> & Hg). destruct (Hk g Hg eq_refl) as [He' Hi'].
  destruct (Ht g Hg) as [E|E]; unfold contents in E; rewrite Hnq in E; destruct (t' !! relative_path g); try (by eauto);
    exfalso; [by destruct (expected g)|by destruct (intended g)].
Qed.

Lemma zip_fmap_self {A B} (f : A → B) (l : list A) : zip l (f <$> l) = (λ x, (x, f x)) <$> l.
Proof. induction l as [|x l IH]; [done|]. rewrite !fmap_cons, <- IH. done. Qed.

Section publish.
Context `{DurableCodec} `{Sha256} `{EditDigests} (opens : rstr → bool).

(** ** One file *)

(** The tree with [after] at [path] and all else as before. *)
Definition rewritten (path : rstr) (after : option rstr) (t t' : gmap rstr File) : Prop :=
  contents t' path = text_bytes after
  ∧ ∀ p, normalize_source_edit_relative_path path ≠ Some p → t' !! p = t !! p.

Lemma put_rewritten w path key (after : rstr) :
  normalize_source_edit_relative_path path = Some key →
  rewritten path (Some after) (tree w) (tree (put_file key (utf8_encode after) w)).
Proof.
  intros Hk. unfold rewritten, contents. rewrite Hk. simpl. split.
  - by rewrite lookup_insert_eq.
  - intros p Hp. rewrite lookup_insert_ne; [done|]. congruence.
Qed.

Lemma remove_rewritten w path key :
  normalize_source_edit_relative_path path = Some key →
  rewritten path None (tree w) (tree (remove_file key w)).
Proof.
  intros Hk. unfold rewritten, contents. rewrite Hk. simpl. split.
  - by rewrite lookup_delete_eq.
  - intros p Hp. rewrite lookup_delete_ne; [done|]. congruence.
Qed.

(** A publication that runs, fails or dies: the store and the directories are
    kept, and the tree is as before or, where the file held [before], rewritten.  It returns only
    when the file was rewritten. *)
Definition keeps_places (w w' : World) : Prop := keeps_store w w' ∧ dirs w' = dirs w.

Definition published (path : rstr) (before after : option rstr) {A} (m : tx A) : Prop := ∀ w,
  keeps_places w (m w).1 ∧
  ((tree (m w).1 = tree w ∧ ∀ a, (m w).2 ≠ Return a)
   ∨ contents (tree w) path = text_bytes before ∧ rewritten path after (tree w) (tree (m w).1)).

Lemma published_bind {A B} path before after (m : tx A) (k : A → tx B) :
  within_frame reads_only m →
  (∀ w a w', m w = (w', Return a) → published path before after (k a)) →
  published path before after (bind m k).
Proof.
  intros Hm Hk w. pose proof (Hm w) as (Ht & (_ & Hd) & Hs). unfold bind.
  destruct (m w) as [w1 [a|e|]] eqn:E; simpl in *.
  - destruct (Hk w a w1 E w1) as [[Hs' Hd'] Ho]. split; [split; unfold keeps_store in *; congruence|].
    rewrite <- Ht. exact Ho.
  - split; [done|]. by left.
  - split; [done|]. by left.
Qed.

Lemma published_raise {A} path before after e : published path before after (@raise _ A e).
Proof. intros w. split; [done|]. by left. Qed.

Lemma published_replace path before after o f :
  (∀ w, keeps_places w (f w)) →
  (∀ w, rewritten path after (tree w) (tree (f w))) →
  ∀ w, contents (tree w) path = text_bytes before →
  keeps_places w (replace o f w).1 ∧
  ((tree (replace o f w).1 = tree w ∧ ∀ a, (replace o f w).2 ≠ Return a)
   ∨ contents (tree w) path = text_bytes before ∧ rewritten path after (tree w) (tree (replace o f w).1)).
Proof.
  intros Hs Hr w Hb. destruct (replace_cases o f w) as (w1 & (Ht & (_ & Hd) & Hs1) & [E|[E En]]); rewrite E.
  - destruct (Hs w1) as [Hs2 Hd2]. split; [split; unfold keeps_store in *; congruence|]. right. split; [done|]. rewrite <- Ht. apply Hr.
  - split; [done|]. by left.
Qed.

Lemma publish_published key path before i after :
  normalize_source_edit_relative_path path = Some key →
  published path before (Some after) (publish key path before i after).
Proof.
  intros Hk w. unfold publish. unfold bind.
  destruct (read_optional_with_identity key w) as [w1 [file|e|]] eqn:E;
    pose proof (frame_run _ _ _ _ _ (reads_read key) E) as (Ht & (_ & Hd) & Hs).
  2-3: split; [done|]; by left.
  apply observe_return in E as [-> _].
  case_bool_decide as E1; simpl; [|split; [done|]; left; by split].
  case_bool_decide as E2; simpl; [|split; [done|]; left; by split].
  assert (contents (tree w1) path = text_bytes before) as Hb by (unfold contents; by rewrite Hk).
  destruct (published_replace path before (Some after) "atomically publish source edit candidate"
    (put_file key (utf8_encode after)) ltac:(done) (λ w, put_rewritten w path key after Hk) w1 Hb)
    as [[Hs2 Hd2] Ho].
  split; [exact (conj (eq_trans Hs2 Hs) (eq_trans Hd2 Hd))|]. rewrite <- Ht. exact Ho.
Qed.

Lemma remove_published key path before i :
  normalize_source_edit_relative_path path = Some key →
  published path (Some before) None (remove key path before i).
Proof.
  intros Hk w. unfold remove. unfold bind.
  destruct (read_optional_with_identity key w) as [w1 [file|e|]] eqn:E;
    pose proof (frame_run _ _ _ _ _ (reads_read key) E) as (Ht & (_ & Hd) & Hs).
  2-3: split; [done|]; by left.
  apply observe_return in E as [-> _].
  case_bool_decide as E1; simpl; [|split; [done|]; left; by split].
  case_bool_decide as E2; simpl; [|split; [done|]; left; by split].
  assert (contents (tree w1) path = text_bytes (Some before)) as Hb by (unfold contents; by rewrite Hk).
  destruct (published_replace path (Some before) None "atomically remove source edit candidate"
    (remove_file key) ltac:(done) (λ w, remove_rewritten w path key Hk) w1 Hb) as [[Hs2 Hd2] Ho].
  split; [exact (conj (eq_trans Hs2 Hs) (eq_trans Hd2 Hd))|]. rewrite <- Ht. exact Ho.
Qed.

Lemma publish_state_published path before after :
  published path before after (publish_source_edit_state opens path before after).
Proof.
  unfold publish_source_edit_state. apply published_bind; [apply reads_open|].
  intros w key w' (Hk & _ & _)%open_return. apply published_bind; [apply reads_current|].
  intros _ i _ _. destruct after as [after|]; [by apply publish_published|].
  destruct before as [before|]; [|apply published_raise].
  destruct i as [i|]; [by apply remove_published|apply published_raise].
Qed.

(** ** A planned file is rewritten *)
Section rewrite_planned.
Context (plan : list PlannedSourceEditFile) (Hok : plan_ok plan).

Lemma rewritten_outside file after t t' :
  file ∈ plan → rewritten (relative_path file) after t t' → same_outside plan t t'.
Proof.
  intros Hin [_ Hr] p Hp. apply Hr. intros E. apply Hp.
  destruct Hok as [_ Hn]. rewrite (Hn _ (in_plan_paths _ _ Hin)) in E. injection E as <-.
  by apply in_plan_paths.
Qed.

Lemma rewritten_other file other after t t' :
  file ∈ plan → other ∈ plan → file ≠ other → rewritten (relative_path file) after t t' →
  contents t' (relative_path other) = contents t (relative_path other).
Proof.
  intros Hf Ho Hne [_ Hr]. destruct Hok as [Hnd Hn].
  unfold contents. rewrite (Hn _ (in_plan_paths _ _ Ho)). rewrite Hr; [done|].
  rewrite (Hn _ (in_plan_paths _ _ Hf)). intros [= E]. apply Hne. by apply (plan_unique plan).
Qed.

Lemma rewritten_torn file side t t' :
  file ∈ plan → rewritten (relative_path file) (planned_side side file) t t' → torn plan t → torn plan t'.
Proof.
  intros Hin Hr Ht other Ho. destruct (decide (file = other)) as [<-|Hne].
  - destruct Hr as [-> _]. destruct side; auto.
  - rewrite (rewritten_other file other _ t t') by done. by apply Ht.
Qed.

(** ** Restoring preimages *)

(** Every point of a run keeps the store, the files outside the plan, and each
    planned file at its pre- or postimage; and the directories, where each new
    file has another beside it. *)
Definition stays_torn (w w' : World) : Prop :=
  keeps_store w w' ∧ (torn plan (tree w) → torn plan (tree w')) ∧ same_outside plan (tree w) (tree w')
  ∧ (torn plan (tree w) → sheltered plan (tree w) → dirs w' = dirs w).

#[local] Instance stays_torn_frame : Frame stays_torn.
Proof.
  split.
  - done.
  - intros a b c (S1 & T1 & O1 & D1) (S2 & T2 & O2 & D2). split; [exact (eq_trans S2 S1)|]. split; [auto|].
    split; [by eapply same_outside_trans|]. intros Ht Hs. rewrite D2; auto.
    apply (sheltered_torn plan (tree a)); auto.
  - intros w. unfold next_fate. by destruct (fates w).
Qed.

Lemma reads_stays_torn {A} (m : tx A) : within_frame reads_only m → within_frame stays_torn m.
Proof. intros Hm w. destruct (Hm w) as (Ht & (_ & Hd) & Hs). split; [done|]. by rewrite Ht. Qed.

Lemma publish_stays_torn {A} file before side (m : tx A) :
  file ∈ plan → published (relative_path file) before (planned_side side file) m → within_frame stays_torn m.
Proof.
  intros Hin Hp w. destruct (Hp w) as [[Hs Hd] [[Ht _]|[_ Hr]]]; split; try done.
  - by rewrite Ht.
  - split; [by apply (rewritten_torn file side)|]. split; [by eapply rewritten_outside|done].
Qed.

Lemma restore_stays_torn l :
  (∀ x, x ∈ l → x.1 ∈ plan) → within_frame stays_torn (restore_planned opens l).
Proof.
  induction l as [|[file current] l IH]; intros Hl; simpl; [apply (frame_ret _)|].
  assert (within_frame stays_torn (restore_planned opens l)) as Hrest.
  { apply IH. intros x Hx. apply Hl. by right. }
  case_bool_decide; [done|]. apply (frame_bind _); [|done].
  eapply (publish_stays_torn file _ false); [apply (Hl (file, current)); left|].
  apply publish_state_published.
Qed.

Lemma rollback_stays_torn files :
  files ⊆ plan → within_frame stays_torn (rollback_planned_source_edit_files opens files).
Proof.
  intros Hf. apply (frame_bind _); [apply reads_stays_torn, reads_observe_planned|].
  intros observed. apply restore_stays_torn. intros [file current] Hin. apply Hf.
  rewrite elem_of_reverse in Hin. by apply elem_of_zip_l in Hin.
Qed.

(** Restoring leaves the preimage of each file. *)
Lemma restore_return l w w' :
  restore_planned opens l w = (w', Return tt) →
  NoDup l.*1 → (∀ x, x ∈ l → x.1 ∈ plan ∧ x.2 = contents (tree w) (relative_path x.1)) →
  (∀ file, file ∈ l.*1 → contents (tree w') (relative_path file) = text_bytes (expected file)) ∧
  (∀ file, file ∈ plan → file ∉ l.*1 →
    contents (tree w') (relative_path file) = contents (tree w) (relative_path file)).
Proof.
  revert w. induction l as [|[file current] l IH]; intros w E Hnd Hl; simpl in *.
  { injection E as <-. split; [|done]. by intros ? ?%elem_of_nil. }
  apply NoDup_cons in Hnd as [Hnot Hnd].
  assert (file ∈ plan ∧ current = contents (tree w) (relative_path file)) as [Hin Hcur].
  { apply (Hl (file, current)). left. }
  case_bool_decide as Ec.
  - destruct (IH w E Hnd) as [Ha Hb]; [intros x Hx; apply Hl; by right|]. split.
    + intros f [->|Hf]%elem_of_cons; [|by apply Ha]. rewrite Hb by done. congruence.
    + intros f Hf [_ Hn]%not_elem_of_cons. by apply Hb.
  - apply bind_return in E as ([] & w1 & E1 & E).
    destruct (publish_state_published (relative_path file) (intended file) (expected file) w)
      as [_ [[_ Hn]|[_ Hr]]].
    { exfalso. apply (Hn tt). by rewrite E1. }
    rewrite E1 in Hr. simpl in Hr.
    assert (∀ f, f ∈ plan → f ≠ file →
      contents (tree w1) (relative_path f) = contents (tree w) (relative_path f)) as Hother.
    { intros f Hf Hne. apply (rewritten_other file f (expected file)); congruence. }
    destruct (IH w1 E Hnd) as [Ha Hb].
    { intros x Hx. destruct (Hl x ltac:(by right)) as [Hp ->]. split; [done|].
      rewrite Hother; [done|done|]. intros <-. apply Hnot. apply list_elem_of_fmap. eauto. }
    split.
    + intros f [->|Hf]%elem_of_cons; [|by apply Ha]. rewrite Hb by done. by destruct Hr as [-> _].
    + intros f Hf [Hne Hn]%not_elem_of_cons. rewrite Hb by done. by apply Hother.
Qed.

Lemma observe_planned_return files w w' l :
  observe_planned opens files w = (w', Return l) →
  l = (λ file, contents (tree w) (relative_path file)) <$> files ∧ torn files (tree w).
Proof.
  revert w w' l. induction files as [|file files IH]; intros w w' l E; simpl in E.
  - injection E as <- <-. split; [done|]. by intros ? ?%elem_of_nil.
  - apply bind_return in E as (v & w1 & E1 & E). apply candidate_return in E1 as (-> & _ & Ht & _).
    destruct (negb _ && negb _) eqn:Eb; [discriminate|].
    apply bind_return in E as (rest & w2 & [-> Hr]%IH & [= <- <-]). rewrite Ht in *.
    split; [done|]. intros f [->|Hf]%elem_of_cons; [|by apply Hr].
    apply andb_false_iff in Eb as [Eb|Eb]; bools; auto.
Qed.

Lemma rollback_return files w w' :
  files ⊆ plan → NoDup files →
  rollback_planned_source_edit_files opens files w = (w', Return tt) → all_pre files (tree w').
Proof.
  intros Hsub Hnd E. unfold rollback_planned_source_edit_files in E.
  apply bind_return in E as (l & w1 & E1 & E).
  pose proof (frame_run _ _ _ _ _ (reads_observe_planned opens files) E1) as (Ht & _ & _).
  apply observe_planned_return in E1 as [-> _].
  assert ((reverse (zip files ((λ file, contents (tree w) (relative_path file)) <$> files))).*1 ≡ₚ files) as Hp.
  { rewrite fmap_reverse, reverse_Permutation. rewrite fst_zip; [done|]. by rewrite length_fmap. }
  destruct (restore_return _ _ _ E) as [Ha _].
  - by rewrite Hp.
  - intros [file current] Hin. rewrite elem_of_reverse, zip_fmap_self in Hin.
    apply list_elem_of_fmap in Hin as (f & [= -> ->] & Hf). simpl. rewrite Ht. auto.
  - intros file Hin. apply Ha. by rewrite Hp.
Qed.

(** Without failures, restoring a torn plan returns. *)
Lemma publish_state_calm path before after w :
  calm w → reachable opens (dirs w) path → contents (tree w) path = text_bytes before →
  (after = None → before ≠ None) →
  ∃ w', publish_source_edit_state opens path before after w = (w', Return tt) ∧ calm w'.
Proof.
  intros Hc (key & Hk & Ho) Hb Hne. unfold publish_source_edit_state.
  unfold contents in Hb. rewrite Hk in Hb.
  rewrite (bind_run _ _ _ w key) by by apply open_calm.
  unfold current_identity.
  rewrite (bind_run _ _ _ w (identity <$> tree w !! key))
    by by rewrite (bind_run _ _ _ _ _ (observe_calm _ _ w Hc)).
  destruct after as [after|].
  - unfold publish, read_optional_with_identity.
    rewrite (bind_run _ _ _ _ _ (observe_calm _ _ w Hc)).
    rewrite !bool_decide_eq_true_2 by done. simpl. rewrite replace_calm by done. eauto.
  - destruct before as [before|]; [|by destruct Hne]. simpl in Hb.
    destruct (tree w !! key) as [file|] eqn:Ef; [|discriminate]. simpl.
    unfold remove, read_optional_with_identity.
    rewrite (bind_run _ _ _ _ _ (observe_calm _ _ w Hc)), Ef. simpl in *.
    rewrite !bool_decide_eq_true_2 by done. simpl. rewrite replace_calm by done. eauto.
Qed.

Context (d : gset rstr) (Hreach : Forall (reachable opens d) (plan_paths plan)).

Lemma plan_reachable file : file ∈ plan → reachable opens d (relative_path file).
Proof. intros Hin. rewrite Forall_forall in Hreach. by apply Hreach, in_plan_paths. Qed.

Lemma restore_calm l w :
  calm w → dirs w = d → NoDup l.*1 →
  (∀ x, x ∈ l → x.1 ∈ plan ∧ x.2 = contents (tree w) (relative_path x.1)
    ∧ (x.2 = text_bytes (expected x.1) ∨ x.2 = text_bytes (intended x.1))) →
  ∃ w', restore_planned opens l w = (w', Return tt) ∧ calm w'.
Proof.
  revert w. induction l as [|[file current] l IH]; intros w Hc Hdir Hnd Hl; simpl in *; [eauto|].
  apply NoDup_cons in Hnd as [Hnot Hnd].
  destruct (Hl (file, current) ltac:(by left)) as (Hin & Hcur & Hside). simpl in Hin, Hcur, Hside.
  case_bool_decide as Ec; [apply IH; [done..|]; intros x Hx; apply Hl; by right|].
  destruct Hside as [?|Hside]; [done|].
  destruct (publish_state_calm (relative_path file) (intended file) (expected file) w) as (w1 & E1 & Hc1).
  - done.
  - rewrite Hdir. by apply plan_reachable.
  - congruence.
  - intros E E'. apply Ec. rewrite Hside, E, E'. done.
  - destruct (publish_state_published (relative_path file) (intended file) (expected file) w)
      as [[_ Hd1] [[_ Hn]|[_ Hr]]]; rewrite E1 in *; [by destruct (Hn tt)|]. simpl in Hr, Hd1.
    rewrite (bind_run _ _ _ _ _ E1). apply IH; [done|congruence|done|].
    intros x Hx. destruct (Hl x ltac:(by right)) as (Hp & -> & Hs).
    rewrite (rewritten_other file x.1 (expected file) (tree w) (tree w1)); [done..| |done].
    intros ->. apply Hnot. apply list_elem_of_fmap. eauto.
Qed.

Lemma observe_planned_calm files w :
  calm w → dirs w = d → files ⊆ plan → torn files (tree w) →
  observe_planned opens files w = (w, Return ((λ file, contents (tree w) (relative_path file)) <$> files)).
Proof.
  intros Hc Hdir. induction files as [|file files IH]; intros Hsub Ht; simpl; [done|].
  pose proof (plan_reachable _ (Hsub _ ltac:(by left))) as Hr. rewrite <- Hdir in Hr.
  rewrite (bind_run _ _ _ _ _ (candidate_calm opens _ w Hc Hr)).
  destruct (negb _ && negb _) eqn:Eb.
  - exfalso. bools. destruct (Ht file ltac:(by left)); done.
  - rewrite (bind_run _ _ _ _ _ (IH ltac:(set_solver) ltac:(intros f Hf; apply Ht; by right))). done.
Qed.

Lemma rollback_calm w :
  calm w → dirs w = d → torn plan (tree w) →
  ∃ w', rollback_planned_source_edit_files opens plan w = (w', Return tt) ∧ calm w'.
Proof.
  intros Hc Hdir Ht. unfold rollback_planned_source_edit_files.
  rewrite (bind_run _ _ _ _ _ (observe_planned_calm plan w Hc Hdir ltac:(done) Ht)).
  rewrite zip_fmap_self. apply restore_calm; [done|done| |].
  - rewrite fmap_reverse, reverse_Permutation, <- list_fmap_compose.
    change (fst ∘ _) with (λ x : PlannedSourceEditFile, x). rewrite list_fmap_id.
    destruct Hok as [Hnd _]. by apply NoDup_fmap_1 in Hnd.
  - intros x Hx. rewrite elem_of_reverse in Hx. apply list_elem_of_fmap in Hx as (f & -> & Hf). simpl.
    split; [done|]. split; [done|]. by apply Ht.
Qed.
End rewrite_planned.

(** ** Postimages *)
Lemma commit_return files w w' :
  commit_source_edit_postimages opens files w = (w', Return tt) → all_post files (tree w).
Proof.
  revert w. induction files as [|file files IH]; intros w E; simpl in E.
  - by intros ? ?%elem_of_nil.
  - apply bind_return in E as (v & w1 & E1 & E). apply candidate_return in E1 as (-> & _ & Ht & _).
    destruct (negb _) eqn:Eb; [discriminate|]. bools. apply IH in E. rewrite Ht in E.
    intros f [->|Hf]%elem_of_cons; [done|by apply E].
Qed.

Lemma commit_calm files w :
  calm w → Forall (reachable opens (dirs w)) (plan_paths files) → all_post files (tree w) →
  commit_source_edit_postimages opens files w = (w, Return tt).
Proof.
  intros Hc. induction files as [|file files IH]; intros Hr Hp; simpl; [done|].
  apply Forall_cons in Hr as [Hf Hr].
  rewrite (bind_run _ _ _ _ _ (candidate_calm opens _ w Hc Hf)).
  rewrite bool_decide_eq_true_2 by (apply (Hp file); by left). simpl. apply IH; [done|].
  intros f Hin. apply Hp. by right.
Qed.

(** ** The edit primitives

    A primitive reports success exactly when it hands new text on. *)
Record honest (prims : Primitives) : Prop := {
  honest_one : ∀ q p s r, one_rewrite prims q p s = Ok r →
    match r with RefuseEdit o => outcome_success o = false | RewriteTo _ o => outcome_success o = true
    | RewritePanics => True end;
  honest_targets : ∀ q o, move_targets prims q = Ok (inl o) → outcome_success o = false;
  honest_check : ∀ q s o, move_check prims q s = Ok (Some o) → outcome_success o = false;
  honest_move : ∀ q s d r, move_rewrite prims q s d = Ok r →
    match r with RefuseMove o => outcome_success o = false | MoveTo _ _ o => outcome_success o = true end;
  honest_rename : ∀ q l r, rename_decide prims q l = Ok r →
    match r with RefuseRename o => outcome_success o = false | RenameAll o => outcome_success o = true end;
}.

(** Removing directories touches neither files nor records. *)
Lemma remove_parents_keeps ds w :
  let w' := (remove_empty_parents ds w).1 in store w' = store w ∧ tree w' = tree w.
Proof.
  set (R := λ w w' : World, store w' = store w ∧ tree w' = tree w).
  assert (Frame R) as HR.
  { split; unfold R; [done| |].
    - intros a b c [? ?] [? ?]. split; congruence.
    - intros w1. unfold next_fate. by destruct (fates w1). }
  assert (∀ d, within_frame R (remove_dir d)) as Hd.
  { intros d w1. unfold remove_dir. case_match; [by apply (frame_replace R)|].
    apply (frame_bind R); [apply (frame_observe R)|]. intros []. apply (frame_raise R). }
  revert w. induction ds as [|d ds IH]; intros w; [done|]. simpl.
  apply (frame_bind R); [apply (frame_attempt R), Hd|]. intros [[]|e]; [exact IH|apply (frame_ret R)].
Qed.

Lemma reads_fs p : within_frame reads_only (fs_read p).
Proof. unfold fs_read. frames. Qed.

Lemma reads_unchanged p text : within_frame reads_only (ensure_text_unchanged p text).
Proof. unfold ensure_text_unchanged. frames. apply reads_fs. Qed.

Lemma reads_rename prims q paths : within_frame reads_only (rename_read opens prims q paths).
Proof. induction paths; simpl; frames. Qed.

(** *** Under an apply *)
Section apply.
Context (plan : list PlannedSourceEditFile) (Hok : plan_ok plan).
Context (prims : Primitives).

Definition scope_of (consumed : list rstr) : PlanScope := Applying plan consumed.

(** The files marked as consumed hold their postimages. *)
Definition settled_post (consumed : list rstr) (t : gmap rstr File) : Prop :=
  NoDup consumed ∧ consumed ⊆ plan_paths plan ∧
  ∀ file, file ∈ plan → relative_path file ∈ consumed →
    contents t (relative_path file) = text_bytes (intended file).

#[local] Instance torn_frame : Frame (stays_torn plan) := stays_torn_frame plan Hok.

Definition consume (path : rstr) (consumed : list rstr) : list rstr :=
  if bool_decide (path ∈ consumed) then consumed else path :: consumed.

Lemma consume_elem p path consumed : p ∈ consume path consumed ↔ p = path ∨ p ∈ consumed.
Proof. unfold consume. case_bool_decide; rewrite ?elem_of_cons; naive_solver. Qed.

Lemma consume_NoDup path consumed : NoDup consumed → NoDup (consume path consumed).
Proof. intros Hnd. unfold consume. case_bool_decide; [done|by constructor]. Qed.

(** Validation admits exactly what the plan says of the file. *)
Lemma validate_planned consumed path before after scope :
  validate_planned_source_edit (scope_of consumed) path before after = Ok scope →
  {| relative_path := path; expected := before; intended := after |} ∈ plan
  ∧ scope = scope_of (consume path consumed).
Proof.
  unfold scope_of, validate_planned_source_edit.
  destruct (List.find _ plan) as [file|] eqn:Ef; [|discriminate].
  apply find_some in Ef as [Hin%list_elem_of_In Ep].
  destruct (negb _ || negb _) eqn:Eb; [discriminate|]. intros [= <-]. bools.
  split; [|done]. destruct file as [p e i]. simpl in *. by subst.
Qed.

Lemma publish_planned_stays_torn consumed path before after :
  within_frame (stays_torn plan) (publish_planned_source_edit opens (scope_of consumed) path before after).
Proof.
  unfold publish_planned_source_edit. simpl. apply (frame_bind_lift _). intros scope E.
  apply validate_planned in E as [Hin ->]. apply (frame_bind _); [|intros; apply (frame_ret _)].
  eapply (publish_stays_torn plan Hok _ _ true); [exact Hin|]. apply publish_state_published.
Qed.

Lemma publish_planned_return consumed path before after w w' scope :
  publish_planned_source_edit opens (scope_of consumed) path before after w = (w', Return scope) →
  {| relative_path := path; expected := before; intended := Some after |} ∈ plan
  ∧ scope = scope_of (consume path consumed)
  ∧ rewritten path (Some after) (tree w) (tree w').
Proof.
  unfold publish_planned_source_edit. simpl. intros E.
  apply bind_return in E as (sc & w1 & [E1 ->]%lift_return & E).
  apply validate_planned in E1 as [Hin ->].
  apply bind_return in E as ([] & w2 & E2 & [= <- <-]). split; [done|]. split; [done|].
  destruct (publish_state_published path before (Some after) w) as [_ [[_ Hn]|[_ Hr]]]; rewrite E2 in *;
    [by destruct (Hn tt)|done].
Qed.

(** Rewriting a planned file to its postimage settles it. *)
Lemma settled_rewritten consumed file t t' :
  file ∈ plan → rewritten (relative_path file) (intended file) t t' →
  settled_post consumed t → settled_post (consume (relative_path file) consumed) t'.
Proof.
  intros Hin Hr (Hnd & Hsub & Hp). split; [by apply consume_NoDup|]. split.
  - intros p Hp'%consume_elem. destruct Hp' as [->|?]; [by apply in_plan_paths|auto].
  - intros other Ho Hc. destruct (decide (file = other)) as [<-|Hne]; [by destruct Hr as [-> _]|].
    rewrite (rewritten_other plan Hok file other (intended file) t t') by done. apply Hp; [done|].
    apply consume_elem in Hc as [E|?]; [|done]. destruct Hne. by apply (plan_unique plan).
Qed.

Lemma settled_equiv c c' t :
  NoDup c' → (∀ p, p ∈ c' ↔ p ∈ c) → settled_post c t → settled_post c' t.
Proof.
  intros Hnd Hc (_ & Hsub & Hp). split; [done|]. split; [intros p Hin; by apply Hsub, Hc|].
  intros f Hf Hin. apply Hp; [done|]. by apply Hc.
Qed.

Lemma settled_all consumed t :
  settled_post consumed t → length consumed = length plan → all_post plan t.
Proof.
  intros (Hnd & Hsub & Hp) Hl file Hin. apply Hp; [done|].
  assert (consumed ≡ₚ plan_paths plan) as ->; [|by apply in_plan_paths].
  apply submseteq_length_Permutation; [by apply NoDup_submseteq|].
  unfold plan_paths. rewrite length_fmap. lia.
Qed.

(** What an apply returns: a refusal that touched nothing, or a success that
    settled every file it consumed. *)
Definition applied_well (w w' : World) (scope : PlanScope) (o : SourceEditOutcome) : Prop :=
  (outcome_success o = false ∧ tree w' = tree w)
  ∨ (outcome_success o = true ∧ ∃ consumed, scope = scope_of consumed ∧ settled_post consumed (tree w')).

Lemma settled_none t : settled_post [] t.
Proof. split; [constructor|]. split; [set_solver|]. by intros ? ? ?%elem_of_nil. Qed.

Lemma edit_one_stays_torn q :
  edit_dry_run q = false → within_frame (stays_torn plan) (edit_one opens prims (scope_of []) q).
Proof.
  intros Hd. unfold edit_one. apply (frame_bind_lift _). intros path _.
  apply (frame_bind_known _); [apply reads_stays_torn, reads_open|]. intros w key w' (Hk & _ & _)%open_return.
  apply (frame_bind _); [apply reads_stays_torn, reads_string|]. intros [source i].
  apply (frame_bind_lift _). intros [o|modified o|] _; [apply (frame_ret _)| |apply (frame_panic _)].
  apply (frame_bind _); [|intros; apply (frame_ret _)]. unfold commit_or_preview_edit. rewrite Hd.
  apply (frame_bind_lift _). intros scope [Hin ->]%validate_planned.
  apply (frame_bind _); [|intros; apply (frame_ret _)].
  eapply (publish_stays_torn plan Hok _ _ true); [exact Hin|]. by apply publish_published.
Qed.

Lemma edit_one_applied q w w' scope o :
  honest prims → edit_dry_run q = false →
  edit_one opens prims (scope_of []) q w = (w', Return (scope, o)) → applied_well w w' scope o.
Proof.
  intros Hh Hd E. unfold edit_one in E.
  apply bind_return in E as (path & w1 & [_ ->]%lift_return & E).
  apply bind_return in E as (key & w2 & (Hk & _ & Ht2 & _)%open_return & E).
  apply bind_return in E as ([source i] & w3 & E3 & E).
  pose proof (frame_run _ _ _ _ _ (reads_string key _) E3) as (Ht3 & _ & _).
  apply bind_return in E as (r & w4 & [E4 ->]%lift_return & E). apply (honest_one _ Hh) in E4.
  destruct r as [o'|modified o'|]; [| |discriminate].
  - injection E as <- <- <-. left. split; [done|]. congruence.
  - apply bind_return in E as (sc & w5 & E5 & [= <- <- <-]). right. split; [done|].
    unfold commit_or_preview_edit in E5. rewrite Hd in E5.
    apply bind_return in E5 as (sc' & w6 & [E6 ->]%lift_return & E5).
    apply validate_planned in E6 as [Hin ->].
    apply bind_return in E5 as ([] & w7 & E7 & [= <- <-]).
    exists (consume path []). split; [done|]. simpl in *.
    destruct (publish_published key path (Some source) (Some i) modified Hk w3) as [_ [[_ Hn]|[_ Hr]]];
      rewrite E7 in *; [by destruct (Hn tt)|].
    apply (settled_rewritten [] _ (tree w3) (tree w7) Hin Hr), settled_none.
Qed.

Lemma rename_publish_stays_torn files consumed :
  within_frame (stays_torn plan) (rename_publish opens (scope_of consumed) files).
Proof.
  revert consumed. induction files as [|file files IH]; intros consumed; simpl; [apply (frame_ret _)|].
  destruct (intended file) as [after|]; [|apply (frame_raise _)].
  apply (frame_bind_known _); [apply publish_planned_stays_torn|].
  intros w scope w' (_ & -> & _)%publish_planned_return. apply IH.
Qed.

Lemma rename_publish_return files consumed w w' scope :
  settled_post consumed (tree w) →
  rename_publish opens (scope_of consumed) files w = (w', Return scope) →
  ∃ consumed', scope = scope_of consumed' ∧ settled_post consumed' (tree w').
Proof.
  revert consumed w. induction files as [|file files IH]; intros consumed w Hs E; simpl in E.
  - injection E as <- <-. eauto.
  - destruct (intended file) as [after|] eqn:Ei; [|discriminate].
    apply bind_return in E as (sc & w1 & (Hin & -> & Hr)%publish_planned_return & E).
    eapply IH; [|exact E]. apply (settled_rewritten consumed _ (tree w) (tree w1) Hin Hr Hs).
Qed.

Lemma rename_stays_torn q :
  edit_dry_run q = false → within_frame (stays_torn plan) (rename_symbol opens prims (scope_of []) q).
Proof.
  intros Hd. unfold rename_symbol. apply (frame_bind_lift _). intros paths _.
  apply (frame_bind _); [apply reads_stays_torn, reads_rename|]. intros planned.
  apply (frame_bind_lift _). intros [o|o] _; [apply (frame_ret _)|]. rewrite Hd.
  apply (frame_bind _); [apply rename_publish_stays_torn|intros; apply (frame_ret _)].
Qed.

Lemma rename_applied q w w' scope o :
  honest prims → edit_dry_run q = false →
  rename_symbol opens prims (scope_of []) q w = (w', Return (scope, o)) → applied_well w w' scope o.
Proof.
  intros Hh Hd E. unfold rename_symbol in E.
  apply bind_return in E as (paths & w1 & [_ ->]%lift_return & E).
  apply bind_return in E as (planned & w2 & E2 & E).
  pose proof (frame_run _ _ _ _ _ (reads_rename _ _ _) E2) as (Ht2 & _ & _).
  apply bind_return in E as (r & w3 & [E3 ->]%lift_return & E). apply (honest_rename _ Hh) in E3.
  destruct r as [o'|o'].
  - injection E as <- <- <-. by left.
  - rewrite Hd in E. apply bind_return in E as (sc & w4 & E4 & [= <- <- <-]). right. split; [done|].
    eapply rename_publish_return; [|exact E4]. apply settled_none.
Qed.

(** A directory that holds a kept file is not removed, and neither is any
    above it. *)
Lemma remove_parents_stays_torn file :
  file ∈ plan → expected file = None →
  within_frame (stays_torn plan) (remove_empty_parents (parents (plain_key (relative_path file)))).
Proof.
  intros Hf He w. assert (plain_key (relative_path file) = relative_path file) as ->.
  { destruct Hok as [_ Hn]. unfold plain_key. by rewrite (Hn _ (in_plan_paths _ _ Hf)). }
  pose proof (remove_parents_keeps (parents (relative_path file)) w) as (Hs & Ht).
  split; [done|]. rewrite Ht. split; [done|]. split; [done|]. intros _ Hsh.
  destruct (parents (relative_path file)) as [|d ds] eqn:Ep; [done|].
  destruct (Hsh file d ds Hf He Ep) as (q & Hq & [f Ef] & _).
  assert (¬ empty_directory d w) as Hne by (intros (_ & Hall & _); by apply (Hall q f Ef)).
  simpl. unfold attempt, remove_dir, bind. rewrite bool_decide_eq_false_2 by done. unfold observe.
  pose proof (frame_fates (R:=reads_only) w) as (_ & (_ & Hd) & _).
  destruct (next_fate w) as [[] w1]; exact Hd.
Qed.

Lemma move_apply_stays_torn source_rel dest_rel source dest_original sm dm o :
  within_frame (stays_torn plan)
    (move_apply opens (scope_of []) source_rel dest_rel source dest_original sm dm o).
Proof.
  unfold move_apply. apply (frame_bind_lift _). intros sc1 [Hsrc ->]%validate_planned.
  apply (frame_bind_lift _). intros sc2 [Hdst ->]%validate_planned.
  apply (frame_bind _); [apply reads_stays_torn, reads_unchanged|]. intros _.
  apply (frame_bind _); [apply reads_stays_torn, reads_unchanged|]. intros _.
  apply (frame_bind_known _); [apply publish_planned_stays_torn|].
  intros w sc3 w' (_ & -> & _)%publish_planned_return. apply (frame_bind _).
  - apply (frame_attempt _). apply (frame_bind _); [apply reads_stays_torn, reads_unchanged|]. intros _.
    apply (frame_bind _); [apply reads_stays_torn, reads_unchanged|]. intros _.
    apply publish_planned_stays_torn.
  - intros [sc4|e]; [apply (frame_ret _)|]. apply (frame_bind _).
    + apply (frame_attempt _), rollback_stays_torn; [done|]. intros f Hf.
      apply elem_of_cons in Hf as [->|Hf]; [done|]. by apply list_elem_of_singleton in Hf as ->.
    + intros rollback. apply (frame_bind _); [|intros; apply (frame_raise _)].
      destruct dest_original as [original|]; [apply (frame_ret _)|].
      destruct rollback; [|apply (frame_ret _)]. by apply (remove_parents_stays_torn _ Hdst).
Qed.

Lemma move_stays_torn q :
  edit_dry_run q = false → within_frame (stays_torn plan) (move_symbol opens prims (scope_of []) q).
Proof.
  intros Hd. assert (∀ s d source dest, within_frame (stays_torn plan)
    (move_commit opens prims (scope_of []) q s d source dest)) as Hmain.
  { intros. unfold move_commit. apply (frame_bind_lift _). intros [o|sm dm o] _; [apply (frame_ret _)|].
    rewrite Hd. apply move_apply_stays_torn. }
  unfold move_symbol. apply (frame_bind_lift _). intros [refusal|[source_rel dest_rel]] _;
    [apply (frame_ret _)|]. case_bool_decide; [apply (frame_ret _)|].
  apply (frame_bind _); [apply reads_stays_torn, reads_fs|]. intros source_bytes.
  destruct (source_bytes ≫= utf8_decode) as [source|]; [|apply (frame_raise _)].
  apply (frame_bind_lift _). intros [refusal|] _; [apply (frame_ret _)|]. cbv zeta.
  apply (frame_bind _); [apply (frame_attempt _), reads_stays_torn, reads_fs|].
  intros [[b|]|]; [|apply Hmain|apply (frame_ret _)].
  destruct (utf8_decode b) as [dest|]; [apply Hmain|apply (frame_ret _)].
Qed.

Lemma move_apply_return source_rel dest_rel source dest_original sm dm o w w' scope o' :
  dest_rel ≠ source_rel →
  move_apply opens (scope_of []) source_rel dest_rel source dest_original sm dm o w = (w', Return (scope, o')) →
  o' = o ∧ ∃ consumed, scope = scope_of consumed ∧ settled_post consumed (tree w').
Proof.
  intros Hne E. unfold move_apply in E.
  apply bind_return in E as (sc1 & w1 & [E1 ->]%lift_return & E). apply validate_planned in E1 as [_ ->].
  apply bind_return in E as (sc2 & w2 & [E2 ->]%lift_return & E). apply validate_planned in E2 as [_ ->].
  apply bind_return in E as (? & w3 & E3 & E).
  apply bind_return in E as (? & w4 & E4 & E).
  apply bind_return in E as (sc5 & w5 & (Hd & -> & Hrd)%publish_planned_return & E).
  apply bind_return in E as (r & w6 & E6%attempt_return & E). destruct r as [sc|e].
  2:{ apply bind_return in E as (? & ? & _ & E). by apply bind_return in E as (? & ? & _ & [=]). }
  injection E as <- <- <-. split; [done|].
  apply bind_return in E6 as (? & w7 & E7 & E6). apply bind_return in E6 as (? & w8 & E8 & E6).
  pose proof (frame_run _ _ _ _ _ (reads_unchanged _ _) E7) as (Ht7 & _ & _).
  pose proof (frame_run _ _ _ _ _ (reads_unchanged _ _) E8) as (Ht8 & _ & _).
  apply publish_planned_return in E6 as (Hs & -> & Hrs). eexists. split; [done|].
  rewrite Ht8, Ht7 in Hrs.
  pose proof (settled_rewritten [] _ _ _ Hd Hrd (settled_none _)) as Hset.
  pose proof (settled_rewritten _ _ _ _ Hs Hrs Hset) as Hset2. simpl in Hset2.
  eapply settled_equiv; [| |exact Hset2].
  - repeat apply consume_NoDup. constructor.
  - intros p. rewrite !consume_elem. naive_solver.
Qed.

Lemma move_applied q w w' scope o :
  honest prims → edit_dry_run q = false →
  move_symbol opens prims (scope_of []) q w = (w', Return (scope, o)) → applied_well w w' scope o.
Proof.
  intros Hh Hd E. unfold move_symbol in E.
  apply bind_return in E as (targets & w1 & [E1 ->]%lift_return & E).
  destruct targets as [refusal|[source_rel dest_rel]].
  { injection E as <- <- <-. left. split; [by eapply honest_targets|done]. }
  case_bool_decide as Hne; [injection E as <- <- <-; by left|].
  apply bind_return in E as (sb & w2 & E2 & E).
  pose proof (frame_run _ _ _ _ _ (reads_fs _) E2) as (Ht2 & _ & _).
  destruct (sb ≫= utf8_decode) as [source|]; [|discriminate].
  apply bind_return in E as (refusal & w2' & [Ec ->]%lift_return & E). destruct refusal as [refusal|].
  { injection E as <- <- <-. left. split; [by eapply honest_check|done]. }
  apply bind_return in E as (db & w3 & E3 & E).
  pose proof (frame_run _ _ _ _ _ (frame_attempt _ _ (reads_fs _)) E3) as (Ht3 & _ & _).
  assert (∀ dest, move_commit opens prims (scope_of []) q source_rel dest_rel source dest w3
    = (w', Return (scope, o)) → applied_well w w' scope o) as Hmain.
  { clear E. intros dest E. unfold move_commit in E.
    apply bind_return in E as (r & w4 & [E4 ->]%lift_return & E). apply (honest_move _ Hh) in E4.
    destruct r as [o'|sm dm o']; [injection E as <- <- <-; left; split; [done|congruence]|].
    rewrite Hd in E. apply move_apply_return in E as [-> Hset]; [|done]. by right. }
  assert ((w3, Return (scope_of [], move_refused source_rel dest_rel (str "failed to read destination " ++ dest_rel)))
    = (w', Return (scope, o)) → applied_well w w' scope o) as Hrefused.
  { intros [= <- <- <-]. left. split; [done|congruence]. }
  destruct db as [[b|]|]; [|by eapply Hmain|exact (Hrefused E)].
  destruct (utf8_decode b); [by eapply Hmain|exact (Hrefused E)].
Qed.

(** The primitives under an apply. *)
Lemma run_stays_torn q :
  edit_dry_run q = false → within_frame (stays_torn plan) (run_source_edit opens prims (scope_of []) q).
Proof.
  intros Hd. unfold run_source_edit. destruct q; simpl in Hd;
    solve [by apply edit_one_stays_torn|by apply move_stays_torn|by apply rename_stays_torn].
Qed.

Lemma run_applied q w w' scope o :
  honest prims → edit_dry_run q = false →
  run_source_edit opens prims (scope_of []) q w = (w', Return (scope, o)) → applied_well w w' scope o.
Proof.
  intros Hh Hd E. unfold run_source_edit in E. destruct q;
    solve [exact (edit_one_applied _ _ _ _ _ Hh Hd E)|exact (move_applied _ _ _ _ _ Hh Hd E)
          |exact (rename_applied _ _ _ _ _ Hh Hd E)].
Qed.

Lemma apply_plan_stays_torn q :
  edit_dry_run q = false → within_frame (stays_torn plan) (apply_source_edit_plan opens prims plan q).
Proof.
  intros Hd. apply (frame_bind _); [by apply run_stays_torn|]. intros [scope o]. apply (frame_ret _).
Qed.

(** A success that consumed the whole plan published all of it. *)
Lemma apply_plan_return q w w' o complete :
  honest prims → edit_dry_run q = false →
  apply_source_edit_plan opens prims plan q w = (w', Return (o, complete)) →
  (outcome_success o = false ∧ tree w' = tree w)
  ∨ (outcome_success o = true ∧ (complete = true → all_post plan (tree w'))).
Proof.
  intros Hh Hd E. apply bind_return in E as ([scope o'] & w1 & E1 & [= <- <- <-]).
  apply run_applied in E1 as [?|(Hs & consumed & -> & Hset)]; [by left| |done..].
  right. split; [done|]. intros Hl%Nat.eqb_eq. by eapply settled_all.
Qed.
End apply.

(** *** Under a capture *)
Section capture.
Context (prims : Primitives).

(** The captured files whose path names a file hold what was captured. *)
Definition captured_from (t : gmap rstr File) (captured : list PlannedSourceEditFile) : Prop :=
  ∀ file, file ∈ captured → normalize_source_edit_relative_path (relative_path file) ≠ None →
    contents t (relative_path file) = text_bytes (expected file).

Definition captures (t : gmap rstr File) (scope : PlanScope) : Prop :=
  ∃ captured, scope = Capturing captured ∧ captured_from t captured.

Lemma captures_snoc t scope path before after :
  captures t scope →
  (normalize_source_edit_relative_path path ≠ None → contents t path = text_bytes before) →
  captures t (fst (capture_planned_source_edit scope path before after)).
Proof.
  intros (captured & -> & Hc) Hp. eexists. split; [done|].
  intros f [Hf|Hf]%elem_of_app Hn; [by apply Hc|]. apply list_elem_of_singleton in Hf as ->. by apply Hp.
Qed.

Lemma read_string_return key label w w' source i :
  read_to_string key label w = (w', Return (source, i)) →
  content <$> tree w !! key = text_bytes (Some source) ∧ tree w' = tree w.
Proof.
  intros E. pose proof (frame_run _ _ _ _ _ (reads_string key label) E) as (Ht & _ & _).
  unfold read_to_string in E. apply bind_return in E as (file & w1 & E1 & E).
  apply observe_return in E1 as [-> (Ht1 & _)]. rewrite Ht1 in E.
  destruct (tree w !! key) as [file|]; [|discriminate].
  destruct (utf8_decode (content file)) as [s'|] eqn:Ed; [|discriminate]. injection E as _ <- _.
  apply utf8_decode_sound in Ed as [Ed _]. simpl. by rewrite Ed.
Qed.

Lemma fs_read_return path w w' v :
  fs_read path w = (w', Return v) →
  (normalize_source_edit_relative_path path ≠ None → contents (tree w) path = v) ∧ tree w' = tree w.
Proof.
  intros E. apply observe_return in E as [-> (Ht & _)]. split; [|done]. rewrite Ht. intros Hn.
  unfold contents, plain_key. by destruct (normalize_source_edit_relative_path path).
Qed.

Lemma edit_one_captures scope q w w' scope' o :
  edit_dry_run q = true → captures (tree w) scope →
  edit_one opens prims scope q w = (w', Return (scope', o)) → captures (tree w) scope'.
Proof.
  intros Hd Hc E. unfold edit_one in E.
  apply bind_return in E as (path & w1 & [_ ->]%lift_return & E).
  apply bind_return in E as (key & w2 & (Hk & _ & Ht2 & _)%open_return & E).
  apply bind_return in E as ([source i] & w3 & [Hr _]%read_string_return & E).
  apply bind_return in E as (r & w4 & [_ ->]%lift_return & E).
  destruct r as [o'|modified o'|]; [by injection E as _ <- _| |discriminate].
  apply bind_return in E as (sc & w5 & E5 & [= _ <- _]).
  unfold commit_or_preview_edit in E5. rewrite Hd in E5. injection E5 as _ <-.
  apply captures_snoc; [done|]. intros _. unfold contents. by rewrite Hk, <- Ht2.
Qed.

Lemma move_captures scope q w w' scope' o :
  edit_dry_run q = true → captures (tree w) scope →
  move_symbol opens prims scope q w = (w', Return (scope', o)) → captures (tree w) scope'.
Proof.
  intros Hd Hc E. unfold move_symbol in E.
  apply bind_return in E as (targets & w1 & [_ ->]%lift_return & E).
  destruct targets as [refusal|[source_rel dest_rel]]; [by injection E as _ <- _|].
  case_bool_decide; [by injection E as _ <- _|].
  apply bind_return in E as (sb & w2 & [Hs Ht2]%fs_read_return & E).
  destruct sb as [b|]; simpl in *; [|discriminate].
  destruct (utf8_decode b) as [source|] eqn:Eb; [|discriminate]. apply utf8_decode_sound in Eb as [Eb _].
  apply bind_return in E as (refusal & w2' & [_ ->]%lift_return & E).
  destruct refusal as [refusal|]; [by injection E as _ <- _|].
  apply bind_return in E as (db & w3 & E3%attempt_return & E).
  destruct db as [db|]; [|by injection E as _ <- _].
  apply fs_read_return in E3 as [Hdst Ht3]. rewrite Ht2 in Hdst.
  assert (∀ dest, db = text_bytes dest →
    move_commit opens prims scope q source_rel dest_rel source dest w3 = (w', Return (scope', o)) →
    captures (tree w) scope') as Hmain.
  { clear E. intros dest Hdb E. unfold move_commit in E.
    apply bind_return in E as (r & w4 & [_ ->]%lift_return & E).
    destruct r as [o'|sm dm o']; [by injection E as _ <- _|]. rewrite Hd in E. injection E as _ <- _.
    apply captures_snoc; [apply captures_snoc; [done|]|].
    - intros Hn. by rewrite (Hs Hn), <- Eb.
    - intros Hn. by rewrite (Hdst Hn). }
  destruct db as [b'|]; [|by apply (Hmain None)].
  destruct (utf8_decode b') as [dest|] eqn:Eb'; [|by injection E as _ <- _].
  apply (Hmain (Some dest)); [|done]. apply utf8_decode_sound in Eb' as [<- _]. done.
Qed.

Lemma rename_read_captures q paths w w' planned :
  rename_read opens prims q paths w = (w', Return planned) → captured_from (tree w) planned.
Proof.
  revert w w' planned. induction paths as [|path paths IH]; intros w w' planned E; simpl in E.
  - injection E as _ <-. by intros ? ?%elem_of_nil.
  - apply bind_return in E as (key & w1 & (Hk & _ & Ht1 & _)%open_return & E).
    apply bind_return in E as ([source i] & w2 & [Hr Ht2]%read_string_return & E).
    apply bind_return in E as (modified & w3 & [_ ->]%lift_return & E).
    apply bind_return in E as (rest & w4 & E4%IH & E). rewrite Ht2, Ht1 in E4.
    destruct modified as [modified|]; injection E as _ <-; [|done].
    intros f [->|Hf]%elem_of_cons Hn; [|by apply E4]. simpl. unfold contents. by rewrite Hk, <- Ht1.
Qed.

Lemma capture_all_captures t scope planned :
  captures t scope → captured_from t planned → captures t (capture_all scope planned).
Proof.
  revert scope. induction planned as [|f planned IH]; intros scope Hc Hp; [done|].
  apply IH; [apply captures_snoc; [done|]; apply Hp; left|]. intros g Hg. apply Hp. by right.
Qed.

Lemma rename_publish_captures t captured files w w' scope :
  captured_from t captured → captured_from t files →
  rename_publish opens (Capturing captured) files w = (w', Return scope) → captures t scope.
Proof.
  revert captured. induction files as [|f files IH]; intros captured Hc Hf E; simpl in E.
  - injection E as _ <-. by exists captured.
  - destruct (intended f) as [after|]; [|discriminate].
    apply (IH (captured ++ [{| relative_path := relative_path f; expected := expected f;
      intended := Some after |}])); [| |exact E].
    + intros g [Hg|Hg]%elem_of_app Hn; [by apply Hc|]. apply list_elem_of_singleton in Hg as ->.
      apply (Hf f); [left|done].
    + intros g Hg. apply Hf. by right.
Qed.

Lemma rename_captures captured q w w' scope' o :
  captured_from (tree w) captured →
  rename_symbol opens prims (Capturing captured) q w = (w', Return (scope', o)) → captures (tree w) scope'.
Proof.
  intros Hc E. assert (captures (tree w) (Capturing captured)) as Hc' by by exists captured.
  unfold rename_symbol in E.
  apply bind_return in E as (paths & w1 & [_ ->]%lift_return & E).
  apply bind_return in E as (planned & w2 & E2%rename_read_captures & E).
  apply bind_return in E as (r & w3 & [_ ->]%lift_return & E).
  destruct r as [o'|o']; [by injection E as _ <- _|].
  set (sorted := sort_by _ planned) in E.
  assert (captured_from (tree w) sorted) as Hs.
  { intros f Hf. apply E2. unfold sorted in Hf. by rewrite sort_by_perm in Hf. }
  destruct (edit_dry_run q); [injection E as _ <- _; by apply capture_all_captures|].
  apply bind_return in E as (sc & w4 & E4 & [= _ <- _]). exact (rename_publish_captures _ _ _ _ _ _ Hc Hs E4).
Qed.

(** A capture reads only. *)
Lemma rename_publish_reads captured files :
  within_frame reads_only (rename_publish opens (Capturing captured) files).
Proof.
  revert captured. induction files as [|f files IH]; intros captured; simpl; [apply (frame_ret _)|].
  destruct (intended f); [|apply (frame_raise _)]. apply IH.
Qed.

Lemma capture_reads captured q :
  (edit_dry_run q = true ∨ edit_kind q = KRenameSymbol) →
  within_frame reads_only (run_source_edit opens prims (Capturing captured) q).
Proof.
  intros Hq.
  assert (edit_dry_run q = true → within_frame reads_only (edit_one opens prims (Capturing captured) q)) as H1'.
  { intros Hd. unfold edit_one, commit_or_preview_edit. rewrite Hd. frames. }
  assert (edit_dry_run q = true → within_frame reads_only (move_symbol opens prims (Capturing captured) q)) as H2'.
  { intros Hd. unfold move_symbol, move_commit. rewrite Hd. frames; apply reads_fs. }
  assert (within_frame reads_only (rename_symbol opens prims (Capturing captured) q)) as H3'.
  { unfold rename_symbol. frames; first [apply reads_rename|apply rename_publish_reads]. }
  unfold run_source_edit. destruct q; try done; destruct Hq as [Hq|Hq];
    first [discriminate|by apply H1'|by apply H2'].
Qed.

Lemma run_captures q w w' scope o :
  (edit_dry_run q = true ∨ edit_kind q = KRenameSymbol) →
  run_source_edit opens prims (Capturing []) q w = (w', Return (scope, o)) → captures (tree w) scope.
Proof.
  intros Hq E. assert (captured_from (tree w) []) as Hn by by intros ? ?%elem_of_nil.
  assert (captures (tree w) (Capturing [])) as Hc by by eexists.
  unfold run_source_edit in E. destruct q; try (by eapply rename_captures);
    destruct Hq as [Hq|Hq]; try discriminate;
    solve [exact (edit_one_captures _ _ _ _ _ _ Hq Hc E)|exact (move_captures _ _ _ _ _ _ Hq Hc E)].
Qed.
End capture.

Lemma capture_edit_captures q : edit_dry_run (capture_edit q) = true ∨ edit_kind (capture_edit q) = KRenameSymbol.
Proof. destruct q as [| | | | | | |b n [] v]; simpl; auto. Qed.

Lemma capture_plan_return prims q w w' o planned :
  capture_source_edit_plan opens prims (capture_edit q) w = (w', Return (o, planned)) →
  captured_from (tree w) planned.
Proof.
  intros E. apply bind_return in E as ([scope o'] & w1 & E1 & [= _ _ <-]).
  apply run_captures in E1 as (captured & -> & Hc); [done|apply capture_edit_captures].
Qed.

Lemma capture_plan_reads prims q :
  within_frame reads_only (capture_source_edit_plan opens prims (capture_edit q)).
Proof.
  apply (frame_bind _); [apply capture_reads, capture_edit_captures|]. intros [scope o]. apply (frame_ret _).
Qed.
End publish.
