(* ===== verification/EditText.v ===== *)
(** * Source edits: the text of the single-file primitives

    [edits/primitives.rs], [edits/ast_grep.rs] and [edits/symbols.rs] of
    [tracedecay-source-edit/src]: what [str_replace], [multi_str_replace],
    [insert_at], [ast_grep_rewrite], [replace_symbol] and [insert_at_symbol] make
    of the text of a file.  The symbol resolved in the code graph, the ast-grep
    rewrite and Rust's debug form of a string are parameters.

    A position in a text counts its scalar values; where the code counts bytes
    between character boundaries, both name the same place.  The diff and the
    matched text that a result only shows are left out. *)
From stdpp Require Import base numbers strings list sorting.
From S2P Require Import HygieneReceipt.
From S2P Require Import Prelude RustText Bytes PolicyRouting EditContract EditRecords EditFiles EditPlan EditVerify.
From S2P Require Import EditLogic EditPublish.

#[local] Open Scope Z_scope.
#[local] Open Scope rust_scope.

(** ** Strings *)
Definition newline : Z := 10.
Definition carriage_return : Z := 13.

(** [str::match_indices]: matches from left to right that do not overlap; the
    empty pattern matches at every boundary. *)
Fixpoint match_indices_from (old : rstr) (skip index : nat) (s : rstr) : list nat :=
  match s with
  | [] => if is_empty old && (skip =? 0)%nat then [index] else []
  | _ :: rest =>
    match skip with
    | S skip => match_indices_from old skip (S index) rest
    | O =>
      if starts_with old s then index :: match_indices_from old (pred (length old)) (S index) rest
      else match_indices_from old 0 (S index) rest
    end
  end.
Definition match_indices (source old : rstr) : list nat := match_indices_from old 0 0 source.

(** [replacen(old, new, 1)]. *)
Definition replacen_once (source old new : rstr) : rstr :=
  match match_indices source old with
  | index :: _ => take index source ++ new ++ drop (index + length old) source
  | [] => source
  end.

Definition strip_carriage_return (line : rstr) : rstr :=
  match reverse line with
  | c :: rest => if c =? carriage_return then reverse rest else line
  | [] => line
  end.

(** [str::lines]: a line that ends in a newline loses it and a carriage return
    before it; the text after the last newline is a line unless it is empty. *)
Fixpoint close_lines (parts : list rstr) : list rstr :=
  match parts with
  | [] => []
  | [last] => if is_empty last then [] else [last]
  | part :: parts => strip_carriage_return part :: close_lines parts
  end.
Definition lines (source : rstr) : list rstr := close_lines (split_on newline source).

Fixpoint join_lines (ls : list rstr) : rstr :=
  match ls with
  | [] => []
  | [l] => l
  | l :: ls => l ++ newline :: join_lines ls
  end.

Definition splice_lines (ls : list rstr) (source_had_trailing_newline : bool) : rstr :=
  let joined := join_lines ls in
  if source_had_trailing_newline && negb (is_empty joined) then joined ++ [newline] else joined.

Definition ends_with_newline (source : rstr) : bool :=
  match last source with Some c => c =? newline | None => false end.

(** [strip_suffix] and [trim_end_matches] of a newline. *)
Definition strip_newline (content : rstr) : rstr :=
  match reverse content with
  | c :: rest => if c =? newline then reverse rest else content
  | [] => content
  end.
Fixpoint drop_newlines (s : rstr) : rstr :=
  match s with c :: rest => if c =? newline then drop_newlines rest else s | [] => [] end.
Definition trim_end_newlines (content : rstr) : rstr := reverse (drop_newlines (reverse content)).

(** [utf8_prefix_at_or_before]. *)
Fixpoint utf8_prefix_at_or_before (s : rstr) (max_bytes : Z) : rstr :=
  match s with
  | [] => []
  | c :: rest =>
    let left := max_bytes - str_len [c] in
    if left <? 0 then [] else c :: utf8_prefix_at_or_before rest left
  end.

(** [usize::to_string]. *)
Definition count_text (n : nat) : rstr := decimal_digits 20 (Z.of_nat n).

Definition edit_success_message (dry_run : bool) (base : rstr) : rstr :=
  if dry_run then str "dry run. Nothing written; preview only (" ++ base ++ str ")" else base.

(** ** Paths *)

(** [require_project_path]: an absolute path loses the project root, component
    by component. *)
Fixpoint strip_components (root parts : list rstr) : option (list rstr) :=
  match root, parts with
  | [], _ => Some parts
  | r :: root, p :: parts => if bool_decide (r = p) then strip_components root parts else None
  | _ :: _, [] => None
  end.

Definition replace_backslashes (s : rstr) : rstr := (λ c, if c =? 92 then slash else c) <$> s.

Definition require_project_path (project_root path : rstr) : edit rstr :=
  let relative :=
    if is_absolute path
    then join <$> strip_components (normal_components project_root) (normal_components path)
    else Some path in
  match relative ≫= normalize_source_edit_relative_path with
  | Some normal => Ok (replace_backslashes normal)
  | None => Err (config_error "path is not within the project")
  end.

(** ** edits/primitives.rs *)
Definition refused_edit (path message : rstr) : Rewrite :=
  RefuseEdit (OEdit {| e_success := false; e_file_path := path; e_message := message |}).

Definition str_replace (rel_path path old_str new_str source : rstr) (dry_run : bool) : Rewrite :=
  match match_indices source old_str with
  | [] => refused_edit rel_path (str "old_str not found in " ++ path)
  | [_] =>
    RewriteTo (replacen_once source old_str new_str)
      (OEdit {| e_success := true; e_file_path := rel_path;
                e_message := edit_success_message dry_run (str "replacement successful") |})
  | matches =>
    refused_edit rel_path (str "old_str matches " ++ count_text (length matches)
                             ++ str " times, must match exactly once")
  end.

Definition refused_multi_edit (file_path message : rstr) : Rewrite :=
  RefuseEdit (OMultiEdit {| m_success := false; m_file_path := file_path; m_applied_count := 0;
                            m_message := message |}).

Record Span : Type := { sp_start : nat; sp_end : nat; sp_old : rstr; sp_new : rstr }.

Fixpoint resolve_spans (source : rstr) (replacements : list (rstr * rstr)) : result (list Span) rstr :=
  match replacements with
  | [] => Ok []
  | (old, new) :: replacements =>
    let refused n := Err (str "replacement '" ++ utf8_prefix_at_or_before old 20 ++ str "' matches "
                            ++ count_text n ++ str " times, must match exactly once") in
    match match_indices source old with
    | [start] =>
      let? rest := resolve_spans source replacements in
      Ok ({| sp_start := start; sp_end := (start + length old)%nat; sp_old := old; sp_new := new |} :: rest)
    | matches => refused (length matches)
    end
  end.

(** The first pair of neighbours that overlap. *)
Fixpoint overlapping (spans : list Span) : option (Span * Span) :=
  match spans with
  | a :: ((b :: _) as rest) => if (sp_start b <? sp_end a)%nat then Some (a, b) else overlapping rest
  | _ => None
  end.

Fixpoint splice_spans (source : rstr) (cursor : nat) (spans : list Span) : rstr :=
  match spans with
  | [] => drop cursor source
  | span :: spans => slice cursor (sp_start span) source ++ sp_new span ++ splice_spans source (sp_end span) spans
  end.

Definition span_leb (a b : Span) : bool := (sp_start a <=? sp_start b)%nat.

Definition multi_str_replace (rel_path : rstr) (replacements : list (rstr * rstr)) (source : rstr)
    (dry_run : bool) : Rewrite :=
  match resolve_spans source replacements with
  | Err message => refused_multi_edit rel_path message
  | Ok spans =>
    let spans := sort_by span_leb spans in
    match overlapping spans with
    | Some (a, b) =>
      refused_multi_edit rel_path (str "replacements '" ++ utf8_prefix_at_or_before (sp_old a) 20 ++ str "' and '"
        ++ utf8_prefix_at_or_before (sp_old b) 20 ++ str "' target overlapping ranges; apply them separately")
    | None =>
      RewriteTo (splice_spans source 0 spans)
        (OMultiEdit {| m_success := true; m_file_path := rel_path; m_applied_count := zlen replacements;
           m_message := edit_success_message dry_run
             (str "applied " ++ count_text (length replacements) ++ str " replacements") |})
    end
  end.

Definition is_digit (c : Z) : bool := within 48 57 c.

(** [anchor.parse::<usize>()] of digits: the empty string and what does not fit
    are errors. *)
Definition parse_line_number (anchor : rstr) : option Z :=
  let value := foldl (λ acc c, acc * 10 + (c - 48)) 0 anchor in
  if is_empty anchor || (2 ^ 64 <=? value) then None else Some value.

Definition as_u32 (n : Z) : Z := n mod 2 ^ 32.

Definition refused_insert (rel_path : rstr) (anchor_line : Z) (before : bool) (message : rstr) : Rewrite :=
  RefuseEdit (OInsert {| i_success := false; i_file_path := rel_path; i_anchor_line := as_u32 anchor_line;
                         i_before := before; i_message := message |}).

(** The lines, from the first on, that contain the anchor. *)
Fixpoint matching_lines (anchor : rstr) (index : nat) (ls : list rstr) : list nat :=
  match ls with
  | [] => []
  | l :: ls =>
    if contains anchor l then index :: matching_lines anchor (S index) ls
    else matching_lines anchor (S index) ls
  end.

(** The line an anchor names, or the refusal. *)
Definition anchor_line (rel_path anchor : rstr) (before : bool) (ls : list rstr) : edit (Rewrite + nat) :=
  if forallb is_digit anchor then
    match parse_line_number anchor with
    | None => Err (Config (str "invalid line number: " ++ anchor))
    | Some n =>
      if (n =? 0) || (zlen ls <? n) then
        Ok (inl (refused_insert rel_path n before (str "line number " ++ decimal_digits 20 n
          ++ str " out of range (file has " ++ count_text (length ls) ++ str " lines)")))
      else Ok (inr (Z.to_nat (n - 1)))
    end
  else
    match matching_lines (utf8_prefix_at_or_before anchor 100) 0 ls with
    | [] => Ok (inl (refused_insert rel_path 0 before (str "anchor '" ++ anchor ++ str "' not found")))
    | [line] => Ok (inr line)
    | matches =>
      Ok (inl (refused_insert rel_path (zlen matches) before (str "anchor '" ++ anchor ++ str "' matches "
        ++ count_text (length matches) ++ str " lines, must match exactly one")))
    end.

(** [content] as one more line before the line [index]. *)
Definition insert_line (source content : rstr) (index : nat) : rstr :=
  let ls := lines source in
  splice_lines (take index ls ++ [content] ++ drop index ls) (ends_with_newline source).

Definition insert_at (rel_path anchor content source : rstr) (before dry_run : bool) : edit Rewrite :=
  let? line := anchor_line rel_path anchor before (lines source) in
  match line with
  | inl refusal => Ok refusal
  | inr line =>
    let insert_idx := if before then line else S line in
    Ok (RewriteTo (insert_line source (strip_newline content) insert_idx)
      (OInsert {| i_success := true; i_file_path := rel_path; i_anchor_line := as_u32 (Z.of_nat line + 1);
         i_before := before; i_message := edit_success_message dry_run
           (str "inserted at line " ++ count_text (S line)) |}))
  end.

(** ** edits/symbols.rs: the lines of a symbol *)

(** A resolved symbol, with the kind as it is printed. *)
Record EditSymbolV1 : Type := {
  y_kind : rstr;
  y_name : rstr;
  y_file_path : rstr;
  y_start_byte : Z;
  y_end_byte : Z;
  y_start_line : Z;
  y_line_span : Z;
}.

Definition symbol_evidence_unavailable (detail : string) : EditError :=
  RouteError (str "source-edit-symbol-evidence-unavailable") (str detail).

Definition count_newlines (b : bytes) : nat := length (List.filter (λ c, c =? newline) b).

Definition is_blank (line : rstr) : bool := is_empty (trim line).

(** The docs and attributes right above the declaration, down to the first
    line of the span. *)
Fixpoint attached_start (ls : list rstr) (start_line edit_start : nat) : nat :=
  match edit_start with
  | O => O
  | S above =>
    if (start_line <? edit_start)%nat && match ls !! above with Some line => negb (is_blank line) | None => false end
    then attached_start ls start_line above
    else edit_start
  end.

(** The text of the first bytes, when they end between two characters. *)
Definition text_prefix (source : rstr) (n : Z) : option rstr := utf8_decode (take (Z.to_nat n) (utf8_encode source)).

(** [None] where the slice that ends one byte before the span does panics: the
    last character of the span has more than one byte. *)
Definition line_bounds (self : EditSymbolV1) (source : rstr) : edit (option (nat * nat)) :=
  let b := utf8_encode source in
  if (y_end_byte self <=? y_start_byte self) || (zlen b <? y_end_byte self) then
    Err (symbol_evidence_unavailable "symbol source span is not an exact UTF-8 range")
  else
    match text_prefix source (y_start_byte self), text_prefix source (y_end_byte self) with
    | Some before, Some through =>
      match text_prefix source (y_end_byte self - 1) with
      | None => Ok None
      | Some but_last =>
      let start_line := count_newlines (utf8_encode before) in
      let end_inclusive := count_newlines (utf8_encode but_last) in
      if y_line_span self =? 0 then
        Err (symbol_evidence_unavailable "symbol line span is not a positive line count")
      else
        let attested_start := Z.to_nat (y_start_line self) in
        let attested_end := (attested_start + Z.to_nat (y_line_span self - 1))%nat in
        if (attested_start <? start_line)%nat || (end_inclusive <? attested_end)%nat
           || negb (forallb is_blank (drop (S attested_end) (lines through))) then
          Err (symbol_evidence_unavailable
            "symbol source span disagrees with its extraction-attested line bounds")
        else Ok (Some (attached_start (lines source) start_line attested_start, attested_end))
      end
    | _, _ => Err (symbol_evidence_unavailable "symbol source span is not an exact UTF-8 range")
    end.

(** ** The single-file primitives *)
Record TextPorts : Type := {
  project_root : rstr;
  resolve_symbol_for_edit : rstr → edit EditSymbolV1;
  rewrite_source : rstr → rstr → rstr → rstr → result (option rstr) rstr;
  debug_text : rstr → rstr;
}.

Section text.
Context (ports : TextPorts).

Definition replace_symbol (target : EditSymbolV1) (new_source source : rstr) (dry_run : bool) : edit Rewrite :=
  let ls := lines source in
  let rel_path := y_file_path target in
  let? bounds := line_bounds target source in
  match bounds with
  | None => Ok RewritePanics
  | Some (start, end_inclusive) =>
  if (length ls <=? start)%nat || (end_inclusive <? start)%nat then
    Ok (refused_edit rel_path (str "symbol range [" ++ count_text start ++ str "..=" ++ count_text end_inclusive
      ++ str "] out of bounds for " ++ count_text (length ls) ++ str "-line file"))
  else
    Ok (RewriteTo
      (splice_lines (take start ls ++ [trim_end_newlines new_source] ++ drop (S end_inclusive) ls)
         (ends_with_newline source))
      (OEdit {| e_success := true; e_file_path := rel_path; e_message := edit_success_message dry_run
         (str "replaced " ++ rel_path ++ str ":" ++ count_text (S start) ++ str "-" ++ count_text (S end_inclusive)) |}))
  end.

Definition insert_at_symbol (target : EditSymbolV1) (content position source : rstr) (before dry_run : bool) :
    edit Rewrite :=
  let ls := lines source in
  let rel_path := y_file_path target in
  let? bounds := line_bounds target source in
  match bounds with
  | None => Ok RewritePanics
  | Some bounds =>
  let anchor_line := if before then fst bounds else S (snd bounds) in
  if (length ls <? anchor_line)%nat then
    Ok (refused_insert rel_path (Z.of_nat anchor_line) before
      (str "anchor line " ++ count_text anchor_line ++ str " past EOF (" ++ count_text (length ls) ++ str ")"))
  else
    Ok (RewriteTo (insert_line source (trim_end_newlines content) anchor_line)
      (OInsert {| i_success := true; i_file_path := rel_path; i_anchor_line := as_u32 (Z.of_nat anchor_line + 1);
         i_before := before; i_message := edit_success_message dry_run
           (str "inserted " ++ position ++ str " " ++ y_name target ++ str " (" ++ y_kind target ++ str ") at line "
              ++ count_text (S anchor_line)) |}))
  end.

Definition ast_grep_rewrite (rel_path pattern rewrite source : rstr) (dry_run : bool) : Rewrite :=
  let refused message :=
    RefuseEdit (OAstGrep {| g_success := false; g_file_path := rel_path; g_message := message |}) in
  match rewrite_source ports rel_path source pattern rewrite with
  | Ok (Some modified) =>
    RewriteTo modified (OAstGrep {| g_success := true; g_file_path := rel_path;
      g_message := edit_success_message dry_run (str "ast-grep rewrite completed") |})
  | Ok None => refused (str "pattern " ++ debug_text ports pattern ++ str " matched no syntax nodes in " ++ rel_path)
  | Err message => refused message
  end.

Definition quoted (s : string) : rstr := [34] ++ str s ++ [34].

(** [position]: before or after. *)
Definition parse_position (position : rstr) : edit bool :=
  if bool_decide (position = str "before") then Ok true
  else if bool_decide (position = str "after") then Ok false
  else Err (Config (str "position must be " ++ quoted "before" ++ str " or " ++ quoted "after" ++ str ", got "
                       ++ debug_text ports position)).

(** What the primitive of a request opens, and what it makes of the text; a
    move and a rename are no single-file primitives. *)
Definition text_target (request : SourceEditRequest) : edit rstr :=
  match request with
  | StrReplace path _ _ _ _ | MultiStrReplace path _ _ _ | InsertAt path _ _ _ _ _
  | AstGrepRewrite path _ _ _ _ => require_project_path (project_root ports) path
  | ReplaceSymbol symbol _ _ _ =>
    let? target := resolve_symbol_for_edit ports symbol in Ok (y_file_path target)
  | InsertAtSymbol symbol _ position _ _ =>
    let? _ := parse_position position in
    let? target := resolve_symbol_for_edit ports symbol in Ok (y_file_path target)
  | MoveSymbol _ _ _ _ | RenameSymbol _ _ _ _ => Err (config_error "not a single-file edit")
  end.

Definition text_rewrite (request : SourceEditRequest) (rel_path source : rstr) : edit Rewrite :=
  match request with
  | StrReplace path old_str new_str dry_run _ =>
    Ok (str_replace rel_path path old_str new_str source dry_run)
  | MultiStrReplace _ replacements dry_run _ => Ok (multi_str_replace rel_path replacements source dry_run)
  | InsertAt _ anchor content before dry_run _ => insert_at rel_path anchor content source before dry_run
  | AstGrepRewrite _ pattern rewrite dry_run _ => Ok (ast_grep_rewrite rel_path pattern rewrite source dry_run)
  | ReplaceSymbol symbol new_source dry_run _ =>
    let? target := resolve_symbol_for_edit ports symbol in replace_symbol target new_source source dry_run
  | InsertAtSymbol symbol content position dry_run _ =>
    let? before := parse_position position in
    let? target := resolve_symbol_for_edit ports symbol in
    insert_at_symbol target content position source before dry_run
  | MoveSymbol _ _ _ _ | RenameSymbol _ _ _ _ => Err (config_error "not a single-file edit")
  end.

(** The primitives with these for the single-file edits. *)
Definition text_primitives (others : Primitives) : Primitives := {|
  one_target := text_target;
  one_rewrite := text_rewrite;
  move_targets := move_targets others; move_check := move_check others; move_rewrite := move_rewrite others;
  rename_targets := rename_targets others; rename_modify := rename_modify others;
  rename_decide := rename_decide others;
|}.

(** Each of them reports success exactly when it hands new text on. *)
Lemma text_honest others : honest others → honest (text_primitives others).
Proof.
  intros [_ Ht Hc Hm Hr]. split; [|exact Ht|exact Hc|exact Hm|exact Hr].
  intros q p s r. simpl. unfold text_rewrite. destruct q.
  - unfold str_replace, refused_edit. intros [= <-]. by destruct (match_indices _ _) as [|? []].
  - unfold multi_str_replace, refused_multi_edit. intros [= <-].
    destruct (resolve_spans _ _); [|done]. by destruct (overlapping _) as [[]|].
  - unfold insert_at, anchor_line, refused_insert. intros E. destruct (forallb _ _).
    + destruct (parse_line_number _); [|discriminate]. destruct (_ || _); by injection E as <-.
    + destruct (matching_lines _ _ _) as [|? []]; by injection E as <-.
  - unfold ast_grep_rewrite. intros [= <-]. by destruct (rewrite_source _ _ _ _ _) as [[]|].
  - destruct (resolve_symbol_for_edit _ _); [|discriminate]. unfold replace_symbol, refused_edit.
    destruct (line_bounds _ _) as [[[x y]|]|]; [|by intros [= <-]|discriminate].
    destruct (_ || _); by intros [= <-].
  - destruct (parse_position _); [|discriminate]. destruct (resolve_symbol_for_edit _ _); [|discriminate].
    unfold insert_at_symbol, refused_insert. destruct (line_bounds _ _) as [[[x y]|]|];
      [|by intros [= <-]|discriminate].
    destruct (_ <? _)%nat; by intros [= <-].
  - discriminate.
  - discriminate.
Qed.
End text.

(** ** Matches *)
Lemma starts_with_app old s : starts_with old s = true ↔ ∃ rest, s = old ++ rest.
Proof.
  unfold starts_with. revert s. induction old as [|c old IH]; intros s; simpl; [split; [by exists s|done]|].
  destruct s as [|d s]; [split; [done|by intros [rest [=]]]|].
  destruct (Z.eqb_spec c d) as [->|Hne].
  - rewrite IH. split; intros [rest E]; exists rest; congruence.
  - split; [done|]. intros [rest [=]]. congruence.
Qed.

Lemma match_from_spec old skip base s i :
  i ∈ match_indices_from old skip base s →
  (base + skip <= i)%nat ∧ ∃ rest, drop (i - base) s = old ++ rest.
Proof.
  revert skip base. induction s as [|c s IH]; intros skip base; cbn [match_indices_from].
  - destruct (is_empty old && _) eqn:E; [|by intros ?%elem_of_nil]. intros ->%list_elem_of_singleton.
    apply andb_true_iff in E as [E1 E2%Nat.eqb_eq]. split; [lia|]. exists []. destruct old; [|done]. by rewrite drop_nil.
  - assert (∀ k, i ∈ match_indices_from old k (S base) s →
      (base + S k <= i)%nat ∧ ∃ rest, drop (i - base) (c :: s) = old ++ rest) as Hrest.
    { intros k [Hle [rest Hd]]%IH. split; [lia|]. exists rest.
      replace (i - base)%nat with (S (i - S base)) by lia. done. }
    destruct skip as [|skip]; [|apply Hrest].
    destruct (starts_with old (c :: s)) eqn:E.
    + intros [->|Hin]%elem_of_cons.
      * split; [lia|]. rewrite Nat.sub_diag. by apply starts_with_app.
      * apply Hrest in Hin as [Hle Hd]. split; [lia|done].
    + intros Hin. apply Hrest in Hin as [Hle Hd]. split; [lia|done].
Qed.

Lemma match_bound old skip base s i : i ∈ match_indices_from old skip base s → (i <= base + length s)%nat.
Proof.
  revert skip base. induction s as [|c s IH]; intros skip base; cbn [match_indices_from].
  - destruct (_ && _); [|by intros ?%elem_of_nil]. intros ->%list_elem_of_singleton. simpl. lia.
  - destruct skip as [|skip]; [|intros ?%IH; simpl; lia].
    destruct (starts_with _ _); [|intros ?%IH; simpl; lia].
    intros [->|?%IH]%elem_of_cons; simpl; lia.
Qed.

(** A match splits the text. *)
Lemma match_splits source old i :
  i ∈ match_indices source old → source = take i source ++ old ++ drop (i + length old) source.
Proof.
  intros [_ [rest Hd]]%match_from_spec. rewrite Nat.sub_0_r in Hd.
  rewrite <- (take_drop i source) at 1. f_equal. rewrite Hd. f_equal.
  rewrite <- drop_drop, Hd, drop_app_length. done.
Qed.

(** The first match is the first place where the text starts with the pattern. *)
Lemma match_first old base s i rest :
  match_indices_from old 0 base s = i :: rest →
  ∀ k, (k < i - base)%nat → starts_with old (drop k s) = false.
Proof.
  revert base. induction s as [|c s IH]; intros base; cbn [match_indices_from].
  - destruct (is_empty old && _); [|discriminate]. intros [= <- _] k Hk. lia.
  - destruct (starts_with old (c :: s)) eqn:E; [intros [= <- _] k Hk; lia|].
    intros Hm k Hk. destruct k as [|k]; [done|]. simpl. apply (IH (S base)); [done|lia].
Qed.

(** A replacement changes exactly one match.  When [str_replace] hands new
    text on, the source is some text, the searched string and some text; the
    new text has the replacement in its place and is otherwise the same; and
    the searched string starts at no earlier place of the source. *)
Theorem str_replace_is_exact rel_path path old new source dry_run modified o :
  str_replace rel_path path old new source dry_run = RewriteTo modified o →
  ∃ before after, source = before ++ old ++ after ∧ modified = before ++ new ++ after
  ∧ match_indices source old = [length before]
  ∧ ∀ k, (k < length before)%nat → starts_with old (drop k source) = false.
Proof.
  unfold str_replace, replacen_once, refused_edit. destruct (match_indices source old) as [|i [|]] eqn:E; [done| |done].
  intros [= <- _]. exists (take i source), (drop (i + length old) source).
  assert (i ∈ match_indices source old) as Hin by (rewrite E; left).
  pose proof (match_splits _ _ _ Hin) as Hs. split; [done|]. split; [done|].
  assert (length (take i source) = i) as ->.
  { rewrite length_take. pose proof (match_bound _ _ _ _ _ Hin). simpl in *. lia. }
  split; [done|]. intros k Hk. apply (match_first old 0 source i []); [done|lia].
Qed.

(** ** Several replacements at once *)

(** Pieces between the gaps of a text. *)
Fixpoint weave (gaps pieces : list rstr) : rstr :=
  match gaps, pieces with
  | gap :: gaps, piece :: pieces => gap ++ piece ++ weave gaps pieces
  | gap :: _, [] => gap
  | [], _ => []
  end.

Definition span_in (source : rstr) (span : Span) : Prop :=
  sp_end span = (sp_start span + length (sp_old span))%nat
  ∧ match_indices source (sp_old span) = [sp_start span].

Lemma resolve_spans_spec source replacements spans :
  resolve_spans source replacements = Ok spans →
  Forall (span_in source) spans ∧ (λ sp, (sp_old sp, sp_new sp)) <$> spans = replacements.
Proof.
  revert spans. induction replacements as [|[old new] rs IH]; intros spans E; simpl in E.
  - injection E as <-. done.
  - destruct (match_indices source old) as [|start [|]] eqn:Em; try discriminate.
    destruct (resolve_spans source rs) as [rest|] eqn:Er; [|discriminate]. injection E as <-.
    destruct (IH rest eq_refl) as [Hf Hm]. split; [by constructor|]. rewrite fmap_cons, Hm. done.
Qed.

Lemma splice_weaves source cursor spans :
  Forall (span_in source) spans → overlapping spans = None →
  match spans with [] => True | span :: _ => (cursor <= sp_start span)%nat end →
  ∃ gaps, length gaps = S (length spans) ∧ drop cursor source = weave gaps (sp_old <$> spans)
  ∧ splice_spans source cursor spans = weave gaps (sp_new <$> spans).
Proof.
  revert cursor. induction spans as [|span spans IH]; intros cursor Hf Ho Hc.
  - exists [drop cursor source]. done.
  - apply Forall_cons in Hf as [[He Hm] Hf].
    destruct (IH (sp_end span)) as (gaps & Hl & Hd & Hs); [done| | |].
    + destruct spans; [done|]. simpl in Ho. by destruct (_ <? _)%nat.
    + destruct spans as [|next spans]; [done|]. simpl in Ho.
      destruct (Nat.ltb_spec (sp_start next) (sp_end span)); [discriminate|lia].
    + exists (slice cursor (sp_start span) source :: gaps). split; [by rewrite !length_cons, Hl|].
      rewrite !fmap_cons. cbn [weave splice_spans]. rewrite <- Hd, <- Hs. split; [|done].
      assert (sp_start span ∈ match_indices source (sp_old span)) as Hin by (rewrite Hm; left).
      pose proof (match_splits _ _ _ Hin) as Hsplit. rewrite <- He in Hsplit.
      pose proof (match_bound _ _ _ _ _ Hin) as Hb. simpl in Hb.
      rewrite Hsplit at 1. rewrite drop_app_le by (rewrite length_take; lia).
      f_equal. unfold slice. by rewrite skipn_firstn_comm.
Qed.

(** C39. Several replacements are one simultaneous replacement.  When
    [multi_str_replace] hands new text on, the source is the searched strings,
    in some order and with gaps between them, the new text is the same gaps
    with each replacement in the place of its string, and each searched string
    has exactly one match in the source. *)
Theorem multi_replacement_is_simultaneous rel_path replacements source dry_run modified o :
  multi_str_replace rel_path replacements source dry_run = RewriteTo modified o →
  ∃ gaps ordered, ordered ≡ₚ replacements ∧ length gaps = S (length ordered)
  ∧ source = weave gaps ordered.*1 ∧ modified = weave gaps ordered.*2
  ∧ Forall (λ r, ∃ i, match_indices source r.1 = [i]) replacements.
Proof.
  unfold multi_str_replace, refused_multi_edit. destruct (resolve_spans source replacements) as [spans|] eqn:Er; [|done].
  apply resolve_spans_spec in Er as [Hf Hr]. cbv zeta.
  destruct (overlapping (sort_by span_leb spans)) as [[]|] eqn:Eo; [done|]. intros [= <- _].
  assert (Forall (span_in source) (sort_by span_leb spans)) as Hf'.
  { rewrite Forall_forall in *. intros sp Hsp. apply Hf. by rewrite <- (sort_by_perm span_leb spans). }
  destruct (splice_weaves source 0 _ Hf' Eo) as (gaps & Hl & Hd & Hs).
  { destruct (sort_by span_leb spans); [done|lia]. }
  exists gaps, ((λ sp, (sp_old sp, sp_new sp)) <$> sort_by span_leb spans).
  rewrite drop_0 in Hd. split; [rewrite <- Hr; apply fmap_Permutation, sort_by_perm|].
  split; [by rewrite length_fmap|]. rewrite <- !list_fmap_compose. split; [exact Hd|]. split; [exact Hs|].
  rewrite <- Hr, Forall_fmap. eapply Forall_impl; [exact Hf|]. intros sp [_ Hm]. by eexists.
Qed.

(** ** Inserted lines *)
Lemma split_on_newlines s : carriage_return ∉ s →
  Forall (λ part, carriage_return ∉ part) (split_on newline s).
Proof.
  induction s as [|c s IH]; simpl; [repeat constructor; apply not_elem_of_nil|].
  intros [Hc Hs]%not_elem_of_cons. specialize (IH Hs).
  destruct (c =? newline); [constructor; [apply not_elem_of_nil|done]|].
  destruct (split_on newline s) as [|part parts]; [repeat constructor; by apply not_elem_of_cons; split; [|apply not_elem_of_nil]|].
  inversion_clear IH. constructor; [|done]. by apply not_elem_of_cons.
Qed.

Lemma strip_cr_plain line : carriage_return ∉ line → strip_carriage_return line = line.
Proof.
  intros Hn. unfold strip_carriage_return. destruct (reverse line) as [|c rest] eqn:E; [done|].
  destruct (Z.eqb_spec c carriage_return) as [->|]; [|done]. exfalso. apply Hn. apply elem_of_reverse.
  rewrite E. left.
Qed.

Lemma join_split s : join_lines (split_on newline s) = s.
Proof.
  induction s as [|c s IH]; simpl; [done|]. pose proof (split_on_cons newline s) as Hne.
  destruct (split_on newline s) as [|part parts]; [done|]. destruct (Z.eqb_spec c newline) as [->|].
  - simpl in *. by rewrite IH.
  - destruct parts; simpl in *; congruence.
Qed.

Lemma close_snoc ps l :
  Forall (λ part, carriage_return ∉ part) ps → close_lines (ps ++ [l]) = ps ++ (if is_empty l then [] else [l]).
Proof.
  induction ps as [|p ps IH]; intros Hf; [done|]. apply Forall_cons in Hf as [Hp Hf].
  cbn [app]. assert (close_lines (p :: ps ++ [l]) = strip_carriage_return p :: close_lines (ps ++ [l])) as ->
    by by destruct ps.
  by rewrite strip_cr_plain, IH.
Qed.

Lemma join_app a b : a ≠ [] → b ≠ [] → join_lines (a ++ b) = join_lines a ++ newline :: join_lines b.
Proof.
  intros Ha Hb. induction a as [|x a IH]; [done|]. destruct a as [|y a].
  - destruct b; [done|]. done.
  - change (join_lines ((x :: y :: a) ++ b)) with (x ++ newline :: join_lines ((y :: a) ++ b)).
    rewrite IH by done. cbn [join_lines]. by rewrite <- app_assoc.
Qed.

(** A text without carriage returns is its lines. *)
Lemma lines_join s :
  carriage_return ∉ s → s = join_lines (lines s) ++ (if ends_with_newline s then [newline] else []).
Proof.
  intros Hs. pose proof (split_on_newlines s Hs) as Hc. pose proof (split_on_parts newline s) as Hn.
  pose proof (join_split s) as Hj. pose proof (split_on_cons newline s) as Hne.
  unfold lines. destruct (split_on newline s) as [|l ps _] using rev_ind; [done|].
  apply Forall_app in Hc as [Hc _]. apply Forall_app in Hn as [_ Hn]. rewrite Forall_singleton in Hn.
  rewrite close_snoc by done. unfold ends_with_newline. rewrite <- Hj. destruct l as [|c l].
  - rewrite app_nil_r. destruct ps as [|p ps]; [done|]. rewrite join_app by done.
    change (newline :: join_lines [[]]) with [newline]. by rewrite last_snoc.
  - cbn [is_empty]. replace (match last (join_lines (ps ++ [c :: l])) with Some x => x =? newline | None => false end)
      with false; [by rewrite app_nil_r|].
    assert (last (join_lines (ps ++ [c :: l])) = last (c :: l)) as ->.
    { destruct ps as [|p ps]; [done|]. rewrite join_app by done. by rewrite !last_app_cons. }
    destruct (last (c :: l)) as [x|] eqn:El; [|done]. symmetry. apply Z.eqb_neq. intros ->.
    by apply Hn, last_Some_elem_of.
Qed.

(** Where a line stands in a text: below the lines of [above], each with its
    newline, and before [rest], which is empty or starts with the newline of
    the line. *)
Definition newlined (ls : list rstr) : rstr := concat ((λ l, l ++ [newline]) <$> ls).

Definition line_at (source : rstr) (above : list rstr) (line rest : rstr) : Prop :=
  source = newlined above ++ line ++ rest ∧
  Forall (λ l, newline ∉ l) above ∧ newline ∉ line ∧
  ¬ (line = [] ∧ rest = []) ∧ (rest = [] ∨ head rest = Some newline).

Definition lines_below (rest : rstr) : list rstr := lines (tail rest).

Lemma split_on_first_line x y :
  newline ∉ x → split_on newline (x ++ newline :: y) = x :: split_on newline y.
Proof.
  induction x as [|c x IH]; [done|]. intros [Hc Hx]%not_elem_of_cons. cbn [app split_on].
  rewrite (IH Hx). destruct (Z.eqb_spec c newline); [congruence|done].
Qed.

Lemma split_on_none x : newline ∉ x → split_on newline x = [x].
Proof.
  induction x as [|c x IH]; [done|]. intros [Hc Hx]%not_elem_of_cons. cbn [split_on].
  rewrite (IH Hx). destruct (Z.eqb_spec c newline); [congruence|done].
Qed.

Lemma lines_app x y : newline ∉ x → carriage_return ∉ x → lines (x ++ newline :: y) = x :: lines y.
Proof.
  intros Hn Hc. unfold lines. rewrite split_on_first_line by done. pose proof (split_on_cons newline y).
  destruct (split_on newline y) as [|part parts]; [done|]. cbn [close_lines]. by rewrite strip_cr_plain.
Qed.

Lemma newlined_cons l ls : newlined (l :: ls) = l ++ newline :: newlined ls.
Proof. unfold newlined. rewrite fmap_cons. cbn [concat]. by rewrite <- app_assoc. Qed.

(** The lines of a text, read off at one of them. *)
Lemma lines_at source above line rest :
  carriage_return ∉ source → line_at source above line rest →
  lines source = above ++ line :: lines_below rest.
Proof.
  intros Hcr (-> & Ha & Hl & Hne & Hr). revert Hcr Ha.
  induction above as [|x above IH]; intros Hcr Ha.
  - change (newlined []) with (@nil Z) in *. cbn [app] in *. destruct Hr as [->|Hr].
    + rewrite app_nil_r. unfold lines. rewrite split_on_none by done. destruct line; [by destruct Hne|done].
    + destruct rest as [|c rest]; [done|]. injection Hr as ->. apply lines_app; [done|].
      intros Hin. apply Hcr, elem_of_app. by left.
  - apply Forall_cons in Ha as [Hx Ha]. rewrite newlined_cons in *. rewrite <- app_assoc in *. cbn [app] in *.
    apply not_elem_of_app in Hcr as [Hcx Hcr]. apply not_elem_of_cons in Hcr as [_ Hcr].
    rewrite lines_app, IH by done. done.
Qed.

Lemma join_newlined above l below :
  join_lines (above ++ l :: below) = newlined above ++ join_lines (l :: below).
Proof.
  induction above as [|x above IH]; [done|]. rewrite newlined_cons, <- app_assoc. cbn [app].
  rewrite <- IH. by destruct above.
Qed.

Lemma lines_newline_free s : carriage_return ∉ s → Forall (λ l, newline ∉ l) (lines s).
Proof.
  intros Hs. pose proof (split_on_newlines s Hs) as Hc. pose proof (split_on_parts newline s) as Hn.
  unfold lines. destruct (split_on newline s) as [|l ps _] using rev_ind; [constructor|].
  apply Forall_app in Hc as [Hc _]. rewrite close_snoc by done.
  apply Forall_app in Hn as [Hn Hl]. apply Forall_app. split; [done|]. by destruct (is_empty l).
Qed.

(** Every line of a text stands somewhere in it. *)
Lemma line_stands source above line below :
  carriage_return ∉ source → lines source = above ++ line :: below →
  ∃ rest, line_at source above line rest ∧ lines_below rest = below ∧
    rest = (if is_empty below then [] else newline :: join_lines below)
           ++ (if ends_with_newline source then [newline] else []).
Proof.
  intros Hcr Hl. pose proof (lines_join source Hcr) as Hj. pose proof (lines_newline_free source Hcr) as Hf.
  rewrite Hl in Hj, Hf. apply Forall_app in Hf as [Hfa Hfl]. apply Forall_cons in Hfl as [Hfl _].
  rewrite join_newlined, <- app_assoc in Hj.
  set (rest := (if is_empty below then [] else newline :: join_lines below)
               ++ (if ends_with_newline source then [newline] else [])).
  assert (Hat : line_at source above line rest).
  { split_and!; [|done|done| |].
    - rewrite Hj at 1. f_equal. unfold rest. destruct below; [done|]. cbn [is_empty join_lines].
      by rewrite <- !app_assoc.
    - unfold rest. intros [-> Hr]. destruct below; [|done]. cbn [is_empty app join_lines] in *.
      destruct (ends_with_newline source) eqn:Et; [done|]. rewrite app_nil_r in Hj.
      destruct above as [|x above _] using rev_ind; [by rewrite Hj in Hl|].
      revert Et. unfold ends_with_newline. rewrite Hj. unfold newlined. rewrite fmap_app, concat_app. simpl.
      by rewrite !app_nil_r, app_assoc, last_snoc.
    - unfold rest. destruct below; cbn [is_empty app]; [|by right].
      destruct (ends_with_newline source); [by right|by left]. }
  exists rest. split_and!; [done| |done].
  pose proof (lines_at _ _ _ _ Hcr Hat) as E. rewrite Hl in E. apply app_inv_head in E. by injection E.
Qed.

(** The text with a line of content next to one of its lines. *)
Lemma insert_line_text source content above line rest (before : bool) :
  carriage_return ∉ source → line_at source above line rest →
  insert_line source content (if before then length above else S (length above)) =
    newlined above ++ (if before then content ++ newline :: line else line ++ newline :: content) ++ rest.
Proof.
  intros Hcr Hat. pose proof (lines_at _ _ _ _ Hcr Hat) as El. unfold insert_line. cbv zeta. rewrite El.
  destruct (line_stands source above line (lines_below rest) Hcr El) as (rest' & Hat' & _ & Hrest).
  assert (rest' = rest) as ->.
  { destruct Hat as [E1 _], Hat' as [E2 _]. rewrite E1 in E2. by apply app_inv_head, app_inv_head in E2. }
  set (below := lines_below rest) in *. set (t := ends_with_newline source) in *.
  set (two := if before then [content; line] else [line; content]).
  assert (take (if before then length above else S (length above)) (above ++ line :: below) ++ [content]
    ++ drop (if before then length above else S (length above)) (above ++ line :: below) = above ++ two ++ below) as ->.
  { unfold two. destruct before.
    - by rewrite take_app_length, drop_app_length.
    - rewrite take_app_ge, drop_app_ge by lia. replace (S (length above) - length above)%nat with 1%nat by lia.
      simpl. by rewrite drop_0, take_0, <- app_assoc. }
  assert (Hjoin : join_lines (above ++ two ++ below) = newlined above ++
    (if before then content ++ newline :: line else line ++ newline :: content) ++
    (if is_empty below then [] else newline :: join_lines below)).
  { unfold two. destruct before; cbn [app]; rewrite join_newlined; destruct below;
      cbn [is_empty join_lines]; rewrite ?app_nil_r, <- ?app_assoc; done. }
  unfold splice_lines. cbv zeta. rewrite Hjoin.
  assert (is_empty (newlined above ++ (if before then content ++ newline :: line else line ++ newline :: content) ++
    (if is_empty below then [] else newline :: join_lines below)) = false) as ->.
  { destruct (newlined above); [|done]. cbn [app]. destruct before; [by destruct content|by destruct line]. }
  rewrite Hrest. destruct t; simpl; rewrite ?app_nil_r, <- ?app_assoc; done.
Qed.

Lemma digits_nonneg l acc :
  forallb is_digit l = true → 0 <= acc → 0 <= foldl (λ acc c, acc * 10 + (c - 48)) acc l.
Proof.
  revert acc. induction l as [|c l IH]; intros acc Hl Ha; simpl in *; [done|].
  apply andb_true_iff in Hl as [Hc Hl]. unfold is_digit, within in Hc. apply IH; [done|]. lia.
Qed.

Lemma matching_lines_one anchor k ls i :
  matching_lines anchor k ls = [i] ↔
  ∃ above line below, ls = above ++ line :: below ∧ i = (k + length above)%nat ∧
    contains anchor line = true ∧ Forall (λ l, contains anchor l = false) (above ++ below).
Proof.
  assert (Hnone : ∀ k ls, matching_lines anchor k ls = [] ↔ Forall (λ l, contains anchor l = false) ls).
  { clear. intros k ls. revert k. induction ls as [|l ls IH]; intros k; simpl; [done|].
    rewrite Forall_cons, <- (IH (S k)). destruct (contains anchor l); naive_solver. }
  revert k. induction ls as [|l ls IH]; intros k; simpl.
  { split; [done|]. intros (above & line & below & E & _). by destruct above. }
  destruct (contains anchor l) eqn:El.
  - split.
    + intros [= <- Hn]. exists [], l, ls. split_and!; [done|simpl; lia|done|]. by apply (Hnone (S k)).
    + intros (above & line & below & E & -> & Hl & Hf). destruct above as [|x above]; injection E as -> ->.
      * simpl. rewrite Nat.add_0_r. f_equal. by apply Hnone.
      * apply Forall_cons in Hf as [Hf _]. congruence.
  - rewrite IH. split.
    + intros (above & line & below & -> & -> & Hl & Hf). exists (l :: above), line, below.
      split_and!; [done|simpl; lia|done|]. by constructor.
    + intros (above & line & below & E & -> & Hl & Hf). destruct above as [|x above]; injection E as -> ->; [congruence|].
      apply Forall_cons in Hf as [_ Hf]. exists above, line, below. split_and!; [done|simpl; lia|done..].
Qed.

(** What an anchor names: an anchor of digits the line of that number; any
    other one the only line that contains its first hundred bytes. *)
Definition names_line (anchor : rstr) (above : list rstr) (line : rstr) (below : list rstr) : Prop :=
  if forallb is_digit anchor then parse_line_number anchor = Some (Z.of_nat (S (length above)))
  else contains (utf8_prefix_at_or_before anchor 100) line = true ∧
       Forall (λ l, contains (utf8_prefix_at_or_before anchor 100) l = false) (above ++ below).

Lemma anchor_line_names rel_path anchor before ls k :
  anchor_line rel_path anchor before ls = Ok (inr k) ↔
  ∃ above line below, ls = above ++ line :: below ∧ k = length above ∧ names_line anchor above line below.
Proof.
  unfold anchor_line, names_line. destruct (forallb is_digit anchor) eqn:Ed.
  - destruct (parse_line_number anchor) as [n|] eqn:Ep; [|split; [done|intros (?&?&?&_&_&?); done]].
    assert (0 <= n) as Hn.
    { revert Ep. unfold parse_line_number. cbv zeta. destruct (_ || _); [done|]. intros [= <-].
      by apply digits_nonneg. }
    destruct ((n =? 0) || (zlen ls <? n)) eqn:Eo.
    + split; [done|]. intros (above & line & below & -> & -> & [= ->]).
      rewrite orb_true_iff, Z.eqb_eq, Z.ltb_lt in Eo. unfold zlen in Eo. rewrite length_app in Eo.
      simpl in Eo. lia.
    + rewrite orb_false_iff, Z.eqb_neq, Z.ltb_ge in Eo. destruct Eo as [E0 E1]. split.
      * intros [= <-]. destruct (ls !! Z.to_nat (n - 1)) as [line|] eqn:El.
        -- exists (take (Z.to_nat (n - 1)) ls), line, (drop (S (Z.to_nat (n - 1))) ls).
           assert (length (take (Z.to_nat (n - 1)) ls) = Z.to_nat (n - 1)) as Hlen
             by (rewrite length_take; unfold zlen in E1; lia).
           rewrite Hlen. split_and!; [by rewrite take_drop_middle|done|f_equal; lia].
        -- apply lookup_ge_None in El. unfold zlen in E1. lia.
      * intros (above & line & below & -> & -> & [= ->]). do 2 f_equal. lia.
  - assert (Hm := matching_lines_one (utf8_prefix_at_or_before anchor 100) 0 ls k). cbn [Nat.add] in Hm.
    rewrite <- Hm. destruct (matching_lines _ 0 ls) as [|i [|]]; split; intros E; try done; by injection E as ->.
Qed.

(** C40. An insertion inserts, and where it says. On a text without carriage
    returns, [insert_at] rewrites the text exactly when its anchor names one
    of the lines: the line of that number when it is made of digits, else the
    only line that contains its first hundred bytes. The new text is then the
    old one with the content, less one newline at its end, as a line of its
    own directly before or directly after that line, and every other byte
    (a missing newline at the end of the file included) as it was; and the
    answer reports the number of that line. *)
Theorem insertion_only_inserts rel_path anchor content source before dry_run modified o :
  carriage_return ∉ source →
  insert_at rel_path anchor content source before dry_run = Ok (RewriteTo modified o) ↔
  ∃ above line rest, line_at source above line rest ∧
    names_line anchor above line (lines_below rest) ∧
    modified = newlined above ++ (if before then strip_newline content ++ newline :: line
                                  else line ++ newline :: strip_newline content) ++ rest ∧
    o = OInsert {| i_success := true; i_file_path := rel_path;
          i_anchor_line := as_u32 (Z.of_nat (length above) + 1); i_before := before;
          i_message := edit_success_message dry_run (str "inserted at line " ++ count_text (S (length above))) |}.
Proof.
  intros Hcr. unfold insert_at.
  assert (Hnamed : ∀ above line rest, line_at source above line rest →
    names_line anchor above line (lines_below rest) →
    anchor_line rel_path anchor before (lines source) = Ok (inr (length above))).
  { intros above line rest Hat Hnames. apply anchor_line_names. exists above, line, (lines_below rest).
    split; [by apply lines_at|done]. }
  destruct (anchor_line rel_path anchor before (lines source)) as [[refusal|k]|] eqn:Ea; split.
  - intros [= ->]. exfalso. unfold anchor_line, refused_insert in Ea.
    destruct (forallb _ _); [destruct (parse_line_number _); [|done]; destruct (_ || _)|
      destruct (matching_lines _ _ _) as [|? []]]; by simplify_eq.
  - intros (above & line & rest & Hat & Hnames & _). by specialize (Hnamed above line rest Hat Hnames).
  - intros [= <- <-]. apply anchor_line_names in Ea as (above & line & below & El & -> & Hnames).
    destruct (line_stands source above line below Hcr El) as (rest & Hat & Hb & _).
    exists above, line, rest. rewrite Hb. split_and!; [done..|by apply insert_line_text|done].
  - intros (above & line & rest & Hat & Hnames & -> & ->).
    specialize (Hnamed above line rest Hat Hnames). injection Hnamed as ->.
    by rewrite (insert_line_text source _ above line rest before Hcr Hat).
  - done.
  - intros (above & line & rest & Hat & Hnames & _). by specialize (Hnamed above line rest Hat Hnames).
Qed.

(** ** Evaluations *)
Definition demo_text : rstr := str "one" ++ [newline] ++ str "two" ++ [newline].

Lemma str_replace_is_exact_witness :
  ∃ before after, demo_text = before ++ str "two" ++ after
  ∧ str "one" ++ [newline] ++ str "2" ++ [newline] = before ++ str "2" ++ after
  ∧ match_indices demo_text (str "two") = [length before]
  ∧ ∀ k, (k < length before)%nat → starts_with (str "two") (drop k demo_text) = false.
Proof.
  apply (str_replace_is_exact (str "a.rs") (str "a.rs") (str "two") (str "2") demo_text false _
    (OEdit {| e_success := true; e_file_path := str "a.rs"; e_message := str "replacement successful" |})).
  vm_compute. reflexivity.
Defined.

(** The replacements are given in the other order, and swap the two words. *)
Lemma multi_replacement_is_simultaneous_witness :
  ∃ gaps ordered, ordered ≡ₚ [(str "two", str "one"); (str "one", str "two")]
  ∧ length gaps = S (length ordered) ∧ demo_text = weave gaps ordered.*1
  ∧ str "two" ++ [newline] ++ str "one" ++ [newline] = weave gaps ordered.*2
  ∧ Forall (λ r, ∃ i, match_indices demo_text r.1 = [i]) [(str "two", str "one"); (str "one", str "two")].
Proof.
  apply (multi_replacement_is_simultaneous (str "a.rs") [(str "two", str "one"); (str "one", str "two")] demo_text false
    _ (OMultiEdit {| m_success := true; m_file_path := str "a.rs"; m_applied_count := 2;
      m_message := str "applied 2 replacements" |})).
  vm_compute. reflexivity.
Defined.

(** Behind the last line, which has no newline. *)
Definition demo_open_text : rstr := str "one" ++ [newline] ++ str "two".

Lemma insertion_only_inserts_witness :
  ∃ above line rest, line_at demo_open_text above line rest ∧
    names_line (str "wo") above line (lines_below rest) ∧
    demo_open_text ++ [newline] ++ str "mid" = newlined above ++ (line ++ newline :: str "mid") ++ rest.
Proof.
  destruct (proj1 (insertion_only_inserts (str "a.rs") (str "wo") (str "mid" ++ [newline]) demo_open_text false false
    (demo_open_text ++ [newline] ++ str "mid")
    (OInsert {| i_success := true; i_file_path := str "a.rs"; i_anchor_line := 2; i_before := false;
      i_message := str "inserted at line 2" |}) ltac:(apply (bool_decide_unpack _); vm_compute; exact I))
    ltac:(vm_compute; reflexivity)) as (above & line & rest & Hat & Hnames & Htext & _).
  exists above, line, rest. split; [exact Hat|]. split; [exact Hnames|exact Htext].
Defined.

(** A text with carriage returns loses all of them to an inserted line. *)
Example insertion_drops_carriage_returns :
  insert_line (str "one" ++ [carriage_return; newline] ++ str "two" ++ [carriage_return; newline]) (str "mid") 1
  = str "one" ++ [newline] ++ str "mid" ++ [newline] ++ str "two" ++ [newline].
Proof. vm_compute. reflexivity. Qed.

(** The lines of a symbol whose last character has two bytes cannot be found:
    the slice that ends inside the character panics. *)
Example multibyte_symbol_end_panics :
  let source := str "x = " ++ [233] in
  line_bounds {| y_kind := str "const"; y_name := str "x"; y_file_path := str "a.py"; y_start_byte := 0;
                 y_end_byte := str_len source; y_start_line := 0; y_line_span := 1 |} source = Ok None.
Proof. vm_compute. reflexivity. Qed.
