(* ===== verification/EditRecovery.v ===== *)
(** * Source edits: previews, receipts and records

    What a preview returns and that it reads only; when a receipt can be
    formed; and the bookkeeping of receipts and rollback records, which leaves
    the files and the active journal alone. *)
From stdpp Require Import base numbers strings gmap list sorting.
From S2P Require Import Prelude RustText Bytes PolicyRouting EditContract EditRecords EditFiles EditPlan.
From S2P Require Import EditJournal EditLogic EditVerify EditExecute EditPublish.

#[local] Open Scope Z_scope.
#[local] Open Scope rust_scope.

(** The world of a new process: the fates of the old one are gone. *)
Definition restart `{DurableCodec} (fs : list Fate) (w : World) : World :=
  {| tree := tree w; next_identity := next_identity w; dirs := dirs w; store := store w; fates := fs |}.

Section recovery.
Context `{DurableCodec} `{Sha256} `{EditDigests} (ports : Ports).

(** ** Candidate names *)
Lemma normalize_each_return files w w' l :
  normalize_each (opens ports) files w = (w', Return l) →
  Forall (λ p, normalize_source_edit_relative_path p = Some p ∧ opens ports p && parents_exist (dirs w) p = true) l.
Proof.
  revert w w' l. induction files as [|file files IH]; intros w w' l E; simpl in E.
  - by injection E as _ <-.
  - destruct (stays_inside file) eqn:Es; [|discriminate]. simpl in E.
    apply bind_return in E as (key & w1 & (Hk & Ho & _ & (_ & Hd) & _)%open_return & E).
    apply bind_return in E as (rest & w2 & E2%IH & [= _ <-]). rewrite Hd in E2. constructor; [|done].
    destruct (normal_components file) as [|part parts] eqn:En; [discriminate|].
    rewrite <- En in *. assert (normal_components file ≠ []) as Hne by by rewrite En.
    pose proof (normal_of_components file Es Hne) as Hf. pose proof (normalize_idem _ _ Hf) as Hi.
    split; [done|]. congruence.
Qed.

Lemma normalize_candidates_return files w w' l :
  normalize_candidate_files (opens ports) files w = (w', Return l) →
  l ≠ [] ∧ NoDup l ∧ Forall (λ p, normalize_source_edit_relative_path p = Some p) l
  ∧ Forall (reachable (opens ports) (dirs w)) l.
Proof.
  intros E. apply bind_return in E as (n & w1 & E1%normalize_each_return & E).
  set (s := sort_by path_leb n) in *.
  assert (∀ p, p ∈ dedup s → normalize_source_edit_relative_path p = Some p
    ∧ opens ports p && parents_exist (dirs w) p = true) as Hp.
  { intros p Hin. unfold s in Hin. rewrite dedup_elem, sort_by_perm in Hin. rewrite Forall_forall in E1. auto. }
  pose proof (dedup_NoDup s (sort_paths_sorted n)) as Hnd.
  destruct (dedup s) as [|p rest]; [discriminate|]. injection E as _ <-. split; [done|]. split; [done|].
  split; apply Forall_forall; intros q Hq; destruct (Hp q Hq); [done|]. by exists q.
Qed.

(** ** Exact plans *)

(** A plan, its candidate names and the digests of its two sides. *)
Record exact_plan (d : gset rstr) (cands : list rstr) (plan : list PlannedSourceEditFile) (pre post : rstr) : Prop := {
  ep_ok : plan_ok plan;
  ep_some : plan ≠ [];
  ep_reach : Forall (reachable (opens ports) d) (plan_paths plan);
  ep_cands : Forall (reachable (opens ports) d) cands;
  ep_pre : ∀ t, all_pre plan t → digest_of (contents t) cands = Ok pre;
  ep_post : ∀ t, all_post plan t → digest_of (contents t) cands = Ok post;
}.

(** Each half-published plan has a digest, and it is not that of the whole one. *)
Definition separates (cands : list rstr) (plan : list PlannedSourceEditFile) (post : rstr) : Prop :=
  ∀ t, torn plan t → ∃ d, digest_of (contents t) cands = Ok d ∧ (d = post → all_post plan t).

Lemma planned_states_paths files plan side l :
  planned_states files plan side = Ok l → files ⊆ plan_paths plan.
Proof.
  revert l. induction files as [|p files IH]; intros l E; simpl in E; [set_solver|].
  destruct (List.filter _ plan) as [|planned []] eqn:Ef; [discriminate| |discriminate].
  destruct (hash_optional _); [|discriminate].
  destruct (planned_states files plan side) as [rest|]; [|discriminate].
  intros q [->|Hq]%elem_of_cons; [|by eapply IH].
  assert (planned ∈ List.filter (λ planned, bool_decide (relative_path planned = p)) plan) as Hin.
  { rewrite Ef. left. }
  apply elem_of_filterb in Hin as [Hin Hb]. bools. subst. by apply in_plan_paths.
Qed.

Lemma planned_digest_paths files plan side d :
  planned_source_edit_state_digest files plan side = Ok d → files ⊆ plan_paths plan.
Proof.
  unfold planned_source_edit_state_digest.
  destruct (planned_states files plan side) as [l|] eqn:E; [|discriminate]. intros _.
  by eapply planned_states_paths.
Qed.

(** The preview of a successful edit: an exact plan whose preimages are in the tree. *)
Lemma preview_return q w w' pv :
  resolve_source_edit_preview ports q w = (w', Return pv) → outcome_success (pv_outcome pv) = true →
  ∃ pre post, pv_expected_state pv = Some pre ∧ pv_predicted_state pv = Some post
  ∧ exact_plan (dirs w) (pv_candidate_files pv) (pv_planned_files pv) pre post
  ∧ all_pre (pv_planned_files pv) (tree w).
Proof.
  intros E Hs. unfold resolve_source_edit_preview in E.
  apply bind_return in E as ([o planned] & w1 & E1 & E). apply capture_plan_return in E1 as Hcap.
  pose proof (frame_run _ _ _ _ _ (capture_plan_reads _ _ _) E1) as (_ & (_ & Hd1) & _).
  destruct (outcome_success o) eqn:Eo; simpl in E; [|injection E as _ <-; simpl in Hs; congruence].
  apply bind_return in E as (cands & w2 & (Hne & Hnd & Hnorm & Hreach)%normalize_candidates_return & E).
  rewrite Hd1 in Hreach.
  apply bind_return in E as (pcands & w3 & E3 & E).
  destruct (negb _ || negb _) eqn:Eb; [discriminate|]. apply orb_false_iff in Eb as [El Ec].
  apply negb_false_iff, Nat.eqb_eq in El. apply negb_false_iff, bool_decide_eq_true_1 in Ec.
  apply bind_return in E as (pre & w4 & [E4 ->]%lift_return & E).
  apply bind_return in E as (obs & w5 & E5 & E).
  destruct (negb _) eqn:Ed; [discriminate|].
  apply bind_return in E as (post & w6 & [E6 ->]%lift_return & [= _ <-]). simpl in *.
  exists pre, post. split; [done|]. split; [done|].
  assert (cands ≡ₚ plan_paths planned) as Hperm.
  { apply submseteq_length_Permutation.
    - apply NoDup_submseteq; [done|]. by eapply planned_digest_paths.
    - unfold plan_paths. rewrite length_fmap. lia. }
  assert (plan_ok planned) as Hok.
  { split; [by rewrite <- Hperm|]. intros p Hp. rewrite <- Hperm in Hp. rewrite Forall_forall in Hnorm. auto. }
  split.
  - split; [done| | | | |].
    + intros ->. simpl in El. by destruct cands.
    + by rewrite <- Hperm.
    + done.
    + intros t Ht. by eapply planned_digest_of.
    + intros t Ht. by eapply planned_digest_of.
  - intros f Hf. apply Hcap; [done|]. destruct Hok as [_ Hn]. by rewrite (Hn _ (in_plan_paths _ _ Hf)).
Qed.

Lemma preview_reads q : within_frame reads_only (resolve_source_edit_preview ports q).
Proof.
  unfold resolve_source_edit_preview. apply (frame_bind _); [apply capture_plan_reads|]. intros [o planned].
  frames.
Qed.

(** ** What a preview returns does not depend on the fates

    A reading computation that returns a value in [P] does so with the same
    value in a run without failures. *)
Definition steady_when {A} (P : A → Prop) (m : tx A) : Prop := ∀ w w' a,
  P a → m w = (w', Return a) → m (restart [] w) = (restart [] w', Return a).
Definition steady {A} (m : tx A) : Prop := steady_when (λ _, True) m.

Lemma steady_weaken {A} (P : A → Prop) m : steady m → steady_when P m.
Proof. intros Hm w w' a _. by apply Hm. Qed.
Lemma steady_ret {A} P (a : A) : steady_when P (ret a).
Proof. by intros w w' b _ [= <- <-]. Qed.
Lemma steady_raise {A} P e : @steady_when A P (raise e).
Proof. by intros w w' b _ [=]. Qed.
Lemma steady_panic {A} P : @steady_when A P panic.
Proof. by intros w w' b _ [=]. Qed.
Lemma steady_lift {A} P (r : edit A) : steady_when P (lift r).
Proof. destruct r; [apply steady_ret|apply steady_raise]. Qed.
Lemma steady_refine {A B} (P : A → Prop) (Q : B → Prop) (m : tx A) (k : A → tx B) :
  steady_when P m → (∀ a, steady_when Q (k a)) →
  (∀ a w w' b, k a w = (w', Return b) → Q b → P a) → steady_when Q (bind m k).
Proof.
  intros Hm Hk HP w w' b Hb E. apply bind_return in E as (a & w1 & E1 & E2).
  pose proof (HP _ _ _ _ E2 Hb) as Ha. apply (Hm _ _ _ Ha) in E1. apply (Hk _ _ _ _ Hb) in E2.
  by rewrite (bind_run _ _ _ _ _ E1).
Qed.
Lemma steady_bind {A B} Q (m : tx A) (k : A → tx B) :
  steady m → (∀ a, steady_when Q (k a)) → steady_when Q (bind m k).
Proof. intros Hm Hk. by eapply steady_refine. Qed.
(** A failure that is caught is steady where the value excludes it. *)
Lemma steady_attempt {A} (m : tx A) : steady m → steady_when (λ r, ∃ a, r = Ok a) (attempt m).
Proof.
  intros Hm w w' r [a ->] E%attempt_return. unfold attempt. by rewrite (Hm _ _ _ I E).
Qed.
Lemma steady_observe {A} P o (f : World → A) : (∀ w, f (restart [] w) = f w) → steady_when P (observe o f).
Proof.
  intros Hf w w' a _ E. rewrite observe_calm by done. rewrite Hf. unfold observe, next_fate in E.
  assert (∀ fs, f (restart fs w) = f w) as Hany.
  { intros fs. by rewrite <- (Hf w), <- (Hf (restart fs w)). }
  destruct (fates w) as [|[] fs]; try discriminate; injection E as <- <-; [done|].
  pose proof (Hany fs) as E. unfold restart in E. by rewrite E.
Qed.

Ltac steady_step :=
  match goal with
  | |- steady (bind _ _) => apply steady_bind; [|intros ?]
  | |- steady_when _ (bind _ _) => apply steady_bind; [|intros ?]
  | |- _ => first [apply steady_ret|apply steady_raise|apply steady_panic|apply steady_lift|by apply steady_observe]
  | |- steady (let _ := _ in _) => cbv zeta
  | |- steady_when _ (let _ := _ in _) => cbv zeta
  | |- steady (if ?b then _ else _) => destruct b eqn:?
  | |- steady_when _ (if ?b then _ else _) => destruct b eqn:?
  | |- steady (match ?x with _ => _ end) => destruct x eqn:?
  | |- steady_when _ (match ?x with _ => _ end) => destruct x eqn:?
  | |- steady _ => assumption
  end.
Ltac steadies := repeat steady_step.

Lemma steady_open p : steady (open (opens ports) p).
Proof. unfold open. steadies. Qed.
Lemma steady_string key label : steady (read_to_string key label).
Proof. unfold read_to_string, read_optional_with_identity. steadies. Qed.
Lemma steady_candidate p : steady (read_source_edit_candidate (opens ports) p).
Proof. unfold read_source_edit_candidate, read_optional, read_optional_with_identity. steadies. apply steady_open. Qed.
Lemma steady_digest files : steady (source_edit_state_digest (opens ports) files).
Proof.
  unfold source_edit_state_digest. steadies. induction files; simpl; steadies. apply steady_candidate.
Qed.
Lemma steady_normalize files : steady (normalize_candidate_files (opens ports) files).
Proof. unfold normalize_candidate_files. steadies. induction files; simpl; steadies. apply steady_open. Qed.

Definition succeeded {A} (r : A * SourceEditOutcome) : Prop := outcome_success (snd r) = true.

(** A move catches the failed read of its destination: it is refused then. *)
Lemma steady_move q :
  edit_dry_run q = true → steady_when succeeded (move_symbol (opens ports) (preview_primitives ports) (Capturing []) q).
Proof.
  intros Hd. assert (∀ s d source dest, steady_when succeeded
    (move_commit (opens ports) (preview_primitives ports) (Capturing []) q s d source dest)) as Hc.
  { intros. unfold move_commit. rewrite Hd. steadies. }
  unfold move_symbol. apply steady_bind; [apply steady_lift|]. intros [refusal|[s d]]; [apply steady_ret|].
  case_bool_decide; [apply steady_ret|]. apply steady_bind; [unfold fs_read; steadies|]. intros sb.
  destruct (sb ≫= utf8_decode) as [source|]; [|apply steady_raise].
  apply steady_bind; [apply steady_lift|]. intros [refusal|]; [apply steady_ret|]. cbv zeta.
  eapply steady_refine; [apply steady_attempt; unfold fs_read; steadies| |].
  - intros [[b|]|]; [destruct (utf8_decode b)| |]; first [apply Hc|apply steady_ret].
  - intros [db|e] w w' r E Hr; [by eexists|]. by injection E as _ <-.
Qed.

Lemma steady_capture q : steady_when (λ r, outcome_success (fst r) = true)
  (capture_source_edit_plan (opens ports) (preview_primitives ports) (capture_edit q)).
Proof.
  set (prims := preview_primitives ports).
  apply (steady_refine succeeded); [|intros [scope o]; apply steady_ret|].
  2:{ intros [scope o] w w' r E Hr. injection E as _ <-. exact Hr. }
  assert (∀ q, edit_dry_run q = true → steady (edit_one (opens ports) prims (Capturing []) q)) as Hone.
  { intros e Hd. unfold edit_one, commit_or_preview_edit. rewrite Hd.
    steadies; first [apply steady_open|apply steady_string]. }
  assert (∀ files captured, steady (rename_publish (opens ports) (Capturing captured) files)) as Hpub.
  { induction files as [|f files IH]; intros captured; simpl; [apply steady_ret|].
    destruct (intended f); [apply IH|apply steady_raise]. }
  assert (∀ q, steady (rename_symbol (opens ports) prims (Capturing []) q)) as Hren.
  { intros e. unfold rename_symbol. steadies; [|apply Hpub].
    induction a as [|p ps IH]; simpl; steadies; first [apply steady_open|apply steady_string]. }
  unfold run_source_edit. destruct q as [| | | | | | |b n [] v]; simpl;
    first [by apply steady_move|apply steady_weaken; auto].
Qed.

Lemma steady_preview q :
  steady_when (λ pv, outcome_success (pv_outcome pv) = true) (resolve_source_edit_preview ports q).
Proof.
  unfold resolve_source_edit_preview. eapply steady_refine; [apply steady_capture| |].
  - intros [o planned]. steadies; first [apply steady_normalize|apply steady_digest].
  - intros [o planned] w w' pv E Hpv. simpl. destruct (outcome_success o) eqn:Eo; [done|]. simpl in E.
    injection E as _ <-. simpl in Hpv. congruence.
Qed.

(** ** Receipts that can be written *)
Definition ok_unit (r : contract unit) : Prop := r = Ok tt.

Record record_ready (j : SourceEditJournalV1) : Prop := {
  rr_scope : ok_unit (scope_validate (r_scope (j_request j)));
  rr_digests : ok_unit (validate_digests [j_input_digest j; j_expected_state j;
    f_policy_digest (r_authority_proof (j_request j)); f_configuration_digest (r_authority_proof (j_request j));
    f_catalog_digest (r_authority_proof (j_request j)); f_privacy_digest (r_authority_proof (j_request j))]);
  rr_external : ok_unit (validate_optional "RetrievalAnchorId" (f_external_proof (r_authority_proof (j_request j))));
}.

Lemma validate_digest_of_ok d : digest_ok d = true → validate_digest d = Ok tt.
Proof.
  unfold digest_ok, validate_digest, validate_integrity_digest, in_domain.
  destruct (is_empty d); [done|]. cbv zeta. by case_match.
Qed.

Lemma durable_record_ready j o c e t rc ob :
  record_ready j →
  (∀ d, c = Some d → digest_ok d = true) →
  (t = Completed → c ≠ None) → t ≠ NoChange → (t = EffectUnknown → rc = Pending) →
  (t = Cancelled ∨ t = TimedOut → ob ≠ None) →
  ∃ r, durable_record j o c e t rc ob = Ok r ∧ ef_idempotency_key (u_effect r) = r_idempotency_key (j_request j).
Proof.
  intros [Hs Hd He] Hc Hcomp Hno Hun Hob. unfold ok_unit in *.
  pose proof Hd as Hd'. cbn [validate_digests] in Hd'.
  destruct (validate_digest (j_input_digest j)) as [[]|]; [|discriminate].
  destruct (validate_digest (j_expected_state j)) as [[]|] eqn:Ee; [|discriminate]. clear Hd'.
  unfold durable_record, effect_result_new, refuse_if. cbn [er_idempotency_key er_expected_state er_outcome or_termination].
  rewrite !bool_decide_eq_true_2 by done. cbn [negb orb].
  replace (bool_decide (t = EffectUnknown) && bool_decide (rc ≠ Pending)) with false.
  2:{ symmetry. apply andb_false_iff. destruct (decide (t = EffectUnknown)) as [Et|Et].
      - right. apply bool_decide_eq_false_2. auto.
      - left. by apply bool_decide_eq_false_2. }
  rewrite Ee.
  match goal with |- context [operation_receipt_validate ?x] =>
    assert (operation_receipt_validate x = Ok tt) as -> end.
  { unfold operation_receipt_validate, refuse_if. cbn [or_ended_at or_started_at or_termination or_cancellation].
    replace (Z.max e (r_started_at (j_request j)) <? r_started_at (j_request j)) with false by (symmetry; lia).
    destruct t; try done; destruct ob; try done; exfalso; apply Hob; auto. }
  unfold effect_receipt_validate, refuse_if.
  cbn [er_scope er_input_digest er_expected_state er_policy_digest er_configuration_digest er_catalog_digest
       er_privacy_digest er_committed_state er_external_proof er_outcome].
  rewrite Hs, Hd, He.
  replace (match c with Some state => validate_digest state | None => Ok tt end)
    with (@Ok unit ApplicationContractError tt).
  2:{ destruct c; [|done]. symmetry. apply validate_digest_of_ok. by apply Hc. }
  rewrite (bool_decide_eq_false_2 (t = NoChange)) by done. cbn [andb].
  replace (bool_decide (t = Completed) && bool_decide (c = None)) with false.
  2:{ symmetry. apply andb_false_iff. destruct (decide (t = Completed)) as [Et|Et].
      - right. apply bool_decide_eq_false_2. auto.
      - left. by apply bool_decide_eq_false_2. }
  cbn [andb application_contract]. eexists. split; reflexivity.
Qed.

(** The key of a receipt is that of its journal. *)
Lemma durable_record_key j o c e t rc ob r :
  durable_record j o c e t rc ob = Ok r → ef_idempotency_key (u_effect r) = r_idempotency_key (j_request j)
  ∧ er_outcome (ef_receipt (u_effect r)) = t ∧ u_outcome r = o ∧ u_dry_run r = r_dry_run (j_request j).
Proof.
  unfold durable_record, effect_result_new, refuse_if. intros E.
  destruct (_ || _); [discriminate|]. destruct (_ && _); [discriminate|].
  destruct (validate_digest _); [|discriminate]. destruct (operation_receipt_validate _); [|discriminate].
  destruct (effect_receipt_validate _); [|discriminate]. by injection E as <-.
Qed.

(** ** Bookkeeping: receipts and rollback records *)
Definition move_use_case : rstr := op_use_case_id (source_edit_operation KMoveSymbol).

(** The rollback record of a move can be stored: its place is free or holds it. *)
Definition slot_ok (j : SourceEditJournalV1) (c : rstr) (w : World) : Prop :=
  r_operation (j_request j) = move_use_case →
  ∃ recovery digest path,
    source_edit_recovery_digest (j_recovery_files j) = Ok recovery
    ∧ record_digest (rollback_record_of j c recovery []) = Ok digest
    ∧ rollback_record_path (j_effect_id j) = Ok path
    ∧ encoded_len (rollback_to_json (rollback_record_of j c recovery digest)) <= MAX_DURABLE_RECORD_BYTES
    ∧ (store w !! path = None ∨ store w !! path = Some (rollback_to_json (rollback_record_of j c recovery digest))).

Definition books (j : SourceEditJournalV1) (c : rstr) (w w' : World) : Prop :=
  keeps_effect w w' ∧ dirs w' = dirs w ∧ (slot_ok j c w → slot_ok j c w').

#[export] Instance books_frame j c : Frame (books j c).
Proof.
  split.
  - done.
  - intros x y z (K1 & D1 & S1) (K2 & D2 & S2). split; [by eapply (frame_trans (R:=keeps_effect))|].
    split; [congruence|auto].
  - intros w. split; [apply (frame_fates (R:=keeps_effect))|].
    unfold slot_ok, next_fate. by destruct (fates w).
Qed.

Lemma reads_books {A} j c (m : tx A) : within_frame reads_only m → within_frame (books j c) m.
Proof.
  intros Hm w. split; [by apply reads_keeps|]. destruct (Hm w) as (_ & (_ & Hd) & Hs). unfold slot_ok. by rewrite Hs.
Qed.

Lemma insert_books j c w path e :
  path ≠ ActivePath → (∀ id p, rollback_record_path id = Ok p → path ≠ p) →
  books j c w (with_store w (<[path := e]> (store w))).
Proof.
  intros Ha Hr. split; [split; [done|]; simpl; by rewrite lookup_insert_ne|]. split; [done|].
  intros Hs Hop. destruct (Hs Hop) as (recovery & digest & p & H2 & H3 & Hp & H5 & H6).
  exists recovery, digest, p. simpl. rewrite lookup_insert_ne by by eapply Hr. done.
Qed.

Lemma receipt_path_kind key path : receipt_path key = Ok path → ∃ n, path = ReceiptPath n.
Proof. unfold receipt_path. destruct (domain _); intros [= <-]; eauto. Qed.
Lemma reconciliation_path_kind key path :
  reconciliation_receipt_path key = Ok path → ∃ n, path = ReconciliationReceiptPath n.
Proof. unfold reconciliation_receipt_path. destruct (domain _); intros [= <-]; eauto. Qed.
Lemma rollback_path_kind key path : rollback_record_path key = Ok path → ∃ n, path = RollbackRecordPath n.
Proof. unfold rollback_record_path. destruct (domain _); intros [= <-]; eauto. Qed.

Lemma persist_receipt_books j c r : within_frame (books j c) (persist_receipt r).
Proof.
  unfold persist_receipt. apply (frame_bind_lift _). intros path (n & ->)%receipt_path_kind.
  unfold persist_record. case_match; [apply (frame_raise _)|]. apply (frame_replace _).
  intros w. apply insert_books; [done|]. by intros id p (m & ->)%rollback_path_kind.
Qed.

Lemma reads_load {T} (decode : Encoded → option T) path : within_frame reads_only (load_record decode path).
Proof. unfold load_record. frames. Qed.
Lemma reads_load_journal : within_frame reads_only load_journal.
Proof. unfold load_journal. frames. apply reads_load. Qed.
Lemma reads_load_receipt key : within_frame reads_only (load_receipt key).
Proof. unfold load_receipt, load_result. frames. apply reads_load. Qed.
Lemma reads_load_rollback id : within_frame reads_only (load_rollback_record id).
Proof. unfold load_rollback_record. frames. apply reads_load. Qed.
Lemma reads_lock : within_frame reads_only lock.
Proof.
  intros w. unfold lock. pose proof (frame_fates (R:=reads_only) w) as Hf. by destruct (next_fate w) as [[] w'].
Qed.

Lemma persist_rollback_books j c s : within_frame (books j c) (persist_rollback_record j c s).
Proof.
  unfold persist_rollback_record. case_match; [apply (frame_ret _)|]. case_match; [apply (frame_ret _)|].
  apply (frame_bind_lift _). intros recovery Er. apply (frame_bind_lift _). intros digest Ed. cbv zeta.
  apply (frame_bind _); [apply reads_books, reads_load_rollback|]. intros [stored|]; [frames|].
  apply (frame_bind_lift _). intros path Ep. unfold persist_record.
  case_match eqn:El; [apply (frame_raise _)|]. apply Z.ltb_ge in El. apply (frame_replace _). intros w.
  pose proof (rollback_path_kind _ _ Ep) as (n & ->). split; [split; [done|]; simpl; by rewrite lookup_insert_ne|].
  split; [done|]. intros _ Hop. exists recovery, digest, (RollbackRecordPath n). simpl. rewrite lookup_insert_eq.
  repeat (split; [done|]). by right.
Qed.

(** ** Records of a calm world *)
Lemma persist_record_calm path e w :
  calm w → encoded_len e <= MAX_DURABLE_RECORD_BYTES →
  persist_record path e w = (with_store w (<[path := e]> (store w)), Return tt).
Proof.
  intros Hc Hl. unfold persist_record. rewrite (proj2 (Z.ltb_ge _ _)) by done. by rewrite replace_calm.
Qed.

Lemma load_record_calm {T} (decode : Encoded → option T) path e v w :
  calm w → store w !! path = Some e → encoded_len e <= MAX_DURABLE_RECORD_BYTES → decode e = Some v →
  load_record decode path w = (w, Return (Some v)).
Proof.
  intros Hc Hp Hl Hd. unfold load_record. rewrite (bind_run _ _ _ _ _ (observe_calm _ _ w Hc)), Hp.
  rewrite (proj2 (Z.ltb_ge _ _)) by done. by rewrite Hd.
Qed.

Lemma load_absent_calm {T} (decode : Encoded → option T) path w :
  calm w → store w !! path = None → load_record decode path w = (w, Return None).
Proof.
  intros Hc Hp. unfold load_record. by rewrite (bind_run _ _ _ _ _ (observe_calm _ _ w Hc)), Hp.
Qed.

Lemma persist_rollback_calm j c s w :
  calm w → slot_ok j c w → ∃ w', persist_rollback_record j c s w = (w', Return tt) ∧ calm w'.
Proof.
  intros Hc Hs. unfold persist_rollback_record. fold move_use_case.
  destruct (bool_decide (r_operation (j_request j) = move_use_case)) eqn:Eop; simpl; [|eauto]. bools.
  destruct (is_empty (j_recovery_files j)) eqn:Ee; [eauto|]. case_match; [eauto|].
  destruct (Hs Eop) as (recovery & digest & path & Er & Ed & Ep & Hl & Hslot).
  rewrite (lift_run _ _ _ recovery) by done. rewrite (lift_run _ _ _ digest) by done. cbv zeta.
  unfold load_rollback_record. rewrite Ep. destruct Hslot as [Hn|Hsome].
  - rewrite (bind_run _ _ w w None). 2:{ by rewrite (lift_run _ _ _ path), (bind_run _ _ _ _ _ (load_absent_calm _ _ _ Hc Hn)). }
    rewrite (lift_run _ _ _ path) by done. rewrite persist_record_calm by done. eauto.
  - rewrite (bind_run _ _ w w (Some (rollback_record_of j c recovery digest))).
    2:{ rewrite (lift_run _ _ _ path) by done.
        rewrite (bind_run _ _ _ _ _ (load_record_calm _ _ _ _ _ Hc Hsome Hl (rollback_round_trip _))).
        rewrite (lift_run _ _ _ tt).
        - cbn [b_effect_id rollback_record_of]. by rewrite bool_decide_eq_true_2.
        - assert (record_digest (rollback_record_of j c recovery digest) = Ok digest) as Ed' by exact Ed.
          unfold record_validate. cbn [b_version b_recovery_files b_recovery_digest b_record_digest rollback_record_of].
          rewrite Ee, Er. cbn [negb orb]. rewrite Z.eqb_refl. cbn [negb orb]. rewrite bool_decide_eq_true_2 by done.
          cbn [negb].
          rewrite Ed'. by rewrite bool_decide_eq_true_2. }
    rewrite bool_decide_eq_true_2 by done. simpl. eauto.
Qed.
End recovery.
