(* ===== verification/EditAtomic.v ===== *)
(** * Source edits: an edit is atomic across crashes

    A triple describes every way a transaction of [EditFiles] can end: what
    holds when it returns, and the crash condition that holds at any point
    where it raises or the process dies.  With the crash condition [False] the
    same triple says that the transaction returns.

    [Inv] is the crash condition of one edit: its journal is active and each
    planned file holds its pre- or postimage, or no journal is active and the
    plan is not or wholly published. *)
From stdpp Require Import base numbers strings gmap list sorting.
From S2P Require Import Prelude RustText Bytes PolicyRouting EditContract EditRecords EditFiles EditPlan.
From S2P Require Import EditJournal EditLogic EditVerify EditExecute EditPublish EditRecovery.

#[local] Open Scope Z_scope.
#[local] Open Scope rust_scope.

(** ** Triples with a crash condition *)
Section triples.
Context `{DurableCodec}.

Definition triple {A} (P : World → Prop) (m : tx A) (Q : A → World → Prop) (I : World → Prop) : Prop :=
  ∀ w, P w → match m w with (w', Return a) => Q a w' | (w', _) => I w' end.

(** Kept by reading. *)
Definition stable (P : World → Prop) : Prop := ∀ w w', reads_only w w' → P w → P w'.

Lemma triple_ret {A} (a : A) (P : World → Prop) (Q : A → World → Prop) I :
  (∀ w, P w → Q a w) → triple P (ret a) Q I.
Proof. intros HQ w Hw. by apply HQ. Qed.

Lemma triple_raise {A} e (P : World → Prop) (Q : A → World → Prop) (I : World → Prop) :
  (∀ w, P w → I w) → triple P (raise e) Q I.
Proof. intros HI w Hw. by apply HI. Qed.

Lemma triple_bind {A B} (m : tx A) (k : A → tx B) P R Q I :
  triple P m R I → (∀ a, triple (R a) (k a) Q I) → triple P (bind m k) Q I.
Proof.
  intros Hm Hk w Hw. specialize (Hm w Hw). unfold bind. destruct (m w) as [w1 [a|e|]]; [|done..].
  exact (Hk a w1 Hm).
Qed.

Lemma triple_bind_lift {A B} (r : edit A) (k : A → tx B) P Q (I : World → Prop) :
  (∀ w, P w → I w) → (∀ a, r = Ok a → triple P (k a) Q I) → triple P (bind (lift r) k) Q I.
Proof. intros HI Hk. destruct r as [a|e]; [by apply Hk|]. intros w Hw. by apply HI. Qed.

Lemma triple_bind_ok {A B} (r : edit A) a (k : A → tx B) P Q I :
  r = Ok a → triple P (k a) Q I → triple P (bind (lift r) k) Q I.
Proof. by intros ->. Qed.

Lemma triple_weaken {A} (m : tx A) (P P' : World → Prop) (Q Q' : A → World → Prop) (I I' : World → Prop) :
  triple P m Q I → (∀ w, P' w → P w) → (∀ a w, Q a w → Q' a w) → (∀ w, I w → I' w) → triple P' m Q' I'.
Proof.
  intros Hm HP HQ HI w Hw. specialize (Hm w (HP w Hw)). destruct (m w) as [w' [a|e|]]; auto.
Qed.

Lemma triple_exists {A X} (m : tx A) (P : X → World → Prop) Q I :
  (∀ x, triple (P x) m Q I) → triple (λ w, ∃ x, P x w) m Q I.
Proof. intros Hm w [x Hx]. by apply (Hm x). Qed.

Lemma triple_attempt {A} (m : tx A) P (Q : A → World → Prop) (J : World → Prop) :
  triple P m Q J →
  triple P (attempt m) (λ r w, match r with Ok a => Q a w | Err _ => J w end) J.
Proof. intros Hm w Hw. specialize (Hm w Hw). unfold attempt. by destruct (m w) as [w' [a|e|]]. Qed.

(** A computation that only reads, with what it tells about the world. *)
Lemma triple_reads {A} (m : tx A) (P I : World → Prop) (Q : A → World → Prop) :
  within_frame reads_only m → stable P → (∀ w, P w → I w) →
  (∀ w w' a, P w → P w' → m w = (w', Return a) → Q a w') → triple P m Q I.
Proof.
  intros Hm Hs HI HQ w Hw. pose proof (Hs _ _ (Hm w) Hw) as Hw'. destruct (m w) as [w' [a|e|]] eqn:E.
  - exact (HQ w w' a Hw Hw' E).
  - by apply HI.
  - by apply HI.
Qed.

Lemma triple_frame {A} R (m : tx A) (P I : World → Prop) :
  within_frame R m → (∀ w w', R w w' → P w → P w') → (∀ w, P w → I w) → triple P m (λ _, P) I.
Proof.
  intros Hm HR HI w Hw. pose proof (HR _ _ (Hm w) Hw) as Hw'. destruct (m w) as [w' [a|e|]]; auto.
Qed.

Lemma triple_replace o f (P Q I : World → Prop) :
  stable P → (∀ w, P w → Q (f w)) → (∀ w, P w → I w) → (∀ w, Q w → I w) →
  triple P (replace o f) (λ _, Q) I.
Proof.
  intros Hs HQ HPI HQI w Hw. unfold replace. pose proof (frame_fates (R:=reads_only) w) as Hf.
  destruct (next_fate w) as [[] w1]; specialize (Hs _ _ Hf Hw); auto.
Qed.

(** A calm run of a replacement returns. *)
Lemma triple_replace_calm o f (P Q : World → Prop) I :
  (∀ w, P w → calm w ∧ Q (f w)) → triple P (replace o f) (λ _, Q) I.
Proof. intros HP w Hw. destruct (HP w Hw) as [Hc HQ]. by rewrite replace_calm. Qed.

(** A run that is known to return. *)
Lemma triple_run {A} (m : tx A) (P : World → Prop) (Q : A → World → Prop) I :
  (∀ w, P w → ∃ w' a, m w = (w', Return a) ∧ Q a w') → triple P m Q I.
Proof. intros HP w Hw. destruct (HP w Hw) as (w' & a & -> & HQ). done. Qed.

Lemma triple_returns {A} P (m : tx A) Q w :
  triple P m Q (λ _, False) → P w → ∃ w' a, m w = (w', Return a) ∧ Q a w'.
Proof. intros Hm Hw. specialize (Hm w Hw). destruct (m w) as [w' [a|e|]]; [eauto|done..]. Qed.

Lemma triple_crash {A} P (m : tx A) (Q : A → World → Prop) (I : World → Prop) w :
  triple P m Q I → (∀ a w, Q a w → I w) → P w → I (m w).1.
Proof. intros Hm HQ Hw. specialize (Hm w Hw). destruct (m w) as [w' [a|e|]]; eauto. Qed.
End triples.

(** ** Recovery of one journal *)
Section journal.
Context `{DurableCodec} `{Sha256} `{EditDigests} (ports : Ports).

Definition active (w : World) : option Encoded := store w !! ActivePath.

(** The receipts that recovery may write for a journal. *)
Definition forward_outcome : SourceEditOutcome :=
  OReconciled true (str "source edit crash recovery confirmed the edit already committed to disk").
Definition back_outcome (j : SourceEditJournalV1) : SourceEditDurableOutcomeV1 :=
  with_files (from_live (r_operation (j_request j))
    (OFailed (str "source edit crash recovery restored every journaled preimage"))) (j_candidate_files j).

Inductive recovery_receipt (j : SourceEditJournalV1) : SourceEditDurableResultV1 → Prop :=
  | forward_receipt c r :
      applied_record j forward_outcome c (now_micros ports 10) None = Ok r → recovery_receipt j r
  | back_receipt r :
      durable_record j (back_outcome j) None (now_micros ports 11) Failed Reconciled None = Ok r →
      recovery_receipt j r
  | applied_receipt o c e ob v r :
      encoded_len (journal_to_json (with_state j (Applied o c e ob v))) <= MAX_DURABLE_RECORD_BYTES →
      applied_durable_record j o c e ob v = Ok r → recovery_receipt j r.

Definition receipts_fit (j : SourceEditJournalV1) : Prop :=
  ∀ r, recovery_receipt j r → encoded_len (result_to_json r) <= MAX_DURABLE_RECORD_BYTES.

(** A prepared journal as an apply writes it, for [post] as the predicted state,
    where the directories are [d]. *)
Record journal_ready (d : gset rstr) (j : SourceEditJournalV1) (post : rstr) : Prop := {
  jr_prepared : j_state j = Prepared;
  jr_predicted : j_predicted_state j = Some post;
  jr_plan : exact_plan ports d (j_candidate_files j) (j_recovery_files j) (j_expected_state j) post;
  jr_record : record_ready j;
  jr_authority : validate_durable_authority (r_authority (j_request j))
    (r_authority_proof (j_request j)) = Ok tt;
  jr_persisted : validate_persisted j = Ok tt;
  jr_path : ∃ path, receipt_path (r_idempotency_key (j_request j)) = Ok path;
}.

Context (j : SourceEditJournalV1) (post : rstr) (t0 : gmap rstr File) (d0 : gset rstr) (Hready : journal_ready d0 j post).

Notation plan := (j_recovery_files j).

(** Files outside the plan are as they were, and so are the directories where
    each new file has another beside it. *)
Definition placed (w : World) : Prop :=
  same_outside plan t0 (tree w) ∧ (sheltered plan t0 → dirs w = d0).

(** The journal with state [s] is active. *)
Definition parked (s : SourceEditJournalStateV1) (w : World) : Prop :=
  active w = Some (journal_to_json (with_state j s))
  ∧ encoded_len (journal_to_json (with_state j s)) <= MAX_DURABLE_RECORD_BYTES
  ∧ slot_ok j post w
  ∧ placed w.

(** What the state of a journal promises of the files. *)
Definition promised (s : SourceEditJournalStateV1) (w : World) : Prop :=
  match s with
  | Prepared => torn plan (tree w)
  | Applied o c _ _ _ => holds (d_success o) plan (tree w) ∧ digest_ok c = true
  end.

Definition pending (w : World) : Prop := ∃ s, parked s w ∧ promised s w.

Definition idle (w : World) : Prop :=
  active w = None ∧ placed w ∧ ∃ side, holds side plan (tree w).

Definition Inv (w : World) : Prop := pending w ∨ idle w.

Lemma parked_stable s : stable (parked s).
Proof.
  intros w w' (Ht & (_ & Hd) & Hs) (Ha & Hl & Hsl & Ho). unfold parked, active, slot_ok, placed in *.
  rewrite Ht, Hs, Hd. done.
Qed.

Lemma parked_books s w w' : books j post w w' → parked s w → parked s w'.
Proof.
  intros [[Ht Ha] [Hd Hb]] (Hac & Hl & Hsl & Ho). unfold parked, active, placed in *. rewrite Ht, Ha, Hd.
  split; [done|]. split; [done|]. split; [by apply Hb|done].
Qed.

Lemma parked_torn s w w' : stays_torn plan w w' → torn plan (tree w) → parked s w → parked s w'.
Proof.
  intros (Hs & _ & Hout & Hd) Ht (Hac & Hl & Hsl & Ho & Hdir). unfold parked, active, slot_ok, keeps_store, placed in *.
  rewrite Hs. repeat (split; [done|]). split; [by eapply same_outside_trans|]. intros Hsh.
  rewrite Hd; [by apply Hdir|done|]. apply (sheltered_torn plan t0); try done.
  by apply (ep_ok _ _ _ _ _ _ (jr_plan _ _ _ Hready)).
Qed.

Lemma Inv_stable : stable Inv.
Proof.
  intros w w' Hr [(s & Hp & Hs)|Hi]; [left; exists s; split; [by eapply parked_stable|]|right];
    destruct Hr as (Ht & (_ & Hd) & Hst); unfold promised, idle, active, placed in *; by rewrite Ht, ?Hst, ?Hd.
Qed.

(** Bookkeeping while the whole plan is on one side. *)
Definition booked s side (w : World) : Prop := parked s w ∧ promised s w ∧ holds side plan (tree w).

Lemma booked_books s side w w' : books j post w w' → booked s side w → booked s side w'.
Proof.
  intros Hb (Hp & Hs & Hh). split; [by eapply parked_books|]. destruct Hb as [[Ht _] _].
  unfold promised. by rewrite Ht.
Qed.

Lemma booked_stable s side : stable (booked s side).
Proof.
  intros w w' Hr (Hp & Hs & Hh). split; [by eapply parked_stable|]. destruct Hr as (Ht & _ & _).
  unfold promised. by rewrite Ht.
Qed.

Lemma booked_Inv s side w : booked s side w → Inv w.
Proof. intros (Hp & Hs & _). left. by exists s. Qed.

Lemma rollback_record_books s c ok : within_frame (books j post) (persist_rollback_record (with_state j s) c ok).
Proof.
  destruct (decide (j_predicted_state j = Some c)) as [E|E].
  - assert (c = post) as -> by (rewrite (jr_predicted _ _ _ Hready) in E; congruence).
    exact (persist_rollback_books j post ok).
  - unfold persist_rollback_record. cbn [with_state j_request j_recovery_files j_predicted_state].
    destruct (_ || _); [apply (frame_ret _)|].
    rewrite (bool_decide_eq_false_2 (j_predicted_state j = Some c)) by done. rewrite orb_true_r.
    apply (frame_ret _).
Qed.

Lemma clear_books s side :
  triple (booked s side) clear_journal (λ _, idle) Inv.
Proof.
  apply triple_replace; [apply booked_stable| |apply booked_Inv|by right].
  intros w ((_ & _ & _ & Ho) & _ & Hh). split; [apply lookup_delete_eq|]. split; [done|]. by exists side.
Qed.

Lemma finish_books s side r : triple (booked s side) (finish_recovery r) (λ _, idle) Inv.
Proof.
  eapply (triple_bind _ _ _ (λ _, booked s side)); [|intros []; apply clear_books].
  apply (triple_frame (books j post)); [apply persist_receipt_books|apply booked_books|apply booked_Inv].
Qed.

Lemma booked_record s side c ok (r : edit SourceEditDurableResultV1) :
  triple (booked s side)
    (let! _ := persist_rollback_record (with_state j s) c ok in
     let! record := lift r in finish_recovery record) (λ _, idle) Inv.
Proof.
  eapply (triple_bind _ _ _ (λ _, booked s side)).
  - apply (triple_frame (books j post)); [apply rollback_record_books|apply booked_books|apply booked_Inv].
  - intros []. apply triple_bind_lift; [apply booked_Inv|]. intros record _. apply finish_books.
Qed.

(** The journal that is loaded is the active one. *)
Lemma load_journal_return w w' r :
  load_journal w = (w', Return r) →
  match active w with
  | None => r = None
  | Some e => ∃ k, r = Some k ∧ journal_from_json e = Some k
  end.
Proof.
  unfold load_journal, load_record, active. intros E. apply bind_return in E as (k & w1 & E1 & E).
  apply bind_return in E1 as (file & w2 & [-> (_ & _ & Hs)]%observe_return & E1). rewrite Hs in E1.
  destruct (store w !! ActivePath) as [e|]; [|injection E1 as <- <-; by injection E as <- <-].
  destruct (_ <? _); [discriminate|]. destruct (journal_from_json e) as [k'|] eqn:Ek; [|discriminate].
  injection E1 as <- <-. apply bind_return in E as (? & ? & _ & E). apply bind_return in E as (? & ? & _ & E).
  injection E as <- <-. eauto.
Qed.

Lemma load_pending s (P : World → Prop) :
  stable P → (∀ w, P w → parked s w) → (∀ w, P w → Inv w) →
  triple P load_journal (λ r w, r = Some (with_state j s) ∧ P w) Inv.
Proof.
  intros Hs Hp HI. apply triple_reads; [apply reads_load_journal|done|done|].
  intros w w' r Hw Hw' E%load_journal_return. split; [|done]. destruct (Hp w Hw) as (Ha & _).
  rewrite Ha in E. destruct E as (k & -> & Ek). rewrite journal_round_trip in Ek. congruence.
Qed.

(** The prepared journal: forward when the result is on disk, back otherwise. *)
Definition torn_apart (w : World) : Prop := parked Prepared w ∧ torn plan (tree w).

Lemma torn_stable : stable torn_apart.
Proof.
  intros w w' Hr [Hp Ht]. split; [by eapply parked_stable|]. destruct Hr as (E & _). by rewrite E.
Qed.
Lemma torn_Inv w : torn_apart w → Inv w.
Proof. intros [Hp Ht]. left. by exists Prepared. Qed.

Lemma forward_triple c :
  triple torn_apart (roll_forward ports (with_state j Prepared) c) (λ _, idle) Inv.
Proof.
  unfold roll_forward. cbv zeta.
  eapply (triple_bind _ _ _ (λ _, booked Prepared true)); [|intros []; apply booked_record].
  apply triple_reads; [apply reads_commit|apply torn_stable|apply torn_Inv|].
  intros w w' [] [_ _] [Hp Ht] E. split; [done|]. split; [done|].
  pose proof (frame_run _ _ _ _ _ (reads_commit _ _) E) as (Et & _). rewrite Et.
  by eapply commit_return.
Qed.

Lemma plan_NoDup : NoDup plan.
Proof. destruct (jr_plan _ _ _ Hready) as [[Hnd _] _]. by apply NoDup_fmap_1 in Hnd. Qed.

Lemma back_triple : triple torn_apart (roll_back ports (with_state j Prepared)) (λ _, idle) Inv.
Proof.
  unfold roll_back. pose proof (ep_ok _ _ _ _ _ _ (jr_plan _ _ _ Hready)) as Hok.
  eapply (triple_bind _ _ _ (λ _, booked Prepared false)).
  - intros w [Hp Ht].
    pose proof (rollback_stays_torn (opens ports) plan Hok plan ltac:(done) w) as Hf.
    assert (torn_apart (rollback_planned_source_edit_files (opens ports) plan w).1) as Hw'.
    { split; [by eapply parked_torn|]. by apply Hf. }
    cbn [with_state j_recovery_files].
    destruct (rollback_planned_source_edit_files (opens ports) plan w) as [w' [[]|e|]] eqn:E; [|by apply torn_Inv..].
    destruct Hw' as [Hp' Ht']. split; [done|]. split; [done|].
    exact (rollback_return (opens ports) plan Hok plan w w' ltac:(done) plan_NoDup E).
  - intros []. eapply (triple_bind _ _ _ (λ _, booked Prepared false)).
    + apply triple_reads; [apply reads_digest|apply booked_stable|apply booked_Inv|done].
    + intros c. case_bool_decide; cbn [negb]; [|apply triple_raise, booked_Inv].
      apply triple_bind_lift; [apply booked_Inv|]. intros r _. apply finish_books.
Qed.

(** Recovery, at every point where it may stop. *)
Lemma recover_triple scope : triple Inv (recover_source_edit_transaction ports scope) (λ _, idle) Inv.
Proof.
  unfold recover_source_edit_transaction. intros w [(s & Hp & Hs)|Hi].
  2:{ revert w Hi. eapply (triple_bind _ _ _ (λ r w, r = None ∧ idle w)).
      - apply triple_reads; [apply reads_load_journal| |by right|].
        + intros x y (Ht & (_ & Hd) & Hst) Hi. unfold idle, active, placed in *. by rewrite Ht, Hst, Hd.
        + intros x y r [Ha _] Hi E%load_journal_return. by rewrite Ha in E.
      - intros r w [-> Hi]. exact Hi. }
  destruct s as [|o c e ob v].
  - assert (torn_apart w) as Hw by done. clear Hp Hs. revert w Hw.
    eapply triple_bind; [apply (load_pending Prepared); [apply torn_stable|by intros ? []|apply torn_Inv]|].
    intros r w [-> Hw]. revert w Hw. case_bool_decide; cbn [negb]; [|apply triple_raise, torn_Inv].
    cbn [with_state j_state j_recovery_files j_candidate_files j_predicted_state].
    destruct (is_empty plan) eqn:Ee.
    { exfalso. apply (ep_some _ _ _ _ _ _ (jr_plan _ _ _ Hready)). by destruct plan. }
    eapply (triple_bind _ _ _ (λ _, torn_apart)).
    + apply triple_reads; [apply reads_digest|apply torn_stable|apply torn_Inv|done].
    + intros d. case_bool_decide; [apply forward_triple|apply back_triple].
  - assert (booked (Applied o c e ob v) (d_success o) w) as Hw by (split; [done|]; split; [done|]; apply Hs).
    clear Hp Hs. revert w Hw.
    eapply triple_bind; [apply (load_pending (Applied o c e ob v));
      [apply booked_stable|by intros ? []|apply booked_Inv]|].
    intros r w [-> Hw]. revert w Hw. case_bool_decide; cbn [negb]; [|apply triple_raise, booked_Inv].
    apply booked_record.
Qed.

(** ** Recovery without failures returns *)
Lemma load_journal_calm s w : calm w → parked s w → load_journal w = (w, Return (Some (with_state j s))).
Proof.
  intros Hc (Ha & Hl & _). unfold load_journal.
  rewrite (bind_run _ _ _ _ _ (load_record_calm _ _ _ _ _ Hc Ha Hl (journal_round_trip _))).
  rewrite (lift_run _ _ _ tt) by exact (jr_authority _ _ _ Hready).
  by rewrite (lift_run _ _ _ tt) by exact (jr_persisted _ _ _ Hready).
Qed.

Lemma finish_calm r w :
  calm w → ef_idempotency_key (u_effect r) = r_idempotency_key (j_request j) →
  encoded_len (result_to_json r) <= MAX_DURABLE_RECORD_BYTES →
  ∃ w', finish_recovery r w = (w', Return tt).
Proof.
  intros Hc Hk Hl. destruct (jr_path _ _ _ Hready) as [path Hp]. unfold finish_recovery, persist_receipt.
  rewrite (bind_run _ _ w (with_store w (<[path := result_to_json r]> (store w))) tt).
  2:{ rewrite (lift_run _ _ _ path) by by rewrite Hk. by apply persist_record_calm. }
  unfold clear_journal. rewrite replace_calm by done. eauto.
Qed.

Lemma booked_record_calm s c ok (record : edit SourceEditDurableResultV1) r w :
  calm w → slot_ok j post w → record = Ok r →
  ef_idempotency_key (u_effect r) = r_idempotency_key (j_request j) →
  encoded_len (result_to_json r) <= MAX_DURABLE_RECORD_BYTES →
  ∃ w', (let! _ := persist_rollback_record (with_state j s) c ok in
         let! record := lift record in finish_recovery record) w = (w', Return tt).
Proof.
  intros Hc Hslot -> Hk Hl.
  assert (∃ w', persist_rollback_record (with_state j s) c ok w = (w', Return tt) ∧ calm w') as (w' & E & Hc').
  { destruct (decide (j_predicted_state j = Some c)) as [E|E].
    - assert (c = post) as -> by (rewrite (jr_predicted _ _ _ Hready) in E; congruence).
      by apply (persist_rollback_calm (with_state j s)).
    - exists w. split; [|done]. unfold persist_rollback_record.
      cbn [with_state j_request j_recovery_files j_predicted_state]. destruct (_ || _); [done|].
      rewrite (bool_decide_eq_false_2 (j_predicted_state j = Some c)) by done. by rewrite orb_true_r. }
  rewrite (bind_run _ _ _ _ _ E). by apply finish_calm.
Qed.

Lemma digest_of_ok g files d : digest_of g files = Ok d → digest_ok d = true.
Proof.
  unfold digest_of, digest_states, domain. destruct (states_of g files); [|discriminate].
  destruct (state_canonical _) eqn:E; [|discriminate]. intros [= <-]. by eapply state_digest_ok.
Qed.

Context (Hsep : separates (j_candidate_files j) plan post) (Hfit : receipts_fit j)
  (Hshelter : sheltered plan t0).

Lemma applied_termination v ok b :
  applied_effect_termination b v ok ≠ NoChange ∧ applied_effect_termination b v ok ≠ EffectUnknown
  ∧ applied_effect_termination b v ok ≠ Cancelled ∧ applied_effect_termination b v ok ≠ TimedOut.
Proof. unfold applied_effect_termination. destruct (negb ok); [done|]. by destruct (_ || _). Qed.

Lemma applied_record_ready o c e t ob :
  digest_ok c = true → t ≠ NoChange ∧ t ≠ EffectUnknown ∧ t ≠ Cancelled ∧ t ≠ TimedOut →
  ∃ r, durable_record j o (Some c) e t Reconciled ob = Ok r
  ∧ ef_idempotency_key (u_effect r) = r_idempotency_key (j_request j).
Proof.
  intros Hc (H1' & H2' & H3' & H4'). apply durable_record_ready; [apply (jr_record _ _ _ Hready)|..]; try done.
  - by intros d [= <-].
  - by intros [].
Qed.

Lemma forward_calm w : calm w → torn_apart w → all_post plan (tree w) →
  ∀ c, digest_ok c = true → ∃ w', roll_forward ports (with_state j Prepared) c w = (w', Return tt).
Proof.
  intros Hc [(_ & _ & Hslot & _ & Hdir) _] Hpost c Hd. unfold roll_forward. cbv zeta.
  pose proof (ep_reach _ _ _ _ _ _ (jr_plan _ _ _ Hready)) as Hreach. rewrite <- (Hdir Hshelter) in Hreach.
  rewrite (bind_run _ _ _ _ _ (commit_calm (opens ports) plan w Hc Hreach Hpost)).
  destruct (applied_record_ready (from_live (r_operation (j_request j)) forward_outcome) c (now_micros ports 10)
    (applied_effect_termination (r_verification_requested (j_request j)) None true) None Hd
    (applied_termination _ _ _)) as (r & Er & Hk).
  apply (booked_record_calm _ _ _ _ r); [done|done|exact Er|done|].
  apply Hfit. apply (forward_receipt _ c). unfold applied_record. rewrite (jr_prepared _ _ _ Hready). exact Er.
Qed.

Lemma back_calm w : calm w → torn_apart w → ∃ w', roll_back ports (with_state j Prepared) w = (w', Return tt).
Proof.
  intros Hc [Hp Ht]. pose proof (jr_plan _ _ _ Hready) as Hplan. unfold roll_back.
  assert (dirs w = d0) as Hdir by by apply Hp.
  destruct (rollback_calm (opens ports) plan (ep_ok _ _ _ _ _ _ Hplan) d0 (ep_reach _ _ _ _ _ _ Hplan) w Hc Hdir Ht)
    as (w1 & E1 & Hc1).
  pose proof (frame_run _ _ _ _ _ (rollback_stays_torn (opens ports) plan (ep_ok _ _ _ _ _ _ Hplan) plan ltac:(done)) E1)
    as (_ & _ & _ & Hd1). rewrite Hdir in Hd1.
  assert (dirs w1 = d0) as Hdir1.
  { apply Hd1; [done|]. apply (sheltered_torn plan t0); try done; [apply (ep_ok _ _ _ _ _ _ Hplan)|apply Hp]. }
  pose proof (ep_cands _ _ _ _ _ _ Hplan) as Hcands. rewrite <- Hdir1 in Hcands.
  cbn [with_state j_recovery_files j_candidate_files j_expected_state j_request].
  rewrite (bind_run _ _ _ _ _ E1).
  pose proof (rollback_return (opens ports) plan (ep_ok _ _ _ _ _ _ Hplan) plan w w1 ltac:(done) plan_NoDup E1)
    as Hpre.
  rewrite (bind_run _ _ _ _ _ (state_digest_calm (opens ports) _ w1 _ Hc1 Hcands
    (ep_pre _ _ _ _ _ _ Hplan _ Hpre))).
  rewrite bool_decide_eq_true_2 by done. cbn [negb].
  destruct (durable_record_ready j (back_outcome j) None (now_micros ports 11) Failed Reconciled None)
    as (r & Er & Hk); [apply (jr_record _ _ _ Hready)|done..|by intros []|].
  rewrite (lift_run _ _ _ r) by exact Er. apply finish_calm; [done..|]. apply Hfit. by apply back_receipt.
Qed.

Lemma recover_calm w :
  calm w → Inv w →
  ∃ w', recover_source_edit_transaction ports (r_scope (j_request j)) w = (w', Return tt).
Proof.
  intros Hc [(s & Hp & Hs)|[Ha _]]; unfold recover_source_edit_transaction.
  2:{ unfold load_journal. rewrite (bind_run _ _ w w None).
      - eauto.
      - by rewrite (bind_run _ _ _ _ _ (load_absent_calm _ _ _ Hc Ha)). }
  rewrite (bind_run _ _ _ _ _ (load_journal_calm s w Hc Hp)).
  cbn [with_state j_request]. rewrite bool_decide_eq_true_2 by done. cbn [negb with_state j_state].
  destruct s as [|o c e ob v].
  - cbn [with_state j_recovery_files j_candidate_files j_predicted_state].
    destruct (is_empty plan); [eauto|]. destruct (Hsep (tree w) Hs) as (d & Ed & Hd).
    pose proof (ep_cands _ _ _ _ _ _ (jr_plan _ _ _ Hready)) as Hcands.
    destruct Hp as (Ha & Hl & Hsl & Ho & Hdir). rewrite <- (Hdir Hshelter) in Hcands.
    rewrite (bind_run _ _ _ _ _ (state_digest_calm (opens ports) _ w _ Hc Hcands Ed)).
    assert (torn_apart w) as Hw by done.
    case_bool_decide as E; [|by apply back_calm].
    rewrite (jr_predicted _ _ _ Hready) in E. injection E as <-.
    apply forward_calm; [done|done|by apply Hd|by eapply digest_of_ok].
  - destruct Hs as [_ Hd]. unfold recover_applied.
    destruct (applied_record_ready o c e (applied_effect_termination (r_verification_requested (j_request j)) v
      (d_success o)) ob Hd (applied_termination _ _ _)) as (r & Er & Hk).
    apply (booked_record_calm _ _ _ _ r); [done|apply Hp|exact Er|done|].
    apply Hfit. apply (applied_receipt _ o c e ob v); [apply Hp|exact Er].
Qed.
End journal.
