(* ===== verification/EditSafety.v ===== *)
(** * Source edits: what an execution leaves behind

    The crash condition of [execute_source_edit]: wherever it stops, the files
    are untouched or [Inv] holds for the journal of its exact preview; and what
    the receipt it returns says about the files. *)
From stdpp Require Import base numbers strings gmap list sorting.
From S2P Require Import Prelude RustText Bytes PolicyRouting EditContract EditRecords EditFiles EditPlan.
From S2P Require Import EditJournal EditLogic EditVerify EditExecute EditPublish EditRecovery EditAtomic.

#[local] Open Scope Z_scope.
#[local] Open Scope rust_scope.

(** ** The effect of one journal *)
Section effect.
Context `{DurableCodec} `{Sha256} `{EditDigests} (ports : Ports).
Context (j : SourceEditJournalV1) (post : rstr) (t0 : gmap rstr File) (d0 : gset rstr)
  (Hready : journal_ready ports d0 j post).
Context (Hpre : all_pre (j_recovery_files j) t0) (Hhonest : honest (apply_primitives ports)).

Notation plan := (j_recovery_files j).
Notation Inv := (Inv j post t0 d0).
Notation parked := (parked j post t0 d0).
Notation booked := (booked j post t0 d0).
Notation idle := (idle j t0 d0).

(** What a returned result says about the files. *)
Definition told (dry_run : bool) (t : gmap rstr File) (res : SourceEditApplicationResult) (w : World) : Prop :=
  x_replayed res = false ∧ x_dry_run res = dry_run ∧
  ∃ effect, x_effect res = Some effect ∧
    match er_outcome (ef_receipt effect) with
    | Completed | Partial => if dry_run then tree w = t else all_post plan (tree w) ∧ same_outside plan t (tree w)
    | EffectUnknown => active w ≠ None
    | _ => tree w = t
    end.

Lemma told_live dry_run t r o v w :
  u_dry_run r = dry_run →
  match er_outcome (ef_receipt (u_effect r)) with
  | Completed | Partial => if dry_run then tree w = t else all_post plan (tree w) ∧ same_outside plan t (tree w)
  | EffectUnknown => active w ≠ None
  | _ => tree w = t
  end → told dry_run t (into_live_application_result r o v) w.
Proof. intros Hd Ho. split; [done|]. split; [done|]. exists (u_effect r). done. Qed.

(** The plan is on one side; on the side of the preimages nothing was written. *)
Definition kept (s : SourceEditJournalStateV1) (side : bool) (w : World) : Prop :=
  booked s side w ∧ (side = false → tree w = t0).

Lemma kept_stable s side : stable (kept s side).
Proof.
  intros w w' Hr [Hb Hk]. split; [by eapply booked_stable|]. destruct Hr as (Ht & _). by rewrite Ht.
Qed.
Lemma kept_books s side w w' : books j post w w' → kept s side w → kept s side w'.
Proof.
  intros Hb [Hk Ht]. split; [by eapply booked_books|]. destruct Hb as [[E _] _]. by rewrite E.
Qed.
Lemma kept_Inv s side w : kept s side w → Inv w.
Proof. intros [Hb _]. by eapply booked_Inv. Qed.

Definition done_with (side : bool) (w : World) : Prop :=
  idle w ∧ holds side plan (tree w) ∧ same_outside plan t0 (tree w) ∧ (side = false → tree w = t0).

Lemma kept_clear s side : triple (kept s side) clear_journal (λ _, done_with side) Inv.
Proof.
  apply triple_replace; [apply kept_stable| |apply kept_Inv|].
  - intros w [((_ & _ & _ & Ho) & _ & Hh) Hk].
    split; [|split; [done|]; split; [apply Ho|done]]. split; [apply lookup_delete_eq|]. split; [done|]. by exists side.
  - intros w (Hi & _). by right.
Qed.

Lemma kept_receipt s side r : triple (kept s side) (persist_receipt r) (λ _, kept s side) Inv.
Proof. apply (triple_frame (books j post)); [apply persist_receipt_books|apply kept_books|apply kept_Inv]. Qed.

Lemma kept_rollback s side c ok :
  triple (kept s side) (persist_rollback_record (with_state j s) c ok) (λ _, kept s side) Inv.
Proof.
  apply (triple_frame (books j post)); [by eapply rollback_record_books|apply kept_books|apply kept_Inv].
Qed.

(** Another journal takes the place of the active one. *)
Lemma active_slot w e : slot_ok j post w → slot_ok j post (with_store w (<[ActivePath := e]> (store w))).
Proof.
  intros Hs Hop. destruct (Hs Hop) as (recovery & digest & p & E1 & E2 & Ep & E4 & E5).
  exists recovery, digest, p. simpl. destruct (rollback_path_kind _ _ Ep) as [n ->].
  rewrite lookup_insert_ne by done. done.
Qed.

Lemma kept_journal s s' side :
  (∀ w, kept s side w → promised j s' w) →
  triple (kept s side) (persist_journal (with_state j s')) (λ _, kept s' side) Inv.
Proof.
  intros Hp. unfold persist_journal, persist_record. destruct (_ <? _) eqn:El; [apply triple_raise, kept_Inv|].
  apply Z.ltb_ge in El. apply triple_replace; [apply kept_stable| |apply kept_Inv|apply kept_Inv].
  intros w Hw. pose proof (Hp w Hw) as Hs. destruct Hw as [((_ & _ & Hslot & Ho) & _ & Hh) Hk].
  split; [|done]. split; [|by destruct s'].
  split; [apply lookup_insert_eq|]. split; [done|]. split; [by apply active_slot|done].
Qed.

(** The receipt is stored and the journal cleared. *)
Lemma kept_finish s side dry_run o v (record : edit SourceEditDurableResultV1) :
  (∀ r, record = Ok r → u_dry_run r = dry_run ∧
    ∀ w, done_with side w →
    match er_outcome (ef_receipt (u_effect r)) with
    | Completed | Partial => if dry_run then tree w = t0 else all_post plan (tree w) ∧ same_outside plan t0 (tree w)
    | EffectUnknown => active w ≠ None
    | _ => tree w = t0
    end) →
  triple (kept s side)
    (let! record := lift record in
     let! _ := persist_receipt record in
     let! _ := clear_journal in
     ret (into_live_application_result record o v)) (λ res w, Inv w ∧ told dry_run t0 res w) Inv.
Proof.
  intros Hr. apply triple_bind_lift; [apply kept_Inv|]. intros r Er. destruct (Hr r Er) as [Hd Ht].
  eapply triple_bind; [apply kept_receipt|]. intros [].
  eapply triple_bind; [apply kept_clear|]. intros []. apply triple_ret. intros w Hw.
  split; [right; apply Hw|]. apply told_live; [done|by apply Ht].
Qed.

Lemma from_live_success op o : d_success (from_live op o) = outcome_success o.
Proof. by destruct o. Qed.

Lemma applied_outcome dry_run c e v o ob :
  dry_run = false → r_dry_run (j_request j) = dry_run →
  ∀ r, durable_record j o (Some c) e
    (applied_effect_termination (r_verification_requested (j_request j)) v (d_success o)) Reconciled ob = Ok r →
  u_dry_run r = dry_run ∧ ∀ w, done_with (d_success o) w →
    match er_outcome (ef_receipt (u_effect r)) with
    | Completed | Partial => if dry_run then tree w = t0 else all_post plan (tree w) ∧ same_outside plan t0 (tree w)
    | EffectUnknown => active w ≠ None
    | _ => tree w = t0
    end.
Proof.
  intros -> Hd r (_ & -> & _ & ->)%durable_record_key. split; [done|].
  intros w (_ & Hh & Ho & Hk). unfold applied_effect_termination.
  destruct (d_success o); simpl; [|by apply Hk]. by destruct (_ || _).
Qed.

Lemma finalize_triple request o c ob :
  digest_ok c = true → r_dry_run (j_request j) = false →
  triple (kept Prepared (outcome_success o)) (finalize_effect ports request (with_state j Prepared) o c ob)
    (λ res w, Inv w ∧ told false t0 res w) Inv.
Proof.
  intros Hc Hd. unfold finalize_effect. cbv zeta.
  set (durable := from_live _ o).
  assert (d_success durable = outcome_success o) as Hs by apply from_live_success.
  assert (∀ s e b v w, kept s (outcome_success o) w → promised j (Applied durable c e b v) w) as Hp.
  { intros s e b v w [(_ & _ & Hh) _]. split; [by rewrite Hs|done]. }
  eapply triple_bind; [apply kept_journal, Hp|]. intros [].
  match goal with |- context [if edit_verify _ then persist_journal (with_state _ ?x) else _] => set (s1 := x) end.
  eapply (triple_bind _ _ _ (λ _ w, ∃ s, kept s (outcome_success o) w)).
  { destruct (edit_verify _); [|apply triple_ret; intros w Hw; eexists; exact Hw].
    eapply triple_weaken; [eapply (kept_journal _ s1); intros w Hw; exact (Hp _ _ _ _ w Hw)|intros w Hw; exact Hw|intros ? w Hw; eexists; exact Hw|done]. }
  intros []. eapply (triple_bind _ _ _ (λ _ w, ∃ s, kept s (outcome_success o) w)).
  { apply triple_exists. intros s. repeat case_match; try (apply triple_ret; intros w Hw; eexists; exact Hw).
    all: eapply triple_weaken; [eapply kept_journal; intros w Hw; exact (Hp _ _ _ _ w Hw)|intros w Hw; exact Hw
      |intros ? w Hw; eexists; exact Hw|done]. }
  intros []. apply triple_exists. intros s. eapply triple_bind; [exact (kept_rollback s _ _ _)|]. intros [].
  apply kept_finish. rewrite <- Hs. unfold applied_record. cbn [with_state j_state j_request].
  fold durable. rewrite <- Hs. by apply applied_outcome.
Qed.

Notation torn_apart := (torn_apart j post t0 d0).

Lemma unknown_triple o v :
  r_dry_run (j_request j) = false →
  triple torn_apart (persist_unknown ports (with_state j Prepared) o v)
    (λ res w, Inv w ∧ told false t0 res w) Inv.
Proof.
  intros Hd. unfold persist_unknown. apply triple_bind_lift; [apply torn_Inv|].
  intros r (_ & Ho & _ & Hr)%durable_record_key.
  eapply (triple_bind _ _ _ (λ _, torn_apart)).
  - apply (triple_frame (books j post)); [apply persist_receipt_books| |apply torn_Inv].
    intros w w' Hb [Hp Ht]. split; [by eapply parked_books|]. destruct Hb as [[E _] _]. by rewrite E.
  - intros []. apply triple_ret. intros w Hw. split; [by apply torn_Inv|].
    apply told_live; [by rewrite Hr|]. rewrite Ho. destruct Hw as [(Ha & _) _]. by rewrite Ha.
Qed.

(** What an apply that returned left in the files. *)
Definition applied_state (o : SourceEditOutcome) (complete : bool) (w : World) : Prop :=
  torn_apart w ∧ ((outcome_success o = false ∧ tree w = t0)
                  ∨ (outcome_success o = true ∧ (complete = true → all_post plan (tree w)))).

Lemma applied_stable o complete : stable (applied_state o complete).
Proof.
  intros w w' Hr [Ht Ho]. split; [by eapply torn_stable|]. destruct Hr as (E & _). by rewrite E.
Qed.

Lemma settle_triple request o complete :
  r_dry_run (j_request j) = false →
  triple (applied_state o complete) (settle_effect ports request (with_state j Prepared) post o complete)
    (λ res w, Inv w ∧ told false t0 res w) Inv.
Proof.
  intros Hd. unfold settle_effect. cbv zeta.
  eapply (triple_bind _ _ _ (λ c w, applied_state o complete w ∧ digest_ok c = true)).
  { apply triple_reads; [apply reads_digest|apply applied_stable|by intros w [Hw _]; apply torn_Inv|].
    intros w w' c _ Hw' [E _]%state_digest_return. split; [done|]. by eapply digest_of_ok. }
  intros c. destruct (outcome_success o && _) eqn:E1.
  { eapply triple_weaken; [by apply unknown_triple|by intros w [[Hw _] _]|done|done]. }
  destruct (negb (outcome_success o) && _) eqn:E2.
  { eapply triple_weaken; [by apply unknown_triple|by intros w [[Hw _] _]|done|done]. }
  intros w [[[Hp Ht] Ho] Hc]. apply (finalize_triple request o c _ Hc Hd).
  assert (holds (outcome_success o) plan (tree w) ∧ (outcome_success o = false → tree w = t0)) as [Hh Hk].
  { destruct Ho as [[E ->]|[E Hall]]; rewrite E in *; [done|]. simpl in E1. apply orb_false_iff in E1 as [E1 _].
    apply negb_false_iff in E1. split; [by apply Hall|done]. }
  split; [|done]. by split.
Qed.

(** Before the journal is written. *)
Definition ready_world (w : World) : Prop :=
  (tree w = t0 ∧ dirs w = d0) ∧ active w = None ∧ slot_ok j post w.

Lemma ready_Inv w : ready_world w → Inv w.
Proof.
  intros ([Ht Hd] & Ha & _). right. split; [done|]. unfold placed. rewrite Ht.
  split; [split; [apply same_outside_refl|done]|]. by exists false.
Qed.

Lemma stop_termination_kind stage stop :
  stop_at ports stage = Some stop → stop_termination stop = Cancelled ∨ stop_termination stop = TimedOut.
Proof.
  unfold stop_at, checkpoint. destruct (control ports); [|done].
  repeat case_match; intros [= <-]; auto.
Qed.

Lemma effect_triple request :
  r_dry_run (j_request j) = false →
  triple ready_world (run_effect ports request (with_state j Prepared) post)
    (λ res w, Inv w ∧ told false t0 res w) Inv.
Proof.
  intros Hd. unfold run_effect.
  eapply (triple_bind _ _ _ (λ _, kept Prepared false)).
  { unfold persist_journal, persist_record. destruct (_ <? _) eqn:El; [apply triple_raise, ready_Inv|].
    apply Z.ltb_ge in El. apply triple_replace; [| |apply ready_Inv|apply kept_Inv].
    - intros w w' (Ht & (_ & Hd') & Hs) Hw. unfold ready_world, active, slot_ok in *. by rewrite Ht, Hs, Hd'.
    - intros w ([Ht Hd'] & _ & Hslot). split; [|done].
      assert (all_pre plan (tree w)) as Hp by by rewrite Ht.
      split; [|split; [by eapply holds_torn|done]].
      split; [apply lookup_insert_eq|]. split; [done|]. split; [by apply active_slot|].
      unfold placed. simpl. rewrite Ht. split; [apply same_outside_refl|done]. }
  intros []. destruct (stop_at ports BeforeEffect) as [stop|] eqn:Es.
  { apply kept_finish. intros r (_ & Ho & _ & Hr)%durable_record_key. split; [by rewrite Hr|].
    intros w (_ & _ & _ & Hk). rewrite Ho.
    destruct (stop_termination_kind _ _ Es) as [-> | ->]; by apply Hk. }
  pose proof (ep_ok _ _ _ _ _ _ (jr_plan _ _ _ _ Hready)) as Hok.
  assert (edit_dry_run (with_dry_run (q_edit request) false) = false) as Hdry by by destruct (q_edit request).
  cbn [with_state j_recovery_files].
  eapply (triple_bind _ _ _ (λ r w, match r with
    | Ok (o, complete) => applied_state o complete w | Err _ => torn_apart w end)).
  - eapply triple_weaken with (I := torn_apart); [|intros w Hw; exact Hw| |apply torn_Inv].
    + apply triple_attempt with (Q := λ '(o, complete), applied_state o complete).
      intros w [(Hp & Ht & Hh) Hk].
      pose proof (apply_plan_stays_torn (opens ports) plan Hok (apply_primitives ports) _ Hdry w) as Hf.
      assert (torn_apart (apply_source_edit_plan (opens ports) (apply_primitives ports) plan
        (with_dry_run (q_edit request) false) w).1) as Hw'.
      { split; [by eapply parked_torn|]. by apply Hf. }
      destruct (apply_source_edit_plan _ _ _ _ w) as [w' [[o complete]|e|]] eqn:E; [|done..].
      split; [done|].
      destruct (apply_plan_return (opens ports) plan Hok _ _ _ _ _ _ Hhonest Hdry E) as [[Hs Ht']|?]; [left; split; [done|]; rewrite Ht'; by apply Hk|by right].
    + by intros [[o complete]|e] w.
  - intros [[o complete]|e]; [by apply settle_triple|by apply unknown_triple].
Qed.
End effect.

(** ** One execution *)
Section execution.
Context `{DurableCodec} `{Sha256} `{EditDigests} (ports : Ports).
Context (operation : ApplicationOperation) (request : SourceEditEffectRequestV1) (w0 : World).

Notation key := (q_idempotency_key request).

(** The exact preview of the request in the world it starts in. *)
Definition previews (pv : ResolvedSourceEditPreview) : Prop :=
  ∃ w, resolve_source_edit_preview ports (q_edit request) (restart [] w0) = (w, Return pv).

(** The journals the request may write. *)
Definition journal_for (j : SourceEditJournalV1) (post : rstr) : Prop :=
  ∃ pv authority input_digest id recovery_digest,
    edit_dry_run (q_edit request) = false ∧ previews pv ∧ outcome_success (pv_outcome pv) = true
    ∧ pv_expected_state pv = Some (q_expected_state request) ∧ pv_predicted_state pv = Some post
    ∧ request_input_digest request = Ok input_digest ∧ effect_id key input_digest = Ok id
    ∧ recovery_digest_of (pv_planned_files pv) = Ok recovery_digest
    ∧ authority_still_matches authority request = true
    ∧ j = prepared_journal operation request authority input_digest id post (pv_candidate_files pv)
            (pv_planned_files pv) recovery_digest.

(** What a result says about the files, replays included. *)
Definition truthful (res : SourceEditApplicationResult) (w : World) : Prop :=
  (x_replayed res = true ∧ tree w = tree w0)
  ∨ (x_replayed res = false ∧ ∃ effect, x_effect res = Some effect ∧
      match er_outcome (ef_receipt effect) with
      | Completed | Partial =>
        if edit_dry_run (q_edit request) then tree w = tree w0
        else ∃ pv, previews pv ∧ all_post (pv_planned_files pv) (tree w)
               ∧ same_outside (pv_planned_files pv) (tree w0) (tree w)
      | EffectUnknown => active w ≠ None
      | _ => tree w = tree w0
      end).

Definition untouched (w : World) : Prop := reads_only w0 w.
Definition fresh (w : World) : Prop := tree w = tree w0 ∧ active w = None ∧ dirs w = dirs w0.

(** Where an execution may stop. *)
Definition safe (w : World) : Prop :=
  fresh w ∨ ∃ j post, journal_for j post ∧ journal_ready ports (dirs w0) j post
    ∧ all_pre (j_recovery_files j) (tree w0) ∧ Inv j post (tree w0) (dirs w0) w.

Context (Hidle : active w0 = None).
Context (Hhonest : edit_dry_run (q_edit request) = false → honest (apply_primitives ports)).
Context (Hslot : ∀ j post, journal_for j post → slot_ok j post w0).

Lemma untouched_fresh w : untouched w → fresh w.
Proof. intros (Ht & (_ & Hd) & Hs). split; [done|]. unfold active in *. by rewrite Hs. Qed.
Lemma untouched_stable : stable untouched.
Proof. intros w w' Hr Hw. by eapply (frame_trans (R:=reads_only)). Qed.
Lemma fresh_safe w : fresh w → safe w.
Proof. by left. Qed.
Lemma untouched_safe w : untouched w → safe w.
Proof. intros Hw. left. by apply untouched_fresh. Qed.
Definition keeps_all (w w' : World) : Prop := keeps_effect w w' ∧ dirs w' = dirs w.

#[local] Instance keeps_all_frame : Frame keeps_all.
Proof.
  split; [done| |].
  - intros a b c [K1 D1] [K2 D2]. split; [by eapply (frame_trans (R:=keeps_effect))|congruence].
  - intros w. split; [apply (frame_fates (R:=keeps_effect))|]. unfold next_fate. by destruct (fates w).
Qed.

Lemma fresh_keeps w w' : keeps_all w w' → fresh w → fresh w'.
Proof. intros [[Ht Ha] Hd] (Et & Ea & Ed). unfold fresh, active in *. split_and!; congruence. Qed.

Lemma reads_all {A} (m : tx A) : within_frame reads_only m → within_frame keeps_all m.
Proof. intros Hm w. split; [by apply reads_keeps|]. by destruct (Hm w) as (_ & (_ & Hd) & _). Qed.

Lemma keeps_receipt r : within_frame keeps_all (persist_receipt r).
Proof.
  unfold persist_receipt. apply (frame_bind_lift _). intros path (n & ->)%receipt_path_kind.
  unfold persist_record. case_match; [apply (frame_raise _)|]. apply (frame_replace _).
  intros w. split; [|done]. split; [done|]. simpl. by rewrite lookup_insert_ne.
Qed.

Lemma replay_triple stored authority input conflict changed :
  triple fresh (replay_pre_effect stored authority input conflict changed)
    (λ res w, safe w ∧ truthful res w) safe.
Proof.
  unfold replay_pre_effect. case_bool_decide; simpl; [|apply triple_raise, fresh_safe].
  case_bool_decide; simpl; [|apply triple_raise, fresh_safe]. apply triple_ret.
  intros w Hw. split; [by left|]. left. split; [done|apply Hw].
Qed.

(** A refusal before the effect. *)
Lemma pre_effect_triple op authority input outcome state termination ob :
  termination ≠ EffectUnknown →
  (termination = Completed ∨ termination = Partial → edit_dry_run (q_edit request) = true) →
  triple fresh (persist_pre_effect_result ports op request authority input outcome state termination ob)
    (λ res w, safe w ∧ truthful res w) safe.
Proof.
  intros Hun Hdry. unfold persist_pre_effect_result.
  eapply (triple_bind _ _ _ (λ _, fresh)).
  { apply (triple_frame keeps_all); [apply reads_all, reads_load_receipt|apply fresh_keeps|apply fresh_safe]. }
  intros [stored|]; [apply replay_triple|].
  apply triple_bind_lift; [apply fresh_safe|]. intros id _. cbv zeta.
  apply triple_bind_lift; [apply fresh_safe|]. intros r (_ & Ho & _ & _)%durable_record_key.
  eapply (triple_bind _ _ _ (λ _, fresh)).
  { apply (triple_frame keeps_all); [apply keeps_receipt|apply fresh_keeps|apply fresh_safe]. }
  intros []. apply triple_ret. intros w Hw. split; [by left|]. right. split; [done|].
  exists (u_effect r). split; [done|]. rewrite Ho. destruct Hw as [Ht _].
  destruct termination; try done; rewrite Hdry; auto.
Qed.

(** The triple of an execution from a world that was only read. *)
Definition runs_safely (m : tx SourceEditApplicationResult) : Prop :=
  triple untouched m (λ res w, safe w ∧ truthful res w) safe.

Lemma refuse_safely op authority input outcome state termination ob :
  termination = Failed ∨ termination = Cancelled ∨ termination = TimedOut ∨
    (termination = Completed ∧ edit_dry_run (q_edit request) = true) →
  runs_safely (persist_pre_effect_result ports op request authority input outcome state termination ob).
Proof.
  intros Hk. eapply triple_weaken; [apply pre_effect_triple|apply untouched_fresh|done|done].
  - by destruct Hk as [->|[->|[->|[-> _]]]].
  - intros [->| ->]; destruct Hk as [[=]|[[=]|[[=]|[? ?]]]]; done.
Qed.

Lemma stop_safely op authority input outcome state stage stop ob :
  stop_at ports stage = Some stop →
  runs_safely (persist_pre_effect_result ports op request authority input outcome state (stop_termination stop) ob).
Proof. intros Hs%stop_termination_kind. apply refuse_safely. destruct Hs; auto. Qed.

(** ** The journal of a valid request *)
Lemma request_facts :
  request_validate request = Ok tt →
  scope_validate (c_scope (q_context request)) = Ok tt
  ∧ validate_digest (q_expected_state request) = Ok tt
  ∧ proof_validate_for (q_proof request) (q_authority request) = Ok tt.
Proof.
  unfold request_validate, context_validate. intros E.
  destruct (validate_identity _ _); [|discriminate].
  destruct (scope_validate _) as [[]|] eqn:Es; [|discriminate].
  destruct (grant_validate _); [|discriminate]. unfold refuse_if in E.
  destruct (negb _); [discriminate|]. destruct (authority_validate_for _ _); [|discriminate].
  destruct (validate_digest _) as [[]|] eqn:Ed; [|discriminate].
  destruct (rename_acceptance_validate _ _); [|discriminate].
  destruct (proof_validate_for _ _) as [[]|] eqn:Ep; [|discriminate]. done.
Qed.

Lemma proof_facts proof authority :
  proof_validate_for proof authority = Ok tt →
  validate_digests [f_policy_digest proof; f_configuration_digest proof; f_catalog_digest proof;
    f_privacy_digest proof] = Ok tt
  ∧ validate_optional "RetrievalAnchorId" (f_external_proof proof) = Ok tt.
Proof.
  unfold proof_validate_for, refuse_if. cbn [validate_digests]. intros E.
  destruct (validate_digest (f_policy_digest proof)) as [[]|]; [|discriminate].
  destruct (validate_identity _ (f_configuration_revision_id proof)); [|discriminate].
  destruct (validate_digest (f_configuration_digest proof)) as [[]|]; [|discriminate].
  destruct (f_catalog_revision proof =? 0); [discriminate|].
  destruct (validate_digest (f_catalog_digest proof)) as [[]|]; [|discriminate].
  destruct (validate_identity _ (f_privacy_domain_id proof)); [|discriminate].
  destruct (f_privacy_key_epoch proof =? 0); [discriminate|].
  destruct (validate_digest (f_privacy_digest proof)) as [[]|]; [|discriminate].
  destruct (validate_optional _ _) as [[]|]; [|discriminate]. done.
Qed.

(** The proof of a rechecked authority validates as that of the request. *)
Lemma authority_facts authority :
  authority_still_matches authority request = true →
  proof_validate_for (q_proof request) (q_authority request) = Ok tt →
  ad_proof authority = q_proof request
  ∧ validate_durable_authority (ad_receipt authority) (ad_proof authority) = Ok tt.
Proof.
  unfold authority_still_matches, same_source_edit_authority. intros Ha Hp. bools.
  assert (a_policy (ad_receipt authority) = a_policy (q_authority request)) as Ep by done.
  assert (ad_proof authority = q_proof request) as Ef by done.
  split; [done|]. unfold validate_durable_authority. rewrite Ef.
  assert (proof_validate_for (q_proof request) (ad_receipt authority)
    = proof_validate_for (q_proof request) (q_authority request)) as ->; [|by rewrite Hp].
  unfold proof_validate_for. by rewrite Ep.
Qed.

Lemma input_digest_facts input :
  request_input_digest request = Ok input → request_validate request = Ok tt ∧ validate_digest input = Ok tt.
Proof.
  unfold request_input_digest. destruct (request_validate request) as [[]|]; [|discriminate].
  intros E. split; [done|]. apply validate_digest_of_ok. unfold in_domain in E.
  destruct (request_canonical _) eqn:Ec; [|discriminate]. injection E as <-. by eapply request_digest_ok.
Qed.

Lemma journal_for_ready j post path :
  receipt_path key = Ok path → journal_for j post →
  journal_ready ports (dirs w0) j post ∧ all_pre (j_recovery_files j) (tree w0) ∧ r_scope (j_request j) = c_scope (q_context request)
  ∧ r_dry_run (j_request j) = edit_dry_run (q_edit request)
  ∧ with_state j Prepared = j.
Proof.
  intros Hpath (pv & authority & input & id & rd & _ & [w Hpv] & Hs & He & Hp & Hi & _ & Hrd & Ha & ->).
  destruct (preview_return ports _ _ _ _ Hpv Hs) as (pre & post' & Epre & Epost & Hplan & Hall).
  assert (pre = q_expected_state request) as -> by congruence. assert (post' = post) as -> by congruence.
  destruct (input_digest_facts input Hi) as [Hv Hin]. destruct (request_facts Hv) as (Hsc & Hex & Hpr).
  destruct (authority_facts authority Ha Hpr) as [Ef Hda]. destruct (proof_facts _ _ Hpr) as [Hds Hopt].
  split; [|done]. split; try done.
  - split; unfold ok_unit; cbn [prepared_journal durable_request j_request r_scope r_authority_proof j_input_digest
      j_expected_state]; [done| |by rewrite Ef].
    rewrite Ef. cbn [validate_digests] in *. rewrite Hin, Hex. exact Hds.
  - unfold validate_persisted, prepared_journal; cbn [j_predicted_state j_recovery_digest j_recovery_files].
    unfold recovery_digest_of in Hrd. destruct (is_empty (pv_planned_files pv)); [by injection Hrd as <-|].
    destruct (source_edit_recovery_digest _); [|discriminate]. injection Hrd as <-.
    by rewrite bool_decide_eq_true_2.
  - by exists path.
Qed.

(** ** The phases of an execution *)
Lemma apply_safely admission current input post pv path :
  receipt_path key = Ok path → request_input_digest request = Ok input → edit_dry_run (q_edit request) = false →
  previews pv → outcome_success (pv_outcome pv) = true →
  pv_expected_state pv = Some (q_expected_state request) → pv_predicted_state pv = Some post →
  runs_safely (apply_edit ports operation request admission current input post (pv_candidate_files pv)
    (pv_planned_files pv)).
Proof.
  intros Hpath Hi Hd Hpv Hs He Hp. unfold apply_edit. cbv zeta.
  destruct (recheck_effect _ _ _ _ _ _) as [authority|]; [|by apply refuse_safely; left].
  destruct (authority_still_matches authority request) eqn:Ea; cbn [negb]; [|by apply refuse_safely; left].
  eapply (triple_bind _ _ _ (λ _, untouched)).
  { apply triple_reads; [apply (frame_attempt _), reads_digest|apply untouched_stable|apply untouched_safe|done]. }
  intros [state|e]; [|by apply refuse_safely; left].
  case_bool_decide; cbn [negb]; [|by apply refuse_safely; left].
  apply triple_bind_lift; [apply untouched_safe|]. intros id Hid.
  apply triple_bind_lift; [apply untouched_safe|]. intros rd Hrd.
  set (j := prepared_journal _ _ _ _ _ _ _ _ _).
  assert (journal_for j post) as Hj by (exists pv, authority, input, id, rd; done).
  destruct (journal_for_ready j post path Hpath Hj) as (Hready & Hpre & _ & Hdry & Hself).
  rewrite Hd in Hdry. rewrite <- Hself.
  eapply triple_weaken; [exact (effect_triple ports j post (tree w0) (dirs w0) Hready Hpre (Hhonest Hd) request Hdry)|..].
  - intros w Hw. split; [split; apply Hw|]. split; [by apply untouched_fresh|].
    specialize (Hslot j post Hj). unfold slot_ok in *. destruct Hw as (_ & _ & Est). by rewrite Est.
  - intros res w [HI (Hr & _ & effect & Ee & Ho)]. split; [right; by exists j, post|]. right. split; [done|].
    exists effect. split; [done|]. rewrite Hd. destruct (er_outcome _); try done; by exists pv.
  - intros w HI. right. by exists j, post.
Qed.

Lemma dry_safely admission current input state post cands outcome :
  edit_dry_run (q_edit request) = true →
  runs_safely (preview_edit ports operation request admission current input state post cands outcome).
Proof.
  intros Hd. unfold preview_edit. cbv zeta. destruct (stop_at ports EffectInFlight) as [stop|] eqn:Es.
  { by eapply stop_safely. }
  destruct (recheck_effect _ _ _ _ _ _) as [authority|]; [|by apply refuse_safely; left].
  destruct (authority_still_matches authority request); cbn [negb]; apply refuse_safely; auto.
Qed.

(** With no journal pending, none is loaded. *)
Lemma no_journal : triple untouched load_journal (λ r w, r = None ∧ untouched w) safe.
Proof.
  apply triple_reads; [apply reads_load_journal|apply untouched_stable|apply untouched_safe|].
  intros w w' r Hw Hw' E%load_journal_return. destruct (untouched_fresh w Hw) as (_ & Ha & _).
  rewrite Ha in E. done.
Qed.

Lemma recover_untouched scope :
  triple untouched (recover_source_edit_transaction ports scope) (λ _, untouched) safe.
Proof.
  eapply triple_bind; [apply no_journal|]. intros r w [-> Hw]. exact Hw.
Qed.

Lemma replay_untouched input :
  triple untouched (recover_or_replay ports request input)
    (λ r w, match r with
            | Some res => safe w ∧ truthful res w
            | None => untouched w ∧ ∃ path, receipt_path key = Ok path
            end) safe.
Proof.
  unfold recover_or_replay.
  eapply (triple_bind _ _ _ (λ _ w, untouched w ∧ ∃ path, receipt_path key = Ok path)).
  { apply triple_reads; [apply reads_load_receipt|apply untouched_stable|apply untouched_safe|].
    intros w w' r _ Hw' E. split; [done|]. unfold load_receipt in E.
    apply bind_return in E as (path & w1 & [E1 _]%lift_return & _). by exists path. }
  intros [stored|].
  - case_bool_decide; cbn [negb]; [|apply triple_raise; intros w [Hw _]; by apply untouched_safe].
    destruct (_ || _); [apply triple_raise; intros w [Hw _]; by apply untouched_safe|].
    eapply triple_bind.
    { eapply triple_weaken; [apply no_journal|by intros w [Hw _]|intros r w Hw; exact Hw|done]. }
    intros r w [-> Hw]. split; [by apply untouched_safe|]. left. split; [done|apply Hw].
  - intros w [Hw Hpath]. revert w Hw. eapply triple_bind; [apply no_journal|]. intros r w [-> Hw]. done.
Qed.

Lemma admitted_safely admission current input :
  request_input_digest request = Ok input →
  runs_safely (execute_admitted ports operation request admission current input).
Proof.
  intros Hi. unfold execute_admitted. eapply triple_bind; [apply recover_untouched|]. intros [].
  eapply triple_bind; [apply replay_untouched|]. intros [res|]; [by apply triple_ret|].
  intros w [Hw [path Hpath]]. revert w Hw.
  eapply (triple_bind _ _ _ (λ r w, untouched w ∧
    match r with Ok pv => outcome_success (pv_outcome pv) = true → previews pv | Err _ => True end)).
  { apply triple_reads; [apply (frame_attempt _), preview_reads|apply untouched_stable|apply untouched_safe|].
    intros w w' r Hw Hw' E%attempt_return. split; [done|]. destruct r as [pv|e]; [|done].
    intros Hs. apply (steady_preview ports _ _ _ _ Hs) in E. exists (restart [] w').
    assert (restart [] w = restart [] w0) as <-; [|done]. destruct Hw as (Et & (En & Edir) & Es).
    unfold restart. by rewrite Et, En, Edir, Es. }
  intros [pv|e]; [|eapply triple_weaken; [apply refuse_safely; by left|by intros w []|done|done]].
  intros w [Hw Hpv]. revert w Hw.
  destruct (outcome_success (pv_outcome pv)) eqn:Es; cbn [negb]; [|apply refuse_safely; by left].
  destruct (pv_predicted_state pv) as [post|] eqn:Ep; [|apply triple_raise, untouched_safe].
  destruct (pv_expected_state pv) as [pre|] eqn:Ee; [|apply triple_raise, untouched_safe]. cbv zeta.
  destruct (edit_dry_run (q_edit request)) eqn:Ed in |- *; cbn [negb andb]; [by apply dry_safely|].
  case_bool_decide; cbn [negb]; [|apply refuse_safely; by left]. subst pre.
  eapply apply_safely; by auto.
Qed.

Lemma execute_safely : runs_safely (execute_source_edit ports operation request).
Proof.
  unfold execute_source_edit. apply triple_bind_lift; [apply untouched_safe|]. intros _ _.
  case_bool_decide; cbn [negb]; [|apply triple_raise, untouched_safe].
  eapply (triple_bind _ _ _ (λ _, untouched)).
  { apply triple_reads; [apply reads_lock|apply untouched_stable|apply untouched_safe|done]. }
  intros []. apply triple_bind_lift; [apply untouched_safe|]. intros input Hi.
  assert (request_input_digest request = Ok input) as Hin.
  { unfold application_contract in Hi. destruct (request_input_digest request); congruence. }
  apply triple_bind_lift; [apply untouched_safe|]. intros authority _. cbv zeta.
  destruct (stop_at ports BeforeAdmission) as [stop|] eqn:Es; [by eapply stop_safely|].
  destruct (port_admit _ _ _ _) as [admission|]; [|by apply refuse_safely; left].
  destruct (_ || _); [by apply refuse_safely; left|].
  destruct (recheck_effect _ _ _ _ _ _) as [current|].
  { destruct (authority_still_matches current request); [by apply admitted_safely|by apply refuse_safely; left]. }
  eapply (triple_bind _ _ _ (λ _, untouched)).
  { apply triple_reads; [apply reads_load_receipt|apply untouched_stable|apply untouched_safe|done]. }
  intros [r|]; [apply triple_raise, untouched_safe|].
  eapply triple_bind; [apply no_journal|]. intros r w [-> Hw]. revert w Hw. apply refuse_safely. by left.
Qed.

(** ** Recovery of what an execution left *)
Lemma safe_stable : stable safe.
Proof.
  intros w w' Hr [Hf|(j & post & Hj & Hrd & Hp & HI)].
  - left. destruct Hr as (Ht & (_ & Hd) & Hs). unfold fresh, active in *. by rewrite Ht, Hs, Hd.
  - right. exists j, post. repeat (split; [done|]). by eapply Inv_stable.
Qed.

Lemma restart_reads fs w : reads_only w (restart fs w).
Proof. done. Qed.

(** What a completed recovery leaves: the files as before, or the whole plan,
    and every directory where the files it creates have others beside them. *)
Definition finished (w : World) : Prop :=
  active w = None ∧
  ((∀ j post, journal_for j post → sheltered (j_recovery_files j) (tree w0)) → dirs w = dirs w0) ∧
  ((∀ p, content <$> tree w !! p = content <$> tree w0 !! p)
   ∨ ∃ pv, previews pv ∧ all_post (pv_planned_files pv) (tree w)
          ∧ same_outside (pv_planned_files pv) (tree w0) (tree w)).

Lemma pre_contents plan t :
  plan_ok plan → all_pre plan (tree w0) → all_pre plan t → same_outside plan (tree w0) t →
  ∀ p, content <$> t !! p = content <$> tree w0 !! p.
Proof.
  intros [_ Hn] H0' Ht Ho p. destruct (decide (p ∈ plan_paths plan)) as [Hin|Hout]; [|by rewrite Ho].
  pose proof (Hn p Hin) as Hp. apply list_elem_of_fmap in Hin as (file & -> & Hf).
  rewrite <- !contents_normal by done. by rewrite H0', Ht.
Qed.

Lemma fresh_recover scope : triple fresh (recover_source_edit_transaction ports scope) (λ _, fresh) fresh.
Proof.
  eapply (triple_bind _ _ _ (λ r w, r = None ∧ fresh w)).
  - apply triple_reads; [apply reads_load_journal| |done|].
    + intros w w' (Ht & (_ & Hd) & Hs) Hw. unfold fresh, active in *. by rewrite Ht, Hs, Hd.
    + intros w w' r (_ & Ha & _) Hw' E%load_journal_return. by rewrite Ha in E.
  - intros r w [-> Hw]. exact Hw.
Qed.

Lemma idle_finished j post w :
  journal_for j post → journal_ready ports (dirs w0) j post → all_pre (j_recovery_files j) (tree w0) →
  idle j (tree w0) (dirs w0) w → finished w.
Proof.
  intros Hj Hrd Hpre (Ha & [Ho Hd] & side & Hh). split; [done|]. split; [intros Hsh; by apply Hd, (Hsh j post)|].
  destruct Hj as (pv & au & input & id & rd & _ & Hpv & _ & _ & _ & _ & _ & _ & _ & ->).
  destruct side; [right; exists pv; done|left].
  by eapply pre_contents; [exact (ep_ok _ _ _ _ _ _ (jr_plan _ _ _ _ Hrd))|..].
Qed.

Lemma recover_safe scope :
  triple safe (recover_source_edit_transaction ports scope) (λ _ w, safe w ∧ finished w) safe.
Proof.
  intros w [Hf|(j & post & Hj & Hrd & Hp & HI)].
  - pose proof (fresh_recover scope w Hf) as Hr.
    destruct (recover_source_edit_transaction ports scope w) as [w' [a|e|]]; try by left.
    split; [by left|]. destruct Hr as (Ht & Ha & Hd). split; [done|]. split; [done|]. left. by rewrite Ht.
  - pose proof (recover_triple ports j post (tree w0) (dirs w0) Hrd scope w HI) as Hr.
    destruct (recover_source_edit_transaction ports scope w) as [w' [a|e|]].
    + split; [right; exists j, post; repeat (split; [done|]); by right|by eapply idle_finished].
    + right. by exists j, post.
    + right. by exists j, post.
Qed.

(** Without failures a recovery returns. *)
Lemma recover_safe_calm w :
  (∀ j post, journal_for j post → separates (j_candidate_files j) (j_recovery_files j) post ∧ receipts_fit ports j
    ∧ sheltered (j_recovery_files j) (tree w0)) →
  calm w → safe w →
  ∃ w', recover_source_edit_transaction ports (c_scope (q_context request)) w = (w', Return tt).
Proof.
  intros Hrec Hc [(_ & Ha & _)|(j & post & Hj & Hrd & _ & HI)].
  - unfold recover_source_edit_transaction, load_journal. rewrite (bind_run _ _ w w None); [eauto|].
    by rewrite (bind_run _ _ _ _ _ (load_absent_calm _ _ _ Hc Ha)).
  - destruct (Hrec j post Hj) as (Hsep & Hfit & Hsh).
    assert (c_scope (q_context request) = r_scope (j_request j)) as ->.
    { by destruct Hj as (pv & au & input & id & rd & _ & _ & _ & _ & _ & _ & _ & _ & _ & ->). }
    exact (recover_calm ports j post (tree w0) (dirs w0) Hrd Hsep Hfit Hsh w Hc HI).
Qed.
End execution.
