(* ===== verification/EditReconcile.v ===== *)
(** * Source edits: rollback of a completed edit and explicit reconciliation

    [tracedecay-source-edit/src/rollback.rs] and the reconciliation of
    [reconcile.rs], over the transactions of [EditExecute]. *)
From stdpp Require Import base numbers strings gmap list.
From S2P Require Import Prelude RustText Bytes PolicyRouting EditContract EditRecords EditFiles EditPlan.
From S2P Require Import EditJournal EditVerify EditExecute.

#[local] Open Scope Z_scope.
#[local] Open Scope rust_scope.

Section reconcile.
Context `{DurableCodec} `{Sha256} `{EditDigests} (ports : Ports).

(** ** rollback.rs *)
Definition rollback_durable_request (operation : ApplicationOperation) (request : SourceEditRollbackRequestV1)
    (authority : SourceEditAuthorizationAdmissionV1) : SourceEditDurableRequestV1 := {|
  r_operation := op_use_case_id operation;
  r_request_id := c_request_id (bq_context request);
  r_actor := c_actor (bq_context request);
  r_scope := c_scope (bq_context request);
  r_authority := ad_receipt authority;
  r_authority_proof := ad_proof authority;
  r_idempotency_key := bq_idempotency_key request;
  r_deadline := c_deadline (bq_context request);
  r_started_at := bq_observed_at request;
  r_dry_run := false;
  r_verification_requested := false;
|}.

Definition rollback_journal (operation : ApplicationOperation) (request : SourceEditRollbackRequestV1)
    (authority : SourceEditAuthorizationAdmissionV1) (input_digest : rstr) (predicted_state : option rstr)
    (candidate : list rstr) (recovery_files : list PlannedSourceEditFile) : edit SourceEditJournalV1 :=
  let? recovery_digest := recovery_digest_of recovery_files in
  let? id := effect_id (bq_idempotency_key request) input_digest in
  Ok {| j_version := JOURNAL_VERSION; j_effect_id := id; j_input_digest := input_digest;
        j_expected_state := bq_expected_state request; j_predicted_state := predicted_state;
        j_candidate_files := candidate; j_recovery_files := recovery_files;
        j_recovery_digest := recovery_digest;
        j_request := rollback_durable_request operation request authority; j_state := Prepared |}.

Definition persist_pre_effect (operation : ApplicationOperation) (request : SourceEditRollbackRequestV1)
    (authority : SourceEditAuthorizationAdmissionV1) (input_digest : rstr) (outcome : SourceEditOutcome)
    (termination : EffectTermination) (observation : option CancellationObservation) :
    tx SourceEditApplicationResult :=
  let! stored := load_receipt (bq_idempotency_key request) in
  match stored with
  | Some stored =>
    replay_pre_effect stored authority input_digest
      "source edit rollback idempotency key conflicts with a prior input"
      "source edit rollback receipt authority changed"
  | None =>
    let! journal := lift (rollback_journal operation request authority input_digest None [] []) in
    let! record := lift (durable_record journal (from_live (op_use_case_id operation) outcome) None
      (now_micros ports 20) termination Reconciled observation) in
    let! _ := persist_receipt record in
    ret (into_live_application_result record outcome None)
  end.

(** The plan of an edit with its sides exchanged. *)
Definition reversed (file : PlannedSourceEditFile) : PlannedSourceEditFile :=
  {| relative_path := relative_path file; expected := intended file; intended := expected file |}.

(** From the restored files to the cleared journal. *)
Definition finalize_rollback (operation : ApplicationOperation) (journal : SourceEditJournalV1)
    (committed_state : rstr) : tx SourceEditApplicationResult :=
  let outcome := OReconciled true (str "source edit rollback restored every retained preimage") in
  let ended_at := now_micros ports 23 in
  let control_observation := stop_observation <$> stop_at ports EffectInFlight in
  let durable := from_live (op_use_case_id operation) outcome in
  let journal := with_state journal (Applied durable committed_state ended_at control_observation None) in
  let! _ := persist_journal journal in
  let late := match control_observation with
              | None => stop_observation <$> stop_at ports AfterCommit
              | Some _ => control_observation
              end in
  let journal := with_state journal (Applied durable committed_state ended_at late None) in
  let! _ := match control_observation, late with
            | None, Some _ => persist_journal journal
            | _, _ => ret tt
            end in
  let! record := lift (applied_record journal outcome committed_state ended_at late) in
  let! _ := persist_receipt record in
  let! _ := clear_journal in
  ret (into_live_application_result record outcome None).

(** From the published journal of a rollback on; [retained] are the recovery
    files of the edit, [restored_state] the state before it. *)
Definition run_rollback (operation : ApplicationOperation) (journal : SourceEditJournalV1)
    (retained : list PlannedSourceEditFile) (restored_state : rstr) : tx SourceEditApplicationResult :=
  let! _ := persist_journal journal in
  match stop_at ports BeforeEffect with
  | Some stop =>
    let outcome := control_stop_outcome (stop_termination stop)
      "source edit rollback was cancelled before the effect"
      "source edit rollback timed out before the effect" in
    let! record := lift (interrupted_record journal outcome stop) in
    let! _ := persist_receipt record in
    let! _ := clear_journal in
    ret (into_live_application_result record outcome None)
  | None =>
    let! apply_result := attempt (rollback_planned_source_edit_files (opens ports) retained) in
    let! committed_state := source_edit_state_digest (opens ports) (j_candidate_files journal) in
    if is_err apply_result || negb (bool_decide (committed_state = restored_state)) then
      if negb (bool_decide (committed_state = j_expected_state journal)) then
        let! record := lift (unknown_record journal (now_micros ports 21)) in
        let! _ := persist_receipt record in
        ret (into_live_application_result record
          (OEffectUnknown (str "source edit rollback effect is unknown and requires reconciliation")) None)
      else
        let outcome := OFailed (str "source edit rollback failed before changing workspace state") in
        let! record := lift (durable_record journal (from_live (op_use_case_id operation) outcome) None
          (now_micros ports 22) Failed Reconciled None) in
        let! _ := persist_receipt record in
        let! _ := clear_journal in
        ret (into_live_application_result record outcome None)
    else finalize_rollback operation journal committed_state
  end.

(** The retained record and the receipt of the edit are those of the request. *)
Definition rollback_identity (request : SourceEditRollbackRequestV1) (retained : SourceEditRollbackRecordV1)
    (original : SourceEditDurableResultV1) : bool :=
  bool_decide (b_effect_id retained = bq_effect_id request)
  && bool_decide (b_input_digest retained = bq_original_input_digest request)
  && bool_decide (b_idempotency_key retained = bq_original_idempotency_key request)
  && bool_decide (b_actor retained = c_actor (bq_context request))
  && bool_decide (b_scope retained = c_scope (bq_context request))
  && bool_decide (b_committed_state retained = bq_expected_state request)
  && bool_decide (ef_effect_id (u_effect original) = bq_effect_id request)
  && bool_decide (u_input_digest original = bq_original_input_digest request)
  && bool_decide (er_outcome (ef_receipt (u_effect original)) = Completed)
  && bool_decide (er_committed_state (ef_receipt (u_effect original)) = Some (b_committed_state retained)).

Definition rollback_failed : SourceEditOutcome :=
  OFailed (str "source edit rollback failed before the effect").

Definition rollback_admitted (operation : ApplicationOperation) (request : SourceEditRollbackRequestV1)
    (current_authority : SourceEditAuthorizationAdmissionV1) (input_digest : rstr) :
    tx SourceEditApplicationResult :=
  let! _ := recover_source_edit_transaction ports (c_scope (bq_context request)) in
  let! stored := load_receipt (bq_idempotency_key request) in
  match stored with
  | Some stored =>
    if negb (bool_decide (u_input_digest stored = input_digest)) then
      raise (IdempotencyConflict (str "source edit rollback idempotency key conflicts with a prior input"))
    else if negb (bool_decide (u_authority_proof stored = bq_proof request))
            || negb (same_source_edit_authority (ef_authority (u_effect stored)) (bq_authority request)) then
      raise (config_error "source edit rollback replay authority changed")
    else ret (into_application_result stored true)
  | None =>
    let! retained := load_rollback_record (bq_effect_id request) in
    match retained with
    | None => raise (config_error "source edit effect has no retained rollback material")
    | Some retained =>
      let! original := load_receipt (bq_original_idempotency_key request) in
      match original with
      | None => raise (config_error "source edit rollback is missing its original effect receipt")
      | Some original =>
        if negb (rollback_identity request retained original) then
          raise (config_error "source edit rollback identity does not match the completed original effect")
        else
          let! candidate := normalize_candidate_files (opens ports)
                              (relative_path <$> b_recovery_files retained) in
          let! observed_state := source_edit_state_digest (opens ports) candidate in
          if negb (bool_decide (observed_state = b_committed_state retained)) then
            persist_pre_effect operation request current_authority input_digest
              (OFailed (str "source edit rollback refused stale or foreign workspace bytes")) Failed None
          else
            let! journal := lift (rollback_journal operation request current_authority input_digest
              (Some (b_expected_state retained)) candidate (reversed <$> b_recovery_files retained)) in
            run_rollback operation journal (b_recovery_files retained) (b_expected_state retained)
      end
    end
  end.

(** [execute_source_edit_rollback_inner]. *)
Definition execute_source_edit_rollback (operation : ApplicationOperation)
    (request : SourceEditRollbackRequestV1) : tx SourceEditApplicationResult :=
  let! _ := lift (application_contract (rollback_validate request)) in
  if negb (bool_decide (operation = source_edit_rollback_operation)) then
    raise (config_error "source edit rollback request does not match its catalog operation")
  else
    let! _ := lock in
    let! input_digest := lift (application_contract (rollback_input_digest request)) in
    let! requested_authority := lift (application_contract
      (admission_new (bq_authority request) (bq_proof request) (c_scope (bq_context request)))) in
    match stop_at ports BeforeAdmission with
    | Some stop =>
      persist_pre_effect operation request requested_authority input_digest
        (control_stop_outcome (stop_termination stop) "source edit rollback was cancelled before admission"
           "source edit rollback timed out before admission")
        (stop_termination stop) (Some (stop_observation stop))
    | None =>
      match port_admit ports (bq_context request) operation (bq_observed_at request) with
      | None =>
        persist_pre_effect operation request requested_authority input_digest rollback_failed Failed None
      | Some admission =>
        if negb (bool_decide (ad_receipt admission = bq_authority request))
           || negb (bool_decide (ad_proof admission = bq_proof request))
        then persist_pre_effect operation request requested_authority input_digest rollback_failed Failed None
        else
          match recheck_effect ports 0 (bq_context request) operation admission (now_micros ports 0) with
          | None => raise application_problem
          | Some authority =>
            if negb (same_source_edit_authority (ad_receipt authority) (bq_authority request))
               || negb (bool_decide (ad_proof authority = bq_proof request))
            then persist_pre_effect operation request admission input_digest rollback_failed Failed None
            else rollback_admitted operation request authority input_digest
          end
      end
    end.

(** ** reconcile.rs: explicit reconciliation *)
Definition persist_interrupted_reconciliation_attempt (journal : SourceEditJournalV1)
    (request : SourceEditReconciliationRequestV1) (attempt : SourceEditReconciliationAttemptV1)
    (stop : SourceEditControlStopV1) : tx SourceEditApplicationResult :=
  let outcome := control_stop_outcome (stop_termination stop)
    "source edit reconciliation attempt was cancelled" "source edit reconciliation attempt timed out" in
  let! record := lift (reconciliation_attempt_record journal request attempt outcome None
    (o_observed_at (stop_observation stop)) (stop_termination stop) (Some (stop_observation stop))) in
  let! _ := persist_reconciliation_receipt record in
  ret (into_live_application_result record outcome None).

(** The journal is the one the request names. *)
Definition retained_identity (journal : SourceEditJournalV1) (request : SourceEditReconciliationRequestV1)
    (operation : ApplicationOperation) : bool :=
  (j_version journal =? JOURNAL_VERSION)
  && bool_decide (j_effect_id journal = rq_effect_id request)
  && bool_decide (r_idempotency_key (j_request journal) = rq_idempotency_key request)
  && bool_decide (j_input_digest journal = rq_input_digest request)
  && bool_decide (r_operation (j_request journal) = op_use_case_id operation)
  && bool_decide (r_actor (j_request journal) = c_actor (rq_context request))
  && bool_decide (r_scope (j_request journal) = c_scope (rq_context request)).

Definition recover_reconciliation_attempt (request : SourceEditReconciliationRequestV1)
    (input_digest : rstr) : tx (option SourceEditApplicationResult) :=
  let! stored := load_reconciliation_receipt (rq_attempt_idempotency_key request) in
  match stored with
  | None => ret None
  | Some stored =>
    if negb (bool_decide (u_input_digest stored = input_digest)) then
      raise (IdempotencyConflict (str
        "source edit reconciliation attempt idempotency key conflicts with a prior input"))
    else if negb (bool_decide (u_authority_proof stored = rq_proof request))
            || negb (same_source_edit_authority (ef_authority (u_effect stored)) (rq_authority request)) then
      raise (config_error "source edit reconciliation replay authority changed")
    else
      let! _ :=
        if bool_decide (er_outcome (ef_receipt (u_effect stored)) = Completed) then
          let! original := load_receipt (rq_idempotency_key request) in
          match original with
          | None => raise (config_error
              "completed reconciliation attempt is missing its original effect receipt")
          | Some original =>
            if negb (bool_decide (u_input_digest original = rq_input_digest request))
               || negb (bool_decide (ef_reconciliation (u_effect original) = Reconciled))
               || bool_decide (er_outcome (ef_receipt (u_effect original)) = EffectUnknown)
            then raise (config_error
              "completed reconciliation attempt does not match a terminal original effect")
            else
              let! journal := load_journal in
              match journal with
              | Some journal =>
                if bool_decide (j_effect_id journal = rq_effect_id request)
                   && bool_decide (r_idempotency_key (j_request journal) = rq_idempotency_key request)
                   && bool_decide (j_input_digest journal = rq_input_digest request)
                   && negb (is_applied (j_state journal))
                then clear_journal else ret tt
              | None => ret tt
              end
          end
        else ret tt in
      ret (Some (into_application_result stored true))
  end.

Definition retained_reconciliation_journal (operation : ApplicationOperation)
    (request : SourceEditReconciliationRequestV1) : tx SourceEditJournalV1 :=
  let! journal := load_journal in
  match journal with
  | None => raise (config_error "no source edit effect requires reconciliation")
  | Some journal =>
    if negb (retained_identity journal request operation) then
      raise (config_error "source edit reconciliation identity does not match the retained effect")
    else if is_applied (j_state journal) then
      raise (config_error "source edit effect already has a durable applied-state proof")
    else ret journal
  end.

(** The receipt of the original effect that the inspection proves. *)
Definition confirm_disposition (journal : SourceEditJournalV1) (request : SourceEditReconciliationRequestV1)
    (observed_state : rstr) (ended_at : Z) : tx SourceEditDurableResultV1 :=
  match rq_disposition request with
  | ConfirmCommitted committed_state =>
    match j_predicted_state journal with
    | None => raise (config_error "source edit committed state cannot be proven without a prediction")
    | Some predicted_state =>
      if negb (bool_decide (committed_state = predicted_state))
         || negb (bool_decide (observed_state = predicted_state)) then
        raise (config_error "source edit committed-state inspection does not match the exact preview")
      else
        let! _ := persist_rollback_record journal committed_state true in
        lift (applied_record journal
          (OReconciled true (str "source edit effect was independently confirmed committed"))
          committed_state ended_at None)
    end
  | ConfirmRolledBack =>
    if negb (bool_decide (observed_state = j_expected_state journal)) then
      raise (config_error "source edit rollback inspection does not match the admitted expected state")
    else
      lift (durable_record journal
        (from_live (r_operation (j_request journal))
           (OReconciled false (str "source edit effect was independently confirmed rolled back")))
        None ended_at Failed Reconciled None)
  end.

Definition reconcile_prepared_source_edit_controlled (operation : ApplicationOperation)
    (request : SourceEditReconciliationRequestV1) (attempt : SourceEditReconciliationAttemptV1) :
    tx SourceEditApplicationResult :=
  let! journal := retained_reconciliation_journal operation request in
  match stop_at ports BeforeEffect with
  | Some stop => persist_interrupted_reconciliation_attempt journal request attempt stop
  | None =>
    let! observed_state := source_edit_state_digest (opens ports) (j_candidate_files journal) in
    match stop_at ports EffectInFlight with
    | Some stop => persist_interrupted_reconciliation_attempt journal request attempt stop
    | None =>
      let ended_at := now_micros ports 31 in
      let! record := confirm_disposition journal request observed_state ended_at in
      let! _ := persist_receipt record in
      let outcome := OReconciled true (str "source edit reconciliation attempt completed") in
      let! attempt_record := lift (reconciliation_attempt_record journal request attempt outcome
        (er_committed_state (ef_receipt (u_effect record))) ended_at Completed
        (stop_observation <$> stop_at ports AfterCommit)) in
      let! _ := persist_reconciliation_receipt attempt_record in
      let! _ := clear_journal in
      ret (into_live_application_result attempt_record outcome None)
    end
  end.

(** [reconcile_source_edit_effect_unknown_inner]. *)
Definition reconcile_source_edit_effect_unknown (request : SourceEditReconciliationRequestV1) :
    tx SourceEditApplicationResult :=
  let! _ := lift (application_contract (reconciliation_validate request)) in
  let! input_digest := lift (application_contract (attempt_input_digest request)) in
  let original_operation := source_edit_operation (rq_kind request) in
  let! _ := lock in
  let! stored := recover_reconciliation_attempt request input_digest in
  match stored with
  | Some stored => ret stored
  | None =>
    match stop_at ports BeforeAdmission with
    | Some stop =>
      let! journal := load_journal in
      match journal with
      | None => raise (config_error "no source edit effect requires reconciliation")
      | Some journal =>
        if negb (retained_identity journal request original_operation) || is_applied (j_state journal) then
          raise (config_error "source edit reconciliation identity does not match the retained effect")
        else
          let! authority := lift (application_contract
            (admission_new (rq_authority request) (rq_proof request) (c_scope (rq_context request)))) in
          persist_interrupted_reconciliation_attempt journal request
            {| at_operation := source_edit_reconciliation_operation; at_authority := authority;
               at_input_digest := input_digest |} stop
      end
    | None =>
      match port_admit ports (rq_context request) source_edit_reconciliation_operation (rq_observed_at request) with
      | None => raise application_problem
      | Some admission =>
        if negb (bool_decide (ad_receipt admission = rq_authority request))
           || negb (bool_decide (ad_proof admission = rq_proof request)) then
          raise (config_error "source edit reconciliation admission differs from its authority receipt")
        else
          match recheck_effect ports 0 (rq_context request) source_edit_reconciliation_operation admission
                  (now_micros ports 30) with
          | None => raise application_problem
          | Some authority =>
            if negb (same_source_edit_authority (ad_receipt authority) (rq_authority request))
               || negb (bool_decide (ad_proof authority = rq_proof request)) then
              raise (config_error "source edit reconciliation current authority changed")
            else
              reconcile_prepared_source_edit_controlled original_operation request
                {| at_operation := source_edit_reconciliation_operation; at_authority := authority;
                   at_input_digest := input_digest |}
          end
      end
    end
  end.
End reconcile.
