(* ===== verification/EditProperties.v ===== *)
(** * Source edits: the properties

    Atomicity across crashes, receipts that tell the truth, dry runs that write
    nothing, keys that are spent once, recovery and reconciliation that refuse
    what they cannot prove, and exact verification counts. *)
From stdpp Require Import base numbers strings gmap list sorting.
From S2P Require Import Prelude RustText Bytes PolicyRouting EditContract EditRecords EditFiles EditPlan.
From S2P Require Import EditJournal EditLogic EditVerify EditExecute EditPublish EditRecovery EditAtomic.
From S2P Require Import EditSafety EditReconcile.

#[local] Open Scope Z_scope.
#[local] Open Scope rust_scope.

Section properties.
Context `{DurableCodec} `{Sha256} `{EditDigests} (ports : Ports).

(** Recoveries that stop wherever their fates make them stop. *)
Definition recoveries (scope : ResolvedScope) (runs : list (list Fate)) (w : World) : World :=
  foldl (λ w fs, (recover_source_edit_transaction ports scope (restart fs w)).1) w runs.

(** What the journals of a request need to be recovered: room for their
    records, a digest that tells the published plan from a torn one, and beside
    each file that the plan creates another file, or the root of the worktree. *)
Definition recoverable (operation : ApplicationOperation) (request : SourceEditEffectRequestV1) (w0 : World) : Prop :=
  ∀ j post, journal_for ports operation request w0 j post →
    slot_ok j post w0 ∧ separates (j_candidate_files j) (j_recovery_files j) post ∧ receipts_fit ports j
    ∧ sheltered (j_recovery_files j) (tree w0).

Lemma restart_untouched w0 fs : untouched w0 (restart fs w0).
Proof. done. Qed.

Lemma recoveries_safe operation request w0 scope runs w :
  safe ports operation request w0 w → safe ports operation request w0 (recoveries scope runs w).
Proof.
  revert w. induction runs as [|fs runs IH]; intros w Hw; simpl; [done|]. apply IH.
  eapply triple_crash; [apply recover_safe|by intros a x []|].
  by eapply (safe_stable ports operation request w0 w).
Qed.

(** ** Keys that were used *)
Section spent.
Context (request : SourceEditEffectRequestV1) (w0 : World) (stored : SourceEditDurableResultV1) (path : RecordPath).
Context (Hidle : active w0 = None) (Hpath : receipt_path (q_idempotency_key request) = Ok path).
Context (Hstored : store w0 !! path = Some (result_to_json stored)).

Definition replays (input : rstr) (m : tx SourceEditApplicationResult) : Prop :=
  triple (untouched w0) m
    (λ res w, untouched w0 w ∧ res = into_application_result stored true ∧ u_input_digest stored = input)
    (untouched w0).

Lemma load_stored :
  triple (untouched w0) (load_receipt (q_idempotency_key request)) (λ r w, r = Some stored ∧ untouched w0 w)
    (untouched w0).
Proof.
  apply triple_reads; [apply reads_load_receipt|apply untouched_stable|done|].
  intros w w' r (_ & _ & Hs) Hw' E. split; [|done]. unfold load_receipt in E. rewrite Hpath in E.
  unfold load_result, load_record in E. apply bind_return in E as (p & w1 & [[= <-] ->]%lift_return & E).
  apply bind_return in E as (x & w2 & E1 & E).
  apply bind_return in E1 as (file & w3 & [-> (_ & _ & Hs3)]%observe_return & E1).
  rewrite Hs3, Hs, Hstored in E1. destruct (_ <? _); [discriminate|]. rewrite result_round_trip in E1.
  injection E1 as <- <-. destruct (negb _); [discriminate|]. by apply bind_return in E as (? & ? & _ & [= <- <-]).
Qed.

Lemma no_journal_read : triple (untouched w0) load_journal (λ r w, r = None ∧ untouched w0 w) (untouched w0).
Proof.
  apply triple_reads; [apply reads_load_journal|apply untouched_stable|done|].
  intros w w' r Hw Hw' E%load_journal_return. destruct (untouched_fresh w0 Hidle w Hw) as (_ & Ha & _).
  rewrite Ha in E. done.
Qed.

Lemma replays_refusal op authority input outcome state termination ob :
  replays input (persist_pre_effect_result ports op request authority input outcome state termination ob).
Proof.
  eapply triple_bind; [apply load_stored|]. intros r w [-> Hw]. revert w Hw. unfold replay_pre_effect.
  case_bool_decide; cbn [negb]; [|by apply triple_raise].
  case_bool_decide; cbn [negb]; [|by apply triple_raise]. by apply triple_ret.
Qed.

Lemma replays_admitted op admission current input :
  replays input (execute_admitted ports op request admission current input).
Proof.
  eapply (triple_bind _ _ _ (λ _, untouched w0)).
  { eapply triple_bind; [apply no_journal_read|]. intros r w [-> Hw]. exact Hw. }
  intros []. eapply (triple_bind _ _ _ (λ r w, r = Some (into_application_result stored true) ∧ untouched w0 w
    ∧ u_input_digest stored = input)).
  - eapply triple_bind; [apply load_stored|]. intros r w [-> Hw]. revert w Hw.
    case_bool_decide; cbn [negb]; [|by apply triple_raise]. destruct (_ || _); [by apply triple_raise|].
    eapply triple_bind; [apply no_journal_read|]. intros r w [-> Hw]. done.
  - intros r w (-> & Hw & Hi). done.
Qed.

Lemma replays_execute op :
  triple (untouched w0) (execute_source_edit ports op request)
    (λ res w, untouched w0 w ∧ res = into_application_result stored true
              ∧ request_input_digest request = Ok (u_input_digest stored)) (untouched w0).
Proof.
  unfold execute_source_edit. apply triple_bind_lift; [done|]. intros _ _.
  case_bool_decide; cbn [negb]; [|by apply triple_raise].
  eapply (triple_bind _ _ _ (λ _, untouched w0)); [apply triple_reads; [apply reads_lock|apply untouched_stable|done..]|].
  intros []. apply triple_bind_lift; [done|]. intros input Hi. apply triple_bind_lift; [done|]. intros authority _.
  cut (∀ m, replays input m → triple (untouched w0) m (λ res w, untouched w0 w ∧ res = into_application_result stored true
    ∧ request_input_digest request = Ok (u_input_digest stored)) (untouched w0)).
  { intros Hcut. cbv zeta. case_match; [apply Hcut, replays_refusal|].
    case_match; [|apply Hcut, replays_refusal]. destruct (_ || _); [apply Hcut, replays_refusal|].
    case_match; [case_match; apply Hcut; [apply replays_admitted|apply replays_refusal]|].
    eapply triple_bind; [apply load_stored|]. intros r w [-> Hw]. exact Hw. }
  intros m Hm. eapply triple_weaken; [exact Hm|done| |done]. intros res w (Hw & -> & <-). split; [done|]. split; [done|].
  unfold application_contract in Hi. destruct (request_input_digest request); congruence.
Qed.
End spent.

(** ** Foreign bytes *)

Lemma observe_refuses files file w w' l :
  file ∈ files → contents (tree w) (relative_path file) ≠ text_bytes (expected file) →
  contents (tree w) (relative_path file) ≠ text_bytes (intended file) →
  observe_planned (opens ports) files w ≠ (w', Return l).
Proof.
  intros Hf Hpre Hpost E%observe_planned_return. destruct E as [_ Ht]. by destruct (Ht file Hf).
Qed.

Lemma bind_refuses {A B} (m : tx A) (k : A → tx B) w :
  within_frame reads_only m → (∀ a w', m w ≠ (w', Return a)) →
  reads_only w (bind m k w).1 ∧ ∀ b, (bind m k w).2 ≠ Return b.
Proof.
  intros Hm Hn. specialize (Hm w). unfold bind. destruct (m w) as [w' [a|e|]]; [by destruct (Hn a w')|done..].
Qed.

Lemma foreign_refused scope w j file :
  active w = Some (journal_to_json j) → j_state j = Prepared → file ∈ j_recovery_files j →
  contents (tree w) (relative_path file) ≠ text_bytes (expected file) →
  contents (tree w) (relative_path file) ≠ text_bytes (intended file) →
  reads_only w (recover_source_edit_transaction ports scope w).1
  ∧ ∀ a, (recover_source_edit_transaction ports scope w).2 ≠ Return a.
Proof.
  intros Ha Hj Hf Hpre Hpost. unfold recover_source_edit_transaction, bind.
  pose proof (reads_load_journal w) as Hl.
  destruct (load_journal w) as [w1 [r|e|]] eqn:E; [|done..]. simpl in Hl.
  apply load_journal_return in E. rewrite Ha in E. destruct E as (k & -> & Ek).
  rewrite journal_round_trip in Ek. injection Ek as <-. destruct (negb _); [done|]. rewrite Hj.
  destruct (is_empty (j_recovery_files j)) eqn:Ee.
  { exfalso. destruct (j_recovery_files j); [by apply elem_of_nil in Hf|done]. }
  pose proof (reads_digest (opens ports) (j_candidate_files j) w1) as Hd.
  pose proof (frame_trans (R:=reads_only) _ _ _ Hl Hd) as Hd'.
  destruct (source_edit_state_digest _ _ w1) as [w2 [d|e|]]; [|done..]. simpl in Hd'.
  pose proof Hd' as (Ht & _). rewrite <- Ht in Hpre, Hpost.
  assert (∀ (m : tx unit), (reads_only w2 (m w2).1 ∧ ∀ a, (m w2).2 ≠ Return a) →
    reads_only w (m w2).1 ∧ ∀ a, (m w2).2 ≠ Return a) as Hcut.
  { intros m [Hr Hn]. split; [|done]. exact (frame_trans (R:=reads_only) _ _ _ Hd' Hr). }
  case_bool_decide; apply Hcut.
  - apply bind_refuses; [apply reads_commit|]. intros [] w' E%commit_return. apply Hpost. exact (E file Hf).
  - unfold roll_back, rollback_planned_source_edit_files, bind.
    pose proof (reads_observe_planned (opens ports) (j_recovery_files j) w2) as Hr.
    destruct (observe_planned (opens ports) (j_recovery_files j) w2) as [w3 [l|e|]] eqn:E; [|done..].
    exfalso. by eapply observe_refuses.
Qed.

(** A digest is read only of candidates that open. *)
Lemma state_digest_reachable files w w' d :
  source_edit_state_digest (opens ports) files w = (w', Return d) →
  ∀ path, path ∈ files → reachable (opens ports) (dirs w) path.
Proof.
  intros E. apply bind_return in E as (l & w1 & E & _). revert w l E.
  induction files as [|p files IH]; intros w l E path; simpl in E; [by intros ?%elem_of_nil|].
  apply bind_return in E as (v & w2 & (_ & Hp & _ & (_ & Hd) & _)%candidate_return & E).
  apply bind_return in E as (state & w3 & [_ ->]%lift_return & E).
  apply bind_return in E as (rest & w4 & E & [= -> _]).
  intros [->|Hin]%elem_of_cons; [done|]. rewrite <- Hd. by eapply IH.
Qed.

(** ** Reconciliation *)
Definition keeps_tree (w w' : World) : Prop := tree w' = tree w.

#[local] Instance keeps_tree_frame : Frame keeps_tree.
Proof.
  split; unfold keeps_tree; [done|congruence|]. intros w. unfold next_fate. by destruct (fates w).
Qed.

Lemma keeps_tree_of R {A} (m : tx A) :
  (∀ w w', R w w' → tree w' = tree w) → within_frame R m → within_frame keeps_tree m.
Proof. intros HR Hm w. by apply HR. Qed.

Lemma reads_tree {A} (m : tx A) : within_frame reads_only m → within_frame keeps_tree m.
Proof. apply keeps_tree_of. by intros w w' []. Qed.

Lemma persist_tree path e : within_frame keeps_tree (persist_record path e).
Proof. unfold persist_record. frames. by apply (frame_replace _). Qed.

Lemma clear_tree : within_frame keeps_tree clear_journal.
Proof. by apply (frame_replace _). Qed.

Lemma persist_rollback_tree j c ok : within_frame keeps_tree (persist_rollback_record j c ok).
Proof. eapply keeps_tree_of; [|apply (persist_rollback_books j c)]. by intros w w' [[? _] _]. Qed.

Lemma reads_reconciliation_receipt k : within_frame reads_only (load_reconciliation_receipt k).
Proof. unfold load_reconciliation_receipt, load_result. frames. apply reads_load. Qed.

Lemma reconcile_tree request : within_frame keeps_tree (reconcile_source_edit_effect_unknown ports request).
Proof.
  unfold reconcile_source_edit_effect_unknown, recover_reconciliation_attempt,
    reconcile_prepared_source_edit_controlled, persist_interrupted_reconciliation_attempt,
    retained_reconciliation_journal, confirm_disposition, persist_receipt, persist_reconciliation_receipt.
  frames; first [apply persist_tree|apply clear_tree|apply persist_rollback_tree
    |apply reads_tree; first [apply reads_lock|apply reads_load_journal|apply reads_load_receipt
      |apply reads_reconciliation_receipt|apply reads_digest]].
Qed.

Lemma attempt_record_outcome j request attempt o c e t ob r :
  reconciliation_attempt_record j request attempt o c e t ob = Ok r → er_outcome (ef_receipt (u_effect r)) = t.
Proof.
  unfold reconciliation_attempt_record, effect_result_new, refuse_if. intros E.
  destruct (reconciliation_attempt_effect_id _ _); [|discriminate].
  destruct (_ || _); [discriminate|]. destruct (_ && _); [discriminate|].
  destruct (validate_digest _); [|discriminate]. destruct (operation_receipt_validate _); [|discriminate].
  destruct (effect_receipt_validate _); [|discriminate]. by injection E as <-.
Qed.

Lemma persist_reconciliation_keeps r : within_frame keeps_effect (persist_reconciliation_receipt r).
Proof.
  unfold persist_reconciliation_receipt. apply (frame_bind_lift _). intros path (n & ->)%reconciliation_path_kind.
  unfold persist_record. case_match; [apply (frame_raise _)|]. apply (frame_replace _).
  intros w. split; [done|]. simpl. by rewrite lookup_insert_ne.
Qed.

Lemma interrupted_return j request attempt stage stop w w' res :
  stop_at ports stage = Some stop →
  persist_interrupted_reconciliation_attempt j request attempt stop w = (w', Return res) →
  active w' = active w ∧ ∃ effect, x_effect res = Some effect ∧
    (er_outcome (ef_receipt effect) = Cancelled ∨ er_outcome (ef_receipt effect) = TimedOut).
Proof.
  intros Hs%stop_termination_kind E.
  apply bind_return in E as (r & w1 & [Er%attempt_record_outcome ->]%lift_return & E).
  apply bind_return in E as ([] & w2 & E2 & [= <- <-]).
  pose proof (frame_run _ _ _ _ _ (persist_reconciliation_keeps r) E2) as [_ Ha]. split; [done|].
  exists (u_effect r). rewrite Er. done.
Qed.

(** What a journal proves about the inspected files. *)
Definition proven (j : SourceEditJournalV1) (request : SourceEditReconciliationRequestV1) (t : gmap rstr File) : Prop :=
  match rq_disposition request with
  | ConfirmCommitted c => j_predicted_state j = Some c ∧ digest_of (contents t) (j_candidate_files j) = Ok c
  | ConfirmRolledBack => digest_of (contents t) (j_candidate_files j) = Ok (j_expected_state j)
  end.

Lemma confirm_return j request d e w w' r :
  confirm_disposition j request d e w = (w', Return r) →
  match rq_disposition request with
  | ConfirmCommitted c => j_predicted_state j = Some c ∧ d = c
  | ConfirmRolledBack => d = j_expected_state j
  end.
Proof.
  unfold confirm_disposition. destruct (rq_disposition request) as [c|].
  - destruct (j_predicted_state j) as [p|]; [|discriminate].
    case_bool_decide; [|discriminate]. case_bool_decide; [|discriminate]. simpl. intros _. by subst.
  - case_bool_decide; [|discriminate]. done.
Qed.

Lemma clear_return w w' : clear_journal w = (w', Return tt) → active w' = None.
Proof.
  unfold clear_journal, replace. destruct (next_fate w) as [[] w1]; try discriminate. intros [= <-].
  apply lookup_delete_eq.
Qed.

Lemma controlled_return operation request attempt w w' res :
  reconcile_prepared_source_edit_controlled ports operation request attempt w = (w', Return res) →
  ∃ effect, x_effect res = Some effect ∧
    match er_outcome (ef_receipt effect) with
    | Completed => active w' = None ∧ ∃ encoded j, active w = Some encoded ∧ journal_from_json encoded = Some j
        ∧ j_state j = Prepared ∧ proven j request (tree w)
    | _ => active w' = active w
    end.
Proof.
  intros E. apply bind_return in E as (j & w1 & E1 & E).
  apply bind_return in E1 as (r & wl & El & E1).
  pose proof (frame_run _ _ _ _ _ reads_load_journal El) as (Tl & _ & Sl).
  apply load_journal_return in El. unfold active in El.
  destruct r as [j'|]; [|discriminate]. destruct (negb _); [discriminate|].
  destruct (j_state j') eqn:Ej; [|discriminate]. injection E1 as <- <-.
  assert (∀ stage stop w2 w3, stop_at ports stage = Some stop → store w2 = store w →
    persist_interrupted_reconciliation_attempt j' request attempt stop w2 = (w3, Return res) →
    ∃ effect, x_effect res = Some effect ∧ match er_outcome (ef_receipt effect) with
      | Completed => active w3 = None ∧ ∃ encoded j, active w = Some encoded ∧ journal_from_json encoded = Some j
          ∧ j_state j = Prepared ∧ proven j request (tree w)
      | _ => active w3 = active w end) as Hint.
  { intros stage stop w2 w3 Hs Hst Ei. destruct (interrupted_return _ _ _ _ _ _ _ _ Hs Ei) as (Ha & ef & Ef & Ho).
    exists ef. split; [done|]. unfold active in *. rewrite Hst in Ha. by destruct Ho as [-> | ->]. }
  destruct (stop_at ports BeforeEffect) as [stop|] eqn:Es; [by eapply Hint|].
  apply bind_return in E as (d & w2 & [Ed (Td & _ & Sd)]%state_digest_return & E).
  destruct (stop_at ports EffectInFlight) as [stop|] eqn:Es2.
  { eapply Hint; [exact Es2| |exact E]. congruence. }
  apply bind_return in E as (record & w3 & Ec%confirm_return & E).
  apply bind_return in E as ([] & w4 & _ & E).
  apply bind_return in E as (ar & w5 & [Ear%attempt_record_outcome ->]%lift_return & E).
  apply bind_return in E as ([] & w6 & _ & E). apply bind_return in E as ([] & w7 & E7%clear_return & [= <- <-]).
  exists (u_effect ar). split; [done|]. rewrite Ear. split; [done|].
  destruct (store w !! ActivePath) as [encoded|] eqn:Ea; [|discriminate]. destruct El as (k & [= <-] & Ek).
  exists encoded, j'. unfold active. repeat (split; [done|]). unfold proven. rewrite Tl in Ed.
  destruct (rq_disposition request); [by destruct Ec; subst|by subst].
Qed.

(** ** Rollback *)
Lemma persist_receipt_tree r : within_frame keeps_tree (persist_receipt r).
Proof. unfold persist_receipt. frames. apply persist_tree. Qed.

Definition outcome_is (t : EffectTermination) (res : SourceEditApplicationResult) : Prop :=
  ∃ effect, x_effect res = Some effect ∧ er_outcome (ef_receipt effect) = t.

Lemma refused_outcome op request authority input o t ob w w' res :
  persist_pre_effect ports op request authority input o t ob w = (w', Return res) →
  x_replayed res = true ∨ outcome_is t res.
Proof.
  intros E. apply bind_return in E as ([stored|] & w1 & _ & E).
  - left. unfold replay_pre_effect in E. destruct (negb _); [discriminate|]. destruct (negb _); [discriminate|].
    by injection E as _ <-.
  - right. apply bind_return in E as (j & w2 & _ & E).
    apply bind_return in E as (r & w3 & [(_ & Ho & _)%durable_record_key _]%lift_return & E).
    apply bind_return in E as ([] & w4 & _ & [= _ <-]). by exists (u_effect r).
Qed.

Lemma finalize_rollback_return op j c w w' res :
  finalize_rollback ports op j c w = (w', Return res) → tree w' = tree w ∧ active w' = None.
Proof.
  intros E. unfold finalize_rollback in E. cbv zeta in E.
  apply bind_return in E as ([] & w1 & E1%(frame_run _ _ _ _ _ (persist_tree _ _)) & E).
  apply bind_return in E as (u & w2 & E2 & E).
  assert (tree w2 = tree w1) as T2.
  { revert E2. repeat case_match; intros E2; try (by injection E2 as <- _);
      exact (frame_run _ _ _ _ _ (persist_tree _ _) E2). }
  apply bind_return in E as (r & w3 & [_ ->]%lift_return & E).
  apply bind_return in E as ([] & w4 & E4%(frame_run _ _ _ _ _ (persist_receipt_tree _)) & E).
  apply bind_return in E as ([] & w5 & E5 & [= <- <-]).
  pose proof (frame_run _ _ _ _ _ clear_tree E5) as T5. apply clear_return in E5.
  unfold keeps_tree in *. split; congruence.
Qed.

Lemma run_rollback_return op j retained restored w w' res :
  plan_ok retained → run_rollback ports op j retained restored w = (w', Return res) → outcome_is Completed res →
  all_pre retained (tree w') ∧ same_outside retained (tree w) (tree w') ∧ active w' = None.
Proof.
  intros Hok E (effect & Ef & Ho). unfold run_rollback in E.
  apply bind_return in E as ([] & w1 & E1%(frame_run _ _ _ _ _ (persist_tree _ _)) & E).
  destruct (stop_at ports BeforeEffect) as [stop|] eqn:Es.
  { apply bind_return in E as (r & w2 & [(_ & Hr & _)%durable_record_key _]%lift_return & E).
    apply bind_return in E as ([] & w3 & _ & E). apply bind_return in E as ([] & w4 & _ & [= _ <-]).
    injection Ef as <-. rewrite Hr in Ho. destruct (stop_termination_kind _ _ _ Es); congruence. }
  apply bind_return in E as (result & w2 & E2%attempt_return & E).
  apply bind_return in E as (c & w3 & [_ (T3 & _)]%state_digest_return & E).
  destruct (is_err result || _) eqn:Eb.
  { exfalso. clear Eb. destruct (negb _).
    - apply bind_return in E as (r & w4 & [(_ & Hr & _)%durable_record_key _]%lift_return & E).
      apply bind_return in E as ([] & w5 & _ & [= _ <-]). injection Ef as <-. congruence.
    - apply bind_return in E as (r & w4 & [(_ & Hr & _)%durable_record_key _]%lift_return & E).
      apply bind_return in E as ([] & w5 & _ & E). apply bind_return in E as ([] & w6 & _ & [= _ <-]).
      injection Ef as <-. congruence. }
  apply finalize_rollback_return in E as [T Ha]. rewrite T, T3.
  destruct result as [[]|e]; [|done]. rewrite <- E1.
  pose proof (frame_run _ _ _ _ _ (rollback_stays_torn (opens ports) retained Hok retained ltac:(done)) E2)
    as (_ & _ & Hout & _).
  split; [|done].
  apply (rollback_return (opens ports) retained Hok retained w1 w2); [done| |done].
  destruct Hok as [Hnd _]. by apply NoDup_fmap_1 in Hnd.
Qed.

Lemma load_rollback_return id w w' record :
  load_rollback_record id w = (w', Return (Some record)) →
  reads_only w w' ∧ ∃ path encoded, rollback_record_path id = Ok path ∧ store w !! path = Some encoded
    ∧ rollback_from_json encoded = Some record.
Proof.
  intros E. split; [exact (frame_run _ _ _ _ _ (reads_load_rollback id) E)|].
  apply bind_return in E as (path & w1 & [Ep ->]%lift_return & E). apply bind_return in E as (r & w2 & E1 & E).
  unfold load_record in E1. apply bind_return in E1 as (file & w3 & [-> (_ & _ & Hs)]%observe_return & E1).
  rewrite Hs in E1. destruct (store w !! path) as [encoded|] eqn:Ee; [|injection E1 as <- <-; discriminate].
  destruct (_ <? _); [discriminate|]. destruct (rollback_from_json encoded) as [r'|] eqn:Er; [|discriminate].
  injection E1 as <- <-. apply bind_return in E as (? & w4 & _ & E). destruct (negb _); [discriminate|].
  injection E as _ <-. by exists path, encoded.
Qed.

(** The files a recorded edit replaced hold its preimages again. *)
Definition restored (request : SourceEditRollbackRequestV1) (w w' : World) : Prop :=
  ∃ path encoded record, rollback_record_path (bq_effect_id request) = Ok path
  ∧ store w !! path = Some encoded ∧ rollback_from_json encoded = Some record
  ∧ all_pre (b_recovery_files record) (tree w') ∧ same_outside (b_recovery_files record) (tree w) (tree w')
  ∧ active w' = None.

Definition plans_ok (w : World) : Prop :=
  ∀ path encoded record, store w !! path = Some encoded → rollback_from_json encoded = Some record →
    plan_ok (b_recovery_files record).

Lemma rollback_admitted_return op request authority input w w' res :
  active w = None → plans_ok w → rollback_admitted ports op request authority input w = (w', Return res) →
  x_replayed res = false → outcome_is Completed res → restored request w w'.
Proof.
  intros Ha Hplans E Hr Ho. unfold rollback_admitted in E.
  apply bind_return in E as ([] & w1 & E1 & E).
  assert (reads_only w w1) as R1.
  { apply bind_return in E1 as (r & w2 & E2 & E1). pose proof (frame_run _ _ _ _ _ reads_load_journal E2) as R2.
    apply load_journal_return in E2. rewrite Ha in E2. subst r. by injection E1 as <-. }
  apply bind_return in E as (stored & w2 & R2%(frame_run _ _ _ _ _ (reads_load_receipt _)) & E).
  pose proof (frame_trans (R:=reads_only) _ _ _ R1 R2) as R12.
  destruct stored as [stored|].
  { destruct (negb _); [discriminate|]. destruct (_ || _); [discriminate|]. injection E as _ <-. discriminate. }
  apply bind_return in E as ([record|] & w3 & E3 & E); [|discriminate].
  apply load_rollback_return in E3 as (R3 & path & encoded & Hp & Hs & Hd).
  destruct R12 as (T12 & _ & S12). rewrite S12 in Hs. specialize (Hplans path encoded record Hs Hd).
  apply bind_return in E as ([original|] & w4 & (T4 & _)%(frame_run _ _ _ _ _ (reads_load_receipt _)) & E); [|discriminate].
  destruct (negb _); [discriminate|].
  apply bind_return in E as (cands & w5 & (T5 & _)%(frame_run _ _ _ _ _ (reads_normalize _ _)) & E).
  apply bind_return in E as (d & w6 & [_ (T6 & _)]%state_digest_return & E).
  assert (tree w6 = tree w) as T by (destruct R3 as (? & _); congruence).
  destruct (negb _).
  { destruct (refused_outcome _ _ _ _ _ _ _ _ _ _ E) as [Hrep|(ef & Ef & Hf)]; [congruence|].
    destruct Ho as (ef' & Ef' & Hf'). congruence. }
  apply bind_return in E as (j & w7 & [_ ->]%lift_return & E).
  apply run_rollback_return in E as (Hpre & Hout & Hact); [|done|done]. rewrite T in Hout.
  by exists path, encoded, record.
Qed.

(** C1. An edit is atomic across crashes.  Start from a worktree with no
    journal pending, with primitives that report success exactly when they hand
    new text on, where the records of the edit fit, no torn state of its plan
    has the digest of the published one, and each file the plan creates is at
    the root of the worktree or beside another file.  Let the edit run with any
    pattern of refused calls, unconfirmed replacements and process deaths, then
    any number of recoveries that may be interrupted in the same way: one
    recovery without failures then returns, no journal is pending, no directory
    is gone, and every file holds what it held before the edit, or the plan of
    its exact preview is published whole with every other file as it was. *)
Theorem edit_is_atomic operation request w0 fs runs :
  active w0 = None → honest (apply_primitives ports) → recoverable operation request w0 →
  let scope := c_scope (q_context request) in
  let crashed := (execute_source_edit ports operation request (restart fs w0)).1 in
  ∃ w, recover_source_edit_transaction ports scope (restart [] (recoveries scope runs crashed)) = (w, Return tt)
  ∧ active w = None ∧ dirs w = dirs w0
  ∧ ((∀ p, content <$> tree w !! p = content <$> tree w0 !! p)
     ∨ ∃ pv, previews ports request w0 pv ∧ all_post (pv_planned_files pv) (tree w)
            ∧ same_outside (pv_planned_files pv) (tree w0) (tree w)).
Proof.
  intros Ha Hh Hrec scope crashed.
  assert (safe ports operation request w0 crashed) as Hs.
  { eapply triple_crash; [apply (execute_safely ports operation request w0 Ha)|by intros a x []|apply restart_untouched].
    - done.
    - intros j post Hj. by apply Hrec. }
  apply (recoveries_safe _ _ _ scope runs) in Hs.
  apply (safe_stable _ _ _ _ _ _ (restart_reads [] _)) in Hs.
  assert (calm (restart [] (recoveries scope runs crashed))) as Hc by done.
  destruct (recover_safe_calm ports operation request w0 _ (λ j post Hj, proj2 (Hrec j post Hj)) Hc Hs) as [w E].
  pose proof (recover_safe ports operation request w0 scope _ Hs) as Hr. fold scope in E. rewrite E in Hr.
  destruct Hr as (_ & Hact & Hdirs & Hfiles). exists w. split; [done|]. split; [done|]. split; [|done].
  apply Hdirs. intros j post Hj. by destruct (Hrec j post Hj) as (_ & _ & _ & Hsh).
Qed.

(** C38. The move of a symbol into a new file removes the directories above the
    file when its source cannot be written, as long as they are empty, also
    those that were there before the move.  A prepared journal one of whose
    files lies in a directory that is gone can not be recovered any more: every
    recovery fails, or the process dies, with every file, directory and record
    as it was. *)
Theorem missing_directory_blocks_recovery scope w j path key d :
  active w = Some (journal_to_json j) → j_state j = Prepared → j_recovery_files j ≠ [] →
  path ∈ j_candidate_files j → normalize_source_edit_relative_path path = Some key →
  d ∈ parents key → d ∉ dirs w →
  reads_only w (recover_source_edit_transaction ports scope w).1
  ∧ ∀ a, (recover_source_edit_transaction ports scope w).2 ≠ Return a.
Proof.
  intros Ha Hj Hf Hp Hk Hd0 Hgone. unfold recover_source_edit_transaction, bind.
  pose proof (reads_load_journal w) as Hl.
  destruct (load_journal w) as [w1 [r|e|]] eqn:E; [|done..]. simpl in Hl.
  apply load_journal_return in E. rewrite Ha in E. destruct E as (k & -> & Ek).
  rewrite journal_round_trip in Ek. injection Ek as <-. destruct (negb _); [done|]. rewrite Hj.
  destruct (is_empty (j_recovery_files j)) eqn:Ee.
  { exfalso. by destruct (j_recovery_files j). }
  pose proof (reads_digest (opens ports) (j_candidate_files j) w1) as Hd.
  pose proof (frame_trans (R:=reads_only) _ _ _ Hl Hd) as Hd'.
  destruct (source_edit_state_digest _ _ w1) as [w2 [dig|e|]] eqn:E; [|done..]. exfalso.
  destruct (state_digest_reachable _ _ _ _ E path Hp) as (k & Hk' & Hr). simplify_eq. apply andb_true_iff in Hr as [_ Hr].
  destruct Hl as (_ & (_ & Hd1) & _). rewrite Hd1 in Hr. unfold parents_exist in Hr. rewrite forallb_forall in Hr.
  specialize (Hr d (proj1 (list_elem_of_In _ _) Hd0)). by apply bool_decide_eq_true_1 in Hr.
Qed.

(** C2. A receipt tells the truth about the files.  Start with no journal
    pending, with primitives that report success exactly when they hand new
    text on, and, for a move, with a rollback record that fits and whose place
    in the store is free or holds it.  When the edit then returns, whatever
    calls failed on the way: a replay changed no file; [Completed] and
    [Partial] of an apply say that the exact preview is published whole and
    nothing else changed; [Failed], [Cancelled], [TimedOut], [NoChange] and
    every dry run say that no file changed; and [EffectUnknown] leaves the
    journal in place for recovery.  With a journal pending none of this holds:
    the run recovers first, and a retry refused at admission stores a
    [Cancelled] receipt over published files ([EditSamples]). *)
Theorem receipts_are_truthful operation request w0 w res :
  active w0 = None → honest (apply_primitives ports) →
  (∀ j post, journal_for ports operation request w0 j post → slot_ok j post w0) →
  execute_source_edit ports operation request w0 = (w, Return res) →
  truthful ports request w0 res w.
Proof.
  intros Ha Hh Hs E. pose proof (execute_safely ports operation request w0 Ha (λ _, Hh) Hs w0) as Hr.
  rewrite E in Hr. by apply Hr.
Qed.

(** C37. With no journal pending, a dry run writes no file, removes no
    directory and leaves no journal, wherever it stops. *)
Theorem dry_run_writes_nothing operation request w0 :
  active w0 = None → edit_dry_run (q_edit request) = true →
  let w := (execute_source_edit ports operation request w0).1 in
  tree w = tree w0 ∧ active w = None ∧ dirs w = dirs w0.
Proof.
  intros Ha Hd w.
  assert (safe ports operation request w0 w) as [Hf|(j & post & (pv & au & i & id & rd & Hn & _) & _)].
  { eapply triple_crash; [apply (execute_safely ports operation request w0 Ha)|by intros a x []|done].
    - congruence.
    - intros j post (pv & au & i & id & rd & Hn & _). congruence. }
  - exact Hf.
  - congruence.
Qed.

(** C13. An idempotency key is spent once.  Where a receipt is stored under the
    key of a request and no journal is pending, an execution changes neither
    files nor records, wherever it stops; and when it returns, it returns that
    receipt marked as replayed, for a request with the same input digest. *)
Theorem spent_key_replays operation request w0 stored path w r :
  active w0 = None → receipt_path (q_idempotency_key request) = Ok path →
  store w0 !! path = Some (result_to_json stored) →
  execute_source_edit ports operation request w0 = (w, r) →
  tree w = tree w0 ∧ store w = store w0 ∧
  ∀ res, r = Return res →
    res = into_application_result stored true ∧ request_input_digest request = Ok (u_input_digest stored).
Proof.
  intros Ha Hp Hs E. pose proof (replays_execute request w0 stored path Ha Hp Hs operation w0) as Hr.
  rewrite E in Hr. destruct r as [res|e|].
  - destruct (Hr ltac:(done)) as ((Ht & _ & Hst) & -> & Hi). split; [done|]. split; [done|]. by intros ? [= <-].
  - destruct (Hr ltac:(done)) as (Ht & _ & Hst). done.
  - destruct (Hr ltac:(done)) as (Ht & _ & Hst). done.
Qed.

(** C12. Recovery never overwrites bytes it does not know.  Where a prepared
    journal is pending and some planned file holds neither its preimage nor its
    postimage, recovery reports an error (or the process dies) with every file
    and every record as it was. *)
Theorem recovery_refuses_foreign_bytes scope w j file :
  active w = Some (journal_to_json j) → j_state j = Prepared → file ∈ j_recovery_files j →
  contents (tree w) (relative_path file) ≠ text_bytes (expected file) →
  contents (tree w) (relative_path file) ≠ text_bytes (intended file) →
  tree (recover_source_edit_transaction ports scope w).1 = tree w
  ∧ store (recover_source_edit_transaction ports scope w).1 = store w
  ∧ ∀ a, (recover_source_edit_transaction ports scope w).2 ≠ Return a.
Proof. intros Ha Hj Hf H1' H2'. by destruct (foreign_refused scope w j file Ha Hj Hf H1' H2') as [(? & _ & ?) ?]. Qed.

(** C11. A completed rollback restored every preimage.  When a rollback that
    starts with no journal pending, over a store whose rollback records have
    well-formed plans, returns a fresh [Completed] receipt, the
    rollback record of the named edit is in the store, each of its files holds
    the preimage the record retains, no other file changed, and no journal is
    pending. *)
Theorem rollback_restores_preimages operation request w w' res :
  active w = None → plans_ok w → execute_source_edit_rollback ports operation request w = (w', Return res) →
  x_replayed res = false → outcome_is Completed res → restored request w w'.
Proof.
  intros Ha Hplans E Hr Ho. unfold execute_source_edit_rollback in E.
  apply bind_return in E as (? & w1 & [_ ->]%lift_return & E). destruct (negb _); [discriminate|].
  apply bind_return in E as ([] & w2 & (T2 & _ & S2)%(frame_run _ _ _ _ _ reads_lock) & E).
  apply bind_return in E as (input & w3 & [_ ->]%lift_return & E).
  apply bind_return in E as (authority & w4 & [_ ->]%lift_return & E).
  assert (∀ o t ob au, t ≠ Completed →
    persist_pre_effect ports operation request au input o t ob w2 = (w', Return res) → restored request w w') as Hno.
  { intros o t ob au Ht Ep. exfalso. destruct (refused_outcome _ _ _ _ _ _ _ _ _ _ Ep) as [Hrep|(ef & Ef & Hf)];
      [congruence|]. destruct Ho as (ef' & Ef' & Hf'). congruence. }
  destruct (stop_at ports BeforeAdmission) as [stop|] eqn:Es.
  { eapply Hno; [|exact E]. destruct (stop_termination_kind _ _ _ Es) as [-> | ->]; done. }
  destruct (port_admit _ _ _ _); [|by eapply Hno; [|exact E]]. destruct (_ || _); [by eapply Hno; [|exact E]|].
  destruct (recheck_effect _ _ _ _ _ _); [|discriminate]. destruct (_ || _); [by eapply Hno; [|exact E]|].
  apply rollback_admitted_return in E as (path & encoded & record & Hp & Hst & Hd & Hpre & Hout & Hact); try done.
  - rewrite S2 in Hst. rewrite T2 in Hout. by exists path, encoded, record.
  - unfold active in *. by rewrite S2.
  - unfold plans_ok in *. by rewrite S2.
Qed.

(** C14. Reconciliation records only what it proves.  It writes no file,
    wherever it stops.  When a fresh attempt returns as [Completed], the journal
    of a prepared edit was pending and is cleared, and the candidate files had
    exactly the digest that the caller confirmed: that of the exact preview for
    a committed edit, that of the admitted state for one that was rolled back.
    Any other fresh result leaves the journal pending. *)
Theorem reconciliation_needs_proof request w :
  tree (reconcile_source_edit_effect_unknown ports request w).1 = tree w
  ∧ ∀ w' res, reconcile_source_edit_effect_unknown ports request w = (w', Return res) → x_replayed res = false →
    ∃ effect, x_effect res = Some effect ∧
      match er_outcome (ef_receipt effect) with
      | Completed => active w' = None ∧ ∃ encoded j, active w = Some encoded ∧ journal_from_json encoded = Some j
          ∧ j_state j = Prepared ∧ proven j request (tree w)
      | _ => active w' = active w
      end.
Proof.
  split; [apply reconcile_tree|]. intros w' res E Hr. unfold reconcile_source_edit_effect_unknown in E.
  apply bind_return in E as (? & w1 & [_ ->]%lift_return & E).
  apply bind_return in E as (input & w2 & [_ ->]%lift_return & E). cbv zeta in E.
  apply bind_return in E as ([] & w3 & E3 & E).
  pose proof (frame_run _ _ _ _ _ reads_lock E3) as (T3 & _ & S3).
  apply bind_return in E as (stored & w4 & E4 & E).
  assert ((∃ r, stored = Some r ∧ x_replayed r = true) ∨ (stored = None ∧ reads_only w3 w4)) as [(r & -> & Hrep)|[-> (T4 & _ & S4)]].
  { unfold recover_reconciliation_attempt in E4. apply bind_return in E4 as ([r|] & w5 & E5 & E4).
    - destruct (negb _); [discriminate|]. destruct (_ || _); [discriminate|].
      apply bind_return in E4 as (? & w6 & _ & [= _ <-]). left. by eexists.
    - right. injection E4 as <- <-. split; [done|].
      exact (frame_run _ _ _ _ _ (reads_reconciliation_receipt _) E5). }
  { injection E as _ <-. congruence. }
  assert (tree w4 = tree w ∧ active w4 = active w) as [T S] by (unfold active; split; congruence).
  rewrite <- T, <- S. destruct (stop_at ports BeforeAdmission) as [stop|] eqn:Es.
  - apply bind_return in E as ([j|] & w5 & E5 & E); [|discriminate].
    pose proof (frame_run _ _ _ _ _ reads_load_journal E5) as (_ & _ & S5).
    destruct (_ || _); [discriminate|]. apply bind_return in E as (au & w6 & [_ ->]%lift_return & E).
    destruct (interrupted_return _ _ _ _ _ _ _ _ Es E) as (Ha & ef & Ef & Ho).
    exists ef. split; [done|]. unfold active in *. rewrite S5 in Ha. by destruct Ho as [-> | ->].
  - destruct (port_admit _ _ _ _); [|discriminate]. destruct (_ || _); [discriminate|].
    destruct (recheck_effect _ _ _ _ _ _); [|discriminate]. destruct (_ || _); [discriminate|].
    by eapply controlled_return.
Qed.
End properties.
