(* ===== verification/EditSamples.v ===== *)
(** * Source edits: a concrete world

    Digests over the mixing hash of [Bytes], records kept as values, and a
    worktree of two files with the move of a symbol between them, on which the
    properties of [EditProperties] are evaluated. *)
From stdpp Require Import base numbers strings gmap list.
From S2P Require Import Prelude RustText Bytes PolicyRouting EditContract EditRecords EditFiles EditPlan.
From S2P Require Import EditJournal EditVerify EditExecute EditLogic EditPublish EditRecovery EditAtomic.
From S2P Require Import EditSafety EditReconcile EditProperties.

#[local] Open Scope Z_scope.
#[local] Open Scope rust_scope.

#[local] Existing Instance mixing_sha256.

(** ** Digests *)
Definition flat_text (s : rstr) : list Z := zlen s :: s.
Definition flat_option (s : option rstr) : list Z := match s with Some s => 1 :: flat_text s | None => [0] end.
Definition flat_scope (s : ResolvedScope) : list Z :=
  flat_text (s_project_id s) ++ flat_text (s_repository_id s) ++ flat_text (s_worktree_id s)
  ++ flat_option (s_reference s).
Definition flat_edit (e : SourceEditRequest) : list Z :=
  match e with
  | StrReplace p o n d v => 1 :: flat_text p ++ flat_text o ++ flat_text n ++ [Z.b2z d; Z.b2z v]
  | MoveSymbol s p d u => 7 :: flat_text s ++ flat_text p ++ [Z.b2z d; Z.b2z u]
  | _ => [0]
  end.

Definition canon (l : list Z) : result rstr DomainError := from_sha256_bytes (sha256 l).

Lemma canon_total l : ∃ d, canon l = Ok d.
Proof.
  eexists. apply from_sha256_bytes_ok; [apply sha256_bytes|]. unfold zlen. by rewrite sha256_length.
Qed.

Lemma canon_ok l d : canon l = Ok d → digest_ok d = true.
Proof.
  unfold canon, from_sha256_bytes, digest_new, digest_ok.
  set (v := encode_tagged_lowercase_hex _ _). unfold validate_integrity_digest. cbv zeta. intros E.
  destruct (is_empty v) eqn:Ee; [discriminate|].
  match type of E with context [if negb ?b then _ else _] => destruct b eqn:En end; [|discriminate].
  injection E as <-. by rewrite Ee, En.
Qed.

#[local] Instance demo_digests : EditDigests.
Proof.
  refine {|
    scope_canonical := λ '(d, a, b, c, r), canon (flat_text d ++ flat_text a ++ flat_text b ++ flat_text c ++ flat_option r);
    request_canonical := λ '(d, a, s, e, k, x, o),
      canon (flat_text d ++ flat_text a ++ flat_scope s ++ flat_edit e ++ flat_text k ++ flat_text x ++ flat_option o);
    attempt_canonical := λ '(d, a, s, k, e, i, ai, x, disp, o),
      canon (flat_text d ++ flat_text a ++ flat_text e ++ flat_text i ++ flat_text ai ++ flat_text x ++ flat_option o);
    rollback_canonical := λ '(d, a, s, e, i, bi, x, y, o),
      canon (flat_text d ++ flat_text a ++ flat_text e ++ flat_text i ++ flat_text bi ++ flat_text x ++ flat_text y);
    state_canonical := λ '(d, l), canon (flat_text d ++ (l ≫= λ x, flat_text x.1 ++ flat_option x.2));
    planned_canonical := λ '(d, l),
      canon (flat_text d ++ (l ≫= λ '(p, a, b), flat_text p ++ flat_option a ++ flat_option b));
    key_canonical := λ '(d, k), canon (flat_text d ++ flat_text k);
    minted_canonical := λ '(d, k, i), canon (flat_text d ++ flat_text k ++ flat_text i);
    record_canonical := λ '(d, v, e, i, k, o, a, s, x, c, l, r),
      canon (flat_text d ++ flat_text e ++ flat_text i ++ flat_text k ++ flat_text c ++ flat_text r);
  |}.
  - intros [[[[[[? ?] ?] ?] ?] ?] ?] d. apply canon_ok.
  - intros [[[[[[[[? ?] ?] ?] ?] ?] ?] ?] ?] d. apply canon_ok.
  - intros [? ?] d. apply canon_ok.
Defined.

(** ** Records *)
Inductive DemoRecord : Type :=
  | DemoJournal (j : SourceEditJournalV1)
  | DemoResult (r : SourceEditDurableResultV1)
  | DemoRollback (r : SourceEditRollbackRecordV1).

#[local] Instance demo_codec : DurableCodec.
Proof.
  refine {|
    Encoded := DemoRecord;
    encoded_len := λ _, 4096;
    journal_to_json := DemoJournal;
    journal_from_json := λ e, match e with DemoJournal j => Some j | _ => None end;
    result_to_json := DemoResult;
    result_from_json := λ e, match e with DemoResult r => Some r | _ => None end;
    rollback_to_json := DemoRollback;
    rollback_from_json := λ e, match e with DemoRollback r => Some r | _ => None end;
  |}; done.
Defined.

(** ** A worktree, a request and its ports *)
Definition demo_hash (c : Z) : rstr := str "sha256:" ++ repeat c 64.
Definition ok_or {A E} (d : A) (r : result A E) : A := match r with Ok a => a | Err _ => d end.

Definition demo_scope : ResolvedScope :=
  let draft := {| s_project_id := str "project-1"; s_repository_id := str "repo-1"; s_worktree_id := str "tree-1";
                  s_reference := None; s_scope_digest := [] |} in
  {| s_project_id := s_project_id draft; s_repository_id := s_repository_id draft;
     s_worktree_id := s_worktree_id draft; s_reference := None;
     s_scope_digest := ok_or [] (compute_digest draft) |}.

Definition demo_operations : list ApplicationOperation :=
  [source_edit_operation KMoveSymbol; source_edit_reconciliation_operation; source_edit_rollback_operation].

Definition demo_context : RequestContext := {|
  c_actor := str "agent"; c_scope := demo_scope;
  c_grant := {| g_grant_id := str "grant"; g_revision := 3; g_digest := demo_hash 97; g_issuer := str "owner";
    g_issued_at := 10; g_expires_at := 9000; g_scope := demo_scope;
    g_allowed_capabilities := op_capability_id <$> demo_operations;
    g_allowed_use_cases := op_use_case_id <$> demo_operations; g_disclosure := DMetadata |};
  c_request_id := str "request-1"; c_deadline := 8000; c_cancellation := CancellationActive |}.

Definition demo_authority : AuthorityReceipt := {|
  a_grant_id := str "grant"; a_grant_revision := 3; a_grant_digest := demo_hash 97;
  a_authorized_scope_digest := s_scope_digest demo_scope; a_disclosure := DMetadata;
  a_policy := {| p_decision_id := str "decision"; p_revision := 1; p_digest := demo_hash 98;
                 p_evaluator_revision := str "v1" |};
  a_revalidated_at := 100 |}.

Definition demo_proof : SourceEditEffectProofV1 := {|
  f_policy_digest := demo_hash 98; f_configuration_revision_id := str "configuration";
  f_configuration_digest := demo_hash 99; f_catalog_revision := 1; f_catalog_digest := demo_hash 100;
  f_privacy_domain_id := str "privacy"; f_privacy_key_epoch := 1; f_privacy_digest := demo_hash 101;
  f_external_proof := None |}.

Definition file_a : rstr := str "src/a.rs".
Definition file_b : rstr := str "src/b.rs".
Definition text_a : rstr := str "fn f() {} fn g() {}".
Definition text_b : rstr := str "mod b;".
Definition moved_a : rstr := str "fn g() {}".
Definition moved_b : rstr := str "mod b; fn f() {}".

(** The primitive that moves [f]: only for the text it was written for. *)
Definition demo_moved : SourceEditOutcome := OMove {|
  v_success := true; v_source_file := file_a; v_dest_file := file_b;
  v_applied_imports := []; v_impact := []; v_message := str "moved" |}.
Definition demo_refused : SourceEditOutcome := OFailed (str "nothing to move").

Definition demo_primitives : Primitives := {|
  one_target := λ _, Err (config_error "not a single file edit");
  one_rewrite := λ _ _ _, Err (config_error "not a single file edit");
  move_targets := λ _, Ok (inr (file_a, file_b));
  move_check := λ _ _, Ok None;
  move_rewrite := λ _ source dest,
    if bool_decide (source = text_a ∧ dest = Some text_b) then Ok (MoveTo moved_a moved_b demo_moved)
    else Ok (RefuseMove demo_refused);
  rename_targets := λ _, Ok [];
  rename_modify := λ _ _ _, Ok None;
  rename_decide := λ _ _, Ok (RefuseRename demo_refused);
|}.

Lemma demo_honest : honest demo_primitives.
Proof.
  split; simpl; try done.
  - intros q s d r. by case_bool_decide; intros [= <-].
  - by intros q l r [= <-].
Qed.

Definition demo_ports (k : option SourceEditEffectControlV1) : Ports := {|
  opens := λ _, true;
  preview_primitives := demo_primitives;
  apply_primitives := demo_primitives;
  port_admit := λ _ _ _, Some {| ad_receipt := demo_authority; ad_proof := demo_proof |};
  recheck_effect := λ _ _ _ _ _, Some {| ad_receipt := demo_authority; ad_proof := demo_proof |};
  now_micros := λ n, 1000 + Z.of_nat n;
  control := k;
  run_diagnostics := λ _, Ok [];
|}.

Definition demo_tree : gmap rstr File :=
  <[file_a := {| content := utf8_encode text_a; identity := 1 |}]>
  (<[file_b := {| content := utf8_encode text_b; identity := 2 |}]> ∅).

Definition demo_world : World :=
  {| tree := demo_tree; next_identity := 3; dirs := {[str "src"]}; store := ∅; fates := [] |}.

Definition demo_state (t : gmap rstr File) : rstr := ok_or [] (digest_of (contents t) [file_a; file_b]).

Definition demo_request (dry_run : bool) (id : string) : SourceEditEffectRequestV1 := {|
  q_context := demo_context; q_authority := demo_authority;
  q_edit := MoveSymbol (str "f") file_b dry_run false;
  q_idempotency_key := str id; q_expected_state := demo_state demo_tree;
  q_proof := demo_proof; q_observed_at := 500 |}.

Definition demo_operation : ApplicationOperation := source_edit_operation KMoveSymbol.

Definition texts (w : World) : option bytes * option bytes :=
  (content <$> tree w !! file_a, content <$> tree w !! file_b).

Definition outcome_of (res : SourceEditApplicationResult) : option EffectTermination :=
  (λ e, er_outcome (ef_receipt e)) <$> x_effect res.

(** ** The hypotheses hold *)
Lemma demo_slot j c w : (∀ p, store w !! p = None) → slot_ok j c w.
Proof.
  intros Hs _. unfold source_edit_recovery_digest, record_digest, rollback_record_path, domain.
  destruct (canon_total (flat_text SOURCE_EDIT_RECOVERY_DIGEST_DOMAIN_V1 ++ (plan_tuple <$> j_recovery_files j) ≫=
    λ '(p, a, b), flat_text p ++ flat_option a ++ flat_option b)) as [recovery Er].
  destruct (canon_total (flat_text (str "tracedecay.source-edit-rollback-record.v1") ++ flat_text (j_effect_id j)
    ++ flat_text (j_input_digest j) ++ flat_text (r_idempotency_key (j_request j)) ++ flat_text c
    ++ flat_text recovery)) as [digest Ed].
  destruct (canon_total (flat_text (str "tracedecay.source-edit-rollback-record-key.v1")
    ++ flat_text (j_effect_id j))) as [name Ep].
  exists recovery, digest, (RollbackRecordPath (digest_hex name)).
  split; [exact (f_equal domain Er)|]. split; [exact (f_equal domain Ed)|].
  split; [change (rollback_record_path (j_effect_id j) = Ok (RollbackRecordPath (digest_hex name)));
    unfold rollback_record_path; change (key_canonical _) with (canon (flat_text
      (str "tracedecay.source-edit-rollback-record-key.v1") ++ flat_text (j_effect_id j))); by rewrite Ep|].
  split; [done|]. by left.
Qed.

Lemma demo_fit ports j : receipts_fit ports j.
Proof. intros r _. done. Qed.

Definition demo_preview (k : option SourceEditEffectControlV1) (request : SourceEditEffectRequestV1) :
    answer ResolvedSourceEditPreview :=
  (resolve_source_edit_preview (demo_ports k) (q_edit request) (restart [] demo_world)).2.

Definition demo_plan : list PlannedSourceEditFile :=
  [{| relative_path := file_a; expected := Some text_a; intended := Some moved_a |};
   {| relative_path := file_b; expected := Some text_b; intended := Some moved_b |}].

Definition demo_published : gmap rstr File :=
  <[file_a := {| content := utf8_encode moved_a; identity := 4 |}]>
  (<[file_b := {| content := utf8_encode moved_b; identity := 3 |}]> ∅).

Definition demo_pv : ResolvedSourceEditPreview := {|
  pv_outcome := demo_moved; pv_candidate_files := [file_a; file_b];
  pv_expected_state := Some (demo_state demo_tree); pv_predicted_state := Some (demo_state demo_published);
  pv_planned_files := demo_plan |}.

Lemma demo_previewed : demo_preview None (demo_request false "key-1") = Return demo_pv.
Proof. vm_compute. reflexivity. Qed.

(** The digests of the four ways to tear the plan. *)
Definition demo_contents (a b : rstr) (p : rstr) : option bytes :=
  if bool_decide (p = file_a) then Some (utf8_encode a) else Some (utf8_encode b).

Lemma demo_separates : separates [file_a; file_b] demo_plan (demo_state demo_published).
Proof.
  intros t Ht.
  assert (∃ a b, contents t file_a = Some (utf8_encode a) ∧ contents t file_b = Some (utf8_encode b)
    ∧ (a = text_a ∨ a = moved_a) ∧ (b = text_b ∨ b = moved_b)) as (a & b & Ea & Eb & Ha & Hb).
  { pose proof (Ht {| relative_path := file_a; expected := Some text_a; intended := Some moved_a |} ltac:(left)) as Ha.
    pose proof (Ht {| relative_path := file_b; expected := Some text_b; intended := Some moved_b |}
      ltac:(right; left)) as Hb.
    destruct Ha as [Ha|Ha], Hb as [Hb|Hb]; do 2 eexists; (split; [exact Ha|]); (split; [exact Hb|]); auto. }
  assert (digest_of (contents t) [file_a; file_b] = digest_of (demo_contents a b) [file_a; file_b]) as ->.
  { apply digest_of_ext. intros p [->|[->|[]%elem_of_nil]%elem_of_cons]%elem_of_cons; [by rewrite Ea|by rewrite Eb]. }
  destruct Ha as [->| ->], Hb as [->| ->]; eexists; (split; [vm_compute; reflexivity|]); intros E;
    try (vm_compute in E; discriminate E).
  intros file [->|[->|[]%elem_of_nil]%elem_of_cons]%elem_of_cons; [exact Ea|exact Eb].
Qed.

Lemma demo_recoverable : recoverable (demo_ports None) demo_operation (demo_request false "key-1") demo_world.
Proof.
  intros j post (pv & authority & input & id & rd & _ & [w Hw] & _ & _ & Hp & _ & _ & _ & _ & ->).
  assert (pv = demo_pv) as ->.
  { pose proof demo_previewed as Hd. unfold demo_preview in Hd. rewrite Hw in Hd. by injection Hd. }
  apply (inj Some (demo_state demo_published) post) in Hp as <-. split; [apply demo_slot; intros p; apply lookup_empty|].
  split; [apply demo_separates|]. split; [apply demo_fit|].
  intros file d ds [->|[->|[]%elem_of_nil]%elem_of_cons]%elem_of_cons He; discriminate He.
Qed.

(** ** Witnesses *)

(** The process dies when the destination of the move is published and its
    source is not; the recovery dies once more, and the next one completes. *)
Lemma edit_is_atomic_witness :
  let scope := c_scope (q_context (demo_request false "key-1")) in
  let crashed := (execute_source_edit (demo_ports None) demo_operation (demo_request false "key-1")
    (restart (repeat Done 26 ++ [DiesAfter]) demo_world)).1 in
  texts crashed = (Some (utf8_encode text_a), Some (utf8_encode moved_b)) ∧
  ∃ w, recover_source_edit_transaction (demo_ports None) scope
    (restart [] (recoveries (demo_ports None) scope [[Done; Done; DiesBefore]] crashed)) = (w, Return tt)
  ∧ active w = None ∧ dirs w = dirs demo_world
  ∧ ((∀ p, content <$> tree w !! p = content <$> tree demo_world !! p)
     ∨ ∃ pv, previews (demo_ports None) (demo_request false "key-1") demo_world pv
            ∧ all_post (pv_planned_files pv) (tree w)
            ∧ same_outside (pv_planned_files pv) (tree demo_world) (tree w)).
Proof.
  split; [vm_compute; reflexivity|].
  exact (edit_is_atomic (demo_ports None) demo_operation (demo_request false "key-1") demo_world
    (repeat Done 26 ++ [DiesAfter]) [[Done; Done; DiesBefore]] (lookup_empty _) demo_honest demo_recoverable).
Defined.

(** A run that is known to return, by evaluation. *)
Definition returned {A B} (f : A → B) (r : World * answer A) : option B :=
  match r.2 with Return a => Some (f a) | _ => None end.

Lemma returned_run {A B} (f : A → B) (r : World * answer A) b :
  returned f r = Some b → ∃ w a, r = (w, Return a) ∧ f a = b.
Proof. destruct r as [w [a|e|]]; intros [= E]; eauto. Qed.

Definition demo_run (dry_run : bool) (w : World) : World * answer SourceEditApplicationResult :=
  execute_source_edit (demo_ports None) demo_operation (demo_request dry_run "key-1") w.

(** The worktree after the move. *)
Definition demo_after : World := (demo_run false demo_world).1.

Lemma receipts_are_truthful_witness :
  texts demo_after = (Some (utf8_encode moved_a), Some (utf8_encode moved_b)) ∧
  ∃ w res, demo_run false demo_world = (w, Return res)
  ∧ outcome_of res = Some Completed ∧ truthful (demo_ports None) (demo_request false "key-1") demo_world res w.
Proof.
  split; [vm_compute; reflexivity|].
  destruct (returned_run outcome_of (demo_run false demo_world) (Some Completed) ltac:(vm_compute; reflexivity))
    as (w & res & E & Ho).
  exists w, res. split; [exact E|]. split; [exact Ho|].
  exact (receipts_are_truthful (demo_ports None) demo_operation (demo_request false "key-1") demo_world w res
    (lookup_empty _) demo_honest (λ j post Hj, proj1 (demo_recoverable j post Hj)) E).
Defined.

Lemma dry_run_writes_nothing_witness :
  returned outcome_of (demo_run true demo_world) = Some (Some Completed)
  ∧ tree (demo_run true demo_world).1 = tree demo_world ∧ active (demo_run true demo_world).1 = None
  ∧ dirs (demo_run true demo_world).1 = dirs demo_world.
Proof.
  split; [vm_compute; reflexivity|].
  exact (dry_run_writes_nothing (demo_ports None) demo_operation (demo_request true "key-1") demo_world
    (lookup_empty _) eq_refl).
Defined.

Definition demo_path : RecordPath := ok_or ActivePath (receipt_path (str "key-1")).

Lemma demo_stored : ∃ stored, store demo_after !! demo_path = Some (DemoResult stored).
Proof. eexists. vm_compute. reflexivity. Qed.

Lemma spent_key_replays_witness :
  ∃ stored w res, demo_run false demo_after = (w, Return res)
  ∧ tree w = tree demo_after ∧ store w = store demo_after ∧ res = into_application_result stored true.
Proof.
  destruct demo_stored as [stored Hs].
  destruct (returned_run outcome_of (demo_run false demo_after) (Some Completed) ltac:(vm_compute; reflexivity))
    as (w & res & E & _).
  destruct (spent_key_replays (demo_ports None) demo_operation (demo_request false "key-1") demo_after stored demo_path w
    (Return res) ltac:(vm_compute; reflexivity) ltac:(vm_compute; reflexivity) Hs E) as (Ht & Hst & Hr).
  destruct (Hr res eq_refl) as [Hres _].
  exists stored, w, res. split; [exact E|]. split; [exact Ht|]. split; [exact Hst|exact Hres].
Defined.

(** A crash after the journal was written; then another program writes the
    destination of the move. *)
Definition demo_foreign : World :=
  let w := (demo_run false (restart (repeat Done 20 ++ [DiesAfter]) demo_world)).1 in
  with_tree w (<[file_b := {| content := utf8_encode (str "mod c;"); identity := 9 |}]> (tree w)) 10.

Lemma demo_foreign_journal :
  ∃ j, active demo_foreign = Some (DemoJournal j) ∧ j_state j = Prepared ∧ j_recovery_files j = demo_plan.
Proof. eexists. split; [vm_compute; reflexivity|]. split; vm_compute; reflexivity. Qed.

Lemma recovery_refuses_foreign_bytes_witness :
  let r := recover_source_edit_transaction (demo_ports None) demo_scope demo_foreign in
  tree r.1 = tree demo_foreign ∧ store r.1 = store demo_foreign ∧ ∀ a, r.2 ≠ Return a.
Proof.
  destruct demo_foreign_journal as (j & Ha & Hj & Hp).
  refine (recovery_refuses_foreign_bytes (demo_ports None) demo_scope demo_foreign j
    {| relative_path := file_b; expected := Some text_b; intended := Some moved_b |} Ha Hj _ _ _).
  - rewrite Hp. right. left.
  - vm_compute. discriminate.
  - vm_compute. discriminate.
Defined.

(** ** A rollback *)
Definition demo_input : rstr := ok_or [] (request_input_digest (demo_request false "key-1")).

Definition demo_rollback : SourceEditRollbackRequestV1 := {|
  bq_context := demo_context; bq_authority := demo_authority;
  bq_effect_id := ok_or [] (effect_id (str "key-1") demo_input);
  bq_original_idempotency_key := str "key-1"; bq_idempotency_key := str "key-2";
  bq_original_input_digest := demo_input; bq_expected_state := demo_state demo_published;
  bq_proof := demo_proof; bq_observed_at := 600 |}.

Definition demo_plan_kept (e : DemoRecord) : bool :=
  match e with DemoRollback r => bool_decide (b_recovery_files r = demo_plan) | _ => true end.

Lemma plans_kept (w : World) :
  bool_decide (map_Forall (λ _ e, demo_plan_kept e = true) (store w : gmap RecordPath DemoRecord)) = true → plans_ok w.
Proof.
  intros Hall%bool_decide_eq_true_1 path encoded record Hs Hr. specialize (Hall path encoded Hs).
  destruct encoded as [j|r|r]; [discriminate Hr..|]. injection Hr as <-.
  apply bool_decide_eq_true_1 in Hall. rewrite Hall. split; [apply (bool_decide_unpack _); vm_compute; exact I|].
  intros p [->|[->|[]%elem_of_nil]%elem_of_cons]%elem_of_cons; vm_compute; reflexivity.
Qed.

Lemma demo_plans : plans_ok demo_after.
Proof. apply plans_kept. vm_compute. reflexivity. Qed.

Definition demo_undo : World * answer SourceEditApplicationResult :=
  execute_source_edit_rollback (demo_ports None) source_edit_rollback_operation demo_rollback demo_after.

Lemma rollback_restores_preimages_witness :
  texts demo_undo.1 = texts demo_world ∧ restored demo_rollback demo_after demo_undo.1.
Proof.
  split; [vm_compute; reflexivity|].
  destruct (returned_run (λ res, (x_replayed res, outcome_of res)) demo_undo (false, Some Completed)
    ltac:(vm_compute; reflexivity)) as (w & res & E & Ho).
  injection Ho as Hr Ho. rewrite E. unfold demo_undo in E.
  refine (rollback_restores_preimages (demo_ports None) source_edit_rollback_operation demo_rollback demo_after w res
    _ demo_plans E Hr _).
  - vm_compute. reflexivity.
  - unfold outcome_of in Ho. unfold outcome_is. destruct (x_effect res) as [effect|]; [|discriminate Ho].
    exists effect. split; [reflexivity|]. injection Ho as Ho. exact Ho.
Defined.

(** ** An edit that crashed after its last write *)
Definition demo_crashed : World :=
  restart [] (demo_run false (restart (repeat Done 32 ++ [DiesAfter]) demo_world)).1.

Definition demo_confirmation : SourceEditReconciliationRequestV1 := {|
  rq_context := demo_context; rq_authority := demo_authority; rq_kind := KMoveSymbol;
  rq_effect_id := ok_or [] (effect_id (str "key-1") demo_input); rq_idempotency_key := str "key-1";
  rq_attempt_idempotency_key := str "key-3"; rq_input_digest := demo_input;
  rq_disposition := ConfirmCommitted (demo_state demo_published);
  rq_proof := demo_proof; rq_observed_at := 650 |}.

Definition demo_reconciled : World * answer SourceEditApplicationResult :=
  reconcile_source_edit_effect_unknown (demo_ports None) demo_confirmation demo_crashed.

Lemma reconciliation_needs_proof_witness :
  ∃ w res, demo_reconciled = (w, Return res) ∧ outcome_of res = Some Completed ∧ tree w = tree demo_crashed
  ∧ ∃ encoded j, active demo_crashed = Some encoded ∧ journal_from_json encoded = Some j
    ∧ proven j demo_confirmation (tree demo_crashed).
Proof.
  destruct (returned_run (λ res, (x_replayed res, outcome_of res)) demo_reconciled (false, Some Completed)
    ltac:(vm_compute; reflexivity)) as (w & res & E & Ho).
  injection Ho as Hr Ho. exists w, res. split; [exact E|]. split; [exact Ho|]. unfold demo_reconciled in E.
  destruct (reconciliation_needs_proof (demo_ports None) demo_confirmation demo_crashed) as [Ht Hp].
  rewrite E in Ht. split; [exact Ht|]. destruct (Hp w res E Hr) as (effect & Ee & He).
  unfold outcome_of in Ho. rewrite Ee in Ho. injection Ho as Ho. rewrite Ho in He.
  destruct He as (_ & encoded & j & Ha & Hd & _ & Hv). exists encoded, j. split; [exact Ha|]. split; [exact Hd|exact Hv].
Defined.

(** ** A move into a new file of an empty directory *)
Definition file_c : rstr := str "new/c.rs".
Definition moved_c : rstr := str "fn f() {}".

Definition fresh_primitives : Primitives := {|
  one_target := λ _, Err (config_error "not a single file edit");
  one_rewrite := λ _ _ _, Err (config_error "not a single file edit");
  move_targets := λ _, Ok (inr (file_a, file_c));
  move_check := λ _ _, Ok None;
  move_rewrite := λ _ source dest,
    if bool_decide (source = text_a ∧ dest = None) then Ok (MoveTo moved_a moved_c (OMove {|
      v_success := true; v_source_file := file_a; v_dest_file := file_c;
      v_applied_imports := []; v_impact := []; v_message := str "moved" |}))
    else Ok (RefuseMove demo_refused);
  rename_targets := λ _, Ok [];
  rename_modify := λ _ _ _, Ok None;
  rename_decide := λ _ _, Ok (RefuseRename demo_refused);
|}.

Definition fresh_ports : Ports := {|
  opens := λ _, true;
  preview_primitives := fresh_primitives;
  apply_primitives := fresh_primitives;
  port_admit := port_admit (demo_ports None);
  recheck_effect := recheck_effect (demo_ports None);
  now_micros := λ n, 1000 + Z.of_nat n;
  control := None;
  run_diagnostics := λ _, Ok [];
|}.

Definition fresh_request : SourceEditEffectRequestV1 := {|
  q_context := demo_context; q_authority := demo_authority;
  q_edit := MoveSymbol (str "f") file_c false false;
  q_idempotency_key := str "key-4";
  q_expected_state := ok_or [] (digest_of (contents demo_tree) [file_c; file_a]);
  q_proof := demo_proof; q_observed_at := 500 |}.

(** The write of the source is refused: the destination is rolled back and its
    directory, which was there before, is removed. *)
Definition fresh_failed : World :=
  restart [] (execute_source_edit fresh_ports demo_operation fresh_request
    (restart (repeat Done 32 ++ [RefusedCall]) (with_dirs demo_world {[str "src"; str "new"]}))).1.

Lemma fresh_failed_journal :
  ∃ j, active fresh_failed = Some (DemoJournal j) ∧ j_state j = Prepared ∧ j_recovery_files j ≠ []
  ∧ j_candidate_files j = [file_c; file_a].
Proof.
  eexists. split; [vm_compute; reflexivity|]. split; [vm_compute; reflexivity|].
  split; [vm_compute; discriminate|vm_compute; reflexivity].
Qed.

Lemma missing_directory_blocks_recovery_witness :
  texts fresh_failed = texts demo_world ∧ (str "new" ∉ dirs fresh_failed) ∧
  reads_only fresh_failed (recover_source_edit_transaction fresh_ports demo_scope fresh_failed).1 ∧
  ∀ a, (recover_source_edit_transaction fresh_ports demo_scope fresh_failed).2 ≠ Return a.
Proof.
  assert (str "new" ∉ dirs fresh_failed) as Hgone by (apply (bool_decide_unpack _); vm_compute; exact I).
  split; [vm_compute; reflexivity|]. split; [exact Hgone|].
  destruct fresh_failed_journal as (j & Ha & Hj & Hr & Hc).
  refine (missing_directory_blocks_recovery fresh_ports demo_scope fresh_failed j file_c file_c (str "new")
    Ha Hj Hr _ eq_refl _ Hgone).
  - rewrite Hc. left.
  - left.
Defined.

(** A retry of the crashed edit whose control was cancelled: the answer is a
    reconciled receipt that says [Cancelled], although the files hold the edit
    and its journal is pending. *)
Definition demo_cancelled : SourceEditEffectControlV1 :=
  {| k_deadline := 8000; k_cancelled_at := λ _, Some 700; k_observed_at := λ _, 700 |}.

Definition demo_retry : World * answer SourceEditApplicationResult :=
  execute_source_edit (demo_ports (Some demo_cancelled)) demo_operation (demo_request false "key-1") demo_crashed.

Example cancelled_retry_hides_the_edit :
  returned (λ res, (x_replayed res, outcome_of res, ef_reconciliation <$> x_effect res)) demo_retry
    = Some (false, Some Cancelled, Some Reconciled)
  ∧ texts demo_retry.1 = (Some (utf8_encode moved_a), Some (utf8_encode moved_b))
  ∧ is_Some (active demo_retry.1).
Proof. split; [vm_compute; reflexivity|]. split; [vm_compute; reflexivity|]. vm_compute. eexists. reflexivity. Qed.
