(* ===== verification/GraphScc.v ===== *)
(** * Strongly connected components of a dependency graph

    [tracedecay-graph-query/src/scc.rs]: the iterative algorithm of Tarjan over
    interned ordinals, its cancellable entry point and the test that a component
    is a genuine cycle.

    A [HashMap] of [HashSet]s is the list of its entries in iteration order, so
    every theorem is about every order.  Vectors used as stacks are lists with
    the top first.  An operation that may panic returns an option, and [None] is
    the panic of an index out of range, or a loop stopped by its fuel; the
    theorems show that there is neither.  The checkpoint closure is the function
    from the number of a call to its answer. *)
From stdpp Require Import base numbers relations gmap list sorting.
From S2P Require Import Prelude.
#[local] Open Scope Z_scope.
#[local] Open Scope rust_scope.

Definition UNVISITED : Z := 2 ^ 64 - 1.

(** [vec[i] = value], which panics out of range. *)
Definition vec_set {A} (l : list A) (i : nat) (value : A) : option (list A) :=
  if decide (i < length l)%nat then Some (<[i := value]> l) else None.

Inductive SccCancelled : Type := SccCancelledError.

(** ** Traversal state *)
Record TarjanState : Type := {
  index : list Z;
  lowlink : list Z;
  on_stack : list bool;
  stack : list nat;
  work : list (nat * nat);
  next_index : Z;
}.

Definition tarjan_state_new (node_count : nat) : TarjanState := {|
  index := replicate node_count UNVISITED; lowlink := replicate node_count 0;
  on_stack := replicate node_count false; stack := []; work := []; next_index := 0;
|}.

Definition discover (node : nat) (self : TarjanState) : option TarjanState :=
  index' ← vec_set (index self) node (next_index self);
  lowlink' ← vec_set (lowlink self) node (next_index self);
  on_stack' ← vec_set (on_stack self) node true;
  Some {| index := index'; lowlink := lowlink'; on_stack := on_stack';
          stack := node :: stack self; work := (node, O) :: work self;
          next_index := next_index self + 1 |}.

Definition with_work (self : TarjanState) (frames : list (nat * nat)) : TarjanState := {|
  index := index self; lowlink := lowlink self; on_stack := on_stack self; stack := stack self;
  work := frames; next_index := next_index self;
|}.

Definition with_lowlink (self : TarjanState) (low : list Z) : TarjanState := {|
  index := index self; lowlink := low; on_stack := on_stack self; stack := stack self;
  work := work self; next_index := next_index self;
|}.

Section tarjan.
Context {N : Type} `{EqDecision N, !Countable N} {E : Type}.

Definition Adjacency : Type := list (N * list N).

(** ** Interning *)
Record Interner : Type := { nodes : list N; ordinal_of : gmap N nat }.

Definition intern (node : N) (t : Interner) : nat * Interner :=
  match ordinal_of t !! node with
  | Some ordinal => (ordinal, t)
  | None =>
    (length (nodes t),
     {| nodes := nodes t ++ [node]; ordinal_of := <[node := length (nodes t)]> (ordinal_of t) |})
  end.

Fixpoint intern_all (targets : list N) (t : Interner) : list nat * Interner :=
  match targets with
  | [] => ([], t)
  | target :: targets =>
    let first := intern target t in
    let rest := intern_all targets (snd first) in
    (fst first :: fst rest, snd rest)
  end.

Fixpoint intern_edges (adj : Adjacency) (t : Interner) (edges : list (list nat)) :
    option (Interner * list (list nat)) :=
  match adj with
  | [] => Some (t, resize (length (nodes t)) [] edges)
  | (source, targets) :: adj =>
    let s := intern source t in
    let ts := intern_all targets (snd s) in
    let edges := if (length edges <=? fst s)%nat then resize (S (fst s)) [] edges else edges in
    edges ← vec_set edges (fst s) (fst ts);
    intern_edges adj (snd ts) edges
  end.

(** ** The traversal *)
Section traversal.
Context (names : list N) (edges : list (list nat)) (checkpoint : nat → result unit E).

(** Pops the stack down to [node] into a component. *)
Fixpoint pop_component (node : nat) (stack : list nat) (on_stack : list bool) (component : list N) :
    option (list nat * list bool * list N) :=
  match stack with
  | [] => Some ([], on_stack, component)
  | top :: stack =>
    on_stack ← vec_set on_stack top false;
    name ← names !! top;
    if decide (top = node) then Some (stack, on_stack, component ++ [name])
    else pop_component node stack on_stack (component ++ [name])
  end.

(** The frame of [node] has no edge left: emit its component if it is a root,
    and pass its lowlink to the parent. *)
Definition finish (node : nat) (self : TarjanState) (sccs : list (list N)) :
    option (TarjanState * list (list N)) :=
  let frames := tail (work self) in
  low ← lowlink self !! node;
  ix ← index self !! node;
  popped ← (if low =? ix then
              p ← pop_component node (stack self) (on_stack self) [];
              Some (fst p, sccs ++ [snd p])
            else Some (stack self, on_stack self, sccs));
  lowlink' ← match frames with
             | (parent, _) :: _ =>
               l ← lowlink self !! parent;
               vec_set (lowlink self) parent (Z.min l low)
             | [] => Some (lowlink self)
             end;
  Some ({| index := index self; lowlink := lowlink'; on_stack := snd (fst popped);
           stack := fst (fst popped); work := frames; next_index := next_index self |}, snd popped).

(** The [while] loop of one root; [calls] is the number of checkpoints so far. *)
Fixpoint traverse (fuel calls : nat) (self : TarjanState) (sccs : list (list N)) :
    option (result (nat * TarjanState * list (list N)) E) :=
  match fuel with
  | O => None
  | S fuel =>
    match work self with
    | [] => Some (Ok (calls, self, sccs))
    | (node, position) :: frames =>
      targets ← edges !! node;
      match targets !! position with
      | None =>
        finished ← finish node self sccs;
        traverse fuel calls (fst finished) (snd finished)
      | Some next =>
        let self := with_work self ((node, S position) :: frames) in
        ix ← index self !! next;
        if ix =? UNVISITED then
          match checkpoint calls with
          | Err error => Some (Err error)
          | Ok _ =>
            self ← discover next self;
            traverse fuel (S calls) self sccs
          end
        else
          on ← on_stack self !! next;
          if (on : bool) then
            low ← lowlink self !! node;
            lowlink' ← vec_set (lowlink self) node (Z.min low ix);
            traverse fuel calls (with_lowlink self lowlink') sccs
          else traverse fuel calls self sccs
      end
    end
  end.

(** Enough turns for one root: every turn passes an edge or closes a frame. *)
Definition traverse_fuel : nat := S (length edges + sum_list_with length edges).

Fixpoint visit_roots (roots : list nat) (calls : nat) (self : TarjanState) (sccs : list (list N)) :
    option (result (list (list N)) E) :=
  match roots with
  | [] => Some (Ok sccs)
  | root :: roots =>
    ix ← index self !! root;
    if negb (ix =? UNVISITED) then visit_roots roots calls self sccs
    else
      match checkpoint calls with
      | Err error => Some (Err error)
      | Ok _ =>
        self ← discover root self;
        run ← traverse traverse_fuel (S calls) self sccs;
        match run with
        | Err error => Some (Err error)
        | Ok (calls, self, sccs) => visit_roots roots calls self sccs
        end
      end
  end.
End traversal.

Definition tarjan_scc_checked (adj : Adjacency) (checkpoint : nat → result unit E) :
    option (result (list (list N)) E) :=
  interned ← intern_edges adj {| nodes := []; ordinal_of := ∅ |} [];
  let names := nodes (fst interned) in
  visit_roots names (snd interned) checkpoint (seq 0 (length names)) O
    (tarjan_state_new (length names)) [].
End tarjan.

Section entry_points.
Context {N : Type} `{EqDecision N, !Countable N}.

(** The infallible entry point: its checkpoint cannot fail. *)
Definition tarjan_scc (adj : list (N * list N)) : option (list (list N)) :=
  match tarjan_scc_checked (E := Empty_set) adj (λ _, Ok tt) with
  | Some (Ok components) => Some components
  | Some (Err never) => match never with end
  | None => None
  end.

(** [cancelled k] is the answer of the cancellation authority to its query [k]. *)
Definition tarjan_scc_cancellable (adj : list (N * list N)) (cancelled : nat → bool) :
    option (result (list (list N)) SccCancelled) :=
  tarjan_scc_checked adj (λ k, if cancelled k then Err SccCancelledError else Ok tt).

(** [HashMap::get]. *)
Definition adj_get (node : N) (adj : list (N * list N)) : option (list N) :=
  snd <$> List.find (λ entry, bool_decide (fst entry = node)) adj.

Definition is_cyclic_scc (scc : list N) (adj : list (N * list N)) : bool :=
  if (2 <=? length scc)%nat then true
  else
    match head scc with
    | Some only =>
      match adj_get only adj with
      | Some neighbors => bool_decide (only ∈ neighbors)
      | None => false
      end
    | None => false
    end.
End entry_points.

(** ** Generic facts *)
Lemma vec_set_some {A} (l : list A) i v :
  (i < length l)%nat → vec_set l i v = Some (<[i := v]> l).
Proof. intros Hi. unfold vec_set. by rewrite decide_True. Qed.

Lemma NoDup_split_inj {A} (a b c d : list A) x :
  NoDup (a ++ x :: b) → a ++ x :: b = c ++ x :: d → a = c ∧ b = d.
Proof.
  revert c. induction a as [|y a IH]; intros [|z c] Hnd Heq; simplify_eq/=.
  - done.
  - apply NoDup_cons in Hnd as [Hx _]. set_solver.
  - apply NoDup_cons in Hnd as [Hx _]. set_solver.
  - apply NoDup_cons in Hnd as [_ Hnd]. destruct (IH c Hnd) as [-> ->]; done.
Qed.

Lemma StronglySorted_sublist {A} (R : relation A) l k :
  l `sublist_of` k → StronglySorted R k → StronglySorted R l.
Proof.
  induction 1 as [|x l k Hs IH|x l k Hs IH]; intros Hk; [constructor| |];
    apply StronglySorted_inv in Hk as [Hk Hx]; [|by apply IH].
  constructor; [by apply IH|]. rewrite Forall_forall in Hx |- *. intros y Hy.
  apply Hx. by eapply elem_of_sublist.
Qed.

Lemma elem_of_concat {A} (x : A) ls : x ∈ concat ls ↔ ∃ l, x ∈ l ∧ l ∈ ls.
Proof.
  induction ls as [|l ls IH]; simpl; [set_solver|]. rewrite elem_of_app, IH. setoid_rewrite elem_of_cons.
  naive_solver.
Qed.

Lemma list_tabulated {A} (l : list A) (d : A) : (λ i, default d (l !! i)) <$> seq 0 (length l) = l.
Proof.
  apply list_eq. intros i. rewrite list_lookup_fmap. destruct (decide (i < length l)%nat) as [Hi|Hi].
  - rewrite lookup_seq_lt by done. simpl. by destruct (lookup_lt_is_Some_2 l i Hi) as [x ->].
  - rewrite (lookup_seq_ge 0) by lia. rewrite lookup_ge_None_2 by lia. done.
Qed.

Lemma NoDup_below (l : list nat) m :
  NoDup l → (∀ u, u ∈ l → (u < m)%nat) → (length l <= m)%nat.
Proof.
  intros Hnd Hb. rewrite <- (length_seq m 0). apply submseteq_length, NoDup_submseteq; [done|].
  intros u Hu. apply elem_of_seq. pose proof (Hb u Hu). lia.
Qed.

(** ** The invariant of the traversal, on ordinals *)
Section invariant.
Context (edges : list (list nat)).

Definition targets_of (u : nat) : list nat := default [] (edges !! u).
Definition arc (u x : nat) : Prop := x ∈ targets_of u.

(** Edge [u → x] is behind the position of the frame of [u], if it has one. *)
Definition passed (frames : list (nat * nat)) (u x : nat) : Prop :=
  ∃ j, targets_of u !! j = Some x ∧ ∀ p, (u, p) ∈ frames → (j < p)%nat.

(** Every component is strongly connected and its edges lead into itself or
    into an earlier component. *)
Definition ordered_sccs (out : list (list nat)) : Prop :=
  ∀ a c b, out = a ++ c :: b →
    c ≠ [] ∧
    ∀ u, u ∈ c → (∀ x, arc u x → x ∈ c ∨ x ∈ concat a) ∧ (∀ x, x ∈ c → rtc arc u x).

(** [ix] and [low] are the index and the lowlink of an ordinal, [out] the
    emitted components; the edges in [P] are passed but not yet taken into
    account. *)
Record inv (P : nat → nat → Prop) (ix low : nat → Z) (stk : list nat) (frames : list (nat * nat))
    (nxt : Z) (out : list (list nat)) : Prop := {
  i_nodup : NoDup (stk ++ concat out);
  i_range : ∀ u, u ∈ stk ++ concat out → (u < length edges)%nat ∧ 0 <= ix u < nxt;
  i_unseen : ∀ u, (u < length edges)%nat → u ∉ stk ++ concat out → ix u = UNVISITED;
  i_next : nxt = zlen (stk ++ concat out);
  i_sorted : StronglySorted (λ a b, ix b < ix a) stk;
  i_frames : frames.*1 `sublist_of` stk;
  i_positions : ∀ v p, (v, p) ∈ frames → (p <= length (targets_of v))%nat;
  i_reach : ∀ v u, v ∈ frames.*1 → u ∈ stk → ix v <= ix u → rtc arc v u;
  i_low : ∀ u, u ∈ stk → low u <= ix u ∧ ∃ w, w ∈ stk ∧ ix w = low u ∧ rtc arc u w;
  i_closed_low : ∀ u, u ∈ stk → u ∉ frames.*1 → low u < ix u;
  i_segment : ∀ u, u ∈ stk → ∃ v, v ∈ frames.*1 ∧ ix v <= ix u ∧ low v <= low u ∧
    ∀ f, f ∈ frames.*1 → ix f <= ix u → ix f <= ix v;
  i_edges : ∀ u x, u ∈ stk → passed frames u x → ¬ P u x →
    (x ∈ stk ∧ low u <= ix x) ∨ x ∈ concat out;
  i_out : ordered_sccs out;
}.

Definition none (_ _ : nat) : Prop := False.

Lemma ordered_sccs_snoc out c :
  ordered_sccs out → c ≠ [] →
  (∀ u, u ∈ c → (∀ x, arc u x → x ∈ c ∨ x ∈ concat out) ∧ (∀ x, x ∈ c → rtc arc u x)) →
  ordered_sccs (out ++ [c]).
Proof.
  intros Ho Hne Hc a d b Heq. destruct b as [|y b] using rev_ind.
  - apply app_inj_tail in Heq as [-> ->]. done.
  - rewrite app_comm_cons, app_assoc in Heq. apply app_inj_tail in Heq as [-> ->]. by apply (Ho a d b).
Qed.

Lemma arc_passed u x frames :
  arc u x → (∀ p, (u, p) ∈ frames → (length (targets_of u) <= p)%nat) → passed frames u x.
Proof.
  intros [j Hj]%list_elem_of_lookup Hp. exists j. split; [done|]. intros p Hin.
  apply lookup_lt_Some in Hj. pose proof (Hp p Hin). lia.
Qed.

Section facts.
Context (P : nat → nat → Prop) (ix low : nat → Z) (stk : list nat) (frames : list (nat * nat)) (nxt : Z)
  (out : list (list nat)) (Hinv : inv P ix low stk frames nxt out).

Lemma inv_nodup_stack : NoDup stk.
Proof. destruct Hinv. by apply NoDup_app in i_nodup0 as [? _]. Qed.

Lemma inv_stack_inj u w : u ∈ stk → w ∈ stk → ix u = ix w → u = w.
Proof.
  intros Hu Hw Heq. pose proof (i_sorted _ _ _ _ _ _ _ Hinv) as Hs. clear Hinv. revert Hu Hw.
  induction Hs as [|a l Hs IH Ha]; [by intros ?%elem_of_nil|]. rewrite Forall_forall in Ha.
  intros [->|Hu]%elem_of_cons [->|Hw]%elem_of_cons; auto.
  - pose proof (Ha w Hw). lia.
  - pose proof (Ha u Hu). lia.
Qed.

Lemma inv_frame_stack v : v ∈ frames.*1 → v ∈ stk.
Proof. intros Hv. eapply elem_of_sublist; [done|apply Hinv]. Qed.

Lemma inv_frames_nodup : NoDup frames.*1.
Proof. eapply sublist_NoDup; [apply inv_nodup_stack|apply Hinv]. Qed.

Lemma inv_frames_sorted : StronglySorted (λ a b, ix b < ix a) frames.*1.
Proof. eapply StronglySorted_sublist; apply Hinv. Qed.
End facts.

(** The initial state. *)
Lemma inv_initial ix low :
  (∀ u, (u < length edges)%nat → ix u = UNVISITED) → inv none ix low [] [] 0 [].
Proof.
  intros Hix. constructor; simpl; try (by intros ? ?%elem_of_nil); try done.
  - constructor.
  - by intros u Hu _; apply Hix.
  - constructor.
  - by intros ?? ?%elem_of_nil.
  - by intros ?? ?%elem_of_nil.
  - by intros ?? ?%elem_of_nil.
  - intros a c b Heq. by destruct a.
Qed.
(** The position of the top frame moves past an edge. *)
Lemma inv_advance ix low stk v p x frames nxt out :
  inv none ix low stk ((v, p) :: frames) nxt out → targets_of v !! p = Some x →
  inv (λ u y, u = v ∧ y = x) ix low stk ((v, S p) :: frames) nxt out.
Proof.
  intros Hinv Hx. destruct Hinv. constructor; try done.
  - intros w q [[= -> ->]|Hin]%elem_of_cons.
    + by apply lookup_lt_Some in Hx.
    + by apply (i_positions0 w q), elem_of_cons; right.
  - intros u y Hu (j & Hj & Hp) HP. apply (i_edges0 u y Hu); [|by intros []]. exists j.
    split; [done|]. intros q [[= -> ->]|Hin]%elem_of_cons.
    + assert (j < S p)%nat by (apply Hp; left). destruct (decide (j = p)) as [->|]; [|lia].
      exfalso. apply HP. by simplify_eq.
    + apply Hp. by right.
Qed.

(** The passed edge leads to an emitted node. *)
Lemma inv_skip v x ix low stk frames nxt out :
  inv (λ u y, u = v ∧ y = x) ix low stk frames nxt out → x ∈ concat out →
  inv none ix low stk frames nxt out.
Proof.
  intros Hinv Hx. destruct Hinv. constructor; try done.
  intros u y Hu Hp _. destruct (decide (u = v ∧ y = x)) as [[-> ->]|Hne]; [by right|].
  by apply i_edges0.
Qed.

(** The passed edge leads to a node of the stack. *)
Lemma inv_back v p x ix low low' stk frames nxt out :
  inv (λ u y, u = v ∧ y = x) ix low stk ((v, p) :: frames) nxt out → x ∈ stk → arc v x →
  (∀ u, low' u = if decide (u = v) then Z.min (low v) (ix x) else low u) →
  inv none ix low' stk ((v, p) :: frames) nxt out.
Proof.
  intros Hinv Hx Harc Hlow.
  assert (Hle : ∀ u, low' u <= low u) by (intros u; rewrite Hlow; case_decide; subst; lia).
  pose proof (inv_frames_sorted _ _ _ _ _ _ _ Hinv) as Hs. destruct Hinv. constructor; try done.
  - intros u Hu. destruct (i_low0 u Hu) as (Hl & w & Hw & Hwl & Hr). specialize (Hle u). split; [lia|].
    rewrite Hlow. case_decide as Hv; [subst u|by exists w].
    destruct (Z.min_spec (low v) (ix x)) as [[_ ->]|[_ ->]]; [by exists w|].
    exists x. split; [done|]. split; [done|]. by apply rtc_once.
  - intros u Hu Hnf. rewrite Hlow. rewrite decide_False; [by apply i_closed_low0|].
    intros ->. apply Hnf. left.
  - intros u Hu. destruct (decide (u = v)) as [->|Hne].
    + exists v. split; [left|]. split; [lia|]. split; [lia|done].
    + destruct (i_segment0 u Hu) as (f & Hf & H1 & H2 & H3). exists f. split; [done|]. split; [done|].
      split; [|done]. rewrite (Hlow u), decide_False by done. specialize (Hle f). lia.
  - intros u y Hu Hp _. destruct (decide (u = v ∧ y = x)) as [[-> ->]|Hne].
    + left. split; [done|]. rewrite Hlow, decide_True by done. lia.
    + destruct (i_edges0 u y Hu Hp Hne) as [[? ?]|?]; [left|by right]. split; [done|].
      specialize (Hle u). lia.
Qed.

(** A node that was not seen is pushed. *)
Lemma inv_discover P c ix ix' low low' stk frames nxt out :
  Z.of_nat (length edges) <= UNVISITED →
  inv P ix low stk frames nxt out → (c < length edges)%nat → ix c = UNVISITED →
  (∀ u y, P u y → y = c) → (∀ f, f ∈ frames.*1 → rtc arc f c) →
  (∀ u, ix' u = if decide (u = c) then nxt else ix u) →
  (∀ u, low' u = if decide (u = c) then nxt else low u) →
  inv none ix' low' (c :: stk) ((c, O) :: frames) (nxt + 1) out.
Proof.
  intros Hfit Hinv Hc Hun HP Hreach Hix Hlow.
  assert (Hnew : c ∉ stk ++ concat out).
  { intros Hin. destruct (i_range _ _ _ _ _ _ _ Hinv c Hin) as [_ Hb].
    pose proof (NoDup_below _ (length edges) (i_nodup _ _ _ _ _ _ _ Hinv)
      (λ u Hu, proj1 (i_range _ _ _ _ _ _ _ Hinv u Hu))).
    pose proof (i_next _ _ _ _ _ _ _ Hinv). unfold zlen in *. lia. }
  assert (Hne : ∀ u, u ∈ stk ++ concat out → u ≠ c) by (by intros u Hu ->).
  assert (Hne' : ∀ u, u ∈ stk → u ≠ c) by (intros u Hu; apply Hne, elem_of_app; by left).
  assert (Hixn : ix' c = nxt) by (by rewrite Hix, decide_True).
  assert (Hixo : ∀ u, u ≠ c → ix' u = ix u) by (by intros u Hu; rewrite Hix, decide_False).
  assert (Hlo : ∀ u, u ≠ c → low' u = low u) by (by intros u Hu; rewrite Hlow, decide_False).
  assert (Hlon : low' c = nxt) by (by rewrite Hlow, decide_True).
  assert (Hbelow : ∀ u, u ∈ stk → ix u < nxt).
  { intros u Hu. apply (i_range _ _ _ _ _ _ _ Hinv u). apply elem_of_app. by left. }
  assert (Hfr : ∀ f, f ∈ frames.*1 → f ≠ c).
  { intros f Hf. apply Hne'. by eapply inv_frame_stack. }
  destruct Hinv. constructor; simpl.
  - by apply NoDup_cons.
  - intros u [->|Hu]%elem_of_cons; [rewrite Hixn; unfold zlen in *; lia|].
    rewrite Hixo by auto. destruct (i_range0 u Hu). lia.
  - intros u Hu Hn. apply not_elem_of_cons in Hn as [Hn1 Hn2]. rewrite Hixo by done. auto.
  - rewrite zlen_cons. lia.
  - constructor.
    + clear -i_sorted0 Hixo Hne'. induction i_sorted0 as [|a l Hs IH Ha]; constructor.
      * apply IH. intros u Hu. apply Hne'. by right.
      * rewrite Forall_forall in Ha |- *. intros b Hb. rewrite !Hixo by (apply Hne'; set_solver). auto.
    + rewrite Forall_forall. intros u Hu. rewrite Hixn, Hixo by auto. auto.
  - by constructor.
  - intros v p [[= -> ->]|Hin]%elem_of_cons; [lia|eauto].
  - intros v u [->|Hv]%elem_of_cons [->|Hu]%elem_of_cons Hle.
    + done.
    + rewrite Hixn, Hixo in Hle by auto. specialize (Hbelow u Hu). lia.
    + auto.
    + rewrite !Hixo in Hle by auto. auto.
  - intros u [->|Hu]%elem_of_cons.
    + rewrite Hixn, Hlon. split; [done|]. exists c. split; [left|]. by split.
    + rewrite Hixo, Hlo by auto. destruct (i_low0 u Hu) as (Hl & w & Hw & Hwl & Hr). split; [done|].
      exists w. rewrite Hixo by auto. split; [by right|done].
  - intros u [->|Hu]%elem_of_cons Hnf; apply not_elem_of_cons in Hnf as [Hnf1 Hnf2]; [done|].
    rewrite Hixo, Hlo by auto. auto.
  - intros u [->|Hu]%elem_of_cons.
    + exists c. split; [left|]. split; [done|]. split; [done|]. done.
    + destruct (i_segment0 u Hu) as (f & Hf & H1 & H2 & H3). exists f. rewrite (Hixo f), (Hlo f), (Hixo u), (Hlo u) by auto.
      split; [by right|]. split; [done|]. split; [done|].
      intros g [->|Hg]%elem_of_cons Hle; [rewrite Hixn in Hle; specialize (Hbelow u Hu); lia|].
      rewrite Hixo in Hle |- * by auto. auto.
  - intros u x [->|Hu]%elem_of_cons (j & Hj & Hp) _.
    + exfalso. assert (j < 0)%nat by (apply Hp; left). lia.
    + assert (Hpass : passed frames u x) by (exists j; split; [done|]; intros p Hin; apply Hp; by right).
      rewrite Hlo by auto. destruct (decide (x = c)) as [->|Hxc].
      { left. split; [left|]. rewrite Hixn. specialize (Hbelow u Hu). destruct (i_low0 u Hu). lia. }
      destruct (i_edges0 u x Hu Hpass) as [[Hx Hl]|Hx]; [by intros ?%HP|left|by right].
      split; [by right|]. by rewrite Hixo.
  - done.
Qed.

(** *** The top frame has passed all its edges *)
Section finished.
Context (v p : nat) (ix low : nat → Z) (stk : list nat) (frames : list (nat * nat)) (nxt : Z)
  (out : list (list nat)) (Hinv : inv none ix low stk ((v, p) :: frames) nxt out)
  (Hp : (length (targets_of v) <= p)%nat).

Lemma top_in_stack : v ∈ stk.
Proof. eapply inv_frame_stack; [done|]. left. Qed.

Lemma top_frame_above f : f ∈ frames.*1 → ix f < ix v.
Proof.
  intros Hf. pose proof (inv_frames_sorted _ _ _ _ _ _ _ Hinv) as Hs.
  apply StronglySorted_inv in Hs as [_ Hs]. rewrite Forall_forall in Hs. auto.
Qed.

Lemma top_not_below : v ∉ frames.*1.
Proof. intros Hin%top_frame_above. lia. Qed.

(** The nodes above the frame belong to its segment. *)
Lemma above_segment u : u ∈ stk → ix v <= ix u → low v <= low u.
Proof.
  intros Hu Hle. destruct (i_segment _ _ _ _ _ _ _ Hinv u Hu) as (f & Hf & H1 & H2 & H3).
  assert (Hvf : ix v <= ix f) by (apply H3; [left|done]).
  apply elem_of_cons in Hf as [->|Hf]; [done|]. pose proof (top_frame_above f Hf). lia.
Qed.

Lemma above_closed u : u ∈ stk → ix v <= ix u → u ≠ v → low u < ix u.
Proof.
  intros Hu Hle Hne. apply (i_closed_low _ _ _ _ _ _ _ Hinv); [done|].
  intros [->|Hf]%elem_of_cons; [done|]. pose proof (top_frame_above u Hf). lia.
Qed.

Lemma above_reaches u : low v = ix v → u ∈ stk → ix v <= ix u → rtc arc u v.
Proof.
  intros Hroot. remember (Z.to_nat (ix u - ix v)) as k eqn:Hk.
  revert u Hk. induction k as [k IH] using lt_wf_ind. intros u Hk Hu Hle.
  destruct (decide (u = v)) as [->|Hne]; [done|].
  pose proof (above_closed u Hu Hle Hne). pose proof (above_segment u Hu Hle).
  destruct (i_low _ _ _ _ _ _ _ Hinv u Hu) as (_ & w & Hw & Hwl & Hr). transitivity w; [done|].
  apply (IH (Z.to_nat (ix w - ix v))); [lia|done|done|lia].
Qed.

Lemma above_passed u x : u ∈ stk → ix v <= ix u → arc u x → passed ((v, p) :: frames) u x.
Proof.
  intros Hu Hle Harc. apply arc_passed; [done|]. intros q [[= -> ->]|Hin]%elem_of_cons; [done|].
  apply (list_elem_of_fmap_2 fst) in Hin. pose proof (top_frame_above u Hin). lia.
Qed.

(** What the stack splits into when the component of the frame is popped. *)
Lemma split_above pre post u :
  stk = pre ++ v :: post → (u ∈ pre ++ [v] ↔ u ∈ stk ∧ ix v <= ix u) ∧ (u ∈ post ↔ u ∈ stk ∧ ix u < ix v).
Proof.
  intros Heq. pose proof (i_sorted _ _ _ _ _ _ _ Hinv) as Hs. rewrite Heq in Hs |- *. clear -Hs.
  assert (Hpre : ∀ w, w ∈ pre → ix v < ix w).
  { intros w Hw. induction pre as [|a pre IH]; [by apply elem_of_nil in Hw|].
    apply StronglySorted_inv in Hs as [Hs Ha]. rewrite Forall_forall in Ha.
    apply elem_of_cons in Hw as [->|Hw]; [apply Ha; set_solver|auto]. }
  assert (Hpost : ∀ w, w ∈ post → ix w < ix v).
  { clear Hpre. induction pre as [|a pre IH]; apply StronglySorted_inv in Hs as [Hs Ha]; [|auto].
    by rewrite Forall_forall in Ha. }
  rewrite !elem_of_app, list_elem_of_singleton, elem_of_cons. split; split.
  - intros [Hu| ->]; [specialize (Hpre u Hu)|]; split; auto; lia.
  - intros [[Hu|[->|Hu]] Hle]; auto. specialize (Hpost u Hu). lia.
  - intros Hu. specialize (Hpost u Hu). auto.
  - intros [[Hu|[->|Hu]] Hlt]; auto; [specialize (Hpre u Hu)|]; lia.
Qed.

(** The component of a root: strongly connected, with all its edges inside or
    into what was emitted before. *)
Lemma root_component pre post :
  low v = ix v → stk = pre ++ v :: post → ordered_sccs (out ++ [pre ++ [v]]).
Proof.
  intros Hroot Heq. apply ordered_sccs_snoc; [apply Hinv|by destruct pre|]. intros u Hu.
  apply (split_above pre post u Heq) in Hu as [Hu Hle]. split.
  - intros x Harc. pose proof (above_segment u Hu Hle).
    destruct (i_edges _ _ _ _ _ _ _ Hinv u x Hu) as [[Hx Hl]|Hx]; [by apply above_passed|by intros []|left|by right].
    apply (split_above pre post x Heq). split; [done|lia].
  - intros x Hx. apply (split_above pre post x Heq) in Hx as [Hx Hlx].
    transitivity v; [by apply above_reaches|]. apply (i_reach _ _ _ _ _ _ _ Hinv); [left|done|done].
Qed.

Lemma inv_emit low' pre post :
  low v = ix v → stk = pre ++ v :: post → (∀ u, u ∈ stk → low' u = low u) →
  inv none ix low' post frames nxt (out ++ [pre ++ [v]]).
Proof.
  intros Hroot Heq Hlow. pose proof (root_component pre post Hroot Heq) as Hout.
  pose proof (λ u, split_above pre post u Heq) as Hsplit.
  assert (Hperm : post ++ concat (out ++ [pre ++ [v]]) ≡ₚ stk ++ concat out).
  { rewrite concat_app, Heq. simpl. rewrite app_nil_r. solve_Permutation. }
  assert (Hin : ∀ u, u ∈ post ++ concat (out ++ [pre ++ [v]]) ↔ u ∈ stk ++ concat out) by (intros u; by rewrite Hperm).
  assert (Hpost : ∀ u, u ∈ post → u ∈ stk ∧ ix u < ix v) by (intros u; apply Hsplit).
  assert (Hfr : frames.*1 `sublist_of` post).
  { pose proof (i_frames _ _ _ _ _ _ _ Hinv) as Hf. simpl in Hf.
    apply sublist_cons_l in Hf as (k1 & k2 & Hk & Hf). pose proof (inv_nodup_stack _ _ _ _ _ _ _ Hinv) as Hnd.
    rewrite Heq in Hk, Hnd. destruct (NoDup_split_inj _ _ _ _ _ Hnd Hk) as [_ ->]. done. }
  destruct Hinv. constructor.
  - by rewrite Hperm.
  - intros u Hu%Hin. auto.
  - intros u Hu Hn. apply i_unseen0; [done|]. by rewrite <- Hin.
  - rewrite i_next0. unfold zlen. by rewrite Hperm.
  - rewrite Heq in i_sorted0. eapply StronglySorted_sublist; [|done].
    apply sublist_app_r. exists [], post. split; [done|]. split; [apply sublist_nil_l|by constructor].
  - done.
  - intros w q Hw. apply i_positions0. by right.
  - intros w u Hw Hu. apply i_reach0; [by right|]. by apply Hpost.
  - intros u Hu. destruct (Hpost u Hu) as [Hus Hlt]. rewrite Hlow by done.
    destruct (i_low0 u Hus) as (Hl & w & Hw & Hwl & Hr). split; [done|]. exists w. split; [|done].
    apply Hsplit. split; [done|lia].
  - intros u Hu Hnf. destruct (Hpost u Hu) as [Hus Hlt]. rewrite Hlow by done. apply i_closed_low0; [done|].
    intros [->|Hf]%elem_of_cons; [simpl in *; lia|done].
  - intros u Hu. destruct (Hpost u Hu) as [Hus Hlt].
    destruct (i_segment0 u Hus) as (f & Hf & H1 & H2 & H3). apply elem_of_cons in Hf as [->|Hf]; [simpl in *; lia|].
    exists f. rewrite !Hlow by (done || (eapply elem_of_sublist; [by right|done])).
    split; [done|]. split; [done|]. split; [done|]. intros g Hg. apply H3. by right.
  - intros u x Hu (j & Hj & Hq) _. destruct (Hpost u Hu) as [Hus Hlt]. rewrite Hlow by done.
    destruct (i_edges0 u x Hus) as [[Hx Hl]|Hx]; [|by intros []| |].
    + exists j. split; [done|]. intros q [[= -> ->]|Hin']%elem_of_cons; [lia|auto].
    + destruct (decide (ix x < ix v)) as [Hlx|Hge].
      * left. split; [|done]. by apply Hsplit.
      * right. rewrite concat_app. apply elem_of_app. right. simpl. rewrite app_nil_r. apply Hsplit. split; [done|lia].
    + right. rewrite concat_app. apply elem_of_app. by left.
  - done.
Qed.

(** A frame that is no root leaves its node on the stack, and has a parent. *)
Lemma not_root_has_parent : low v ≠ ix v → frames ≠ [].
Proof.
  intros Hne Hnil. destruct (i_low _ _ _ _ _ _ _ Hinv v top_in_stack) as (Hl & w & Hw & Hwl & _).
  destruct (i_segment _ _ _ _ _ _ _ Hinv w Hw) as (f & Hf & H1 & _). rewrite Hnil in Hf.
  apply list_elem_of_singleton in Hf. simpl in Hf. subst f. lia.
Qed.
End finished.

Lemma inv_keep v p q pq ix low low' stk frames nxt out :
  inv none ix low stk ((v, p) :: (q, pq) :: frames) nxt out → (length (targets_of v) <= p)%nat →
  low v ≠ ix v → (∀ u, low' u = if decide (u = q) then Z.min (low q) (low v) else low u) →
  inv none ix low' stk ((q, pq) :: frames) nxt out.
Proof.
  intros Hinv Hp Hne Hlow.
  assert (Hle : ∀ u, low' u <= low u) by (intros u; rewrite Hlow; case_decide; subst; lia).
  pose proof (top_in_stack _ _ _ _ _ _ _ _ Hinv) as Hv.
  assert (Hqv : ix q < ix v) by (apply (top_frame_above _ _ _ _ _ _ _ _ Hinv); left).
  assert (Hvq : v ≠ q) by (intros ->; lia).
  assert (Htop : ∀ f, f ∈ (q, pq).1 :: frames.*1 → ix f <= ix q).
  { pose proof (inv_frames_sorted _ _ _ _ _ _ _ Hinv) as Hs. apply StronglySorted_inv in Hs as [Hs _].
    apply StronglySorted_inv in Hs as [_ Hs]. rewrite Forall_forall in Hs.
    intros f [->|Hf]%elem_of_cons; [done|]. specialize (Hs f Hf). simpl in Hs. lia. }
  assert (Hinj : ∀ u, u ∈ stk → ix u = ix q → u = q).
  { intros u Hu Heq. eapply (inv_stack_inj _ _ _ _ _ _ _ Hinv); [done| |done].
    eapply inv_frame_stack; [done|]. right. left. }
  destruct Hinv. constructor; try done.
  - eapply sublist_cons_l in i_frames0 as (k1 & k2 & -> & Hf).
    apply (sublist_inserts_l k1). by apply sublist_cons.
  - intros w r Hw. apply i_positions0. by right.
  - intros w u Hw. apply i_reach0. by right.
  - intros u Hu. destruct (i_low0 u Hu) as (Hl & w & Hw & Hwl & Hr). specialize (Hle u). split; [lia|].
    rewrite Hlow. case_decide as Hq; [subst u|by exists w].
    destruct (Z.min_spec (low q) (low v)) as [[_ ->]|[_ ->]]; [by exists w|].
    destruct (i_low0 v Hv) as (_ & w' & Hw' & Hwl' & Hr'). exists w'. split; [done|]. split; [done|].
    transitivity v; [|done]. apply i_reach0; [right; left|done|lia].
  - intros u Hu Hnf. rewrite Hlow, decide_False by (intros ->; apply Hnf; left).
    destruct (decide (u = v)) as [->|Huv].
    + destruct (i_low0 v Hv). lia.
    + apply i_closed_low0; [done|]. by intros [->|?]%elem_of_cons.
  - intros u Hu. destruct (i_segment0 u Hu) as (f & Hf & H1 & H2 & H3).
    apply elem_of_cons in Hf as [->|Hf]; simpl in H1, H2, H3.
    + exists q. split; [left|]. split; [lia|]. split; [|by intros g Hg _; apply Htop].
      rewrite !Hlow, decide_True by done. rewrite decide_False by (intros ->; lia). lia.
    + exists f. split; [done|]. split; [done|]. split; [|intros g Hg; apply H3; by right].
      destruct (decide (u = q)) as [->|Huq].
      * assert (f = q) as ->; [|done]. apply Hinj.
        { eapply elem_of_sublist; [by right|done]. }
        assert (ix q <= ix f) by (apply H3; [right; left|done]). lia.
      * rewrite (Hlow u), decide_False by done. specialize (Hle f). lia.
  - intros u x Hu (j & Hj & Hr) _. destruct (i_edges0 u x Hu) as [[Hx Hl]|Hx]; [|by intros []| |by right].
    + exists j. split; [done|]. intros r [[= -> ->]|Hin]%elem_of_cons; [|by apply Hr].
      apply lookup_lt_Some in Hj. lia.
    + left. split; [done|]. specialize (Hle u). lia.
Qed.

End invariant.

(** ** The traversal keeps the invariant and ends *)
#[local] Arguments with_work : simpl never.
#[local] Arguments discover : simpl never.
#[local] Arguments finish : simpl never.

Section correctness.
Context {N : Type} {E : Type} (names : list N) (edges : list (list nat)) (checkpoint : nat → result unit E).
Context (Hnames : length names = length edges) (Hfit : Z.of_nat (length edges) <= UNVISITED)
  (Hclosed : ∀ u x, arc edges u x → (x < length edges)%nat).

Definition idx (s : TarjanState) (u : nat) : Z := default UNVISITED (index s !! u).
Definition low_of (s : TarjanState) (u : nat) : Z := default 0 (lowlink s !! u).

Record sized (s : TarjanState) : Prop := {
  s_index : length (index s) = length edges;
  s_lowlink : length (lowlink s) = length edges;
  s_on_stack : ∀ u, (u < length edges)%nat → on_stack s !! u = Some (bool_decide (u ∈ stack s));
  s_on_length : length (on_stack s) = length edges;
}.

(** The components by name. *)
Definition named : list (list nat) → list (list N) → Prop :=
  Forall2 (Forall2 (λ i x, names !! i = Some x)).

Record holds (P : nat → nat → Prop) (s : TarjanState) (out : list (list nat)) (sccs : list (list N)) : Prop := {
  h_sized : sized s;
  h_inv : inv edges P (idx s) (low_of s) (stack s) (work s) (next_index s) out;
  h_named : named out sccs;
}.

Lemma index_lookup s u : sized s → (u < length edges)%nat → index s !! u = Some (idx s u).
Proof.
  intros Hs Hu. unfold idx. rewrite <- (s_index s Hs) in Hu. apply lookup_lt_is_Some in Hu as [x Hx].
  by rewrite Hx.
Qed.

Lemma lowlink_lookup s u : sized s → (u < length edges)%nat → lowlink s !! u = Some (low_of s u).
Proof.
  intros Hs Hu. unfold low_of. rewrite <- (s_lowlink s Hs) in Hu. apply lookup_lt_is_Some in Hu as [x Hx].
  by rewrite Hx.
Qed.

Lemma default_insert {A} (d : A) (l : list A) c v u :
  (c < length l)%nat → default d (<[c := v]> l !! u) = if decide (u = c) then v else default d (l !! u).
Proof.
  intros Hc. case_decide as Hu; [subst|]; [by rewrite list_lookup_insert_eq|].
  by rewrite list_lookup_insert_ne.
Qed.

Lemma holds_in_range P s out sccs u : holds P s out sccs → u ∈ stack s → (u < length edges)%nat.
Proof. intros H Hu. apply (i_range _ _ _ _ _ _ _ _ (h_inv _ _ _ _ H) u). apply elem_of_app. by left. Qed.

(** A node that was not seen leaves room for one more index. *)
Lemma unseen_room P s out sccs c :
  holds P s out sccs → (c < length edges)%nat → idx s c = UNVISITED → next_index s < Z.of_nat (length edges).
Proof.
  intros [_ Hinv _] Hc Hun. destruct Hinv. rewrite i_next0.
  assert (Hnew : c ∉ stack s ++ concat out).
  { intros Hin. destruct (i_range0 c Hin) as [_ Hb].
    pose proof (NoDup_below _ (length edges) i_nodup0 (λ u Hu, proj1 (i_range0 u Hu))). unfold zlen in *. lia. }
  assert (Hl : (length (c :: stack s ++ concat out) <= length edges)%nat).
  { apply NoDup_below; [by apply NoDup_cons|]. intros u [->|Hu]%elem_of_cons; [done|]. by apply i_range0. }
  unfold zlen. simpl in Hl. lia.
Qed.

Lemma discover_ok P s out sccs c :
  holds P s out sccs → (c < length edges)%nat → idx s c = UNVISITED →
  (∀ u y, P u y → y = c) → (∀ f, f ∈ (work s).*1 → rtc (arc edges) f c) →
  ∃ s', discover c s = Some s' ∧ holds none s' out sccs ∧ work s' = (c, O) :: work s ∧
    next_index s' = next_index s + 1 ∧
    (∀ u, idx s' u = if decide (u = c) then next_index s else idx s u).
Proof.
  intros [Hs Hinv Hn] Hc Hun HP Hr. unfold discover.
  pose proof (s_index s Hs) as H1. pose proof (s_lowlink s Hs) as H2. pose proof (s_on_length s Hs) as H3.
  rewrite !vec_set_some by lia. simpl. eexists. split; [done|].
  assert (Hix : ∀ u, default UNVISITED (<[c := next_index s]> (index s) !! u) =
                     if decide (u = c) then next_index s else idx s u) by (intros u; apply default_insert; lia).
  split; [|done]. constructor; simpl; [|eapply inv_discover; eauto; intros u; apply default_insert; lia|done].
  constructor; simpl; rewrite ?length_insert; try done.
  intros u Hu. destruct (decide (u = c)) as [->|Hne].
  - rewrite list_lookup_insert_eq by lia. by rewrite bool_decide_eq_true_2 by left.
  - rewrite list_lookup_insert_ne by done. rewrite (s_on_stack s Hs u Hu). f_equal.
    apply bool_decide_ext. rewrite elem_of_cons. naive_solver.
Qed.

(** The pass of an edge to a node that was seen. *)
Definition note_edge (v : nat) (x : nat) (s : TarjanState) : TarjanState :=
  if bool_decide (x ∈ stack s)
  then with_lowlink s (<[v := Z.min (low_of s v) (idx s x)]> (lowlink s)) else s.

Lemma note_edge_ok v p x frames s out sccs :
  holds (λ u y, u = v ∧ y = x) s out sccs → work s = (v, p) :: frames → arc edges v x →
  idx s x ≠ UNVISITED → holds none (note_edge v x s) out sccs.
Proof.
  intros H Hw Harc Hseen. pose proof (Hclosed v x Harc) as Hx. unfold note_edge.
  assert (Hv : (v < length edges)%nat).
  { eapply holds_in_range; [done|]. eapply inv_frame_stack; [apply H|]. rewrite Hw. left. }
  destruct H as [Hs Hinv Hn].
  case_bool_decide as Hin.
  - constructor; simpl; [|rewrite Hw in Hinv |- *; eapply inv_back; try done|done].
    + destruct Hs. constructor; simpl; rewrite ?length_insert; done.
    + intros u. unfold low_of at 1. simpl. rewrite default_insert; [done|]. by rewrite (s_lowlink s Hs).
  - constructor; [done| |done]. eapply inv_skip; [done|].
    destruct (decide (x ∈ concat out)) as [|Hno]; [done|]. exfalso. apply Hseen.
    apply (i_unseen _ _ _ _ _ _ _ _ Hinv); [done|]. rewrite elem_of_app. by intros [?|?].
Qed.

Lemma pop_component_ok v pre post on acc :
  v ∉ pre → (∀ u, u ∈ pre ++ [v] → (u < length edges)%nat) → length on = length edges →
  ∃ on' comp, pop_component names v (pre ++ v :: post) on acc = Some (post, on', acc ++ comp) ∧
    Forall2 (λ i x, names !! i = Some x) (pre ++ [v]) comp ∧ length on' = length edges ∧
    (∀ u, (u < length edges)%nat →
       on' !! u = if decide (u ∈ pre ++ [v]) then Some false else on !! u).
Proof.
  revert on acc. induction pre as [|a pre IH]; intros on acc Hv Hr Hl; simpl.
  - assert (Hvn : (v < length edges)%nat) by (apply Hr; left). rewrite vec_set_some by lia. simpl.
    destruct (lookup_lt_is_Some_2 names v) as [x Hx]; [lia|]. rewrite Hx. simpl. rewrite decide_True by done.
    exists (<[v := false]> on), [x]. split; [done|]. split; [by repeat constructor|].
    rewrite length_insert. split; [done|]. intros u Hu. case_decide as Hd.
    + apply list_elem_of_singleton in Hd as ->. apply list_lookup_insert_eq. lia.
    + apply list_lookup_insert_ne. intros ->. apply Hd. left.
  - assert (Han : (a < length edges)%nat) by (apply Hr; left). rewrite vec_set_some by lia. simpl.
    destruct (lookup_lt_is_Some_2 names a) as [x Hx]; [lia|]. rewrite Hx. simpl.
    apply not_elem_of_cons in Hv as [Hva Hv]. rewrite decide_False by done.
    destruct (IH (<[a := false]> on) (acc ++ [x]) Hv) as (on' & comp & Heq & Hc & Hl' & Hon).
    { intros u Hu. apply Hr. by right. }
    { by rewrite length_insert. }
    exists on', (x :: comp). rewrite Heq, <- app_assoc. split; [done|]. split; [by constructor|].
    split; [done|]. intros u Hu. rewrite Hon by done. destruct (decide (u ∈ pre ++ [v])) as [Hd|Hd].
    + rewrite decide_True by (by right). done.
    + destruct (decide (u = a)) as [->|Hua].
      * rewrite decide_True by left. apply list_lookup_insert_eq. lia.
      * rewrite decide_False by (by intros [->|?]%elem_of_cons). by apply list_lookup_insert_ne.
Qed.
(** Closing the frame of a root emits its component. *)
Lemma finish_root v p frames s out sccs :
  holds none s out sccs → work s = (v, p) :: frames → (length (targets_of edges v) <= p)%nat →
  low_of s v = idx s v →
  ∃ s' out' sccs', finish names v s sccs = Some (s', sccs') ∧ holds none s' out' sccs' ∧
    work s' = frames ∧ index s' = index s ∧ next_index s' = next_index s.
Proof.
  intros H Hw Hp Hroot. pose proof (h_inv _ _ _ _ H) as Hinv. rewrite Hw in Hinv.
  pose proof (top_in_stack _ _ _ _ _ _ _ _ _ Hinv) as Hv.
  pose proof (holds_in_range _ _ _ _ _ H Hv) as Hvn.
  apply list_elem_of_split in Hv as (pre & post & Heq).
  pose proof (inv_nodup_stack _ _ _ _ _ _ _ _ Hinv) as Hnd. rewrite Heq in Hnd.
  assert (Hpre : v ∉ pre) by (apply NoDup_app in Hnd as (_ & Hd & _); intros Hin; apply (Hd v Hin); left).
  destruct H as [Hs _ Hn].
  destruct (pop_component_ok v pre post (on_stack s) [] Hpre) as (on' & comp & Hpop & Hcomp & Hlen & Hon).
  { intros u Hu. apply (i_range _ _ _ _ _ _ _ _ Hinv u). rewrite Heq. set_solver. }
  { apply Hs. }
  assert (Hparent : ∃ low', match frames with
      | (parent, _) :: _ => l ← lowlink s !! parent; vec_set (lowlink s) parent (Z.min l (low_of s v))
      | [] => Some (lowlink s) end = Some low' ∧ length low' = length edges ∧
      ∀ u, u ∈ stack s → default 0 (low' !! u) = low_of s u).
  { destruct frames as [|[q pq] frames]; [exists (lowlink s); split; [done|split; [apply Hs|done]]|].
    assert (Hq : q ∈ stack s) by (eapply inv_frame_stack; [done|right; left]).
    assert (Hqv : idx s q < idx s v) by (eapply top_frame_above; [done|left]).
    assert (Hqn : (q < length edges)%nat).
    { apply (i_range _ _ _ _ _ _ _ _ Hinv q), elem_of_app. by left. }
    destruct (i_low _ _ _ _ _ _ _ _ Hinv q Hq) as [Hlq _].
    rewrite (lowlink_lookup s q Hs Hqn). simpl. rewrite vec_set_some by (by rewrite (s_lowlink s Hs)).
    eexists. split; [done|]. rewrite length_insert. split; [apply Hs|]. intros u Hu.
    rewrite default_insert by (by rewrite (s_lowlink s Hs)). case_decide as Huq; [subst u; lia|done]. }
  destruct Hparent as (low' & Hlow & Hll & Hsame). unfold finish. rewrite Hw. simpl tail.
  rewrite (lowlink_lookup s v Hs Hvn), (index_lookup s v Hs Hvn). simpl. rewrite Hroot, Z.eqb_refl, Heq, Hpop.
  simpl. rewrite Hroot in Hlow. rewrite Hlow. simpl.
  exists {| index := index s; lowlink := low'; on_stack := on'; stack := post; work := frames;
            next_index := next_index s |}, (out ++ [pre ++ [v]]), (sccs ++ [comp]).
  split; [done|]. split; [|done].
  constructor; simpl; [|by eapply inv_emit|by apply Forall2_app; [|constructor]].
  constructor; simpl; [apply Hs|done| |done].
  intros u Hu. rewrite Hon by done. rewrite (s_on_stack s Hs u Hu), Heq.
  case_decide as Hd; [|f_equal; apply bool_decide_ext; set_solver]. f_equal. symmetry. apply bool_decide_eq_false.
  intros Hin. apply NoDup_app in Hnd as (_ & Hd1 & Hd2). apply NoDup_cons in Hd2 as [Hd2 _]. set_solver.
Qed.

(** Closing any other frame passes its lowlink on. *)
Lemma finish_inner v p frames s out sccs :
  holds none s out sccs → work s = (v, p) :: frames → (length (targets_of edges v) <= p)%nat →
  low_of s v ≠ idx s v →
  ∃ s', finish names v s sccs = Some (s', sccs) ∧ holds none s' out sccs ∧
    work s' = frames ∧ index s' = index s ∧ next_index s' = next_index s.
Proof.
  intros H Hw Hp Hne. pose proof (h_inv _ _ _ _ H) as Hinv. rewrite Hw in Hinv.
  pose proof (holds_in_range _ _ _ _ _ H (top_in_stack _ _ _ _ _ _ _ _ _ Hinv)) as Hvn.
  destruct frames as [|[q pq] frames]; [by destruct (not_root_has_parent _ _ _ _ _ _ _ _ _ Hinv Hp Hne)|].
  assert (Hqn : (q < length edges)%nat).
  { eapply holds_in_range; [done|]. eapply inv_frame_stack; [done|right; left]. }
  destruct H as [Hs _ Hn]. unfold finish. rewrite Hw. simpl tail.
  rewrite (lowlink_lookup s v Hs Hvn), (index_lookup s v Hs Hvn). simpl.
  destruct (Z.eqb_spec (low_of s v) (idx s v)) as [|_]; [done|]. simpl.
  rewrite (lowlink_lookup s q Hs Hqn). simpl. rewrite vec_set_some by (by rewrite (s_lowlink s Hs)). simpl.
  eexists. split; [done|]. split; [|done]. constructor; simpl; [|eapply inv_keep; try done|done].
  - destruct Hs. constructor; simpl; rewrite ?length_insert; done.
  - intros u. unfold low_of at 1. simpl. rewrite default_insert; [done|]. by rewrite (s_lowlink s Hs).
Qed.

Lemma finish_ok v p frames s out sccs :
  holds none s out sccs → work s = (v, p) :: frames → (length (targets_of edges v) <= p)%nat →
  ∃ s' out' sccs', finish names v s sccs = Some (s', sccs') ∧ holds none s' out' sccs' ∧
    work s' = frames ∧ index s' = index s ∧ next_index s' = next_index s.
Proof.
  intros H Hw Hp. destruct (decide (low_of s v = idx s v)) as [Hroot|Hne]; [by eapply finish_root|].
  destruct (finish_inner v p frames s out sccs H Hw Hp Hne) as (s' & ?). by exists s', out, sccs.
Qed.

(** *** Termination: the edges of unseen nodes and of open frames *)
Definition unseen_weight (s : TarjanState) (u : nat) : nat :=
  if idx s u =? UNVISITED then S (length (targets_of edges u)) else O.
Definition frame_weight (f : nat * nat) : nat := (S (length (targets_of edges f.1)) - f.2)%nat.
Definition measure (s : TarjanState) : nat :=
  (sum_list_with (unseen_weight s) (seq 0 (length edges)) + sum_list_with frame_weight (work s))%nat.

Lemma sum_list_with_change (f g : nat → nat) c l :
  NoDup l → c ∈ l → (∀ u, u ≠ c → f u = g u) →
  (sum_list_with f l + g c = sum_list_with g l + f c)%nat.
Proof.
  intros Hnd [k Hk]%elem_of_Permutation Hfg. rewrite Hk in Hnd |- *. simpl.
  apply NoDup_cons in Hnd as [Hc _].
  assert (sum_list_with f k = sum_list_with g k) as ->; [|lia].
  clear Hk. induction k as [|x k IH]; [done|]. apply not_elem_of_cons in Hc as [Hx Hc]. simpl.
  by rewrite Hfg, IH.
Qed.

Lemma sum_list_with_ext (f g : nat → nat) l :
  (∀ u, f u = g u) → sum_list_with f l = sum_list_with g l.
Proof. intros Hfg. induction l as [|x l IH]; [done|]. simpl. by rewrite Hfg, IH. Qed.

Lemma measure_same s s' fs :
  index s' = index s → work s' = fs →
  measure s' = (sum_list_with (unseen_weight s) (seq 0 (length edges)) + sum_list_with frame_weight fs)%nat.
Proof.
  intros Hi Hw. unfold measure. rewrite Hw. f_equal. apply sum_list_with_ext. intros u.
  unfold unseen_weight, idx. by rewrite Hi.
Qed.

Lemma measure_discover s s' c :
  (c < length edges)%nat → idx s c = UNVISITED → next_index s < UNVISITED →
  (∀ u, idx s' u = if decide (u = c) then next_index s else idx s u) → work s' = (c, O) :: work s →
  measure s' = measure s.
Proof.
  intros Hc Hun Hlt Hix Hw. unfold measure. rewrite Hw. simpl.
  pose proof (sum_list_with_change (unseen_weight s') (unseen_weight s) c (seq 0 (length edges)))
    as Hsum. rewrite elem_of_seq in Hsum.
  assert (H1 : unseen_weight s' c = O).
  { unfold unseen_weight. rewrite Hix, decide_True by done. by destruct (Z.eqb_spec (next_index s) UNVISITED); [lia|]. }
  assert (H2 : unseen_weight s c = S (length (targets_of edges c))).
  { unfold unseen_weight. by rewrite Hun, Z.eqb_refl. }
  rewrite H1, H2 in Hsum. unfold frame_weight. simpl.
  assert (Hpre : ∀ u, u ≠ c → unseen_weight s' u = unseen_weight s u).
  { intros u Hu. unfold unseen_weight. by rewrite Hix, decide_False. }
  specialize (Hsum (NoDup_seq 0 _) (conj (Nat.le_0_l c) Hc) Hpre). lia.
Qed.

(** *** Runs *)

(** The checkpoints from [calls] on, up to the one that ended the run with its
    error or all that were made. *)
Definition checked (calls calls' : nat) : Prop :=
  (calls <= calls')%nat ∧ ∀ k, (calls <= k < calls')%nat → checkpoint k = Ok tt.

Definition refused {A} (calls : nat) (run : option (result A E)) : Prop :=
  ∃ k error, run = Some (Err error) ∧ checkpoint k = Err error ∧ checked calls k ∧ (k < length edges)%nat.

Definition completes (calls : nat) (s : TarjanState)
    (run : option (result (nat * TarjanState * list (list N)) E)) : Prop :=
  (∃ calls' s' sccs' out', run = Some (Ok (calls', s', sccs')) ∧ holds none s' out' sccs' ∧
     work s' = [] ∧ Z.of_nat calls' = next_index s' ∧ checked calls calls' ∧
     (∀ u, idx s u ≠ UNVISITED → idx s' u ≠ UNVISITED)) ∨
  refused calls run.

Lemma checked_step calls calls' : checkpoint calls = Ok tt → checked (S calls) calls' → checked calls calls'.
Proof.
  intros Hc [Hle Hk]. split; [lia|]. intros k Hr. destruct (decide (k = calls)) as [->|]; [done|]. apply Hk. lia.
Qed.

Lemma refused_step {A} calls (run : option (result A E)) :
  checkpoint calls = Ok tt → refused (S calls) run → refused calls run.
Proof.
  intros Hc (k & error & ? & ? & ? & ?). exists k, error. split_and!; try done. by apply checked_step.
Qed.

Lemma completes_step calls s s' run :
  checkpoint calls = Ok tt → (∀ u, idx s u ≠ UNVISITED → idx s' u ≠ UNVISITED) →
  completes (S calls) s' run → completes calls s run.
Proof.
  intros Hc Hmono [(calls' & s2 & sccs2 & out2 & ? & ? & ? & ? & ? & ?)|Hr]; [left|right; by apply refused_step].
  exists calls', s2, sccs2, out2. split_and!; try done; [by apply checked_step|auto].
Qed.

Lemma completes_same calls s s' run :
  (∀ u, idx s u ≠ UNVISITED → idx s' u ≠ UNVISITED) → completes calls s' run → completes calls s run.
Proof.
  intros Hmono [(calls' & s2 & sccs2 & out2 & ? & ? & ? & ? & ? & ?)|Hr]; [left|by right].
  exists calls', s2, sccs2, out2. split_and!; try done. auto.
Qed.

Lemma index_mono s s' : index s' = index s → ∀ u, idx s u ≠ UNVISITED → idx s' u ≠ UNVISITED.
Proof. intros Hi u. unfold idx. by rewrite Hi. Qed.

Lemma discover_mono s s' c :
  next_index s < UNVISITED → (∀ u, idx s' u = if decide (u = c) then next_index s else idx s u) →
  ∀ u, idx s u ≠ UNVISITED → idx s' u ≠ UNVISITED.
Proof. intros Hlt Hix u Hu. rewrite Hix. case_decide; [lia|done]. Qed.

Lemma checkpoint_cases k : checkpoint k = Ok tt ∨ ∃ error, checkpoint k = Err error.
Proof. destruct (checkpoint k) as [[]|error]; [by left|right; by exists error]. Qed.

(** The position of the top frame moves. *)
Lemma advance_ok v p x frames s out sccs :
  holds none s out sccs → work s = (v, p) :: frames → targets_of edges v !! p = Some x →
  holds (λ u y, u = v ∧ y = x) (with_work s ((v, S p) :: frames)) out sccs ∧
  measure s = S (measure (with_work s ((v, S p) :: frames))).
Proof.
  intros [Hs Hinv Hn] Hw Hx. rewrite Hw in Hinv. split.
  - constructor; [by destruct Hs; constructor|by apply inv_advance|done].
  - unfold measure. rewrite Hw. simpl. unfold frame_weight at 1 3. simpl. apply lookup_lt_Some in Hx.
    erewrite (sum_list_with_ext (unseen_weight s)); [|reflexivity]. unfold unseen_weight, idx. simpl. lia.
Qed.

Lemma note_edge_run v x s :
  sized s → (v < length edges)%nat → (x < length edges)%nat →
  index (note_edge v x s) = index s ∧ work (note_edge v x s) = work s ∧
  next_index (note_edge v x s) = next_index s.
Proof. intros Hs Hv Hx. unfold note_edge. by case_bool_decide. Qed.

(** One turn of the loop, when the top frame has an edge left. *)
Lemma traverse_edge fuel calls v p x frames s out sccs :
  holds none s out sccs → work s = (v, p) :: frames → targets_of edges v !! p = Some x →
  (measure s < S fuel)%nat → Z.of_nat calls = next_index s →
  (∀ calls s out sccs, holds none s out sccs → (measure s < fuel)%nat → Z.of_nat calls = next_index s →
     completes calls s (traverse names edges checkpoint fuel calls s sccs)) →
  completes calls s (traverse names edges checkpoint (S fuel) calls s sccs).
Proof.
  intros H Hw Hx Hm Hcalls IH. destruct (advance_ok v p x frames s out sccs H Hw Hx) as [H1 Hm1].
  pose proof (h_sized _ _ _ _ H1) as Hs1. remember (with_work s ((v, S p) :: frames)) as s1 eqn:Hs1eq.
  assert (Hnext : next_index s1 = next_index s) by (by subst). assert (Hidx : index s1 = index s) by (by subst).
  assert (Hw1 : work s1 = (v, S p) :: frames) by (by subst).
  assert (Hons : on_stack s1 = on_stack s) by (by subst). assert (Hlow : lowlink s1 = lowlink s) by (by subst).
  assert (Harc : arc edges v x) by (by apply list_elem_of_lookup_2 in Hx). pose proof (Hclosed v x Harc) as Hxn.
  assert (Hv : v ∈ stack s1) by (eapply inv_frame_stack; [apply H1|rewrite Hw1; left]).
  pose proof (holds_in_range _ _ _ _ _ H1 Hv) as Hvn. simpl. rewrite Hw.
  destruct (lookup_lt_is_Some_2 edges v Hvn) as [ts Hts]. rewrite Hts. simpl.
  unfold targets_of in Hx. rewrite Hts in Hx. simpl in Hx. rewrite Hx, <- Hs1eq.
  rewrite <- Hidx, <- Hons, <- Hlow.
  rewrite (index_lookup s1 x Hs1 Hxn). simpl. destruct (Z.eqb_spec (idx s1 x) UNVISITED) as [Hun|Hseen].
  - pose proof (unseen_room _ _ _ _ _ H1 Hxn Hun) as Hroom.
    destruct (checkpoint_cases calls) as [Hck|[error Hck]]; rewrite Hck; simpl.
    + destruct (discover_ok _ s1 out sccs x H1 Hxn Hun) as (s2 & Hd & H2 & Hw2 & Hn2 & Hix2).
      { by intros u y [_ ->]. }
      { intros f Hf. apply rtc_r with v; [|done]. pose proof (h_inv _ _ _ _ H1) as Hinv1.
        apply (i_reach _ _ _ _ _ _ _ _ Hinv1); [done|done|].
        pose proof (inv_frames_sorted _ _ _ _ _ _ _ _ Hinv1) as Hsort. rewrite Hw1 in Hf, Hsort.
        apply StronglySorted_inv in Hsort as [_ Hsort]. rewrite Forall_forall in Hsort.
        apply elem_of_cons in Hf as [->|Hf]; [done|]. specialize (Hsort f Hf). simpl in Hsort. lia. }
      rewrite Hd. simpl.
      apply (completes_step calls s s2); [done| |].
      * intros u Hu. eapply discover_mono; [|done|by eapply index_mono]. lia.
      * apply (IH _ _ out); [done| |lia].
        rewrite (measure_discover s1 s2 x) by (done || lia). lia.
    + right. exists calls, error. split_and!; try done; [split; [lia|intros k Hk; lia]|lia].
  - pose proof (note_edge_ok v (S p) x frames s1 out sccs H1 Hw1 Harc Hseen) as H2.
    destruct (note_edge_run v x s1 Hs1 Hvn Hxn) as (Hi2 & Hw2 & Hn2).
    rewrite (s_on_stack s1 Hs1 x Hxn). simpl.
    assert (Hgo : completes calls s (traverse names edges checkpoint fuel calls (note_edge v x s1) sccs)).
    { apply (completes_same _ _ (note_edge v x s1)); [apply index_mono; congruence|].
      apply (IH _ _ out); [done| |lia]. rewrite (measure_same s1 _ (work s1)) by done. fold (measure s1). lia. }
    unfold note_edge in Hgo. case_bool_decide as Hin; [|done].
    rewrite (lowlink_lookup s1 v Hs1 Hvn). simpl. by rewrite vec_set_some by (by rewrite (s_lowlink s1 Hs1)).
Qed.

(** The loop runs to completion within its fuel. *)
Lemma traverse_ok fuel calls s out sccs :
  holds none s out sccs → (measure s < fuel)%nat → Z.of_nat calls = next_index s →
  completes calls s (traverse names edges checkpoint fuel calls s sccs).
Proof.
  revert calls s out sccs. induction fuel as [|fuel IH]; intros calls s out sccs H Hm Hcalls; [lia|].
  destruct (work s) as [|[v p] frames] eqn:Hw.
  - simpl. rewrite Hw. left. exists calls, s, sccs, out. split_and!; try done. split; [lia|]. intros k Hk. lia.
  - destruct (targets_of edges v !! p) as [x|] eqn:Hx; [by eapply traverse_edge|].
    assert (Hv : v ∈ stack s) by (eapply inv_frame_stack; [apply H|rewrite Hw; left]).
    pose proof (holds_in_range _ _ _ _ _ H Hv) as Hvn. simpl. rewrite Hw.
    destruct (lookup_lt_is_Some_2 edges v Hvn) as [ts Hts]. rewrite Hts. simpl.
    assert (Hp : (length (targets_of edges v) <= p)%nat) by (by apply lookup_ge_None).
    assert (Hp' : (p <= length (targets_of edges v))%nat).
    { apply (i_positions _ _ _ _ _ _ _ _ (h_inv _ _ _ _ H)). rewrite Hw. left. }
    unfold targets_of in Hx. rewrite Hts in Hx. simpl in Hx. rewrite Hx.
    destruct (finish_ok v p frames s out sccs H Hw Hp) as (s' & out' & sccs' & Hf & H' & Hw' & Hi' & Hn').
    rewrite Hf. simpl. apply (completes_same _ _ s'); [by apply index_mono|].
    apply (IH _ _ out'); [done| |lia]. rewrite (measure_same s s' frames) by done.
    unfold measure in Hm. rewrite Hw in Hm. simpl in Hm. unfold frame_weight in Hm at 1. simpl in Hm. lia.
Qed.

Lemma sum_list_with_fmap {A B} (f : B → nat) (g : A → B) l :
  sum_list_with f (g <$> l) = sum_list_with (λ x, f (g x)) l.
Proof. induction l as [|x l IH]; [done|]. rewrite fmap_cons. cbn [sum_list_with]. by rewrite IH. Qed.

Lemma measure_below_fuel s : work s = [] → (measure s < traverse_fuel edges)%nat.
Proof.
  intros Hw. unfold measure, traverse_fuel. rewrite Hw. simpl.
  assert (Hle : ∀ l, (sum_list_with (unseen_weight s) l <=
                      length l + sum_list_with (λ u, length (targets_of edges u)) l)%nat).
  { induction l as [|u l IH]; [done|]. simpl. unfold unseen_weight at 1. case_match; lia. }
  specialize (Hle (seq 0 (length edges))). rewrite length_seq in Hle.
  rewrite <- (sum_list_with_fmap length) in Hle. unfold targets_of in Hle. rewrite (list_tabulated edges []) in Hle. lia.
Qed.

#[local] Arguments traverse : simpl never.

(** Between two roots there is no open frame. *)
Lemma visit_roots_ok roots calls s out sccs :
  holds none s out sccs → work s = [] → Z.of_nat calls = next_index s →
  (∀ u, u ∈ roots → (u < length edges)%nat) →
  let run := visit_roots names edges checkpoint roots calls s sccs in
  (∃ sccs' out' s', run = Some (Ok sccs') ∧ holds none s' out' sccs' ∧ work s' = [] ∧
     checked calls (Z.to_nat (next_index s')) ∧
     (∀ u, u ∈ roots ∨ idx s u ≠ UNVISITED → idx s' u ≠ UNVISITED)) ∨
  refused calls run.
Proof.
  revert calls s out sccs. induction roots as [|root roots IH]; intros calls s out sccs H Hw Hcalls Hr; simpl.
  - left. exists sccs, out, s. split_and!; try done.
    + split; [lia|]. intros k Hk. lia.
    + by intros u [?%elem_of_nil|?].
  - assert (Hroot : (root < length edges)%nat) by (apply Hr; left).
    assert (Hr' : ∀ u, u ∈ roots → (u < length edges)%nat) by (intros u Hu; apply Hr; by right).
    rewrite (index_lookup s root (h_sized _ _ _ _ H) Hroot). simpl.
    destruct (Z.eqb_spec (idx s root) UNVISITED) as [Hun|Hseen]; simpl.
    + pose proof (unseen_room _ _ _ _ _ H Hroot Hun) as Hroom.
      destruct (checkpoint_cases calls) as [Hck|[error Hck]]; rewrite Hck; simpl.
      2: { right. exists calls, error. split_and!; try done; [split; [lia|intros k Hk; lia]|lia]. }
      destruct (discover_ok none s out sccs root H Hroot Hun) as (s1 & Hd & H1 & Hw1 & Hn1 & Hix1).
      { by intros u y []. }
      { rewrite Hw. by intros f ?%elem_of_nil. }
      rewrite Hd. simpl.
      assert (Hm : (measure s1 < traverse_fuel edges)%nat).
      { rewrite (measure_discover s s1 root) by (done || lia). by apply measure_below_fuel. }
      destruct (traverse_ok (traverse_fuel edges) (S calls) s1 out sccs H1 Hm ltac:(lia))
        as [(calls2 & s2 & sccs2 & out2 & Hrun & H2 & Hw2 & Hc2 & Hk2 & Hmono)|Hrefused].
      2: { right. destruct Hrefused as (k & error & Hrun & ? & ? & ?). rewrite Hrun. simpl.
           exists k, error. split_and!; try done. by apply checked_step. }
      rewrite Hrun. simpl. destruct (IH calls2 s2 out2 sccs2 H2 Hw2 Hc2 Hr')
        as [(sccs3 & out3 & s3 & Hrun3 & H3 & Hw3 & Hk3 & Hseen3)|Hrefused].
      2: { right. destruct Hrefused as (k & error & ? & ? & [Hle Hk] & ?). exists k, error. split_and!; try done.
           apply checked_step; [done|]. destruct Hk2 as [Hle2 Hk2]. split; [lia|]. intros j Hj.
           destruct (decide (j < calls2)%nat); [apply Hk2; lia|apply Hk; lia]. }
      left. exists sccs3, out3, s3. split_and!; try done.
      * apply checked_step; [done|]. destruct Hk2 as [Hle2 Hk2], Hk3 as [Hle3 Hk3]. split; [lia|]. intros j Hj.
        destruct (decide (j < calls2)%nat); [apply Hk2; lia|apply Hk3; lia].
      * assert (Hs1 : ∀ u, u = root ∨ idx s u ≠ UNVISITED → idx s1 u ≠ UNVISITED).
        { intros u Hu. rewrite Hix1. case_decide; [lia|]. naive_solver. }
        intros u [[->|Hu]%elem_of_cons|Hu]; apply Hseen3; auto.
    + destruct (IH calls s out sccs H Hw Hcalls Hr') as [(sccs3 & out3 & s3 & Hrun3 & H3 & Hw3 & Hk3 & Hseen3)|Hrefused];
        [left|by right].
      exists sccs3, out3, s3. split_and!; try done. intros u [[->|Hu]%elem_of_cons|Hu]; apply Hseen3; auto.
Qed.

Lemma initial_holds : holds none (tarjan_state_new (length edges)) [] [].
Proof.
  constructor; simpl; [|apply inv_initial|constructor].
  - constructor; simpl; rewrite ?length_replicate; try done. intros u Hu. by rewrite lookup_replicate_2.
  - intros u Hu. unfold idx. simpl. by rewrite lookup_replicate_2.
Qed.

(** The whole run, on ordinals. *)
Lemma visit_all :
  let run := visit_roots names edges checkpoint (seq 0 (length edges)) O
               (tarjan_state_new (length edges)) [] in
  (∃ sccs out, run = Some (Ok sccs) ∧ named out sccs ∧ ordered_sccs edges out ∧ NoDup (concat out) ∧
     (∀ u, u ∈ concat out ↔ (u < length edges)%nat) ∧ checked O (length edges)) ∨
  refused O run.
Proof.
  destruct (visit_roots_ok (seq 0 (length edges)) O (tarjan_state_new (length edges)) [] [] initial_holds)
    as [(sccs & out & s & Hrun & [Hs Hinv Hn] & Hw & Hk & Hseen)|Hr]; [done|done| |left|by right].
  { intros u ?%elem_of_seq. lia. }
  assert (Hempty : stack s = []).
  { destruct (stack s) as [|u l] eqn:Hstk; [done|]. exfalso.
    destruct (i_segment _ _ _ _ _ _ _ _ Hinv u) as (f & Hf & _); [left|]. rewrite Hw in Hf. by apply elem_of_nil in Hf. }
  rewrite Hempty in Hinv. destruct Hinv. simpl in *. exists sccs, out.
  assert (Hall : ∀ u, u ∈ concat out ↔ (u < length edges)%nat).
  { intros u. split; [by intros [? _]%i_range0|]. intros Hu. destruct (decide (u ∈ concat out)) as [|Hno]; [done|].
    exfalso. apply (Hseen u); [left; apply elem_of_seq; lia|]. by apply i_unseen0. }
  assert (Hlen : length (concat out) = length edges).
  { rewrite <- (length_seq (length edges) 0). apply Permutation_length, NoDup_Permutation; [done|apply NoDup_seq|].
    intros u. rewrite Hall, elem_of_seq. lia. }
  split_and!; try done. unfold zlen in i_next0. rewrite i_next0, Hlen, Nat2Z.id in Hk. done.
Qed.

End correctness.

(** ** Interning *)
Section interning.
Context {N : Type} `{EqDecision N, !Countable N}.
Implicit Types (t : Interner (N := N)) (adj : list (N * list N)).

Definition edge adj (x y : N) : Prop := ∃ targets, (x, targets) ∈ adj ∧ y ∈ targets.
Definition mentioned adj (x : N) : Prop := x ∈ adj.*1 ∨ ∃ y, edge adj y x.

Record interner_ok t : Prop := {
  t_nodup : NoDup (nodes t);
  t_ordinal : ∀ x i, ordinal_of t !! x = Some i ↔ nodes t !! i = Some x;
}.

(** [t'] extends [t] by nodes that satisfy [P]. *)
Definition extends t t' (P : N → Prop) : Prop :=
  nodes t `prefix_of` nodes t' ∧ ∀ x, x ∈ nodes t' ↔ x ∈ nodes t ∨ P x.

Lemma intern_ok x t :
  interner_ok t → interner_ok (snd (intern x t)) ∧ extends t (snd (intern x t)) (eq x) ∧
  nodes (snd (intern x t)) !! fst (intern x t) = Some x.
Proof.
  intros [Hnd Hord]. unfold intern. destruct (ordinal_of t !! x) as [i|] eqn:Hx; simpl.
  - split; [done|]. apply Hord in Hx. split; [|done]. split; [done|]. intros y. split; [by left|].
    intros [?|<-]; [done|]. by eapply list_elem_of_lookup_2.
  - assert (Hnew : x ∉ nodes t).
    { intros [i Hi]%list_elem_of_lookup. apply Hord in Hi. congruence. }
    split; [|split; [split|]]; simpl.
    + constructor; simpl.
      * apply NoDup_app. split; [done|]. split; [|apply NoDup_singleton]. by intros y Hy ->%list_elem_of_singleton.
      * intros y i. destruct (decide (y = x)) as [->|Hne].
        { rewrite lookup_insert_eq. split.
          - intros [= <-]. by rewrite lookup_app_r, Nat.sub_diag by lia.
          - intros Hi. apply lookup_app_Some in Hi as [Hi|[Hle Hi]].
            + apply list_elem_of_lookup_2 in Hi. done.
            + apply list_lookup_singleton_Some in Hi as [Hi _]. f_equal. lia. }
        rewrite lookup_insert_ne by done. rewrite Hord. rewrite lookup_app_Some. split; [by left|].
        intros [Hi|[Hle Hi]]; [done|]. apply list_lookup_singleton_Some in Hi as [_ Hi]. by subst.
    + by apply prefix_app_r.
    + intros y. rewrite elem_of_app, list_elem_of_singleton. naive_solver.
    + by rewrite lookup_app_r, Nat.sub_diag by lia.
Qed.

Lemma extends_trans t1 t2 t3 (P Q R : N → Prop) :
  extends t1 t2 P → extends t2 t3 Q → (∀ x, R x ↔ P x ∨ Q x) → extends t1 t3 R.
Proof.
  intros [H1 H1'] [H2 H2'] HR. split; [by etrans|]. intros x. rewrite H2', H1', HR. tauto.
Qed.

Lemma extends_lookup t t' P i x : extends t t' P → nodes t !! i = Some x → nodes t' !! i = Some x.
Proof. intros [Hp _] Hi. by eapply prefix_lookup_Some. Qed.

Lemma intern_all_ok xs t :
  interner_ok t → interner_ok (snd (intern_all xs t)) ∧ extends t (snd (intern_all xs t)) (λ x, x ∈ xs) ∧
  Forall2 (λ i x, nodes (snd (intern_all xs t)) !! i = Some x) (fst (intern_all xs t)) xs.
Proof.
  revert t. induction xs as [|x xs IH]; intros t Ht; simpl.
  - split; [done|]. split; [|constructor]. split; [done|]. intros y. rewrite elem_of_nil. tauto.
  - destruct (intern_ok x t Ht) as (Ht1 & He1 & Hi1). destruct (IH _ Ht1) as (Ht2 & He2 & Hi2).
    split; [done|]. split.
    + eapply extends_trans; [done|done|]. intros y. rewrite elem_of_cons. naive_solver.
    + constructor; [by eapply extends_lookup|done].
Qed.

(** The ordinal graph is the graph of the entries read so far. *)
Record interned adj t (edges : list (list nat)) : Prop := {
  n_ok : interner_ok t;
  n_length : (length edges <= length (nodes t))%nat;
  n_nodes : ∀ x, x ∈ nodes t ↔ mentioned adj x;
  n_arc : ∀ i x j, nodes t !! i = Some x →
    arc edges i j ↔ ∃ y, nodes t !! j = Some y ∧ edge adj x y;
}.

Lemma edge_snoc adj x ts u y :
  x ∉ adj.*1 → edge (adj ++ [(x, ts)]) u y ↔ (u ≠ x ∧ edge adj u y) ∨ (u = x ∧ y ∈ ts).
Proof.
  intros Hx. unfold edge. split.
  - intros (l & [Hin|Hin%list_elem_of_singleton]%elem_of_app & Hy).
    + left. split; [|by exists l]. intros ->. apply Hx. by apply (list_elem_of_fmap_2 fst) in Hin.
    + simplify_eq. by right.
  - intros [[_ (l & Hin & Hy)]|[-> Hy]]; [exists l|exists ts]; rewrite elem_of_app; split; auto.
    right. left.
Qed.

Lemma mentioned_snoc adj x ts y :
  x ∉ adj.*1 → mentioned (adj ++ [(x, ts)]) y ↔ mentioned adj y ∨ y = x ∨ y ∈ ts.
Proof.
  intros Hx. unfold mentioned. setoid_rewrite (edge_snoc adj x ts _ y Hx).
  rewrite fmap_app, elem_of_app. simpl. rewrite list_elem_of_singleton. split.
  - naive_solver.
  - intros [[?|[u Hu]]|[?|?]]; eauto. destruct (decide (u = x)) as [->|]; [|eauto].
    destruct Hu as (l & Hin & _). by apply (list_elem_of_fmap_2 fst) in Hin.
Qed.

Lemma edge_mentioned adj x y : edge adj x y → mentioned adj x ∧ mentioned adj y.
Proof.
  intros He. split; [left|right; by exists x]. destruct He as (l & Hin & _).
  by apply (list_elem_of_fmap_2 fst) in Hin.
Qed.

(** [edges[source] = targets], behind the resize that makes room for it. *)
Lemma arc_stored edges s ords i j :
  let resized := if (length edges <=? s)%nat then resize (S s) [] edges else edges in
  (s < length resized)%nat ∧
  (length resized <= length edges ∨ length resized = S s)%nat ∧
  (arc (<[s := ords]> resized) i j ↔ if decide (i = s) then j ∈ ords else arc edges i j).
Proof.
  intros resized.
  assert (Hl : (s < length resized)%nat ∧ (length resized <= length edges ∨ length resized = S s)%nat).
  { unfold resized. destruct (Nat.leb_spec (length edges) s); rewrite ?length_resize; lia. }
  destruct Hl as [Hs Hl]. split; [done|]. split; [done|]. unfold arc, targets_of.
  rewrite default_insert by done. case_decide as Hi; [done|].
  assert (default [] (resized !! i) = default [] (edges !! i)) as ->; [|done]. unfold resized.
  destruct (Nat.leb_spec (length edges) s) as [Hle|]; [|done].
  destruct (decide (i < length edges)%nat) as [Hil|Hil].
  - rewrite lookup_resize by lia. done.
  - rewrite (lookup_ge_None_2 edges) by lia. destruct (decide (i < S s)%nat).
    + by rewrite lookup_resize_new by lia.
    + by rewrite lookup_resize_old by lia.
Qed.

Lemma interned_step adj x ts t edges :
  interned adj t edges → x ∉ adj.*1 →
  let s := intern x t in
  let ords := intern_all ts (snd s) in
  let resized := if (length edges <=? fst s)%nat then resize (S (fst s)) [] edges else edges in
  vec_set resized (fst s) (fst ords) = Some (<[fst s := fst ords]> resized) ∧
  interned (adj ++ [(x, ts)]) (snd ords) (<[fst s := fst ords]> resized).
Proof.
  intros [Hok Hlen Hnodes Harc] Hx s ords resized.
  destruct (intern_ok x t Hok) as (Hok1 & He1 & Hi1). fold s in Hok1, He1, Hi1.
  destruct (intern_all_ok ts (snd s) Hok1) as (Hok2 & He2 & Hi2). fold ords in Hok2, He2, Hi2.
  assert (He : extends t (snd ords) (λ y, y = x ∨ y ∈ ts)).
  { eapply extends_trans; [done|done|]. naive_solver. }
  pose proof (extends_lookup _ _ _ _ _ He2 Hi1) as Hs.
  pose proof (λ i j, arc_stored edges (fst s) (fst ords) i j) as Hstored. fold resized in Hstored.
  destruct (Hstored O O) as (Hlt & Hle & _). split; [by apply vec_set_some|].
  assert (Hinj : ∀ i j y, nodes (snd ords) !! i = Some y → nodes (snd ords) !! j = Some y → i = j).
  { intros i j y H1 H2. by eapply NoDup_lookup; [apply Hok2|..]. }
  constructor; [done| | |].
  - rewrite length_insert. apply lookup_lt_Some in Hs. destruct He as [Hp _]. apply prefix_length in Hp. lia.
  - intros y. destruct He as [_ He]. rewrite He, mentioned_snoc, Hnodes by done. done.
  - intros i y j Hi. destruct (Hstored i j) as (_ & _ & ->). setoid_rewrite (edge_snoc adj x ts y _ Hx).
    case_decide as His.
    + subst i. assert (y = x) as -> by congruence. rewrite list_elem_of_lookup. split.
      * intros [k Hk]. destruct (Forall2_lookup_l _ _ _ _ _ Hi2 Hk) as (z & Hz & Hj). exists z.
        split; [done|]. right. split; [done|]. by eapply list_elem_of_lookup_2.
      * intros (z & Hj & [[? _]|[_ Hz]]); [done|]. apply list_elem_of_lookup in Hz as [k Hz].
        destruct (Forall2_lookup_r _ _ _ _ _ Hi2 Hz) as (j' & Hj' & Hz'). exists k.
        by rewrite (Hinj j j' z).
    + assert (Hyx : y ≠ x) by (intros ->; apply His; by eapply Hinj).
      destruct (nodes t !! i) as [y'|] eqn:Hit.
      * pose proof (extends_lookup _ _ _ _ _ He Hit). assert (y' = y) as -> by congruence.
        rewrite (Harc i y j Hit). split.
        { intros (z & Hj & Hedge). exists z. split; [by eapply extends_lookup|]. by left. }
        intros (z & Hj & [[_ Hedge]|[? _]]); [|done]. exists z. split; [|done].
        destruct (edge_mentioned _ _ _ Hedge) as [_ Hm]. apply Hnodes in Hm as [j' Hj']%list_elem_of_lookup.
        by rewrite (Hinj j j' z Hj (extends_lookup _ _ _ _ _ He Hj')).
      * apply lookup_ge_None in Hit. split.
        { unfold arc, targets_of. rewrite lookup_ge_None_2 by lia. by intros ?%elem_of_nil. }
        intros (z & Hj & [[_ Hedge]|[? _]]); [|done]. exfalso.
        destruct (edge_mentioned _ _ _ Hedge) as [Hm _]. apply Hnodes in Hm as [i' Hi']%list_elem_of_lookup.
        pose proof (Hinj i i' y Hi (extends_lookup _ _ _ _ _ He Hi')). apply lookup_lt_Some in Hi'. lia.
Qed.
Lemma arc_resized edges m i j :
  (length edges <= m)%nat → arc (resize m [] edges) i j ↔ arc edges i j.
Proof.
  intros Hm. unfold arc, targets_of. destruct (decide (i < length edges)%nat) as [Hi|Hi].
  - by rewrite lookup_resize by lia.
  - rewrite (lookup_ge_None_2 edges) by lia. destruct (decide (i < m)%nat).
    + by rewrite lookup_resize_new by lia.
    + by rewrite lookup_resize_old by lia.
Qed.

Lemma intern_edges_ok adj read t edges :
  interned read t edges → NoDup (read ++ adj).*1 →
  ∃ t' edges', intern_edges adj t edges = Some (t', edges') ∧ interned (read ++ adj) t' edges' ∧
    length edges' = length (nodes t').
Proof.
  revert read t edges. induction adj as [|[x ts] adj IH]; intros read t edges Hi Hnd.
  - exists t, (resize (length (nodes t)) [] edges). rewrite app_nil_r, length_resize. split; [done|].
    split; [|done]. destruct Hi as [Hok Hlen Hnodes Harc]. constructor; [done| |done|].
    + by rewrite length_resize.
    + intros i x j Hx. rewrite arc_resized by done. by apply Harc.
  - assert (Hx : x ∉ read.*1).
    { rewrite fmap_app in Hnd. apply NoDup_app in Hnd as (_ & Hd & _). intros Hin. apply (Hd x Hin). left. }
    destruct (interned_step read x ts t edges Hi Hx) as [Hset Hi']. simpl. rewrite Hset. simpl.
    destruct (IH _ _ _ Hi') as (t' & edges' & Hrun & Hr & Hl); [by rewrite <- app_assoc|].
    exists t', edges'. rewrite <- app_assoc in Hr. done.
Qed.

Lemma interned_empty : interned [] {| nodes := []; ordinal_of := ∅ |} [].
Proof.
  constructor; simpl.
  - constructor; [constructor|]. intros x i. simpl. rewrite lookup_empty, lookup_nil. done.
  - done.
  - intros x. unfold mentioned, edge. simpl. setoid_rewrite elem_of_nil. naive_solver.
  - intros i x j. by rewrite lookup_nil.
Qed.

(** ** Components by name *)

(** Every mention of a node, one per key and one per edge. *)
Definition mentions adj : list N := adj ≫= λ entry, fst entry :: snd entry.

Lemma mentioned_in_mentions adj x : mentioned adj x → x ∈ mentions adj.
Proof.
  unfold mentions. rewrite list_elem_of_bind. intros [Hx|(y & ts & Hin & Hx)].
  - apply list_elem_of_fmap in Hx as (e & -> & He). exists e. split; [left|done].
  - exists (y, ts). split; [by right|done].
Qed.

(** The components of [adj] in reverse topological order: a partition of the
    nodes into the classes of mutual reachability, in which an edge leads into
    its own component or into an earlier one. *)
Definition components adj (sccs : list (list N)) : Prop :=
  NoDup (concat sccs) ∧ (∀ x, x ∈ concat sccs ↔ mentioned adj x) ∧
  ∀ a c b, sccs = a ++ c :: b →
    c ≠ [] ∧
    ∀ x, x ∈ c → (∀ y, y ∈ c ↔ rtc (edge adj) x y ∧ rtc (edge adj) y x) ∧
                 (∀ y, edge adj x y → y ∈ c ∨ y ∈ concat a).

Lemma sccs_exact edges out a c b u x :
  ordered_sccs edges out → NoDup (concat out) → out = a ++ c :: b → u ∈ c →
  x ∈ c ↔ rtc (arc edges) u x ∧ rtc (arc edges) x u.
Proof.
  intros Ho Hnd -> Hu. split.
  - intros Hx. destruct (Ho a c b eq_refl) as [_ Hc]. split; apply Hc; done.
  - assert (Hclosed : ∀ d, (∃ e, a ++ c :: b = d ++ e) → ∀ w y, w ∈ concat d → rtc (arc edges) w y → y ∈ concat d).
    { intros d [e Hd] w y Hw Hr. induction Hr as [w|w z y Harc _ IH]; [done|]. apply IH.
      apply elem_of_concat in Hw as (l & Hwl & Hl). apply list_elem_of_split in Hl as (d1 & d2 & ->).
      destruct (Ho d1 l (d2 ++ e)) as [_ Hc]; [by rewrite Hd, <- app_assoc|].
      destruct (Hc w Hwl) as [Hz _]. rewrite concat_app. simpl. set_solver. }
    intros [Hux Hxu].
    assert (Hx : x ∈ concat (a ++ [c])).
    { apply (Hclosed (a ++ [c])) with u; [exists b; by rewrite <- app_assoc| |done].
      rewrite concat_app. simpl. set_solver. }
    rewrite concat_app in Hx. simpl in Hx. rewrite app_nil_r in Hx.
    apply elem_of_app in Hx as [Hx|Hx]; [exfalso|done].
    assert (Hua : u ∈ concat a) by (apply (Hclosed a (ex_intro _ (c :: b) eq_refl) x); done).
    rewrite concat_app in Hnd. apply NoDup_app in Hnd as (_ & Hd & _). apply (Hd u Hua). simpl. set_solver.
Qed.

Lemma Forall2_concat {A B} (R : A → B → Prop) l k :
  Forall2 (Forall2 R) l k → Forall2 R (concat l) (concat k).
Proof. induction 1; simpl; [constructor|by apply Forall2_app]. Qed.

Lemma NoDup_named (names : list N) ords xs :
  NoDup ords → NoDup names → Forall2 (λ i x, names !! i = Some x) ords xs → NoDup xs.
Proof.
  intros Hnd Hn. induction 1 as [|i x ords xs Hx Hf IH]; [constructor|].
  apply NoDup_cons in Hnd as [Hi Hnd]. apply NoDup_cons. split; [|by apply IH].
  intros Hin. apply list_elem_of_lookup in Hin as [k Hk].
  destruct (Forall2_lookup_r _ _ _ _ _ Hf Hk) as (i' & Hi' & Hx'). apply Hi.
  rewrite (NoDup_lookup names i i' x Hn Hx Hx'). by eapply list_elem_of_lookup_2.
Qed.

Section transfer.
Context (adj : list (N * list N)) (t : Interner (N := N)) (edges : list (list nat))
  (Hin : interned adj t edges) (Hlen : length edges = length (nodes t)).

Lemma arc_names i j :
  arc edges i j ↔ ∃ x y, nodes t !! i = Some x ∧ nodes t !! j = Some y ∧ edge adj x y.
Proof.
  split.
  - intros Harc. destruct (nodes t !! i) as [x|] eqn:Hi.
    + destruct (proj1 (n_arc _ _ _ Hin i x j Hi) Harc) as (y & Hj & He). by exists x, y.
    + exfalso. apply lookup_ge_None in Hi. unfold arc, targets_of in Harc.
      rewrite lookup_ge_None_2 in Harc by lia. by apply elem_of_nil in Harc.
  - intros (x & y & Hi & Hj & He). apply (n_arc _ _ _ Hin i x j Hi). by exists y.
Qed.

Lemma rtc_names i j x y :
  nodes t !! i = Some x → nodes t !! j = Some y → rtc (arc edges) i j ↔ rtc (edge adj) x y.
Proof.
  intros Hi Hj. split.
  - intros Hr. revert x Hi. induction Hr as [i|i k j Harc Hr IH]; intros x Hi; [simplify_eq; done|].
    apply arc_names in Harc as (x' & z & Hi' & Hk & He). simplify_eq. eapply rtc_l; [done|]. by apply IH.
  - intros Hr. revert i Hi. induction Hr as [x|x z y He Hr IH]; intros i Hi.
    + rewrite (NoDup_lookup (nodes t) i j x) by (done || apply Hin). done.
    + destruct (edge_mentioned _ _ _ He) as [_ Hz]. apply (n_nodes _ _ _ Hin) in Hz as [k Hk]%list_elem_of_lookup.
      apply rtc_l with k; [apply arc_names; by exists x, z|]. by apply IH.
Qed.

Lemma edge_ordinal x y : edge adj x y → ∃ j, nodes t !! j = Some y.
Proof. intros [_ Hy]%edge_mentioned. by apply list_elem_of_lookup, (n_nodes _ _ _ Hin). Qed.

Lemma reached_ordinal i x y : nodes t !! i = Some x → rtc (edge adj) x y → ∃ j, nodes t !! j = Some y.
Proof.
  intros Hi Hr. revert i Hi. induction Hr as [x|x z y He _ IH]; intros i Hi; [by exists i|].
  destruct (edge_ordinal x z He) as [k Hk]. by apply (IH k).
Qed.

Lemma components_named out sccs :
  named (nodes t) out sccs → ordered_sccs edges out → NoDup (concat out) →
  (∀ u, u ∈ concat out ↔ (u < length edges)%nat) → components adj sccs.
Proof.
  intros Hn Ho Hnd Hall. pose proof (Forall2_concat _ _ _ Hn) as Hcat. split; [|split].
  - eapply NoDup_named; [done|apply Hin|done].
  - intros x. rewrite <- (n_nodes _ _ _ Hin). split.
    + intros [k Hk]%list_elem_of_lookup. destruct (Forall2_lookup_r _ _ _ _ _ Hcat Hk) as (i & _ & Hi).
      by eapply list_elem_of_lookup_2.
    + intros [i Hi]%list_elem_of_lookup. assert (Hio : i ∈ concat out).
      { apply Hall. apply lookup_lt_Some in Hi. lia. }
      apply list_elem_of_lookup in Hio as [k Hk]. destruct (Forall2_lookup_l _ _ _ _ _ Hcat Hk) as (x' & Hx & Hi').
      simplify_eq. by eapply list_elem_of_lookup_2.
  - intros a c b ->. apply Forall2_app_inv_r in Hn as (a' & k & Ha & Hk & ->).
    apply Forall2_cons_inv_r in Hk as (c' & b' & Hc & Hb & ->).
    destruct (Ho a' c' b' eq_refl) as [Hne Hc'].
    split; [intros ->; by apply Forall2_nil_inv_r in Hc|].
    assert (Hmem : ∀ y j, nodes t !! j = Some y → y ∈ c ↔ j ∈ c').
    { intros y j Hj. split; intros [k Hk]%list_elem_of_lookup.
      - destruct (Forall2_lookup_r _ _ _ _ _ Hc Hk) as (j' & Hj' & Hy).
        rewrite (NoDup_lookup (nodes t) j j' y) by (done || apply Hin). by eapply list_elem_of_lookup_2.
      - destruct (Forall2_lookup_l _ _ _ _ _ Hc Hk) as (y' & Hy' & Hy). simplify_eq. by eapply list_elem_of_lookup_2. }
    intros x Hx. pose proof Hx as [k Hk]%list_elem_of_lookup. destruct (Forall2_lookup_r _ _ _ _ _ Hc Hk) as (i & Hi & Hix).
    apply list_elem_of_lookup_2 in Hi.
    assert (Ha' : ∀ y j, nodes t !! j = Some y → j ∈ concat a' → y ∈ concat a).
    { intros y j Hj [k' Hk']%list_elem_of_lookup.
      destruct (Forall2_lookup_l _ _ _ _ _ (Forall2_concat _ _ _ Ha) Hk') as (y' & Hy' & Hy). simplify_eq.
      by eapply list_elem_of_lookup_2. }
    pose proof (λ j, sccs_exact edges _ a' c' b' i j Ho Hnd eq_refl Hi) as Hex.
    assert (Hcore : ∀ y j, nodes t !! j = Some y → y ∈ c ↔ rtc (edge adj) x y ∧ rtc (edge adj) y x).
    { intros y j Hj. by rewrite (Hmem y j Hj), Hex, (rtc_names i j x y), (rtc_names j i y x). }
    split.
    + intros y. split.
      * intros Hy. pose proof Hy as [k' Hk']%list_elem_of_lookup.
        destruct (Forall2_lookup_r _ _ _ _ _ Hc Hk') as (j & _ & Hjy). by apply (Hcore y j Hjy).
      * intros [H1 H2]. destruct (reached_ordinal i x y Hix H1) as [j Hj]. by apply (Hcore y j Hj).
    + intros y He. destruct (edge_ordinal x y He) as [j Hj]. destruct (Hc' i Hi) as [Harcs _].
      destruct (Harcs j) as [Hin'|Hin']; [apply arc_names; by exists x, y|left; by apply (Hmem y j Hj)|right; eauto].
Qed.
End transfer.

(** ** The entry points *)
Lemma checked_run {E} adj (checkpoint : nat → result unit E) :
  NoDup adj.*1 → zlen (mentions adj) <= UNVISITED →
  let run := tarjan_scc_checked adj checkpoint in
  (∃ sccs, run = Some (Ok sccs) ∧ components adj sccs ∧
     ∀ k, (k < length (concat sccs))%nat → checkpoint k = Ok tt) ∨
  (∃ k error names, run = Some (Err error) ∧ checkpoint k = Err error ∧
     (∀ j, (j < k)%nat → checkpoint j = Ok tt) ∧
     NoDup names ∧ (∀ x, x ∈ names ↔ mentioned adj x) ∧ (k < length names)%nat).
Proof.
  intros Hnd Hfit. unfold tarjan_scc_checked.
  destruct (intern_edges_ok adj [] _ _ interned_empty Hnd) as (t & edges & Hrun & Hin & Hlen).
  rewrite Hrun. simpl in Hin |- *. rewrite <- Hlen.
  assert (Hsub : (length (nodes t) <= length (mentions adj))%nat).
  { apply submseteq_length, NoDup_submseteq; [apply Hin|]. intros x Hx.
    apply mentioned_in_mentions. by apply (n_nodes _ _ _ Hin). }
  destruct (visit_all (nodes t) edges checkpoint) as [(sccs & out & Hv & Hn & Ho & Hno & Hall & [_ Hk])|Hr].
  - done.
  - unfold zlen in Hfit. lia.
  - intros u x Harc. apply (arc_names adj t edges Hin Hlen) in Harc as (_ & y & _ & Hy & _).
    apply lookup_lt_Some in Hy. lia.
  - left. exists sccs. split; [done|]. split; [by eapply components_named|]. intros k Hlk. apply Hk.
    rewrite <- (Forall2_length _ _ _ (Forall2_concat _ _ _ Hn)) in Hlk.
    pose proof (NoDup_below _ (length edges) Hno (λ u Hu, proj1 (Hall u) Hu)). lia.
  - right. destruct Hr as (k & error & Hv & Hc & [_ Hk] & Hlt). exists k, error, (nodes t).
    split_and!; try done; [intros j Hj; apply Hk; lia|apply Hin|apply Hin|lia].
Qed.

Lemma adj_get_spec adj x ts : NoDup adj.*1 → adj_get x adj = Some ts ↔ (x, ts) ∈ adj.
Proof.
  unfold adj_get. induction adj as [|[y l] adj IH]; intros Hnd; simpl.
  - rewrite elem_of_nil. naive_solver.
  - apply NoDup_cons in Hnd as [Hy Hnd]. rewrite elem_of_cons. case_bool_decide as Hyx; simpl in *.
    + subst y. split; [naive_solver|]. intros [?|Hin]; [naive_solver|].
      apply (list_elem_of_fmap_2 fst) in Hin. done.
    + rewrite (IH Hnd). naive_solver.
Qed.

Lemma rtc_tc_ne {A} (R : relation A) x y : rtc R x y → x ≠ y → tc R x y.
Proof. intros [?|?]%rtc_tc Hne; done. Qed.

Lemma cyclic_component adj sccs c :
  NoDup adj.*1 → components adj sccs → c ∈ sccs →
  is_cyclic_scc c adj = true ↔ ∃ x, x ∈ c ∧ tc (edge adj) x x.
Proof.
  intros Hadj (Hnd & _ & Hc) Hin. apply list_elem_of_split in Hin as (a & b & ->).
  destruct (Hc a c b eq_refl) as [Hne Hcls]. rewrite concat_app in Hnd. simpl in Hnd.
  apply NoDup_app in Hnd as (_ & _ & Hnd). apply NoDup_app in Hnd as (Hnd & _). unfold is_cyclic_scc.
  destruct c as [|x [|y c]]; [done| |]; simpl.
  - destruct (Hcls x) as [Hx _]; [left|]. trans (edge adj x x).
    + unfold edge. destruct (adj_get x adj) as [ts|] eqn:Hget.
      * rewrite bool_decide_eq_true. apply (adj_get_spec adj x ts Hadj) in Hget. split; [by exists ts|].
        intros (ts' & Hin & Hx'). apply (adj_get_spec adj x ts' Hadj) in Hin.
        apply (adj_get_spec adj x ts Hadj) in Hget. by simplify_eq.
      * split; [done|]. intros (ts & Hin & _). apply (adj_get_spec adj x ts Hadj) in Hin. congruence.
    + split; [intros He; exists x; split; [left|by apply tc_once]|].
      intros (x' & ->%list_elem_of_singleton & Ht). inversion Ht as [? ? He|? z ? He Ht']; subst; [done|].
      assert (Hz : z ∈ [x]) by (apply Hx; split; [by apply rtc_once|by apply tc_rtc]).
      apply list_elem_of_singleton in Hz as ->. done.
  - split; [intros _|done]. exists x. split; [left|].
    destruct (Hcls x) as [Hx _]; [left|]. destruct (proj1 (Hx y)) as [H1 H2]; [right; left|].
    apply NoDup_cons in Hnd as [Hxy _]. apply not_elem_of_cons in Hxy as [Hxy _].
    eapply tc_rtc_l; [done|]. apply rtc_tc_ne; congruence.
Qed.

Lemma tarjan_run adj :
  NoDup adj.*1 → zlen (mentions adj) <= UNVISITED → ∃ sccs, tarjan_scc adj = Some sccs ∧ components adj sccs.
Proof.
  intros Hnd Hfit. unfold tarjan_scc.
  destruct (checked_run (E := Empty_set) adj (λ _, Ok tt) Hnd Hfit)
    as [(sccs & -> & Hc & _)|(k & error & _)]; [by exists sccs|destruct error].
Qed.

(** C3. On every graph, in every iteration order, the iterative traversal ends
    without a panic and returns the strongly connected components: a partition
    of the mentioned nodes into the classes of mutual reachability, in reverse
    topological order, of which exactly those with a cycle pass the test for
    genuine cycles. *)
Theorem tarjan_scc_finds_the_components adj :
  NoDup adj.*1 → zlen (mentions adj) <= UNVISITED →
  ∃ sccs, tarjan_scc adj = Some sccs ∧ components adj sccs ∧
    ∀ c, c ∈ sccs → is_cyclic_scc c adj = true ↔ ∃ x, x ∈ c ∧ tc (edge adj) x x.
Proof.
  intros Hnd Hfit. destruct (tarjan_run adj Hnd Hfit) as (sccs & Hrun & Hc).
  exists sccs. split; [done|]. split; [done|]. intros c Hin. by eapply cyclic_component.
Qed.

(** A cancellable run asks its authority once per discovered node and
    reports nothing as soon as one answer is a cancellation: it returns the
    components when the first answers, one per node, are negative, and the
    cancellation otherwise, however much of the graph was traversed. *)
Lemma cancellable_run adj cancelled :
  NoDup adj.*1 → zlen (mentions adj) <= UNVISITED →
  (∃ sccs, tarjan_scc_cancellable adj cancelled = Some (Ok sccs) ∧ components adj sccs ∧
     ∀ k, (k < length (concat sccs))%nat → cancelled k = false) ∨
  (∃ k names, tarjan_scc_cancellable adj cancelled = Some (Err SccCancelledError) ∧
     cancelled k = true ∧ (∀ j, (j < k)%nat → cancelled j = false) ∧
     NoDup names ∧ (∀ x, x ∈ names ↔ mentioned adj x) ∧ (k < length names)%nat).
Proof.
  intros Hnd Hfit. unfold tarjan_scc_cancellable.
  assert (Hok : ∀ k, (if cancelled k then Err SccCancelledError else Ok tt) = Ok tt → cancelled k = false)
    by (intros k; by destruct (cancelled k)).
  destruct (checked_run adj (λ k, if cancelled k then Err SccCancelledError else Ok tt) Hnd Hfit)
    as [(sccs & Hrun & Hc & Hk)|(k & error & names & Hrun & Hck & Hk & Hrest)]; [left|right].
  - exists sccs. split; [done|]. split; [done|]. auto.
  - exists k, names. destruct error. split; [done|]. split; [by destruct (cancelled k)|]. split; [auto|done].
Qed.

End interning.

(** ** A sample graph *)
Definition sample_graph : list (nat * list nat) :=
  [(1, [2]); (2, [3; 4]); (3, [1]); (4, [5]); (5, [4; 6]); (7, [7])]%nat.

Lemma sample_graph_ok : NoDup sample_graph.*1 ∧ zlen (mentions sample_graph) <= UNVISITED.
Proof. split; [by apply (bool_decide_unpack (NoDup sample_graph.*1)); vm_compute|by vm_compute]. Qed.

Lemma tarjan_scc_finds_the_components_witness :
  tarjan_scc sample_graph = Some [[6]; [5; 4]; [3; 2; 1]; [7]]%nat ∧
  components sample_graph [[6]; [5; 4]; [3; 2; 1]; [7]]%nat.
Proof.
  destruct sample_graph_ok as [Hnd Hfit].
  destruct (tarjan_scc_finds_the_components sample_graph Hnd Hfit) as (sccs & Hrun & Hc & _).
  assert (Heq : tarjan_scc sample_graph = Some [[6]; [5; 4]; [3; 2; 1]; [7]]%nat) by (vm_compute; reflexivity).
  rewrite Hrun in Heq. injection Heq as ->. split; [exact Hrun|exact Hc].
Defined.
