(* ===== verification/GraphHealth.v ===== *)
(** * Cycles and dependency depth of a file graph

    What [tracedecay-graph-query] builds on the strongly connected components:
    the report of circular dependencies of [src/queries.rs], the number of edges
    that [acyclicity_score] of [src/health.rs] counts as edges in cycles, and
    the longest dependency chains of [dependency_depth].  The quotient of the
    score and the ideal depth, a floating-point logarithm, are left out, as is
    the reader that supplies the adjacency.

    As in [GraphScc], maps are lists in iteration order and [None] is a panic.
    A [HashSet] that the code builds is the list of its elements without
    repetition; [iteration s l] is the order in which the set [l] of component
    [s] is iterated, an arbitrary permutation. *)
From stdpp Require Import base numbers strings relations gmap list sorting.
From S2P Require Import Prelude.
From S2P Require Import RustText.
From S2P Require Import GraphScc.
#[local] Open Scope nat_scope.

Definition FileGraph : Type := list (rstr * list rstr).

(** ** Circular dependencies *)
Definition find_circular_dependencies (adjacency : FileGraph) (cancelled : nat → bool) :
    option (result (list (list rstr)) SccCancelled) :=
  match tarjan_scc_cancellable adjacency cancelled with
  | None => None
  | Some (Err error) => Some (Err error)
  | Some (Ok components) =>
    Some (Ok (sort_by (cmp_leb str_compare) <$>
                List.filter (λ component, is_cyclic_scc component adjacency) components))
  end.

(** ** Edges in cycles *)
Definition in_cycle (sccs : list (list rstr)) : gset rstr :=
  list_to_set (concat (List.filter (λ scc, 1 <? length scc) sccs)).

(** The second component of the pair of [acyclicity_score]. *)
Definition edges_in_cycles (adj : FileGraph) : option nat :=
  if sum_list_with (λ entry, length (snd entry)) adj =? 0 then Some 0
  else
    sccs ← tarjan_scc adj;
    let cyclic := in_cycle sccs in
    Some (sum_list_with
            (λ entry, length (List.filter (λ target, bool_decide (target ∈ cyclic)) (snd entry)))
            (List.filter (λ entry, bool_decide (fst entry ∈ cyclic)) adj)).

(** ** Dependency depth *)
Record DepthChain : Type := {
  file : rstr;
  scc_files : list rstr;
  depth : nat;
  chain : list rstr;
}.

Record DepthResult : Type := { max_depth : nat; chains : list DepthChain }.

(** [node_to_scc]. *)
Fixpoint number_nodes (idx : nat) (sccs : list (list rstr)) (m : gmap rstr nat) : gmap rstr nat :=
  match sccs with
  | [] => m
  | scc :: sccs => number_nodes (S idx) sccs (foldl (λ m node, <[node := idx]> m) m scc)
  end.

(** [scc_adj.entry(source).or_default().insert(target)]. *)
Definition scc_insert (source target : nat) (m : gmap nat (list nat)) : gmap nat (list nat) :=
  let set := default [] (m !! source) in
  <[source := if decide (target ∈ set) then set else set ++ [target]]> m.

Fixpoint scc_targets (node_to_scc : gmap rstr nat) (source : nat) (targets : list rstr)
    (m : gmap nat (list nat)) : option (gmap nat (list nat)) :=
  match targets with
  | [] => Some m
  | target :: targets =>
    t ← node_to_scc !! target;
    scc_targets node_to_scc source targets (if decide (source = t) then m else scc_insert source t m)
  end.

Fixpoint scc_edges (node_to_scc : gmap rstr nat) (adj : FileGraph) (m : gmap nat (list nat)) :
    option (gmap nat (list nat)) :=
  match adj with
  | [] => Some m
  | (source, targets) :: adj =>
    s ← node_to_scc !! source;
    m ← scc_targets node_to_scc s targets m;
    scc_edges node_to_scc adj m
  end.

(** [for &tgt in targets { in_degree[tgt] += 1 }]. *)
Fixpoint count_targets (targets : list nat) (in_degree : list nat) : option (list nat) :=
  match targets with
  | [] => Some in_degree
  | tgt :: targets =>
    d ← in_degree !! tgt;
    in_degree ← vec_set in_degree tgt (S d);
    count_targets targets in_degree
  end.

Section condensation.
Context (iteration : nat → list nat → list nat) (scc_adj : gmap nat (list nat)).

(** [scc_adj.get(&node)], iterated. *)
Definition neighbors (node : nat) : list nat :=
  match scc_adj !! node with Some set => iteration node set | None => [] end.

(** The turn of the queue loop for one node: its neighbors lose one incoming
    edge, and those without any left are queued. *)
Fixpoint release (nbs : list nat) (queue in_degree : list nat) : option (list nat * list nat) :=
  match nbs with
  | [] => Some (queue, in_degree)
  | nb :: nbs =>
    d ← in_degree !! nb;
    match d with
    | O => None
    | S d =>
      in_degree ← vec_set in_degree nb d;
      release nbs (if d =? 0 then queue ++ [nb] else queue) in_degree
    end
  end.

Fixpoint topo_loop (fuel : nat) (queue in_degree topo_order : list nat) : option (list nat) :=
  match fuel with
  | O => None
  | S fuel =>
    match queue with
    | [] => Some topo_order
    | node :: queue =>
      r ← release (neighbors node) queue in_degree;
      topo_loop fuel (fst r) (snd r) (topo_order ++ [node])
    end
  end.

(** The longest-path update along the edges of [u]; a predecessor of
    [usize::MAX] is [None]. *)
Fixpoint relax (u : nat) (nbs : list nat) (dist : list nat) (pred : list (option nat)) :
    option (list nat * list (option nat)) :=
  match nbs with
  | [] => Some (dist, pred)
  | v :: nbs =>
    du ← dist !! u;
    dv ← dist !! v;
    if dv <? du + 1 then
      dist ← vec_set dist v (du + 1);
      pred ← vec_set pred v (Some u);
      relax u nbs dist pred
    else relax u nbs dist pred
  end.

Fixpoint relax_all (order : list nat) (dist : list nat) (pred : list (option nat)) :
    option (list nat * list (option nat)) :=
  match order with
  | [] => Some (dist, pred)
  | u :: order =>
    r ← relax u (neighbors u) dist pred;
    relax_all order (fst r) (snd r)
  end.
End condensation.

(** The predecessors of a component, from itself to a source. *)
Fixpoint chain_loop (fuel : nat) (pred : list (option nat)) (cur : nat) (acc : list nat) :
    option (list nat) :=
  match fuel with
  | O => None
  | S fuel =>
    p ← pred !! cur;
    match p with
    | None => Some (acc ++ [cur])
    | Some p => chain_loop fuel pred p (acc ++ [cur])
    end
  end.

(** [iter().min()], and the comparison of two options. *)
Definition str_min (l : list rstr) : option rstr :=
  match l with
  | [] => None
  | x :: l => Some (foldl (λ m y, match str_compare y m with Lt => y | _ => m end) x l)
  end.

Definition opt_compare (a b : option rstr) : comparison :=
  match a, b with
  | Some a, Some b => str_compare a b
  | Some _, None => Gt
  | None, Some _ => Lt
  | None, None => Eq
  end.

Definition rank_compare (sccs : list (list rstr)) (dist : list nat) (left right : nat) : comparison :=
  then_with (Nat.compare (default 0 (dist !! right)) (default 0 (dist !! left)))
    (opt_compare (str_min (default [] (sccs !! left))) (str_min (default [] (sccs !! right)))).

Definition depth_chain (sccs : list (list rstr)) (dist : list nat) (pred : list (option nat))
    (scc_idx : nat) : option DepthChain :=
  d ← dist !! scc_idx;
  chain_sccs ← chain_loop (S (length sccs)) pred scc_idx [];
  names ← mapM (λ si, scc ← sccs !! si; scc !! 0) (reverse chain_sccs);
  scc ← sccs !! scc_idx;
  let sorted := sort_by (cmp_leb str_compare) scc in
  representative ← sorted !! 0;
  Some {| file := representative; scc_files := sorted; depth := d; chain := names |}.

Section dependency_depth.
Context (iteration : nat → list nat → list nat).

Definition dependency_depth (adj : FileGraph) (limit : nat) : option DepthResult :=
  let file_count := size (list_to_set (mentions adj) : gset rstr) in
  if file_count =? 0 then Some {| max_depth := 0; chains := [] |}
  else
    sccs ← tarjan_scc adj;
    let node_to_scc := number_nodes 0 sccs ∅ in
    let scc_count := length sccs in
    scc_adj ← scc_edges node_to_scc adj ∅;
    in_degree ← count_targets (concat (snd <$> map_to_list scc_adj)) (replicate scc_count 0);
    let queue := List.filter (λ i, default 0 (in_degree !! i) =? 0) (seq 0 scc_count) in
    topo_order ← topo_loop iteration scc_adj (S scc_count) queue in_degree [];
    r ← relax_all iteration scc_adj topo_order (replicate scc_count 0) (replicate scc_count None);
    let dist := fst r in
    let ranked_sccs := take limit (sort_by (cmp_leb (rank_compare sccs dist)) (seq 0 scc_count)) in
    results ← mapM (depth_chain sccs dist (snd r)) ranked_sccs;
    Some {| max_depth := foldr Nat.max 0 dist; chains := results |}.
End dependency_depth.

(** ** Generic facts *)
Lemma filter_agree {A} (P Q : A → Prop) `{∀ x, Decision (P x), ∀ x, Decision (Q x)} (l : list A) :
  (∀ x, x ∈ l → P x ↔ Q x) → filter P l = filter Q l.
Proof.
  induction l as [|x l IH]; intros Hpq; [done|]. rewrite !filter_cons.
  rewrite IH by (intros y Hy; apply Hpq; by right). specialize (Hpq x ltac:(left)).
  destruct (decide (P x)), (decide (Q x)); tauto.
Qed.

Lemma sorted_files l :
  sort_by (cmp_leb str_compare) l ≡ₚ l ∧ StronglySorted (leb_rel (cmp_leb str_compare)) (sort_by (cmp_leb str_compare) l).
Proof.
  split; [apply sort_by_perm|]. apply sort_by_sorted; [apply (cmp_leb_total str_compare)|apply (cmp_leb_trans str_compare)].
Qed.

Lemma concat_filter_sublist {A} (p : list A → bool) (l : list (list A)) :
  concat (List.filter p l) `sublist_of` concat l.
Proof.
  induction l as [|c l IH]; [done|]. simpl. destruct (p c); simpl; [by apply sublist_app|by apply sublist_inserts_l].
Qed.

(** ** Topological order *)
Section topological.
Context (iteration : nat → list nat → list nat) (scc_adj : gmap nat (list nat)) (n : nat).
#[local] Abbreviation nbrs := (neighbors iteration scc_adj).
Context (Hnodup : ∀ u, NoDup (nbrs u)) (Hdown : ∀ u v, v ∈ nbrs u → v < u ∧ u < n).

(** The edges into [v] from components outside [done]. *)
Definition pending (done : list nat) (v : nat) : nat :=
  length (filter (λ u, (u ∉ done) ∧ v ∈ nbrs u) (seq 0 n)).

Lemma pending_zero done v : pending done v = 0 ↔ ∀ u, v ∈ nbrs u → u ∈ done.
Proof.
  unfold pending. split.
  - intros Hz u Hv. destruct (decide (u ∈ done)) as [|Hno]; [done|]. exfalso.
    apply length_zero_iff_nil in Hz. assert (Hin : u ∈ ([] : list nat)); [|by apply elem_of_nil in Hin].
    rewrite <- Hz. apply list_elem_of_filter. split; [done|]. apply elem_of_seq. destruct (Hdown u v Hv). lia.
  - intros Hall. destruct (filter _ _) as [|u l] eqn:E; [done|]. exfalso.
    assert (Hin : u ∈ filter (λ u, (u ∉ done) ∧ v ∈ nbrs u) (seq 0 n)) by (rewrite E; left).
    apply list_elem_of_filter in Hin as [[Hno Hv] _]. auto.
Qed.

Lemma pending_step done node v :
  node ∉ done → node < n →
  pending done v = pending (done ++ [node]) v + (if decide (v ∈ nbrs node) then 1 else 0).
Proof.
  intros Hno Hn. unfold pending.
  assert (Hmem : ∀ u, u ∈ filter (λ u, (u ∉ done) ∧ v ∈ nbrs u) (seq 0 n) ↔
    (u = node ∧ v ∈ nbrs node) ∨ u ∈ filter (λ u, (u ∉ done ++ [node]) ∧ v ∈ nbrs u) (seq 0 n)).
  { intros u. rewrite !list_elem_of_filter, not_elem_of_app, list_elem_of_singleton, elem_of_seq.
    destruct (decide (u = node)) as [->|]; [|naive_solver]. split; [naive_solver lia|]. intros [[_ ?]|?]; [|naive_solver].
    split; [done|lia]. }
  assert (Hnd : NoDup (filter (λ u, (u ∉ done) ∧ v ∈ nbrs u) (seq 0 n))) by apply NoDup_filter, NoDup_seq.
  assert (Hnd' : NoDup (filter (λ u, (u ∉ done ++ [node]) ∧ v ∈ nbrs u) (seq 0 n))) by apply NoDup_filter, NoDup_seq.
  case_decide as Hv.
  - rewrite Nat.add_1_r. change (S (length ?l)) with (length (node :: l)). apply Permutation_length, NoDup_Permutation.
    + done.
    + apply NoDup_cons. split; [|done]. rewrite list_elem_of_filter, not_elem_of_app, list_elem_of_singleton. naive_solver.
    + intros u. rewrite Hmem, elem_of_cons. naive_solver.
  - rewrite Nat.add_0_r. apply Permutation_length, NoDup_Permutation; [done|done|]. intros u. rewrite Hmem. naive_solver.
Qed.

Lemma release_ok nbs queue indeg :
  NoDup nbs → (∀ v, v ∈ nbs → ∃ d, indeg !! v = Some (S d)) →
  ∃ indeg', release nbs queue indeg = Some (queue ++ filter (λ v, indeg !! v = Some 1) nbs, indeg') ∧
    ∀ v, indeg' !! v = (λ d, if decide (v ∈ nbs) then d - 1 else d) <$> indeg !! v.
Proof.
  revert queue indeg. induction nbs as [|x nbs IH]; intros queue indeg Hnd Hpos.
  - exists indeg. rewrite app_nil_r. split; [done|]. intros v. by destruct (indeg !! v).
  - apply NoDup_cons in Hnd as [Hx Hnd]. destruct (Hpos x) as [d Hd]; [left|].
    assert (Hlt : x < length indeg) by (by apply lookup_lt_Some in Hd).
    assert (Hother : ∀ v, v ≠ x → <[x := d]> indeg !! v = indeg !! v) by (intros v Hv; by apply list_lookup_insert_ne).
    destruct (IH (if d =? 0 then queue ++ [x] else queue) (<[x := d]> indeg) Hnd) as (indeg' & Hrun & Hl).
    { intros v Hv. rewrite Hother by (by intros ->). apply Hpos. by right. }
    simpl. rewrite Hd. simpl. rewrite vec_set_some by done. simpl. rewrite Hrun. exists indeg'. split.
    + f_equal. f_equal. assert (filter (λ v, <[x := d]> indeg !! v = Some 1) nbs = filter (λ v, indeg !! v = Some 1) nbs) as ->.
      { apply filter_agree. intros v Hv. by rewrite Hother by (by intros ->). }
      rewrite filter_cons. destruct (Nat.eqb_spec d 0) as [->|Hd0].
      * rewrite decide_True by done. by rewrite <- app_assoc.
      * rewrite decide_False; [done|]. rewrite Hd. congruence.
    + intros v. rewrite Hl. destruct (decide (v = x)) as [->|Hv].
      * rewrite list_lookup_insert_eq, Hd by done. simpl. rewrite decide_False, decide_True by (done || left). f_equal. lia.
      * rewrite Hother by done. destruct (indeg !! v) as [e|]; [|done]. simpl. f_equal.
        destruct (decide (v ∈ nbs)); [rewrite decide_True by (by right)|rewrite decide_False by (by intros [->|?]%elem_of_cons)]; done.
Qed.

(** The state of the queue loop. *)
Record queue_ok (queue indeg topo : list nat) : Prop := {
  q_nodup : NoDup (topo ++ queue);
  q_degree : ∀ v, v < n → indeg !! v = Some (pending topo v);
  q_free : ∀ v, v ∈ topo ++ queue ↔ v < n ∧ pending topo v = 0;
  q_order : ∀ a v b, topo = a ++ v :: b → ∀ u, v ∈ nbrs u → u ∈ a;
}.

Lemma queue_step node queue indeg topo :
  queue_ok (node :: queue) indeg topo →
  ∃ queue' indeg', release (nbrs node) queue indeg = Some (queue', indeg') ∧
    queue_ok queue' indeg' (topo ++ [node]).
Proof.
  intros [Hnd Hdeg Hfree Hord].
  assert (Hnode : node < n ∧ pending topo node = 0) by (apply Hfree, elem_of_app; right; left).
  destruct Hnode as [Hn Hz].
  assert (Hnot : node ∉ topo) by (apply NoDup_app in Hnd as (_ & Hd & _); intros Hin; apply (Hd node Hin); left).
  assert (Hpos : ∀ v, v ∈ nbrs node → v < n ∧ pending topo v = S (pending (topo ++ [node]) v)).
  { intros v Hv. destruct (Hdown node v Hv). split; [lia|]. rewrite (pending_step topo node v Hnot Hn), decide_True by done. lia. }
  destruct (release_ok (nbrs node) queue indeg (Hnodup node)) as (indeg' & Hrun & Hl).
  { intros v Hv. destruct (Hpos v Hv) as [Hvn Hv']. exists (pending (topo ++ [node]) v). by rewrite Hdeg, Hv'. }
  eexists _, indeg'. split; [done|].
  assert (Hstep := λ v, pending_step topo node v Hnot Hn).
  assert (Hfree1 : ∀ v, v ∈ filter (λ v, indeg !! v = Some 1) (nbrs node) ↔
                        v ∈ nbrs node ∧ pending (topo ++ [node]) v = 0).
  { intros v. rewrite list_elem_of_filter. split; [intros [H1 Hv]|intros [Hv H1]]; destruct (Hpos v Hv) as [Hvn Hv'];
      [rewrite Hdeg in H1 by done; naive_solver lia|]. rewrite Hdeg by done. split; [|done]. f_equal. lia. }
  constructor.
  - rewrite <- app_assoc. change ([node] ++ ?l) with (node :: l). rewrite app_comm_cons, app_assoc.
    apply NoDup_app. split; [done|]. split; [|apply NoDup_filter, Hnodup].
    intros v Hv [Hin Hz']%Hfree1. apply Hfree in Hv as [_ Hv]. destruct (Hpos v Hin). lia.
  - intros v Hvn. rewrite Hl, (Hdeg v Hvn). simpl. f_equal. specialize (Hstep v). case_decide; lia.
  - intros v. rewrite <- app_assoc. change ([node] ++ ?l) with (node :: l). rewrite app_comm_cons, app_assoc, elem_of_app.
    rewrite Hfree, Hfree1. specialize (Hstep v). split.
    + intros [[Hvn Hv]|[Hin Hv]]; [split; [done|lia]|]. by destruct (Hpos v Hin).
    + intros [Hvn Hv]. destruct (decide (v ∈ nbrs node)); [by right|left]. split; [done|lia].
  - intros a v b Heq u Hv. destruct b as [|y b] using rev_ind.
    + apply app_inj_tail in Heq as [-> ->]. by apply (proj1 (pending_zero _ _) Hz).
    + rewrite app_comm_cons, app_assoc in Heq. apply app_inj_tail in Heq as [-> _]. by apply (Hord a v b).
Qed.

(** When the queue is empty every component has been taken. *)
Lemma queue_empty indeg topo : queue_ok [] indeg topo → ∀ v, v ∈ topo ↔ v < n.
Proof.
  intros [_ _ Hfree _] v. rewrite app_nil_r in Hfree. split; [by intros [? _]%Hfree|].
  intros Hv. remember (n - v) as k eqn:Hk. revert v Hv Hk. induction k as [k IH] using lt_wf_ind. intros v Hv Hk.
  apply Hfree. split; [done|]. apply pending_zero. intros u Hu. destruct (Hdown u v Hu).
  apply (IH (n - u)); lia.
Qed.

Lemma topo_loop_ok fuel queue indeg topo :
  queue_ok queue indeg topo → n < fuel + length topo →
  ∃ order, topo_loop iteration scc_adj fuel queue indeg topo = Some order ∧ NoDup order ∧
    (∀ v, v ∈ order ↔ v < n) ∧ (∀ a v b, order = a ++ v :: b → ∀ u, v ∈ nbrs u → u ∈ a).
Proof.
  revert queue indeg topo. induction fuel as [|fuel IH]; intros queue indeg topo Hq Hf.
  - exfalso. assert (length (topo ++ queue) <= n).
    { apply NoDup_below; [apply Hq|]. by intros u [? _]%(q_free _ _ _ Hq). }
    rewrite length_app in *. lia.
  - simpl. destruct queue as [|node queue].
    + exists topo. split; [done|]. pose proof (queue_empty indeg topo Hq) as Hall. destruct Hq as [Hnd _ _ Hord].
      by rewrite app_nil_r in Hnd.
    + destruct (queue_step node queue indeg topo Hq) as (queue' & indeg' & -> & Hq'). simpl.
      apply IH; [done|]. rewrite length_app. simpl. lia.
Qed.
End topological.

(** ** Longest chains *)

(** Consecutive elements are related. *)
Definition linked {A} (R : A → A → Prop) (l : list A) : Prop :=
  ∀ i x y, l !! i = Some x → l !! S i = Some y → R x y.

Lemma linked_reverse {A} (R : A → A → Prop) l : linked (λ x y, R y x) l → linked R (reverse l).
Proof.
  intros Hl i x y Hx Hy. pose proof (lookup_lt_Some _ _ _ Hy) as Hlt. rewrite length_reverse in Hlt.
  rewrite reverse_lookup in Hx, Hy by lia. apply (Hl (length l - S (S i)) y x Hy).
  by replace (S (length l - S (S i))) with (length l - S i) by lia.
Qed.

Definition dst (dist : list nat) (v : nat) : nat := default 0 (dist !! v).
Definition prd (pred : list (option nat)) (v : nat) : option nat := default None (pred !! v).

Lemma dst_lookup dist v : v < length dist → dist !! v = Some (dst dist v).
Proof. intros Hv. unfold dst. by destruct (lookup_lt_is_Some_2 dist v Hv) as [d ->]. Qed.

Lemma relax_ok u nbs dist pred :
  NoDup nbs → u ∉ nbs → u < length dist → (∀ v, v ∈ nbs → v < length dist) → length pred = length dist →
  ∃ dist' pred', relax u nbs dist pred = Some (dist', pred') ∧
    length dist' = length dist ∧ length pred' = length dist ∧
    (∀ v, dst dist' v = if decide (v ∈ nbs) then Nat.max (dst dist v) (dst dist u + 1) else dst dist v) ∧
    (∀ v, prd pred' v = if decide (v ∈ nbs ∧ dst dist v < dst dist u + 1) then Some u else prd pred v).
Proof.
  intros Hnd Hu Hul Hr Hp. revert dist pred Hul Hr Hp.
  induction nbs as [|x nbs IH]; intros dist pred Hul Hr Hp; [by exists dist, pred|].
  apply NoDup_cons in Hnd as [Hx Hnd]. apply not_elem_of_cons in Hu as [Hux Hu].
  assert (Hxl : x < length dist) by (apply Hr; left). simpl.
  rewrite (dst_lookup dist u Hul), (dst_lookup dist x Hxl). simpl.
  assert (Hr' : ∀ v, v ∈ nbs → v < length dist) by (intros v Hv; apply Hr; by right).
  destruct (Nat.ltb_spec (dst dist x) (dst dist u + 1)) as [Hlt|Hge].
  - rewrite !vec_set_some by lia. simpl.
    set (dist1 := <[x := dst dist u + 1]> dist). set (pred1 := <[x := Some u]> pred).
    assert (Hd1 : ∀ v, dst dist1 v = if decide (v = x) then dst dist u + 1 else dst dist v)
      by (intros v; apply default_insert; lia).
    assert (Hp1 : ∀ v, prd pred1 v = if decide (v = x) then Some u else prd pred v)
      by (intros v; apply default_insert; lia).
    destruct (IH Hnd Hu dist1 pred1) as (dist' & pred' & -> & Hl1 & Hl2 & Hd & Hpr).
    { unfold dist1. by rewrite length_insert. }
    { intros v Hv. unfold dist1. rewrite length_insert. auto. }
    { unfold dist1, pred1. by rewrite !length_insert. }
    exists dist', pred'. unfold dist1 in Hl1, Hl2. rewrite length_insert in Hl1, Hl2. split_and!; try done.
    + intros v. rewrite Hd, !Hd1, (decide_False (P := u = x)) by done. destruct (decide (v = x)) as [->|Hv].
      * rewrite decide_False, (decide_True (P := x ∈ x :: nbs)) by (done || left). lia.
      * destruct (decide (v ∈ nbs)); [rewrite decide_True by (by right)|rewrite decide_False by (by intros [->|?]%elem_of_cons)]; done.
    + intros v. rewrite Hpr, !Hd1, Hp1, (decide_False (P := u = x)) by done. destruct (decide (v = x)) as [->|Hv].
      * rewrite decide_False, (decide_True (P := _ ∧ _)); [done| |by intros [? ?]]. split; [left|done].
      * apply decide_ext. rewrite elem_of_cons. naive_solver.
  - destruct (IH Hnd Hu dist pred Hul Hr' Hp) as (dist' & pred' & -> & Hl1 & Hl2 & Hd & Hpr).
    exists dist', pred'. split_and!; try done.
    + intros v. rewrite Hd. destruct (decide (v = x)) as [->|Hv].
      * rewrite decide_False, (decide_True (P := x ∈ x :: nbs)) by (done || left). lia.
      * destruct (decide (v ∈ nbs)); [rewrite decide_True by (by right)|rewrite decide_False by (by intros [->|?]%elem_of_cons)]; done.
    + intros v. rewrite Hpr. apply decide_ext. rewrite elem_of_cons. split; [naive_solver|].
      intros [[->|?] ?]; [lia|done].
Qed.

Section longest.
Context (iteration : nat → list nat → list nat) (scc_adj : gmap nat (list nat)) (n : nat).
#[local] Abbreviation nbrs := (neighbors iteration scc_adj).
Context (Hnodup : ∀ u, NoDup (nbrs u)) (Hdown : ∀ u v, v ∈ nbrs u → v < u ∧ u < n).
Context (order : list nat) (Honce : NoDup order) (Hall : ∀ v, v ∈ order ↔ v < n)
  (Hbefore : ∀ a v b, order = a ++ v :: b → ∀ u, v ∈ nbrs u → u ∈ a).

(** The tables after the components [seen] of the order. *)
Record dp_ok (seen : list nat) (dist : list nat) (pred : list (option nat)) : Prop := {
  d_length : length dist = n;
  d_preds : length pred = n;
  d_edge : ∀ u v, u ∈ seen → v ∈ nbrs u → dst dist u + 1 <= dst dist v;
  d_pred : ∀ v, (prd pred v = None ∧ dst dist v = 0) ∨
    ∃ u, prd pred v = Some u ∧ u ∈ seen ∧ v ∈ nbrs u ∧ dst dist v = dst dist u + 1;
}.

Lemma dp_initial : dp_ok [] (replicate n 0) (replicate n None).
Proof.
  constructor; rewrite ?length_replicate; try done.
  - by intros u v ?%elem_of_nil.
  - intros v. left. unfold prd, dst. destruct (decide (v < n)).
    + by rewrite !lookup_replicate_2.
    + by rewrite !lookup_ge_None_2 by (rewrite length_replicate; lia).
Qed.

Lemma dp_step seen u rest dist pred :
  order = seen ++ u :: rest → dp_ok seen dist pred →
  ∃ dist' pred', relax u (nbrs u) dist pred = Some (dist', pred') ∧ dp_ok (seen ++ [u]) dist' pred'.
Proof.
  intros Hord [Hdl Hpl Hedge Hpred].
  assert (Hun : u < n) by (apply Hall; rewrite Hord; set_solver).
  assert (Hlater : ∀ v, v ∈ nbrs u → v ∉ seen ++ [u]).
  { intros v Hv Hin. apply list_elem_of_split in Hin as (a & b & Heq).
    assert (Hua : u ∈ a).
    { apply (Hbefore a v (b ++ rest)) with (u := u); [|done].
      rewrite Hord, cons_middle, app_assoc, Heq, <- app_assoc. done. }
    rewrite Hord, cons_middle, app_assoc in Honce. apply NoDup_app in Honce as (Hnd & _).
    destruct b as [|y b _] using rev_ind.
    - apply app_inj_tail in Heq as [-> ->]. destruct (Hdown v v Hv). lia.
    - rewrite app_comm_cons, app_assoc in Heq. apply app_inj_tail in Heq as [-> _].
      apply NoDup_app in Hnd as (_ & Hd & _). apply (Hd u); [|left]. set_solver. }
  destruct (relax_ok u (nbrs u) dist pred (Hnodup u)) as (dist' & pred' & Hrun & Hl1 & Hl2 & Hd & Hp).
  - intros Hin. apply (Hlater u Hin). set_solver.
  - lia.
  - intros v Hv. destruct (Hdown u v Hv). lia.
  - lia.
  - exists dist', pred'. split; [done|].
    assert (Hsame : ∀ w, w ∈ seen ++ [u] → dst dist' w = dst dist w).
    { intros w Hw. rewrite Hd, decide_False; [done|]. by intros ?%Hlater. }
    constructor; [lia|lia| |].
    + intros w v Hw Hv. rewrite (Hsame w Hw). apply elem_of_app in Hw as [Hw|Hw%list_elem_of_singleton].
      * specialize (Hedge w v Hw Hv). rewrite Hd. case_decide; lia.
      * subst w. rewrite Hd, decide_True by done. lia.
    + intros v. rewrite Hp. case_decide as Hc; [right|].
      * destruct Hc as [Hv Hlt]. exists u. rewrite (Hsame u) by set_solver. rewrite Hd, decide_True by done.
        split_and!; [done|set_solver|done|lia].
      * assert (Hdv : dst dist' v = dst dist v).
        { rewrite Hd. case_decide as Hv; [|done]. destruct (decide (dst dist v < dst dist u + 1)); [tauto|lia]. }
        rewrite Hdv. destruct (Hpred v) as [?|(w & Hw & Hws & Hwv & Hdw)]; [by left|right].
        exists w. rewrite (Hsame w) by set_solver. split_and!; [done|set_solver|done|done].
Qed.

Lemma relax_all_ok seen rest dist pred :
  order = seen ++ rest → dp_ok seen dist pred →
  ∃ dist' pred', relax_all iteration scc_adj rest dist pred = Some (dist', pred') ∧ dp_ok order dist' pred'.
Proof.
  revert seen dist pred. induction rest as [|u rest IH]; intros seen dist pred Hord Hdp; simpl.
  - exists dist, pred. rewrite app_nil_r in Hord. by subst.
  - destruct (dp_step seen u rest dist pred Hord Hdp) as (dist1 & pred1 & -> & Hdp1). simpl.
    apply (IH (seen ++ [u])); [|done]. by rewrite <- app_assoc.
Qed.

Section tables.
Context (dist : list nat) (pred : list (option nat)) (Hdp : dp_ok order dist pred).

(** No chain is longer than the distance of its end. *)
Lemma steps_bounded k w v : nsteps (λ u v, v ∈ nbrs u) k w v → dst dist w + k <= dst dist v.
Proof.
  induction 1 as [w|k w z v Hz _ IH]; [lia|]. destruct (Hdown w z Hz) as [_ Hw].
  pose proof (d_edge _ _ _ Hdp w z (proj2 (Hall w) Hw) Hz). lia.
Qed.

Lemma dist_small v : v < n → dst dist v + v < n.
Proof.
  intros Hv. remember (n - v) as k eqn:Hk. revert v Hv Hk. induction k as [k IH] using lt_wf_ind. intros v Hv Hk.
  destruct (d_pred _ _ _ Hdp v) as [[_ ->]|(u & _ & _ & Huv & ->)]; [done|].
  destruct (Hdown u v Huv). specialize (IH (n - u) ltac:(lia) u ltac:(lia) eq_refl). lia.
Qed.

(** The predecessors form a chain of exactly that length. *)
Lemma chain_loop_ok fuel cur acc :
  cur < n → dst dist cur < fuel →
  ∃ l, chain_loop fuel pred cur acc = Some (acc ++ l) ∧ length l = S (dst dist cur) ∧
    head l = Some cur ∧ linked (λ x y, x ∈ nbrs y) l ∧ Forall (λ x, x < n) l.
Proof.
  revert cur acc. induction fuel as [|fuel IH]; intros cur acc Hc Hf; [lia|]. simpl.
  destruct (lookup_lt_is_Some_2 pred cur) as [p Hp]; [rewrite (d_preds _ _ _ Hdp); done|].
  pose proof (d_pred _ _ _ Hdp cur) as Hcase. unfold prd in Hcase. rewrite Hp in Hcase |- *. simpl in Hcase |- *.
  destruct Hcase as [[-> Hz]|(u & -> & Hu & Huv & Hd)].
  - exists [cur]. rewrite Hz. split_and!; [done|done|done| |by repeat constructor]. intros i x y Hx Hy. done.
  - destruct (Hdown u cur Huv) as [_ Hun]. destruct (IH u (acc ++ [cur]) Hun ltac:(lia)) as (l & -> & Hl & Hh & Hlink & Hlt).
    exists (cur :: l). rewrite <- app_assoc. split_and!; try done.
    + simpl. lia.
    + intros [|i] x y Hx Hy; simpl in Hx, Hy.
      * destruct l as [|z l]; [done|]. simpl in *. by simplify_eq.
      * by apply (Hlink i).
    + by constructor.
Qed.
End tables.
End longest.

(** ** The condensation *)
Lemma foldl_insert_lookup (idx : nat) (scc : list rstr) (m : gmap rstr nat) x :
  foldl (λ m node, <[node := idx]> m) m scc !! x = if decide (x ∈ scc) then Some idx else m !! x.
Proof.
  revert m. induction scc as [|y scc IH]; intros m; simpl; [done|]. rewrite IH.
  destruct (decide (x ∈ scc)) as [Hx|Hx].
  - by rewrite decide_True by (by right).
  - destruct (decide (x = y)) as [->|Hxy].
    + by rewrite lookup_insert_eq, decide_True by left.
    + by rewrite lookup_insert_ne, decide_False by (done || by intros [->|?]%elem_of_cons).
Qed.

Lemma number_nodes_lookup idx sccs m x :
  NoDup (concat sccs) →
  (∀ i c, sccs !! i = Some c → x ∈ c → number_nodes idx sccs m !! x = Some (idx + i)) ∧
  (x ∉ concat sccs → number_nodes idx sccs m !! x = m !! x).
Proof.
  revert idx m. induction sccs as [|c sccs IH]; intros idx m Hnd; simpl; [done|].
  simpl in Hnd. apply NoDup_app in Hnd as (_ & Hd & Hnd).
  destruct (IH (S idx) (foldl (λ m node, <[node := idx]> m) m c) Hnd) as [H1 H2]. split.
  - intros [|i] d Hi Hx; simpl in Hi; simplify_eq.
    + rewrite H2 by (by apply Hd). rewrite foldl_insert_lookup, decide_True by done. f_equal. lia.
    + rewrite (H1 i d Hi Hx). f_equal. lia.
  - rewrite not_elem_of_app. intros [Hc Hx]. rewrite (H2 Hx), foldl_insert_lookup, decide_False by done. done.
Qed.

(** [target] is in the set of [source]. *)
Definition set_edge (m : gmap nat (list nat)) (s t : nat) : Prop := ∃ set, m !! s = Some set ∧ t ∈ set.
Definition sets_ok (m : gmap nat (list nat)) : Prop := ∀ s set, m !! s = Some set → NoDup set.

Lemma scc_insert_ok s t m :
  sets_ok m → sets_ok (scc_insert s t m) ∧
  ∀ s' t', set_edge (scc_insert s t m) s' t' ↔ set_edge m s' t' ∨ (s' = s ∧ t' = t).
Proof.
  intros Hok. set (old := default [] (m !! s)).
  assert (Hold : NoDup old) by (unfold old; destruct (m !! s) as [set|] eqn:E; [by apply (Hok s)|constructor]).
  assert (Hs : ∀ t', set_edge m s t' ↔ t' ∈ old).
  { intros t'. unfold set_edge, old. destruct (m !! s) as [set|]; simpl; [naive_solver|].
    rewrite elem_of_nil. naive_solver. }
  unfold scc_insert. fold old. split.
  - intros s' set Hl. apply lookup_insert_Some in Hl as [[<- <-]|[_ Hl]]; [|by apply (Hok s')].
    case_decide as Ht; [done|]. apply NoDup_app. split; [done|]. split; [|apply NoDup_singleton].
    by intros x Hx ->%list_elem_of_singleton.
  - intros s' t'. destruct (decide (s' = s)) as [->|Hne].
    + rewrite Hs. unfold set_edge. setoid_rewrite lookup_insert_eq. split.
      * intros (set & [= <-] & Ht'). case_decide as Ht; [by left|].
        apply elem_of_app in Ht' as [?|?%list_elem_of_singleton]; auto.
      * intros Ht'. eexists. split; [done|]. case_decide as Ht; [naive_solver|]. rewrite elem_of_app, list_elem_of_singleton. naive_solver.
    + unfold set_edge. rewrite lookup_insert_ne by done. naive_solver.
Qed.

Lemma scc_targets_ok (f : gmap rstr nat) s targets m :
  sets_ok m → (∀ x, x ∈ targets → is_Some (f !! x)) →
  ∃ m', scc_targets f s targets m = Some m' ∧ sets_ok m' ∧
    ∀ s' t', set_edge m' s' t' ↔
      set_edge m s' t' ∨ (s' = s ∧ s ≠ t' ∧ ∃ x, x ∈ targets ∧ f !! x = Some t').
Proof.
  revert m. induction targets as [|x targets IH]; intros m Hok Hf; simpl.
  - exists m. split_and!; try done. intros s' t'. setoid_rewrite elem_of_nil. naive_solver.
  - destruct (Hf x) as [t Ht]; [left|]. rewrite Ht. simpl.
    set (m1 := if decide (s = t) then m else scc_insert s t m).
    assert (Hm1 : sets_ok m1 ∧ ∀ s' t', set_edge m1 s' t' ↔ set_edge m s' t' ∨ (s' = s ∧ s ≠ t' ∧ t' = t)).
    { unfold m1. case_decide as Hst; [split; [done|naive_solver]|].
      destruct (scc_insert_ok s t m Hok) as [? He]. split; [done|]. intros s' t'. rewrite He. naive_solver. }
    destruct Hm1 as [Hok1 He1]. destruct (IH m1 Hok1) as (m' & -> & Hok' & He').
    { intros y Hy. apply Hf. by right. }
    exists m'. split_and!; try done. intros s' t'. rewrite He', He1. setoid_rewrite elem_of_cons. naive_solver.
Qed.

Lemma scc_edges_ok (f : gmap rstr nat) adj m :
  sets_ok m → (∀ x, mentioned adj x → is_Some (f !! x)) →
  ∃ m', scc_edges f adj m = Some m' ∧ sets_ok m' ∧
    ∀ s t, set_edge m' s t ↔
      set_edge m s t ∨ (s ≠ t ∧ ∃ x y, edge adj x y ∧ f !! x = Some s ∧ f !! y = Some t).
Proof.
  revert m. induction adj as [|[x targets] adj IH]; intros m Hok Hf; simpl.
  - exists m. split_and!; try done. intros s t. split; [by left|]. intros [?|(_ & x & y & (l & Hin & _) & _)]; [done|].
    by apply elem_of_nil in Hin.
  - destruct (Hf x) as [s Hs]; [left; left|]. rewrite Hs. simpl.
    destruct (scc_targets_ok f s targets m Hok) as (m1 & -> & Hok1 & He1).
    { intros y Hy. apply Hf. right. exists x, targets. split; [left|done]. }
    simpl. destruct (IH m1 Hok1) as (m' & -> & Hok' & He').
    { intros y [Hy|(z & l & Hin & Hy)]; apply Hf; [left; by right|right; exists z, l; split; [by right|done]]. }
    exists m'. split_and!; try done. intros s' t. rewrite He', He1. unfold edge. setoid_rewrite elem_of_cons. split.
    + intros [[?|(-> & Hne & y & Hy & Ht)]|(Hne & y & z & (l & Hin & Hz) & Hfy & Hfz)]; [by left|right..].
      * split; [done|]. exists x, y. split_and!; [exists targets; by split; [left|]|done|done].
      * split; [done|]. exists y, z. split_and!; [exists l; by split; [right|]|done|done].
    + intros [?|(Hne & y & z & (l & [Hl|Hin] & Hz) & Hfy & Hfz)]; [by do 2 left| |].
      * simplify_eq. left. right. split_and!; [done|done|by exists z].
      * right. split; [done|]. exists y, z. split_and!; [by exists l|done|done].
Qed.

(** *** Incoming edges *)
Definition occurs (v : nat) (l : list nat) : nat := length (filter (eq v) l).

Lemma count_targets_ok targets l :
  (∀ v, v ∈ targets → v < length l) →
  ∃ l', count_targets targets l = Some l' ∧ ∀ v, l' !! v = (λ d, d + occurs v targets) <$> l !! v.
Proof.
  revert l. induction targets as [|x targets IH]; intros l Hr; simpl.
  - exists l. split; [done|]. intros v. destruct (l !! v); [|done]. simpl. f_equal. unfold occurs. simpl. lia.
  - assert (Hx : x < length l) by (apply Hr; left). destruct (lookup_lt_is_Some_2 l x Hx) as [d Hd]. rewrite Hd. simpl.
    rewrite vec_set_some by done. simpl. destruct (IH (<[x := S d]> l)) as (l' & -> & Hl').
    { intros v Hv. rewrite length_insert. apply Hr. by right. }
    exists l'. split; [done|]. intros v. rewrite Hl'. unfold occurs. rewrite filter_cons.
    destruct (decide (v = x)) as [->|Hv].
    + rewrite list_lookup_insert_eq, Hd by done. simpl. f_equal. lia.
    + rewrite list_lookup_insert_ne by done. done.
Qed.

Lemma occurs_concat v (ls : list (list nat)) :
  Forall (λ l, NoDup l) ls → occurs v (concat ls) = length (filter (λ l, v ∈ l) ls).
Proof.
  induction 1 as [|l ls Hnd _ IH]; [done|]. simpl. unfold occurs in *. rewrite filter_app, length_app, IH, filter_cons.
  assert (length (filter (eq v) l) = if decide (v ∈ l) then 1 else 0) as ->; [|by case_decide].
  clear IH. induction l as [|x l IHl]; [done|]. apply NoDup_cons in Hnd as [Hx Hnd]. rewrite filter_cons.
  destruct (decide (v = x)) as [->|Hvx].
  - simpl. rewrite (IHl Hnd), (decide_False (P := x ∈ l)) by done. by rewrite decide_True by left.
  - rewrite (IHl Hnd). destruct (decide (v ∈ l)); [rewrite decide_True by (by right)|rewrite decide_False by (by intros [?|?]%elem_of_cons)]; done.
Qed.

Section in_degrees.
Context (iteration : nat → list nat → list nat) (m : gmap nat (list nat)) (n : nat).
Context (Hiter : ∀ s l, iteration s l ≡ₚ l) (Hok : sets_ok m).
Context (Hkeys : ∀ s t, set_edge m s t → t < s ∧ s < n).
#[local] Abbreviation nbrs := (neighbors iteration m).

Lemma neighbors_edge s t : t ∈ nbrs s ↔ set_edge m s t.
Proof using Hiter.
  clear Hok Hkeys. unfold neighbors, set_edge.
  destruct (m !! s) as [set|]; [|rewrite elem_of_nil; naive_solver]. rewrite (Hiter s set). naive_solver.
Qed.

Lemma neighbors_nodup s : NoDup (nbrs s).
Proof using Hiter Hok.
  unfold neighbors. destruct (m !! s) as [set|] eqn:E; [|constructor]. rewrite (Hiter s set). by apply (Hok s).
Qed.

Lemma neighbors_down u v : v ∈ nbrs u → v < u ∧ u < n.
Proof using Hiter Hkeys. rewrite neighbors_edge. apply Hkeys. Qed.

Lemma in_degree_pending v : occurs v (concat (snd <$> map_to_list m)) = pending iteration m n [] v.
Proof.
  rewrite occurs_concat.
  2: { rewrite Forall_fmap, Forall_forall. intros [s set] Hin%elem_of_map_to_list. simpl. by apply (Hok s). }
  unfold pending. set (k := map_to_list m).
  assert (Hlen : length (filter (λ l, v ∈ l) (snd <$> k)) = length (fst <$> filter (λ e : nat * list nat, v ∈ e.2) k)).
  { rewrite length_fmap. clear. induction k as [|e k IH]; [done|]. rewrite fmap_cons, !filter_cons. case_decide; simpl; auto. }
  rewrite Hlen. apply Permutation_length, NoDup_Permutation.
  - eapply sublist_NoDup; [apply (NoDup_fst_map_to_list m)|]. apply fmap_sublist, sublist_filter.
  - apply NoDup_filter, NoDup_seq.
  - intros u. rewrite list_elem_of_filter, elem_of_seq, neighbors_edge, list_elem_of_fmap.
    setoid_rewrite list_elem_of_filter. split.
    + intros ([s set] & -> & Hv & Hin%elem_of_map_to_list). simpl.
      assert (He : set_edge m s v) by (by exists set). destruct (Hkeys s v He).
      split; [split; [by intros ?%elem_of_nil|done]|lia].
    + intros [[_ (set & Hs & Hv)] _]. exists (u, set). split_and!; [done|done|by apply elem_of_map_to_list].
Qed.

(** The counts and the queue the loop starts with. *)
Lemma queue_start :
  ∃ indeg, count_targets (concat (snd <$> map_to_list m)) (replicate n 0) = Some indeg ∧
    queue_ok iteration m n (List.filter (λ i, default 0 (indeg !! i) =? 0) (seq 0 n)) indeg [].
Proof.
  destruct (count_targets_ok (concat (snd <$> map_to_list m)) (replicate n 0)) as (indeg & Hrun & Hl).
  { intros v Hv. rewrite length_replicate. apply elem_of_concat in Hv as (set & Hv & Hset).
    apply list_elem_of_fmap in Hset as ([s l] & -> & Hin%elem_of_map_to_list). destruct (Hkeys s v); [by exists l|lia]. }
  exists indeg. split; [done|].
  assert (Hdeg : ∀ v, v < n → indeg !! v = Some (pending iteration m n [] v)).
  { intros v Hv. rewrite Hl, lookup_replicate_2 by done. simpl. by rewrite in_degree_pending. }
  constructor; simpl.
  - apply NoDup_ListNoDup, List.NoDup_filter, NoDup_ListNoDup, NoDup_seq.
  - done.
  - intros v. rewrite list_elem_of_In, List.filter_In, <- list_elem_of_In, elem_of_seq, Nat.eqb_eq. split.
    + intros [Hv Hz]. rewrite Hdeg in Hz by lia. split; [lia|done].
    + intros [Hv Hz]. split; [lia|]. by rewrite Hdeg.
  - intros a v b Heq. by destruct a.
Qed.
End in_degrees.

(** ** Depth in terms of files *)

(** [x] and [y] depend on each other; [y] depends on [x] one way only. *)
Definition mutual (adj : FileGraph) (x y : rstr) : Prop := rtc (edge adj) x y ∧ rtc (edge adj) y x.
Definition strictly (adj : FileGraph) (x y : rstr) : Prop := rtc (edge adj) x y ∧ ¬ rtc (edge adj) y x.

(** The entry of a component: its files in order, and a chain of files, each of
    which leads to the next and not back, as long as any that reaches it. *)
Record chain_ok (adj : FileGraph) (c : DepthChain) : Prop := {
  ck_files : ∀ x, x ∈ scc_files c ↔ mutual adj (file c) x;
  ck_sorted : StronglySorted (leb_rel (cmp_leb str_compare)) (scc_files c);
  ck_file : head (scc_files c) = Some (file c);
  ck_longest : ∀ k w, nsteps (strictly adj) k w (file c) → k <= depth c;
  ck_length : length (chain c) = S (depth c);
  ck_linked : linked (strictly adj) (chain c);
  ck_last : ∃ x, last (chain c) = Some x ∧ mutual adj (file c) x;
}.

Section files.
Context (iteration : nat → list nat → list nat) (Hiter : ∀ s l, iteration s l ≡ₚ l).
Context (adj : FileGraph) (sccs : list (list rstr)) (Hsccs : components adj sccs).
Context (m : gmap nat (list nat)) (Hok : sets_ok m)
  (Hm : ∀ s t, set_edge m s t ↔
     s ≠ t ∧ ∃ x y cs ct, edge adj x y ∧ sccs !! s = Some cs ∧ x ∈ cs ∧ sccs !! t = Some ct ∧ y ∈ ct).
#[local] Abbreviation nbrs := (neighbors iteration m).

Lemma component_class i c x y : sccs !! i = Some c → x ∈ c → y ∈ c ↔ mutual adj x y.
Proof.
  intros Hi Hx. destruct Hsccs as (_ & _ & Hc).
  destruct (Hc (take i sccs) c (drop (S i) sccs)) as [_ Hcls]; [by rewrite take_drop_middle|]. by apply (Hcls x Hx).
Qed.

Lemma component_unique i j c d x : sccs !! i = Some c → sccs !! j = Some d → x ∈ c → x ∈ d → i = j.
Proof.
  intros Hi Hj Hx Hy. destruct (decide (i = j)) as [|Hne]; [done|exfalso].
  assert (Hlt : ∀ i j c d, i < j → sccs !! i = Some c → sccs !! j = Some d → x ∈ c → x ∈ d → False).
  { clear i j c d Hi Hj Hx Hy Hne. intros i j c d Hlt Hi Hj Hx Hy. destruct Hsccs as (Hnd & _).
    rewrite <- (take_drop_middle _ _ _ Hj), concat_app in Hnd. apply NoDup_app in Hnd as (_ & Hd & _).
    apply (Hd x); [|simpl; apply elem_of_app; by left]. apply elem_of_concat. exists c. split; [done|].
    apply list_elem_of_lookup. exists i. by rewrite lookup_take_lt. }
  destruct (decide (i < j)); [by apply (Hlt i j c d)|]. apply (Hlt j i d c); try done. lia.
Qed.

Lemma component_nonempty i c : sccs !! i = Some c → c ≠ [].
Proof.
  intros Hi. destruct Hsccs as (_ & _ & Hc).
  by destruct (Hc (take i sccs) c (drop (S i) sccs)); [rewrite take_drop_middle|].
Qed.

Lemma component_of x : mentioned adj x → ∃ i c, sccs !! i = Some c ∧ x ∈ c.
Proof.
  destruct Hsccs as (_ & Hall & _). rewrite <- Hall, elem_of_concat. intros (c & Hx & [i Hi]%list_elem_of_lookup).
  by exists i, c.
Qed.

Lemma set_edge_down s t : set_edge m s t → t < s ∧ s < length sccs.
Proof.
  rewrite Hm. intros (Hne & x & y & cs & ct & He & Hs & Hx & Ht & Hy). pose proof (lookup_lt_Some _ _ _ Hs).
  split; [|done]. destruct Hsccs as (_ & _ & Hc).
  destruct (Hc (take s sccs) cs (drop (S s) sccs)) as [_ Hcls]; [by rewrite take_drop_middle|].
  destruct (Hcls x Hx) as [_ Hout]. destruct (Hout y He) as [Hin|Hin].
  - exfalso. apply Hne. by apply (component_unique s t cs ct y).
  - apply elem_of_concat in Hin as (c & Hyc & [k Hk]%list_elem_of_lookup).
    apply lookup_take_Some in Hk as [Hk Hlt]. by rewrite (component_unique t k ct c y).
Qed.

Lemma step_strict s t cs ct x y :
  t ∈ nbrs s → sccs !! s = Some cs → x ∈ cs → sccs !! t = Some ct → y ∈ ct → strictly adj x y.
Proof.
  rewrite (neighbors_edge iteration m Hiter), Hm.
  intros (Hne & x0 & y0 & cs0 & ct0 & He & Hs0 & Hx0 & Ht0 & Hy0) Hs Hx Ht Hy.
  assert (cs0 = cs) as -> by congruence. assert (ct0 = ct) as -> by congruence.
  destruct (proj1 (component_class s cs x x0 Hs Hx) Hx0) as [Hxx _].
  destruct (proj1 (component_class t ct y0 y Ht Hy0) Hy) as [Hyy _].
  assert (Hxy : rtc (edge adj) x y) by (etrans; [done|]; eapply rtc_l; done).
  split; [done|]. intros Hback. apply Hne.
  assert (y ∈ cs) by (by apply (component_class s cs x y Hs Hx)).
  by apply (component_unique s t cs ct y).
Qed.

Lemma reach_steps x y s cs t ct :
  rtc (edge adj) x y → sccs !! s = Some cs → x ∈ cs → sccs !! t = Some ct → y ∈ ct →
  rtc (λ u v, v ∈ nbrs u) s t.
Proof.
  intros Hr. revert s cs. induction Hr as [x|x z y He Hr IH]; intros s cs Hs Hx Ht Hy.
  - by rewrite (component_unique s t cs ct x).
  - destruct (component_of z) as (k & ck & Hk & Hz); [right; by exists x|].
    destruct (decide (s = k)) as [->|Hsk]; [by apply (IH k ck)|].
    apply rtc_l with k; [|by apply (IH k ck)]. apply (neighbors_edge iteration m Hiter), Hm. split; [done|].
    by exists x, z, cs, ck.
Qed.

Section depths.
Context (order : list nat) (Hall : ∀ v, v ∈ order ↔ v < length sccs) (dist : list nat) (pred : list (option nat))
  (Hdp : dp_ok iteration m (length sccs) order dist pred).

Lemma strict_deeper x y s cs t ct :
  strictly adj x y → sccs !! s = Some cs → x ∈ cs → sccs !! t = Some ct → y ∈ ct →
  dst dist s + 1 <= dst dist t.
Proof.
  intros [Hr Hnr] Hs Hx Ht Hy. pose proof (reach_steps x y s cs t ct Hr Hs Hx Ht Hy) as Hsteps.
  apply rtc_tc in Hsteps as [->|(k & Hk & Hn)%tc_nsteps].
  - exfalso. apply Hnr. assert (cs = ct) as -> by congruence. by apply (component_class t ct x y Ht Hx).
  - pose proof (steps_bounded iteration m (length sccs)
      (neighbors_down iteration m (length sccs) Hiter set_edge_down) order Hall dist pred Hdp k s t Hn). lia.
Qed.

Lemma strict_mentioned x y : strictly adj x y → mentioned adj x ∧ mentioned adj y.
Proof.
  intros [Hr Hnr]. assert (Hne : x ≠ y) by (intros ->; done). split.
  - inversion Hr as [|? z ? He]; subst; [done|]. by apply (edge_mentioned adj x z).
  - apply rtc_inv_r in Hr as [?|(z & _ & He)]; [done|]. by apply (edge_mentioned adj z y).
Qed.

Lemma strict_chain_bounded k w x s cs :
  nsteps (strictly adj) k w x → sccs !! s = Some cs → x ∈ cs → k <= dst dist s.
Proof.
  intros Hn Hs Hx. destruct (decide (k = 0)) as [->|Hk]; [lia|].
  assert (Hgen : ∀ a ca, sccs !! a = Some ca → w ∈ ca → dst dist a + k <= dst dist s).
  { clear Hk. induction Hn as [w|k w z x Hz Hn IH]; intros a ca Ha Hw.
    - rewrite (component_unique a s ca cs w) by done. lia.
    - destruct (component_of z) as (b & cb & Hb & Hzb); [by apply (strict_mentioned w z)|].
      pose proof (strict_deeper w z a ca b cb Hz Ha Hw Hb Hzb). specialize (IH Hx b cb Hb Hzb). lia. }
  destruct k as [|k]; [done|]. inversion Hn as [|? ? z ? Hz]; subst.
  destruct (component_of w) as (a & ca & Ha & Hw); [by apply (strict_mentioned w z)|].
  specialize (Hgen a ca Ha Hw). lia.
Qed.
(** *** One entry *)
Lemma depth_chain_ok i c :
  sccs !! i = Some c →
  ∃ d, depth_chain sccs dist pred i = Some d ∧ chain_ok adj d ∧ depth d = dst dist i ∧ scc_files d ≡ₚ c.
Proof.
  intros Hi. pose proof (lookup_lt_Some _ _ _ Hi) as Hlt. pose proof (d_length _ _ _ _ _ _ Hdp) as Hdl.
  pose proof (neighbors_down iteration m (length sccs) Hiter set_edge_down) as Hdown.
  pose proof (dist_small iteration m (length sccs) Hdown order dist pred Hdp i Hlt) as Hsmall.
  destruct (chain_loop_ok iteration m (length sccs) Hdown order dist pred Hdp (S (length sccs)) i [] Hlt)
    as (l & Hchain & Hlen & Hhead & Hlink & Hrange); [lia|]. simpl in Hchain.
  destruct (sorted_files c) as [Hperm Hsorted].
  assert (Hne : sort_by (cmp_leb str_compare) c ≠ []).
  { intros E. rewrite E in Hperm. apply Permutation_nil_l in Hperm. by apply (component_nonempty i c). }
  destruct (sort_by (cmp_leb str_compare) c) as [|rep rest] eqn:Es; [done|]. clear Hne.
  assert (Hrep : rep ∈ c) by (rewrite <- Hperm; left).
  assert (Hnames : is_Some (mapM (λ si, scc ← sccs !! si; scc !! 0) (reverse l))).
  { apply mapM_is_Some, Forall_reverse. eapply Forall_impl; [exact Hrange|]. intros x Hx. simpl.
    destruct (lookup_lt_is_Some_2 sccs x Hx) as [cx Hcx]. rewrite Hcx. simpl.
    destruct cx as [|y cx]; [by destruct (component_nonempty x [] Hcx)|]. by exists y. }
  destruct Hnames as [names Hnames]. unfold depth_chain.
  rewrite (dst_lookup dist i) by lia. simpl. rewrite Hchain. simpl. rewrite Hnames. simpl. rewrite Hi. simpl. rewrite Es. simpl.
  eexists. split; [done|]. split; [|done]. apply mapM_Some in Hnames.
  assert (Hname : ∀ k s, reverse l !! k = Some s → ∃ x cs, names !! k = Some x ∧ sccs !! s = Some cs ∧ x ∈ cs).
  { intros k s Hk. destruct (Forall2_lookup_l _ _ _ _ _ Hnames Hk) as (x & Hx & Hs).
    destruct (sccs !! s) as [cs|] eqn:Hcs; [|done]. exists x, cs. split_and!; try done.
    by apply list_elem_of_lookup_2 in Hs. }
  assert (Hback : ∀ k x, names !! k = Some x → ∃ s cs, reverse l !! k = Some s ∧ sccs !! s = Some cs ∧ x ∈ cs).
  { intros k x Hx. destruct (Forall2_lookup_r _ _ _ _ _ Hnames Hx) as (s & Hs & _).
    destruct (Hname k s Hs) as (x' & cs & Hx' & Hcs & Hin). simplify_eq. by exists s, cs. }
  assert (Hnl : length names = S (dst dist i)) by (rewrite <- (Forall2_length _ _ _ Hnames), length_reverse; done).
  constructor; simpl.
  - intros x. rewrite Hperm. by apply (component_class i c rep x).
  - done.
  - done.
  - intros k w Hn. by apply (strict_chain_bounded k w rep i c).
  - done.
  - intros k x y Hx Hy. destruct (Hback k x Hx) as (s & cs & Hs & Hcs & Hxs).
    destruct (Hback (S k) y Hy) as (s' & cs' & Hs' & Hcs' & Hys).
    apply (step_strict s s' cs cs' x y); try done. by apply (linked_reverse (λ x y, y ∈ nbrs x) l Hlink k).
  - destruct (Hname (dst dist i) i) as (x & cs & Hx & Hcs & Hin).
    { rewrite reverse_lookup by lia. rewrite Hlen, Nat.sub_diag. destruct l as [|y l]; [done|]. simpl in Hhead |- *. done. }
    exists x. rewrite last_lookup, Hnl. simpl. split; [done|]. simplify_eq. by apply (component_class i c rep x).
Qed.
End depths.
End files.

(** ** Ranking *)
#[export] Instance Natcompare_preordered : Preordered Nat.compare.
Proof. split; intros *; [apply Nat.compare_antisym|]. rewrite !Nat.compare_gt_iff. lia. Qed.

#[export] Instance opt_compare_preordered : Preordered opt_compare.
Proof.
  split.
  - intros [a|] [b|]; simpl; try done. apply str_compare_antisym.
  - intros [a|] [b|] [d|]; simpl; try done. apply (pre_trans (c := str_compare)).
Qed.

#[export] Instance rank_compare_preordered sccs dist : Preordered (rank_compare sccs dist).
Proof.
  pose proof (compare_on_preordered (λ a b, Nat.compare b a) (λ i, default 0 (dist !! i))
    (Preordered0 := reversed_preordered Nat.compare)) as H1.
  pose proof (compare_on_preordered opt_compare (λ i, str_min (default [] (sccs !! i)))) as H2.
  exact (then_with_preordered _ _ (Preordered0 := H1) (Preordered1 := H2)).
Qed.

(** The minimum is a member that is not above any other. *)
Lemma str_min_ok l : l ≠ [] → ∃ x, str_min l = Some x ∧ x ∈ l ∧ ∀ y, y ∈ l → cmp_leb str_compare x y = true.
Proof.
  destruct l as [|x l]; [done|]. intros _. unfold str_min. eexists. split; [done|].
  assert (Hrefl : ∀ y, cmp_leb str_compare y y = true) by (intros y; by destruct (cmp_leb_total str_compare y y)).
  revert x. induction l as [|z l IH]; intros x; simpl.
  - split; [left|]. by intros y ->%list_elem_of_singleton.
  - assert (Hle : ∀ w, w = match str_compare z x with Lt => z | _ => x end →
              cmp_leb str_compare w x = true ∧ cmp_leb str_compare w z = true ∧ (w = x ∨ w = z)).
    { intros w ->. destruct (str_compare z x) eqn:E; (split; [|split; [|auto]]);
        try apply Hrefl; unfold cmp_leb; rewrite ?(str_compare_antisym z x), ?E; done. }
    destruct (Hle _ eq_refl) as (H1 & H2 & H3). destruct (IH (match str_compare z x with Lt => z | _ => x end)) as [Hin Hmin].
    set (w := match str_compare z x with Lt => z | _ => x end) in *.
    set (r := foldl _ w l) in *. split; [destruct H3 as [->| ->]; rewrite !elem_of_cons in *; tauto|].
    intros y [->|[->|Hy]%elem_of_cons]%elem_of_cons; [| |apply Hmin; by right];
      (eapply (cmp_leb_trans str_compare); [apply Hmin; left|done]).
Qed.

(** Deeper first, then by name. *)
Definition ranks_before (c d : DepthChain) : Prop :=
  depth d < depth c ∨ (depth c = depth d ∧ cmp_leb str_compare (file c) (file d) = true).

Lemma concat_perm {A} (l k : list (list A)) : l ≡ₚ k → concat l ≡ₚ concat k.
Proof.
  induction 1; simpl; [done|by f_equiv| |by etrans]. rewrite !(assoc (++)). f_equiv. apply (comm (++)).
Qed.

Lemma foldr_max_perm l k : l ≡ₚ k → foldr Nat.max 0 l = foldr Nat.max 0 k.
Proof. induction 1; simpl; lia. Qed.

Section ranking.
Context (iteration : nat → list nat → list nat) (Hiter : ∀ s l, iteration s l ≡ₚ l).
Context (adj : FileGraph) (sccs : list (list rstr)) (Hsccs : components adj sccs) (dist : list nat)
  (pred : list (option nat)) (Hdl : length dist = length sccs)
  (Hentry : ∀ i c, sccs !! i = Some c → ∃ d, depth_chain sccs dist pred i = Some d ∧ chain_ok adj d ∧
     depth d = dst dist i ∧ scc_files d ≡ₚ c).

Definition ranking : list nat := sort_by (cmp_leb (rank_compare sccs dist)) (seq 0 (length sccs)).

Lemma ranking_perm : ranking ≡ₚ seq 0 (length sccs).
Proof. apply sort_by_perm. Qed.

Lemma ranking_member i : i ∈ ranking ↔ i < length sccs.
Proof. rewrite ranking_perm, elem_of_seq. lia. Qed.

Lemma ranking_entries : ∃ all, Forall2 (λ i d, depth_chain sccs dist pred i = Some d) ranking all.
Proof.
  assert (H : is_Some (mapM (depth_chain sccs dist pred) ranking)).
  { apply mapM_is_Some, Forall_forall. intros i Hi%ranking_member.
    destruct (lookup_lt_is_Some_2 sccs i Hi) as [c Hc]. destruct (Hentry i c Hc) as (d & Hd & _). simpl. by rewrite Hd. }
  destruct H as [all Hall]. exists all. by apply mapM_Some.
Qed.

Section entries.
Context (all : list DepthChain) (Hall : Forall2 (λ i d, depth_chain sccs dist pred i = Some d) ranking all).

Lemma entry_facts k d :
  all !! k = Some d → ∃ i c, ranking !! k = Some i ∧ sccs !! i = Some c ∧ chain_ok adj d ∧ depth d = dst dist i ∧
    scc_files d ≡ₚ c.
Proof.
  intros Hk. destruct (Forall2_lookup_r _ _ _ _ _ Hall Hk) as (i & Hi & Hd).
  assert (Hil : i < length sccs) by (apply ranking_member; by eapply list_elem_of_lookup_2).
  destruct (lookup_lt_is_Some_2 sccs i Hil) as [c Hc]. destruct (Hentry i c Hc) as (d' & Hd' & ?).
  exists i, c. by simplify_eq.
Qed.

Lemma entry_file i c d :
  sccs !! i = Some c → chain_ok adj d → scc_files d ≡ₚ c →
  ∃ x, str_min c = Some x ∧ cmp_leb str_compare x (file d) = true ∧ cmp_leb str_compare (file d) x = true.
Proof.
  intros Hi Hd Hp. destruct (str_min_ok c) as (x & Hx & Hin & Hmin); [by apply (component_nonempty adj sccs Hsccs i)|].
  exists x. split; [done|]. pose proof (ck_file _ _ Hd) as Hf. pose proof (ck_sorted _ _ Hd) as Hs.
  rewrite <- Hp in Hin. destruct (scc_files d) as [|f rest]; [done|]. simpl in Hf. simplify_eq.
  split; [apply Hmin; rewrite <- Hp; left|]. apply StronglySorted_inv in Hs as [_ Hs]. rewrite Forall_forall in Hs.
  apply elem_of_cons in Hin as [->|Hin]; [|by apply Hs]. by destruct (cmp_leb_total str_compare (file d) (file d)).
Qed.

Lemma entries_sorted : StronglySorted ranks_before all.
Proof.
  assert (Hs : StronglySorted (leb_rel (cmp_leb (rank_compare sccs dist))) ranking).
  { apply sort_by_sorted; [apply (cmp_leb_total (rank_compare sccs dist))|apply (cmp_leb_trans (rank_compare sccs dist))]. }
  assert (Hin : ∀ i, i ∈ ranking → i < length sccs) by (intros i; apply ranking_member).
  revert Hs Hin. induction Hall as [|i d r k Hd Hrest IH]; intros Hs Hin; [constructor|].
  apply StronglySorted_inv in Hs as [Hs Hi]. constructor; [apply IH; [done|done|]; intros j Hj; apply Hin; by right|].
  rewrite Forall_forall in Hi. rewrite Forall_forall. intros e [j He]%list_elem_of_lookup.
  destruct (Forall2_lookup_r _ _ _ _ _ Hrest He) as (s & Hs' & He'). apply list_elem_of_lookup_2 in Hs'. specialize (Hi s Hs').
  destruct (lookup_lt_is_Some_2 sccs i) as [ci Hci]; [apply Hin; left|].
  destruct (lookup_lt_is_Some_2 sccs s) as [cs Hcs]; [apply Hin; by right|].
  destruct (Hentry i ci Hci) as (d' & Hd' & Hok & Hdd & Hdp). destruct (Hentry s cs Hcs) as (e' & Hee' & Hok' & Hde & Hep).
  simplify_eq. destruct (entry_file i ci d Hci Hok Hdp) as (x & Hx & Hx1 & Hx2).
  destruct (entry_file s cs e Hcs Hok' Hep) as (y & Hy & Hy1 & Hy2).
  unfold leb_rel, cmp_leb, rank_compare, then_with in Hi. rewrite Hci, Hcs in Hi. simpl in Hi. rewrite Hx, Hy in Hi. simpl in Hi.
  unfold ranks_before. rewrite Hdd, Hde. unfold dst in *.
  destruct (Nat.compare_spec (default 0 (dist !! s)) (default 0 (dist !! i))) as [Heq|Hlt|Hgt]; [|by left|done].
  right. split; [done|]. eapply (cmp_leb_trans str_compare); [exact Hx2|].
  eapply (cmp_leb_trans str_compare); [|exact Hy1]. unfold cmp_leb. by destruct (str_compare x y).
Qed.

Lemma entries_files : concat (scc_files <$> all) ≡ₚ concat sccs.
Proof.
  trans (concat ((λ i, default [] (sccs !! i)) <$> ranking)).
  - assert (Hin : ∀ i, i ∈ ranking → i < length sccs) by (intros i; apply ranking_member). revert Hin.
    induction Hall as [|i d r k Hd Hrest IH]; intros Hin; [done|]. simpl. f_equiv; [|apply IH; [done|]; intros j Hj; apply Hin; by right].
    destruct (lookup_lt_is_Some_2 sccs i) as [c Hc]; [apply Hin; left|]. rewrite Hc. simpl.
    destruct (Hentry i c Hc) as (d' & Hd' & _ & _ & Hp). by simplify_eq.
  - assert (Htab : (λ i, default [] (sccs !! i)) <$> seq 0 (length sccs) = sccs) by apply (list_tabulated sccs []).
    trans (concat ((λ i, default [] (sccs !! i)) <$> seq 0 (length sccs))); [|by rewrite Htab].
    apply concat_perm, fmap_Permutation, ranking_perm.
Qed.

Lemma entries_max : foldr Nat.max 0 dist = foldr Nat.max 0 (depth <$> all).
Proof.
  assert (Htab : dst dist <$> seq 0 (length sccs) = dist) by (rewrite <- Hdl; apply (list_tabulated dist 0)).
  trans (foldr Nat.max 0 (dst dist <$> seq 0 (length sccs))); [by rewrite Htab|].
  rewrite <- (foldr_max_perm _ _ (fmap_Permutation (dst dist) _ _ ranking_perm)). f_equal.
  assert (Hin : ∀ i, i ∈ ranking → i < length sccs) by (intros i; apply ranking_member). revert Hin.
  induction Hall as [|i d r k Hd Hrest IH]; intros Hin; [done|]. rewrite !fmap_cons. f_equal; [|apply IH; [done|]; intros j Hj; apply Hin; by right].
  destruct (lookup_lt_is_Some_2 sccs i) as [c Hc]; [apply Hin; left|].
  destruct (Hentry i c Hc) as (d' & Hd' & _ & Hdd & _). by simplify_eq.
Qed.
End entries.
End ranking.

(** ** The two measures *)
Lemma numbered_component adj sccs x i :
  components adj sccs → number_nodes 0 sccs ∅ !! x = Some i ↔ ∃ c, sccs !! i = Some c ∧ x ∈ c.
Proof.
  intros (Hnd & _). destruct (number_nodes_lookup 0 sccs ∅ x Hnd) as [Hin Hout]. split.
  - intros Hi. destruct (decide (x ∈ concat sccs)) as [Hx|Hx]; [|rewrite (Hout Hx), lookup_empty in Hi; done].
    apply elem_of_concat in Hx as (c & Hx & [j Hj]%list_elem_of_lookup).
    rewrite (Hin j c Hj Hx) in Hi. exists c. by simplify_eq.
  - intros (c & Hi & Hx). by rewrite (Hin i c Hi Hx).
Qed.

(** The tables [dependency_depth] computes. *)
Lemma depth_tables iteration adj sccs :
  (∀ s l, iteration s l ≡ₚ l) → components adj sccs →
  ∃ m indeg order dist pred,
    scc_edges (number_nodes 0 sccs ∅) adj ∅ = Some m ∧
    count_targets (concat (snd <$> map_to_list m)) (replicate (length sccs) 0) = Some indeg ∧
    topo_loop iteration m (S (length sccs))
      (List.filter (λ i, default 0 (indeg !! i) =? 0) (seq 0 (length sccs))) indeg [] = Some order ∧
    relax_all iteration m order (replicate (length sccs) 0) (replicate (length sccs) None) = Some (dist, pred) ∧
    length dist = length sccs ∧
    ∀ i c, sccs !! i = Some c → ∃ d, depth_chain sccs dist pred i = Some d ∧ chain_ok adj d ∧
      depth d = dst dist i ∧ scc_files d ≡ₚ c.
Proof.
  intros Hiter Hsccs. pose proof (λ x i, numbered_component adj sccs x i Hsccs) as Hf.
  destruct (scc_edges_ok (number_nodes 0 sccs ∅) adj ∅) as (m & Hrun & Hok & He).
  { intros s set Hl. by rewrite lookup_empty in Hl. }
  { intros x Hx. destruct (component_of adj sccs Hsccs x Hx) as (i & c & Hi). exists i. apply Hf. by exists c. }
  assert (Hm : ∀ s t, set_edge m s t ↔ s ≠ t ∧ ∃ x y cs ct,
            edge adj x y ∧ sccs !! s = Some cs ∧ x ∈ cs ∧ sccs !! t = Some ct ∧ y ∈ ct).
  { intros s t. rewrite He. setoid_rewrite Hf. split.
    - intros [(set & Hset & _)|(Hne & x & y & Hxy & (cs & ? & ?) & (ct & ? & ?))]; [by rewrite lookup_empty in Hset|].
      split; [done|]. by exists x, y, cs, ct.
    - intros (Hne & x & y & cs & ct & ? & ? & ? & ? & ?). right. split; [done|]. exists x, y. eauto 10. }
  pose proof (set_edge_down adj sccs Hsccs m Hm) as Hkeys.
  destruct (queue_start iteration m (length sccs) Hiter Hok Hkeys) as (indeg & Hcount & Hqueue).
  pose proof (neighbors_down iteration m (length sccs) Hiter Hkeys) as Hdown.
  pose proof (neighbors_nodup iteration m Hiter Hok) as Hnd.
  destruct (topo_loop_ok iteration m (length sccs) Hnd Hdown (S (length sccs)) _ indeg [] Hqueue)
    as (order & Htopo & Honce & Hall & Hbefore); [simpl; lia|].
  destruct (relax_all_ok iteration m (length sccs) Hnd Hdown order Honce Hall Hbefore [] order
    (replicate (length sccs) 0) (replicate (length sccs) None)) as (dist & pred & Hrelax & Hdp);
    [done|apply dp_initial|].
  exists m, indeg, order, dist, pred. split_and!; try done; [apply Hdp|].
  by apply (depth_chain_ok iteration Hiter adj sccs Hsccs m Hm order Hall dist pred Hdp).
Qed.

Lemma take_entries (f : nat → option DepthChain) r all limit :
  Forall2 (λ i d, f i = Some d) r all → mapM f (take limit r) = Some (take limit all).
Proof. intros Hall. apply mapM_Some. by apply Forall2_take. Qed.

(** C23. Whatever the iteration order of the hash sets, [dependency_depth]
    returns without a panic the first [limit] entries of a ranking of all
    components, deepest first and then by name.  An entry lists the files of one
    component in order; its depth is the length of the longest sequence of
    files, each leading to the next and not back, that reaches it, and its chain
    is such a sequence.  The maximal depth is that of the ranking. *)
Theorem dependency_depth_ranks_longest_chains iteration adj limit :
  (∀ s l, iteration s l ≡ₚ l) → NoDup adj.*1 → (zlen (mentions adj) <= UNVISITED)%Z →
  ∃ r ranked, dependency_depth iteration adj limit = Some r ∧ chains r = take limit ranked ∧
    Forall (chain_ok adj) ranked ∧ StronglySorted ranks_before ranked ∧
    NoDup (concat (scc_files <$> ranked)) ∧ (∀ x, x ∈ concat (scc_files <$> ranked) ↔ mentioned adj x) ∧
    max_depth r = foldr Nat.max 0 (depth <$> ranked).
Proof.
  intros Hiter Hnd Hfit. unfold dependency_depth.
  destruct (Nat.eqb_spec (size (list_to_set (mentions adj) : gset rstr)) 0) as [Hz|_].
  - exists {| max_depth := 0; chains := [] |}, []. split; [done|]. split; [by rewrite take_nil|]. do 3 (split; [constructor|]).
    split; [|done]. intros x. split; [by intros ?%elem_of_nil|].
    intros Hx%mentioned_in_mentions. apply size_empty_inv in Hz. set_solver.
  - destruct (tarjan_run adj Hnd Hfit) as (sccs & -> & Hsccs). simpl.
    destruct (depth_tables iteration adj sccs Hiter Hsccs)
      as (m & indeg & order & dist & pred & -> & Hc & Ht & Hr & Hdl & Hentry).
    simpl. rewrite Hc. simpl. simpl in Ht. rewrite Ht. simpl. rewrite Hr. simpl.
    destruct (ranking_entries adj sccs dist pred Hdl Hentry) as [all Hall].
    fold (ranking sccs dist). rewrite (take_entries _ _ all limit Hall). simpl. eexists _, all. split_and!; try done.
    + apply Forall_lookup_2. intros k d Hk.
      by destruct (entry_facts adj sccs dist pred Hdl Hentry all Hall k d Hk) as (? & ? & ? & ? & ? & ?).
    + by apply (entries_sorted adj sccs Hsccs dist pred Hdl Hentry).
    + rewrite (entries_files adj sccs dist pred Hdl Hentry all Hall). apply Hsccs.
    + intros x. rewrite (entries_files adj sccs dist pred Hdl Hentry all Hall). apply Hsccs.
    + by apply (entries_max adj sccs dist pred Hdl Hentry).
Qed.

(** *** Circular dependencies *)

(** A run that is not cancelled reports exactly the circular dependencies:
    the reported groups are disjoint, a file is in one of them if and only if a
    chain of dependencies leads from it back to itself, and a group holds, in
    order, the files that depend on each other.  The authority is asked once per
    file, and its first positive answer cancels the run, which then reports
    nothing. *)
Theorem circular_dependencies_are_the_cycles adj cancelled :
  NoDup adj.*1 → (zlen (mentions adj) <= UNVISITED)%Z →
  (∃ cycles, find_circular_dependencies adj cancelled = Some (Ok cycles) ∧ NoDup (concat cycles) ∧
     (∀ x, x ∈ concat cycles ↔ tc (edge adj) x x) ∧
     (∀ c, c ∈ cycles → StronglySorted (leb_rel (cmp_leb str_compare)) c ∧
        ∀ x, x ∈ c → ∀ y, y ∈ c ↔ mutual adj x y)) ∨
  (∃ k names, find_circular_dependencies adj cancelled = Some (Err SccCancelledError) ∧
     cancelled k = true ∧ (∀ j, j < k → cancelled j = false) ∧
     NoDup names ∧ (∀ x, x ∈ names ↔ mentioned adj x) ∧ k < length names).
Proof.
  intros Hnd Hfit. unfold find_circular_dependencies.
  destruct (cancellable_run adj cancelled Hnd Hfit)
    as [(sccs & -> & Hsccs & _)|(k & names & -> & Hrest)]; [left|right; by exists k, names].
  set (cyclic := List.filter _ sccs). exists (sort_by (cmp_leb str_compare) <$> cyclic). split; [done|].
  assert (Hperm : concat (sort_by (cmp_leb str_compare) <$> cyclic) ≡ₚ concat cyclic).
  { clear. induction cyclic as [|c l IH]; [done|]. simpl. by rewrite sort_by_perm, IH. }
  assert (Hcyc : ∀ c, c ∈ cyclic ↔ c ∈ sccs ∧ ∃ x, x ∈ c ∧ tc (edge adj) x x).
  { intros c. unfold cyclic. rewrite elem_of_filterb. split; intros [H1 H2].
    - split; [done|]. by apply (cyclic_component adj sccs c).
    - split; [done|]. by apply (cyclic_component adj sccs c). }
  split_and!.
  - rewrite Hperm. eapply sublist_NoDup; [apply Hsccs|]. apply concat_filter_sublist.
  - intros x. rewrite Hperm, elem_of_concat. split.
    + intros (c & Hx & [Hc (z & Hz & Ht)]%Hcyc). apply list_elem_of_lookup in Hc as [i Hi].
      destruct (proj1 (component_class adj sccs Hsccs i c x z Hi Hx) Hz) as [Hxz Hzx].
      eapply tc_rtc_l; [exact Hxz|]. eapply tc_rtc_r; [exact Ht|exact Hzx].
    + intros Ht. destruct (component_of adj sccs Hsccs x) as (i & c & Hi & Hx).
      { inversion Ht as [? ? He|? z ? He _]; subst; by apply edge_mentioned in He as [? _]. }
      exists c. split; [done|]. apply Hcyc. split; [by eapply list_elem_of_lookup_2|by exists x].
  - intros c (d & -> & [Hd _]%Hcyc)%list_elem_of_fmap. destruct (sorted_files d) as [Hp Hs]. split; [done|].
    apply list_elem_of_lookup in Hd as [i Hi]. intros x Hx y. rewrite Hp in Hx |- *.
    by apply (component_class adj sccs Hsccs i d x y).
Qed.

(** *** Edges in cycles *)

(** [x] is on a cycle through another file. *)
Definition on_cycle (adj : FileGraph) (x : rstr) : Prop := ∃ y, y ≠ x ∧ mutual adj x y.
Definition all_edges (adj : FileGraph) : list (rstr * rstr) :=
  adj ≫= λ entry, pair (fst entry) <$> snd entry.

Lemma all_edges_edge adj x y : (x, y) ∈ all_edges adj ↔ edge adj x y.
Proof.
  unfold all_edges. rewrite list_elem_of_bind. split.
  - intros ([u l] & Hin & Hl). simpl in Hin. apply list_elem_of_fmap in Hin as (z & Heq & Hz). simplify_eq. by exists l.
  - intros (l & Hl & Hy). exists (x, l). split; [|done]. simpl. by apply list_elem_of_fmap_2.
Qed.

(** A path to another node leaves by an edge to another node. *)
Lemma leaving_edge (adj : FileGraph) (x y : rstr) : rtc (edge adj) x y → x ≠ y → ∃ z, edge adj x z ∧ z ≠ x ∧ rtc (edge adj) z y.
Proof.
  induction 1 as [x|x z y He Hr IH]; intros Hne; [done|].
  destruct (decide (z = x)) as [->|Hzx]; [by apply IH|by exists z].
Qed.

Lemma in_cycle_on_cycle adj sccs x : components adj sccs → x ∈ in_cycle sccs ↔ on_cycle adj x.
Proof.
  intros Hsccs. unfold in_cycle. rewrite elem_of_list_to_set, elem_of_concat.
  setoid_rewrite list_elem_of_In. setoid_rewrite List.filter_In. setoid_rewrite <- list_elem_of_In.
  setoid_rewrite Nat.ltb_lt. split.
  - intros (c & Hx & Hc & Hlen). apply list_elem_of_lookup in Hc as [i Hi].
    assert (Hnd : NoDup c).
    { destruct Hsccs as (Hnd & _). rewrite <- (take_drop_middle _ _ _ Hi), concat_app in Hnd.
      apply NoDup_app in Hnd as (_ & _ & Hnd). simpl in Hnd. by apply NoDup_app in Hnd as (? & _). }
    assert (Hy : ∃ y, y ∈ c ∧ y ≠ x).
    { destruct c as [|a [|b c]]; simpl in Hlen; [lia|lia|]. apply NoDup_cons in Hnd as [Hab _].
      destruct (decide (a = x)) as [->|Ha]; [exists b|exists a]; split; try (rewrite !elem_of_cons; tauto); [|done].
      intros ->. apply Hab. left. }
    destruct Hy as (y & Hy & Hne). exists y. split; [done|]. by apply (component_class adj sccs Hsccs i c x y).
  - intros (y & Hne & Hm). destruct (leaving_edge adj x y (proj1 Hm)) as (z & Hz & _); [done|].
    destruct (component_of adj sccs Hsccs x) as (i & c & Hi & Hx); [by apply (edge_mentioned adj x z)|].
    exists c. split; [done|]. split; [by eapply list_elem_of_lookup_2|].
    assert (Hy : y ∈ c) by (by apply (component_class adj sccs Hsccs i c x y)).
    destruct c as [|a [|b c]]; simpl; [by apply elem_of_nil in Hx| |lia].
    apply list_elem_of_singleton in Hx, Hy. congruence.
Qed.

Lemma counted_edges (cyclic : gset rstr) adj :
  sum_list_with (λ entry, length (List.filter (λ target, bool_decide (target ∈ cyclic)) (snd entry)))
    (List.filter (λ entry, bool_decide (fst entry ∈ cyclic)) adj) =
  length (filter (λ e, e.1 ∈ cyclic ∧ e.2 ∈ cyclic) (all_edges adj)).
Proof.
  induction adj as [|[x l] adj IH]; [done|]. unfold all_edges. rewrite bind_cons. fold (all_edges adj).
  rewrite filter_app, length_app, <- IH. simpl. clear IH.
  assert (Hl : length (filter (λ e : rstr * rstr, e.1 ∈ cyclic ∧ e.2 ∈ cyclic) (pair x <$> l)) =
    if decide (x ∈ cyclic) then length (List.filter (λ target, bool_decide (target ∈ cyclic)) l) else 0).
  { induction l as [|y l IH]; [by case_decide|]. rewrite fmap_cons, filter_cons. cbn [List.filter]. cbn [fst snd].
    destruct (decide (x ∈ cyclic)) as [Hx|Hx], (decide (y ∈ cyclic)) as [Hy|Hy].
    - rewrite decide_True, bool_decide_eq_true_2 by done. simpl. by rewrite IH.
    - rewrite decide_False, bool_decide_eq_false_2 by naive_solver. done.
    - rewrite decide_False by naive_solver. done.
    - rewrite decide_False by naive_solver. done. }
  rewrite Hl. destruct (decide (x ∈ cyclic)) as [Hx|Hx].
  - by rewrite bool_decide_eq_true_2 by done.
  - by rewrite bool_decide_eq_false_2 by done.
Qed.

(** The edges [acyclicity_score] counts are those of which either end is
    on a cycle through another file; the count is zero exactly when no two files
    depend on each other. *)
Theorem edges_in_cycles_exact adj :
  NoDup adj.*1 → (zlen (mentions adj) <= UNVISITED)%Z →
  ∃ counted, edges_in_cycles adj = Some (length counted) ∧ counted `sublist_of` all_edges adj ∧
    (∀ x y, (x, y) ∈ counted ↔ edge adj x y ∧ on_cycle adj x ∧ on_cycle adj y) ∧
    (counted = [] ↔ ∀ x y, mutual adj x y → x = y).
Proof.
  intros Hnd Hfit. destruct (tarjan_run adj Hnd Hfit) as (sccs & Hrun & Hsccs).
  exists (filter (λ e, e.1 ∈ in_cycle sccs ∧ e.2 ∈ in_cycle sccs) (all_edges adj)).
  assert (Hmem : ∀ x y, (x, y) ∈ filter (λ e, e.1 ∈ in_cycle sccs ∧ e.2 ∈ in_cycle sccs) (all_edges adj) ↔
                        edge adj x y ∧ on_cycle adj x ∧ on_cycle adj y).
  { intros x y. rewrite list_elem_of_filter, all_edges_edge. simpl. rewrite !(in_cycle_on_cycle adj sccs) by done. tauto. }
  split_and!; [|apply sublist_filter|done|].
  - unfold edges_in_cycles. destruct (Nat.eqb_spec (sum_list_with (λ entry, length (snd entry)) adj) 0) as [Hz|_].
    + f_equal. assert (all_edges adj = []) as ->; [|done]. clear -Hz. induction adj as [|[x l] adj IH]; [done|].
      simpl in Hz. unfold all_edges. rewrite bind_cons. fold (all_edges adj). rewrite IH by lia. by destruct l.
    + rewrite Hrun. simpl. by rewrite counted_edges.
  - split.
    + intros Hnil x y Hm. destruct (decide (x = y)) as [|Hne]; [done|exfalso].
      destruct (leaving_edge adj x y (proj1 Hm) Hne) as (z & He & Hzx & Hzy).
      assert (Hmz : mutual adj x z) by (split; [by apply rtc_once|etrans; [done|apply Hm]]).
      assert (Hin : (x, z) ∈ ([] : list (rstr * rstr))); [|by apply elem_of_nil in Hin].
      rewrite <- Hnil. apply Hmem. split; [done|]. split; [by exists z|]. exists x. split; [done|]. destruct Hmz. by split.
    + intros Hac. destruct (filter _ _) as [|[x y] l] eqn:E; [done|]. exfalso.
      assert (Hin : (x, y) ∈ (x, y) :: l) by left.
      apply Hmem in Hin as (_ & (z & Hz & Hm) & _). apply Hz. symmetry. by apply Hac.
Qed.

(** ** A sample graph *)
Definition sample_files : FileGraph :=
  [(str "a", [str "b"]); (str "b", [str "a"; str "c"]); (str "c", [str "d"]); (str "d", [str "c"])].

Lemma sample_files_ok : NoDup sample_files.*1 ∧ (zlen (mentions sample_files) <= UNVISITED)%Z.
Proof. split; [by apply (bool_decide_unpack (NoDup sample_files.*1)); vm_compute|by vm_compute]. Qed.

Lemma sample_depths :
  (λ r, (max_depth r, file <$> chains r, chain <$> chains r)) <$> dependency_depth (λ _ l, l) sample_files 1 =
    Some (1, [str "c"], [[str "b"; str "d"]]).
Proof. vm_compute. reflexivity. Qed.

Lemma dependency_depth_ranks_longest_chains_witness :
  ∃ r, dependency_depth (λ _ l, l) sample_files 1 = Some r ∧ file <$> chains r = [str "c"] ∧
    Forall (chain_ok sample_files) (chains r).
Proof.
  destruct sample_files_ok as [Hnd Hfit].
  destruct (dependency_depth_ranks_longest_chains (λ _ l, l) sample_files 1 (λ _ _, Permutation_refl _) Hnd Hfit)
    as (r & ranked & Hrun & Hc & Hok & _).
  exists r. split; [exact Hrun|]. split.
  - pose proof sample_depths as Hs. rewrite Hrun in Hs. simpl in Hs. by injection Hs.
  - rewrite Hc. by apply Forall_take.
Defined.

Lemma sample_cycles :
  find_circular_dependencies sample_files (λ _, false) = Some (Ok [[str "c"; str "d"]; [str "a"; str "b"]]).
Proof. vm_compute. reflexivity. Qed.

Lemma circular_dependencies_are_the_cycles_witness :
  ∃ cycles, find_circular_dependencies sample_files (λ _, false) = Some (Ok cycles) ∧ length cycles = 2 ∧
    NoDup (concat cycles).
Proof.
  destruct sample_files_ok as [Hnd Hfit].
  destruct (circular_dependencies_are_the_cycles sample_files (λ _, false) Hnd Hfit)
    as [(cycles & Hrun & Hc & _)|(k & names & _ & Hk & _)]; [|discriminate Hk].
  exists cycles. split; [exact Hrun|]. split; [|exact Hc]. pose proof sample_cycles as Hs.
  rewrite Hrun in Hs. by injection Hs as ->.
Defined.

Lemma sample_count : edges_in_cycles sample_files = Some 5.
Proof. vm_compute. reflexivity. Qed.

Lemma edges_in_cycles_exact_witness :
  ∃ counted, edges_in_cycles sample_files = Some (length counted) ∧ length counted = 5 ∧
    counted `sublist_of` all_edges sample_files.
Proof.
  destruct sample_files_ok as [Hnd Hfit].
  destruct (edges_in_cycles_exact sample_files Hnd Hfit) as (counted & Hrun & Hsub & _).
  exists counted. split; [exact Hrun|]. split; [|exact Hsub]. pose proof sample_count as Hs.
  rewrite Hrun in Hs. by injection Hs.
Defined.

(** The edge from the one cycle of the sample to the other is counted as an edge
    in a cycle, and it is on none: nothing leads back. *)
Theorem edge_between_cycles_is_counted :
  edges_in_cycles sample_files = Some 5 ∧ length (all_edges sample_files) = 5 ∧
  edge sample_files (str "b") (str "c") ∧ ¬ rtc (edge sample_files) (str "c") (str "b").
Proof.
  split; [apply sample_count|]. split; [done|].
  assert (He : ∀ x y, edge sample_files x y ↔ (x, y) ∈ all_edges sample_files) by (intros; by rewrite all_edges_edge).
  split; [apply He; vm_compute; set_solver|]. intros Hr.
  assert (Hinv : ∀ x y, rtc (edge sample_files) x y → x ∈ [str "c"; str "d"] → y ∈ [str "c"; str "d"]).
  { induction 1 as [|x z y Hxz _ IH]; [done|]. intros Hx. apply IH. apply He in Hxz. revert Hx Hxz. vm_compute. set_solver. }
  specialize (Hinv _ _ Hr). revert Hinv. vm_compute. set_solver.
Qed.
